(* ===== verification/_CoqProject ===== *)
-Q . S2P
Prelude.v
Framing.v
Protocol.v
Codec.v
Numeric.v
CircuitBreaker.v
RateLimiter.v
Aoi.v
CrossList.v
TimerWheel.v
Wire.v
Effects.v
FrameSync.v
StateSync.v
SlgMap.v
Discovery.v
LoadBalance.v
ConsistentHash.v
Cluster.v
Session.v
Game.v
GameFacts.v
GameRooms.v
GameDisconnect.v
NumericBounds.v
Battle.v
BattleFacts.v
StdNum.v
Redis.v
RedisTypes.v
RedisFacts.v
DistLock.v
DistLockFacts.v
DistLockRuns.v
Storage.v
Orm.v
OrmFacts.v
TaskQueue.v
TaskQueueFacts.v
Http.v
HttpFacts.v
Gateway.v
Rpc.v
RpcFacts.v
RpcCalls.v
ConnPool.v
ConnPoolFacts.v
ObjectPool.v
ObjectPoolFacts.v
Config.v
Metrics.v
MetricsFacts.v
ThreadPool.v
AsyncStorage.v
AsyncStorageFacts.v
EventBus.v
EventBusFacts.v
Server.v
ServerFacts.v
ServerRuns.v
ServerMessages.v
DelayedQueue.v
Sql.v
Mysql.v
StorageFactory.v
Benchmark.v
RpcSync.v
ConnPoolSync.v
DistLockWait.v
StateValues.v
WsServer.v
HttpServer.v
Mongodb.v
Udp.v
Logger.v
Tls.v
Lifecycle.v
