(* ===== verification/Prelude.v ===== *)
(** * ChwellCore: a verification library of the game-server framework

    The program (src/include and src/src under the repository's root) is a C++17
    framework for game servers: codecs and a message protocol over TCP, a service
    made of components that handle messages, and the modules a game is built of.
    This library models its components as executable Gallina functions on explicit
    states and proves what makes each of them correct.  Where the code is wrong, a
    theorem says exactly how it behaves.

    ** Conventions

    Integers are [Z]; unsigned arithmetic is reduced modulo a power of two where the
    C++ expression is ([u16], [u32], [u64], [uwrap]), signed arithmetic is checked
    ([as_int], [to_int], [int_div], [i64_add]; in SlgMap's own coordinates and the number
    of virtual nodes of ConsistentHash it is on [Z]): overflow, a read out of range, a cast of a double out of
    range are undefined behaviour, a value of the outcome type ([Undefined],
    [UndefinedCall], [None]), never an arbitrary result.  [double] is the IEEE binary64
    of the Standard Library's SpecFloat.  Strings and packets are lists of bytes.  An
    unordered container is a stdpp [gmap] or [gset]; code that iterates over one takes
    the order from the class [IterOrder] (Effects.v), any permutation.  Clocks,
    generators and [rand()] are given as arguments (a reading, or the sequence of
    readings).  Loops that are not structural have fuel: [Fuel] is a separate outcome
    and the theorems show it does not occur (Framing.v: the bytes left; TimerWheel.v:
    the tasks of a slot, except the repeating loop that really never ends).

    ** Files, in dependency order, with the code they model

    - Prelude: notations, bytes, sums over lists, outcomes, the tactics [breflect],
      [case_test] and [obinv], the hint databases [chwell] and [chwell_rw].
    - Framing: the class of length-prefixed framings and the receive buffer all stream
      decoders share; Protocol: core/endian.h, protocol/message.cpp and parser.cpp;
      Codec: codec/codec.cpp (three codecs, instances of the same class).  Theorems:
      what was sent is received, whatever the packets; decoding terminates in bounds.
    - Numeric, NumericBounds: binary64 and checked integers; how large a rounded result
      can be.  StdNum: [stoll], [stod] and [to_string].
    - CircuitBreaker, RateLimiter: circuitbreaker/ and ratelimit/.  Theorems: trips after
      the configured failures; each limiter's bound per window; the leaky bucket is the
      token bucket.
    - Aoi, CrossList: aoi/aoi.cpp, the grid and the cross-linked lists (a heap of nodes
      with pointers), every [int] of them checked.  Theorems: views are exact and stay in
      step with the events sent; no [int] overflows on a map whose counts fit ([config_ok]),
      and a larger map overflows in the constructor; the pointer structure refines a finite
      map, and its view query is exact while its window fits.
    - TimerWheel: core/timer_wheel.cpp.  Theorems: a cancelled timer never fires; after any
      calm history (repeating timers slower than a tick, callbacks that leave the wheel
      alone) a timer fires at its tick and once; what the constructor overflows on, and the
      repeating timer that hangs a tick.
    - Wire, Effects: the little encodings of handlers; the monad of handlers with mutexes
      (a lock taken twice is [Deadlock]) and iteration orders.  FrameSync, StateSync:
      sync/frame_sync.cpp and state_sync.cpp on them; StateValues: the typed values, across machines.
    - SlgMap, Battle (with BattleFacts): slg/map.cpp and battle.cpp.
    - Discovery, LoadBalance, ConsistentHash, Cluster: the registry of services with
      leases, the balancers behind one interface (class [LoadBalancer] with its laws), the
      hash ring, the cluster nodes that register themselves on the discovery.
    - Session, Game: service/ (sessions, components, router) and game/ (login, chat, rooms,
      heartbeat, movement).  GameFacts goes from the bytes of a connection to the handlers,
      over the parser of Protocol; GameRooms from any history of packets and disconnects to
      who hears a chat; GameDisconnect to what a disconnect forgets.
    - Redis (RedisTypes, RedisFacts): redis/redis_client.cpp, the in-memory store and its
      commands.  DistLock (DistLockFacts, DistLockRuns): redis/distributed_lock.h, clients of
      that store as interleaved atomic steps; mutual exclusion by an invariant over every
      interleaving, and the runs in which the lock fails.
      DistLockWait: the polling [lock] over those steps, and the guard.
    - Storage, Orm (OrmFacts): storage/ and storage/orm/, the interface of the back ends as a
      class with laws, the in-memory back end as an instance, and documents and repositories
      over any lawful back end.  AsyncStorage (AsyncStorageFacts): async_storage_adapter.cpp,
      clients and workers as interleaved steps on any back end, one operation of the back end
      a step (the interface's [mget] and [mput] are loops of them).  Theorems: every history is
      a sequence of operations that interleaves the requests' own, no request is lost, done
      twice or answered otherwise; the shared condition variable can leave every thread asleep.
    - Sql, Mysql: mysql_storage.cpp over a server of which Sql states what MySQL's manual
      says of SELECT, DELETE and REPLACE on a table, whatever their text; the code's texts are
      parsed, and their effects are lemmas.  Theorems: it refines a map on the keys the
      collation distinguishes, and how it differs from the in-memory back end.  StorageFactory: the loader of its
      configuration over a YAML library, the factory and the component; from a file to the map.
      Mongodb: mongodb_storage.cpp over a client library that does what its documentation
      says; it answers as the in-memory back end, and where it does not.
    - TaskQueue (TaskQueueFacts): task/task_queue.cpp, its users and workers as interleaved
      atomic steps.  DelayedQueue: its DelayedTaskQueue, a wheel of TimerWheel that submits.
    - Gateway: gateway/gateway_forwarder.cpp on the registry of Cluster and the parser of
      Protocol.  Theorem: a session relays exactly, whatever the others do.
    - Rpc (RpcFacts, RpcCalls): rpc/, the client's table of calls and the server's dispatch,
      both with the parser of Protocol; the client with the breaker of CircuitBreaker and any
      limiter.  Theorems: calls are answered end to end, every callback is called once, and
      how the breaker, the limiter and reconnecting go wrong.  RpcSync: the thread that waits for
      its own call, and the server as a component.
    - ConnPool (ConnPoolFacts): net/connection_pool.cpp, its users as interleaved atomic steps;
      who owns a connection, how far the limit is exceeded, who waits; guards and the manager.
      ConnPoolSync: threads that wait for a connection, and threads that fill a pool up.
    - ObjectPool (ObjectPoolFacts): pool/object_pool.h, objects and buffers.
    - Config: core/config.cpp.  Metrics (MetricsFacts): metrics/, with doubles written in six
      digits.
    - Server (ServerFacts, ServerRuns): net/tcp_server.cpp, tcp_connection.cpp, posix_io and the
      start, stop and destructor of service/service.h: the accept thread, the io threads with
      their read loops, senders and closers as interleaved steps over the kernel's table of
      descriptors.  Theorems: each connection's events, whole messages on their own streams;
      and the runs in which a descriptor is reused, a client starves, the service cannot stop.
      ServerMessages: the protocol's messages over those threads, end to end.  WsServer:
      ws_server.cpp, ws_connection.cpp and connection_adapter.h over the same steps; a program
      that is polite to its connections cannot tell the two servers apart.  Lifecycle: opening
      the listening socket, starting and stopping more than once.  Tls: net/tls.cpp, the
      objects asked of OpenSSL and when they are freed.
    - ThreadPool: core/thread_pool.cpp, its workers, posts and destructor as interleaved steps:
      no wakeup is lost and the destructor drains the queue.
    - EventBus (EventBusFacts): event/event_bus.h, publications whose handlers use the bus
      themselves: who is called and in which order, when it ends, when a handler is used
      after it is destroyed.
    - Benchmark: benchmark/, the suite with its statistics in binary64, and the functions it
      measures, which compute with LoadBalance, ConsistentHash and Protocol.
    - Http (HttpFacts): http/, a session from the reads of its socket to the bytes written.
      HttpServer: the accept thread, the io threads and their sessions as interleaved steps.
    - Udp: net/udp_server.cpp and udp_socket.cpp; the datagrams relayed, and the one that ends
      the server.  Logger: core/logger.cpp, what each stream holds.

    ** Abstract specifications and refinements

    The stream decoders refine a parse of the bytes received ([Framing.parses]); the
    router refines handling the messages one after the other; the cross-linked lists, the
    discovery and the storage refine finite maps; the leaky bucket is the token bucket; the
    hash ring is the nearest point clockwise.

    ** Not modelled

    OpenSSL, the YAML parser and other libraries, generated protobuf classes, the example programs and the
    tests.  The MongoDB client's find_one_with_opts is not in its documentation; it is taken
    for the first document of find_with_opts.  Logging is left out of every model.  The
    handlers of Game, FrameSync, StateSync and Cluster run one at a time, as on one io
    thread; threads are interleaved where the code is about them (DistLock, TaskQueue,
    ConnPool, ThreadPool, AsyncStorage, Server, HttpServer, Udp), and locks are modelled in Effects. *)
From Stdlib Require Export ZArith Lia.
From Stdlib Require Import Strings.Byte.
From stdpp Require Export base numbers list gmap strings.

#[global] Open Scope Z_scope.

(** ** Machine integers

    The code's unsigned integers are [Z]s reduced modulo a power of two; the
    reduction is written where the C++ expression has it. *)

Definition uwrap (w x : Z) : Z := x mod 2 ^ w.

Declare Scope chwell_scope.
Delimit Scope chwell_scope with chwell.
Abbreviation u16 := (uwrap 16).
Abbreviation u32 := (uwrap 32).
Abbreviation u64 := (uwrap 64).
Notation "a +u32 b" := (uwrap 32 (a + b)) (at level 50, left associativity) : chwell_scope.
Notation "a +u64 b" := (uwrap 64 (a + b)) (at level 50, left associativity) : chwell_scope.
Notation "a -u64 b" := (uwrap 64 (a - b)) (at level 50, left associativity) : chwell_scope.
#[global] Open Scope chwell_scope.

Lemma uwrap_range w x : 0 <= w -> 0 <= uwrap w x < 2 ^ w.
Proof. intros Hw. apply Z.mod_pos_bound. lia. Qed.

Lemma uwrap_small w x : 0 <= x < 2 ^ w -> uwrap w x = x.
Proof. apply Z.mod_small. Qed.

Lemma uwrap_idem w x : 0 <= w -> uwrap w (uwrap w x) = uwrap w x.
Proof. intros Hw. apply uwrap_small. by apply uwrap_range. Qed.

(** ** Bytes *)

Abbreviation byte := Byte.byte.

Definition byte_val (b : byte) : Z := Z.of_N (Byte.to_N b).

Definition byte_of (z : Z) : byte :=
  match Byte.of_N (Z.to_N (z mod 256)) with
  | Some b => b
  | None => Byte.x00
  end.

Lemma byte_val_range b : 0 <= byte_val b < 256.
Proof. unfold byte_val. pose proof (Byte.to_N_bounded b). lia. Qed.

Lemma byte_val_of z : byte_val (byte_of z) = z mod 256.
Proof.
  unfold byte_val, byte_of.
  pose proof (Z.mod_pos_bound z 256 ltac:(lia)) as Hr.
  destruct (Byte.of_N (Z.to_N (z mod 256))) as [b|] eqn:E.
  - apply Byte.to_of_N in E. rewrite E. lia.
  - apply Byte.of_N_None_iff in E. lia.
Qed.

Lemma byte_of_val b : byte_of (byte_val b) = b.
Proof.
  unfold byte_of. rewrite Z.mod_small by apply byte_val_range.
  unfold byte_val. rewrite N2Z.id. by rewrite Byte.of_to_N.
Qed.

(** A decidable fact of the integers below a bound, by checking each. *)
Lemma Z_below_check (n : nat) (P : Z -> bool) x :
  forallb P (map Z.of_nat (seq 0 n)) = true -> 0 <= x < Z.of_nat n -> P x = true.
Proof.
  rewrite forallb_forall. intros H Hx. apply H, in_map_iff. exists (Z.to_nat x).
  split; [lia|]. apply in_seq. lia.
Qed.

(** ** Lists *)

Lemma filter_none {A} (P : A -> Prop) `{!forall x, Decision (P x)} l :
  Forall (fun x => ~ P x) l -> filter P l = [].
Proof. induction 1 as [|x l Hx _ IH]; [done|]. rewrite filter_cons. by rewrite decide_False. Qed.

Lemma filter_all {A} (P : A -> Prop) `{!forall x, Decision (P x)} l :
  Forall P l -> filter P l = l.
Proof. induction 1 as [|x l Hx _ IH]; [done|]. rewrite filter_cons. rewrite decide_True by done. by rewrite IH. Qed.

Lemma NoDup_omap {A B} (f : A -> option B) l :
  (forall x y b, x ∈ l -> y ∈ l -> f x = Some b -> f y = Some b -> x = y) -> NoDup l -> NoDup (omap f l).
Proof.
  intros Hf. induction 1 as [|x l Hx Hl IH]; [apply NoDup_nil_2|]. cbn.
  assert (NoDup (omap f l)) as Hn.
  { apply IH. intros y z b Hy Hz. by apply Hf; right. }
  destruct (f x) as [b|] eqn:E; [|done]. apply NoDup_cons. split; [|done].
  intros (y & Hy & Hfy)%list_elem_of_omap. apply Hx.
  rewrite (Hf x y b); [done|left|by right|done|done].
Qed.

(** Sums over a list. *)
Definition sumZ {A} (f : A -> Z) (l : list A) : Z := foldr (fun x s => f x + s) 0 l.

#[global] Instance sumZ_perm {A} (f : A -> Z) : Proper (Permutation ==> eq) (sumZ f).
Proof. intros l l' Hp. unfold sumZ. induction Hp; cbn; lia. Qed.

Lemma sumZ_nil {A} (f : A -> Z) : sumZ f [] = 0.
Proof. done. Qed.

Lemma sumZ_cons {A} (f : A -> Z) x l : sumZ f (x :: l) = f x + sumZ f l.
Proof. done. Qed.

Lemma sumZ_add {A} (f g : A -> Z) l : sumZ (fun x => f x + g x) l = sumZ f l + sumZ g l.
Proof. unfold sumZ. induction l as [|x l IH]; cbn; lia. Qed.

Lemma sumZ_mul {A} k (f : A -> Z) l : sumZ (fun x => k * f x) l = k * sumZ f l.
Proof. unfold sumZ. induction l as [|x l IH]; cbn; lia. Qed.

Lemma sumZ_ext {A} (f g : A -> Z) l : (forall x, x ∈ l -> f x = g x) -> sumZ f l = sumZ g l.
Proof.
  unfold sumZ. induction l as [|x l IH]; intros H; [done|]. cbn. rewrite (H x) by left. f_equal.
  apply IH. intros y Hy. apply H. by right.
Qed.

Lemma sumZ_lower {A} (f : A -> Z) l m : (forall x, x ∈ l -> m <= f x) -> m * Z.of_nat (length l) <= sumZ f l.
Proof.
  induction l as [|x l IH]; intros H; cbn [sumZ foldr length]; [lia|].
  pose proof (H x ltac:(left)). pose proof (IH (fun y Hy => H y (list_elem_of_further _ _ _ Hy))). 
  unfold sumZ in *. lia.
Qed.

(** An element of a list without duplicates is counted once. *)
Lemma sumZ_indicator {A} `{EqDecision A} (x : A) l : NoDup l -> x ∈ l -> sumZ (fun y => if decide (x = y) then 1 else 0) l = 1.
Proof.
  unfold sumZ. induction 1 as [|y l Hy Hn IH]; [by intros ?%elem_of_nil|]. intros [->|Hx]%elem_of_cons; cbn.
  - rewrite decide_True by done. enough (sumZ (fun z => if decide (y = z) then 1 else 0) l = sumZ (fun _ => 0) l) as E.
    { unfold sumZ in E. rewrite E. clear. induction l; cbn; lia. }
    apply sumZ_ext. intros z Hz. rewrite decide_False; [done|]. by intros ->.
  - rewrite decide_False by by intros ->. rewrite IH by done. done.
Qed.

(** One term of a sum, when the others are bounded below. *)
Lemma sumZ_term {A} (f : A -> Z) l m x : x ∈ l -> (forall y, y ∈ l -> m <= f y) ->
  f x <= sumZ f l - m * (Z.of_nat (length l) - 1).
Proof.
  intros (l1 & l2 & ->)%list_elem_of_split H.
  assert (l1 ++ x :: l2 ≡ₚ x :: l1 ++ l2) as Hp by (symmetry; apply Permutation_middle).
  rewrite (sumZ_perm f _ _ Hp), (Permutation_length Hp). cbn [sumZ foldr length].
  pose proof (sumZ_lower f (l1 ++ l2) m) as Hs. unfold sumZ in *.
  assert (forall y, y ∈ l1 ++ l2 -> m <= f y) as Hy by (intros y Hy; apply H; rewrite Hp; by right).
  specialize (Hs Hy). lia.
Qed.

(** One element of a list replaced. *)
Lemma bind_insert {A B} (f : A -> list B) l i x : l !! i = Some x ->
  exists rest, (l ≫= f) ≡ₚ f x ++ rest /\ forall y, (<[i := y]> l ≫= f) ≡ₚ f y ++ rest.
Proof.
  intros Hi. exists ((take i l ≫= f) ++ (drop (S i) l ≫= f)). pose proof (lookup_lt_Some _ _ _ Hi). split.
  - rewrite <- (take_drop_middle l i x Hi) at 1. rewrite bind_app. cbn. by rewrite Permutation_app_swap_app.
  - intros y. rewrite insert_take_drop by done. rewrite bind_app. cbn. by rewrite Permutation_app_swap_app.
Qed.

Lemma sum_insert {A} (f : A -> nat) l i w w' : l !! i = Some w -> (sum_list_with f (<[i := w']> l) + f w = sum_list_with f l + f w')%nat.
Proof.
  revert i. induction l as [|x l IH]; intros [|i] Hi; [done..|injection Hi as ->; cbn; lia|].
  change (<[S i := w']> (x :: l)) with (x :: <[i := w']> l). specialize (IH i Hi). cbn [sum_list_with]. lia.
Qed.

Lemma elem_insert {A} (x y : A) (i : nat) (l : list A) : x ∈ <[i := y]> l -> x = y \/ x ∈ l.
Proof.
  intros [j Hj]%list_elem_of_lookup_1. apply list_lookup_insert_Some in Hj as [(_ & ? & _)|[_ Hj]]; [by left|right; by eapply list_elem_of_lookup_2].
Qed.

(** ** The prelude's automation *)

Create HintDb chwell.
Create Rewrite HintDb chwell_rw.
#[export] Hint Resolve byte_val_range uwrap_small : chwell.
#[export] Hint Rewrite byte_val_of byte_of_val : chwell_rw.

(** Boolean comparisons of the code, reflected into propositions. *)
Ltac breflect :=
  repeat match goal with
  | H : (_ && _)%bool = true |- _ => apply andb_prop in H as [? ?]
  | H : (_ || _)%bool = false |- _ => apply orb_false_elim in H as [? ?]
  | H : negb _ = true |- _ => apply negb_true_iff in H
  | H : negb _ = false |- _ => apply negb_false_iff in H
  | H : (_ <? _)%Z = true |- _ => apply Z.ltb_lt in H
  | H : (_ <? _)%Z = false |- _ => apply Z.ltb_ge in H
  | H : (_ <=? _)%Z = true |- _ => apply Z.leb_le in H
  | H : (_ <=? _)%Z = false |- _ => apply Z.leb_gt in H
  | H : (_ =? _)%Z = true |- _ => apply Z.eqb_eq in H
  | H : (_ =? _)%Z = false |- _ => apply Z.eqb_neq in H
  | H : (_ >=? _)%Z = _ |- _ => rewrite Z.geb_leb in H
  | H : (_ >? _)%Z = _ |- _ => rewrite Z.gtb_ltb in H
  | H : (_ <? _)%nat = true |- _ => apply Nat.ltb_lt in H
  | H : (_ <? _)%nat = false |- _ => apply Nat.ltb_ge in H
  | H : (_ <=? _)%nat = true |- _ => apply Nat.leb_le in H
  | H : (_ <=? _)%nat = false |- _ => apply Nat.leb_gt in H
  | H : (_ =? _)%nat = true |- _ => apply Nat.eqb_eq in H
  | H : (_ =? _)%nat = false |- _ => apply Nat.eqb_neq in H
  end.

(** Case analysis on the first test of the goal. *)
Ltac case_test :=
  match goal with
  | |- context [if ?b then _ else _] =>
      let E := fresh "E" in destruct b eqn:E; breflect
  end.
Ltac case_tests := repeat case_test.

(** ** Outcomes of C++ code *)

(** The result of a call: [Undefined] is C++ undefined behaviour, [Fuel] is a
    loop that did not finish within the model's fuel (shown impossible). *)
Inductive outcome (A : Type) :=
| Ok (a : A)
| Undefined
| Fuel.
Arguments Ok {A} a.
Arguments Undefined {A}.
Arguments Fuel {A}.

Definition obind {A B} (x : outcome A) (f : A -> outcome B) : outcome B :=
  match x with Ok a => f a | Undefined => Undefined | Fuel => Fuel end.

Notation "x ←o m ; k" := (obind m (fun x => k)) (at level 20, m at level 100, k at level 200, right associativity) : chwell_scope.
Notation "' p ←o m ; k" := (obind m (fun p => k)) (at level 20, p pattern, m at level 100, k at level 200, right associativity) : chwell_scope.

(** A value that must be there. *)
Definition need {A} (x : option A) : outcome A := match x with Some a => Ok a | None => Undefined end.

Lemma obind_ok {A B} (m : outcome A) (f : A -> outcome B) b :
  obind m f = Ok b -> exists a, m = Ok a /\ f a = Ok b.
Proof. destruct m; try done. eauto. Qed.

Lemma need_ok {A} (x : option A) a : need x = Ok a -> x = Some a.
Proof. destruct x; [|done]. by intros [= ->]. Qed.

(** Splits a computation that returned into its steps. *)
Ltac obinv :=
  repeat match goal with
  | H : obind _ _ = Ok _ |- _ =>
      let a := fresh "a" in let E := fresh "E" in apply obind_ok in H as (a & E & H)
  | H : need _ = Ok _ |- _ => apply need_ok in H
  | H : Ok _ = Ok _ |- _ => injection H; clear H; intros; subst
  | H : Undefined = Ok _ |- _ => discriminate H
  | H : Fuel = Ok _ |- _ => discriminate H
  end.

(** [static_cast<int>]. *)
Definition i32 (z : Z) : Z := (z + 2 ^ 31) mod 2 ^ 32 - 2 ^ 31.

Lemma i32_small z : - 2 ^ 31 <= z < 2 ^ 31 -> i32 z = z.
Proof. intros Hz. unfold i32. rewrite Z.mod_small; lia. Qed.

(** ** [int] expressions *)

Definition int_range (z : Z) : bool := (- 2 ^ 31 <=? z) && (z <? 2 ^ 31).

(** The value of a signed [int] expression: overflow is undefined. *)
Definition as_int (z : Z) : outcome Z := if int_range z then Ok z else Undefined.

(** The same where [None] is undefined behaviour. *)
Definition to_int (z : Z) : option Z := if int_range z then Some z else None.

(** [a / b] of two [int]s: undefined on zero, and on the one quotient that is no [int]. *)
Definition int_div (a b : Z) : option Z :=
  if (b =? 0) || ((a =? - 2 ^ 31) && (b =? -1)) then None else Some (Z.quot a b).

Lemma int_range_spec z : int_range z = true <-> - 2 ^ 31 <= z < 2 ^ 31.
Proof. unfold int_range. by rewrite andb_true_iff, Z.leb_le, Z.ltb_lt. Qed.

Lemma as_int_ok z : - 2 ^ 31 <= z < 2 ^ 31 -> as_int z = Ok z.
Proof. intros H%int_range_spec. unfold as_int. by rewrite H. Qed.

Lemma as_int_inv z z' : as_int z = Ok z' -> z' = z /\ - 2 ^ 31 <= z < 2 ^ 31.
Proof. unfold as_int. case_test; [|done]. intros [= <-]. split; [done|]. by apply int_range_spec. Qed.

Lemma to_int_ok z : - 2 ^ 31 <= z < 2 ^ 31 -> to_int z = Some z.
Proof. intros H%int_range_spec. unfold to_int. by rewrite H. Qed.

Lemma to_int_inv z z' : to_int z = Some z' -> z' = z /\ - 2 ^ 31 <= z < 2 ^ 31.
Proof. unfold to_int. case_test; [|done]. intros [= <-]. split; [done|]. by apply int_range_spec. Qed.

Lemma int_div_ok a b : 0 < b -> int_div a b = Some (Z.quot a b).
Proof. intros Hb. unfold int_div. rewrite (proj2 (Z.eqb_neq b 0)), (proj2 (Z.eqb_neq b (-1))) by lia. by rewrite andb_false_r. Qed.

(** Runs through a computation whose [int] expressions are all in range. *)
Ltac int_steps :=
  cbn [mbind option_bind obind];
  repeat (first [rewrite to_int_ok by lia|rewrite int_div_ok by lia|rewrite as_int_ok by lia]; cbn [mbind option_bind obind]).
