(* ===== verification/Framing.v ===== *)
(** * Framing: the buffered decoders' common shape, and what it promises

    [Parser] (src/protocol/parser.cpp) and the three codecs of
    src/codec/codec.cpp keep the same state, a byte buffer [buffer_] and the
    index [head_] of the first unconsumed byte, and run the same loop: look at
    the bytes from [head_] on, stop when the frame is not complete, else append
    the message and advance [head_]; then compact the consumed prefix.  This
    file gives that loop once, over the body [next] of one iteration, and the
    class [Framing] of laws a loop body satisfies.  The client theorems
    (independence of how the stream is cut into chunks, termination, the bound
    on the wasted prefix) are proved here against the class; Protocol.v and
    Codec.v give the bodies and discharge the laws. *)

From S2P Require Import Prelude.

(** ** One iteration's outcome *)

Inductive verdict (M : Type) :=
| Wait                         (** the frame is not complete: leave the loop *)
| Emit (m : M) (n : nat)       (** one message, [n] bytes consumed *)
| Overrun.                     (** the code reads past the end of the buffer *)
Arguments Wait {M}.
Arguments Emit {M} m n.
Arguments Overrun {M}.

Record decoder := Decoder { buffer_ : list byte; head_ : nat }.

(** The constructor's and [reset]'s state. *)
Definition decoder_init : decoder := Decoder [] 0.

(** The bytes not consumed yet. *)
Definition pending (d : decoder) : list byte := drop (head_ d) (buffer_ d).

Definition decoder_wf (d : decoder) : Prop := (head_ d <= length (buffer_ d))%nat.

(** [compact_prefix]: drop the consumed prefix once it is large. *)
Definition compact (d : decoder) : decoder :=
  if (head_ d =? 0)%nat then d
  else if (4096 <=? head_ d)%nat && (length (buffer_ d) <=? head_ d * 2)%nat
  then Decoder (drop (head_ d) (buffer_ d)) 0
  else d.

Section Loop.
Context {M : Type} (next : list byte -> nat -> verdict M).

(** The [while (true)] loop from [head_] on. *)
Fixpoint drain (fuel : nat) (buf : list byte) (head : nat) : outcome (list M * nat) :=
  match fuel with
  | O => Fuel
  | S fuel' =>
      match next buf head with
      | Wait => Ok ([], head)
      | Overrun => Undefined
      | Emit m n =>
          obind (drain fuel' buf (head + n)) (fun '(ms, h) => Ok (m :: ms, h))
      end
  end.

(** [feed] / [decode]: append the data, drain, compact.  Every frame has at
    least one byte, so one iteration more than there are bytes is enough. *)
Definition feed_with (data : list byte) (d : decoder) : outcome (list M * decoder) :=
  let buf := buffer_ d ++ data in
  obind (drain (S (length buf)) buf (head_ d)) (fun '(ms, h) =>
    Ok (ms, compact (Decoder buf h))).

(** A sequence of calls, as the receive loop makes them. *)
Fixpoint feed_all (chunks : list (list byte)) (d : decoder) : outcome (list M * decoder) :=
  match chunks with
  | [] => Ok ([], d)
  | c :: cs =>
      obind (feed_with c d) (fun '(ms, d') =>
      obind (feed_all cs d') (fun '(ms', d'') => Ok (ms ++ ms', d'')))
  end.
End Loop.

(** ** The interface *)

(** Streams the 32-bit length arithmetic and [size_t] cannot overflow on. *)
Definition fits (b : list byte) : Prop := Z.of_nat (length b) < 2 ^ 32.

Class Framing {M : Type} (next : list byte -> nat -> verdict M) : Prop := {
  next_drop : forall b h, (h <= length b)%nat -> next b h = next (drop h b) 0%nat;
  next_nil : next [] 0%nat = Wait;
  next_bounds : forall b m n,
    fits b -> next b 0%nat = Emit m n -> (0 < n <= length b)%nat;
  next_emit_app : forall b more m n,
    fits (b ++ more) -> next b 0%nat = Emit m n -> next (b ++ more) 0%nat = Emit m n;
  next_overrun_app : forall b more,
    fits (b ++ more) -> next b 0%nat = Overrun -> next (b ++ more) 0%nat = Overrun
}.

(** ** Theorems of every framing *)

Section Client.
Context {M : Type} (next : list byte -> nat -> verdict M) `{HF : Framing M next}.

Lemma fits_app_l b more : fits (b ++ more) -> fits b.
Proof. unfold fits. rewrite length_app. lia. Qed.

Lemma fits_app_r b more : fits (b ++ more) -> fits more.
Proof. unfold fits. rewrite length_app. lia. Qed.

Lemma fits_drop h b : fits b -> fits (drop h b).
Proof. unfold fits. rewrite length_drop. lia. Qed.

(** The abstract parse of a stream: the messages and the bytes left over. *)
Fixpoint parse (fuel : nat) (b : list byte) : outcome (list M * list byte) :=
  match fuel with
  | O => Fuel
  | S fuel' =>
      match next b 0%nat with
      | Wait => Ok ([], b)
      | Overrun => Undefined
      | Emit m n => obind (parse fuel' (drop n b)) (fun '(ms, r) => Ok (m :: ms, r))
      end
  end.

(** [drain] on a buffer with a consumed prefix is [parse] of the rest. *)
Lemma drain_parse fuel buf h :
  (h <= length buf)%nat -> fits buf ->
  obind (drain next fuel buf h) (fun '(ms, h') => Ok (ms, drop h' buf)) = parse fuel (drop h buf).
Proof.
  revert h. induction fuel as [|fuel IH]; intros h Hh Hf; [done|]. cbn.
  rewrite (next_drop buf h Hh).
  destruct (next (drop h buf) 0%nat) as [|m n|] eqn:E; try done. cbn.
  pose proof (next_bounds _ _ _ (fits_drop h buf Hf) E) as Hn.
  rewrite length_drop in Hn.
  rewrite drop_drop, <- IH by (done || lia).
  by destruct (drain next fuel buf (h + n)) as [[ms h']| |].
Qed.

(** Where the loop leaves [head_]: inside the buffer, never moved back. *)
Lemma drain_head fuel buf h ms h' :
  (h <= length buf)%nat -> fits buf ->
  drain next fuel buf h = Ok (ms, h') -> (h <= h' <= length buf)%nat.
Proof.
  revert h ms. induction fuel as [|fuel IH]; intros h ms Hh Hf; [done|]. cbn.
  rewrite (next_drop buf h Hh).
  destruct (next (drop h buf) 0%nat) as [|m n|] eqn:E; try done.
  { intros [=]; subst. lia. }
  pose proof (next_bounds _ _ _ (fits_drop h buf Hf) E) as Hn.
  rewrite length_drop in Hn.
  destruct (drain next fuel buf (h + n)) as [[ms1 h1]| |] eqn:E1; try done.
  intros [=]; subst. apply IH in E1; lia || done.
Qed.

(** Enough fuel: the loop finishes within one iteration per byte. *)
Lemma parse_fuel fuel b : fits b -> (length b < fuel)%nat -> parse fuel b <> Fuel.
Proof.
  revert b. induction fuel as [|fuel IH]; intros b Hf Hl; [lia|]. cbn.
  destruct (next b 0%nat) as [|m n|] eqn:E; try done.
  pose proof (next_bounds _ _ _ Hf E) as Hn.
  assert (parse fuel (drop n b) <> Fuel) as H.
  { apply IH; [by apply fits_drop|]. rewrite length_drop. lia. }
  by destruct (parse fuel (drop n b)) as [[ms r]| |].
Qed.

(** More fuel changes nothing. *)
Lemma parse_more fuel fuel' b :
  (fuel <= fuel')%nat -> parse fuel b <> Fuel -> parse fuel' b = parse fuel b.
Proof.
  revert fuel' b. induction fuel as [|fuel IH]; intros fuel' b Hl; [done|].
  destruct fuel' as [|fuel']; [lia|]. cbn.
  destruct (next b 0%nat) as [|m n|]; try done.
  intros H. rewrite (IH fuel'); [done|lia|].
  by destruct (parse fuel (drop n b)).
Qed.

(** [parses b]: the parse with fuel for every byte. *)
Definition parses (b : list byte) : outcome (list M * list byte) := parse (S (length b)) b.
#[local] Arguments parses : simpl never.

Lemma parse_parses fuel b : fits b -> (length b < fuel)%nat -> parse fuel b = parses b.
Proof.
  intros Hf Hl. apply parse_more; [lia|]. apply parse_fuel; [done|lia].
Qed.

Lemma parses_step b : fits b ->
  parses b = match next b 0%nat with
             | Wait => Ok ([], b)
             | Overrun => Undefined
             | Emit m n => obind (parses (drop n b)) (fun '(ms, r) => Ok (m :: ms, r))
             end.
Proof.
  intros Hf. unfold parses at 1. cbn [parse].
  destruct (next b 0%nat) as [|m n|] eqn:E; try done.
  pose proof (next_bounds _ _ _ Hf E).
  rewrite (parse_parses (length b)); [done|by apply fits_drop|].
  rewrite length_drop. lia.
Qed.

(** A loop body that never reads past the end never fails. *)
Lemma parses_defined b :
  (forall b', next b' 0%nat <> Overrun) -> fits b -> parses b <> Undefined.
Proof.
  intros Hno. remember (length b) as len eqn:Hlen. revert b Hlen.
  induction (lt_wf len) as [len _ IH]; intros b -> Hf. rewrite parses_step by done.
  destruct (next b 0%nat) as [|m n|] eqn:E; [done| |by apply Hno in E].
  pose proof (next_bounds _ _ _ Hf E) as Hn.
  assert (parses (drop n b) <> Undefined) as H.
  { eapply IH; [|done|by apply fits_drop]. rewrite length_drop. lia. }
  by destruct (parses (drop n b)) as [[]| |].
Qed.

(** Parsing a stream is parsing its first part, then what that left over
    followed by the second part. *)
Lemma parses_app b more : fits (b ++ more) ->
  parses (b ++ more) =
  obind (parses b) (fun '(ms, r) =>
  obind (parses (r ++ more)) (fun '(ms', r') => Ok (ms ++ ms', r'))).
Proof.
  remember (length b) as len eqn:Hlen. revert b Hlen.
  induction (lt_wf len) as [len _ IH]; intros b -> Hf.
  rewrite (parses_step b) by (by eapply fits_app_l).
  destruct (next b 0%nat) as [|m n|] eqn:E; cbn [obind].
  - by destruct (parses (b ++ more)) as [[ms r]| |].
  - pose proof (next_bounds _ _ _ (fits_app_l _ _ Hf) E) as Hn.
    rewrite parses_step by done.
    rewrite (next_emit_app _ more _ _ Hf E), drop_app_le by lia.
    assert (fits (drop n b ++ more)) as Hf'.
    { unfold fits in *. rewrite length_app, length_drop in *. lia. }
    rewrite (IH (length (drop n b))); [|rewrite length_drop; lia|done|done].
    destruct (parses (drop n b)) as [[ms r]| |]; cbn [obind]; [|done..].
    by destruct (parses (r ++ more)) as [[ms' r']| |].
  - rewrite parses_step by done. by rewrite (next_overrun_app _ more Hf E).
Qed.

(** *** The concrete buffer refines the stream of pending bytes *)

Lemma pending_compact d : decoder_wf d -> pending (compact d) = pending d.
Proof. unfold compact. intros Hd. by case_tests. Qed.

Lemma compact_wf d : decoder_wf d -> decoder_wf (compact d).
Proof. unfold compact, decoder_wf. case_tests; cbn; lia. Qed.

Lemma pending_append d data :
  decoder_wf d -> drop (head_ d) (buffer_ d ++ data) = pending d ++ data.
Proof. intros Hd. by rewrite drop_app_le. Qed.

(** One call of [feed] consumes exactly what parsing the pending bytes and
    the new data consumes, and keeps the rest pending. *)
Lemma feed_refines data d :
  decoder_wf d -> fits (buffer_ d ++ data) ->
  match feed_with next data d, parses (pending d ++ data) with
  | Ok (ms, d'), Ok (ms', r) => ms = ms' /\ pending d' = r /\ decoder_wf d'
  | Undefined, Undefined => True
  | _, _ => False
  end.
Proof.
  intros Hd Hf. unfold feed_with, decoder_wf in *. set (buf := buffer_ d ++ data) in *.
  assert (head_ d <= length buf)%nat as Hh by (unfold buf; rewrite length_app; lia).
  assert (drop (head_ d) buf = pending d ++ data) as Hpe by by apply pending_append.
  pose proof (drain_parse (S (length buf)) buf (head_ d) Hh Hf) as Hp.
  rewrite (parse_parses (S (length buf))) in Hp.
  2: by apply fits_drop.
  2: rewrite length_drop; lia.
  rewrite Hpe in Hp.
  pose proof (parse_fuel (S (length (pending d ++ data))) (pending d ++ data)) as Hnf.
  destruct (drain next (S (length buf)) buf (head_ d)) as [[ms h]| |] eqn:E; cbn in Hp |- *.
  - rewrite <- Hp. apply drain_head in E; [|done..].
    rewrite pending_compact by (unfold decoder_wf; cbn; lia).
    split_and!; [done|done|]. apply compact_wf. unfold decoder_wf. cbn. lia.
  - by rewrite <- Hp.
  - rewrite <- Hpe in *. apply Hnf; [by apply fits_drop|lia|by symmetry].
Qed.

(** A decoder between two calls: no complete frame is waiting. *)
Definition idle (d : decoder) : Prop := decoder_wf d /\ next (pending d) 0%nat = Wait.

Lemma idle_init : idle decoder_init.
Proof. split; [unfold decoder_wf; cbn; lia|apply next_nil]. Qed.

Lemma parses_rest_wait b ms r : fits b -> parses b = Ok (ms, r) -> next r 0%nat = Wait.
Proof.
  remember (length b) as len eqn:Hlen. revert b ms Hlen.
  induction (lt_wf len) as [len _ IH]; intros b ms -> Hf.
  rewrite parses_step by done.
  destruct (next b 0%nat) as [|m n|] eqn:E; [by intros [= <- <-]| |done].
  pose proof (next_bounds _ _ _ Hf E) as Hn.
  destruct (parses (drop n b)) as [[ms1 r1]| |] eqn:E1; try done.
  intros [= <- <-]. eapply (IH (length (drop n b))); [|done|by apply fits_drop|done].
  rewrite length_drop. lia.
Qed.

Lemma compact_length d : (length (buffer_ (compact d)) <= length (buffer_ d))%nat.
Proof. unfold compact. case_tests; cbn; rewrite ?length_drop; lia. Qed.

(** Each call leaves the decoder idle, with a buffer no longer than what it
    was given. *)
Lemma feed_idle data d ms d' :
  decoder_wf d -> fits (buffer_ d ++ data) -> feed_with next data d = Ok (ms, d') ->
  idle d' /\ (length (buffer_ d') <= length (buffer_ d) + length data)%nat.
Proof.
  intros Hd Hf Hfeed. pose proof (feed_refines data d Hd Hf) as Hr. rewrite Hfeed in Hr.
  destruct (parses (pending d ++ data)) as [[ms' r]| |] eqn:E; try done.
  destruct Hr as (-> & <- & Hd'). split.
  - split; [done|]. eapply parses_rest_wait; [|done].
    rewrite <- pending_append by done. by apply fits_drop.
  - unfold feed_with in Hfeed.
    destruct (drain next _ _ _) as [[ms1 h]| |]; try done.
    injection Hfeed as <- <-. etransitivity; [apply compact_length|]. cbn.
    rewrite length_app. lia.
Qed.

(** Any number of calls: the messages returned, concatenated, are those of
    parsing the whole stream at once. *)
Lemma feed_all_refines chunks d :
  idle d -> fits (buffer_ d ++ concat chunks) ->
  match feed_all next chunks d, parses (pending d ++ concat chunks) with
  | Ok (ms, d'), Ok (ms', r) => ms = ms' /\ pending d' = r /\ idle d'
  | Undefined, Undefined => True
  | _, _ => False
  end.
Proof.
  revert d. induction chunks as [|c cs IH]; intros d [Hd Hw] Hf; cbn [feed_all concat] in *.
  { rewrite app_nil_r in *. rewrite parses_step by by apply fits_drop. by rewrite Hw. }
  assert (fits (buffer_ d ++ c)) as Hfc.
  { rewrite app_assoc in Hf. by eapply fits_app_l. }
  assert (fits ((pending d ++ c) ++ concat cs)) as Hfp.
  { rewrite <- app_assoc. unfold fits, pending in *.
    rewrite !length_app in *. rewrite length_drop. lia. }
  rewrite app_assoc, parses_app by done.
  pose proof (feed_refines c d Hd Hfc) as Hr.
  destruct (feed_with next c d) as [[ms d']| |] eqn:E;
    destruct (parses (pending d ++ c)) as [[ms' r]| |] eqn:E'; try done. cbn [obind].
  destruct Hr as (-> & <- & _).
  destruct (feed_idle _ _ _ _ Hd Hfc E) as [Hi Hl].
  assert (fits (buffer_ d' ++ concat cs)) as Hf'.
  { unfold fits in *. rewrite !length_app in *. lia. }
  specialize (IH d' Hi Hf').
  destruct (feed_all next cs d') as [[ms1 d1]| |];
    destruct (parses (pending d' ++ concat cs)) as [[ms2 r2]| |]; try done. cbn.
  by destruct IH as (-> & <- & Hi1).
Qed.

(** How the stream is cut into chunks does not matter. *)
Lemma feed_chunking chunks1 chunks2 :
  concat chunks1 = concat chunks2 -> fits (concat chunks1) ->
  match feed_all next chunks1 decoder_init, feed_all next chunks2 decoder_init with
  | Ok (ms1, d1), Ok (ms2, d2) => ms1 = ms2 /\ pending d1 = pending d2
  | Undefined, Undefined => True
  | _, _ => False
  end.
Proof.
  intros Heq Hf.
  pose proof (feed_all_refines chunks1 decoder_init idle_init) as H1.
  pose proof (feed_all_refines chunks2 decoder_init idle_init) as H2.
  cbn in H1, H2. rewrite <- Heq in H2. specialize (H1 Hf). specialize (H2 Hf).
  destruct (feed_all next chunks1 decoder_init) as [[ms1 d1]| |],
    (feed_all next chunks2 decoder_init) as [[ms2 d2]| |],
    (parses (concat chunks1)) as [[ms r]| |]; try done.
  destruct H1 as (-> & -> & _), H2 as (-> & -> & _). done.
Qed.

(** *** Senders *)

(** A frame that parses as one message, whatever follows it. *)
Definition frames (m : M) (f : list byte) : Prop := next f 0%nat = Emit m (length f).

(** The stream of well-formed frames parses to their messages. *)
Lemma parses_frames ms fs :
  Forall2 frames ms fs -> fits (concat fs) -> parses (concat fs) = Ok (ms, []).
Proof.
  induction 1 as [|m f ms fs Hm _ IH]; cbn [concat]; intros Hf.
  { rewrite parses_step by done. by rewrite next_nil. }
  rewrite parses_step by done. rewrite (next_emit_app _ _ _ _ Hf Hm), drop_app_length.
  rewrite IH; [done|]. unfold fits in *. rewrite length_app in Hf. lia.
Qed.

Lemma feed_frames ms fs chunks :
  Forall2 frames ms fs -> concat chunks = concat fs -> fits (concat fs) ->
  exists d, feed_all next chunks decoder_init = Ok (ms, d) /\ pending d = [].
Proof.
  intros Hfr Heq Hf. rewrite <- Heq in Hf.
  pose proof (feed_all_refines chunks decoder_init idle_init Hf) as H. cbn in H.
  rewrite Heq, (parses_frames ms) in H by (done || by rewrite <- Heq).
  destruct (feed_all next chunks decoder_init) as [[ms' d]| |]; try done.
  destruct H as (-> & Hp & _). by exists d.
Qed.

(** *** The bound [compact_prefix] gives *)

Lemma feed_waste data d ms d' :
  feed_with next data d = Ok (ms, d') ->
  (head_ d' < 4096 \/ head_ d' * 2 < length (buffer_ d'))%nat.
Proof.
  unfold feed_with. destruct (drain next _ _ _) as [[ms1 h]| |]; try done.
  intros [= <- <-]. unfold compact. case_tests; cbn [head_ buffer_] in *; try lia.
  match goal with H : (_ && _)%bool = false |- _ => apply andb_false_iff in H as [?|?] end;
    breflect; lia.
Qed.
End Client.
