(* ===== verification/Protocol.v ===== *)
(** * Protocol: byte order, messages and the streaming parser

    - Module [Endian]: include/chwell/core/endian.h, with the host's byte order
      as a parameter, and the [memcpy]s between integers and bytes;
    - Module [Message]: src/protocol/message.cpp;
    - Module [Parser]: src/protocol/parser.cpp, an instance of [Framing]. *)

From S2P Require Import Prelude.
From S2P Require Import Framing.

Module Endian.

Inductive endianness := Little | Big.

(** [htons]/[ntohs] and [htonl]/[ntohl] swap the bytes on a little-endian host
    and do nothing on a big-endian one. *)
Definition bswap16 (v : Z) : Z := (v mod 256) * 256 + (v / 256) mod 256.

Definition bswap32 (v : Z) : Z :=
  (v mod 256) * 16777216 + (v / 256 mod 256) * 65536
  + (v / 65536 mod 256) * 256 + (v / 16777216) mod 256.

Definition host_to_net16 (e : endianness) (v : Z) : Z :=
  match e with Little => bswap16 v | Big => v end.

Definition net_to_host16 (e : endianness) (v : Z) : Z :=
  match e with Little => bswap16 v | Big => v end.

Definition host_to_net32 (e : endianness) (v : Z) : Z :=
  match e with Little => bswap32 v | Big => v end.

Definition net_to_host32 (e : endianness) (v : Z) : Z :=
  match e with Little => bswap32 v | Big => v end.

(** The object representation of a [uint16_t] and a [uint32_t], which [memcpy]
    and [reinterpret_cast<const char*>] expose. *)
Definition mem16 (e : endianness) (v : Z) : list byte :=
  match e with
  | Little => [byte_of v; byte_of (v / 256)]
  | Big => [byte_of (v / 256); byte_of v]
  end.

Definition mem32 (e : endianness) (v : Z) : list byte :=
  match e with
  | Little => [byte_of v; byte_of (v / 256); byte_of (v / 65536); byte_of (v / 16777216)]
  | Big => [byte_of (v / 16777216); byte_of (v / 65536); byte_of (v / 256); byte_of v]
  end.

(** [byte_at b i]: the byte [memcpy] reads at [b.data() + i]; every use in the
    code follows a test that [i] is in range. *)
Definition byte_at (b : list byte) (i : nat) : Z := byte_val (nth i b Byte.x00).

Definition load16 (e : endianness) (b : list byte) (i : nat) : Z :=
  match e with
  | Little => byte_at b i + 256 * byte_at b (i + 1)
  | Big => 256 * byte_at b i + byte_at b (i + 1)
  end.

Definition load32 (e : endianness) (b : list byte) (i : nat) : Z :=
  match e with
  | Little => byte_at b i + 256 * byte_at b (i + 1)
              + 65536 * byte_at b (i + 2) + 16777216 * byte_at b (i + 3)
  | Big => 16777216 * byte_at b i + 65536 * byte_at b (i + 1)
           + 256 * byte_at b (i + 2) + byte_at b (i + 3)
  end.

Lemma byte_at_range b i : 0 <= byte_at b i < 256.
Proof. apply byte_val_range. Qed.

Ltac byte_ranges :=
  repeat match goal with
  | |- context [byte_at ?b ?i] =>
      lazymatch goal with
      | _ : 0 <= byte_at b i < 256 |- _ => fail
      | _ => pose proof (byte_at_range b i)
      end
  end.

(** What is read on the wire is big-endian, whatever the host. *)
Lemma net_load16 e b i :
  net_to_host16 e (load16 e b i) = 256 * byte_at b i + byte_at b (i + 1).
Proof.
  destruct e; cbn [net_to_host16 load16]; unfold bswap16; [|done].
  byte_ranges. Z.to_euclidean_division_equations. lia.
Qed.

Lemma net_load32 e b i :
  net_to_host32 e (load32 e b i) =
  16777216 * byte_at b i + 65536 * byte_at b (i + 1) + 256 * byte_at b (i + 2) + byte_at b (i + 3).
Proof.
  destruct e; cbn [net_to_host32 load32]; unfold bswap32; [|done].
  generalize (byte_at_range b i), (byte_at_range b (i + 1)),
    (byte_at_range b (i + 2)), (byte_at_range b (i + 3)).
  generalize (byte_at b i) (byte_at b (i + 1)) (byte_at b (i + 2)) (byte_at b (i + 3)).
  intros x y z t ? ? ? ?. Z.to_euclidean_division_equations. lia.
Qed.

Lemma byte_of_congr a b : a mod 256 = b mod 256 -> byte_of a = byte_of b.
Proof. unfold byte_of. by intros ->. Qed.

(** Lists of bytes, compared byte by byte modulo 256. *)
Ltac byte_list := repeat (apply f_equal2; [apply byte_of_congr|]); [..|reflexivity].

Lemma net_store16 e v :
  0 <= v < 65536 -> mem16 e (host_to_net16 e v) = [byte_of (v / 256); byte_of v].
Proof.
  intros Hv. destruct e; cbn [host_to_net16 mem16]; unfold bswap16; [|done].
  byte_list. all: Z.to_euclidean_division_equations; lia.
Qed.

Lemma net_store32 e v :
  0 <= v < 2 ^ 32 -> mem32 e (host_to_net32 e v) =
  [byte_of (v / 16777216); byte_of (v / 65536); byte_of (v / 256); byte_of v].
Proof.
  intros Hv. destruct e; cbn [host_to_net32 mem32]; unfold bswap32; [|done].
  byte_list. all: Z.to_euclidean_division_equations; lia.
Qed.

Lemma length_mem16 e v : length (mem16 e v) = 2%nat.
Proof. by destruct e. Qed.

Lemma length_mem32 e v : length (mem32 e v) = 4%nat.
Proof. by destruct e. Qed.

(** Storing then loading gives the value back. *)
Lemma load_store16 e v rest :
  0 <= v < 65536 -> net_to_host16 e (load16 e (mem16 e (host_to_net16 e v) ++ rest) 0) = v.
Proof.
  intros Hv. rewrite net_load16, net_store16 by done.
  unfold byte_at. cbn [nth app Nat.add]. rewrite !byte_val_of.
  Z.to_euclidean_division_equations. lia.
Qed.

Lemma load_store32 e v rest :
  0 <= v < 2 ^ 32 -> net_to_host32 e (load32 e (mem32 e (host_to_net32 e v) ++ rest) 0) = v.
Proof.
  intros Hv. rewrite net_load32, net_store32 by done.
  unfold byte_at. cbn [nth app Nat.add]. rewrite !byte_val_of.
  Z.to_euclidean_division_equations. lia.
Qed.

(** Loads depend on the position only through the bytes there. *)
Lemma byte_at_drop b h i : byte_at (drop h b) i = byte_at b (h + i).
Proof. unfold byte_at. by rewrite nth_skipn. Qed.

Lemma byte_at_app b more i : (i < length b)%nat -> byte_at (b ++ more) i = byte_at b i.
Proof. intros Hi. unfold byte_at. by rewrite app_nth1. Qed.

Lemma load16_drop e b h i : load16 e (drop h b) i = load16 e b (h + i).
Proof. unfold load16. by rewrite !byte_at_drop, !Nat.add_assoc. Qed.

Lemma load32_drop e b h i : load32 e (drop h b) i = load32 e b (h + i).
Proof. unfold load32. by rewrite !byte_at_drop, !Nat.add_assoc. Qed.

Lemma load16_app e b more i :
  (i + 2 <= length b)%nat -> load16 e (b ++ more) i = load16 e b i.
Proof. intros Hi. unfold load16. by rewrite !byte_at_app by lia. Qed.

Lemma load32_app e b more i :
  (i + 4 <= length b)%nat -> load32 e (b ++ more) i = load32 e b i.
Proof. intros Hi. unfold load32. by rewrite !byte_at_app by lia. Qed.

Lemma load16_net_range e b i : 0 <= net_to_host16 e (load16 e b i) < 65536.
Proof. rewrite net_load16. byte_ranges. lia. Qed.

Lemma load32_net_range e b i : 0 <= net_to_host32 e (load32 e b i) < 2 ^ 32.
Proof. rewrite net_load32. byte_ranges. lia. Qed.

End Endian.

Module Message.
Import Endian.

(** [struct Message]: a 16-bit command and the body. *)
Record Message := mkMessage { cmd : Z; body : list byte }.

Definition Message_default : Message := mkMessage 0 [].

(** The [uint16_t] field's range. *)
Definition Message_wf (m : Message) : Prop := 0 <= cmd m < 65536.

(** [serialize]: the length field is [static_cast<uint16_t>(body.size())]. *)
Definition serialize (e : endianness) (msg : Message) : list byte :=
  mem16 e (host_to_net16 e (cmd msg))
  ++ mem16 e (host_to_net16 e (u16 (Z.of_nat (length (body msg)))))
  ++ body msg.

(** [deserialize]: the flag it returns and what it leaves in [msg]; [cmd] is
    written before the second length test. *)
Definition deserialize (e : endianness) (data : list byte) (msg : Message) : bool * Message :=
  if Z.of_nat (length data) <? 4 then (false, msg)
  else
    let msg1 := mkMessage (net_to_host16 e (load16 e data 0)) (body msg) in
    let body_len := net_to_host16 e (load16 e data 2) in
    if Z.of_nat (length data) <? 4 + body_len then (false, msg1)
    else (true, mkMessage (cmd msg1) (take (Z.to_nat body_len) (drop 4 data))).

Lemma length_serialize e m : length (serialize e m) = (4 + length (body m))%nat.
Proof. unfold serialize. rewrite !length_app, !length_mem16. lia. Qed.

(** The header fields of a serialized message, whatever follows it. *)
Lemma serialize_cmd e m rest :
  Message_wf m -> net_to_host16 e (load16 e (serialize e m ++ rest) 0) = cmd m.
Proof. intros Hm. unfold serialize. rewrite <- app_assoc. by apply load_store16. Qed.

Lemma serialize_len e m rest :
  net_to_host16 e (load16 e (serialize e m ++ rest) 2) = u16 (Z.of_nat (length (body m))).
Proof.
  unfold serialize.
  replace (load16 e _ 2) with (load16 e (drop 2 ((mem16 e (host_to_net16 e (cmd m)) ++
    mem16 e (host_to_net16 e (u16 (Z.of_nat (length (body m))))) ++ body m) ++ rest)) 0)
    by by rewrite load16_drop.
  rewrite <- !app_assoc, <- (length_mem16 e (host_to_net16 e (cmd m))) at 1.
  rewrite drop_app_length. apply load_store16. apply (uwrap_range 16). lia.
Qed.

Lemma serialize_body e m rest : drop 4 (serialize e m ++ rest) = body m ++ rest.
Proof.
  unfold serialize. rewrite !app_assoc, <- (app_assoc _ (body m)).
  set (h := mem16 _ _ ++ mem16 _ _). assert (length h = 4%nat) as <-.
  { unfold h. by rewrite length_app, !length_mem16. }
  by rewrite drop_app_length.
Qed.

(** Deserializing a serialized message, for every message: the command comes
    back, and the body cut to the length that fits the 16-bit field. *)
Lemma deserialize_serialize_any e m m0 : Message_wf m ->
  deserialize e (serialize e m) m0 =
  (true, mkMessage (cmd m) (take (Z.to_nat (u16 (Z.of_nat (length (body m))))) (body m))).
Proof.
  intros Hm. unfold deserialize. rewrite <- (app_nil_r (serialize e m)).
  rewrite serialize_cmd, serialize_len, serialize_body by done.
  rewrite app_nil_r, length_serialize.
  assert (u16 (Z.of_nat (length (body m))) <= Z.of_nat (length (body m)))
    by (apply Z.mod_le; lia).
  case_tests; [lia|lia|]. by rewrite app_nil_r.
Qed.

(** a message whose body is at most 65535 bytes survives the round trip. *)
Theorem serialize_roundtrip e m m0 :
  Message_wf m -> (Z.of_nat (length (body m)) < 65536) ->
  deserialize e (serialize e m) m0 = (true, m).
Proof.
  intros Hm Hl. rewrite deserialize_serialize_any by done.
  rewrite uwrap_small, Nat2Z.id by (split; [lia|done]).
  rewrite take_ge by lia. by destruct m.
Qed.

Lemma serialize_roundtrip_witness :
  Message_wf (mkMessage 258 [Byte.x41; Byte.x42])
  /\ deserialize Little (serialize Little (mkMessage 258 [Byte.x41; Byte.x42])) Message_default
     = (true, mkMessage 258 [Byte.x41; Byte.x42]).
Proof.
  split; [unfold Message_wf; cbn; lia|].
  apply (serialize_roundtrip Little (mkMessage 258 [Byte.x41; Byte.x42]));
    [unfold Message_wf; cbn; lia|cbn; lia].
Defined.

(** a body of 65536 bytes or more is silently lost: what is deserialized
    is shorter than what was sent. *)
Theorem serialize_truncates e m m0 :
  Message_wf m -> 65536 <= Z.of_nat (length (body m)) ->
  exists m', deserialize e (serialize e m) m0 = (true, m')
    /\ (length (body m') < length (body m))%nat.
Proof.
  intros Hm Hl. rewrite deserialize_serialize_any by done.
  eexists. split; [done|]. cbn [body]. rewrite length_take.
  pose proof (uwrap_range 16 (Z.of_nat (length (body m)))). lia.
Qed.

Lemma serialize_truncates_witness :
  exists m', deserialize Big (serialize Big (mkMessage 1 (replicate (Z.to_nat 65536) Byte.x00)))
               Message_default = (true, m')
    /\ (length (body m') < Z.to_nat 65536)%nat.
Proof.
  destruct (serialize_truncates Big (mkMessage 1 (replicate (Z.to_nat 65536) Byte.x00))
    Message_default) as (m' & H1 & H2).
  - unfold Message_wf. cbn. lia.
  - cbn [body]. rewrite length_replicate. lia.
  - exists m'. split; [exact H1|]. cbn [body] in H2. rewrite length_replicate in H2. exact H2.
Defined.

End Message.

Module Parser.
Import Endian Message.

(** One iteration of the loop of [Parser::feed]: [avail] is a [size_t], the sum
    [4 + body_len] an [int], so neither wraps. *)
Definition feed_step (e : endianness) (buffer : list byte) (head : nat) : verdict Message :=
  let avail := (length buffer - head)%nat in
  if (avail <? 4)%nat then Wait
  else
    let body_len := net_to_host16 e (load16 e buffer (head + 2)) in
    if Z.of_nat avail <? 4 + body_len then Wait
    else
      Emit (mkMessage (net_to_host16 e (load16 e buffer head))
              (take (Z.to_nat body_len) (drop (head + 4) buffer)))
           (4 + Z.to_nat body_len).

Definition feed (e : endianness) (data : list byte) (p : decoder) : outcome (list Message * decoder) :=
  feed_with (feed_step e) data p.

Definition reset (p : decoder) : decoder := Decoder [] 0.

(** [Parser::compact_prefix]. *)
Definition compact_prefix (p : decoder) : decoder := compact p.

#[export] Instance feed_step_framing e : Framing (feed_step e).
Proof.
  split.
  - intros b h Hh. unfold feed_step; cbv zeta. rewrite length_drop, Nat.sub_0_r, !load16_drop, drop_drop.
    by rewrite Nat.add_0_r, Nat.add_0_l.
  - done.
  - intros b m n _. unfold feed_step; cbv zeta. case_tests; try done. intros [= <- <-].
    rewrite Nat.add_0_l in *. pose proof (load16_net_range e b 2). lia.
  - intros b more m n _. unfold feed_step; cbv zeta. rewrite length_app, !Nat.sub_0_r, !Nat.add_0_l.
    case_tests; try done; try lia; rewrite !load16_app in * by lia; try lia.
    pose proof (load16_net_range e b 2).
    by rewrite drop_app_le, take_app_le by (rewrite ?length_drop; lia).
  - intros b more _. unfold feed_step; cbv zeta. by case_tests.
Qed.

(** A serialized message is a frame. *)
Lemma serialize_frames e m :
  Message_wf m -> Z.of_nat (length (body m)) < 65536 -> frames (feed_step e) m (serialize e m).
Proof.
  intros Hm Hl. pose proof (serialize_cmd e m [] Hm) as Hc.
  pose proof (serialize_len e m []) as Hn. pose proof (serialize_body e m []) as Hb.
  rewrite app_nil_r in Hc, Hn. rewrite !app_nil_r in Hb.
  rewrite uwrap_small in Hn by (split; [lia|done]).
  unfold frames, feed_step; cbv zeta. rewrite !Nat.add_0_l, Hc, Hn, Hb.
  rewrite length_serialize, Nat.sub_0_r, Nat2Z.id, take_ge by lia.
  case_tests; try lia. by destruct m.
Qed.

(** C1: messages sent one after the other are received exactly, in order,
    whatever the packets they arrive in, and nothing is left over. *)
Theorem feed_receives e ms chunks :
  Forall (fun m => Message_wf m /\ Z.of_nat (length (body m)) < 65536) ms ->
  concat chunks = concat (map (serialize e) ms) -> fits (concat chunks) ->
  exists p, feed_all (feed_step e) chunks decoder_init = Ok (ms, p) /\ pending p = [].
Proof.
  intros Hms Heq Hf. apply (feed_frames _ ms (map (serialize e) ms)); [|done|by rewrite <- Heq].
  clear -Hms. induction Hms as [|m ms [Hm Hl] _ IH]; constructor; [|done].
  by apply serialize_frames.
Qed.

Lemma feed_receives_witness :
  let ms := [mkMessage 7 [Byte.x41]; mkMessage 300 []] in
  exists p, feed_all (feed_step Little)
    [[Byte.x00]; [Byte.x07; Byte.x00; Byte.x01; Byte.x41; Byte.x01]; [Byte.x2c; Byte.x00; Byte.x00]]
    decoder_init = Ok (ms, p) /\ pending p = [].
Proof.
  intros ms. apply (feed_receives Little ms).
  - repeat constructor; unfold Message_wf; cbn; lia.
  - vm_compute. reflexivity.
  - unfold fits. cbn. lia.
Defined.

(** [feed] is total: whatever the bytes, it returns, without undefined
    behaviour, and the consumed prefix it keeps is below 4096 bytes or half
    the buffer. *)
Theorem feed_total e data p :
  decoder_wf p -> fits (buffer_ p ++ data) ->
  exists ms p', feed e data p = Ok (ms, p') /\ decoder_wf p' /\
    ((head_ p' < 4096)%nat \/ (head_ p' * 2 < length (buffer_ p'))%nat).
Proof.
  intros Hp Hf. pose proof (feed_refines (feed_step e) data p Hp Hf) as H.
  unfold feed. destruct (feed_with (feed_step e) data p) as [[ms p']| |] eqn:E.
  - destruct (feed_idle _ _ _ _ _ Hp Hf E) as [[Hi _] _].
    exists ms, p'. split_and!; [done|done|]. by eapply feed_waste.
  - assert (parses (feed_step e) (pending p ++ data) <> Undefined) as Hu.
    { apply (parses_defined (feed_step e)); [intros b; unfold feed_step; by case_tests|].
      rewrite <- pending_append by done. by apply fits_drop. }
    by destruct (parses (feed_step e) (pending p ++ data)) as [[]| |].
  - by destruct (parses (feed_step e) (pending p ++ data)) as [[]| |].
Qed.

Lemma feed_total_witness :
  exists ms p', feed Big [Byte.x00; Byte.x01; Byte.x00; Byte.x00; Byte.x09] decoder_init = Ok (ms, p')
    /\ decoder_wf p' /\ ((head_ p' < 4096)%nat \/ (head_ p' * 2 < length (buffer_ p'))%nat).
Proof. apply feed_total; [unfold decoder_wf; cbn; lia|unfold fits; cbn; lia]. Defined.

(** Chunking does not matter for arbitrary bytes either. *)
Lemma feed_step_chunking e chunks1 chunks2 :
  concat chunks1 = concat chunks2 -> fits (concat chunks1) ->
  match feed_all (feed_step e) chunks1 decoder_init, feed_all (feed_step e) chunks2 decoder_init with
  | Ok (ms1, d1), Ok (ms2, d2) => ms1 = ms2 /\ pending d1 = pending d2
  | Undefined, Undefined => True
  | _, _ => False
  end.
Proof. apply (feed_chunking (feed_step e)). Qed.

End Parser.
