(* ===== verification/Codec.v ===== *)
(** * Codec: the three stream codecs of src/codec/codec.cpp

    - Module [LengthHeaderCodec]: four-byte length prefix; [4 + body_len] is
      32-bit unsigned arithmetic in the code and wraps here as it does there;
    - Module [JsonCodec]: the same code, for JSON text;
    - Module [ProtobufCodec]: varint32 length prefix.
    Each loop body is an instance of [Framing]. *)

From S2P Require Import Prelude.
From S2P Require Import Framing.
From S2P Require Import Protocol.
Import Endian.

Module LengthHeaderCodec.

Definition compact_prefix (c : decoder) : decoder := compact c.

(** [encode]: [static_cast<uint32_t>(message.size())], then the bytes. *)
Definition encode (e : endianness) (message : list byte) : list byte :=
  mem32 e (host_to_net32 e (u32 (Z.of_nat (length message)))) ++ message.

(** One iteration of the loop of [decode].  [4 + body_len] is a [uint32_t];
    [emplace_back(ptr, body_len)] reads [body_len] bytes from [ptr], past the
    end of the buffer when the sum wrapped. *)
Definition decode_step (e : endianness) (buffer : list byte) (head : nat) : verdict (list byte) :=
  let avail := (length buffer - head)%nat in
  if (avail <? 4)%nat then Wait
  else
    let body_len := net_to_host32 e (load32 e buffer head) in
    if Z.of_nat avail <? 4 +u32 body_len then Wait
    else if Z.of_nat avail <? 4 + body_len then Overrun
    else Emit (take (Z.to_nat body_len) (drop (head + 4) buffer)) (Z.to_nat (4 +u32 body_len)).

Definition decode (e : endianness) (data : list byte) (c : decoder) : outcome (list (list byte) * decoder) :=
  feed_with (decode_step e) data c.

Definition reset (c : decoder) : decoder := Decoder [] 0.

(** The 32-bit sum on the lengths that do not wrap, and on those that do. *)
Lemma frame_len_small n : 0 <= n < 2 ^ 32 - 4 -> 4 +u32 n = 4 + n.
Proof. intros Hn. apply uwrap_small. lia. Qed.

Lemma frame_len_wraps n : 2 ^ 32 - 4 <= n < 2 ^ 32 -> 4 +u32 n = n - (2 ^ 32 - 4).
Proof.
  intros Hn. unfold uwrap. rewrite <- (Z.mod_small (n - (2 ^ 32 - 4)) (2 ^ 32)) by lia.
  rewrite <- (Z.mod_add (n - (2 ^ 32 - 4)) 1) by lia. f_equal. lia.
Qed.

(** On streams of less than 4 GB, an iteration emits a frame only when the
    length did not wrap. *)
Lemma decode_step_cases e b : fits b ->
  let n := net_to_host32 e (load32 e b 0) in
  decode_step e b 0 =
  if (length b <? 4)%nat then Wait
  else if n <? 2 ^ 32 - 4 then
    if Z.of_nat (length b) <? 4 + n then Wait
    else Emit (take (Z.to_nat n) (drop 4 b)) (4 + Z.to_nat n)
  else if Z.of_nat (length b) <? n - (2 ^ 32 - 4) then Wait else Overrun.
Proof.
  intros Hf n. unfold decode_step; cbv zeta. rewrite Nat.sub_0_r, Nat.add_0_l. fold n.
  assert (0 <= n < 2 ^ 32) as Hn by apply load32_net_range.
  destruct (length b <? 4)%nat eqn:E; [done|]. breflect.
  destruct (n <? 2 ^ 32 - 4) eqn:En; breflect.
  - rewrite frame_len_small by lia. case_tests; try done.
    f_equal. lia.
  - rewrite frame_len_wraps by lia. unfold fits in Hf. case_tests; try done. lia.
Qed.

#[export] Instance decode_step_framing e : Framing (decode_step e).
Proof.
  split.
  - intros b h Hh. unfold decode_step. rewrite length_drop, Nat.sub_0_r, !load32_drop, drop_drop.
    by rewrite Nat.add_0_r, Nat.add_0_l.
  - done.
  - intros b m n Hf. rewrite decode_step_cases by done.
    pose proof (load32_net_range e b 0). case_tests; try done. intros [= <- <-]. lia.
  - intros b more m n Hf. pose proof (fits_app_l _ _ Hf) as Hf1.
    rewrite !decode_step_cases, length_app by done.
    destruct (length b <? 4)%nat eqn:E; breflect; [done|].
    rewrite load32_app by lia. pose proof (load32_net_range e b 0).
    case_tests; try done; try lia.
    by rewrite drop_app_le, take_app_le by (rewrite ?length_drop; lia).
  - intros b more Hf. pose proof (fits_app_l _ _ Hf) as Hf1.
    rewrite !decode_step_cases, length_app by done.
    destruct (length b <? 4)%nat eqn:E; breflect; [done|].
    rewrite load32_app by lia. case_tests; try done; lia.
Qed.

Lemma length_encode e m : length (encode e m) = (4 + length m)%nat.
Proof. unfold encode. rewrite length_app, length_mem32. lia. Qed.

Lemma encode_body e m : drop 4 (encode e m) = m.
Proof. unfold encode. by destruct e. Qed.

Lemma lh_encode_frames e m :
  fits (encode e m) -> frames (decode_step e) m (encode e m).
Proof.
  intros Hf. unfold frames. rewrite decode_step_cases by done.
  assert (net_to_host32 e (load32 e (encode e m) 0) = Z.of_nat (length m)) as ->.
  { unfold fits in Hf. rewrite length_encode in Hf. unfold encode.
    rewrite uwrap_small by lia. apply load_store32. lia. }
  unfold fits in Hf. rewrite length_encode in *. case_tests; try lia.
  rewrite encode_body, Nat2Z.id, take_ge by lia. done.
Qed.

(** C39: strings encoded one after the other and received in any packets are
    decoded exactly, in order. *)
Theorem decode_receives e ms chunks :
  concat chunks = concat (map (encode e) ms) -> fits (concat chunks) ->
  exists c, feed_all (decode_step e) chunks decoder_init = Ok (ms, c) /\ pending c = [].
Proof.
  intros Heq Hf. apply (feed_frames _ ms (map (encode e) ms)); [|done|by rewrite <- Heq].
  rewrite Heq in Hf. clear Heq. induction ms as [|m ms IH]; constructor.
  - apply lh_encode_frames. by apply (fits_app_l _ (concat (map (encode e) ms))).
  - apply IH. by apply (fits_app_r (encode e m)).
Qed.

Lemma decode_receives_witness :
  exists c, feed_all (decode_step Little)
    [[Byte.x00; Byte.x00; Byte.x00]; [Byte.x02; Byte.x68]; [Byte.x69; Byte.x00; Byte.x00; Byte.x00; Byte.x00]]
    decoder_init = Ok ([[Byte.x68; Byte.x69]; []], c) /\ pending c = [].
Proof.
  apply (decode_receives Little [[Byte.x68; Byte.x69]; []]);
    [vm_compute; reflexivity|unfold fits; cbn; lia].
Defined.

(** a four-byte header announcing at least 2^32 - 4 bytes, with the bytes
    the wrapped sum asks for, sends [decode] past the end of its buffer. *)
Theorem decode_overruns e n data :
  2 ^ 32 - 4 <= n < 2 ^ 32 -> fits (mem32 e (host_to_net32 e n) ++ data) ->
  decode e (mem32 e (host_to_net32 e n) ++ data) decoder_init = Undefined.
Proof.
  intros Hn Hf. unfold decode.
  assert (decode_step e (mem32 e (host_to_net32 e n) ++ data) 0 = Overrun) as Hs.
  { rewrite decode_step_cases, load_store32 by (done || lia).
    rewrite length_app, length_mem32. case_tests; try done; lia. }
  unfold feed_with. cbn [buffer_ head_ decoder_init]. rewrite app_nil_l.
  cbn [drain]. by rewrite Hs.
Qed.

Lemma decode_overruns_witness :
  decode Little [Byte.xff; Byte.xff; Byte.xff; Byte.xfe; Byte.x00; Byte.x00] decoder_init = Undefined.
Proof.
  apply (decode_overruns Little (2 ^ 32 - 2) [Byte.x00; Byte.x00]); [lia|].
  unfold fits. cbn. lia.
Defined.

(** The only way to fail: no other stream does. *)
Lemma decode_step_overrun_iff e b : fits b ->
  decode_step e b 0 = Overrun <->
  let n := net_to_host32 e (load32 e b 0) in
  (4 <= length b)%nat /\ 2 ^ 32 - 4 <= n /\ n - (2 ^ 32 - 4) <= Z.of_nat (length b).
Proof.
  intros Hf. rewrite decode_step_cases by done. cbv zeta.
  case_tests; (split; [intros H; try done; lia|intros (? & ? & ?); try done; lia]).
Qed.

End LengthHeaderCodec.

Module JsonCodec.

Definition compact_prefix (c : decoder) : decoder := compact c.

Definition encode (e : endianness) (message : list byte) : list byte :=
  mem32 e (host_to_net32 e (u32 (Z.of_nat (length message)))) ++ message.

Definition decode_step (e : endianness) (buffer : list byte) (head : nat) : verdict (list byte) :=
  let avail := (length buffer - head)%nat in
  if (avail <? 4)%nat then Wait
  else
    let body_len := net_to_host32 e (load32 e buffer head) in
    if Z.of_nat avail <? 4 +u32 body_len then Wait
    else if Z.of_nat avail <? 4 + body_len then Overrun
    else Emit (take (Z.to_nat body_len) (drop (head + 4) buffer)) (Z.to_nat (4 +u32 body_len)).

Definition decode (e : endianness) (data : list byte) (c : decoder) : outcome (list (list byte) * decoder) :=
  feed_with (decode_step e) data c.

Definition reset (c : decoder) : decoder := Decoder [] 0.

(** The documentation's claim that the two formats are the same. *)
Lemma json_is_length_header e :
  encode e = LengthHeaderCodec.encode e /\ decode e = LengthHeaderCodec.decode e.
Proof. done. Qed.

End JsonCodec.

Module ProtobufCodec.

(** [append_varint32]: the [while (value >= 0x80)] loop; a 32-bit value takes
    at most four iterations ([append_varint32_unfold]). *)
Fixpoint append_varint32_loop (fuel : nat) (out : list byte) (value : Z) : list byte :=
  match fuel with
  | O => out
  | S fuel' =>
      if 128 <=? value
      then append_varint32_loop fuel'
             (out ++ [byte_of (Z.lor (Z.land value 127) 128)]) (Z.shiftr value 7)
      else out ++ [byte_of (Z.land value 127)]
  end.

Definition append_varint32 (out : list byte) (value : Z) : list byte :=
  append_varint32_loop 5 out value.

(** [parse_varint32]: from [pos], the value and the position after it, [None]
    for [false].  The loop runs while [shift <= 28], so six tests end it. *)
Fixpoint parse_varint32_loop (fuel : nat) (buf : list byte) (pos : nat) (result shift : Z)
  : option (Z * nat) :=
  match fuel with
  | O => None
  | S fuel' =>
      if (pos <? length buf)%nat && (shift <=? 28) then
        let b := byte_at buf pos in
        let result' := Z.lor result (u32 (Z.shiftl (Z.land b 127) shift)) in
        if Z.land b 128 =? 0 then Some (result', S pos)
        else parse_varint32_loop fuel' buf (S pos) result' (shift + 7)
      else None
  end.

Definition parse_varint32 (buf : list byte) (pos : nat) : option (Z * nat) :=
  parse_varint32_loop 6 buf pos 0 0.

Definition encode (message : list byte) : list byte :=
  append_varint32 [] (u32 (Z.of_nat (length message))) ++ message.

(** One iteration of the loop of [decode]; [saved_pos] is restored on failure,
    so the iteration that fails leaves the position where it was. *)
Definition decode_step (buffer : list byte) (pos : nat) : verdict (list byte) :=
  if (length buffer <=? pos)%nat then Wait
  else
    match parse_varint32 buffer pos with
    | None => Wait
    | Some (len, pos1) =>
        if Z.of_nat (length buffer - pos1) <? len then Wait
        else Emit (take (Z.to_nat len) (drop pos1 buffer)) (pos1 - pos + Z.to_nat len)
    end.

Definition decode (data : list byte) (c : decoder) : outcome (list (list byte) * decoder) :=
  feed_with decode_step data c.

Definition compact_prefix (c : decoder) : decoder := compact c.

Definition reset (c : decoder) : decoder := Decoder [] 0.

(** *** The encoder's loop *)

Lemma append_loop_S f out v :
  append_varint32_loop (S f) out v =
  if 128 <=? v
  then append_varint32_loop f (out ++ [byte_of (Z.lor (Z.land v 127) 128)]) (Z.shiftr v 7)
  else out ++ [byte_of (Z.land v 127)].
Proof. done. Qed.

Lemma append_loop_fuel f1 f2 out v :
  0 <= v -> v < 128 ^ Z.of_nat f1 -> (f1 <= f2)%nat -> (0 < f1)%nat ->
  append_varint32_loop f2 out v = append_varint32_loop f1 out v.
Proof.
  revert f2 out v. induction f1 as [|f1 IH]; intros f2 out v H0 Hv Hf Hp; [lia|].
  destruct f2 as [|f2]; [lia|]. rewrite !append_loop_S. case_test; [|done].
  destruct (Nat.eq_dec f1 0%nat) as [->|]; [cbn in Hv; lia|].
  apply IH; [apply Z.shiftr_nonneg; lia| |lia..].
  rewrite Z.shiftr_div_pow2 by lia. apply Z.div_lt_upper_bound; [lia|].
  rewrite Nat2Z.inj_succ, Z.pow_succ_r in Hv by lia. lia.
Qed.

(** The loop of the code, without fuel: on every 32-bit value the fuel is
    enough. *)
Lemma append_varint32_unfold out v :
  0 <= v < 2 ^ 32 ->
  append_varint32 out v =
  if 128 <=? v
  then append_varint32 (out ++ [byte_of (Z.lor (Z.land v 127) 128)]) (Z.shiftr v 7)
  else out ++ [byte_of (Z.land v 127)].
Proof.
  intros Hv. unfold append_varint32 at 1. rewrite append_loop_S. case_test; [|done].
  symmetry. unfold append_varint32. apply append_loop_fuel; [apply Z.shiftr_nonneg; lia| |lia..].
  rewrite Z.shiftr_div_pow2 by lia. apply Z.div_lt_upper_bound; lia.
Qed.

Lemma append_loop_prefix f out v :
  append_varint32_loop f out v = out ++ append_varint32_loop f [] v.
Proof.
  revert out v. induction f as [|f IH]; intros out v.
  { cbn. by rewrite app_nil_r. }
  rewrite !append_loop_S.
  case_test; [|done]. rewrite IH, (IH ([] ++ _)), <- app_assoc. done.
Qed.

(** The varint of a value: one byte, or a continuation byte and a varint. *)
Lemma varint_unfold v :
  0 <= v < 2 ^ 32 ->
  append_varint32 [] v =
  if 128 <=? v then byte_of (v mod 128 + 128) :: append_varint32 [] (v / 128) else [byte_of v].
Proof.
  intros Hv. rewrite append_varint32_unfold by done.
  change 127 with (Z.ones 7). rewrite (Z.land_ones v 7), (Z.shiftr_div_pow2 v 7) by lia.
  change (2 ^ 7) with 128.
  case_tests; cbn [app].
  - unfold append_varint32. rewrite append_loop_prefix. cbn [app]. do 2 f_equal.
    pose proof (Z.mod_pos_bound v 128 ltac:(lia)).
    apply Z.eqb_eq, (Z_below_check 128 (fun x => Z.lor x 128 =? x + 128)); [done|lia].
  - by rewrite Z.mod_small by lia.
Qed.

Lemma varint_length v : 0 <= v < 2 ^ 32 -> (0 < length (append_varint32 [] v))%nat.
Proof. intros Hv. rewrite varint_unfold by done. case_tests; cbn; lia. Qed.

(** *** The parser's loop *)

Lemma parse_loop_S f buf pos r s :
  parse_varint32_loop (S f) buf pos r s =
  if (pos <? length buf)%nat && (s <=? 28) then
    let r' := Z.lor r (u32 (Z.shiftl (Z.land (byte_at buf pos) 127) s)) in
    if Z.land (byte_at buf pos) 128 =? 0 then Some (r', S pos)
    else parse_varint32_loop f buf (S pos) r' (s + 7)
  else None.
Proof. done. Qed.

(** The loop always leaves by its own tests: a seventh iteration adds nothing. *)
Lemma parse_varint32_complete f buf pos :
  (6 <= f)%nat -> parse_varint32_loop f buf pos 0 0 = parse_varint32 buf pos.
Proof.
  intros Hf. unfold parse_varint32.
  do 6 (destruct f as [|f]; [lia|]; rewrite !parse_loop_S;
        match goal with |- context [(?p <? ?l)%nat && ?t] => destruct ((p <? l)%nat && t) eqn:?; [|done] end;
        cbv zeta; match goal with |- context [Z.land ?x 128 =? 0] => destruct (Z.land x 128 =? 0); [done|] end).
  breflect. lia.
Qed.

Lemma parse_loop_bounds f buf pos r s v q :
  parse_varint32_loop f buf pos r s = Some (v, q) -> (pos < q <= length buf)%nat.
Proof.
  revert pos r s. induction f as [|f IH]; intros pos r s; [done|].
  rewrite parse_loop_S. case_test; [|done]. cbv zeta. case_test.
  - intros [= <- <-]. lia.
  - intros Hq%IH. lia.
Qed.

Lemma parse_loop_app f buf more pos r s x :
  parse_varint32_loop f buf pos r s = Some x ->
  parse_varint32_loop f (buf ++ more) pos r s = Some x.
Proof.
  revert pos r s. induction f as [|f IH]; intros pos r s; [done|].
  rewrite !parse_loop_S, length_app. case_test; [|done]. cbv zeta.
  rewrite byte_at_app by done.
  assert ((pos <? length buf + length more)%nat = true) as -> by (apply Nat.ltb_lt; lia).
  assert ((s <=? 28) = true) as -> by (apply Z.leb_le; lia). cbn [andb].
  case_test; [done|]. apply IH.
Qed.

Lemma parse_loop_drop f buf h pos r s :
  (h <= length buf)%nat ->
  parse_varint32_loop f (drop h buf) pos r s =
  (fun '(v, q) => (v, (q - h)%nat)) <$> parse_varint32_loop f buf (h + pos) r s.
Proof.
  intros Hh. revert pos r s. induction f as [|f IH]; intros pos r s; [done|].
  rewrite !parse_loop_S, length_drop, byte_at_drop. cbv zeta.
  replace (pos <? length buf - h)%nat with (h + pos <? length buf)%nat
    by (destruct (Nat.ltb_spec (h + pos) (length buf)), (Nat.ltb_spec pos (length buf - h)); lia || done).
  case_test; [|done]. case_test.
  - cbn. repeat f_equal. lia.
  - by rewrite IH, Nat.add_succ_r.
Qed.

#[export] Instance decode_step_framing : Framing decode_step.
Proof.
  split.
  - intros b h Hh. unfold decode_step. rewrite length_drop. unfold parse_varint32.
    rewrite parse_loop_drop, Nat.add_0_r by done.
    destruct (Nat.leb_spec (length b) h); destruct (Nat.leb_spec (length b - h) 0); try lia; [done|].
    destruct (parse_varint32_loop 6 b h 0 0) as [[v q]|] eqn:E; [|done]. cbn.
    apply parse_loop_bounds in E. rewrite drop_drop.
    replace (length b - h - (q - h))%nat with (length b - q)%nat by lia.
    replace (h + (q - h))%nat with q by lia. by rewrite Nat.sub_0_r.
  - done.
  - intros b m n _. unfold decode_step. case_test; [done|].
    destruct (parse_varint32 b 0) as [[v q]|] eqn:Ep; [|done].
    apply parse_loop_bounds in Ep. case_test; [done|]. intros [= <- <-]. lia.
  - intros b more m n _. unfold decode_step. rewrite length_app. case_test; [done|].
    destruct (parse_varint32 b 0) as [[v q]|] eqn:Ep; [|done].
    pose proof (parse_loop_app _ _ more _ _ _ _ Ep) as Ep'. fold (parse_varint32 (b ++ more) 0) in Ep'.
    rewrite Ep'. apply parse_loop_bounds in Ep.
    case_tests; try done; try lia.
    by rewrite drop_app_le, take_app_le by (rewrite ?length_drop; lia).
  - intros b more _. unfold decode_step. case_test; [done|].
    destruct (parse_varint32 b 0) as [[v q]|]; [|done]. by case_test.
Qed.

(** *** Round trip *)

Lemma cont_byte w : 0 <= w < 128 ->
  Z.land (byte_val (byte_of (w + 128))) 127 = w /\ Z.land (byte_val (byte_of (w + 128))) 128 = 128.
Proof.
  intros Hw. rewrite byte_val_of, Z.mod_small by lia. split; apply Z.eqb_eq.
  - by apply (Z_below_check 128 (fun w => Z.land (w + 128) 127 =? w)).
  - by apply (Z_below_check 128 (fun w => Z.land (w + 128) 128 =? 128)).
Qed.

Lemma last_byte w : 0 <= w < 128 ->
  Z.land (byte_val (byte_of w)) 127 = w /\ Z.land (byte_val (byte_of w)) 128 = 0.
Proof.
  intros Hw. rewrite byte_val_of, Z.mod_small by lia. split; apply Z.eqb_eq.
  - by apply (Z_below_check 128 (fun w => Z.land w 127 =? w)).
  - by apply (Z_below_check 128 (fun w => Z.land w 128 =? 0)).
Qed.

(** The seven low bits and the rest, put back together at any shift. *)
Lemma lor_split r v s : 0 <= v -> 0 <= s ->
  Z.lor (Z.lor r (Z.shiftl (v mod 128) s)) (Z.shiftl (v / 128) (s + 7)) = Z.lor r (Z.shiftl v s).
Proof.
  intros Hv Hs. rewrite <- Z.lor_assoc, (Z.add_comm s 7), <- Z.shiftl_shiftl, <- Z.shiftl_lor by lia.
  do 2 f_equal. apply Z.bits_inj'. intros i Hi. rewrite Z.lor_spec.
  change 128 with (2 ^ 7). rewrite <- Z.land_ones, <- Z.shiftr_div_pow2, Z.land_spec by lia.
  rewrite Z.ones_spec, Z.shiftl_spec by lia. case_bool_decide.
  - rewrite (Z.testbit_neg_r _ (i - 7)) by lia. by rewrite andb_true_r, orb_false_r.
  - rewrite Z.shiftr_spec by lia. rewrite andb_false_r. cbn. f_equal. lia.
Qed.

Lemma shiftl_fits v s : 0 <= s -> 0 <= v < 2 ^ (32 - s) -> s <= 32 -> u32 (Z.shiftl v s) = Z.shiftl v s.
Proof.
  intros Hs Hv Hs'. apply uwrap_small. rewrite Z.shiftl_mul_pow2 by lia.
  replace 32 with ((32 - s) + s) at 1 by lia. rewrite Z.pow_add_r by lia.
  pose proof (Z.pow_pos_nonneg 2 s). nia.
Qed.

Lemma byte_at_pre pre b rest : byte_at (pre ++ b :: rest) (length pre) = byte_val b.
Proof.
  unfold byte_at. rewrite app_nth2, Nat.sub_diag by lia. done.
Qed.

Lemma in_range_pre pre (b : byte) rest : (length pre <? length (pre ++ b :: rest))%nat = true.
Proof. apply Nat.ltb_lt. rewrite length_app. cbn. lia. Qed.

(** Reading a varint back, at any position and shift of the code's loop. *)
Lemma parse_loop_varint f k pre v rest r :
  0 <= v < 2 ^ (32 - 7 * Z.of_nat k) -> (k <= 4)%nat -> (5 <= f + k)%nat ->
  parse_varint32_loop f (pre ++ append_varint32 [] v ++ rest) (length pre) r (7 * Z.of_nat k) =
  Some (Z.lor r (Z.shiftl v (7 * Z.of_nat k)), (length pre + length (append_varint32 [] v))%nat).
Proof.
  revert k pre v r. induction f as [|f IH]; intros k pre v r Hv Hk Hf; [lia|].
  assert (v < 2 ^ 32) as Hv32.
  { eapply Z.lt_le_trans; [apply Hv|]. apply Z.pow_le_mono_r; lia. }
  rewrite varint_unfold by lia. rewrite parse_loop_S.
  destruct (128 <=? v) eqn:E; breflect; cbn [app]; rewrite byte_at_pre, in_range_pre;
    rewrite (proj2 (Z.leb_le (7 * Z.of_nat k) 28)) by lia; cbn [andb]; cbv zeta.
  - pose proof (Z.mod_pos_bound v 128 ltac:(lia)) as Hm.
    destruct (cont_byte (v mod 128) Hm) as [-> ->]. cbn [Z.eqb].
    assert (7 < 32 - 7 * Z.of_nat k) as Hk7.
    { apply Z.nle_gt. intros H.
      pose proof (Z.pow_le_mono_r 2 (32 - 7 * Z.of_nat k) 7 ltac:(lia) H). lia. }
    assert (0 <= v / 128 < 2 ^ (32 - 7 * Z.of_nat (S k))) as Hv'.
    { split; [apply Z.div_pos; lia|]. apply Z.div_lt_upper_bound; [lia|].
      change 128 with (2 ^ 7). rewrite <- Z.pow_add_r by lia.
      replace (7 + (32 - 7 * Z.of_nat (S k))) with (32 - 7 * Z.of_nat k) by lia. lia. }
    rewrite shiftl_fits; [|lia| |lia].
    2: { split; [lia|]. eapply Z.le_lt_trans; [apply Z.mod_le; lia|]. lia. }
    specialize (IH (S k) (pre ++ [byte_of (v mod 128 + 128)]) (v / 128)
      (Z.lor r (Z.shiftl (v mod 128) (7 * Z.of_nat k))) Hv').
    rewrite length_app, <- app_assoc in IH. cbn [app length] in IH.
    replace (7 * Z.of_nat k + 7) with (7 * Z.of_nat (S k)) by lia.
    replace (S (length pre)) with (length pre + 1)%nat by lia.
    rewrite IH by lia. f_equal. f_equal; [|cbn [length]; lia].
    replace (7 * Z.of_nat (S k)) with (7 * Z.of_nat k + 7) by lia. apply lor_split; lia.
  - destruct (last_byte v ltac:(lia)) as [-> ->]. cbn [Z.eqb].
    rewrite shiftl_fits by lia. do 2 f_equal. cbn [length]. lia.
Qed.

Lemma parse_varint_encoded v rest :
  0 <= v < 2 ^ 32 ->
  parse_varint32 (append_varint32 [] v ++ rest) 0 = Some (v, length (append_varint32 [] v)).
Proof.
  intros Hv. pose proof (parse_loop_varint 6 0 [] v rest 0 Hv) as H.
  cbn [app length] in H. unfold parse_varint32. change (7 * Z.of_nat 0) with 0 in H.
  rewrite H by lia. by rewrite Z.lor_0_l, Z.shiftl_0_r.
Qed.

Lemma encode_frames m : fits (encode m) -> frames decode_step m (encode m).
Proof.
  unfold frames, fits, encode. rewrite length_app. intros Hf.
  assert (0 <= Z.of_nat (length m) < 2 ^ 32) as Hm by lia.
  rewrite (uwrap_small 32) in * by done. pose proof (varint_length _ Hm).
  unfold decode_step. rewrite length_app, parse_varint_encoded by done.
  case_tests; try lia.
  rewrite drop_app_length, Nat2Z.id, Nat.sub_0_r, take_ge by lia. done.
Qed.

(** strings encoded with varint lengths and received in any packets are
    decoded exactly, in order. *)
Theorem decode_receives_varint ms chunks :
  concat chunks = concat (map encode ms) -> fits (concat chunks) ->
  exists c, feed_all decode_step chunks decoder_init = Ok (ms, c) /\ pending c = [].
Proof.
  intros Heq Hf. apply (feed_frames _ ms (map encode ms)); [|done|by rewrite <- Heq].
  rewrite Heq in Hf. clear Heq. induction ms as [|m ms IH]; constructor.
  - apply encode_frames. by apply (fits_app_l _ (concat (map encode ms))).
  - apply IH. by apply (fits_app_r (encode m)).
Qed.

Lemma decode_receives_varint_witness :
  exists c, feed_all decode_step
    [[]; [Byte.x00; Byte.x03; Byte.x61]; [Byte.x62]; [Byte.x63]] decoder_init
    = Ok ([[]; [Byte.x61; Byte.x62; Byte.x63]], c) /\ pending c = [].
Proof.
  apply (decode_receives_varint [[]; [Byte.x61; Byte.x62; Byte.x63]]);
    [vm_compute; reflexivity|unfold fits; cbn; lia].
Defined.

(** *** Malformed prefixes *)

(** Five continuation bytes are no varint, whatever follows. *)
Definition malformed (b : list byte) : Prop :=
  (5 <= length b)%nat /\ forall i, (i < 5)%nat -> Z.land (byte_at b i) 128 <> 0.

Lemma malformed_app b more : malformed b -> malformed (b ++ more).
Proof.
  intros [Hl Hi]. split; [rewrite length_app; lia|].
  intros i Hlt. rewrite byte_at_app by lia. by apply Hi.
Qed.

Lemma parse_malformed b : malformed b -> parse_varint32 b 0 = None.
Proof.
  intros [Hl Hi]. unfold parse_varint32.
  do 5 (rewrite parse_loop_S; cbv zeta;
    match goal with |- context [Z.land ?x 128 =? 0] =>
      destruct (Z.eqb_spec (Z.land x 128) 0); [exfalso; revert e; apply Hi; lia|] end;
    match goal with |- context [if ?t then _ else None] => destruct t; [|done] end).
  rewrite parse_loop_S. by rewrite andb_false_r.
Qed.

(** once the pending bytes start with five continuation bytes, [decode]
    returns nothing ever again, and keeps every byte it is given. *)
Theorem malformed_stalls c chunks :
  idle decode_step c -> malformed (pending c) -> fits (buffer_ c ++ concat chunks) ->
  exists c', feed_all decode_step chunks c = Ok ([], c') /\
    pending c' = pending c ++ concat chunks.
Proof.
  intros Hc Hm Hf. pose proof (feed_all_refines decode_step chunks c Hc Hf) as H.
  assert (fits (pending c ++ concat chunks)) as Hf'.
  { rewrite <- pending_append by apply Hc. by apply fits_drop. }
  rewrite (parses_step decode_step) in H by done.
  assert (decode_step (pending c ++ concat chunks) 0 = Wait) as Hw.
  { unfold decode_step. rewrite parse_malformed by by apply malformed_app. by case_test. }
  rewrite Hw in H. destruct (feed_all decode_step chunks c) as [[ms c']| |]; try done.
  destruct H as (-> & Hp & _). by exists c'.
Qed.

Lemma malformed_stalls_witness :
  let c := Decoder (replicate 5 Byte.xff) 0 in
  exists c', feed_all decode_step [[Byte.x01; Byte.x41]; [Byte.x01; Byte.x42]] c = Ok ([], c') /\
    pending c' = pending c ++ [Byte.x01; Byte.x41; Byte.x01; Byte.x42].
Proof.
  intros c. apply (malformed_stalls c [[Byte.x01; Byte.x41]; [Byte.x01; Byte.x42]]).
  - split; [unfold decoder_wf; cbn; lia|reflexivity].
  - split; [cbn; lia|]. intros i Hi. do 5 (destruct i as [|i]; [discriminate|]). lia.
  - unfold fits. cbn. lia.
Defined.

End ProtobufCodec.
