(* ===== verification/Numeric.v ===== *)
(** * Numeric: binary64 and checked 64-bit arithmetic

    The code computes rates with [double]s.  [f64] is the IEEE 754 binary64
    datum of the Standard Library's [SpecFloat] (pure Gallina, round to nearest
    even), so every computation on it evaluates in the kernel.  Conversions and
    signed sums that C++ leaves undefined out of range return [None]. *)

From Stdlib Require Import SpecFloat.
From S2P Require Import Prelude.

Abbreviation f64 := spec_float.

Definition f64_of_Z (z : Z) : f64 := binary_normalize 53 1024 z 0 false.
Definition f64_div : f64 -> f64 -> f64 := SFdiv 53 1024.
Definition f64_mul : f64 -> f64 -> f64 := SFmul 53 1024.
Definition f64_add : f64 -> f64 -> f64 := SFadd 53 1024.

(** [x >= y] is false when either is a NaN. *)
Definition f64_geb (x y : f64) : bool := SFleb y x.
Definition f64_ltb (x y : f64) : bool := SFltb x y.

(** The literal 0.5. *)
Definition f64_half : f64 := f64_div (f64_of_Z 1) (f64_of_Z 2).

Definition int64_range (z : Z) : bool := (- 2 ^ 63 <=? z) && (z <? 2 ^ 63).

(** Truncation toward zero, before the range test. *)
Definition f64_trunc (x : f64) : option Z :=
  match x with
  | S754_zero _ => Some 0
  | S754_finite s m e =>
      let a := if 0 <=? e then Zpos m * 2 ^ e else Zpos m / 2 ^ (- e) in
      Some (if s then - a else a)
  | _ => None
  end.

(** [static_cast<int64_t>(double)]: undefined when the value does not fit. *)
Definition f64_to_int64 (x : f64) : option Z :=
  match f64_trunc x with
  | Some z => if int64_range z then Some z else None
  | None => None
  end.

(** Signed 64-bit sum and difference: overflow is undefined. *)
Definition i64_add (a b : Z) : option Z := if int64_range (a + b) then Some (a + b) else None.
Definition i64_sub (a b : Z) : option Z := if int64_range (a - b) then Some (a - b) else None.

Lemma int64_range_spec z : int64_range z = true <-> - 2 ^ 63 <= z < 2 ^ 63.
Proof. unfold int64_range. rewrite andb_true_iff, Z.leb_le, Z.ltb_lt. done. Qed.

Lemma i64_add_ok a b z : i64_add a b = Some z -> z = a + b /\ - 2 ^ 63 <= z < 2 ^ 63.
Proof. unfold i64_add. case_test; [|done]. apply int64_range_spec in E. by intros [= <-]. Qed.

Lemma i64_sub_ok a b z : i64_sub a b = Some z -> z = a - b /\ - 2 ^ 63 <= z < 2 ^ 63.
Proof. unfold i64_sub. case_test; [|done]. apply int64_range_spec in E. by intros [= <-]. Qed.

Lemma i64_add_def a b : - 2 ^ 63 <= a + b < 2 ^ 63 -> i64_add a b = Some (a + b).
Proof. intros H. unfold i64_add. by rewrite (proj2 (int64_range_spec _) H). Qed.

Lemma i64_sub_def a b : - 2 ^ 63 <= a - b < 2 ^ 63 -> i64_sub a b = Some (a - b).
Proof. intros H. unfold i64_sub. by rewrite (proj2 (int64_range_spec _) H). Qed.

(** ** Signs: a product or quotient of non-negative numbers is not negative *)

Definition f64_nonneg (x : f64) : Prop :=
  match x with
  | S754_zero s | S754_infinity s | S754_finite s _ _ => s = false
  | S754_nan => True
  end.

Lemma binary_round_aux_nonneg m e l : f64_nonneg (binary_round_aux 53 1024 false m e l).
Proof.
  unfold binary_round_aux. destruct (shr_fexp 53 1024 m e l) as [r1 e1].
  destruct (shr_fexp 53 1024 _ e1 loc_Exact) as [r2 e2].
  destruct (shr_m r2); cbn; [done| |done]. by case_test.
Qed.

Lemma f64_of_Z_nonneg z : 0 <= z -> f64_nonneg (f64_of_Z z).
Proof.
  intros Hz. unfold f64_of_Z, binary_normalize, binary_round.
  destruct z as [|p|p]; [done| |lia].
  destruct (shl_align p 0 _) as [mz ez]. apply binary_round_aux_nonneg.
Qed.

Lemma f64_mul_nonneg x y : f64_nonneg x -> f64_nonneg y -> f64_nonneg (f64_mul x y).
Proof.
  unfold f64_mul, SFmul. destruct x as [sx|sx| |sx mx ex], y as [sy|sy| |sy my ey];
    cbn [f64_nonneg]; intros; subst; cbn [xorb]; try done.
  apply binary_round_aux_nonneg.
Qed.

Lemma f64_div_nonneg x y : f64_nonneg x -> f64_nonneg y -> f64_nonneg (f64_div x y).
Proof.
  unfold f64_div, SFdiv. destruct x as [sx|sx| |sx mx ex], y as [sy|sy| |sy my ey];
    cbn [f64_nonneg]; intros; subst; cbn [xorb]; try done.
  destruct (SFdiv_core_binary 53 1024 (Zpos mx) ex (Zpos my) ey) as [[mz ez] lz].
  apply binary_round_aux_nonneg.
Qed.

Lemma f64_trunc_nonneg x z : f64_nonneg x -> f64_trunc x = Some z -> 0 <= z.
Proof.
  destruct x as [s|s| |s m e]; cbn [f64_nonneg f64_trunc]; try done.
  - by intros _ [= <-].
  - intros -> [= <-]. case_test; [|apply Z.div_pos; [lia|apply Z.pow_pos_nonneg; lia]].
    pose proof (Z.pow_pos_nonneg 2 e). nia.
Qed.

Lemma f64_to_int64_nonneg x z : f64_nonneg x -> f64_to_int64 x = Some z -> 0 <= z.
Proof.
  unfold f64_to_int64. intros Hx. destruct (f64_trunc x) as [t|] eqn:E; [|done].
  case_test; [|done]. intros [= <-]. by eapply f64_trunc_nonneg.
Qed.

Lemma f64_to_int64_range x z : f64_to_int64 x = Some z -> - 2 ^ 63 <= z < 2 ^ 63.
Proof.
  unfold f64_to_int64. destruct (f64_trunc x) as [t|]; [|done].
  case_test; [|done]. intros [= <-]. by apply int64_range_spec.
Qed.

(** [static_cast<int>(double)]: undefined when the value does not fit. *)
Definition f64_to_int (x : f64) : outcome Z := z ←o need (f64_trunc x); as_int z.
