(* ===== verification/CircuitBreaker.v ===== *)
(** * CircuitBreaker: src/circuitbreaker/circuit_breaker.cpp and its header

    The breaker's fields are a record; each method is a function on it.  A call
    that reads the clock takes the readings as arguments (nanoseconds for
    [start_time]/[end_time], milliseconds for [current_timestamp_ms]).  The
    protected function is an arbitrary function on the breaker, so it may call
    the breaker back, and stands for other threads' calls made meanwhile. *)

From S2P Require Import Prelude.
From S2P Require Import Numeric.

Inductive CircuitState := CLOSED | OPEN | HALF_OPEN.

Inductive TripStrategy := FAILURE_COUNT | FAILURE_RATE | FAILURE_COUNT_OR_RATE.

#[export] Instance CircuitState_eq_dec : EqDecision CircuitState.
Proof. solve_decision. Defined.

Record CircuitBreakerResult := mkResult {
  success : bool;
  res_state : CircuitState;
  reason : string;
  duration_ms : Z
}.

Record CircuitBreakerConfig := mkConfig {
  trip_strategy : TripStrategy;
  failure_threshold : Z;
  failure_rate_threshold : f64;
  timeout_ms : Z;
  half_open_calls : Z
}.

Definition default_config : CircuitBreakerConfig :=
  mkConfig FAILURE_COUNT_OR_RATE 5 f64_half 60000 3.

(** [DefaultCircuitBreaker]. *)
Record breaker := mkBreaker {
  name_ : string;
  config_ : CircuitBreakerConfig;
  state_ : CircuitState;
  failure_count_ : Z;
  success_count_ : Z;
  half_open_count_ : Z;
  last_failure_time_ms_ : Z
}.

(** The constructor; it does not initialize [last_failure_time_ms_], which is
    the argument [t]. *)
Definition breaker_init (name : string) (c : CircuitBreakerConfig) (t : Z) : breaker :=
  mkBreaker name c CLOSED 0 0 0 t.

Definition get_state (b : breaker) : CircuitState := state_ b.
Definition get_failure_count (b : breaker) : Z := failure_count_ b.
Definition get_success_count (b : breaker) : Z := success_count_ b.

Definition store_state (s : CircuitState) (b : breaker) : breaker :=
  mkBreaker (name_ b) (config_ b) s (failure_count_ b) (success_count_ b)
    (half_open_count_ b) (last_failure_time_ms_ b).

Definition incr_failures (b : breaker) : breaker :=
  mkBreaker (name_ b) (config_ b) (state_ b) (failure_count_ b +u64 1) (success_count_ b)
    (half_open_count_ b) (last_failure_time_ms_ b).

Definition incr_successes (b : breaker) : breaker :=
  mkBreaker (name_ b) (config_ b) (state_ b) (failure_count_ b) (success_count_ b +u64 1)
    (half_open_count_ b) (last_failure_time_ms_ b).

Definition incr_half_open (b : breaker) : breaker :=
  mkBreaker (name_ b) (config_ b) (state_ b) (failure_count_ b) (success_count_ b)
    (half_open_count_ b +u32 1) (last_failure_time_ms_ b).

Definition store_failure_time (now : Z) (b : breaker) : breaker :=
  mkBreaker (name_ b) (config_ b) (state_ b) (failure_count_ b) (success_count_ b)
    (half_open_count_ b) now.

(** [get_failure_rate]: a division of [double]s. *)
Definition get_failure_rate (b : breaker) : f64 :=
  let total := get_failure_count b +u64 get_success_count b in
  if total =? 0 then f64_of_Z 0
  else f64_div (f64_of_Z (get_failure_count b)) (f64_of_Z total).

Definition should_trip (b : breaker) : bool :=
  let failures := get_failure_count b in
  let total := failures +u64 get_success_count b in
  let c := config_ b in
  match trip_strategy c with
  | FAILURE_COUNT => failures >=? failure_threshold c
  | FAILURE_RATE =>
      if total <? failure_threshold c then false
      else f64_geb (get_failure_rate b) (failure_rate_threshold c)
  | FAILURE_COUNT_OR_RATE =>
      (failures >=? failure_threshold c)
      || ((total >? 0) && f64_geb (get_failure_rate b) (failure_rate_threshold c))
  end.

(** [should_attempt_reset]: no caller in the repository. *)
Definition should_attempt_reset (now : Z) (b : breaker) : bool :=
  if decide (state_ b = OPEN) then
    timeout_ms (config_ b) <=? now -u64 last_failure_time_ms_ b
  else false.

(** [record_failure]; the reason is only logged. *)
Definition record_failure (now : Z) (b : breaker) : breaker :=
  let b1 := store_failure_time now (incr_failures b) in
  if should_trip b1 then store_state OPEN b1 else b1.

Definition record_success (b : breaker) : breaker :=
  let b1 := incr_successes b in
  if decide (state_ b1 = HALF_OPEN) then store_state CLOSED b1 else b1.

Definition trip (now : Z) (b : breaker) : breaker := store_failure_time now (store_state OPEN b).

Definition recover (b : breaker) : breaker := store_state CLOSED b.

Definition reset (b : breaker) : breaker := mkBreaker (name_ b) (config_ b) CLOSED 0 0 0 0.

(** How the protected function ends. *)
Inductive func_result (T : Type) :=
| Returns (v : T)
| Throws (what : string)      (** an exception derived from [std::exception] *)
| ThrowsOther.                (** any other: no handler catches it *)
Arguments Returns {T} v.
Arguments Throws {T} what.
Arguments ThrowsOther {T}.

Definition elapsed_ms (t0 t1 : Z) : Z := u64 (Z.quot (t1 - t0) 1000000).

(** [execute]: [None] is an exception that leaves the call. *)
Definition execute (func : breaker -> func_result unit * breaker) (t0 t1 now : Z) (b : breaker)
  : option CircuitBreakerResult * breaker :=
  let st := get_state b in
  if decide (st = OPEN) then (Some (mkResult false st "Circuit breaker is OPEN" 0), b)
  else
    let '(refused, b1) :=
      if decide (st = HALF_OPEN)
      then (half_open_calls (config_ b) <=? half_open_count_ b, incr_half_open b)
      else (false, b) in
    if refused : bool then (Some (mkResult false st "Half-open calls exceeded" 0), b1)
    else
      match func b1 with
      | (Returns _, b2) =>
          let st2 := get_state b2 in
          let b3 := incr_successes b2 in
          (Some (mkResult true st2 "" (elapsed_ms t0 t1)),
           if decide (st2 = HALF_OPEN) then store_state CLOSED b3 else b3)
      | (Throws what, b2) =>
          let b3 := store_failure_time now (incr_failures b2) in
          (Some (mkResult false (get_state b2) (String.append "Exception: " what) (elapsed_ms t0 t1)),
           if should_trip b3 then store_state OPEN b3 else b3)
      | (ThrowsOther, b2) => (None, b2)
      end.

(** [execute_with_result] on a [DefaultCircuitBreaker] (the [dynamic_cast]
    succeeds); the second component is [out_result]. *)
Definition execute_with_result {T} (func : breaker -> func_result T * breaker) (out : T)
    (t0 t1 now : Z) (b : breaker) : option CircuitBreakerResult * T * breaker :=
  let st := get_state b in
  if decide (st = OPEN) then (Some (mkResult false st "Circuit breaker is OPEN" 0), out, b)
  else
    match func b with
    | (Returns v, b1) =>
        let b2 := record_success b1 in
        (Some (mkResult true (get_state b2) "" (elapsed_ms t0 t1)), v, b2)
    | (Throws what, b1) =>
        let b2 := record_failure now b1 in
        (Some (mkResult false (get_state b2) (String.append "Exception: " what) (elapsed_ms t0 t1)),
         out, b2)
    | (ThrowsOther, b1) => (None, out, b1)
    end.

(** ** Histories: every way the breaker's public operations are composed

    [runs manual b b']: from [b], calls of the public operations lead to [b'];
    [reset] and [recover] only when [manual].  A protected function is any
    function that itself only makes such calls. *)
Inductive runs (manual : bool) : breaker -> breaker -> Prop :=
| runs_refl b : runs manual b b
| runs_trans b1 b2 b3 : runs manual b1 b2 -> runs manual b2 b3 -> runs manual b1 b3
| runs_execute func t0 t1 now b :
    (forall b0, runs manual b0 (snd (func b0))) ->
    runs manual b (snd (execute func t0 t1 now b))
| runs_execute_with_result (T : Type) (func : breaker -> func_result T * breaker) out t0 t1 now b :
    (forall b0, runs manual b0 (snd (func b0))) ->
    runs manual b (snd (execute_with_result func out t0 t1 now b))
| runs_record_success b : runs manual b (record_success b)
| runs_record_failure now b : runs manual b (record_failure now b)
| runs_trip now b : runs manual b (trip now b)
| runs_reset b : manual = true -> runs manual b (reset b)
| runs_recover b : manual = true -> runs manual b (recover b).
#[export] Hint Constructors runs : chwell.

(** Calls with outcomes fixed in advance: [true] returns, [false] throws. *)
Definition plain (ok : bool) (b : breaker) : func_result unit * breaker :=
  (if ok then Returns tt else Throws "error", b).

Fixpoint calls (now : Z) (outcomes : list bool) (b : breaker) : breaker :=
  match outcomes with
  | [] => b
  | ok :: rest => calls now rest (snd (execute (plain ok) 0 0 now b))
  end.

Definition failures (outcomes : list bool) : Z := Z.of_nat (length (filter (fun o => o = false) outcomes)).

(** ** Lemmas *)

Lemma record_success_state b :
  state_ (record_success b) = if decide (state_ b = HALF_OPEN) then CLOSED else state_ b.
Proof. unfold record_success. cbn. by case_decide. Qed.

Lemma record_failure_state now b :
  state_ (record_failure now b) = OPEN \/ state_ (record_failure now b) = state_ b.
Proof. unfold record_failure. case_test; auto. Qed.

(** [execute] on a breaker that is not half-open: the guarded call, then one of
    the two [record] updates. *)
Lemma execute_closed_state func t0 t1 now b :
  state_ b <> HALF_OPEN ->
  snd (execute func t0 t1 now b) =
  if decide (state_ b = OPEN) then b
  else match func b with
       | (Returns _, b1) => record_success b1
       | (Throws _, b1) => record_failure now b1
       | (ThrowsOther, b1) => b1
       end.
Proof.
  intros Hh. unfold execute, get_state. rewrite (decide_False (P := state_ b = HALF_OPEN)) by done.
  case_decide; [done|]. destruct (func b) as [[v|w|] b1]; done.
Qed.

Lemma execute_with_result_state {T} (func : breaker -> func_result T * breaker) out t0 t1 now b :
  snd (execute_with_result func out t0 t1 now b) =
  if decide (state_ b = OPEN) then b
  else match func b with
       | (Returns _, b1) => record_success b1
       | (Throws _, b1) => record_failure now b1
       | (ThrowsOther, b1) => b1
       end.
Proof.
  unfold execute_with_result, get_state.
  case_decide; [done|]. by destruct (func b) as [[v|w|] b1].
Qed.

(** A predicate of the state that both [record] updates keep is kept by the
    two ways of calling. *)
Lemma guarded_call_inv (P : breaker -> Prop) {T} (func : breaker -> func_result T * breaker) now b :
  (forall b0, P b0 -> P (record_success b0)) ->
  (forall b0, P b0 -> P (record_failure now b0)) ->
  (P b -> P (snd (func b))) -> P b ->
  P (match func b with
     | (Returns _, b1) => record_success b1
     | (Throws _, b1) => record_failure now b1
     | (ThrowsOther, b1) => b1
     end).
Proof. intros Hs Hf Hc Hb. destruct (func b) as [[v|w|] b1]; cbn in Hc; auto. Qed.

Lemma not_half_open_success b : state_ b <> HALF_OPEN -> state_ (record_success b) <> HALF_OPEN.
Proof. intros H. rewrite record_success_state. by case_decide. Qed.

Lemma not_half_open_failure now b : state_ b <> HALF_OPEN -> state_ (record_failure now b) <> HALF_OPEN.
Proof. intros H. by destruct (record_failure_state now b) as [-> | ->]. Qed.

(** no history of the public operations ever reaches HALF_OPEN. *)
Theorem half_open_unreachable manual b b' :
  runs manual b b' -> state_ b <> HALF_OPEN -> state_ b' <> HALF_OPEN.
Proof.
  induction 1 as [b|b1 b2 b3 _ IH1 _ IH2|func t0 t1 now b _ IH|T func out t0 t1 now b _ IH
    |b|now b|now b|b _|b _]; intros Hb; try done.
  - by apply IH2, IH1.
  - rewrite execute_closed_state by done. case_decide; [done|].
    apply (guarded_call_inv (fun b => state_ b <> HALF_OPEN)); auto using
      not_half_open_success, not_half_open_failure.
  - rewrite execute_with_result_state. case_decide; [done|].
    apply (guarded_call_inv (fun b => state_ b <> HALF_OPEN)); auto using
      not_half_open_success, not_half_open_failure.
  - by apply not_half_open_success.
  - by apply not_half_open_failure.
Qed.

Lemma half_open_unreachable_witness :
  state_ (snd (execute (plain true) 0 0 0
    (trip 0 (breaker_init "api" default_config 0)))) <> HALF_OPEN.
Proof.
  apply (half_open_unreachable false (breaker_init "api" default_config 0)).
  - eapply runs_trans; [apply runs_trip|]. apply runs_execute. intros b. apply runs_refl.
  - discriminate.
Defined.

(** an open breaker stays open, and refuses every call without running
    it, until [reset] or [recover]: the clock readings, hence [timeout_ms],
    play no part. *)
Theorem open_forever b b' :
  runs false b b' -> state_ b = OPEN ->
  state_ b' = OPEN /\
  forall func t0 t1 now, execute func t0 t1 now b' =
    (Some (mkResult false OPEN "Circuit breaker is OPEN" 0), b').
Proof.
  intros Hr Hb. enough (state_ b' = OPEN) as H.
  { split; [done|]. intros. unfold execute, get_state. rewrite H. by rewrite decide_True. }
  revert Hb. induction Hr as [b|b1 b2 b3 _ IH1 _ IH2|func t0 t1 now b _ _|T func out t0 t1 now b _ _
    |b|now b|now b|b ?|b ?]; intros Hb; try done.
  - by apply IH2, IH1.
  - rewrite execute_closed_state by congruence. by rewrite decide_True.
  - rewrite execute_with_result_state. by rewrite decide_True.
  - rewrite record_success_state, Hb. by rewrite decide_False.
  - by destruct (record_failure_state now b) as [-> | ->].
Qed.

Lemma open_forever_witness :
  let b := trip 0 (breaker_init "api" default_config 0) in
  state_ b = OPEN /\
  forall func t0 t1 now, execute func t0 t1 now b =
    (Some (mkResult false OPEN "Circuit breaker is OPEN" 0), b).
Proof. intros b. apply (open_forever b b); [apply runs_refl|reflexivity]. Defined.

(** [execute] and [execute_with_result] leave the breaker in the same
    state, outside HALF_OPEN. *)
Theorem execute_agrees (func : breaker -> func_result unit * breaker) t0 t1 now b :
  state_ b <> HALF_OPEN ->
  snd (execute func t0 t1 now b) = snd (execute_with_result func tt t0 t1 now b).
Proof. intros Hb. by rewrite execute_closed_state, execute_with_result_state. Qed.

Lemma execute_agrees_witness :
  snd (execute (plain false) 0 0 9 (breaker_init "api" default_config 0)) =
  snd (execute_with_result (plain false) tt 0 0 9 (breaker_init "api" default_config 0)).
Proof. apply execute_agrees. discriminate. Defined.

(** *** Tripping, by strategy *)

(** What a sequence of plain calls has counted, while the breaker is closed. *)
Definition counted (b0 b : breaker) (outcomes : list bool) : Prop :=
  config_ b = config_ b0 /\ failure_count_ b = failures outcomes
  /\ success_count_ b = Z.of_nat (length outcomes) - failures outcomes.

Lemma failures_app l1 l2 : failures (l1 ++ l2) = failures l1 + failures l2.
Proof. unfold failures. rewrite filter_app, length_app. lia. Qed.

Lemma failures_bounds l : 0 <= failures l <= Z.of_nat (length l).
Proof.
  unfold failures. split; [lia|]. apply Nat2Z.inj_le.
  induction l as [|o l IH]; [done|]. rewrite filter_cons. case_decide; cbn; lia.
Qed.

Lemma calls_app now l1 l2 b : calls now (l1 ++ l2) b = calls now l2 (calls now l1 b).
Proof. revert b. induction l1 as [|o l1 IH]; intros b; [done|]. cbn. apply IH. Qed.

Lemma calls_open now l b : state_ b = OPEN -> calls now l b = b.
Proof.
  revert b. induction l as [|o l IH]; intros b Hb; [done|]. cbn.
  rewrite execute_closed_state by congruence. rewrite decide_True by done. by apply IH.
Qed.

(** One plain call on a closed breaker. *)
Lemma plain_call ok now b :
  state_ b = CLOSED ->
  snd (execute (plain ok) 0 0 now b) =
  if ok then incr_successes b
  else let b1 := store_failure_time now (incr_failures b) in
       if should_trip b1 then store_state OPEN b1 else b1.
Proof.
  intros Hb. rewrite execute_closed_state by congruence.
  rewrite decide_False by congruence. unfold plain. destruct ok; [|done].
  unfold record_success. cbn. by rewrite Hb, decide_False.
Qed.

Lemma counted_plain_call b0 b l ok now :
  counted b0 b l -> state_ b = CLOSED -> Z.of_nat (length (l ++ [ok])) < 2 ^ 64 ->
  counted b0 (snd (execute (plain ok) 0 0 now b)) (l ++ [ok]).
Proof.
  intros (Hc & Hf & Hs) Hb Hl. rewrite plain_call by done. unfold counted.
  rewrite failures_app, length_app in *. cbn [length] in *. pose proof (failures_bounds l).
  destruct ok; [change (failures [true]) with 0|change (failures [false]) with 1; cbv zeta; case_test];
    cbn [incr_successes incr_failures store_failure_time store_state config_ failure_count_
      success_count_]; rewrite ?Hf, ?Hs, ?(uwrap_small 64) by lia; (split_and!; [done|lia|lia]).
Qed.

(** with the FAILURE_COUNT strategy a new breaker opens exactly when
    [failure_threshold] calls have failed, however many succeeded. *)
Theorem failure_count_trips name c t now outcomes :
  trip_strategy c = FAILURE_COUNT -> 0 < failure_threshold c ->
  Z.of_nat (length outcomes) < 2 ^ 64 ->
  state_ (calls now outcomes (breaker_init name c t)) =
  if failure_threshold c <=? failures outcomes then OPEN else CLOSED.
Proof.
  intros Hst Hth Hl. set (b0 := breaker_init name c t).
  enough (state_ (calls now outcomes b0) =
    (if failure_threshold c <=? failures outcomes then OPEN else CLOSED)
    /\ (failures outcomes < failure_threshold c -> counted b0 (calls now outcomes b0) outcomes)) by tauto.
  induction outcomes as [|ok l IH] using rev_ind.
  { change (failures []) with 0. case_test; [lia|]. done. }
  rewrite length_app in Hl. cbn in Hl. destruct IH as [IHs IHc]; [lia|].
  rewrite calls_app, failures_app. cbn [calls].
  destruct (failure_threshold c <=? failures l) eqn:E; breflect.
  { rewrite execute_closed_state, decide_True by congruence. pose proof (failures_bounds [ok]).
    rewrite IHs. case_test; [|lia]. split; [done|lia]. }
  specialize (IHc ltac:(lia)).
  assert (counted b0 (snd (execute (plain ok) 0 0 now (calls now l b0))) (l ++ [ok])) as Hc.
  { apply counted_plain_call; [done|done|]. rewrite length_app. cbn. lia. }
  split; [|done]. destruct IHc as (Hcf & Hfc & _). rewrite plain_call by done. destruct ok.
  - cbn. rewrite IHs. change (failures [true]) with 0. case_test; [lia|done].
  - pose proof (failures_bounds l). change (failures [false]) with 1.
    unfold should_trip, get_failure_count. cbn. rewrite Hcf. cbn. rewrite Hst, Hfc.
    rewrite Z.geb_leb, uwrap_small by lia. case_test; [done|]. cbn. by rewrite IHs.
Qed.

Lemma failure_count_trips_witness :
  state_ (calls 0 [false; true; false; true; false]
    (breaker_init "db" (mkConfig FAILURE_COUNT 3 f64_half 1000 1) 0)) = OPEN.
Proof.
  apply (failure_count_trips "db" (mkConfig FAILURE_COUNT 3 f64_half 1000 1) 0 0
    [false; true; false; true; false]); [reflexivity|cbn; lia|cbn; lia].
Defined.

(** with the FAILURE_RATE strategy a breaker never opens on its own
    before [failure_threshold] samples. *)
Theorem failure_rate_needs_samples name c t now outcomes :
  trip_strategy c = FAILURE_RATE -> failure_threshold c < 2 ^ 32 ->
  Z.of_nat (length outcomes) < failure_threshold c ->
  state_ (calls now outcomes (breaker_init name c t)) = CLOSED.
Proof.
  intros Hst Hth Hl. set (b0 := breaker_init name c t).
  enough (state_ (calls now outcomes b0) = CLOSED /\ counted b0 (calls now outcomes b0) outcomes) by tauto.
  induction outcomes as [|ok l IH] using rev_ind; [done|].
  rewrite length_app in Hl. cbn in Hl. destruct IH as [IHs IHc]; [lia|].
  rewrite calls_app. cbn [calls].
  assert (counted b0 (snd (execute (plain ok) 0 0 now (calls now l b0))) (l ++ [ok])) as Hc.
  { apply counted_plain_call; [done|done|]. rewrite length_app. cbn. lia. }
  split; [|done]. destruct IHc as (Hcf & Hfc & Hsc). rewrite plain_call by done.
  destruct ok; [done|]. pose proof (failures_bounds l).
  unfold should_trip, get_failure_count, get_success_count. cbn. rewrite Hcf. cbn. rewrite Hst, Hfc, Hsc.
  rewrite !uwrap_small by (rewrite ?uwrap_small; lia).
  rewrite (proj2 (Z.ltb_lt _ _)) by lia. done.
Qed.

Lemma failure_rate_needs_samples_witness :
  state_ (calls 0 [false; false; false; false] (breaker_init "db"
    (mkConfig FAILURE_RATE 5 f64_half 1000 1) 0)) = CLOSED.
Proof. apply failure_rate_needs_samples; [reflexivity|cbn; lia|cbn; lia]. Defined.

(** with the default FAILURE_COUNT_OR_RATE strategy the rate needs no
    samples: one failed first call opens the breaker, whatever
    [failure_threshold] is. *)
Theorem first_failure_trips name c t now :
  trip_strategy c = FAILURE_COUNT_OR_RATE ->
  f64_geb (f64_div (f64_of_Z 1) (f64_of_Z 1)) (failure_rate_threshold c) = true ->
  state_ (calls now [false] (breaker_init name c t)) = OPEN.
Proof.
  intros Hst Hr. cbn [calls]. rewrite plain_call by done. cbv zeta.
  set (b1 := store_failure_time now (incr_failures (breaker_init name c t))).
  assert (get_failure_rate b1 = f64_div (f64_of_Z 1) (f64_of_Z 1)) as Hrate by reflexivity.
  assert (should_trip b1 = true) as ->; [|done].
  unfold should_trip. rewrite Hrate. change (config_ b1) with c. rewrite Hst, Hr.
  by rewrite orb_true_r.
Qed.

Lemma first_failure_trips_witness :
  state_ (calls 0 [false] (breaker_init "api" default_config 0)) = OPEN.
Proof. apply first_failure_trips; [reflexivity|vm_compute; reflexivity]. Defined.
