(* ===== verification/RateLimiter.v ===== *)
(** * RateLimiter: src/ratelimit/rate_limiter.cpp and its header

    Modules [TokenBucket], [LeakyBucket] and [FixedWindow], one per class.  A
    limiter's state is its map from keys; every read of the clock is an argument
    of the operation, one per call of [current_timestamp_ms] on the path, in the
    order the code makes them.  Differences of two timestamps are exact (they
    are milliseconds since 1970); token counts are [int64_t] and a result of
    [None] is a conversion or sum the language leaves undefined. *)

From S2P Require Import Prelude.
From S2P Require Import Numeric.

(** [RateLimitResult]. *)
Record RateLimitResult := mkRateLimitResult {
  allowed : bool;
  remaining : Z;
  wait_time_ms : Z;
  rl_reason : string
}.

(** ** The interface [RateLimiter]

    The base class's virtual methods as requests; the clock readings a class may
    need come with the request, as a list in the order of the reads. *)

Inductive request :=
| ReqCheck (key : string) (readings : list Z)
| ReqConsume (key : string) (count : Z) (readings : list Z)
| ReqReset (key : string) (now : Z)
| ReqResetAll (now : string -> Z)
| ReqRemaining (key : string) (readings : list Z).

Inductive response :=
| RspResult (r : RateLimitResult)
| RspBool (b : bool)
| RspUnit
| RspNum (n : Z).

(** The [i]-th reading of a request. *)
Definition reading (ts : list Z) (i : nat) : Z := nth i ts 0.

Class RateLimiter (S : Type) := rl_step : request -> S -> option (response * S).

(** A client's sequence of requests. *)
Fixpoint serve {S} `{RateLimiter S} (reqs : list request) (s : S) : option (list response * S) :=
  match reqs with
  | [] => Some ([], s)
  | r :: rs =>
      '(x, s1) ← rl_step r s;
      '(xs, s2) ← serve rs s1;
      Some (x :: xs, s2)
  end.

(** Two implementations whose states correspond step by step are not told
    apart by any client. *)
Lemma serve_simulation {S T} `{RateLimiter S} `{RateLimiter T} (f : S -> T) :
  (forall r s, rl_step r (f s) = (fun '(x, s1) => (x, f s1)) <$> rl_step r s) ->
  forall reqs s, serve reqs (f s) = (fun '(xs, s1) => (xs, f s1)) <$> serve reqs s.
Proof.
  intros Hsim reqs. induction reqs as [|r rs IH]; intros s; [done|].
  cbn [serve]. rewrite Hsim. destruct (rl_step r s) as [[x s1]|]; cbn; [|done].
  rewrite IH. by destruct (serve rs s1) as [[xs s2]|].
Qed.

Module TokenBucket.

Record Bucket := mkBucket { tokens : Z; last_refill_time_ms : Z }.

Record limiter := mkLimiter {
  capacity_ : Z;
  refill_rate_per_second_ : f64;
  buckets_ : gmap string Bucket
}.

Definition limiter_init (capacity : Z) (rate : f64) : limiter := mkLimiter capacity rate ∅.

Definition set_bucket (l : limiter) (key : string) (b : Bucket) : limiter :=
  mkLimiter (capacity_ l) (refill_rate_per_second_ l) (<[key := b]> (buckets_ l)).

(** The number of tokens [elapsed_ms] milliseconds are worth: the product of
    [double]s truncated to an [int64_t]. *)
Definition tokens_to_add (rate : f64) (elapsed_ms : Z) : option Z :=
  f64_to_int64 (f64_mul (f64_div (f64_of_Z elapsed_ms) (f64_of_Z 1000)) rate).

Definition refill_tokens (l : limiter) (now : Z) (b : Bucket) : option Bucket :=
  let elapsed_ms := now - last_refill_time_ms b in
  if 0 <? elapsed_ms then
    n ← tokens_to_add (refill_rate_per_second_ l) elapsed_ms;
    sum ← i64_add (tokens b) n;
    Some (mkBucket (Z.min (capacity_ l) sum) now)
  else Some b.

(** [consume]: [t_new] is read when the key is new, [t_refill] in the refill. *)
Definition consume (key : string) (count : Z) (t_new t_refill : Z) (l : limiter)
  : option (bool * limiter) :=
  let b := default (mkBucket (capacity_ l) t_new) (buckets_ l !! key) in
  b1 ← refill_tokens l t_refill b;
  if count <=? tokens b1 then
    rest ← i64_sub (tokens b1) count;
    Some (true, set_bucket l key (mkBucket rest (last_refill_time_ms b1)))
  else Some (false, set_bucket l key b1).

Definition reset (key : string) (now : Z) (l : limiter) : limiter :=
  match buckets_ l !! key with
  | Some _ => set_bucket l key (mkBucket (capacity_ l) now)
  | None => l
  end.

(** [reset_all] reads the clock once per bucket; [now] gives the reading made
    for each key. *)
Definition reset_all (now : string -> Z) (l : limiter) : limiter :=
  mkLimiter (capacity_ l) (refill_rate_per_second_ l)
    (map_imap (fun k _ => Some (mkBucket (capacity_ l) (now k))) (buckets_ l)).

Definition get_remaining (key : string) (now : Z) (l : limiter) : option (Z * limiter) :=
  match buckets_ l !! key with
  | None => Some (capacity_ l, l)
  | Some b =>
      b1 ← refill_tokens l now b;
      Some (tokens b1, set_bucket l key b1)
  end.

(** [check]: [consume(key, 1)], then [get_remaining(key)]. *)
Definition check (key : string) (t_new t_refill t_remaining : Z) (l : limiter)
  : option (RateLimitResult * limiter) :=
  '(ok, l1) ← consume key 1 t_new t_refill l;
  '(rem, l2) ← get_remaining key t_remaining l1;
  Some (mkRateLimitResult ok rem 0 "", l2).

#[global] Instance token_bucket_limiter : RateLimiter limiter := fun r l =>
  match r with
  | ReqCheck key ts =>
      '(x, l1) ← check key (reading ts 0) (reading ts 1) (reading ts 2) l; Some (RspResult x, l1)
  | ReqConsume key count ts =>
      '(x, l1) ← consume key count (reading ts 0) (reading ts 1) l; Some (RspBool x, l1)
  | ReqReset key now => Some (RspUnit, reset key now l)
  | ReqResetAll now => Some (RspUnit, reset_all now l)
  | ReqRemaining key ts => '(x, l1) ← get_remaining key (reading ts 0) l; Some (RspNum x, l1)
  end.

(** ** The invariant: every bucket holds between 0 and [capacity_] tokens *)

Definition bucket_ok (cap : Z) (b : Bucket) : Prop := 0 <= tokens b <= cap.

Definition limiter_ok (l : limiter) : Prop :=
  0 <= capacity_ l < 2 ^ 63 /\ f64_nonneg (refill_rate_per_second_ l)
  /\ map_Forall (fun _ => bucket_ok (capacity_ l)) (buckets_ l).

Lemma tokens_to_add_nonneg rate ms n :
  f64_nonneg rate -> 0 <= ms -> tokens_to_add rate ms = Some n -> 0 <= n.
Proof.
  intros Hr Hms. apply f64_to_int64_nonneg, f64_mul_nonneg; [|done].
  apply f64_div_nonneg; apply f64_of_Z_nonneg; lia.
Qed.

Lemma refill_ok l now b b1 :
  limiter_ok l -> bucket_ok (capacity_ l) b -> refill_tokens l now b = Some b1 ->
  bucket_ok (capacity_ l) b1 /\ tokens b <= tokens b1.
Proof.
  intros (Hc & Hr & _) Hb. unfold refill_tokens. case_test; [|by intros [= <-]].
  destruct (tokens_to_add _ _) as [n|] eqn:En; [|done].
  apply tokens_to_add_nonneg in En; [|done|lia].
  cbn. destruct (i64_add (tokens b) n) as [s|] eqn:Es; [|done]. apply i64_add_ok in Es as [-> _].
  intros [= <-]. unfold bucket_ok in *. cbn. lia.
Qed.

Lemma set_bucket_ok l key b :
  limiter_ok l -> bucket_ok (capacity_ l) b -> limiter_ok (set_bucket l key b).
Proof. intros (Hc & Hr & Hb) Hok. refine (conj Hc (conj Hr _)). by apply map_Forall_insert_2. Qed.

Lemma lookup_ok l key t :
  limiter_ok l -> bucket_ok (capacity_ l) (default (mkBucket (capacity_ l) t) (buckets_ l !! key)).
Proof.
  intros (Hc & _ & Hb). destruct (buckets_ l !! key) as [b|] eqn:E; cbn.
  - by apply (Hb key).
  - unfold bucket_ok. cbn. lia.
Qed.

(** the invariant holds of a new limiter and every operation keeps it. *)
Theorem limiter_invariant l :
  limiter_ok l ->
  (forall key count t1 t2 ok l', 0 <= count ->
     consume key count t1 t2 l = Some (ok, l') -> limiter_ok l')
  /\ (forall key t, limiter_ok (reset key t l))
  /\ (forall ts, limiter_ok (reset_all ts l))
  /\ (forall key t n l', get_remaining key t l = Some (n, l') ->
        limiter_ok l' /\ 0 <= n <= capacity_ l)
  /\ (forall key t1 t2 t3 r l', check key t1 t2 t3 l = Some (r, l') ->
        limiter_ok l' /\ 0 <= remaining r <= capacity_ l).
Proof.
  intros Hl.
  assert (forall key count t1 t2 ok l', 0 <= count ->
    consume key count t1 t2 l = Some (ok, l') -> limiter_ok l' /\ capacity_ l' = capacity_ l) as Hcons.
  { intros key count t1 t2 ok l' Hcnt. unfold consume.
    destruct (refill_tokens _ _ _) as [b1|] eqn:Er; [|done]. cbn.
    apply refill_ok in Er as [Hb1 _]; [|done|by apply lookup_ok].
    case_test.
    - destruct (i64_sub _ _) as [lf|] eqn:Es; [|done]. apply i64_sub_ok in Es as [-> _].
      intros [= <- <-]. split; [|done]. apply set_bucket_ok; [done|]. unfold bucket_ok in *. cbn. lia.
    - intros [= <- <-]. split; [|done]. by apply set_bucket_ok. }
  assert (forall l1 key t n l', limiter_ok l1 -> get_remaining key t l1 = Some (n, l') ->
    limiter_ok l' /\ 0 <= n <= capacity_ l1) as Hrem.
  { intros l1 key t n l' Hl1. unfold get_remaining.
    destruct (buckets_ l1 !! key) as [b|] eqn:Eb.
    - destruct (refill_tokens _ _ _) as [b1|] eqn:Er; [|done]. cbn. intros [= <- <-].
      apply refill_ok in Er as [Hb1 _]; [|done|by apply (proj2 (proj2 Hl1) key)].
      split; [by apply set_bucket_ok|done].
    - intros [= <- <-]. split; [done|]. destruct Hl1 as (? & _). lia. }
  assert (Hcap : 0 <= capacity_ l) by (destruct Hl as (? & _); lia).
  split_and!.
  - intros. by eapply Hcons.
  - intros key t. unfold reset. destruct (buckets_ l !! key); [|done].
    apply set_bucket_ok; [done|]. unfold bucket_ok. cbn. lia.
  - intros ts. destruct Hl as (Hc & Hr & Hb). refine (conj Hc (conj Hr _)).
    intros k b. cbn [buckets_ reset_all]. rewrite map_lookup_imap.
    destruct (buckets_ l !! k); cbn; [|done]. intros [= <-]. unfold bucket_ok. cbn. lia.
  - intros. by eapply Hrem.
  - intros key t1 t2 t3 r l'. unfold check.
    destruct (consume key 1 t1 t2 l) as [[ok l1]|] eqn:Ec; [|done].
    apply Hcons in Ec as [Hl1 Hcl]; [|lia]. cbn.
    destruct (get_remaining key t3 l1) as [[n l2]|] eqn:Eg; [|done]. cbn.
    intros [= <- <-]. apply Hrem in Eg; [|done]. cbn. by rewrite <- Hcl.
Qed.

Lemma limiter_invariant_witness :
  exists r l', check "ip" 0 0 0 (limiter_init 2 (f64_of_Z 1)) = Some (r, l')
    /\ (limiter_ok l' /\ 0 <= remaining r <= 2).
Proof.
  eexists _, _. split; [vm_compute; reflexivity|].
  refine (proj2 (proj2 (proj2 (proj2 (limiter_invariant (limiter_init 2 (f64_of_Z 1)) _)))) "ip" 0 0 0 _ _ _).
  - split; [cbn; lia|split; [reflexivity|]]. intros k b. cbn. rewrite lookup_empty. discriminate.
  - vm_compute. reflexivity.
Defined.

(** ** Admission *)

(** One call: it is allowed exactly when the refilled bucket has [count]
    tokens, and then takes them; other keys are not touched. *)
Lemma consume_spec key count t1 t2 l ok l' :
  consume key count t1 t2 l = Some (ok, l') ->
  exists b1, refill_tokens l t2 (default (mkBucket (capacity_ l) t1) (buckets_ l !! key)) = Some b1
    /\ ok = (count <=? tokens b1)
    /\ buckets_ l' !! key =
         Some (mkBucket (if ok then tokens b1 - count else tokens b1) (last_refill_time_ms b1))
    /\ (forall key', key' <> key -> buckets_ l' !! key' = buckets_ l !! key').
Proof.
  unfold consume. destruct (refill_tokens _ _ _) as [b1|] eqn:Er; [|done]. cbn.
  destruct (count <=? tokens b1) eqn:E.
  - destruct (i64_sub _ _) as [lf|] eqn:Es; [|done]. apply i64_sub_ok in Es as [-> _]. cbn.
    intros [= <- <-]. exists b1. split_and!; [done|done|apply lookup_insert_eq|].
    intros. by apply lookup_insert_ne.
  - intros [= <- <-]. exists b1. split_and!; [done|done| |].
    + cbn. rewrite lookup_insert_eq. by destruct b1.
    + intros. by apply lookup_insert_ne.
Qed.

(** A run of calls of [consume(key, 1)] at the given times: how many were
    allowed. *)
Fixpoint consumes (key : string) (times : list Z) (l : limiter) : option (nat * limiter) :=
  match times with
  | [] => Some (O, l)
  | t :: ts =>
      '(ok, l1) ← consume key 1 t t l;
      '(n, l2) ← consumes key ts l1;
      Some ((if ok : bool then S n else n), l2)
  end.

(** a bucket at zero whose key is asked at intervals each too short to be
    worth one token stays at zero: every request is refused, however long the
    run lasts, since each refill of 0 tokens restarts the interval. *)
Theorem frequent_requests_starve key times l t0 :
  0 <= capacity_ l ->
  buckets_ l !! key = Some (mkBucket 0 t0) ->
  (forall i t t', (t0 :: times) !! i = Some t -> (t0 :: times) !! S i = Some t' ->
     t' - t <= 0 \/ tokens_to_add (refill_rate_per_second_ l) (t' - t) = Some 0) ->
  (forall i t t', (t0 :: times) !! i = Some t -> (t0 :: times) !! S i = Some t' -> t <= t') ->
  exists l', consumes key times l = Some (O, l').
Proof.
  intros Hcap. revert l t0 Hcap. induction times as [|t ts IH]; intros l t0 Hcap Hb Hsmall Hmono; [by exists l|].
  assert (refill_tokens l t (mkBucket 0 t0) = Some (mkBucket 0 t)) as Hr.
  { unfold refill_tokens. cbn [last_refill_time_ms tokens].
    pose proof (Hmono 0%nat t0 t eq_refl eq_refl). case_test; [|by replace t with t0 by lia].
    destruct (Hsmall 0%nat t0 t eq_refl eq_refl) as [?|Hz]; [lia|]. rewrite Hz. cbn [mbind option_bind].
    rewrite i64_add_def by lia. cbn [mbind option_bind]. by rewrite Z.min_r by lia. }
  cbn [consumes]. unfold consume at 1. rewrite Hb. cbn [default]. unfold default, id. rewrite Hr. cbn.
  destruct (IH (set_bucket l key (mkBucket 0 t)) t Hcap) as [l' Hl'].
  - cbn. apply lookup_insert_eq.
  - intros i. apply (Hsmall (S i)).
  - intros i. apply (Hmono (S i)).
  - rewrite Hl'. by exists l'.
Qed.

(** Ten tokens a second, asked every 99 ms for ten seconds. *)
Lemma frequent_requests_starve_witness :
  exists l', consumes "ip" (map (fun i => 99 * Z.of_nat i) (seq 1 101))
    (mkLimiter 10 (f64_of_Z 10) {["ip" := mkBucket 0 0]}) = Some (O, l').
Proof.
  assert (forall i t t', (0 :: map (fun i => 99 * Z.of_nat i) (seq 1 101)) !! i = Some t ->
    (0 :: map (fun i => 99 * Z.of_nat i) (seq 1 101)) !! S i = Some t' -> t' - t = 99) as Hgap.
  { change (0 :: map (fun i => 99 * Z.of_nat i) (seq 1 101))
      with ((fun i => 99 * Z.of_nat i) <$> seq 0 102).
    intros i t t'. rewrite !list_lookup_fmap. intros Ht Ht'.
    apply fmap_Some in Ht as (j & Hj & ->). apply fmap_Some in Ht' as (j' & Hj' & ->).
    apply lookup_seq in Hj as [-> _]. apply lookup_seq in Hj' as [-> _]. lia. }
  apply (frequent_requests_starve "ip" _ _ 0).
  - cbn. lia.
  - apply lookup_singleton_eq.
  - intros i t t' H1 H2. right. rewrite (Hgap i t t' H1 H2). vm_compute. reflexivity.
  - intros i t t' H1 H2. pose proof (Hgap i t t' H1 H2). lia.
Defined.

End TokenBucket.

Module LeakyBucket.

Record Bucket := mkBucket { tokens : Z; last_leak_time_ms : Z }.

Record limiter := mkLimiter {
  capacity_ : Z;
  leak_rate_per_second_ : f64;
  buckets_ : gmap string Bucket
}.

Definition limiter_init (capacity : Z) (rate : f64) : limiter := mkLimiter capacity rate ∅.

Definition set_bucket (l : limiter) (key : string) (b : Bucket) : limiter :=
  mkLimiter (capacity_ l) (leak_rate_per_second_ l) (<[key := b]> (buckets_ l)).

Definition tokens_to_leak (rate : f64) (elapsed_ms : Z) : option Z :=
  f64_to_int64 (f64_mul (f64_div (f64_of_Z elapsed_ms) (f64_of_Z 1000)) rate).

(** [leak_tokens]: the code adds the leaked amount to [tokens], it does not
    subtract it. *)
Definition leak_tokens (l : limiter) (now : Z) (b : Bucket) : option Bucket :=
  let elapsed_ms := now - last_leak_time_ms b in
  if 0 <? elapsed_ms then
    n ← tokens_to_leak (leak_rate_per_second_ l) elapsed_ms;
    sum ← i64_add (tokens b) n;
    Some (mkBucket (Z.min (capacity_ l) sum) now)
  else Some b.

Definition consume (key : string) (count : Z) (t_new t_leak : Z) (l : limiter)
  : option (bool * limiter) :=
  let b := default (mkBucket (capacity_ l) t_new) (buckets_ l !! key) in
  b1 ← leak_tokens l t_leak b;
  if count <=? tokens b1 then
    rest ← i64_sub (tokens b1) count;
    Some (true, set_bucket l key (mkBucket rest (last_leak_time_ms b1)))
  else Some (false, set_bucket l key b1).

Definition reset (key : string) (now : Z) (l : limiter) : limiter :=
  match buckets_ l !! key with
  | Some _ => set_bucket l key (mkBucket (capacity_ l) now)
  | None => l
  end.

Definition reset_all (now : string -> Z) (l : limiter) : limiter :=
  mkLimiter (capacity_ l) (leak_rate_per_second_ l)
    (map_imap (fun k _ => Some (mkBucket (capacity_ l) (now k))) (buckets_ l)).

Definition get_remaining (key : string) (now : Z) (l : limiter) : option (Z * limiter) :=
  match buckets_ l !! key with
  | None => Some (capacity_ l, l)
  | Some b =>
      b1 ← leak_tokens l now b;
      Some (tokens b1, set_bucket l key b1)
  end.

Definition check (key : string) (t_new t_leak t_remaining : Z) (l : limiter)
  : option (RateLimitResult * limiter) :=
  '(ok, l1) ← consume key 1 t_new t_leak l;
  '(rem, l2) ← get_remaining key t_remaining l1;
  Some (mkRateLimitResult ok rem 0 "", l2).

#[global] Instance leaky_bucket_limiter : RateLimiter limiter := fun r l =>
  match r with
  | ReqCheck key ts =>
      '(x, l1) ← check key (reading ts 0) (reading ts 1) (reading ts 2) l; Some (RspResult x, l1)
  | ReqConsume key count ts =>
      '(x, l1) ← consume key count (reading ts 0) (reading ts 1) l; Some (RspBool x, l1)
  | ReqReset key now => Some (RspUnit, reset key now l)
  | ReqResetAll now => Some (RspUnit, reset_all now l)
  | ReqRemaining key ts => '(x, l1) ← get_remaining key (reading ts 0) l; Some (RspNum x, l1)
  end.

(** ** The leaky bucket is a token bucket *)

Definition to_token_bucket (b : Bucket) : TokenBucket.Bucket :=
  TokenBucket.mkBucket (tokens b) (last_leak_time_ms b).

Definition to_token (l : limiter) : TokenBucket.limiter :=
  TokenBucket.mkLimiter (capacity_ l) (leak_rate_per_second_ l) (to_token_bucket <$> buckets_ l).

Lemma to_token_refill l now b :
  TokenBucket.refill_tokens (to_token l) now (to_token_bucket b) = to_token_bucket <$> leak_tokens l now b.
Proof.
  unfold TokenBucket.refill_tokens, leak_tokens. cbn. case_test; [|done].
  unfold TokenBucket.tokens_to_add, tokens_to_leak.
  destruct (f64_to_int64 _) as [n|]; [|done]. cbn. by destruct (i64_add _ _).
Qed.

Lemma to_token_set l key b :
  TokenBucket.set_bucket (to_token l) key (to_token_bucket b) = to_token (set_bucket l key b).
Proof. unfold TokenBucket.set_bucket, to_token, set_bucket. cbn. by rewrite fmap_insert. Qed.

Lemma to_token_lookup l key t :
  default (TokenBucket.mkBucket (capacity_ l) t) (TokenBucket.buckets_ (to_token l) !! key)
  = to_token_bucket (default (mkBucket (capacity_ l) t) (buckets_ l !! key)).
Proof. cbn. rewrite lookup_fmap. by destruct (buckets_ l !! key). Qed.

Lemma to_token_consume key count t1 t2 l :
  TokenBucket.consume key count t1 t2 (to_token l) =
  (fun '(x, l1) => (x, to_token l1)) <$> consume key count t1 t2 l.
Proof.
  unfold TokenBucket.consume, consume. cbn [TokenBucket.capacity_ to_token].
  rewrite to_token_lookup, to_token_refill.
  destruct (leak_tokens _ _ _) as [b1|]; [|done]. cbn. case_test.
  - destruct (i64_sub _ _) as [n|]; [|done]. cbn. by rewrite <- to_token_set.
  - cbn. by rewrite <- to_token_set.
Qed.

Lemma to_token_remaining key t l :
  TokenBucket.get_remaining key t (to_token l) =
  (fun '(x, l1) => (x, to_token l1)) <$> get_remaining key t l.
Proof.
  unfold TokenBucket.get_remaining, get_remaining. cbn [TokenBucket.buckets_ to_token].
  rewrite lookup_fmap. destruct (buckets_ l !! key) as [b|]; [|done]. cbn.
  rewrite to_token_refill. destruct (leak_tokens _ _ _) as [b1|]; [|done]. cbn.
  by rewrite <- to_token_set.
Qed.

(** no client can tell a [LeakyBucketRateLimiter] from a
    [TokenBucketRateLimiter] with the same parameters. *)
Theorem leaky_is_token capacity rate reqs :
  fst <$> serve reqs (limiter_init capacity rate) =
  fst <$> serve reqs (TokenBucket.limiter_init capacity rate).
Proof.
  change (TokenBucket.limiter_init capacity rate) with (to_token (limiter_init capacity rate)).
  rewrite (serve_simulation to_token).
  - by destruct (serve reqs (limiter_init capacity rate)) as [[xs s1]|].
  - intros r l. destruct r as [key ts|key count ts|key now|now|key ts]; cbn.
    + unfold TokenBucket.check, check. rewrite to_token_consume.
      destruct (consume _ _ _ _ l) as [[x l1]|]; [|done]. cbn. rewrite to_token_remaining.
      by destruct (get_remaining _ _ l1) as [[y l2]|].
    + rewrite to_token_consume. by destruct (consume _ _ _ _ l) as [[x l1]|].
    + unfold TokenBucket.reset, reset. cbn [TokenBucket.buckets_ to_token]. rewrite lookup_fmap.
      destruct (buckets_ l !! key); cbn; [|done]. by rewrite <- to_token_set.
    + unfold TokenBucket.reset_all, reset_all, to_token. cbn. do 3 f_equal. apply map_eq. intros k.
      rewrite map_lookup_imap, !lookup_fmap, map_lookup_imap. by destruct (buckets_ l !! k).
    + rewrite to_token_remaining. by destruct (get_remaining _ _ l) as [[x l1]|].
Qed.

End LeakyBucket.

Module FixedWindow.

Record Window := mkWindow { count : Z; start_time_ms : Z }.

Record limiter := mkLimiter {
  max_requests_ : Z;
  window_size_ms_ : Z;
  windows_ : gmap string Window
}.

Definition limiter_init (max_requests size : Z) : limiter := mkLimiter max_requests size ∅.

Definition set_window (l : limiter) (key : string) (w : Window) : limiter :=
  mkLimiter (max_requests_ l) (window_size_ms_ l) (<[key := w]> (windows_ l)).

Definition should_reset_window (l : limiter) (now : Z) (w : Window) : bool :=
  now - start_time_ms w >=? window_size_ms_ l.

(** [check]: the clock is read for a new window, for the test of
    [should_reset_window], for the restarted window and for the wait time. *)
Definition check (key : string) (t_new t_test t_start t_wait : Z) (l : limiter)
  : RateLimitResult * limiter :=
  let w := default (mkWindow 0 t_new) (windows_ l !! key) in
  let w1 := if should_reset_window l t_test w then mkWindow 0 t_start else w in
  if count w1 <? max_requests_ l then
    let w2 := mkWindow (count w1 + 1) (start_time_ms w1) in
    (mkRateLimitResult true (max_requests_ l - count w2) 0 "", set_window l key w2)
  else
    (mkRateLimitResult false 0 (window_size_ms_ l - (t_wait - start_time_ms w1))
       "Fixed window limit exceeded",
     set_window l key w1).

(** [consume] does not use its [count]. *)
Definition consume (key : string) (n : Z) (t_new t_test t_start t_wait : Z) (l : limiter)
  : bool * limiter :=
  let '(r, l1) := check key t_new t_test t_start t_wait l in (allowed r, l1).

Definition reset (key : string) (now : Z) (l : limiter) : limiter :=
  match windows_ l !! key with
  | Some _ => set_window l key (mkWindow 0 now)
  | None => l
  end.

Definition reset_all (now : string -> Z) (l : limiter) : limiter :=
  mkLimiter (max_requests_ l) (window_size_ms_ l)
    (map_imap (fun k _ => Some (mkWindow 0 (now k))) (windows_ l)).

Definition get_remaining (key : string) (t_test t_start : Z) (l : limiter) : Z * limiter :=
  match windows_ l !! key with
  | None => (max_requests_ l, l)
  | Some w =>
      let w1 := if should_reset_window l t_test w then mkWindow 0 t_start else w in
      (max_requests_ l - count w1, set_window l key w1)
  end.

#[global] Instance fixed_window_limiter : RateLimiter limiter := fun r l =>
  match r with
  | ReqCheck key ts =>
      let '(x, l1) := check key (reading ts 0) (reading ts 1) (reading ts 2) (reading ts 3) l in
      Some (RspResult x, l1)
  | ReqConsume key n ts =>
      let '(x, l1) := consume key n (reading ts 0) (reading ts 1) (reading ts 2) (reading ts 3) l in
      Some (RspBool x, l1)
  | ReqReset key now => Some (RspUnit, reset key now l)
  | ReqResetAll now => Some (RspUnit, reset_all now l)
  | ReqRemaining key ts =>
      let '(x, l1) := get_remaining key (reading ts 0) (reading ts 1) l in Some (RspNum x, l1)
  end.

(** ** How many requests a window admits *)

(** Checks of one key at the given times: how many are allowed. *)
Fixpoint checks (key : string) (times : list Z) (l : limiter) : Z * limiter :=
  match times with
  | [] => (0, l)
  | t :: ts =>
      let '(r, l1) := check key t t t t l in
      let '(n, l2) := checks key ts l1 in
      ((if allowed r then 1 else 0) + n, l2)
  end.

(** A check inside the current window. *)
Lemma check_in_window key t l w :
  windows_ l !! key = Some w -> t - start_time_ms w < window_size_ms_ l ->
  check key t t t t l =
  if count w <? max_requests_ l
  then (mkRateLimitResult true (max_requests_ l - (count w + 1)) 0 "",
        set_window l key (mkWindow (count w + 1) (start_time_ms w)))
  else (mkRateLimitResult false 0 (window_size_ms_ l - (t - start_time_ms w))
          "Fixed window limit exceeded", set_window l key w).
Proof.
  intros Hw Ht. unfold check, should_reset_window. rewrite Hw. cbn [default].
  unfold default, id. rewrite Z.geb_leb. by rewrite (proj2 (Z.leb_gt _ _) Ht).
Qed.

(** among any number of requests inside one window, exactly what is left
    of [max_requests_] is allowed, and the rest is refused. *)
Theorem window_admits key times l w :
  windows_ l !! key = Some w -> 0 <= count w <= max_requests_ l ->
  Forall (fun t => t - start_time_ms w < window_size_ms_ l) times ->
  fst (checks key times l) = Z.min (Z.of_nat (length times)) (max_requests_ l - count w).
Proof.
  intros Hw Hc Ht. revert l w Hw Hc Ht. induction times as [|t ts IH]; intros l w Hw Hc Ht.
  { cbn. lia. }
  apply Forall_cons in Ht as [Ht Hts]. cbn [checks]. rewrite (check_in_window _ _ _ w) by done.
  case_test; cbn [allowed].
  - destruct (checks key ts (set_window l key (mkWindow (count w + 1) (start_time_ms w)))) as [n l2] eqn:En.
    pose proof (IH (set_window l key (mkWindow (count w + 1) (start_time_ms w)))
      (mkWindow (count w + 1) (start_time_ms w))) as H.
    cbn in H. rewrite lookup_insert_eq, En in H. cbn in H |- *. rewrite H by (done || lia). lia.
  - destruct (checks key ts (set_window l key w)) as [n l2] eqn:En.
    pose proof (IH (set_window l key w) w) as H. cbn in H. rewrite lookup_insert_eq, En in H.
    cbn in H |- *. rewrite H by (done || lia). lia.
Qed.

Lemma window_admits_witness :
  fst (checks "ip" [0; 10; 20; 999] (mkLimiter 3 1000 {["ip" := mkWindow 0 0]})) = 3.
Proof.
  etransitivity; [apply (window_admits "ip" [0; 10; 20; 999] _ (mkWindow 0 0))|reflexivity].
  - apply lookup_singleton_eq.
  - cbn. lia.
  - repeat constructor; cbn; lia.
Defined.

(** the wait time returned with a refusal is exact: a request at a later
    time is allowed when that time has passed, and refused before. *)
Theorem wait_time_exact key t t' l r l1 :
  0 < max_requests_ l -> check key t t t t l = (r, l1) -> allowed r = false -> t <= t' ->
  allowed (fst (check key t' t' t' t' l1)) = (t + wait_time_ms r <=? t').
Proof.
  intros Hm Hc Ha Ht. unfold check in Hc.
  set (w := default (mkWindow 0 t) (windows_ l !! key)) in *.
  set (w1 := if should_reset_window l t w then mkWindow 0 t else w) in *.
  destruct (count w1 <? max_requests_ l) eqn:E; injection Hc as <- <-; [done|]. breflect.
  assert (windows_ (set_window l key w1) !! key = Some w1) as Hl by apply lookup_insert_eq.
  cbn [wait_time_ms]. unfold check, should_reset_window at 1. rewrite Hl.
  cbn [set_window max_requests_ window_size_ms_ default]. unfold default, id.
  destruct (t + (window_size_ms_ l - (t - start_time_ms w1)) <=? t') eqn:E2; breflect.
  - rewrite (proj2 (Z.geb_le _ _)) by lia. cbn [count].
    by rewrite (proj2 (Z.ltb_lt 0 (max_requests_ l)) Hm).
  - assert ((t' - start_time_ms w1 >=? window_size_ms_ l) = false) as ->
      by (rewrite Z.geb_leb; apply Z.leb_gt; lia).
    by rewrite (proj2 (Z.ltb_ge _ _) E).
Qed.

Lemma wait_time_exact_witness :
  let l := mkLimiter 1 1000 {["ip" := mkWindow 1 100]} in
  allowed (fst (check "ip" 1099 1099 1099 1099 (snd (check "ip" 400 400 400 400 l)))) = false.
Proof.
  intros l. exact (wait_time_exact "ip" 400 1099 l _ _ ltac:(cbn; lia)
    (surjective_pairing (check "ip" 400 400 400 400 l)) ltac:(vm_compute; reflexivity) ltac:(lia)).
Defined.

End FixedWindow.
