(* ===== verification/Aoi.v ===== *)
(** * Aoi: the grid area-of-interest manager of src/aoi/aoi.cpp

    Module [GridAoi]: entities, the grid of cells, the reverse map, and the
    events handed to the callback.  An operation returns [None] where an [int]
    expression overflows, where the code divides by zero or where it would index
    [grids_] out of range; the theorems show that on a map whose counts fit an
    [int] ([config_ok]) none of this happens.  A cell is an [unordered_set], iterated here in the
    order of [elements]; theorems about events and queries are stated up to
    that order.  The callback runs under the manager's (non-recursive) mutex and
    its exceptions are caught, so its effect is the sequence of its arguments. *)

From S2P Require Import Prelude.

Inductive EntityType := PLAYER | NPC | MONSTER | ITEM | BUILDING | OTHER.

(** [Entity]; [user_data] is an opaque pointer. *)
Record Entity := mkEntity {
  id : Z;
  x : Z;
  y : Z;
  etype : EntityType;
  user_data : Z
}.

Inductive EventType := ENTER | LEAVE | MOVE.

Record AoiEvent := mkEvent {
  type : EventType;
  watcher_id : Z;
  target_id : Z;
  old_x : Z;
  old_y : Z;
  new_x : Z;
  new_y : Z
}.

(** [for (int i = lo; i <= hi; ++i)]. *)
Definition range (lo hi : Z) : list Z := seqZ lo (hi - lo + 1).

Lemma elem_of_range i lo hi : i ∈ range lo hi <-> lo <= i <= hi.
Proof. unfold range. rewrite elem_of_seqZ. lia. Qed.

Lemma NoDup_range lo hi : NoDup (range lo hi).
Proof. apply NoDup_seqZ. Qed.

Module GridAoi.

Record Config := mkConfig {
  map_width : Z;
  map_height : Z;
  grid_size : Z;
  view_range : Z
}.

Definition grid_x_count (c : Config) : option Z :=
  sum ← to_int (map_width c + grid_size c); top ← to_int (sum - 1); int_div top (grid_size c).
Definition grid_y_count (c : Config) : option Z :=
  sum ← to_int (map_height c + grid_size c); top ← to_int (sum - 1); int_div top (grid_size c).

(** [GridAoi]; [has_callback] is [callback_]'s conversion to [bool]. *)
Record aoi := mkAoi {
  config_ : Config;
  entities_ : gmap Z Entity;
  grids_ : list (gset Z);
  entity_to_grid_ : gmap Z Z;
  has_callback : bool
}.

(** [resize] throws on a negative count ([None] as well). *)
Definition aoi_init (c : Config) : option aoi :=
  nx ← grid_x_count c;
  ny ← grid_y_count c;
  grid_count ← to_int (nx * ny);
  if grid_count <? 0 then None
  else Some (mkAoi c ∅ (replicate (Z.to_nat grid_count) ∅) ∅ false).

Definition set_callback (a : aoi) : aoi :=
  mkAoi (config_ a) (entities_ a) (grids_ a) (entity_to_grid_ a) true.

Definition grid_index (c : Config) (gx gy : Z) : option Z :=
  nx ← grid_x_count c; row ← to_int (gy * nx); to_int (row + gx).

Definition is_valid_grid (c : Config) (gx gy : Z) : option bool :=
  if gx <? 0 then Some false
  else
    nx ← grid_x_count c;
    if nx <=? gx then Some false
    else if gy <? 0 then Some false
    else ny ← grid_y_count c; Some (gy <? ny).

Definition pos_to_grid (c : Config) (px py : Z) : option (Z * Z) :=
  qx ← int_div px (grid_size c);
  nx ← grid_x_count c;
  mx ← to_int (nx - 1);
  qy ← int_div py (grid_size c);
  ny ← grid_y_count c;
  my ← to_int (ny - 1);
  Some (Z.max 0 (Z.min qx mx), Z.max 0 (Z.min qy my)).

Definition grid_to_center (c : Config) (gx gy : Z) : option (Z * Z) :=
  bx ← to_int (gx * grid_size c);
  cx ← to_int (bx + Z.quot (grid_size c) 2);
  by_ ← to_int (gy * grid_size c);
  cy ← to_int (by_ + Z.quot (grid_size c) 2);
  Some (cx, cy).

(** A rectangle of cells: [min_gx], [min_gy], [max_gx], [max_gy]. *)
Record view := mkView { min_gx : Z; min_gy : Z; max_gx : Z; max_gy : Z }.

(** The clamped square around a cell. *)
Definition view_around (c : Config) (gx gy : Z) : option view :=
  lo_x ← to_int (gx - view_range c);
  lo_y ← to_int (gy - view_range c);
  nx ← grid_x_count c;
  mx ← to_int (nx - 1);
  hi_x ← to_int (gx + view_range c);
  ny ← grid_y_count c;
  my ← to_int (ny - 1);
  hi_y ← to_int (gy + view_range c);
  Some (mkView (Z.max 0 lo_x) (Z.max 0 lo_y) (Z.min mx hi_x) (Z.min my hi_y)).

Definition get_grids_in_view (c : Config) (px py : Z) : option view :=
  '(gx, gy) ← pos_to_grid c px py; view_around c gx gy.

(** The cells of the two nested loops, in their order. *)
Definition cells (v : view) : list (Z * Z) :=
  gy ← range (min_gy v) (max_gy v); gx ← range (min_gx v) (max_gx v); [(gx, gy)].

Definition outside (v : view) (cell : Z * Z) : bool :=
  (cell.1 <? min_gx v) || (max_gx v <? cell.1) || (cell.2 <? min_gy v) || (max_gy v <? cell.2).

(** [std::max]/[std::min] of two views' bounds. *)
Definition overlap (v w : view) : view :=
  mkView (Z.max (min_gx v) (min_gx w)) (Z.max (min_gy v) (min_gy w))
    (Z.min (max_gx v) (max_gx w)) (Z.min (max_gy v) (max_gy w)).

(** [grids_[idx]], defined inside the vector only. *)
Definition grid_at (a : aoi) (idx : Z) : option (gset Z) :=
  if 0 <=? idx then grids_ a !! Z.to_nat idx else None.

Definition set_grid (a : aoi) (idx : Z) (s : gset Z) : aoi :=
  mkAoi (config_ a) (entities_ a) (<[Z.to_nat idx := s]> (grids_ a)) (entity_to_grid_ a) (has_callback a).

Definition grid_insert (a : aoi) (idx eid : Z) : option aoi :=
  s ← grid_at a idx; Some (set_grid a idx ({[eid]} ∪ s)).

Definition grid_erase (a : aoi) (idx eid : Z) : option aoi :=
  s ← grid_at a idx; Some (set_grid a idx (s ∖ {[eid]})).

Definition set_entity (a : aoi) (e : Entity) : aoi :=
  mkAoi (config_ a) (<[id e := e]> (entities_ a)) (grids_ a) (entity_to_grid_ a) (has_callback a).

Definition set_entity_grid (a : aoi) (eid idx : Z) : aoi :=
  mkAoi (config_ a) (entities_ a) (grids_ a) (<[eid := idx]> (entity_to_grid_ a)) (has_callback a).

Definition erase_entity (a : aoi) (eid : Z) : aoi :=
  mkAoi (config_ a) (delete eid (entities_ a)) (grids_ a) (delete eid (entity_to_grid_ a)) (has_callback a).

(** The ids in the given cells, in the loops' order. *)
Definition ids_in (a : aoi) (cs : list (Z * Z)) : option (list Z) :=
  ss ← mapM (fun '(gx, gy) => idx ← grid_index (config_ a) gx gy; grid_at a idx) cs;
  Some (s ← ss; elements (s : gset Z)).

(** The loops of the handlers: one or more events for every other id. *)
Definition notify (a : aoi) (cs : list (Z * Z)) (eid : Z) (f : Z -> list AoiEvent) : option (list AoiEvent) :=
  ids ← ids_in a cs;
  Some (other ← ids; if other =? eid then [] else f other).

Definition add_entity (e : Entity) (a : aoi) : option (bool * aoi * list AoiEvent) :=
  if id e =? 0 then Some (false, a, [])
  else if decide (is_Some (entities_ a !! id e)) then Some (false, a, [])
  else
    '(gx, gy) ← pos_to_grid (config_ a) (x e) (y e);
    let a1 := set_entity a e in
    idx ← grid_index (config_ a) gx gy;
    a2 ← grid_insert a1 idx (id e);
    let a3 := set_entity_grid a2 (id e) idx in
    if has_callback a3 then
      v ← get_grids_in_view (config_ a) (x e) (y e);
      evs ← notify a3 (cells v) (id e) (fun other => [mkEvent ENTER other (id e) 0 0 (x e) (y e)]);
      Some (true, a3, evs)
    else Some (true, a3, []).

Definition remove_entity (eid : Z) (a : aoi) : option (bool * aoi * list AoiEvent) :=
  match entities_ a !! eid with
  | None => Some (false, a, [])
  | Some e =>
      evs ← (if has_callback a then
               v ← get_grids_in_view (config_ a) (x e) (y e);
               notify a (cells v) eid (fun other => [mkEvent LEAVE other eid 0 0 0 0])
             else Some []);
      a1 ← match entity_to_grid_ a !! eid with
           | Some idx => grid_erase a idx eid
           | None => Some a
           end;
      Some (true, erase_entity a1 eid, evs)
  end.

(** The events of a move between two cells, on the manager after the move. *)
Definition leave_events (a : aoi) (v_old v_new : view) (eid : Z) : option (list AoiEvent) :=
  notify a (filter (fun c => outside v_new c = true) (cells v_old)) eid (fun other =>
    [mkEvent LEAVE other eid 0 0 0 0; mkEvent LEAVE eid other 0 0 0 0]).

Definition enter_events (a : aoi) (v_old v_new : view) (eid nx ny : Z) : option (list AoiEvent) :=
  notify a (filter (fun c => outside v_old c = true) (cells v_new)) eid (fun other =>
    mkEvent ENTER other eid 0 0 nx ny ::
    match entities_ a !! other with
    | Some o => [mkEvent ENTER eid other 0 0 (x o) (y o)]
    | None => []
    end).

Definition move_events (a : aoi) (cs : list (Z * Z)) (eid ox oy nx ny : Z) : option (list AoiEvent) :=
  notify a cs eid (fun other => [mkEvent MOVE other eid ox oy nx ny]).

Definition update_entity (eid nx ny : Z) (a : aoi) : option (bool * aoi * list AoiEvent) :=
  match entities_ a !! eid with
  | None => Some (false, a, [])
  | Some e =>
      let ox := x e in let oy := y e in
      '(ogx, ogy) ← pos_to_grid (config_ a) ox oy;
      '(ngx, ngy) ← pos_to_grid (config_ a) nx ny;
      let a1 := mkAoi (config_ a) (<[eid := mkEntity (id e) nx ny (etype e) (user_data e)]> (entities_ a))
                  (grids_ a) (entity_to_grid_ a) (has_callback a) in
      if (ogx =? ngx) && (ogy =? ngy) then
        evs ← (if has_callback a then move_events a1 [(ogx, ogy)] eid ox oy nx ny else Some []);
        Some (true, a1, evs)
      else
        v_old ← get_grids_in_view (config_ a) ox oy;
        v_new ← get_grids_in_view (config_ a) nx ny;
        old_idx ← grid_index (config_ a) ogx ogy;
        new_idx ← grid_index (config_ a) ngx ngy;
        a2 ← grid_erase a1 old_idx eid;
        a3 ← grid_insert a2 new_idx eid;
        let a4 := set_entity_grid a3 eid new_idx in
        if has_callback a then
          ev1 ← leave_events a4 v_old v_new eid;
          ev2 ← enter_events a4 v_old v_new eid nx ny;
          ev3 ← move_events a4 (cells (overlap v_old v_new)) eid ox oy nx ny;
          Some (true, a4, ev1 ++ ev2 ++ ev3)
        else Some (true, a4, [])
  end.

(** [get_entity]: the flag is whether there is a result. *)
Definition get_entity (eid : Z) (a : aoi) : option Entity := entities_ a !! eid.

Definition entities_of (a : aoi) (ids : list Z) : list Entity :=
  eid ← ids; match entities_ a !! eid with Some e => [e] | None => [] end.

Definition get_entity_ids_in_view_locked (px py : Z) (a : aoi) : option (list Z) :=
  v ← get_grids_in_view (config_ a) px py; ids_in a (cells v).

Definition get_entities_in_view_locked (px py : Z) (a : aoi) : option (list Entity) :=
  v ← get_grids_in_view (config_ a) px py; ids ← ids_in a (cells v); Some (entities_of a ids).

(** The overloads on a watcher and on a position. *)
Definition get_entities_in_view (watcher : Z) (a : aoi) : option (list Entity) :=
  match entities_ a !! watcher with
  | None => Some []
  | Some e => get_entities_in_view_locked (x e) (y e) a
  end.

Definition get_entity_ids_in_view (watcher : Z) (a : aoi) : option (list Z) :=
  match entities_ a !! watcher with
  | None => Some []
  | Some e => get_entity_ids_in_view_locked (x e) (y e) a
  end.

Definition get_entity_ids_in_grid (gx gy : Z) (a : aoi) : option (list Z) :=
  ok ← is_valid_grid (config_ a) gx gy; if negb ok then Some [] else ids_in a [(gx, gy)].

Definition get_entities_in_grid (gx gy : Z) (a : aoi) : option (list Entity) :=
  ok ← is_valid_grid (config_ a) gx gy;
  if negb ok then Some []
  else ids ← ids_in a [(gx, gy)]; Some (entities_of a ids).

Definition get_entities_in_grids (cgx cgy : Z) (a : aoi) : option (list Entity) :=
  v ← view_around (config_ a) cgx cgy; ids ← ids_in a (cells v); Some (entities_of a ids).

Definition total_entities (a : aoi) : nat := size (entities_ a).

Definition entity_count_in_grid (gx gy : Z) (a : aoi) : option nat :=
  ok ← is_valid_grid (config_ a) gx gy;
  if negb ok then Some O
  else idx ← grid_index (config_ a) gx gy; s ← grid_at a idx; Some (size s).

(** ** Well-formed managers *)

(** The numbers of columns and rows, of the integers. *)
Definition x_cells (c : Config) : Z := Z.quot (map_width c + grid_size c - 1) (grid_size c).
Definition y_cells (c : Config) : Z := Z.quot (map_height c + grid_size c - 1) (grid_size c).

(** Positive sizes, and counts that fit an [int]: the sums of the sizes, the number
    of cells, and a column or row plus the view range. *)
Record config_ok (c : Config) : Prop := {
  size_pos : 0 < grid_size c;
  width_ok : 0 < map_width c /\ map_width c + grid_size c < 2 ^ 31;
  height_ok : 0 < map_height c /\ map_height c + grid_size c < 2 ^ 31;
  cells_fit : x_cells c * y_cells c < 2 ^ 31;
  view_fits : 0 <= view_range c /\ x_cells c + view_range c <= 2 ^ 31 /\ y_cells c + view_range c <= 2 ^ 31
}.

Definition cell_ok (c : Config) (cell : Z * Z) : Prop :=
  0 <= cell.1 < x_cells c /\ 0 <= cell.2 < y_cells c.

(** What [grid_index], [pos_to_grid] and [view_around] are when nothing overflows. *)
Definition index_of (c : Config) (cell : Z * Z) : Z := cell.2 * x_cells c + cell.1.
Definition cell_of (c : Config) (px py : Z) : Z * Z :=
  (Z.max 0 (Z.min (Z.quot px (grid_size c)) (x_cells c - 1)),
   Z.max 0 (Z.min (Z.quot py (grid_size c)) (y_cells c - 1))).
Definition view_of (c : Config) (cell : Z * Z) : view :=
  mkView (Z.max 0 (cell.1 - view_range c)) (Z.max 0 (cell.2 - view_range c))
    (Z.min (x_cells c - 1) (cell.1 + view_range c)) (Z.min (y_cells c - 1) (cell.2 + view_range c)).

(** The cell of a position. *)
Definition cell_at (c : Config) (e : Entity) : Z * Z := cell_of c (x e) (y e).

Definition in_cell (a : aoi) (idx i : Z) : Prop := exists s, grid_at a idx = Some s /\ i ∈ s.

(** [entities_], [grids_] and [entity_to_grid_] tell the same story: an id is
    in the cell of its entity's position and in no other. *)
Record aoi_wf (a : aoi) : Prop := {
  wf_config : config_ok (config_ a);
  wf_length : length (grids_ a) = Z.to_nat (x_cells (config_ a) * y_cells (config_ a));
  wf_id : forall i e, entities_ a !! i = Some e -> id e = i /\ i <> 0;
  wf_cell : forall i k, in_cell a k i <->
    exists e, entities_ a !! i = Some e /\ k = index_of (config_ a) (cell_at (config_ a) e);
  wf_map : forall i, entity_to_grid_ a !! i =
    (fun e => index_of (config_ a) (cell_at (config_ a) e)) <$> entities_ a !! i
}.

(** Two positions see each other: their cells are at most [view_range] apart
    in each direction. *)
Definition sees (c : Config) (p q : Z * Z) : Prop :=
  Z.abs (p.1 - q.1) <= view_range c /\ Z.abs (p.2 - q.2) <= view_range c.

(** *** Arithmetic of the grid *)

Lemma count_pos w g : 0 < w -> 0 < g -> 0 < Z.quot (w + g - 1) g.
Proof. intros. apply Z.quot_str_pos. lia. Qed.

Lemma counts_pos c : config_ok c -> 0 < x_cells c /\ 0 < y_cells c.
Proof. intros [? [? _] [? _] _ _]. split; by apply count_pos. Qed.

Lemma counts_small c : config_ok c -> x_cells c < 2 ^ 31 /\ y_cells c < 2 ^ 31.
Proof. intros Hc. destruct (counts_pos c Hc). pose proof (cells_fit c Hc). nia. Qed.

Lemma grid_x_count_ok c : config_ok c -> grid_x_count c = Some (x_cells c).
Proof. intros [? ? ? ? ?]. unfold grid_x_count. by int_steps. Qed.

Lemma grid_y_count_ok c : config_ok c -> grid_y_count c = Some (y_cells c).
Proof. intros [? ? ? ? ?]. unfold grid_y_count. by int_steps. Qed.

Lemma pos_to_grid_ok c px py : config_ok c -> pos_to_grid c px py = Some (cell_of c px py).
Proof.
  intros Hc. destruct (counts_pos c Hc), (counts_small c Hc). pose proof (size_pos c Hc).
  unfold pos_to_grid. rewrite grid_x_count_ok, grid_y_count_ok by done. cbn [mbind option_bind]. by int_steps.
Qed.

Lemma view_around_ok c cell : config_ok c -> cell_ok c cell -> view_around c cell.1 cell.2 = Some (view_of c cell).
Proof.
  intros Hc [? ?]. destruct (counts_pos c Hc), (counts_small c Hc), (view_fits c Hc) as (? & ? & ?).
  unfold view_around. rewrite grid_x_count_ok, grid_y_count_ok by done. by int_steps.
Qed.

Lemma pos_cell_ok c px py : config_ok c -> cell_ok c (cell_of c px py).
Proof. intros Hc. destruct (counts_pos c Hc). unfold cell_ok, cell_of. cbn. lia. Qed.

Lemma index_range c cell :
  cell_ok c cell -> 0 <= index_of c cell < x_cells c * y_cells c.
Proof. unfold cell_ok, index_of. destruct cell as [gx gy]. cbn. intros [? ?]. nia. Qed.

Lemma index_inj c p q :
  cell_ok c p -> cell_ok c q -> index_of c p = index_of c q -> p = q.
Proof.
  unfold cell_ok, index_of. destruct p as [px py], q as [qx qy]. cbn.
  intros [? ?] [? ?] Heq. assert (py = qy) by nia. subst. f_equal. lia.
Qed.

Lemma elem_of_cells v cell :
  cell ∈ cells v <-> min_gx v <= cell.1 <= max_gx v /\ min_gy v <= cell.2 <= max_gy v.
Proof.
  unfold cells. rewrite list_elem_of_bind. setoid_rewrite list_elem_of_bind.
  setoid_rewrite elem_of_range. setoid_rewrite list_elem_of_singleton. destruct cell as [gx gy]. cbn.
  split.
  - intros (gy' & (gx' & [= -> ->] & ?) & ?). done.
  - intros [? ?]. exists gy. split; [|done]. by exists gx.
Qed.

Lemma outside_spec v cell :
  outside v cell = true <-> ~ (min_gx v <= cell.1 <= max_gx v /\ min_gy v <= cell.2 <= max_gy v).
Proof. unfold outside. rewrite !orb_true_iff, !Z.ltb_lt. lia. Qed.

Lemma grid_index_ok c cell : config_ok c -> cell_ok c cell -> grid_index c cell.1 cell.2 = Some (index_of c cell).
Proof.
  intros Hc Hcell. pose proof (index_range c cell Hcell) as Hi. pose proof (cells_fit c Hc). destruct Hcell, (counts_pos c Hc).
  unfold grid_index, index_of in *. rewrite grid_x_count_ok by done. cbn [mbind option_bind]. rewrite to_int_ok by nia. by int_steps.
Qed.

(** The clamped view around a cell holds the cells that see it. *)
Lemma view_spec c p cell : cell ∈ cells (view_of c p) <-> cell_ok c cell /\ sees c p cell.
Proof. rewrite elem_of_cells. unfold view_of, cell_ok, sees. cbn. lia. Qed.

Lemma get_grids_in_view_ok c px py : config_ok c -> get_grids_in_view c px py = Some (view_of c (cell_of c px py)).
Proof.
  intros Hc. unfold get_grids_in_view. rewrite pos_to_grid_ok by done. cbn [mbind option_bind].
  pose proof (view_around_ok c (cell_of c px py) Hc (pos_cell_ok c px py Hc)) as Hv. by destruct (cell_of c px py).
Qed.

Lemma sees_sym c p q : sees c p q <-> sees c q p.
Proof. unfold sees. lia. Qed.

(** *** Cells of the vector *)

Lemma grid_at_some a idx :
  length (grids_ a) = Z.to_nat (x_cells (config_ a) * y_cells (config_ a)) ->
  0 <= idx < x_cells (config_ a) * y_cells (config_ a) -> is_Some (grid_at a idx).
Proof.
  intros Hl Hi. unfold grid_at. rewrite (proj2 (Z.leb_le _ _)) by lia. apply lookup_lt_is_Some. lia.
Qed.

Lemma grid_at_set a idx s k :
  is_Some (grid_at a idx) -> grid_at (set_grid a idx s) k = if decide (k = idx) then Some s else grid_at a k.
Proof.
  unfold grid_at. intros [s0 Hs]. cbn. destruct (0 <=? idx) eqn:E; [|done]. breflect.
  destruct (0 <=? k) eqn:Ek; breflect; [|by rewrite decide_False by lia].
  case_decide as Hk.
  - subst. apply list_lookup_insert_eq. by eapply lookup_lt_Some.
  - apply list_lookup_insert_ne. lia.
Qed.

(** What [insert] into and [erase] from a cell change. *)
Definition same_but_grids (a a' : aoi) : Prop :=
  config_ a' = config_ a /\ entities_ a' = entities_ a /\ entity_to_grid_ a' = entity_to_grid_ a
  /\ has_callback a' = has_callback a /\ length (grids_ a') = length (grids_ a).

Lemma grid_insert_spec a idx i : is_Some (grid_at a idx) ->
  exists a', grid_insert a idx i = Some a' /\ same_but_grids a a'
    /\ forall k j, in_cell a' k j <-> in_cell a k j \/ (k = idx /\ j = i).
Proof.
  intros Hs. destruct Hs as [s Hs]. unfold grid_insert. rewrite Hs. cbn.
  eexists. split; [done|]. split.
  { unfold same_but_grids. cbn. by rewrite length_insert. }
  intros k j. unfold in_cell. rewrite grid_at_set by done. case_decide as Hk; [subst|clear -Hk; naive_solver].
  rewrite Hs. split.
  - intros (s' & [= <-] & Hj). apply elem_of_union in Hj as [->%elem_of_singleton|?]; eauto.
  - intros [(s' & [= <-] & Hj)|[_ ->]]; eexists; (split; [done|]); set_solver.
Qed.

Lemma grid_erase_spec a idx i : is_Some (grid_at a idx) ->
  exists a', grid_erase a idx i = Some a' /\ same_but_grids a a'
    /\ forall k j, in_cell a' k j <-> in_cell a k j /\ ~ (k = idx /\ j = i).
Proof.
  intros Hs. destruct Hs as [s Hs]. unfold grid_erase. rewrite Hs. cbn.
  eexists. split; [done|]. split.
  { unfold same_but_grids. cbn. by rewrite length_insert. }
  intros k j. unfold in_cell. rewrite grid_at_set by done. case_decide as Hk; [subst|clear -Hk; naive_solver].
  rewrite Hs. split.
  - intros (s' & [= <-] & Hj). apply elem_of_difference in Hj as [? ?]. split; [eauto|]. set_solver.
  - intros [(s' & [= <-] & Hj) Hn]. eexists. split; [done|]. set_solver.
Qed.

(** *** The loops *)

(** The same with the indices of the integers. *)
Definition ids_at (a : aoi) (cs : list (Z * Z)) : option (list Z) :=
  ss ← mapM (fun c => grid_at a (index_of (config_ a) c)) cs; Some (s ← ss; elements (s : gset Z)).

Lemma ids_in_ideal a cs : config_ok (config_ a) -> Forall (cell_ok (config_ a)) cs -> ids_in a cs = ids_at a cs.
Proof.
  intros Hc Hcs. unfold ids_in, ids_at. f_equal. induction Hcs as [|[gx gy] cs Hcell _ IH]; [done|]. cbn [mapM].
  pose proof (grid_index_ok _ _ Hc Hcell) as Hi. cbn in Hi. by rewrite Hi, IH.
Qed.

Lemma ids_in_spec a cs :
  config_ok (config_ a) -> length (grids_ a) = Z.to_nat (x_cells (config_ a) * y_cells (config_ a)) ->
  Forall (cell_ok (config_ a)) cs ->
  exists ids, ids_in a cs = Some ids /\
    forall i, i ∈ ids <-> exists cell, cell ∈ cs /\ in_cell a (index_of (config_ a) cell) i.
Proof.
  intros Hcf Hl Hcs. rewrite ids_in_ideal by done. unfold ids_at.
  assert (is_Some (mapM (fun c => grid_at a (index_of (config_ a) c)) cs)) as [ss Hss].
  { apply mapM_is_Some. eapply Forall_impl; [done|]. intros c Hc. apply grid_at_some; [done|]. by apply index_range. }
  rewrite Hss. cbn. eexists. split; [done|]. apply mapM_Some in Hss.
  intros i. rewrite list_elem_of_bind. setoid_rewrite elem_of_elements. unfold in_cell. split.
  - intros (s & Hi & Hs). apply list_elem_of_lookup in Hs as [n Hn].
    destruct (Forall2_lookup_r _ _ _ _ _ Hss Hn) as ([gx gy] & Hc & Hg).
    exists (gx, gy). split; [by eapply list_elem_of_lookup_2|]. by exists s.
  - intros ([gx gy] & Hc & s & Hg & Hi). apply list_elem_of_lookup in Hc as [n Hn].
    destruct (Forall2_lookup_l _ _ _ _ _ Hss Hn) as (s' & Hs' & Hg').
    cbn beta in Hg'. rewrite Hg in Hg'. injection Hg' as <-.
    exists s. split; [done|]. by eapply list_elem_of_lookup_2.
Qed.

Lemma notify_spec a cs eid f :
  config_ok (config_ a) -> length (grids_ a) = Z.to_nat (x_cells (config_ a) * y_cells (config_ a)) ->
  Forall (cell_ok (config_ a)) cs ->
  exists evs, notify a cs eid f = Some evs /\
    forall ev, ev ∈ evs <-> exists other, other <> eid /\ ev ∈ f other /\
      exists cell, cell ∈ cs /\ in_cell a (index_of (config_ a) cell) other.
Proof.
  intros Hc Hl Hcs. destruct (ids_in_spec a cs Hc Hl Hcs) as (ids & Hids & Hi).
  unfold notify. rewrite Hids. cbn. eexists. split; [done|]. intros ev.
  rewrite list_elem_of_bind. setoid_rewrite Hi. split.
  - intros (o & Hev & Ho). destruct (o =? eid) eqn:E; breflect; [|by exists o].
    by apply not_elem_of_nil in Hev.
  - intros (o & Hne & Hev & Ho). exists o. split; [|done].
    by rewrite (proj2 (Z.eqb_neq o eid) Hne).
Qed.

Lemma in_cells_wf a cs i :
  aoi_wf a -> Forall (cell_ok (config_ a)) cs ->
  (exists cell, cell ∈ cs /\ in_cell a (index_of (config_ a) cell) i) <->
  exists e, entities_ a !! i = Some e /\ cell_at (config_ a) e ∈ cs.
Proof.
  intros Hw Hcs. split.
  - intros (cell & Hc & (e & He & Hk)%(wf_cell a Hw)). exists e. split; [done|].
    apply index_inj in Hk; [by rewrite <- Hk| |by apply pos_cell_ok, wf_config].
    by eapply Forall_forall in Hcs.
  - intros (e & He & Hc). exists (cell_at (config_ a) e). split; [done|].
    apply (wf_cell a Hw). by exists e.
Qed.

Lemma notify_wf a cs eid f :
  aoi_wf a -> Forall (cell_ok (config_ a)) cs ->
  exists evs, notify a cs eid f = Some evs /\
    forall ev, ev ∈ evs <-> exists other eo, other <> eid /\ entities_ a !! other = Some eo
      /\ cell_at (config_ a) eo ∈ cs /\ ev ∈ f other.
Proof.
  intros Hw Hcs. destruct (notify_spec a cs eid f (wf_config a Hw) (wf_length a Hw) Hcs) as (evs & He & Hev).
  exists evs. split; [done|]. intros ev. rewrite Hev. setoid_rewrite (in_cells_wf a cs _ Hw Hcs).
  split; [intros (o & ? & ? & eo & ? & ?)|intros (o & eo & ? & ? & ? & ?)]; exists o; eauto 10.
Qed.

Lemma view_cells_ok c p : Forall (cell_ok c) (cells (view_of c p)).
Proof. apply Forall_forall. intros cell Hc. apply view_spec in Hc. tauto. Qed.

Lemma sub_cells_ok c cs cs' :
  Forall (cell_ok c) cs -> (forall p, p ∈ cs' -> p ∈ cs) -> Forall (cell_ok c) cs'.
Proof. rewrite !Forall_forall. auto. Qed.

Lemma overlap_spec v w cell : cell ∈ cells (overlap v w) <-> cell ∈ cells v /\ cell ∈ cells w.
Proof. rewrite !elem_of_cells. unfold overlap. cbn. lia. Qed.

Lemma outside_cells v cell : outside v cell = true <-> cell ∉ cells v.
Proof. by rewrite outside_spec, elem_of_cells. Qed.

(** *** What each operation does to a well-formed manager *)

Lemma set_position_wf a eid e nx ny :
  aoi_wf a -> entities_ a !! eid = Some e ->
  cell_of (config_ a) nx ny = cell_at (config_ a) e ->
  aoi_wf (mkAoi (config_ a) (<[eid := mkEntity (id e) nx ny (etype e) (user_data e)]> (entities_ a))
            (grids_ a) (entity_to_grid_ a) (has_callback a)).
Proof.
  intros Hw He Hp. destruct Hw as [Hc Hl Hi Hk Hm]. split; cbn; try done.
  - intros i e'. rewrite lookup_insert. case_decide; [|by apply Hi]. subst. intros [= <-]. by apply (Hi i e).
  - intros i k. change (in_cell _ k i) with (in_cell a k i). rewrite Hk, lookup_insert.
    case_decide; [subst|done]. rewrite He. unfold cell_at in *. split.
    + intros (? & [= <-] & ->). eexists. split; [done|]. cbn. by rewrite Hp.
    + intros (? & [= <-] & ->). eexists. split; [done|]. cbn. by rewrite Hp.
  - intros i. rewrite Hm, lookup_insert. case_decide; [subst|done]. rewrite He. cbn.
    unfold cell_at in *. cbn. by rewrite Hp.
Qed.

(** Moving an entity from its cell to another one. *)
Lemma relocate_wf a eid e nx ny :
  aoi_wf a -> entities_ a !! eid = Some e ->
  let e' := mkEntity (id e) nx ny (etype e) (user_data e) in
  let a1 := mkAoi (config_ a) (<[eid := e']> (entities_ a)) (grids_ a) (entity_to_grid_ a) (has_callback a) in
  let new_idx := index_of (config_ a) (cell_of (config_ a) nx ny) in
  exists a2 a3,
    grid_erase a1 (index_of (config_ a) (cell_at (config_ a) e)) eid = Some a2
    /\ grid_insert a2 new_idx eid = Some a3
    /\ let a4 := set_entity_grid a3 eid new_idx in
       aoi_wf a4 /\ config_ a4 = config_ a /\ entities_ a4 = <[eid := e']> (entities_ a)
       /\ has_callback a4 = has_callback a.
Proof.
  intros Hw He e' a1 new_idx. destruct Hw as [Hc Hl Hi Hk Hm].
  destruct (grid_erase_spec a1 (index_of (config_ a) (cell_at (config_ a) e)) eid)
    as (a2 & H2 & (Hc2 & He2 & Hm2 & Hb2 & Hl2) & Hk2).
  { apply grid_at_some; [done|]. by apply index_range, pos_cell_ok. }
  destruct (grid_insert_spec a2 new_idx eid) as (a3 & H3 & (Hc3 & He3 & Hm3 & Hb3 & Hl3) & Hk3).
  { apply grid_at_some; [by rewrite Hc2, Hl2|]. rewrite Hc2. by apply index_range, pos_cell_ok. }
  assert (config_ a3 = config_ a) as Ec by (rewrite Hc3; apply Hc2).
  assert (entities_ a3 = <[eid := e']> (entities_ a)) as Ee by (rewrite He3; apply He2).
  assert (entity_to_grid_ a3 = entity_to_grid_ a) as Em by (rewrite Hm3; apply Hm2).
  assert (has_callback a3 = has_callback a) as Eb by (rewrite Hb3; apply Hb2).
  exists a2, a3. cbv zeta. split_and!; [done|done| |done..].
  split; cbn; rewrite ?Ec, ?Ee.
  - exact Hc.
  - rewrite Hl3, Hl2. done.
  - intros i e0. rewrite lookup_insert. case_decide; [subst; intros [= <-]; by apply (Hi i e)|by apply Hi].
  - intros i k. change (in_cell _ k i) with (in_cell a3 k i). rewrite Hk3, Hk2.
    change (in_cell a1 k i) with (in_cell a k i). rewrite Hk, lookup_insert.
    case_decide as Hd; [subst|clear -Hd; naive_solver]. rewrite He. split.
    + intros [[(? & [= <-] & ->) Hn]|[-> _]]; [by destruct Hn|]. by exists e'.
    + intros (? & [= <-] & ->). by right.
  - intros i. rewrite Em, !lookup_insert, Hm. case_decide; [by subst|done].
Qed.

Lemma add_entity_wf a e :
  aoi_wf a -> id e <> 0 -> entities_ a !! id e = None ->
  let idx := index_of (config_ a) (cell_at (config_ a) e) in
  exists a2, grid_insert (set_entity a e) idx (id e) = Some a2
    /\ let a3 := set_entity_grid a2 (id e) idx in
       aoi_wf a3 /\ config_ a3 = config_ a /\ entities_ a3 = <[id e := e]> (entities_ a)
       /\ has_callback a3 = has_callback a.
Proof.
  intros Hw Hid He idx. destruct Hw as [Hc Hl Hi Hk Hm].
  destruct (grid_insert_spec (set_entity a e) idx (id e)) as (a2 & H2 & (Hc2 & He2 & Hm2 & Hb2 & Hl2) & Hk2).
  { apply grid_at_some; [done|]. by apply index_range, pos_cell_ok. }
  exists a2. cbv zeta. split_and!; [done| |done..]. cbn in Hc2, He2, Hm2, Hl2.
  split; cbn; rewrite ?Hc2, ?He2.
  - exact Hc.
  - by rewrite Hl2.
  - intros i e0. rewrite lookup_insert. case_decide; [subst; by intros [= <-]|by apply Hi].
  - intros i k. change (in_cell _ k i) with (in_cell a2 k i). rewrite Hk2.
    change (in_cell (set_entity a e) k i) with (in_cell a k i). rewrite Hk, lookup_insert.
    case_decide as Hd; [subst|clear -Hd; naive_solver]. rewrite He. split.
    + intros [(? & ? & _)|[-> _]]; [done|]. by exists e.
    + intros (? & [= <-] & ->). by right.
  - intros i. rewrite Hm2, !lookup_insert, Hm. case_decide; [by subst|done].
Qed.

Lemma remove_entity_wf a eid e :
  aoi_wf a -> entities_ a !! eid = Some e ->
  exists a1, entity_to_grid_ a !! eid = Some (index_of (config_ a) (cell_at (config_ a) e))
    /\ grid_erase a (index_of (config_ a) (cell_at (config_ a) e)) eid = Some a1
    /\ let a2 := erase_entity a1 eid in
       aoi_wf a2 /\ config_ a2 = config_ a /\ entities_ a2 = delete eid (entities_ a)
       /\ has_callback a2 = has_callback a.
Proof.
  intros Hw He. destruct Hw as [Hc Hl Hi Hk Hm].
  destruct (grid_erase_spec a (index_of (config_ a) (cell_at (config_ a) e)) eid)
    as (a1 & H1 & (Hc1 & He1 & Hm1 & Hb1 & Hl1) & Hk1).
  { apply grid_at_some; [done|]. by apply index_range, pos_cell_ok. }
  exists a1. cbv zeta. split_and!; [by rewrite Hm, He|done| |done|cbn; by rewrite He1|done].
  split; cbn; rewrite ?Hc1, ?He1.
  - exact Hc.
  - by rewrite Hl1.
  - intros i e0. rewrite lookup_delete. case_decide; [done|by apply Hi].
  - intros i k. change (in_cell _ k i) with (in_cell a1 k i). rewrite Hk1, Hk, lookup_delete.
    case_decide as Hd; [subst|clear -Hd; naive_solver]. rewrite He. split.
    + intros [(? & [= <-] & ->) Hn]. by destruct Hn.
    + by intros (? & ? & _).
  - intros i. rewrite Hm1, !lookup_delete, Hm. by case_decide.
Qed.

(** *** Queries *)

Lemma NoDup_cells v : NoDup (cells v).
Proof.
  unfold cells. apply NoDup_bind; [| |apply NoDup_range].
  - intros gy1 gy2 c _ _ (gx1 & ->%list_elem_of_singleton & _)%list_elem_of_bind
      (gx2 & [= ?]%list_elem_of_singleton & _)%list_elem_of_bind. done.
  - intros gy _. apply NoDup_bind; [| |apply NoDup_range].
    + intros gx1 gx2 c _ _ ->%list_elem_of_singleton [= ?]%list_elem_of_singleton. done.
    + intros. apply NoDup_singleton.
Qed.

Lemma ids_in_eq a cs ids :
  ids_at a cs = Some ids ->
  ids = cs ≫= (fun cell => elements (default ∅ (grid_at a (index_of (config_ a) cell)))).
Proof.
  unfold ids_at. revert ids. induction cs as [|c cs IH]; intros ids; cbn.
  { by intros [= <-]. }
  destruct (grid_at a _) as [s|] eqn:E; [|done]. cbn.
  destruct (mapM _ cs) as [ss|]; [|done]. cbn. intros [= <-].
  by rewrite <- (IH _ eq_refl).
Qed.

Lemma NoDup_ids a cs ids :
  aoi_wf a -> NoDup cs -> Forall (cell_ok (config_ a)) cs -> ids_in a cs = Some ids -> NoDup ids.
Proof.
  intros Hw Hn Hcs. rewrite ids_in_ideal by (try apply wf_config; done). intros ->%ids_in_eq. apply NoDup_bind; [|intros; apply NoDup_elements|done].
  assert (forall c i, c ∈ cs -> i ∈ elements (default ∅ (grid_at a (index_of (config_ a) c))) ->
    exists e, entities_ a !! i = Some e /\ c = cell_at (config_ a) e) as Hu.
  { intros c i Hc Hi. rewrite elem_of_elements in Hi.
    destruct (grid_at a (index_of (config_ a) c)) as [s|] eqn:E; cbn in Hi; [|set_solver].
    assert (in_cell a (index_of (config_ a) c) i) as (e & He & Hk)%(wf_cell a Hw) by by exists s.
    exists e. split; [done|]. apply index_inj in Hk; [done| |by apply pos_cell_ok, wf_config].
    by eapply Forall_forall in Hcs. }
  intros c1 c2 i H1 H2 (e1 & He1 & ->)%Hu (e2 & He2 & ->)%Hu; [|done|done]. congruence.
Qed.

Lemma NoDup_entities a ids : aoi_wf a -> NoDup ids -> NoDup (entities_of a ids).
Proof.
  intros Hw Hn. unfold entities_of. apply NoDup_bind; [| |done].
  - intros i1 i2 e _ _ H1 H2.
    destruct (entities_ a !! i1) as [e1|] eqn:E1; [|by apply not_elem_of_nil in H1].
    destruct (entities_ a !! i2) as [e2|] eqn:E2; [|by apply not_elem_of_nil in H2].
    apply list_elem_of_singleton in H1, H2. subst.
    apply (wf_id a Hw) in E1 as [<- _], E2 as [<- _]. congruence.
  - intros i _. destruct (entities_ a !! i); [apply NoDup_singleton|apply NoDup_nil_2].
Qed.

(** C26: On a well-formed manager no [int] of a view query overflows and no cell is read out
    of range, and the entities returned for a position are, each once, exactly those whose
    cell is at most [view_range] cells away in both directions. *)
Theorem view_query_exact a px py :
  aoi_wf a ->
  exists p es, pos_to_grid (config_ a) px py = Some p /\ get_entities_in_view_locked px py a = Some es /\ NoDup es /\
    forall e, e ∈ es <-> entities_ a !! id e = Some e
      /\ exists q, pos_to_grid (config_ a) (x e) (y e) = Some q /\ sees (config_ a) p q.
Proof.
  intros Hw. pose proof (wf_config a Hw) as Hc. set (p := cell_of (config_ a) px py).
  pose proof (view_cells_ok (config_ a) p) as Hcs.
  destruct (ids_in_spec a _ Hc (wf_length a Hw) Hcs) as (ids & Hids & Hi).
  exists p, (entities_of a ids). unfold get_entities_in_view_locked. rewrite get_grids_in_view_ok by done.
  cbn [mbind option_bind]. fold p. rewrite Hids. split_and!; [by apply pos_to_grid_ok|done| |].
  { apply NoDup_entities; [done|]. eapply NoDup_ids; [done|apply NoDup_cells|exact Hcs|done]. }
  intros e. unfold entities_of. rewrite list_elem_of_bind.
  setoid_rewrite Hi. setoid_rewrite (in_cells_wf a _ _ Hw Hcs). setoid_rewrite (pos_to_grid_ok _ _ _ Hc). split.
  - intros (i & He & e' & He' & Hv). rewrite He' in He. apply list_elem_of_singleton in He as ->.
    destruct (wf_id a Hw _ _ He') as [-> _]. split; [done|]. apply view_spec in Hv as [_ ?]. by eexists.
  - intros [He (q & [= <-] & Hs)]. exists (id e). rewrite He. split; [by apply list_elem_of_singleton|].
    exists e. split; [done|]. apply view_spec. split; [|done]. by apply pos_cell_ok.
Qed.

(** *** The operations when nothing overflows *)

Lemma update_entity_at a eid e nx ny : config_ok (config_ a) -> entities_ a !! eid = Some e ->
  let o := cell_at (config_ a) e in
  let n := cell_of (config_ a) nx ny in
  let a1 := mkAoi (config_ a) (<[eid := mkEntity (id e) nx ny (etype e) (user_data e)]> (entities_ a)) (grids_ a) (entity_to_grid_ a) (has_callback a) in
  update_entity eid nx ny a =
    if decide (o = n) then
      evs ← (if has_callback a then move_events a1 [o] eid (x e) (y e) nx ny else Some []);
      Some (true, a1, evs)
    else
      a2 ← grid_erase a1 (index_of (config_ a) o) eid;
      a3 ← grid_insert a2 (index_of (config_ a) n) eid;
      let a4 := set_entity_grid a3 eid (index_of (config_ a) n) in
      if has_callback a then
        ev1 ← leave_events a4 (view_of (config_ a) o) (view_of (config_ a) n) eid;
        ev2 ← enter_events a4 (view_of (config_ a) o) (view_of (config_ a) n) eid nx ny;
        ev3 ← move_events a4 (cells (overlap (view_of (config_ a) o) (view_of (config_ a) n))) eid (x e) (y e) nx ny;
        Some (true, a4, ev1 ++ ev2 ++ ev3)
      else Some (true, a4, []).
Proof.
  intros Hc He o n a1. unfold update_entity. rewrite He, !pos_to_grid_ok, !get_grids_in_view_ok by done. cbn [mbind option_bind].
  fold n. change (cell_of (config_ a) (x e) (y e)) with o.
  pose proof (grid_index_ok _ o Hc (pos_cell_ok _ _ _ Hc)) as Ho. pose proof (grid_index_ok _ n Hc (pos_cell_ok _ _ _ Hc)) as Hn.
  destruct o as [ogx ogy], n as [ngx ngy]. cbn [fst snd] in Ho, Hn. rewrite Ho, Hn. cbn [mbind option_bind].
  destruct ((ogx =? ngx) && (ogy =? ngy)) eqn:E.
  - breflect. subst. by rewrite decide_True.
  - rewrite decide_False; [done|]. intros [= -> ->]. by rewrite !Z.eqb_refl in E.
Qed.

Lemma add_entity_at a e : config_ok (config_ a) -> id e <> 0 -> entities_ a !! id e = None ->
  let p := cell_at (config_ a) e in
  add_entity e a =
    a2 ← grid_insert (set_entity a e) (index_of (config_ a) p) (id e);
    let a3 := set_entity_grid a2 (id e) (index_of (config_ a) p) in
    if has_callback a3 then
      evs ← notify a3 (cells (view_of (config_ a) p)) (id e) (fun other => [mkEvent ENTER other (id e) 0 0 (x e) (y e)]);
      Some (true, a3, evs)
    else Some (true, a3, []).
Proof.
  intros Hc Hi He p. unfold add_entity. rewrite (proj2 (Z.eqb_neq _ 0)) by done. rewrite He, decide_False by by intros [? ?].
  rewrite pos_to_grid_ok, get_grids_in_view_ok by done. cbn [mbind option_bind]. change (cell_of (config_ a) (x e) (y e)) with p.
  pose proof (grid_index_ok _ p Hc (pos_cell_ok _ _ _ Hc)) as Hp. destruct p as [gx gy]. cbn [fst snd] in Hp. by rewrite Hp.
Qed.

Lemma remove_entity_at a eid e : config_ok (config_ a) -> entities_ a !! eid = Some e ->
  remove_entity eid a =
    evs ← (if has_callback a then
             notify a (cells (view_of (config_ a) (cell_at (config_ a) e))) eid (fun other => [mkEvent LEAVE other eid 0 0 0 0])
           else Some []);
    a1 ← match entity_to_grid_ a !! eid with Some idx => grid_erase a idx eid | None => Some a end;
    Some (true, erase_entity a1 eid, evs).
Proof. intros Hc He. unfold remove_entity. by rewrite He, get_grids_in_view_ok by done. Qed.

(** *** The events keep the clients' views right *)

(** [w] sees [t]: two different entities in each other's range. *)
Definition visible (a : aoi) (w t : Z) : Prop :=
  w <> t /\ exists ew et, entities_ a !! w = Some ew /\ entities_ a !! t = Some et
    /\ sees (config_ a) (cell_at (config_ a) ew) (cell_at (config_ a) et).

(** The client side: the (watcher, target) pairs known, after an event. *)
Definition apply_event (known : gset (Z * Z)) (ev : AoiEvent) : gset (Z * Z) :=
  match type ev with
  | ENTER => {[(watcher_id ev, target_id ev)]} ∪ known
  | LEAVE => known ∖ {[(watcher_id ev, target_id ev)]}
  | MOVE => known
  end.

Definition apply_events (known : gset (Z * Z)) (evs : list AoiEvent) : gset (Z * Z) :=
  foldl apply_event known evs.

Definition synced (a : aoi) (known : gset (Z * Z)) : Prop :=
  forall w t, (w, t) ∈ known <-> visible a w t.

Lemma apply_events_app K evs1 evs2 :
  apply_events K (evs1 ++ evs2) = apply_events (apply_events K evs1) evs2.
Proof. apply foldl_app. Qed.

Lemma apply_leaves K evs w t :
  (forall ev, ev ∈ evs -> type ev = LEAVE) ->
  (w, t) ∈ apply_events K evs <->
  (w, t) ∈ K /\ ~ exists ev, ev ∈ evs /\ watcher_id ev = w /\ target_id ev = t.
Proof.
  revert K. induction evs as [|ev evs IH]; intros K Ht; cbn.
  { split; [|tauto]. intros ?. split; [done|]. by intros (? & []%not_elem_of_nil & _). }
  rewrite IH by (intros; apply Ht; by right). unfold apply_event. rewrite (Ht ev) by left.
  setoid_rewrite elem_of_cons. rewrite elem_of_difference, elem_of_singleton. split.
  - intros [[HK Hne] Hn]. split; [done|]. intros (ev' & [->|?] & <- & <-); [done|]. apply Hn; eauto.
  - intros [HK Hn]. split_and!; [done| |].
    + intros [= -> ->]. apply Hn. eauto.
    + intros (ev' & ? & ? & ?). apply Hn. eauto.
Qed.

Lemma apply_enters K evs w t :
  (forall ev, ev ∈ evs -> type ev = ENTER) ->
  (w, t) ∈ apply_events K evs <->
  (w, t) ∈ K \/ exists ev, ev ∈ evs /\ watcher_id ev = w /\ target_id ev = t.
Proof.
  revert K. induction evs as [|ev evs IH]; intros K Ht; cbn.
  { split; [tauto|]. intros [?|(? & []%not_elem_of_nil & _)]. done. }
  rewrite IH by (intros; apply Ht; by right). unfold apply_event. rewrite (Ht ev) by left.
  setoid_rewrite elem_of_cons. rewrite elem_of_union, elem_of_singleton. split.
  - intros [[[= -> ->]|?]|(ev' & ? & ? & ?)]; eauto 6.
  - intros [?|(ev' & [->|?] & <- & <-)]; eauto 6.
Qed.

Lemma apply_moves K evs : (forall ev, ev ∈ evs -> type ev = MOVE) -> apply_events K evs = K.
Proof.
  revert K. induction evs as [|ev evs IH]; intros K Ht; cbn; [done|].
  rewrite IH by (intros; apply Ht; by right). unfold apply_event. by rewrite (Ht ev) by left.
Qed.

(** [near a v o]: the entity [o] stands in the view [v]. *)
Definition near (a : aoi) (v : view) (o : Z) : Prop :=
  exists eo, entities_ a !! o = Some eo /\ cell_at (config_ a) eo ∈ cells v.

#[export] Instance near_dec a v o : Decision (near a v o).
Proof.
  unfold near. destruct (entities_ a !! o) as [eo|].
  - destruct (decide (cell_at (config_ a) eo ∈ cells v)); [left; eauto|right].
    intros (? & [= <-] & ?). done.
  - right. by intros (? & ? & _).
Defined.

Lemma visible_near a w ew t :
  aoi_wf a -> entities_ a !! w = Some ew ->
  visible a w t <-> w <> t /\ near a (view_of (config_ a) (cell_at (config_ a) ew)) t.
Proof.
  intros Hw Hew. unfold visible, near. setoid_rewrite view_spec. rewrite Hew. split.
  - intros (Hne & ? & et & [= <-] & Het & Hs). split; [done|]. exists et. split; [done|].
    split; [by apply pos_cell_ok, wf_config|done].
  - intros (Hne & et & Het & _ & Hs). split; [done|]. by exists ew, et.
Qed.

Lemma visible_sym a w t : visible a w t <-> visible a t w.
Proof.
  unfold visible. split; intros (Hne & e1 & e2 & H1 & H2 & Hs); (split; [done|]);
    exists e2, e1; by rewrite sees_sym.
Qed.

(** The pairs the loop over the cells of [v] outside [v'] tells about. *)
Definition crossed (a : aoi) (v v' : view) (eid w t : Z) : Prop :=
  exists o, o <> eid /\ near a v o /\ ~ near a v' o /\ ((w, t) = (o, eid) \/ (w, t) = (eid, o)).

Lemma crossing_events a v v' eid f :
  aoi_wf a -> Forall (cell_ok (config_ a)) (cells v) ->
  (forall o eo w t, entities_ a !! o = Some eo ->
     (exists ev, ev ∈ f o /\ watcher_id ev = w /\ target_id ev = t)
     <-> (w, t) = (o, eid) \/ (w, t) = (eid, o)) ->
  exists evs, notify a (filter (fun c => outside v' c = true) (cells v)) eid f = Some evs
    /\ (forall ev, ev ∈ evs -> exists o eo, entities_ a !! o = Some eo /\ ev ∈ f o)
    /\ forall w t, (exists ev, ev ∈ evs /\ watcher_id ev = w /\ target_id ev = t) <-> crossed a v v' eid w t.
Proof.
  intros Hw Hv Hf.
  destruct (notify_wf a (filter (fun c => outside v' c = true) (cells v)) eid f Hw) as (evs & He & Hev).
  { eapply sub_cells_ok; [apply Hv|]. intros p. by rewrite list_elem_of_filter; intros [_ ?]. }
  setoid_rewrite list_elem_of_filter in Hev. setoid_rewrite outside_cells in Hev.
  exists evs. split_and!; [done| |].
  { intros ev (o & eo & _ & Ho & _ & ?)%Hev. eauto. }
  intros w t. split.
  - intros (ev & (o & eo & Hne & Ho & [Hc1 Hc2] & Hin)%Hev & Hwt). exists o.
    split_and!; [done|by exists eo| |by eapply Hf; eauto].
    intros (eo' & Ho' & Hc'). rewrite Ho in Ho'. by injection Ho' as <-.
  - intros (o & Hne & (eo & Ho & Hc) & Hn & Hwt).
    apply (Hf o eo w t Ho) in Hwt as (ev & Hin & Hwt). exists ev. split; [|done].
    apply Hev. exists o, eo. split_and!; try done. intros Hc'. apply Hn. by exists eo.
Qed.

(** The events of a move between cells, on the manager after it. *)
Lemma cross_events a4 v_old v_new eid ox oy nx ny :
  aoi_wf a4 -> Forall (cell_ok (config_ a4)) (cells v_old) -> Forall (cell_ok (config_ a4)) (cells v_new) ->
  exists ev1 ev2 ev3,
    leave_events a4 v_old v_new eid = Some ev1 /\ enter_events a4 v_old v_new eid nx ny = Some ev2
    /\ move_events a4 (cells (overlap v_old v_new)) eid ox oy nx ny = Some ev3
    /\ forall K w t, (w, t) ∈ apply_events K (ev1 ++ ev2 ++ ev3) <->
       ((w, t) ∈ K /\ ~ crossed a4 v_old v_new eid w t) \/ crossed a4 v_new v_old eid w t.
Proof.
  intros Hw Hold Hnew.
  destruct (crossing_events a4 v_old v_new eid (fun other =>
    [mkEvent LEAVE other eid 0 0 0 0; mkEvent LEAVE eid other 0 0 0 0]) Hw Hold) as (ev1 & H1 & Hk1 & He1).
  { intros o eo w t _. setoid_rewrite elem_of_cons. setoid_rewrite list_elem_of_singleton. split.
    - intros (ev & [-> | ->] & <- & <-); auto.
    - intros [[= -> ->]|[= -> ->]]; eexists; eauto. }
  destruct (crossing_events a4 v_new v_old eid (fun other =>
    mkEvent ENTER other eid 0 0 nx ny ::
    match entities_ a4 !! other with
    | Some o => [mkEvent ENTER eid other 0 0 (x o) (y o)]
    | None => []
    end) Hw Hnew) as (ev2 & H2 & Hk2 & He2).
  { intros o eo w t ->. setoid_rewrite elem_of_cons. setoid_rewrite list_elem_of_singleton. split.
    - intros (ev & [-> | ->] & <- & <-); auto.
    - intros [[= -> ->]|[= -> ->]]; eexists; eauto. }
  destruct (notify_wf a4 (cells (overlap v_old v_new)) eid (fun other =>
    [mkEvent MOVE other eid ox oy nx ny]) Hw) as (ev3 & H3 & He3).
  { eapply sub_cells_ok; [apply Hold|]. intros p. by rewrite overlap_spec; intros [? _]. }
  exists ev1, ev2, ev3. split_and!; [done|done|done|]. intros K w t.
  rewrite !apply_events_app, apply_moves, apply_enters, apply_leaves, He1, He2; [done|..].
  - intros ev (o & eo & _ & Hev)%Hk1. set_solver.
  - intros ev (o & eo & Ho & Hev)%Hk2. rewrite Ho in Hev. set_solver.
  - intros ev (o & eo & _ & _ & _ & Hev)%He3. set_solver.
Qed.

Lemma crossed_l a v v' eid t : crossed a v v' eid eid t <-> t <> eid /\ near a v t /\ ~ near a v' t.
Proof.
  unfold crossed. split.
  - intros (o & Hne & Hn & Hn' & [[= -> ->]|[= ->]]); tauto.
  - intros (Hne & Hn & Hn'). exists t. auto.
Qed.

Lemma crossed_r a v v' eid w : crossed a v v' eid w eid <-> w <> eid /\ near a v w /\ ~ near a v' w.
Proof.
  unfold crossed. split.
  - intros (o & Hne & Hn & Hn' & [[= ->]|[= -> ->]]); tauto.
  - intros (Hne & Hn & Hn'). exists w. auto.
Qed.

Lemma crossed_other a v v' eid w t : w <> eid -> t <> eid -> ~ crossed a v v' eid w t.
Proof. intros Hw Ht (o & _ & _ & _ & [[= -> ->]|[= -> ->]]); done. Qed.

(** Visibility depends on the cells of the two entities only. *)
Lemma visible_cells a w t :
  visible a w t <-> w <> t /\ exists cw ct, cell_at (config_ a) <$> entities_ a !! w = Some cw
    /\ cell_at (config_ a) <$> entities_ a !! t = Some ct /\ sees (config_ a) cw ct.
Proof.
  unfold visible. split.
  - intros (Hne & ew & et & Hw & Ht & Hs). split; [done|].
    exists (cell_at (config_ a) ew), (cell_at (config_ a) et). by rewrite Hw, Ht.
  - intros (Hne & cw & ct & Hw & Ht & Hs). split; [done|].
    apply fmap_Some in Hw as (ew & Hw & ->). apply fmap_Some in Ht as (et & Ht & ->).
    by exists ew, et.
Qed.

Lemma visible_congr a a' w t :
  config_ a' = config_ a ->
  cell_at (config_ a) <$> entities_ a' !! w = cell_at (config_ a) <$> entities_ a !! w ->
  cell_at (config_ a) <$> entities_ a' !! t = cell_at (config_ a) <$> entities_ a !! t ->
  visible a' w t <-> visible a w t.
Proof. intros Hc Hw Ht. by rewrite !visible_cells, Hc, Hw, Ht. Qed.

Lemma near_congr a a' v o :
  config_ a' = config_ a -> entities_ a' !! o = entities_ a !! o -> near a' v o <-> near a v o.
Proof. intros Hc Ho. unfold near. by rewrite Hc, Ho. Qed.

(** A move from [v_old] to [v_new] whose events are the crossings. *)
Lemma cross_synced a a4 eid e nx ny K K' :
  aoi_wf a -> aoi_wf a4 -> entities_ a !! eid = Some e -> config_ a4 = config_ a ->
  entities_ a4 = <[eid := mkEntity (id e) nx ny (etype e) (user_data e)]> (entities_ a) ->
  let v_old := view_of (config_ a) (cell_at (config_ a) e) in
  let v_new := view_of (config_ a) (cell_of (config_ a) nx ny) in
  (forall w t, (w, t) ∈ K' <->
     ((w, t) ∈ K /\ ~ crossed a4 v_old v_new eid w t) \/ crossed a4 v_new v_old eid w t) ->
  synced a K -> synced a4 K'.
Proof.
  intros Hw Hw4 He Hc4 He4 v_old v_new HK Hs.
  assert (forall o v, o <> eid -> near a4 v o <-> near a v o) as Hnear.
  { intros o v Ho. apply near_congr; [done|]. rewrite He4. by apply lookup_insert_ne. }
  assert (forall o, visible a eid o <-> eid <> o /\ near a v_old o) as Hvo.
  { intros o. by apply (visible_near a eid e). }
  assert (forall o, visible a4 eid o <-> eid <> o /\ near a4 v_new o) as Hvn.
  { intros o. unfold v_new. rewrite <- Hc4. apply (visible_near a4 eid (mkEntity (id e) nx ny (etype e) (user_data e)) o Hw4).
    rewrite He4. apply lookup_insert_eq. }
  assert (forall o, eid <> o -> visible a4 eid o <-> (visible a eid o /\ ~ (near a4 v_old o /\ ~ near a4 v_new o))
    \/ (near a4 v_new o /\ ~ near a4 v_old o)) as Hpair.
  { intros o Ho. rewrite Hvo, Hvn, !Hnear by done.
    destruct (decide (near a v_old o)), (decide (near a v_new o)); tauto. }
  intros w t. rewrite HK, (Hs w t).
  destruct (decide (w = eid)) as [->|Hwe]; [|destruct (decide (t = eid)) as [->|Hte]].
  - rewrite !crossed_l. destruct (decide (eid = t)) as [<-|Hne]; [unfold visible; tauto|].
    rewrite Hpair by done. assert (t <> eid) by done. tauto.
  - rewrite !crossed_r, (visible_sym a w), (visible_sym a4 w), Hpair by done. tauto.
  - assert (visible a4 w t <-> visible a w t) as ->.
    { apply visible_congr; [done|rewrite He4..]; by rewrite lookup_insert_ne by done. }
    pose proof (crossed_other a4 v_old v_new eid w t Hwe Hte).
    pose proof (crossed_other a4 v_new v_old eid w t Hwe Hte). tauto.
Qed.

(** C20: with a callback set, [update_entity] on a known entity succeeds, keeps
    the manager well-formed, moves that entity only, and its events turn every
    client's correct view of who sees whom into the correct one after the move. *)
Theorem update_keeps_views_synced a eid e nx ny :
  aoi_wf a -> has_callback a = true -> entities_ a !! eid = Some e ->
  exists a' evs, update_entity eid nx ny a = Some (true, a', evs) /\ aoi_wf a'
    /\ entities_ a' = <[eid := mkEntity (id e) nx ny (etype e) (user_data e)]> (entities_ a)
    /\ forall known, synced a known -> synced a' (apply_events known evs).
Proof.
  intros Hw Hcb He. pose proof (wf_config a Hw) as Hc. rewrite (update_entity_at a eid e nx ny Hc He), Hcb. cbv zeta.
  case_decide as Heq.
  - symmetry in Heq. pose proof (set_position_wf a eid e nx ny Hw He Heq) as Hw1. rewrite Hcb in Hw1.
    destruct (notify_wf _ [cell_at (config_ a) e] eid (fun other => [mkEvent MOVE other eid (x e) (y e) nx ny]) Hw1)
      as (evs & Hevs & Hin).
    { apply Forall_singleton. by apply pos_cell_ok. }
    unfold move_events. rewrite Hevs. cbn. do 2 eexists. split; [done|]. split; [done|].
    split; [done|]. intros K Hs. rewrite apply_moves.
    2: { intros ev (o & eo & _ & _ & _ & Hev)%Hin. set_solver. }
    assert (forall i, cell_at (config_ a) <$> <[eid := mkEntity (id e) nx ny (etype e) (user_data e)]> (entities_ a) !! i
      = cell_at (config_ a) <$> entities_ a !! i) as Hsame.
    { intros i. rewrite lookup_insert. case_decide; [subst|done]. rewrite He. cbn. by f_equal. }
    intros w t. rewrite (Hs w t). symmetry. by apply visible_congr.
  - destruct (relocate_wf a eid e nx ny Hw He) as (a2 & a3 & H2 & H3 & Hw4 & Hc4 & He4 & Hb4).
    rewrite Hcb in H2. rewrite H2. cbn [mbind option_bind]. rewrite H3. cbn [mbind option_bind].
    set (a4 := set_entity_grid a3 eid _) in *.
    destruct (cross_events a4 (view_of (config_ a) (cell_at (config_ a) e)) (view_of (config_ a) (cell_of (config_ a) nx ny))
      eid (x e) (y e) nx ny Hw4) as (ev1 & ev2 & ev3 & -> & -> & -> & Hk).
    { rewrite Hc4. apply view_cells_ok. }
    { rewrite Hc4. apply view_cells_ok. }
    cbn. do 2 eexists. split; [done|]. split_and!; [done|done|]. intros K Hs.
    by eapply (cross_synced a a4 eid e nx ny K).
Qed.

(** *** The other operations *)

Lemma aoi_init_ok c : config_ok c -> exists a, aoi_init c = Some a /\ aoi_wf a /\ config_ a = c /\ entities_ a = ∅.
Proof.
  intros Hc. destruct (counts_pos c Hc). pose proof (cells_fit c Hc). unfold aoi_init.
  rewrite grid_x_count_ok, grid_y_count_ok by done. cbn [mbind option_bind]. rewrite to_int_ok by nia. cbn [mbind option_bind].
  rewrite (proj2 (Z.ltb_ge _ 0)) by nia. eexists. split; [done|]. split; [|done]. split; cbn; try done.
  - apply length_replicate.
  - intros i k. rewrite lookup_empty. split; [|by intros (? & ? & _)].
    intros (s & Hs & Hi). exfalso. unfold grid_at in Hs. case_match; [|done].
    apply lookup_replicate in Hs as [-> _]. by apply not_elem_of_empty in Hi.
Qed.

Lemma set_callback_wf a : aoi_wf a -> aoi_wf (set_callback a).
Proof. intros [Hc Hl Hi Hk Hm]. by split. Qed.

Lemma add_entity_ok a e : aoi_wf a ->
  exists a' evs, add_entity e a =
      Some (negb (id e =? 0) && bool_decide (entities_ a !! id e = None), a', evs)
    /\ aoi_wf a' /\ has_callback a' = has_callback a /\ config_ a' = config_ a
    /\ entities_ a' = (if negb (id e =? 0) && bool_decide (entities_ a !! id e = None)
                      then <[id e := e]> (entities_ a) else entities_ a).
Proof.
  intros Hw. destruct (id e =? 0) eqn:E; [exists a, []; unfold add_entity; by rewrite E|].
  destruct (entities_ a !! id e) as [e0|] eqn:He; cbn [negb andb].
  { exists a, []. unfold add_entity. rewrite E, He, decide_True by done. by rewrite bool_decide_eq_false_2. }
  breflect. rewrite bool_decide_eq_true_2 by done.
  destruct (add_entity_wf a e Hw E He) as (a2 & H2 & Hw3 & Hc3 & He3 & Hb3).
  rewrite (add_entity_at a e (wf_config a Hw) E He), H2. cbn [mbind option_bind]. cbv zeta.
  set (a3 := set_entity_grid a2 (id e) _) in *.
  assert (forall evs : list AoiEvent, exists a' evs', Some (true, a3, evs) = Some (true, a', evs')
    /\ aoi_wf a' /\ has_callback a' = has_callback a /\ config_ a' = config_ a
    /\ entities_ a' = <[id e := e]> (entities_ a)) as Hdone by (intros evs; by exists a3, evs).
  destruct (has_callback a3); [|apply Hdone].
  destruct (notify_wf a3 (cells (view_of (config_ a) (cell_at (config_ a) e))) (id e)
    (fun other => [mkEvent ENTER other (id e) 0 0 (x e) (y e)]) Hw3) as (evs & -> & _).
  { rewrite Hc3. apply view_cells_ok. }
  apply Hdone.
Qed.

Lemma remove_entity_ok a eid : aoi_wf a ->
  exists a' evs, remove_entity eid a = Some (bool_decide (is_Some (entities_ a !! eid)), a', evs)
    /\ aoi_wf a' /\ has_callback a' = has_callback a /\ config_ a' = config_ a
    /\ entities_ a' = delete eid (entities_ a).
Proof.
  intros Hw. destruct (entities_ a !! eid) as [e|] eqn:He.
  2: { exists a, []. unfold remove_entity. rewrite He,  bool_decide_eq_false_2 by by intros [? ?].
       split_and!; try done. symmetry. by apply delete_id. }
  rewrite bool_decide_eq_true_2 by done.
  destruct (remove_entity_wf a eid e Hw He) as (a1 & Hm & H1 & Hw2 & Hc2 & He2 & Hb2).
  destruct (notify_wf a (cells (view_of (config_ a) (cell_at (config_ a) e))) eid
    (fun other => [mkEvent LEAVE other eid 0 0 0 0]) Hw) as (evs & Hn & _); [apply view_cells_ok|].
  rewrite (remove_entity_at a eid e (wf_config a Hw) He), Hn, Hm, H1. destruct (has_callback a) eqn:Hcb; cbn; do 2 eexists; done.
Qed.

Lemma update_entity_ok a eid nx ny : aoi_wf a ->
  exists a' evs, update_entity eid nx ny a = Some (bool_decide (is_Some (entities_ a !! eid)), a', evs)
    /\ aoi_wf a' /\ has_callback a' = has_callback a /\ config_ a' = config_ a
    /\ entities_ a' = match entities_ a !! eid with
                      | Some e => <[eid := mkEntity (id e) nx ny (etype e) (user_data e)]> (entities_ a)
                      | None => entities_ a
                      end.
Proof.
  intros Hw. destruct (entities_ a !! eid) as [e|] eqn:He.
  2: { exists a, []. unfold update_entity. by rewrite He, bool_decide_eq_false_2 by by intros [? ?]. }
  rewrite bool_decide_eq_true_2 by done. rewrite (update_entity_at a eid e nx ny (wf_config a Hw) He). cbv zeta.
  case_decide as Heq.
  - pose proof (set_position_wf a eid e nx ny Hw He (eq_sym Heq)) as Hw1.
    destruct (notify_wf _ [cell_at (config_ a) e] eid (fun other => [mkEvent MOVE other eid (x e) (y e) nx ny]) Hw1)
      as (evs & Hevs & _).
    { apply Forall_singleton. by apply pos_cell_ok, (wf_config a). }
    unfold move_events. rewrite Hevs. destruct (has_callback a) eqn:Hcb; cbn; do 2 eexists; done.
  - destruct (relocate_wf a eid e nx ny Hw He) as (a2 & a3 & H2 & H3 & Hw4 & Hc4 & He4 & Hb4).
    rewrite H2. cbn [mbind option_bind]. rewrite H3. cbn [mbind option_bind].
    set (a4 := set_entity_grid a3 eid _) in *.
    destruct (cross_events a4 (view_of (config_ a) (cell_at (config_ a) e)) (view_of (config_ a) (cell_of (config_ a) nx ny))
      eid (x e) (y e) nx ny Hw4) as (ev1 & ev2 & ev3 & -> & -> & -> & Hk).
    { rewrite Hc4. apply view_cells_ok. }
    { rewrite Hc4. apply view_cells_ok. }
    destruct (has_callback a) eqn:Hcb; cbn; do 2 eexists; done.
Qed.

(** The three mutating operations, and the managers they lead to. *)
Inductive aoi_op := Add (e : Entity) | Remove (eid : Z) | Update (eid nx ny : Z).

Definition run_op (op : aoi_op) (a : aoi) : option (bool * aoi * list AoiEvent) :=
  match op with
  | Add e => add_entity e a
  | Remove eid => remove_entity eid a
  | Update eid nx ny => update_entity eid nx ny a
  end.

Fixpoint run_ops (ops : list aoi_op) (a : aoi) : option aoi :=
  match ops with
  | [] => Some a
  | op :: rest => '(_, a1, _) ← run_op op a; run_ops rest a1
  end.

Lemma run_op_wf op a : aoi_wf a ->
  exists r a' evs, run_op op a = Some (r, a', evs) /\ aoi_wf a' /\ has_callback a' = has_callback a.
Proof.
  intros Hw. destruct op as [e|eid|eid nx ny]; cbn [run_op].
  - destruct (add_entity_ok a e Hw) as (a' & evs & H & ? & ? & _). eauto 10.
  - destruct (remove_entity_ok a eid Hw) as (a' & evs & H & ? & ? & _). eauto 10.
  - destruct (update_entity_ok a eid nx ny Hw) as (a' & evs & H & ? & ? & _). eauto 10.
Qed.

Lemma run_ops_wf ops a : aoi_wf a ->
  exists a', run_ops ops a = Some a' /\ aoi_wf a' /\ has_callback a' = has_callback a.
Proof.
  revert a. induction ops as [|op ops IH]; intros a Hw; [by exists a|]. cbn [run_ops].
  destruct (run_op_wf op a Hw) as (r & a1 & evs & -> & Hw1 & Hb1). cbn.
  destruct (IH a1 Hw1) as (a' & Hr & Hw' & Hb'). exists a'. by rewrite Hb', Hb1.
Qed.

(** C31: On a map whose counts fit an [int], the constructor and then any sequence of
    operations overflow no [int] and index [grids_] within its bounds, and [entities_],
    [grids_] and [entity_to_grid_] stay consistent. *)
Theorem grid_operations_safe c cb ops :
  config_ok c ->
  exists a0 a, aoi_init c = Some a0 /\ run_ops ops (if cb : bool then set_callback a0 else a0) = Some a /\ aoi_wf a.
Proof.
  intros Hc. destruct (aoi_init_ok c Hc) as (a0 & H0 & Hw0 & _). exists a0.
  destruct (run_ops_wf ops (if cb then set_callback a0 else a0)) as (a & Hr & Hw & _); [|by exists a].
  by destruct cb; [apply set_callback_wf|].
Qed.

(** A map of too many cells: the constructor's product overflows. *)
Theorem oversized_map_overflows c : 0 < grid_size c -> 0 < map_width c -> 0 < map_height c ->
  2 ^ 31 <= x_cells c * y_cells c -> aoi_init c = None.
Proof.
  intros Hg Hw Hh Hn. unfold aoi_init, grid_x_count, grid_y_count.
  destruct (to_int (map_width c + grid_size c)) as [s1|] eqn:E1; [|done]. cbn [mbind option_bind]. apply to_int_inv in E1 as [-> _].
  destruct (to_int (map_width c + grid_size c - 1)) as [s2|] eqn:E2; [|done]. cbn [mbind option_bind]. apply to_int_inv in E2 as [-> _].
  rewrite int_div_ok by done. cbn [mbind option_bind].
  destruct (to_int (map_height c + grid_size c)) as [s3|] eqn:E3; [|done]. cbn [mbind option_bind]. apply to_int_inv in E3 as [-> _].
  destruct (to_int (map_height c + grid_size c - 1)) as [s4|] eqn:E4; [|done]. cbn [mbind option_bind]. apply to_int_inv in E4 as [-> _].
  rewrite int_div_ok by done. cbn [mbind option_bind].
  destruct (to_int _) as [n|] eqn:E; [|done]. apply to_int_inv in E as [-> ?]. unfold x_cells, y_cells in Hn. lia.
Qed.

Lemma oversized_map_overflows_witness : aoi_init (mkConfig 65536 65536 1 1) = None.
Proof. apply (oversized_map_overflows (mkConfig 65536 65536 1 1)); vm_compute; done. Defined.

Definition demo_config : Config := mkConfig 200 100 50 1.

Lemma demo_config_ok : config_ok demo_config.
Proof. split; vm_compute; repeat split; congruence. Qed.

Definition demo_ops : list aoi_op :=
  [Add (mkEntity 1 10 10 PLAYER 0); Add (mkEntity 2 60 60 MONSTER 0); Add (mkEntity 3 (-5) 500 NPC 0);
   Update 1 120 30; Remove 3; Add (mkEntity 0 1 1 ITEM 0)].

Lemma grid_operations_safe_witness :
  exists a0 a, aoi_init demo_config = Some a0 /\ run_ops demo_ops (set_callback a0) = Some a /\ aoi_wf a.
Proof. apply (grid_operations_safe demo_config true demo_ops), demo_config_ok. Defined.

(** A manager with two entities out of each other's range, for the examples. *)
Definition demo_aoi : aoi :=
  default (mkAoi demo_config ∅ [] ∅ true)
    (a0 ← aoi_init demo_config;
     run_ops [Add (mkEntity 1 10 10 PLAYER 0); Add (mkEntity 2 160 60 MONSTER 0)] (set_callback a0)).

Lemma demo_aoi_wf : aoi_wf demo_aoi.
Proof.
  destruct (aoi_init_ok demo_config demo_config_ok) as (a0 & H0 & Hw0 & _). unfold demo_aoi. rewrite H0. cbn [mbind option_bind].
  destruct (run_ops_wf [Add (mkEntity 1 10 10 PLAYER 0); Add (mkEntity 2 160 60 MONSTER 0)] (set_callback a0)) as (a & -> & Hw & _);
    [by apply set_callback_wf|done].
Qed.

Lemma view_query_exact_witness :
  exists p es, pos_to_grid (config_ demo_aoi) 110 60 = Some p /\ get_entities_in_view_locked 110 60 demo_aoi = Some es /\ NoDup es /\
    forall e, e ∈ es <-> entities_ demo_aoi !! id e = Some e
      /\ exists q, pos_to_grid (config_ demo_aoi) (x e) (y e) = Some q /\ sees (config_ demo_aoi) p q.
Proof. apply (view_query_exact demo_aoi 110 60), demo_aoi_wf. Defined.

Lemma update_keeps_views_synced_witness :
  exists a' evs, update_entity 1 120 30 demo_aoi = Some (true, a', evs) /\ aoi_wf a'
    /\ entities_ a' = <[1 := mkEntity 1 120 30 PLAYER 0]> (entities_ demo_aoi)
    /\ forall known, synced demo_aoi known -> synced a' (apply_events known evs).
Proof.
  apply (update_keeps_views_synced demo_aoi 1 (mkEntity 1 10 10 PLAYER 0) 120 30 demo_aoi_wf);
    vm_compute; reflexivity.
Defined.

End GridAoi.
