(* ===== verification/CrossList.v ===== *)
(** * CrossList: the cross-linked-list manager of src/aoi/aoi.cpp

    [CrossListAoi] keeps every node on two doubly linked lists, sorted by x and
    by y.  Nodes live in [nodes_] (one [unique_ptr] per entity id), so a [Node*]
    is the id of its entity; a pointer that is not in the map is dangling and
    reading it is [None], as is an [int] expression that overflows.  The two lists' functions differ in the fields they
    name only; [axis] selects the fields.  [dll] says what a correct pair of
    link fields looks like, and the theorems show every operation keeps it. *)

From stdpp Require Import sorting.
From S2P Require Import Prelude.
From S2P Require Import Aoi.

Record Config := mkConfig { map_width : Z; map_height : Z; view_range : Z }.

Record Node := mkNode {
  entity : Entity;
  prev_x : option Z;
  next_x : option Z;
  prev_y : option Z;
  next_y : option Z
}.

Record cross := mkCross {
  config_ : Config;
  nodes_ : gmap Z Node;
  head_x_ : option Z;
  head_y_ : option Z
}.

Definition cross_init (c : Config) : cross := mkCross c ∅ None None.

Inductive axis := AX | AY.

(** The fields an axis selects. *)
Definition coord (ax : axis) (e : Entity) : Z := match ax with AX => x e | AY => y e end.
Definition prev (ax : axis) (n : Node) : option Z := match ax with AX => prev_x n | AY => prev_y n end.
Definition next (ax : axis) (n : Node) : option Z := match ax with AX => next_x n | AY => next_y n end.
Definition head (ax : axis) (s : cross) : option Z := match ax with AX => head_x_ s | AY => head_y_ s end.

Definition with_prev (ax : axis) (p : option Z) (n : Node) : Node :=
  match ax with
  | AX => mkNode (entity n) p (next_x n) (prev_y n) (next_y n)
  | AY => mkNode (entity n) (prev_x n) (next_x n) p (next_y n)
  end.

Definition with_next (ax : axis) (p : option Z) (n : Node) : Node :=
  match ax with
  | AX => mkNode (entity n) (prev_x n) p (prev_y n) (next_y n)
  | AY => mkNode (entity n) (prev_x n) (next_x n) (prev_y n) p
  end.

Definition set_head (ax : axis) (p : option Z) (s : cross) : cross :=
  match ax with
  | AX => mkCross (config_ s) (nodes_ s) p (head_y_ s)
  | AY => mkCross (config_ s) (nodes_ s) (head_x_ s) p
  end.

Definition set_node (p : Z) (n : Node) (s : cross) : cross :=
  mkCross (config_ s) (<[p := n]> (nodes_ s)) (head_x_ s) (head_y_ s).

(** [ptr->field = v]. *)
Definition update_node (p : Z) (f : Node -> Node) (s : cross) : option cross :=
  n ← nodes_ s !! p; Some (set_node p (f n) s).

(** [while (curr && curr->entity.x < node->entity.x) { prev = curr; curr = curr->next_x; }] *)
Fixpoint walk (ax : axis) (fuel : nat) (s : cross) (key : Z) (prv curr : option Z)
  : option (option Z * option Z) :=
  match fuel with
  | O => None
  | S fuel' =>
      match curr with
      | None => Some (prv, None)
      | Some c =>
          n ← nodes_ s !! c;
          if coord ax (entity n) <? key then walk ax fuel' s key (Some c) (next ax n)
          else Some (prv, Some c)
      end
  end.

(** [insert_to_x_list] and [insert_to_y_list]. *)
Definition insert_to_list (ax : axis) (p : Z) (s : cross) : option cross :=
  match head ax s with
  | None => Some (set_head ax (Some p) s)
  | Some _ =>
      node ← nodes_ s !! p;
      '(prv, curr) ← walk ax (S (size (nodes_ s))) s (coord ax (entity node)) None (head ax s);
      s1 ← update_node p (fun n => with_next ax curr (with_prev ax prv n)) s;
      s2 ← match prv with
           | Some q => update_node q (with_next ax (Some p)) s1
           | None => Some (set_head ax (Some p) s1)
           end;
      match curr with
      | Some c => update_node c (with_prev ax (Some p)) s2
      | None => Some s2
      end
  end.

Definition insert_to_x_list : Z -> cross -> option cross := insert_to_list AX.
Definition insert_to_y_list : Z -> cross -> option cross := insert_to_list AY.

(** One half of [remove_from_lists]. *)
Definition unlink (ax : axis) (p : Z) (s : cross) : option cross :=
  node ← nodes_ s !! p;
  s1 ← match prev ax node with
       | Some q => update_node q (with_next ax (next ax node)) s
       | None => Some (set_head ax (next ax node) s)
       end;
  match next ax node with
  | Some c => update_node c (with_prev ax (prev ax node)) s1
  | None => Some s1
  end.

Definition remove_from_lists (p : Z) (s : cross) : option cross :=
  s1 ← unlink AX p s; unlink AY p s1.

Definition add_entity (e : Entity) (s : cross) : option (bool * cross) :=
  if id e =? 0 then Some (false, s)
  else if decide (is_Some (nodes_ s !! id e)) then Some (false, s)
  else
    let s0 := set_node (id e) (mkNode e None None None None) s in
    s1 ← insert_to_x_list (id e) s0;
    s2 ← insert_to_y_list (id e) s1;
    Some (true, s2).

Definition remove_entity (eid : Z) (s : cross) : option (bool * cross) :=
  match nodes_ s !! eid with
  | None => Some (false, s)
  | Some _ =>
      s1 ← remove_from_lists eid s;
      Some (true, mkCross (config_ s1) (delete eid (nodes_ s1)) (head_x_ s1) (head_y_ s1))
  end.

Definition move_to (nx ny : Z) (n : Node) : Node :=
  mkNode (mkEntity (id (entity n)) nx ny (etype (entity n)) (user_data (entity n)))
    (prev_x n) (next_x n) (prev_y n) (next_y n).

Definition update_entity (eid nx ny : Z) (s : cross) : option (bool * cross) :=
  match nodes_ s !! eid with
  | None => Some (false, s)
  | Some _ =>
      s1 ← remove_from_lists eid s;
      s2 ← update_node eid (move_to nx ny) s1;
      s3 ← insert_to_x_list eid s2;
      s4 ← insert_to_y_list eid s3;
      Some (true, s4)
  end.

(** The loop of [get_entities_in_view(x, y)] over the x list, with its [break]. *)
Fixpoint scan (fuel : nat) (s : cross) (min_x max_x min_y max_y : Z) (curr : option Z)
  : option (list Entity) :=
  match fuel with
  | O => None
  | S fuel' =>
      match curr with
      | None => Some []
      | Some c =>
          n ← nodes_ s !! c;
          let e := entity n in
          if max_x <? x e then Some []
          else
            rest ← scan fuel' s min_x max_x min_y max_y (next_x n);
            Some (if (min_x <=? x e) && (min_y <=? y e) && (y e <=? max_y) then e :: rest else rest)
      end
  end.

Definition get_entities_in_view_at (px py : Z) (s : cross) : option (list Entity) :=
  min_x ← to_int (px - view_range (config_ s));
  max_x ← to_int (px + view_range (config_ s));
  min_y ← to_int (py - view_range (config_ s));
  max_y ← to_int (py + view_range (config_ s));
  scan (S (size (nodes_ s))) s min_x max_x min_y max_y (head_x_ s).

Definition get_entities_in_view (watcher : Z) (s : cross) : option (list Entity) :=
  match nodes_ s !! watcher with
  | None => Some []
  | Some n => get_entities_in_view_at (x (entity n)) (y (entity n)) s
  end.

Definition total_entities (s : cross) : nat := size (nodes_ s).

(** ** Doubly linked lists *)

(** The two link fields of a node, on one axis. *)
Definition lnk (ax : axis) (s : cross) (p : Z) : option (option Z * option Z) :=
  (fun n => (prev ax n, next ax n)) <$> nodes_ s !! p.

(** The first element of [l ++ nx...], the last of [...pr ++ l]. *)
Definition first (l : list Z) (nx : option Z) : option Z :=
  match l with [] => nx | p :: _ => Some p end.

Fixpoint lastp (pr : option Z) (l : list Z) : option Z :=
  match l with [] => pr | p :: l' => lastp (Some p) l' end.

(** The links of [l], between a node [pr] before and a node [nx] after. *)
Fixpoint seg (ax : axis) (s : cross) (pr : option Z) (l : list Z) (nx : option Z) : Prop :=
  match l with
  | [] => True
  | p :: l' => lnk ax s p = Some (pr, first l' nx) /\ seg ax s (Some p) l' nx
  end.

(** The list [l] is what [head_] and the link fields of the axis spell. *)
Definition dll (ax : axis) (s : cross) (l : list Z) : Prop :=
  NoDup l /\ head ax s = first l None /\ seg ax s None l None.

Definition node_coord (ax : axis) (s : cross) (p : Z) : option Z :=
  (fun n => coord ax (entity n)) <$> nodes_ s !! p.

(** Sorted by the coordinate. *)
Definition coord_le (ax : axis) (s : cross) (p q : Z) : Prop :=
  default 0 (node_coord ax s p) <= default 0 (node_coord ax s q).

Definition sorted_by (ax : axis) (s : cross) (l : list Z) : Prop := StronglySorted (coord_le ax s) l.

(** *** Segments *)

Lemma seg_app ax s pr l1 l2 nx :
  seg ax s pr (l1 ++ l2) nx <-> seg ax s pr l1 (first l2 nx) /\ seg ax s (lastp pr l1) l2 nx.
Proof.
  revert pr. induction l1 as [|p l1 IH]; intros pr; cbn [app seg lastp]; [tauto|].
  rewrite IH. assert (first (l1 ++ l2) nx = first l1 (first l2 nx)) as -> by by destruct l1. tauto.
Qed.

Lemma lastp_app pr l1 l2 : lastp pr (l1 ++ l2) = lastp (lastp pr l1) l2.
Proof. revert pr. induction l1 as [|p l1 IH]; intros pr; [done|]. apply IH. Qed.

Lemma seg_congr ax s s' pr l nx :
  (forall q, q ∈ l -> lnk ax s' q = lnk ax s q) -> seg ax s pr l nx -> seg ax s' pr l nx.
Proof.
  revert pr. induction l as [|p l IH]; intros pr Hl; [done|]. cbn. intros [Hp Hs]. split.
  - rewrite Hl by left. done.
  - apply IH; [|done]. intros q Hq. apply Hl. by right.
Qed.

Lemma seg_alive ax s pr l nx p : seg ax s pr l nx -> p ∈ l -> is_Some (nodes_ s !! p).
Proof.
  revert pr. induction l as [|q l IH]; intros pr; [by intros _ ?%not_elem_of_nil|]. cbn.
  intros [Hq Hs] [->|Hp]%elem_of_cons; [|by eapply IH].
  unfold lnk in Hq. destruct (nodes_ s !! q); done.
Qed.

(** Redirecting the link that leaves a segment, and the one that enters it. *)
Lemma seg_change_next ax s s' l q pr nx v :
  seg ax s pr (l ++ [q]) nx -> NoDup (l ++ [q]) ->
  (forall r, r ∈ l -> lnk ax s' r = lnk ax s r) ->
  lnk ax s' q = (fun '(a, _) => (a, v)) <$> lnk ax s q ->
  seg ax s' pr (l ++ [q]) v.
Proof.
  rewrite !seg_app. cbn [first]. intros [Hl Hq] Hn Hr Hv. split.
  - by eapply seg_congr.
  - cbn in *. destruct Hq as [Hq _]. rewrite Hv, Hq. done.
Qed.

Lemma seg_change_prev ax s s' l q pr nx v :
  seg ax s pr (q :: l) nx ->
  (forall r, r ∈ l -> lnk ax s' r = lnk ax s r) ->
  lnk ax s' q = (fun '(_, b) => (v, b)) <$> lnk ax s q ->
  seg ax s' v (q :: l) nx.
Proof.
  cbn. intros [Hq Hl] Hr Hv. split; [by rewrite Hv, Hq|]. by eapply seg_congr.
Qed.

(** *** Frames: what the functions of one axis leave alone *)

Definition other (ax : axis) : axis := match ax with AX => AY | AY => AX end.

(** The entities, and the links of the other axis. *)
Definition core (ax : axis) (s : cross) (p : Z) : option (Entity * (option Z * option Z)) :=
  (fun n => (entity n, (prev (other ax) n, next (other ax) n))) <$> nodes_ s !! p.

Definition frame (ax : axis) (s s' : cross) : Prop :=
  config_ s' = config_ s /\ head (other ax) s' = head (other ax) s
  /\ forall p, core ax s' p = core ax s p.

#[export] Instance frame_preorder ax : PreOrder (frame ax).
Proof.
  split; [done|]. intros s1 s2 s3 (Hc & Hh & Hp) (Hc' & Hh' & Hp').
  split_and!; [congruence..|]. intros p. by rewrite Hp'.
Qed.

Lemma core_entity ax s s' p :
  core ax s' p = core ax s p -> entity <$> nodes_ s' !! p = entity <$> nodes_ s !! p.
Proof.
  unfold core. destruct (nodes_ s' !! p), (nodes_ s !! p); cbn; intros H; simplify_eq; congruence.
Qed.

Lemma frame_entity ax s s' p : frame ax s s' -> entity <$> nodes_ s' !! p = entity <$> nodes_ s !! p.
Proof. intros (_ & _ & H). by eapply core_entity. Qed.

Lemma frame_coord ax s s' ax' p : frame ax s s' -> node_coord ax' s' p = node_coord ax' s p.
Proof.
  intros Hf. pose proof (frame_entity _ _ _ p Hf) as H. unfold node_coord.
  destruct (nodes_ s' !! p), (nodes_ s !! p); cbn in *; simplify_eq; congruence.
Qed.

Lemma frame_alive ax s s' p : frame ax s s' -> is_Some (nodes_ s' !! p) <-> is_Some (nodes_ s !! p).
Proof.
  intros Hf. pose proof (frame_entity _ _ _ p Hf) as H.
  rewrite <- (fmap_is_Some entity (nodes_ s' !! p)), H. apply fmap_is_Some.
Qed.

Lemma frame_lnk ax s s' p : frame ax s s' -> lnk (other ax) s' p = lnk (other ax) s p.
Proof.
  intros (_ & _ & H). specialize (H p). unfold core, lnk in *.
  destruct (nodes_ s' !! p), (nodes_ s !! p); cbn in *; simplify_eq; congruence.
Qed.

Lemma frame_dll ax s s' l : frame ax s s' -> dll (other ax) s l -> dll (other ax) s' l.
Proof.
  intros Hf (Hn & Hh & Hs). split_and!; [done| |].
  - destruct Hf as (_ & -> & _). done.
  - eapply seg_congr; [|done]. intros q _. by eapply frame_lnk.
Qed.

Lemma sorted_congr ax s s' l :
  (forall p, p ∈ l -> node_coord ax s' p = node_coord ax s p) -> sorted_by ax s l -> sorted_by ax s' l.
Proof.
  intros Hp Hs. unfold sorted_by in *. induction Hs as [|p l Hs IH Hf]; constructor.
  - apply IH. intros q Hq. apply Hp. by right.
  - apply Forall_forall. intros q Hq. eapply Forall_forall in Hf; [|done].
    unfold coord_le. rewrite !Hp by set_solver. done.
Qed.

Lemma frame_sorted ax s s' ax' l : frame ax s s' -> sorted_by ax' s l -> sorted_by ax' s' l.
Proof. intros Hf. apply sorted_congr. intros p _. by eapply frame_coord. Qed.

(** *** The writes *)

Lemma set_head_frame ax p s : frame ax s (set_head ax p s).
Proof. by destruct ax. Qed.

Lemma set_head_lnk ax p s q : lnk ax (set_head ax p s) q = lnk ax s q.
Proof. by destruct ax. Qed.

Lemma set_head_head ax p s : head ax (set_head ax p s) = p.
Proof. by destruct ax. Qed.

(** A write to link fields of the axis. *)
Lemma update_links ax q f g s :
  is_Some (nodes_ s !! q) ->
  (forall n, entity (f n) = entity n /\ prev (other ax) (f n) = prev (other ax) n
     /\ next (other ax) (f n) = next (other ax) n) ->
  (forall n, (prev ax (f n), next ax (f n)) = g (prev ax n, next ax n)) ->
  exists s', update_node q f s = Some s' /\ frame ax s s' /\ head ax s' = head ax s
    /\ forall r, lnk ax s' r = if decide (r = q) then g <$> lnk ax s r else lnk ax s r.
Proof.
  intros [n Hn] Hf Hg. unfold update_node. rewrite Hn. cbn. eexists. split; [done|]. split_and!.
  - split_and!; [done|by destruct ax|]. intros p. unfold core. cbn. rewrite lookup_insert.
    case_decide; [subst|done]. rewrite Hn. cbn. by destruct (Hf n) as (-> & -> & ->).
  - by destruct ax.
  - intros r. unfold lnk. cbn. rewrite lookup_insert. case_decide as Hd; [subst r|].
    + rewrite decide_True by done. rewrite Hn. cbn. by rewrite Hg.
    + rewrite decide_False by done. done.
Qed.

Lemma update_next ax q v s : is_Some (nodes_ s !! q) ->
  exists s', update_node q (with_next ax v) s = Some s' /\ frame ax s s' /\ head ax s' = head ax s
    /\ forall r, lnk ax s' r = if decide (r = q) then (fun '(a, _) => (a, v)) <$> lnk ax s r else lnk ax s r.
Proof. intros Hq. apply update_links; [done|by destruct ax|by destruct ax]. Qed.

Lemma update_prev ax q v s : is_Some (nodes_ s !! q) ->
  exists s', update_node q (with_prev ax v) s = Some s' /\ frame ax s s' /\ head ax s' = head ax s
    /\ forall r, lnk ax s' r = if decide (r = q) then (fun '(_, b) => (v, b)) <$> lnk ax s r else lnk ax s r.
Proof. intros Hq. apply update_links; [done|by destruct ax|by destruct ax]. Qed.

Lemma update_both ax q u v s : is_Some (nodes_ s !! q) ->
  exists s', update_node q (fun n => with_next ax v (with_prev ax u n)) s = Some s' /\ frame ax s s'
    /\ head ax s' = head ax s
    /\ forall r, lnk ax s' r = if decide (r = q) then (fun _ => (u, v)) <$> lnk ax s r else lnk ax s r.
Proof. intros Hq. apply update_links; [done|by destruct ax|by destruct ax]. Qed.

(** *** Linking and unlinking *)

(** Pointing the node before a position (or the head) at [v]. *)
Lemma link_left ax s l1 nx v :
  seg ax s None l1 nx -> NoDup l1 ->
  exists s', match lastp None l1 with
             | Some q => update_node q (with_next ax v) s
             | None => Some (set_head ax v s)
             end = Some s'
    /\ frame ax s s' /\ seg ax s' None l1 v /\ (forall r, r ∉ l1 -> lnk ax s' r = lnk ax s r)
    /\ head ax s' = match l1 with [] => v | _ => head ax s end.
Proof.
  intros Hs Hn. destruct l1 as [|q l1 _] using rev_ind.
  { cbn. exists (set_head ax v s). split_and!; [done|apply set_head_frame|done| |apply set_head_head].
    intros r _. apply set_head_lnk. }
  rewrite lastp_app. cbn [lastp].
  destruct (update_next ax q v s) as (s' & Hu & Hf & Hh & Hl); [eapply seg_alive; [done|set_solver]|].
  exists s'. split_and!; [done|done| | |].
  - eapply seg_change_next; [done|done| |by rewrite Hl, decide_True].
    intros r Hr. rewrite Hl, decide_False; [done|]. intros ->.
    apply NoDup_app in Hn as (_ & Hd & _). apply (Hd q); set_solver.
  - intros r Hr. rewrite Hl, decide_False by set_solver. done.
  - rewrite Hh. by destruct l1.
Qed.

(** Pointing the node after a position back at [u]. *)
Lemma link_right ax s l2 pr u :
  seg ax s pr l2 None -> NoDup l2 ->
  exists s', match first l2 None with
             | Some c => update_node c (with_prev ax u) s
             | None => Some s
             end = Some s'
    /\ frame ax s s' /\ seg ax s' u l2 None /\ (forall r, r ∉ l2 -> lnk ax s' r = lnk ax s r)
    /\ head ax s' = head ax s.
Proof.
  intros Hs Hn. destruct l2 as [|c l2]; [by exists s|]. cbn [first].
  destruct (update_prev ax c u s) as (s' & Hu & Hf & Hh & Hl); [eapply seg_alive; [done|set_solver]|].
  exists s'. split_and!; [done|done| | |done].
  - eapply seg_change_prev; [done| |by rewrite Hl, decide_True].
    intros r Hr. rewrite Hl, decide_False; [done|]. intros ->. by apply NoDup_cons in Hn as [? _].
  - intros r Hr. rewrite Hl, decide_False by set_solver. done.
Qed.

(** The search stops between the smaller coordinates and the others. *)
Lemma walk_spec ax fuel s key pr l :
  seg ax s pr l None -> (length l < fuel)%nat ->
  exists l1 l2, l = l1 ++ l2
    /\ walk ax fuel s key pr (first l None) = Some (lastp pr l1, first l2 None)
    /\ Forall (fun q => default 0 (node_coord ax s q) < key) l1
    /\ (forall q, first l2 None = Some q -> key <= default 0 (node_coord ax s q)).
Proof.
  revert pr fuel. induction l as [|p l IH]; intros pr fuel Hs Hl.
  { exists [], []. destruct fuel as [|fuel]; [cbn in Hl; lia|]. split_and!; try done. }
  destruct fuel as [|fuel]; [cbn in Hl; lia|]. cbn in Hs. destruct Hs as [Hp Hs]. cbn.
  assert (exists n, nodes_ s !! p = Some n /\ next ax n = first l None
    /\ default 0 (node_coord ax s p) = coord ax (entity n)) as (n & Hn & Hnx & Hco).
  { unfold lnk, node_coord in *. destruct (nodes_ s !! p) as [n|]; [|done]. exists n.
    cbn in Hp. by injection Hp as _ ->. }
  rewrite Hn. cbn. case_test.
  - destruct (IH (Some p) fuel Hs) as (l1 & l2 & -> & Hw & Hlt & Hge); [cbn in Hl; lia|].
    exists (p :: l1), l2. rewrite Hnx. split_and!; [done|done| |done].
    constructor; [by rewrite Hco|done].
  - exists [], (p :: l). split_and!; [done|done|done|]. cbn. intros q [= <-]. by rewrite Hco.
Qed.

Lemma length_alive s l : NoDup l -> (forall p, p ∈ l -> is_Some (nodes_ s !! p)) ->
  (length l <= size (nodes_ s))%nat.
Proof.
  intros Hn Hl. rewrite <- (size_list_to_set (C := gset Z) l) by done. rewrite <- size_dom.
  apply subseteq_size. intros p. rewrite elem_of_list_to_set, elem_of_dom. apply Hl.
Qed.

(** [insert_to_list] on a correct list. *)
Lemma insert_spec ax s l p :
  dll ax s l -> p ∉ l -> is_Some (nodes_ s !! p) -> (l = [] -> lnk ax s p = Some (None, None)) ->
  exists s' l1 l2, insert_to_list ax p s = Some s' /\ frame ax s s' /\ l = l1 ++ l2
    /\ dll ax s' (l1 ++ p :: l2)
    /\ Forall (fun q => default 0 (node_coord ax s q) < default 0 (node_coord ax s p)) l1
    /\ (forall q, first l2 None = Some q -> default 0 (node_coord ax s p) <= default 0 (node_coord ax s q)).
Proof.
  intros (Hn & Hh & Hs) Hp Halive Hempty. unfold insert_to_list. rewrite Hh.
  destruct l as [|p0 l0] eqn:El; cbn [first].
  { exists (set_head ax (Some p) s), [], []. split_and!; try done; [by apply set_head_frame|].
    split_and!; [apply NoDup_singleton|apply set_head_head|]. cbn. rewrite set_head_lnk. auto. }
  change (Some p0) with (first (p0 :: l0) None). rewrite <- El in *. clear p0 l0 El Hempty.
  destruct Halive as [node Hnode]. rewrite Hnode. cbn [mbind option_bind].
  destruct (walk_spec ax (S (size (nodes_ s))) s (coord ax (entity node)) None l Hs)
    as (l1 & l2 & -> & Hw & Hlt & Hge).
  { apply le_n_S, length_alive; [done|]. intros q Hq. by eapply seg_alive. }
  rewrite Hw. cbn [mbind option_bind].
  assert (default 0 (node_coord ax s p) = coord ax (entity node)) as Hco
    by (unfold node_coord; by rewrite Hnode).
  apply seg_app in Hs as [Hs1 Hs2]. apply NoDup_app in Hn as (Hn1 & Hd & Hn2).
  destruct (update_both ax p (lastp None l1) (first l2 None) s) as (s1 & -> & Hf1 & Hh1 & Hl1); [done|].
  cbn [mbind option_bind].
  destruct (link_left ax s1 l1 (first l2 None) (Some p)) as (s2 & -> & Hf2 & Hseg2 & Hl2 & Hh2).
  { eapply seg_congr; [|done]. intros q Hq. rewrite Hl1, decide_False; [done|set_solver]. }
  { done. }
  cbn [mbind option_bind].
  destruct (link_right ax s2 l2 (lastp None l1) (Some p)) as (s3 & Hr3 & Hf3 & Hseg3 & Hl3 & Hh3).
  { eapply seg_congr; [|done]. intros q Hq. rewrite Hl2 by set_solver.
    rewrite Hl1, decide_False; [done|set_solver]. }
  { done. }
  exists s3, l1, l2. rewrite Hr3, Hco. split_and!; try done.
  { by rewrite Hf1, Hf2. }
  split_and!.
  - apply NoDup_app. split_and!; [done| |apply NoDup_cons; set_solver]. set_solver.
  - rewrite Hh3, Hh2, Hh1, Hh. by destruct l1.
  - apply seg_app. cbn [first seg]. split_and!; [| |done].
    + eapply seg_congr; [|done]. intros q Hq. apply Hl3. set_solver.
    + rewrite Hl3, Hl2 by set_solver. rewrite Hl1, decide_True by done. unfold lnk. by rewrite Hnode.
Qed.

(** [unlink] takes one element out. *)
Lemma unlink_spec ax s l1 p l2 :
  dll ax s (l1 ++ p :: l2) ->
  exists s', unlink ax p s = Some s' /\ frame ax s s' /\ dll ax s' (l1 ++ l2)
    /\ lnk ax s' p = Some (lastp None l1, first l2 None).
Proof.
  intros (Hn & Hh & Hs). apply seg_app in Hs as [Hs1 [Hp Hs2]]. fold seg in Hs2. cbn [first] in Hs1.
  apply NoDup_app in Hn as (Hn1 & Hd & [Hp2 Hn2]%NoDup_cons).
  assert (exists node, nodes_ s !! p = Some node /\ prev ax node = lastp None l1
    /\ next ax node = first l2 None) as (node & Hnode & Hpr & Hnx).
  { unfold lnk in Hp. destruct (nodes_ s !! p) as [node|]; [|done]. exists node. cbn in Hp.
    by injection Hp as -> ->. }
  unfold unlink. rewrite Hnode. cbn [mbind option_bind]. rewrite Hpr, Hnx.
  destruct (link_left ax s l1 (Some p) (first l2 None) Hs1 Hn1) as (s1 & -> & Hf1 & Hseg1 & Hl1 & Hh1).
  cbn [mbind option_bind].
  destruct (link_right ax s1 l2 (Some p) (lastp None l1)) as (s2 & -> & Hf2 & Hseg2 & Hl2 & Hh2).
  { eapply seg_congr; [|done]. intros q Hq. apply Hl1. set_solver. }
  { done. }
  exists s2. split_and!; [done|by rewrite Hf1| |].
  - split_and!.
    + apply NoDup_app. split_and!; set_solver.
    + rewrite Hh2, Hh1, Hh. destruct l1; [|done]. by destruct l2.
    + apply seg_app. split; [|done]. eapply seg_congr; [|done]. intros q Hq. apply Hl2. set_solver.
  - rewrite Hl2, Hl1 by set_solver. done.
Qed.

(** ** The invariant *)

(** The list of one axis is correct, sorted, and holds the nodes of [P]. *)
Definition axis_ok (ax : axis) (s : cross) (P : Z -> Prop) : Prop :=
  exists l, dll ax s l /\ sorted_by ax s l /\ forall q, q ∈ l <-> P q.

Definition alive (s : cross) (p : Z) : Prop := is_Some (nodes_ s !! p).

Definition keys_ok (s : cross) : Prop := forall p n, nodes_ s !! p = Some n -> id (entity n) = p.

Definition cross_wf (s : cross) : Prop := (forall ax, axis_ok ax s (alive s)) /\ keys_ok s.

Lemma axis_congr ax s s' P :
  (forall p, P p -> lnk ax s' p = lnk ax s p /\ node_coord ax s' p = node_coord ax s p) ->
  head ax s' = head ax s -> axis_ok ax s P -> axis_ok ax s' P.
Proof.
  intros Hp Hh (l & (Hn & Hhd & Hs) & Hso & Hl). exists l. split_and!; [| |done].
  - split_and!; [done|congruence|]. eapply seg_congr; [|done]. intros q Hq. by apply Hp, Hl.
  - eapply sorted_congr; [|done]. intros q Hq. by apply Hp, Hl.
Qed.

Lemma axis_same ax s P Q : (forall q, P q <-> Q q) -> axis_ok ax s P -> axis_ok ax s Q.
Proof. intros H (l & ? & ? & Hl). exists l. split_and!; [done|done|]. intros q. by rewrite Hl. Qed.

Lemma frame_axis ax s s' P : frame ax s s' -> axis_ok (other ax) s P -> axis_ok (other ax) s' P.
Proof.
  intros Hf. apply axis_congr; [|by destruct Hf as (_ & ? & _)].
  intros p _. split; [by apply frame_lnk|by eapply frame_coord].
Qed.

Lemma frame_keys ax s s' : frame ax s s' -> keys_ok s -> keys_ok s'.
Proof.
  intros Hf Hk p n Hn. pose proof (frame_entity _ _ _ p Hf) as H. rewrite Hn in H.
  destruct (nodes_ s !! p) as [m|] eqn:E; [|done]. cbn in H. injection H as ->. by apply Hk.
Qed.

(** Inserting at the place the walk finds keeps the list sorted. *)
Lemma sorted_insert ax s l1 p l2 :
  sorted_by ax s (l1 ++ l2) ->
  Forall (fun q => default 0 (node_coord ax s q) < default 0 (node_coord ax s p)) l1 ->
  (forall q, first l2 None = Some q -> default 0 (node_coord ax s p) <= default 0 (node_coord ax s q)) ->
  sorted_by ax s (l1 ++ p :: l2).
Proof.
  intros (H12 & H1 & H2)%StronglySorted_app Hlt Hge.
  rewrite Forall_forall in Hlt.
  assert (forall q, q ∈ l2 -> coord_le ax s p q) as Hp2.
  { intros q Hq. destruct l2 as [|c l2]; [by apply not_elem_of_nil in Hq|].
    specialize (Hge c eq_refl). inversion H2 as [|? ? _ Hc]; subst.
    apply elem_of_cons in Hq as [->|Hq]; [done|]. eapply Forall_forall in Hc; [|done].
    unfold coord_le in *. lia. }
  apply StronglySorted_app. split_and!; [|done|constructor; [done|by apply Forall_forall]].
  intros a b Ha [->|Hb]%elem_of_cons; [|by apply H12].
  specialize (Hlt a Ha). unfold coord_le. lia.
Qed.

Lemma insert_ok ax s P p :
  axis_ok ax s P -> ~ P p -> alive s p -> ((forall q, ~ P q) -> lnk ax s p = Some (None, None)) ->
  exists s', insert_to_list ax p s = Some s' /\ frame ax s s' /\ axis_ok ax s' (fun q => q = p \/ P q).
Proof.
  intros (l & Hd & Hso & Hl) Hp Ha He.
  destruct (insert_spec ax s l p Hd) as (s' & l1 & l2 & Hi & Hf & -> & Hd' & Hlt & Hge); [by rewrite Hl|done| |].
  { intros ->. apply He. intros q Hq. by apply Hl, not_elem_of_nil in Hq. }
  exists s'. split_and!; [done|done|]. exists (l1 ++ p :: l2). split_and!; [done| |].
  - eapply frame_sorted; [done|]. by apply sorted_insert.
  - intros q. rewrite <- Hl. set_solver.
Qed.

Lemma unlink_ok ax s P p :
  axis_ok ax s P -> P p ->
  exists s', unlink ax p s = Some s' /\ frame ax s s' /\ axis_ok ax s' (fun q => P q /\ q <> p)
    /\ ((forall q, ~ (P q /\ q <> p)) -> lnk ax s' p = Some (None, None)).
Proof.
  intros (l & Hd & Hso & Hl) Hp.
  destruct (list_elem_of_split l p) as (l1 & l2 & ->); [by apply Hl|].
  destruct (unlink_spec ax s l1 p l2 Hd) as (s' & Hu & Hf & Hd' & Hk).
  destruct Hd as (Hn & _ & _). apply NoDup_app in Hn as (Hn1 & Hdj & [Hp2 Hn2]%NoDup_cons).
  assert (forall q, q ∈ l1 ++ l2 <-> P q /\ q <> p) as Hq.
  { intros q. rewrite <- Hl. split; [|set_solver]. intros [Hq|Hq]%elem_of_app; split; try set_solver. }
  exists s'. split_and!; [done|done| |].
  - exists (l1 ++ l2). split_and!; [done| |done]. eapply frame_sorted; [done|].
    apply StronglySorted_app in Hso as (H12 & H1 & H2). inversion H2; subst.
    apply StronglySorted_app. split_and!; [|done|done]. intros a b ? ?. apply H12; set_solver.
  - intros Hno. rewrite Hk. destruct l1 as [|a l1]; [destruct l2 as [|a l2]; [done|]|];
      exfalso; apply (Hno a), Hq; set_solver.
Qed.

(** Both lists at once. *)
Lemma remove_from_lists_ok s p : cross_wf s -> alive s p ->
  exists s', remove_from_lists p s = Some s' /\ config_ s' = config_ s /\ keys_ok s'
    /\ (forall q, entity <$> nodes_ s' !! q = entity <$> nodes_ s !! q)
    /\ forall ax, axis_ok ax s' (fun q => alive s q /\ q <> p)
       /\ ((forall q, ~ (alive s q /\ q <> p)) -> lnk ax s' p = Some (None, None)).
Proof.
  intros [Hax Hk] Hp. unfold remove_from_lists.
  destruct (unlink_ok AX s (alive s) p (Hax AX) Hp) as (s1 & -> & Hf1 & Ho1 & Hl1). cbn [mbind option_bind].
  destruct (unlink_ok AY s1 (alive s) p (frame_axis AX _ _ _ Hf1 (Hax AY)) Hp) as (s2 & -> & Hf2 & Ho2 & Hl2).
  exists s2. split_and!; [done|by destruct Hf2 as (-> & _), Hf1 as (-> & _)| | |].
  - by eapply frame_keys, frame_keys.
  - intros q. rewrite (frame_entity _ _ _ q Hf2). by eapply frame_entity.
  - intros []; [|done]. split; [by eapply (frame_axis AY)|].
    rewrite (frame_lnk AY _ _ p Hf2 : lnk AX _ _ = lnk AX _ _). done.
Qed.

Lemma insert_both_ok s P p : (forall ax, axis_ok ax s P) -> ~ P p -> alive s p -> keys_ok s ->
  (forall q, alive s q <-> q = p \/ P q) ->
  (forall ax, (forall q, ~ P q) -> lnk ax s p = Some (None, None)) ->
  exists s', (s1 ← insert_to_x_list p s; insert_to_y_list p s1) = Some s' /\ config_ s' = config_ s
    /\ (forall q, entity <$> nodes_ s' !! q = entity <$> nodes_ s !! q) /\ cross_wf s'.
Proof.
  intros Hax Hp Ha Hk Hal He. unfold insert_to_x_list, insert_to_y_list.
  destruct (insert_ok AX s P p (Hax AX) Hp Ha (He AX)) as (s1 & -> & Hf1 & Ho1). cbn [mbind option_bind].
  destruct (insert_ok AY s1 P p (frame_axis AX _ _ _ Hf1 (Hax AY)) Hp) as (s2 & -> & Hf2 & Ho2).
  { by apply (frame_alive _ _ _ p Hf1). }
  { rewrite (frame_lnk AX _ _ p Hf1 : lnk AY _ _ = lnk AY _ _). apply (He AY). }
  exists s2. split_and!; [done|by destruct Hf2 as (-> & _), Hf1 as (-> & _)| |].
  - intros q. rewrite (frame_entity _ _ _ q Hf2). by eapply frame_entity.
  - split; [|by eapply frame_keys, frame_keys]. intros ax.
    apply axis_same with (fun q => q = p \/ P q).
    + intros q. rewrite <- Hal. unfold alive. rewrite (frame_alive _ _ _ q Hf2). by rewrite (frame_alive _ _ _ q Hf1).
    + destruct ax; [by eapply (frame_axis AY)|done].
Qed.

(** ** The operations *)

(** What the manager stores: the entities by id. *)
Definition entities (s : cross) : gmap Z Entity := entity <$> nodes_ s.

Lemma entities_ext s s' :
  (forall q, entity <$> nodes_ s' !! q = entity <$> nodes_ s !! q) -> entities s' = entities s.
Proof. intros H. apply map_eq. intros q. unfold entities. by rewrite !lookup_fmap. Qed.

Lemma alive_ext s s' q :
  (forall q, entity <$> nodes_ s' !! q = entity <$> nodes_ s !! q) -> alive s' q <-> alive s q.
Proof.
  intros H. unfold alive. rewrite <- (fmap_is_Some entity (nodes_ s' !! q)), H. apply fmap_is_Some.
Qed.

Lemma cross_init_wf c : cross_wf (cross_init c).
Proof.
  split; [|by intros p n]. intros ax. exists []. split_and!; [|constructor|].
  - split_and!; [constructor|by destruct ax|done].
  - intros q. split; [by intros ?%not_elem_of_nil|by intros [? ?]].
Qed.

(** The functions of the lists see a write to one node's entity only there. *)
Lemma set_node_axis ax s p n P : ~ P p -> axis_ok ax s P -> axis_ok ax (set_node p n s) P.
Proof.
  intros Hp. apply axis_congr; [|by destruct ax]. intros q Hq.
  assert (q <> p) by (by intros ->). unfold lnk, node_coord, set_node. cbn.
  by rewrite lookup_insert_ne.
Qed.

Lemma cross_add_ok e s : cross_wf s ->
  exists b s', add_entity e s = Some (b, s') /\ cross_wf s' /\ config_ s' = config_ s
    /\ b = (bool_decide (id e <> 0) && bool_decide (entities s !! id e = None))
    /\ entities s' = if b then <[id e := e]> (entities s) else entities s.
Proof.
  intros Hwf. unfold add_entity. case_test.
  { exists false, s. rewrite bool_decide_false by lia. done. }
  rewrite (bool_decide_true (id e <> 0)) by lia.
  case_decide as Hin.
  { exists false, s. rewrite bool_decide_false; [done|]. unfold entities. rewrite lookup_fmap.
    destruct Hin as [n ->]. done. }
  apply eq_None_not_Some in Hin. destruct Hwf as [Hax Hk].
  set (n0 := mkNode e None None None None). set (s0 := set_node (id e) n0 s).
  assert (nodes_ s0 !! id e = Some n0) as Hn0 by (subst s0; cbn; apply lookup_insert_eq).
  destruct (insert_both_ok s0 (alive s) (id e)) as (s' & Hi & Hc & He & Hwf').
  - intros ax. apply set_node_axis; [|done]. unfold alive. rewrite Hin. by intros [].
  - unfold alive. rewrite Hin. by intros [].
  - by exists n0.
  - intros q n. subst s0. cbn. rewrite lookup_insert_Some. intros [[<- <-]|[_ Hq]]; [done|by apply Hk].
  - intros q. unfold alive. subst s0. cbn. rewrite lookup_insert_is_Some. split; [|by intros [->|?]; [left|destruct (decide (id e = q)); [left|right]]].
    intros [->|[_ ?]]; [by left|by right].
  - intros ax _. unfold lnk. rewrite Hn0. by destruct ax.
  - destruct (insert_to_x_list (id e) s0) as [s1|]; [|done]. cbn in Hi |- *. rewrite Hi. cbn.
    exists true, s'. split_and!; [done|done|done| |].
    + rewrite bool_decide_true; [done|]. unfold entities. by rewrite lookup_fmap, Hin.
    + rewrite (entities_ext _ _ He). unfold entities. subst s0 n0. cbn. by rewrite fmap_insert.
Qed.

Lemma cross_remove_ok eid s : cross_wf s ->
  exists b s', remove_entity eid s = Some (b, s') /\ cross_wf s' /\ config_ s' = config_ s
    /\ b = bool_decide (is_Some (entities s !! eid))
    /\ entities s' = delete eid (entities s).
Proof.
  intros Hwf. unfold remove_entity. destruct (nodes_ s !! eid) as [n|] eqn:Hn.
  2: { exists false, s. assert (entities s !! eid = None) as HN by (unfold entities; by rewrite lookup_fmap, Hn).
       rewrite bool_decide_false by (rewrite HN; by intros []). rewrite delete_id by done. done. }
  destruct (remove_from_lists_ok s eid Hwf) as (s1 & -> & Hc & Hk & He & Hax); [by exists n|].
  cbn. eexists _, _. split; [done|]. split_and!; [|done| |].
  - split.
    + intros ax. destruct (Hax ax) as [Ho _]. apply axis_same with (fun q => alive s q /\ q <> eid).
      * intros q. unfold alive at 2. cbn. rewrite lookup_delete_is_Some.
        rewrite <- (alive_ext s s1 q He). unfold alive. naive_solver.
      * apply (axis_congr ax s1); [|by destruct ax|exact Ho]. intros p [_ Hp].
        unfold lnk, node_coord. cbn. by rewrite lookup_delete_ne by done.
    + intros p m. cbn. rewrite lookup_delete_Some. intros [_ ?]. by apply Hk.
  - rewrite bool_decide_true; [done|]. unfold entities. rewrite lookup_fmap, Hn. done.
  - unfold entities. cbn. rewrite fmap_delete. f_equal. by apply entities_ext.
Qed.

Definition moved (nx ny : Z) (e : Entity) : Entity := mkEntity (id e) nx ny (etype e) (user_data e).

Lemma cross_update_ok eid nx ny s : cross_wf s ->
  exists b s', update_entity eid nx ny s = Some (b, s') /\ cross_wf s' /\ config_ s' = config_ s
    /\ b = bool_decide (is_Some (entities s !! eid))
    /\ entities s' = alter (moved nx ny) eid (entities s).
Proof.
  intros Hwf. unfold update_entity. destruct (nodes_ s !! eid) as [n|] eqn:Hn.
  2: { exists false, s. assert (entities s !! eid = None) as HN by (unfold entities; by rewrite lookup_fmap, Hn).
       rewrite bool_decide_false by (rewrite HN; by intros []). rewrite alter_id; [done|by rewrite HN]. }
  destruct (remove_from_lists_ok s eid Hwf) as (s1 & -> & Hc & Hk & He & Hax); [by exists n|].
  cbn [mbind option_bind]. assert (alive s eid) as Ha by (by exists n).
  destruct (nodes_ s1 !! eid) as [n1|] eqn:Hn1; [|specialize (He eid); by rewrite Hn, Hn1 in He].
  unfold update_node. rewrite Hn1. cbn [mbind option_bind]. set (s2 := set_node eid (move_to nx ny n1) s1).
  assert (nodes_ s2 !! eid = Some (move_to nx ny n1)) as Hn2 by (subst s2; cbn; apply lookup_insert_eq).
  destruct (insert_both_ok s2 (fun q => alive s q /\ q <> eid) eid) as (s' & Hi & Hc' & He' & Hwf').
  - intros ax. apply set_node_axis; [tauto|]. apply Hax.
  - tauto.
  - by eexists.
  - intros q m. subst s2. cbn. rewrite lookup_insert_Some. intros [[<- <-]|[_ Hq]]; [|by apply Hk].
    by apply (Hk _ _ Hn1).
  - intros q. unfold alive at 1. subst s2. cbn. rewrite lookup_insert_is_Some.
    rewrite <- (alive_ext s s1 q He). unfold alive. destruct (decide (q = eid)); naive_solver.
  - intros ax Hno. unfold lnk. rewrite Hn2. destruct (Hax ax) as [_ Hl]. specialize (Hl Hno).
    unfold lnk in Hl. rewrite Hn1 in Hl. destruct ax; apply Hl.
  - destruct (insert_to_x_list eid s2) as [s3|]; [|done]. cbn in Hi |- *. rewrite Hi. cbn.
    exists true, s'. split_and!; [done|done|by rewrite Hc'| |].
    + rewrite bool_decide_true; [done|]. unfold entities. rewrite lookup_fmap, Hn. done.
    + rewrite (entities_ext _ _ He'). rewrite <- (entities_ext s s1 He). unfold entities. subst s2. cbn.
      rewrite fmap_insert. apply map_eq. intros q. destruct (decide (q = eid)) as [->|Hq].
      * rewrite lookup_insert_eq, lookup_alter_eq, lookup_fmap, Hn1. done.
      * by rewrite lookup_insert_ne, lookup_alter_ne by done.
Qed.

(** *** The view query *)

(** The square around a position. *)
Definition in_square (s : cross) (px py : Z) (e : Entity) : Prop :=
  Z.abs (x e - px) <= view_range (config_ s) /\ Z.abs (y e - py) <= view_range (config_ s).

Lemma sorted_tail_beyond s p l m : sorted_by AX s (p :: l) -> m < default 0 (node_coord AX s p) ->
  forall q, q ∈ p :: l -> m < default 0 (node_coord AX s q).
Proof.
  intros Hs Hm q [->|Hq]%elem_of_cons; [done|]. inversion Hs as [|? ? _ Hf]; subst.
  eapply Forall_forall in Hf; [|done]. unfold coord_le in Hf. lia.
Qed.

(** The scan returns the nodes of its list in the box, each once. *)
Lemma scan_spec s mnx mxx mny mxy fuel pr l :
  seg AX s pr l None -> NoDup l -> sorted_by AX s l -> keys_ok s -> (length l < fuel)%nat ->
  exists es, scan fuel s mnx mxx mny mxy (first l None) = Some es /\ NoDup (map id es)
    /\ forall e, e ∈ es <-> (id e ∈ l /\ entity <$> nodes_ s !! id e = Some e)
         /\ mnx <= x e <= mxx /\ mny <= y e <= mxy.
Proof.
  intros Hs Hn Hso Hk. revert pr fuel Hs Hn Hso. induction l as [|p l IH]; intros pr fuel Hs Hn Hso Hf.
  { destruct fuel as [|fuel]; [cbn in Hf; lia|]. exists []. split_and!; [done|constructor|].
    intros e. split; [by intros ?%not_elem_of_nil|]. by intros ((?%not_elem_of_nil & _) & _). }
  destruct fuel as [|fuel]; [cbn in Hf; lia|]. cbn in Hs. destruct Hs as [Hp Hs]. cbn [first scan].
  unfold lnk in Hp. destruct (nodes_ s !! p) as [n|] eqn:Hnode; [|done]. cbn in Hp. injection Hp as _ Hnx.
  cbn [mbind option_bind]. cbv zeta.
  assert (default 0 (node_coord AX s p) = x (entity n)) as Hco by (unfold node_coord; by rewrite Hnode).
  case_test.
  { exists []. split_and!; [done|constructor|]. intros e. split; [by intros ?%not_elem_of_nil|].
    intros ((Hin & He) & Hbox & _). exfalso.
    apply (sorted_tail_beyond s p l mxx Hso) in Hin; [|lia]. unfold node_coord in Hin.
    destruct (nodes_ s !! id e); [|done]. cbn in *. simplify_eq. lia. }
  apply NoDup_cons in Hn as [Hpl Hn]. inversion Hso as [|? ? Hso' _]; subst.
  destruct (IH (Some p) fuel Hs Hn Hso') as (es & Hsc & Hnd & Hes); [cbn in Hf; lia|].
  rewrite Hnx, Hsc. cbn [mbind option_bind].
  assert (id (entity n) = p) as Hid by by apply Hk.
  assert (forall e, id e ∈ p :: l /\ entity <$> nodes_ s !! id e = Some e
    <-> e = entity n \/ (id e ∈ l /\ entity <$> nodes_ s !! id e = Some e)) as Hsplit.
  { intros e. rewrite elem_of_cons. split.
    - intros [[->|?] He]; [left|by right]. rewrite Hnode in He. cbn in He. congruence.
    - intros [->|[? ?]]; [|by auto]. rewrite Hid, Hnode. auto. }
  eexists. split; [done|]. case_test; (split; [|intros e; rewrite Hsplit]).
  - cbn. apply NoDup_cons. split; [|done]. rewrite Hid. intros (e & Hpe & He)%list_elem_of_fmap. apply Hes in He as ((Hin & _) & _). by rewrite <- Hpe in Hin.
  - rewrite elem_of_cons, Hes. split; [|naive_solver]. intros [->|?]; [|naive_solver]. split; [by left|lia].
  - done.
  - rewrite Hes. split; [naive_solver|]. intros [[->|?] ?]; [|naive_solver]. exfalso.
    repeat match goal with H : (_ && _)%bool = false |- _ => apply andb_false_iff in H as [H|H] end; breflect; lia.
Qed.

(** The corners of the window around a position are [int]s. *)
Definition window_fits (s : cross) (px py : Z) : bool :=
  int_range (px - view_range (config_ s)) && int_range (px + view_range (config_ s)) &&
  int_range (py - view_range (config_ s)) && int_range (py + view_range (config_ s)).

Lemma window_scan s px py : get_entities_in_view_at px py s =
  if window_fits s px py then
    scan (S (size (nodes_ s))) s (px - view_range (config_ s)) (px + view_range (config_ s))
      (py - view_range (config_ s)) (py + view_range (config_ s)) (head_x_ s)
  else None.
Proof. unfold get_entities_in_view_at, window_fits, to_int. by repeat case_match. Qed.

(** C15: When the corners of its window are [int]s, the view query returns exactly the
    entities within the view range on both axes, each once: the early [break] of the scan
    along the x list loses none of them.  When one is not, computing it overflows, which
    is undefined. *)
Theorem cross_view_exact s px py : cross_wf s ->
  if window_fits s px py then
    exists es, get_entities_in_view_at px py s = Some es /\ NoDup es
      /\ forall e, e ∈ es <-> entities s !! id e = Some e /\ in_square s px py e
  else get_entities_in_view_at px py s = None.
Proof.
  intros [Hax Hk]. rewrite window_scan. destruct (window_fits s px py); [|done].
  destruct (Hax AX) as (l & (Hn & Hh & Hs) & Hso & Hl). cbn in Hh. rewrite Hh.
  destruct (scan_spec s (px - view_range (config_ s)) (px + view_range (config_ s))
    (py - view_range (config_ s)) (py + view_range (config_ s)) (S (size (nodes_ s))) None l Hs Hn Hso Hk)
    as (es & He & Hnd & Hes).
  { apply le_n_S, length_alive; [done|]. intros p Hp. by apply Hl. }
  exists es. split_and!; [done|by apply NoDup_fmap_1 in Hnd|]. intros e. rewrite Hes, Hl. unfold entities, in_square.
  rewrite lookup_fmap. split.
  - intros ((_ & ?) & ?). split_and!; [done|lia|lia].
  - intros (He' & ? & ?). split_and!; try lia; [|done]. unfold alive. destruct (nodes_ s !! id e); done.
Qed.

(** *** Runs *)

Inductive cross_op := Add (e : Entity) | Remove (eid : Z) | Move (eid nx ny : Z).

Definition run_op (op : cross_op) (s : cross) : option (bool * cross) :=
  match op with
  | Add e => add_entity e s
  | Remove eid => remove_entity eid s
  | Move eid nx ny => update_entity eid nx ny s
  end.

(** The manager as a plain map of entities. *)
Definition spec_op (op : cross_op) (m : gmap Z Entity) : bool * gmap Z Entity :=
  match op with
  | Add e => if bool_decide (id e <> 0) && bool_decide (m !! id e = None) then (true, <[id e := e]> m) else (false, m)
  | Remove eid => (bool_decide (is_Some (m !! eid)), delete eid m)
  | Move eid nx ny => (bool_decide (is_Some (m !! eid)), alter (moved nx ny) eid m)
  end.

Fixpoint run_ops (ops : list cross_op) (s : cross) : option (list bool * cross) :=
  match ops with
  | [] => Some ([], s)
  | op :: ops' => '(b, s1) ← run_op op s; '(bs, s2) ← run_ops ops' s1; Some (b :: bs, s2)
  end.

Fixpoint spec_ops (ops : list cross_op) (m : gmap Z Entity) : list bool * gmap Z Entity :=
  match ops with
  | [] => ([], m)
  | op :: ops' => let '(b, m1) := spec_op op m in let '(bs, m2) := spec_ops ops' m1 in (b :: bs, m2)
  end.

Lemma cross_run_op_ok op s : cross_wf s ->
  exists b s', run_op op s = Some (b, s') /\ cross_wf s' /\ config_ s' = config_ s
    /\ (b, entities s') = spec_op op (entities s).
Proof.
  intros Hwf. destruct op as [e|eid|eid nx ny].
  - destruct (cross_add_ok e s Hwf) as (b & s' & H & ? & ? & -> & He). eexists _, s'. split_and!; try done.
    cbn. rewrite He. by destruct (_ && _)%bool.
  - destruct (cross_remove_ok eid s Hwf) as (b & s' & H & ? & ? & -> & He). eexists _, s'. split_and!; try done.
    cbn. by rewrite He.
  - destruct (cross_update_ok eid nx ny s Hwf) as (b & s' & H & ? & ? & -> & He). eexists _, s'. split_and!; try done.
    cbn. by rewrite He.
Qed.

Lemma cross_run_ops_ok ops s : cross_wf s ->
  exists bs s', run_ops ops s = Some (bs, s') /\ cross_wf s' /\ config_ s' = config_ s
    /\ (bs, entities s') = spec_ops ops (entities s).
Proof.
  revert s. induction ops as [|op ops IH]; intros s Hwf; [by exists [], s|].
  destruct (cross_run_op_ok op s Hwf) as (b & s1 & H1 & Hwf1 & Hc1 & He1).
  destruct (IH s1 Hwf1) as (bs & s2 & H2 & Hwf2 & Hc2 & He2).
  exists (b :: bs), s2. cbn [run_ops spec_ops]. rewrite <- He1, H1. cbn. rewrite H2. cbn. rewrite <- He2.
  split_and!; [done|done|congruence|done].
Qed.

(** C6: From an empty manager, any sequence of operations runs without following
    a dangling or null pointer, returns what a plain map of entities would,
    and leaves both lists correct and sorted over exactly that map. *)
Theorem cross_lists_refine_map c ops :
  exists bs s, run_ops ops (cross_init c) = Some (bs, s) /\ cross_wf s
    /\ (bs, entities s) = spec_ops ops ∅ /\ total_entities s = size (spec_ops ops ∅).2.
Proof.
  destruct (cross_run_ops_ok ops (cross_init c) (cross_init_wf c)) as (bs & s & Hr & Hwf & _ & He).
  replace (entities (cross_init c)) with (∅ : gmap Z Entity) in He by (unfold entities; cbn; by rewrite fmap_empty).
  exists bs, s. split_and!; [done|done|done|]. rewrite <- He. cbn. unfold total_entities, entities.
  by rewrite map_size_fmap.
Qed.

Definition demo (i px py : Z) : Entity := mkEntity i px py PLAYER 0.

Lemma cross_view_exact_witness :
  exists s, run_ops [Add (demo 1 5 5); Add (demo 2 3 9); Add (demo 3 90 5); Move 2 8 8; Remove 3; Add (demo 4 6 40)]
      (cross_init (mkConfig 100 100 10)) = Some ([true; true; true; true; true; true], s)
    /\ get_entities_in_view 1 s = Some [demo 1 5 5; demo 2 8 8]
    /\ exists es, get_entities_in_view_at 5 5 s = Some es /\ NoDup es
       /\ forall e, e ∈ es <-> entities s !! id e = Some e /\ in_square s 5 5 e.
Proof.
  destruct (cross_run_ops_ok [Add (demo 1 5 5); Add (demo 2 3 9); Add (demo 3 90 5); Move 2 8 8; Remove 3; Add (demo 4 6 40)]
    (cross_init (mkConfig 100 100 10)) (cross_init_wf _)) as (bs & s & Hr & Hwf & _ & _).
  exists s. vm_compute in Hr. injection Hr as <- Hs. split; [|split].
  - rewrite <- Hs. vm_compute. reflexivity.
  - rewrite <- Hs. vm_compute. reflexivity.
  - pose proof (cross_view_exact s 5 5 Hwf) as H. replace (window_fits s 5 5) with true in H; [exact H|].
    rewrite <- Hs. vm_compute. reflexivity.
Defined.
