(* ===== verification/TimerWheel.v ===== *)
(** * TimerWheel: the layered timing wheel of src/core/timer_wheel.cpp

    A [shared_ptr<TimerTask>] is an address of [heap]; a slot is the list of the
    addresses it holds, so the copies and moves of the code are the model's.
    The clock is the sequence of the values [steady_clock] returns, one per
    read; a callback is a name and [cb] what running it does to the wheel (an
    exception it throws is caught, so it only leaves the state it reached).
    [Undefined] is an index out of range, a division by zero or an [int] expression
    that overflows, [Fuel] a loop that does not end.  (The times are [int64_t]s of
    milliseconds, far from their bounds.)  The calls are sequential: the background thread's
    [tick] takes no lock, and its races with the callers are not modelled. *)

From S2P Require Import Prelude.
From S2P Require Import Framing.

Record TimerHandle := mkHandle { handle_id : Z; valid : bool }.

Definition TimerHandle_default : TimerHandle := mkHandle 0 false.

Definition invalidate (h : TimerHandle) : TimerHandle := mkHandle (handle_id h) false.

(** [callback] is [None] for an empty [std::function]. *)
Record TimerTask := mkTask {
  id : Z;
  callback : option Z;
  expire_time : Z;
  interval : Z;
  rounds_left : Z;
  cancelled : bool
}.

Definition with_expire (e : Z) (t : TimerTask) : TimerTask :=
  mkTask (id t) (callback t) e (interval t) (rounds_left t) (cancelled t).
Definition with_rounds (r : Z) (t : TimerTask) : TimerTask :=
  mkTask (id t) (callback t) (expire_time t) (interval t) r (cancelled t).
Definition with_cancelled (t : TimerTask) : TimerTask :=
  mkTask (id t) (callback t) (expire_time t) (interval t) (rounds_left t) true.

Record Wheel := mkWheel {
  slots : list (list Z);
  current_slot : Z;
  tick_ms : Z;
  wheel_size : Z;
  total_ms : Z
}.

Record timer_wheel := mkTimerWheel {
  wheels_ : list Wheel;
  running_ : bool;
  next_id_ : Z;
  task_map_ : gmap Z Z;
  heap : gmap Z TimerTask;
  next_addr : Z;
  reads : nat
}.

(** The field updates. *)
Definition set_wheels (ws : list Wheel) (s : timer_wheel) : timer_wheel :=
  mkTimerWheel ws (running_ s) (next_id_ s) (task_map_ s) (heap s) (next_addr s) (reads s).
Definition set_running (b : bool) (s : timer_wheel) : timer_wheel :=
  mkTimerWheel (wheels_ s) b (next_id_ s) (task_map_ s) (heap s) (next_addr s) (reads s).
Definition set_map (m : gmap Z Z) (s : timer_wheel) : timer_wheel :=
  mkTimerWheel (wheels_ s) (running_ s) (next_id_ s) m (heap s) (next_addr s) (reads s).
Definition store (p : Z) (t : TimerTask) (s : timer_wheel) : timer_wheel :=
  mkTimerWheel (wheels_ s) (running_ s) (next_id_ s) (task_map_ s) (<[p := t]> (heap s)) (next_addr s) (reads s).

(** [std::make_shared<TimerTask>]. *)
Definition make_shared (t : TimerTask) (s : timer_wheel) : Z * timer_wheel :=
  (next_addr s, mkTimerWheel (wheels_ s) (running_ s) (next_id_ s) (task_map_ s)
                  (<[next_addr s := t]> (heap s)) (next_addr s + 1) (reads s)).

Definition generate_id (s : timer_wheel) : Z * timer_wheel :=
  (next_id_ s, mkTimerWheel (wheels_ s) (running_ s) (u64 (next_id_ s + 1)) (task_map_ s)
                 (heap s) (next_addr s) (reads s)).

(** [Wheel(size, tick)]; a negative [size] makes [slots] throw. *)
Definition new_wheel (size tick : Z) : outcome Wheel :=
  if size <? 0 then Undefined
  else total ←o as_int (size * tick); Ok (mkWheel (replicate (Z.to_nat size) []) 0 tick size total).

(** The layers of the constructor, the tick growing by a factor each, also after the
    last one. *)
Fixpoint make_wheels (layers : nat) (size current_tick : Z) : outcome (list Wheel) :=
  match layers with
  | O => Ok []
  | S n =>
      w ←o new_wheel size current_tick;
      next_tick ←o as_int (current_tick * size);
      ws ←o make_wheels n size next_tick;
      Ok (w :: ws)
  end.

Definition TimerWheel (tick size : Z) (layers : nat) : outcome timer_wheel :=
  ws ←o make_wheels layers size tick; Ok (mkTimerWheel ws false 1 ∅ ∅ 0 0).

(** Slot [slot] of layer [layer]. *)
Definition slot_at (layer : nat) (slot : Z) (s : timer_wheel) : option (list Z) :=
  w ← wheels_ s !! layer; if slot <? 0 then None else slots w !! Z.to_nat slot.

Definition set_slot (layer : nat) (slot : Z) (l : list Z) (s : timer_wheel) : timer_wheel :=
  set_wheels (alter (fun w => mkWheel (<[Z.to_nat slot := l]> (slots w)) (current_slot w) (tick_ms w)
                                (wheel_size w) (total_ms w)) layer (wheels_ s)) s.

(** [slots[slot].tasks.push_back(task)]. *)
Definition push_back (layer : nat) (slot : Z) (p : Z) (s : timer_wheel) : outcome timer_wheel :=
  l ←o need (slot_at layer slot s); Ok (set_slot layer slot (l ++ [p]) s).

(** [it = tasks.erase(it)], the iterator a position of the list. *)
Definition erase_at (layer : nat) (slot : Z) (i : nat) (s : timer_wheel) : outcome timer_wheel :=
  l ←o need (slot_at layer slot s); Ok (set_slot layer slot (delete i l) s).

(** The loop that picks the layer. *)
Fixpoint find_layer (ws : list Wheel) (delay : Z) : option nat :=
  match ws with
  | [] => None
  | [w] => Some O
  | w :: ws' => if delay <? total_ms w then Some O else S <$> find_layer ws' delay
  end.

Definition set_current (layer : nat) (f : Wheel -> Z) (s : timer_wheel) : timer_wheel :=
  set_wheels (alter (fun w => mkWheel (slots w) (f w) (tick_ms w) (wheel_size w) (total_ms w)) layer (wheels_ s)) s.

(** The wheel a task is held by: what keeps a [weak_ptr] alive. *)
Definition held (s : timer_wheel) : list Z := concat (concat (slots <$> wheels_ s)).

(** [weak_ptr::lock]. *)
Definition lock (p : Z) (s : timer_wheel) : option TimerTask :=
  if decide (p ∈ held s) then heap s !! p else None.

Section Program.
Context (clock : nat -> Z) (cb : Z -> timer_wheel -> timer_wheel).

Definition current_time_ms (s : timer_wheel) : Z * timer_wheel :=
  (clock (reads s), mkTimerWheel (wheels_ s) (running_ s) (next_id_ s) (task_map_ s) (heap s)
                      (next_addr s) (S (reads s))).

Definition add_task_to_wheel (p : Z) (s : timer_wheel) : outcome timer_wheel :=
  task ←o need (heap s !! p);
  let '(now, s) := current_time_ms s in
  let delay := expire_time task - now in
  let delay := if delay <=? 0 then 1 else delay in
  layer ←o need (find_layer (wheels_ s) delay);
  w ←o need (wheels_ s !! layer);
  if (tick_ms w =? 0) || (wheel_size w =? 0) then Undefined
  else
    let ticks := i32 (Z.quot delay (tick_ms w)) in
    sum ←o as_int (current_slot w + ticks);
    let slot := Z.rem sum (wheel_size w) in
    push_back layer slot p (store p (with_rounds (Z.quot ticks (wheel_size w)) task) s).

(** [add_timer] ([repeat = 0]) and [add_repeat_timer]. *)
Definition add_task (delay_ms repeat : Z) (callback : option Z) (s : timer_wheel)
  : outcome (TimerHandle * timer_wheel) :=
  if (delay_ms <=? 0) || bool_decide (callback = None) then Ok (TimerHandle_default, s)
  else
    let '(tid, s) := generate_id s in
    let '(now, s) := current_time_ms s in
    let '(p, s) := make_shared (mkTask tid callback (now + delay_ms) repeat 0 false) s in
    s ←o add_task_to_wheel p s;
    Ok (mkHandle tid true, set_map (<[tid := p]> (task_map_ s)) s).

Definition add_timer (delay_ms : Z) (callback : option Z) (s : timer_wheel) : outcome (TimerHandle * timer_wheel) :=
  add_task delay_ms 0 callback s.

Definition add_repeat_timer (interval_ms : Z) (callback : option Z) (s : timer_wheel)
  : outcome (TimerHandle * timer_wheel) :=
  add_task interval_ms interval_ms callback s.

Definition cancel_timer (h : TimerHandle) (s : timer_wheel) : TimerHandle * timer_wheel :=
  if negb (valid h) then (h, s)
  else
    (invalidate h,
     match task_map_ s !! handle_id h with
     | None => s
     | Some p =>
         let s1 := match lock p s with Some t => store p (with_cancelled t) s | None => s end in
         set_map (delete (handle_id h) (task_map_ s1)) s1
     end).

Definition is_timer_valid (h : TimerHandle) (s : timer_wheel) : bool :=
  if negb (valid h) then false
  else match task_map_ s !! handle_id h with
       | None => false
       | Some p => match lock p s with Some t => negb (cancelled t) | None => false end
       end.

(** The loop of [process_slot] from position [i]; it returns the ids of the
    tasks whose callbacks ran, in order. *)
Fixpoint process_slot (fuel : nat) (layer : nat) (slot : Z) (i : nat) (s : timer_wheel)
  : outcome (timer_wheel * list Z) :=
  match fuel with
  | O => Fuel
  | S fuel' =>
      tasks ←o need (slot_at layer slot s);
      match tasks !! i with
      | None => Ok (s, [])
      | Some p =>
          task ←o need (heap s !! p);
          if cancelled task then
            s ←o erase_at layer slot i s;
            process_slot fuel' layer slot i s
          else if 0 <? rounds_left task then
            process_slot fuel' layer slot (S i) (store p (with_rounds (rounds_left task - 1) task) s)
          else
            s ←o (if 0 <? interval task then
                    let '(now, s) := current_time_ms s in
                    let task := with_expire (now + interval task) task in
                    let '(q, s) := make_shared task (store p task s) in
                    s ←o add_task_to_wheel q s;
                    Ok (set_map (<[id task := q]> (task_map_ s)) s)
                  else Ok s);
            s ←o erase_at layer slot i s;
            let s := match callback task with Some c => cb c s | None => s end in
            '(s, fired) ←o process_slot fuel' layer slot i s;
            Ok (s, match callback task with Some _ => id task :: fired | None => fired end)
      end
  end.

(** The second loop of [cascade]. *)
Fixpoint cascade_tasks (ps : list Z) (s : timer_wheel) : outcome timer_wheel :=
  match ps with
  | [] => Ok s
  | p :: ps' =>
      task ←o need (heap s !! p);
      if cancelled task then cascade_tasks ps' s
      else
        let '(now, s) := current_time_ms s in
        s ←o (if expire_time task - now <=? 0 then
                w ←o need (wheels_ s !! 0%nat);
                push_back 0 (current_slot w) p s
              else add_task_to_wheel p s);
        cascade_tasks ps' s
  end.

Definition cascade (layer : nat) (s : timer_wheel) : outcome timer_wheel :=
  if (layer <=? 0)%nat || (length (wheels_ s) <=? layer)%nat then Ok s
  else
    upper ←o need (wheels_ s !! layer);
    tasks_to_move ←o need (slot_at layer (current_slot upper) s);
    cascade_tasks tasks_to_move (set_slot layer (current_slot upper) [] s).

(** [wheels_[i].current_slot = (wheels_[i].current_slot + 1) % wheels_[i].wheel_size]. *)
Definition advance (layer : nat) (s : timer_wheel) : outcome timer_wheel :=
  w ←o need (wheels_ s !! layer);
  if wheel_size w =? 0 then Undefined
  else Ok (set_current layer (fun w => Z.rem (current_slot w + 1) (wheel_size w)) s).

Definition at_zero (layer : nat) (s : timer_wheel) : outcome bool :=
  w ←o need (wheels_ s !! layer); Ok (current_slot w =? 0).

Definition tick (fuel : nat) (s : timer_wheel) : outcome (timer_wheel * list Z) :=
  w0 ←o need (wheels_ s !! 0%nat);
  '(s, fired) ←o process_slot fuel 0 (current_slot w0) 0 s;
  s ←o advance 0 s;
  z0 ←o at_zero 0 s;
  s ←o (if (z0 : bool) then
          s ←o cascade 1 s;
          s ←o advance 1 s;
          z1 ←o at_zero 1 s;
          if z1 && (2 <? length (wheels_ s))%nat then
            s ←o cascade 2 s;
            s ←o advance 2 s;
            z2 ←o at_zero 2 s;
            if z2 && (3 <? length (wheels_ s))%nat then
              s ←o cascade 3 s;
              advance 3 s
            else Ok s
          else Ok s
        else Ok s);
  Ok (s, fired).

(** [n] iterations of [run_loop]: what each fired. *)
Fixpoint run_loop (n fuel : nat) (s : timer_wheel) : outcome (timer_wheel * list (list Z)) :=
  match n with
  | O => Ok (s, [])
  | S n' =>
      '(s, fired) ←o tick fuel s;
      '(s, rest) ←o run_loop n' fuel s;
      Ok (s, fired :: rest)
  end.

End Program.

(** [start]: the flag, and every layer's current slot back to 0. *)
Definition start (s : timer_wheel) : timer_wheel :=
  if running_ s then s
  else set_running true
    (set_wheels ((fun w => mkWheel (slots w) 0 (tick_ms w) (wheel_size w) (total_ms w)) <$> wheels_ s) s).

Definition stop (s : timer_wheel) : timer_wheel := set_running false s.

(** [get_next_expire_time]: the earliest task of the first slot with one. *)
Definition min_expire (s : timer_wheel) (acc : Z) (ps : list Z) : outcome Z :=
  foldl (fun r p =>
    acc ←o r;
    task ←o need (heap s !! p);
    Ok (if cancelled task then acc
        else if (acc <? 0) || (expire_time task <? acc) then expire_time task else acc)) (Ok acc) ps.

Fixpoint next_expire_from (n : nat) (i : Z) (w : Wheel) (s : timer_wheel) : outcome Z :=
  match n with
  | O => Ok (-1)
  | S n' =>
      sum ←o as_int (current_slot w + i);
      ps ←o need (slot_at 0 (Z.rem sum (wheel_size w)) s);
      e ←o min_expire s (-1) ps;
      if 0 <=? e then Ok e else next_expire_from n' (i + 1) w s
  end.

Definition get_next_expire_time (s : timer_wheel) : outcome Z :=
  w ←o need (wheels_ s !! 0%nat);
  next_expire_from (Z.to_nat (wheel_size w)) 0 w s.

(** ** Lemmas: outcomes, slots and what the wheel holds *)

Lemma concat_insert {A} (ls : list (list A)) i l l' :
  ls !! i = Some l -> concat (<[i := l']> ls) ++ l ≡ₚ concat ls ++ l'.
Proof.
  revert i. induction ls as [|k ls IH]; intros i Hi; [done|]. destruct i as [|i]; cbn in *.
  - injection Hi as ->. rewrite <- !app_assoc. rewrite (Permutation_app_comm (concat ls) l).
    rewrite (Permutation_app_comm l'). rewrite <- app_assoc. rewrite Permutation_app_comm.
    by rewrite <- app_assoc.
  - rewrite <- !app_assoc. by rewrite IH.
Qed.

Lemma concat_permutation {A} (ls ls' : list (list A)) : ls ≡ₚ ls' -> concat ls ≡ₚ concat ls'.
Proof.
  induction 1; cbn; [done|by f_equiv| |by etrans]. by rewrite !app_assoc, (Permutation_app_comm x).
Qed.

Lemma perm_exchange {A} (x y s s' l l' : list A) :
  x ++ s ≡ₚ y ++ s' -> s' ++ l ≡ₚ s ++ l' -> x ++ l ≡ₚ y ++ l'.
Proof.
  intros H H'. apply (Permutation_app_inv_r s). transitivity (y ++ (s' ++ l)).
  - rewrite app_assoc, <- H, <- !app_assoc. f_equiv. apply Permutation_app_comm.
  - rewrite H', <- !app_assoc. f_equiv. apply Permutation_app_comm.
Qed.

Lemma slot_at_inv layer slot s l : slot_at layer slot s = Some l ->
  0 <= slot /\ exists w, wheels_ s !! layer = Some w /\ slots w !! Z.to_nat slot = Some l.
Proof.
  unfold slot_at. destruct (wheels_ s !! layer) as [w|]; [|done]. cbn. case_test; [done|]. eauto.
Qed.

Lemma held_set_slot layer slot s l l' :
  slot_at layer slot s = Some l -> held (set_slot layer slot l' s) ++ l ≡ₚ held s ++ l'.
Proof.
  intros (_ & w & Hw & Hl)%slot_at_inv. unfold held, set_slot. cbn.
  set (w' := mkWheel (<[Z.to_nat slot := l']> (slots w)) (current_slot w) (tick_ms w) (wheel_size w) (total_ms w)).
  assert (slots <$> alter (fun w => mkWheel (<[Z.to_nat slot := l']> (slots w)) (current_slot w) (tick_ms w)
      (wheel_size w) (total_ms w)) layer (wheels_ s) = <[layer := slots w']> (slots <$> wheels_ s)) as ->.
  { rewrite <- list_fmap_insert. f_equal. clear Hl. revert layer Hw. induction (wheels_ s) as [|v ws IH];
      intros [|k] Hw; cbn in *; [done|done|by injection Hw as ->|]. f_equal. by apply IH. }
  assert (concat (<[layer := slots w']> (slots <$> wheels_ s)) ++ slots w
    ≡ₚ concat (slots <$> wheels_ s) ++ slots w') as H.
  { apply concat_insert. by rewrite list_lookup_fmap, Hw. }
  apply concat_permutation in H. rewrite !concat_app in H.
  pose proof (concat_insert (slots w) (Z.to_nat slot) l l' Hl) as H'. cbn [w' slots] in H.
  by apply (perm_exchange _ _ (concat (slots w)) _ _ _ H H').
Qed.

(** Only the wheels differ. *)
Definition rewheeled (s s' : timer_wheel) : Prop := s' = set_wheels (wheels_ s') s.

Lemma rewheeled_set_slot layer slot l s : rewheeled s (set_slot layer slot l s).
Proof. done. Qed.

Lemma push_back_held layer slot p s s' :
  push_back layer slot p s = Ok s' -> rewheeled s s' /\ held s' ≡ₚ p :: held s.
Proof.
  unfold push_back. intros H. obinv. split; [done|].
  pose proof (held_set_slot layer slot s a (a ++ [p]) E) as H.
  apply (Permutation_app_inv_r a). rewrite H, app_assoc, Permutation_app_comm. done.
Qed.

Lemma erase_at_held layer slot i s s' l p :
  erase_at layer slot i s = Ok s' -> slot_at layer slot s = Some l -> l !! i = Some p ->
  rewheeled s s' /\ held s ≡ₚ p :: held s'.
Proof.
  unfold erase_at. intros H Hl Hp. rewrite Hl in H. cbn in H. obinv. split; [done|].
  pose proof (held_set_slot layer slot s l (delete i l) Hl) as H.
  apply delete_Permutation in Hp. revert Hp H. generalize (delete i l) as d.
  intros d Hp H. apply (Permutation_app_inv_r d). etransitivity; [symmetry; exact H|].
  generalize (held (set_slot layer slot d s)) as xs. intros xs. rewrite Hp.
  symmetry. cbn. apply Permutation_middle.
Qed.

(** [s'] is [s] with [p] stored, pushed into a slot, and one more clock read. *)
Lemma add_task_held clock p s s' t :
  add_task_to_wheel clock p s = Ok s' -> heap s !! p = Some t ->
  held s' ≡ₚ p :: held s /\ task_map_ s' = task_map_ s /\ next_id_ s' = next_id_ s
  /\ next_addr s' = next_addr s /\ exists r, heap s' = <[p := with_rounds r t]> (heap s).
Proof.
  unfold add_task_to_wheel. intros H Ht. rewrite Ht in H. cbn [need obind current_time_ms] in H. obinv.
  case_match; [done|]. obinv. apply push_back_held in H as [Hr Hh].
  split; [exact Hh|]. rewrite Hr. cbn. eauto 10.
Qed.

(** ** The invariant *)

(** The invariant of a wheel that holds the addresses of [held], which is all
    of them between the calls; [cascade] has some in hand. *)
Record wf_on (hs : list Z) (s : timer_wheel) : Prop := {
  wf_nodup : NoDup hs;
  wf_held : forall p, p ∈ hs -> is_Some (heap s !! p);
  wf_live : forall p t, p ∈ hs -> heap s !! p = Some t -> cancelled t = false -> task_map_ s !! id t = Some p;
  wf_ids : forall p t, heap s !! p = Some t -> id t < next_id_ s;
  wf_addr : forall p, next_addr s <= p -> heap s !! p = None;
  wf_map : forall i p, task_map_ s !! i = Some p -> exists t, heap s !! p = Some t /\ id t = i
}.

Definition wf (s : timer_wheel) : Prop := wf_on (held s) s.

(** An id whose held tasks are all cancelled. *)
Definition dead_on (hs : list Z) (s : timer_wheel) (i : Z) : Prop :=
  i < next_id_ s /\ forall p t, p ∈ hs -> heap s !! p = Some t -> id t = i -> cancelled t = true.

Definition safe_on (D : Z -> Prop) (hs : list Z) (s : timer_wheel) : Prop :=
  wf_on hs s /\ forall i, D i -> dead_on hs s i.

Definition safe (D : Z -> Prop) (s : timer_wheel) : Prop := safe_on D (held s) s.

Lemma make_wheels_empty layers size tick ws : make_wheels layers size tick = Ok ws -> concat (concat (slots <$> ws)) = [].
Proof.
  revert tick ws. induction layers as [|n IH]; intros tick ws Hm; cbn [make_wheels] in Hm; obinv; [done|].
  unfold new_wheel in E. destruct (size <? 0); [done|]. obinv. cbn. rewrite concat_app, (IH _ _ E1), app_nil_r. by induction (Z.to_nat size).
Qed.

Lemma TimerWheel_wf tick size layers s : TimerWheel tick size layers = Ok s -> wf s.
Proof.
  unfold TimerWheel. intros H. obinv. unfold wf. rewrite (make_wheels_empty _ _ _ _ E : held (mkTimerWheel a false 1 ∅ ∅ 0 0) = []).
  split; cbn.
  - constructor.
  - by intros p ?%not_elem_of_nil.
  - by intros p t ?%not_elem_of_nil.
  - by intros p t.
  - done.
  - by intros i p.
Qed.

(** Fewer addresses, in any order. *)
Lemma safe_sub D hs hs' xs s : hs ≡ₚ xs ++ hs' -> safe_on D hs s -> safe_on D hs' s.
Proof.
  intros Hh [[Hn H1 H2 H3 H4 H5] Hd].
  assert (forall q, q ∈ hs' -> q ∈ hs) as Hsub by (intros q; rewrite Hh; set_solver).
  split; [split; eauto|].
  - rewrite Hh in Hn. by apply NoDup_app in Hn as (_ & _ & ?).
  - intros i Hi. destruct (Hd i Hi) as [? H]. split; [done|]. eauto.
Qed.

Lemma safe_perm D hs hs' s : hs ≡ₚ hs' -> safe_on D hs s -> safe_on D hs' s.
Proof. apply (safe_sub D hs hs' []). Qed.

(** What the invariant looks at. *)
Lemma safe_ext D hs s s' :
  heap s' = heap s -> task_map_ s' = task_map_ s -> next_id_ s' = next_id_ s -> next_addr s' = next_addr s ->
  safe_on D hs s -> safe_on D hs s'.
Proof.
  intros Hp Hm Hn Ha [[] Hd]. split; [split; rewrite ?Hp, ?Hm, ?Hn, ?Ha; done|].
  intros i Hi. unfold dead_on. rewrite Hp, Hn. by apply Hd.
Qed.

Lemma safe_rewheeled D hs s s' : rewheeled s s' -> safe_on D hs s -> safe_on D hs s'.
Proof. intros Hr. apply safe_ext; by rewrite Hr. Qed.

(** Writing a task's own fields, its id apart; a task once cancelled stays so. *)
Lemma safe_store D hs s s' p t t' :
  heap s !! p = Some t -> id t' = id t -> (cancelled t = true -> cancelled t' = true) ->
  heap s' = <[p := t']> (heap s) -> task_map_ s' = task_map_ s -> next_id_ s' = next_id_ s ->
  next_addr s' = next_addr s ->
  safe_on D hs s -> safe_on D hs s'.
Proof.
  intros Ht Hid Hc Hp Hm Hn Ha [[H0 H1 H2 H3 H4 H5] Hd].
  split; [split|]; rewrite ?Hp, ?Hm, ?Hn, ?Ha.
  - done.
  - intros q Hq. rewrite lookup_insert_is_Some'. auto.
  - intros q u Hq. rewrite lookup_insert_Some. intros [[<- <-]|[_ Hu]] Hcu; [|eauto].
    rewrite Hid. apply (H2 p t Hq Ht). destruct (cancelled t); [|done]. by rewrite Hc in Hcu.
  - intros q u. rewrite lookup_insert_Some. intros [[<- <-]|[_ Hu]]; [rewrite Hid|]; eauto.
  - intros q Hq. rewrite lookup_insert_ne; [auto|]. intros ->. by rewrite H4 in Ht.
  - intros i q Hi. destruct (H5 i q Hi) as (u & Hu & Hidu). destruct (decide (q = p)) as [->|Hqp].
    + exists t'. rewrite lookup_insert_eq. split; [done|]. congruence.
    + exists u. by rewrite lookup_insert_ne.
  - intros i Hi. destruct (Hd i Hi) as [Hin H]. split; [lia|]. rewrite Hp. intros q u Hq.
    rewrite lookup_insert_Some. intros [[<- <-]|[_ Hu]] Hidu; [|eauto].
    apply Hc. apply (H p t Hq Ht). congruence.
Qed.

(** A new task takes over an id: it is stored at the next address, held, and
    the map points at it; no other held task of the id is live. *)
Lemma safe_new D hs s s' t :
  heap s' = <[next_addr s := t]> (heap s) -> task_map_ s' = <[id t := next_addr s]> (task_map_ s) ->
  next_addr s' = next_addr s + 1 -> next_id_ s <= next_id_ s' -> id t < next_id_ s' -> ~ D (id t) ->
  (forall p u, p ∈ hs -> heap s !! p = Some u -> id u = id t -> cancelled u = true) ->
  safe_on D hs s -> safe_on D (next_addr s :: hs) s'.
Proof.
  intros Hp Hm Ha Hn Hid HD Hno [[H0 H1 H2 H3 H4 H5] Hd].
  assert (heap s !! next_addr s = None) as Hfresh by (apply H4; lia).
  assert (next_addr s ∉ hs) as Hnh by (intros Hq; destruct (H1 _ Hq); congruence).
  split; [split|]; rewrite ?Hp, ?Hm, ?Ha.
  - by apply NoDup_cons.
  - intros q [->|Hq]%elem_of_cons; rewrite lookup_insert_is_Some'; auto.
  - intros q u Hq Hu Hc. apply lookup_insert_Some in Hu as [[<- <-]|[Hne Hu]]; [by rewrite lookup_insert_eq|].
    apply elem_of_cons in Hq as [->|Hq]; [done|].
    rewrite lookup_insert_ne; [eauto|]. intros Heq. by rewrite (Hno q u) in Hc.
  - intros q u. rewrite lookup_insert_Some. intros [[<- <-]|[_ Hu]]; [done|]. apply H3 in Hu. lia.
  - intros q Hq. rewrite lookup_insert_ne by lia. apply H4. lia.
  - intros i q Hi. apply lookup_insert_Some in Hi as [[<- <-]|[_ Hi]].
    + exists t. by rewrite lookup_insert_eq.
    + destruct (H5 i q Hi) as (u & Hu & ?). exists u. rewrite lookup_insert_ne; [done|]. intros <-. congruence.
  - intros i Hi. destruct (Hd i Hi) as [Hin H]. split; [lia|]. rewrite Hp. intros q u Hq Hu Hidu.
    apply lookup_insert_Some in Hu as [[<- <-]|[Hne Hu]]; [congruence|].
    apply elem_of_cons in Hq as [->|Hq]; [done|]. eauto.
Qed.

(** Forgetting an id none of whose tasks is live. *)
Lemma safe_unmap D hs s i :
  (forall p t, p ∈ hs -> heap s !! p = Some t -> id t = i -> cancelled t = true) ->
  safe_on D hs s -> safe_on D hs (set_map (delete i (task_map_ s)) s).
Proof.
  intros Hi [[H0 H1 H2 H3 H4 H5] Hd]. split; [split; cbn; try done|done].
  - intros p t Hp Ht Hc. rewrite lookup_delete_ne; [eauto|]. intros ->.
    by rewrite (Hi p t) in Hc.
  - intros j p. rewrite lookup_delete_Some. intros [_ ?]. eauto.
Qed.

Lemma safe_live D s p t :
  safe D s -> p ∈ held s -> heap s !! p = Some t -> cancelled t = false -> ~ D (id t).
Proof.
  intros [_ Hd] Hp Ht Hc HD. destruct (Hd _ HD) as [_ H]. by rewrite (H p t) in Hc.
Qed.

Lemma slot_at_held layer slot s l i p :
  slot_at layer slot s = Some l -> l !! i = Some p -> p ∈ held s.
Proof.
  intros (_ & w & Hw & Hl)%slot_at_inv Hp. unfold held.
  apply list_elem_of_In, in_concat. exists l. split; [|by apply list_elem_of_In, list_elem_of_lookup; eauto].
  apply in_concat. exists (slots w). split; apply list_elem_of_In, list_elem_of_lookup; [|eauto].
  exists layer. by rewrite list_lookup_fmap, Hw.
Qed.

(** *** The operations keep it *)

(** An id below [u64]'s last, so that the counter does not wrap. *)
Definition ids_left (s : timer_wheel) : Prop := 0 <= next_id_ s < 2 ^ 64 - 1.

Lemma add_task_safe clock D d r c s h s' :
  ids_left s -> safe D s -> add_task clock d r c s = Ok (h, s') ->
  safe D s' /\ next_id_ s <= next_id_ s' /\ (valid h = true -> handle_id h < next_id_ s').
Proof.
  intros Hids Hs. unfold add_task. case_match; [intros [= <- <-]; split_and!; [done|lia|done]|].
  cbn. intros Ha. obinv.
  set (t := mkTask (next_id_ s) c (clock (reads s) + d) r 0 false) in *.
  apply add_task_held with (t := t) in E as (Hh & Hm & Hn & Hna & k & Hp); [|apply lookup_insert_eq].
  cbn in *. assert (u64 (next_id_ s + 1) = next_id_ s + 1) as Hu by (apply uwrap_small; unfold ids_left in Hids; lia).
  rewrite Hu in Hn. split_and!; [|cbn; lia|cbn; lia]. destruct Hs as [Hw Hd].
  eapply safe_perm; [symmetry; exact Hh|]. eapply (safe_new D (held s) s _ (with_rounds k t)); cbn.
  - rewrite Hp. apply insert_insert_eq.
  - by rewrite Hm.
  - by rewrite Hna.
  - lia.
  - lia.
  - intros HD. destruct (Hd _ HD) as [? _]. lia.
  - intros p u _ Hu' Hid. apply (wf_ids _ _ Hw) in Hu'. lia.
  - done.
Qed.

(** Cancelling makes the id dead. *)
Lemma cancel_timer_safe D h s :
  safe D s -> valid h = true -> handle_id h < next_id_ s ->
  safe (fun i => D i \/ i = handle_id h) (cancel_timer h s).2.
Proof.
  intros Hs Hv Hid. unfold cancel_timer. rewrite Hv. cbn.
  assert (forall s', safe D s' -> handle_id h < next_id_ s' ->
    (forall p t, p ∈ held s' -> heap s' !! p = Some t -> id t = handle_id h -> cancelled t = true) ->
    safe (fun i => D i \/ i = handle_id h) s') as Hmore.
  { intros s' [Hw Hd] Hi Hc. split; [done|]. intros i [HD| ->]; [by apply Hd|]. by split. }
  destruct (task_map_ s !! handle_id h) as [p|] eqn:Hm.
  2: { apply Hmore; [done|done|]. intros q t Hq Ht Hidt. destruct (cancelled t) eqn:Hc; [done|].
       destruct Hs as [Hw _]. apply (wf_live _ _ Hw q t Hq Ht) in Hc. congruence. }
  assert (Hw := proj1 Hs). destruct (wf_map _ _ Hw _ _ Hm) as (t & Ht & Hidt).
  assert (forall q u, q ∈ held s -> heap s !! q = Some u -> id u = handle_id h -> q <> p -> cancelled u = true) as Hothers.
  { intros q u Hq Hu Hidu Hne. destruct (cancelled u) eqn:Hc; [done|].
    apply (wf_live _ _ Hw q u Hq Hu) in Hc. congruence. }
  unfold lock. case_decide as Hin; [rewrite Ht|]; cbn.
  - set (s1 := store p (with_cancelled t) s).
    assert (forall q u, q ∈ held s -> heap s1 !! q = Some u -> id u = handle_id h -> cancelled u = true) as Hall.
    { intros q u Hq. cbn. rewrite lookup_insert_Some. intros [[<- <-]|[Hne Hu]]; [done|]. eauto. }
    apply (Hmore (set_map (delete (handle_id h) (task_map_ s)) s1)); [|done|done].
    apply (safe_unmap D (held s) s1); [done|]. by eapply (safe_store D (held s) s s1 p t (with_cancelled t)).
  - assert (forall q u, q ∈ held s -> heap s !! q = Some u -> id u = handle_id h -> cancelled u = true) as Hall.
    { intros q u Hq Hu Hidu. apply (Hothers q u); congruence. }
    apply (Hmore (set_map (delete (handle_id h) (task_map_ s)) s)); [|done|done]. by apply safe_unmap.
Qed.

Lemma cancel_timer_next h s : next_id_ (cancel_timer h s).2 = next_id_ s.
Proof. unfold cancel_timer. repeat (case_match; cbn; try done). Qed.

(** Any cancellation keeps the dead ids dead. *)
Lemma cancel_timer_keeps D h s : (valid h = true -> handle_id h < next_id_ s) ->
  safe D s -> safe D (cancel_timer h s).2.
Proof.
  intros Hv Hs. destruct (valid h) eqn:E.
  - destruct (cancel_timer_safe D h s Hs E) as [Hw Hd]; [auto|]. split; [done|]. intros i Hi. apply Hd. by left.
  - unfold cancel_timer. by rewrite E.
Qed.

(** The repeat branch, with the erasure that follows it. *)
Lemma repeat_safe clock D s1 s2 s p t e layer slot i l :
  safe D s -> slot_at layer slot s = Some l -> l !! i = Some p -> heap s !! p = Some t -> cancelled t = false ->
  add_task_to_wheel clock (next_addr s)
    (make_shared (with_expire e t) (store p (with_expire e t) (current_time_ms clock s).2)).2 = Ok s1 ->
  forall l', slot_at layer slot s1 = Some l' -> l' !! i = Some p ->
  erase_at layer slot i (set_map (<[id t := next_addr s]> (task_map_ s1)) s1) = Ok s2 ->
  safe D s2 /\ next_id_ s2 = next_id_ s.
Proof.
  intros Hs Hl Hp Ht Hc Ha l' Hl' Hp' He.
  pose proof (slot_at_held _ _ _ _ _ _ Hl Hp) as Hheld.
  assert (next_addr s <> p) as Hne.
  { intros <-. rewrite (wf_addr _ _ (proj1 Hs)) in Ht; [done|lia]. }
  apply add_task_held with (t := with_expire e t) in Ha as (Hh & Hm & Hn & Hna & k & Hhp); [|apply lookup_insert_eq].
  cbn in Hh, Hm, Hn, Hna, Hhp. rewrite insert_insert_eq in Hhp.
  apply erase_at_held with (l := l') (p := p) in He as [Hr He2]; [|done|done].
  change (held (set_map _ s1)) with (held s1) in He2.
  destruct (elem_of_Permutation (held s) p) as [[rest Hrest] _]; [done|].
  assert (held s2 ≡ₚ next_addr s :: rest) as Hh2.
  { apply (Permutation_cons_inv (a := p)). rewrite <- He2, Hh. transitivity (next_addr s :: p :: rest); [|constructor].
    f_equiv. exact Hrest. }
  assert (heap s2 = heap s1 /\ task_map_ s2 = <[id t := next_addr s]> (task_map_ s1)
    /\ next_id_ s2 = next_id_ s1 /\ next_addr s2 = next_addr s1) as (Hx1 & Hx2 & Hx3 & Hx4) by by rewrite Hr.
  split; [|congruence]. eapply safe_perm; [symmetry; exact Hh2|]. clear Hr.
  set (s0 := store p (with_expire e t) s).
  assert (safe_on D rest s0) as Hs0.
  { eapply (safe_sub D (p :: rest) rest [p]); [done|].
    apply (safe_store D _ s s0 p t (with_expire e t)); try done. by apply (safe_perm D (held s)). }
  eapply (safe_new D rest s0 s2 (with_rounds k (with_expire e t))); cbn; try done.
  - congruence.
  - congruence.
  - congruence.
  - lia.
  - rewrite Hx3, Hn. by apply (wf_ids _ _ (proj1 Hs)) in Ht.
  - by eapply safe_live.
  - intros q u Hq. rewrite lookup_insert_Some. intros [[<- _]|[_ Hu]] Hidu.
    + pose proof (wf_nodup _ _ (proj1 Hs)) as Hnd. rewrite Hrest in Hnd. by apply NoDup_cons in Hnd as [? _].
    + destruct (cancelled u) eqn:Hcu; [done|]. pose proof (wf_nodup _ _ (proj1 Hs)) as Hnd. rewrite Hrest in Hnd.
      assert (q ∈ held s) as Hqh by (rewrite Hrest; by right).
      apply (wf_live _ _ (proj1 Hs) q u Hqh Hu) in Hcu. rewrite Hidu in Hcu.
      apply (wf_live _ _ (proj1 Hs) p t Hheld Ht) in Hc. apply NoDup_cons in Hnd as [Hnd _]. congruence.
Qed.

(** *** Slots after a write *)

Lemma slot_at_set_slot layer slot layer' slot' l s :
  is_Some (slot_at layer slot s) -> 0 <= slot' ->
  slot_at layer' slot' (set_slot layer slot l s)
  = if decide (layer' = layer /\ slot' = slot) then Some l else slot_at layer' slot' s.
Proof.
  intros [l0 (H0 & w & Hw & Hl)%slot_at_inv] Hs'. unfold slot_at, set_slot. cbn.
  rewrite (proj2 (Z.ltb_ge slot' 0)) by lia. destruct (decide (layer' = layer)) as [->|Hne].
  - rewrite list_lookup_alter_eq, Hw. cbn. destruct (decide (slot' = slot)) as [->|Hn].
    + rewrite decide_True by done. apply list_lookup_insert_eq. by eapply lookup_lt_Some.
    + rewrite decide_False by tauto. apply list_lookup_insert_ne. lia.
  - rewrite list_lookup_alter_ne by done. rewrite decide_False by tauto. done.
Qed.

Lemma slot_at_nonneg layer slot s l : slot_at layer slot s = Some l -> 0 <= slot.
Proof. by intros [? _]%slot_at_inv. Qed.

(** A push leaves what was in the slots. *)
Lemma push_back_slots layer slot p s s' : push_back layer slot p s = Ok s' ->
  forall layer' slot' l, slot_at layer' slot' s = Some l ->
    slot_at layer' slot' s' = Some (if decide (layer' = layer /\ slot' = slot) then l ++ [p] else l).
Proof.
  unfold push_back. intros H layer' slot' l Hl. obinv. rewrite slot_at_set_slot; [|eauto|by eapply slot_at_nonneg].
  case_decide as Hd; [|done]. destruct Hd as [-> ->]. congruence.
Qed.

Lemma add_task_slots clock p s s' : add_task_to_wheel clock p s = Ok s' ->
  forall layer slot l, slot_at layer slot s = Some l -> exists l', slot_at layer slot s' = Some (l ++ l').
Proof.
  unfold add_task_to_wheel. intros H layer slot l Hl. cbn in H. obinv. case_match; [done|]. obinv.
  eapply push_back_slots in H; [|exact Hl]. rewrite H. case_decide; [eauto|]. exists []. by rewrite app_nil_r.
Qed.

Section Callbacks.
Context (clock : nat -> Z) (cb : Z -> timer_wheel -> timer_wheel).

(** The callbacks' own effects keep [P]. *)
Definition callbacks_keep (P : timer_wheel -> Prop) : Prop := forall c s, P s -> P (cb c s).

Lemma process_slot_safe (D : Z -> Prop) fuel layer slot i s s' fired :
  callbacks_keep (safe D) -> safe D s -> process_slot clock cb fuel layer slot i s = Ok (s', fired) ->
  safe D s' /\ forall j, j ∈ fired -> ~ D j.
Proof.
  intros Hcb. revert i s s' fired. induction fuel as [|fuel IH]; intros i s s' fired Hs H; [done|].
  cbn [process_slot] in H. obinv. destruct (a !! i) as [p|] eqn:Hp.
  2: { obinv. split; [done|]. by intros j ?%not_elem_of_nil. }
  obinv. rename a0 into t. destruct (cancelled t) eqn:Hc.
  { obinv. pose proof (erase_at_held _ _ _ _ _ _ _ E1 E Hp) as [Hr Hh].
    eapply IH; [|exact H]. unfold safe. eapply safe_sub with (xs := [p]); [exact Hh|]. by eapply safe_rewheeled. }
  case_match.
  { eapply IH; [|exact H]. by apply (safe_store D (held s) s _ p t (with_rounds (rounds_left t - 1) t)). }
  obinv. destruct a2 as [s3 fired']. obinv. rename E1 into Er, E2 into Ee, E3 into Ep.
  assert (safe D a1) as Hs1.
  { destruct (0 <? interval t) eqn:Hi.
    - cbn in Er. obinv. destruct (add_task_slots _ _ _ _ E1 layer slot a E) as [l' Hl'].
      eapply (repeat_safe clock D a2 a1 s p t); [done|exact E|exact Hp|done|done|exact E1|exact Hl'| |exact Ee].
      by apply lookup_app_l_Some.
    - obinv. pose proof (erase_at_held _ _ _ _ _ _ _ Ee E Hp) as [Hr Hh].
      eapply safe_sub with (xs := [p]); [exact Hh|]. by eapply safe_rewheeled. }
  assert (~ D (id t)) as HD by (exact (safe_live D s p t Hs (slot_at_held _ _ _ _ _ _ E Hp) E0 Hc)).
  apply IH in Ep as [Hs' Hf]; [|destruct (callback t); auto].
  split; [done|]. destruct (callback t); [|done]. intros j [->|Hj]%elem_of_cons; auto.
Qed.

Lemma cascade_tasks_safe D ps s s' :
  safe_on D (ps ++ held s) s -> cascade_tasks clock ps s = Ok s' -> safe D s'.
Proof.
  revert s. induction ps as [|p ps IH]; intros s Hs H; cbn in H; [by obinv|]. obinv.
  case_match; [eapply IH; [|exact H]; exact (safe_sub D _ (ps ++ held s) [p] s (reflexivity _) Hs)|].
  set (s0 := (current_time_ms clock s).2) in *. obinv. apply IH in H; [done|].
  assert (safe_on D (p :: ps ++ held s) s0) as Hs0 by by apply (safe_ext D _ s).
  case_match; obinv.
  - apply push_back_held in E0 as [Hr Hh]. apply (safe_rewheeled D _ _ _ Hr).
    eapply safe_perm; [|exact Hs0]. rewrite Hh. apply (Permutation_middle ps (held s)).
  - apply add_task_held with (t := a) in E0 as (Hh & Hm & Hn & Hna & k & Hp); [|done].
    apply (safe_store D _ s0 a0 p a (with_rounds k a)); try done.
    eapply safe_perm; [|exact Hs0]. rewrite Hh. apply (Permutation_middle ps (held s)).
Qed.

Lemma held_set_current layer f s : held (set_current layer f s) = held s.
Proof.
  unfold held, set_current. cbn. f_equal. f_equal. revert layer. induction (wheels_ s) as [|w ws IH]; intros [|k];
    cbn; [done|done|done|by f_equal].
Qed.

Lemma advance_safe D layer s s' : safe D s -> advance layer s = Ok s' -> safe D s'.
Proof.
  unfold advance. intros Hs H. obinv. case_match; [done|]. obinv. unfold safe. rewrite held_set_current.
  by eapply safe_rewheeled.
Qed.

Lemma cascade_safe D layer s s' : safe D s -> cascade clock layer s = Ok s' -> safe D s'.
Proof.
  unfold cascade. intros Hs H. case_match; [by obinv|]. obinv. eapply cascade_tasks_safe; [|exact H].
  pose proof (held_set_slot _ _ _ _ [] E0) as Hh. rewrite app_nil_r in Hh.
  apply (safe_rewheeled D _ s); [done|]. eapply safe_perm; [|exact Hs]. rewrite <- Hh. apply Permutation_app_comm.
Qed.

(** The part of [tick] that follows the first layer's turn. *)
Definition after_turn (s : timer_wheel) : outcome timer_wheel :=
  z0 ←o at_zero 0 s;
  if (z0 : bool) then
    s ←o cascade clock 1 s;
    s ←o advance 1 s;
    z1 ←o at_zero 1 s;
    if z1 && (2 <? length (wheels_ s))%nat then
      s ←o cascade clock 2 s;
      s ←o advance 2 s;
      z2 ←o at_zero 2 s;
      if z2 && (3 <? length (wheels_ s))%nat then
        s ←o cascade clock 3 s;
        advance 3 s
      else Ok s
    else Ok s
  else Ok s.

Lemma tick_after_turn fuel s :
  tick clock cb fuel s =
  (w0 ←o need (wheels_ s !! 0%nat);
   '(s, fired) ←o process_slot clock cb fuel 0 (current_slot w0) 0 s;
   s ←o advance 0 s;
   s ←o after_turn s;
   Ok (s, fired)).
Proof.
  unfold tick, after_turn. destruct (wheels_ s !! 0%nat); [|done]. cbn [need obind].
  destruct (process_slot _ _ _ _ _ _ _) as [[s1 f]| |]; [|done|done]. cbn [obind].
  destruct (advance 0 s1) as [s2| |]; [|done|done]. cbn [obind]. by destruct (at_zero 0 s2).
Qed.

Lemma after_turn_safe D s s' : safe D s -> after_turn s = Ok s' -> safe D s'.
Proof.
  intros Hs H. unfold after_turn in H. apply obind_ok in H as (z0 & _ & H).
  destruct z0; [|by obinv]. obinv.
  apply cascade_safe with (D := D) in E; [|done]. apply advance_safe with (D := D) in E0; [|done].
  case_match; obinv; [|done].
  apply cascade_safe with (D := D) in E2; [|done]. apply advance_safe with (D := D) in E3; [|done].
  case_match; obinv; [|done].
  apply cascade_safe with (D := D) in E5; [|done]. by apply advance_safe with (D := D) in H.
Qed.

Lemma tick_safe D fuel s s' fired :
  callbacks_keep (safe D) -> safe D s -> tick clock cb fuel s = Ok (s', fired) ->
  safe D s' /\ forall j, j ∈ fired -> ~ D j.
Proof.
  intros Hcb Hs H. rewrite tick_after_turn in H. apply obind_ok in H as (w0 & _ & H).
  apply obind_ok in H as ([s1 f1] & E & H). apply process_slot_safe with (D := D) in E as [Hs1 Hf]; [|done|done].
  obinv. split; [|done]. apply advance_safe with (D := D) in E; [|done]. by apply after_turn_safe with (D := D) in E0.
Qed.

Lemma start_safe D s : safe D s -> safe D (start s).
Proof.
  unfold start. case_match; [done|]. intros Hs. unfold safe. apply (safe_ext D _ s); try done.
  replace (held _) with (held s); [done|]. unfold held. cbn. f_equal. rewrite <- list_fmap_compose. done.
Qed.

(** ** Histories

    [runs ticks s s' fired]: calls of the public operations lead from [s] to
    [s'], running the callbacks of the tasks [fired] in this order; [tick] only
    when [ticks].  A handle passed to [cancel_timer] was issued by this wheel. *)
Inductive runs (ticks : bool) : timer_wheel -> timer_wheel -> list Z -> Prop :=
| runs_refl s : runs ticks s s []
| runs_trans s1 s2 s3 f1 f2 : runs ticks s1 s2 f1 -> runs ticks s2 s3 f2 -> runs ticks s1 s3 (f1 ++ f2)
| runs_add_timer s d c h s' : ids_left s -> add_timer clock d c s = Ok (h, s') -> runs ticks s s' []
| runs_add_repeat_timer s d c h s' : ids_left s -> add_repeat_timer clock d c s = Ok (h, s') -> runs ticks s s' []
| runs_cancel s h : (valid h = true -> handle_id h < next_id_ s) -> runs ticks s (cancel_timer h s).2 []
| runs_start s : runs ticks s (start s) []
| runs_stop s : runs ticks s (stop s) []
| runs_tick s fuel s' fired : ticks = true -> tick clock cb fuel s = Ok (s', fired) -> runs ticks s s' fired.

(** A callback makes calls of the public operations, [tick] apart, and adds no
    timer once all the ids are used. *)
Definition callbacks_ok : Prop := forall c s, runs false s (cb c s) [].

Lemma runs_safe ticks D s s' fired :
  (ticks = true -> callbacks_keep (safe D)) -> runs ticks s s' fired -> safe D s ->
  safe D s' /\ forall j, j ∈ fired -> ~ D j.
Proof.
  intros Hcb Hr. induction Hr; intros Hs; try (split; [|by intros j ?%not_elem_of_nil]).
  - done.
  - destruct (IHHr1 Hs) as [H1 Hf1]. destruct (IHHr2 H1) as [H2 Hf2]. split; [done|].
    intros j [Hj|Hj]%elem_of_app; auto.
  - eapply add_task_safe; [done|done|exact H0].
  - eapply add_task_safe; [done|done|exact H0].
  - by apply cancel_timer_keeps.
  - by apply start_safe.
  - by apply (safe_ext D (held s) s).
  - eapply tick_safe; [|done|done]. auto.
Qed.

Lemma callbacks_safe D : callbacks_ok -> callbacks_keep (safe D).
Proof. intros Hcb c s Hs. by eapply (runs_safe false D); [|apply Hcb|]. Qed.

(** C5: Cancelling a timer is final: whatever the wheel did before, and whatever
    is done and whatever calls of the wheel the callbacks make afterwards, the callback of a
    cancelled timer, repeating or not, never runs again, and every handle of it
    is invalid. *)
Theorem cancel_is_final tick_ms size layers s0 s before h s' fired :
  callbacks_ok -> TimerWheel tick_ms size layers = Ok s0 ->
  runs true s0 s before ->
  valid h = true -> handle_id h < next_id_ s ->
  runs true (cancel_timer h s).2 s' fired ->
  (handle_id h ∉ fired) /\ forall h', handle_id h' = handle_id h -> is_timer_valid h' s' = false.
Proof.
  intros Hcb H0 Hb Hv Hid Ha.
  assert (safe (fun _ => False) s) as Hs.
  { eapply (runs_safe true); [intros _; by apply callbacks_safe|exact Hb|]. split; [by eapply TimerWheel_wf|done]. }
  apply (cancel_timer_safe _ h) in Hs; [|done|done].
  eapply (runs_safe true) in Ha as [[Hw Hd] Hf]; [|intros _; by apply callbacks_safe|exact Hs].
  split; [intros Hin; apply (Hf _ Hin); by right|].
  intros h' Hh. unfold is_timer_valid. case_match; [done|]. rewrite Hh.
  destruct (task_map_ s' !! handle_id h) as [p|] eqn:Hm; [|done].
  destruct (wf_map _ _ Hw _ _ Hm) as (t & Ht & Hidt). unfold lock. case_decide as Hheld; [|done]. rewrite Ht.
  destruct (Hd (handle_id h)) as [_ H']; [by right|]. by rewrite (H' p t).
Qed.

End Callbacks.

(** A clock that advances by one tick of the default wheel every four reads,
    and a wheel with one repeating timer, of id 1, driven by hand. *)
Definition demo_clock (k : nat) : Z := 25 * Z.of_nat k.

Definition quiet (c : Z) (s : timer_wheel) : timer_wheel := s.

Definition state_of {A} (d : timer_wheel) (m : outcome (A * timer_wheel)) : timer_wheel :=
  match m with Ok (_, s) => s | _ => d end.

Definition after_tick (clock : nat -> Z) (s : timer_wheel) : timer_wheel :=
  match tick clock quiet 10 s with Ok (s', _) => s' | _ => s end.

Definition demo0 : timer_wheel :=
  match TimerWheel 100 60 4 with Ok s => s | _ => mkTimerWheel [] false 1 ∅ ∅ 0 0 end.
Definition demo1 : timer_wheel := state_of demo0 (add_repeat_timer demo_clock 150 (Some 7) demo0).
Definition demo2 : timer_wheel := after_tick demo_clock demo1.
Definition demo3 : timer_wheel := after_tick demo_clock demo2.
Definition demo4 : timer_wheel := after_tick demo_clock (cancel_timer (mkHandle 1 true) demo3).2.

Lemma demo0_made : TimerWheel 100 60 4 = Ok demo0.
Proof. vm_compute. reflexivity. Qed.
Lemma demo1_added : add_repeat_timer demo_clock 150 (Some 7) demo0 = Ok (mkHandle 1 true, demo1).
Proof. vm_compute. reflexivity. Qed.
Lemma demo2_tick : tick demo_clock quiet 10 demo1 = Ok (demo2, []).
Proof. vm_compute. reflexivity. Qed.
Lemma demo3_tick : tick demo_clock quiet 10 demo2 = Ok (demo3, [1]).
Proof. vm_compute. reflexivity. Qed.
Lemma demo4_tick : tick demo_clock quiet 10 (cancel_timer (mkHandle 1 true) demo3).2 = Ok (demo4, []).
Proof. vm_compute. reflexivity. Qed.

Lemma cancel_is_final_witness :
  next_id_ demo3 = 2 /\ (1 ∉ ([] : list Z)) /\ forall h', handle_id h' = 1 -> is_timer_valid h' demo4 = false.
Proof.
  split; [vm_compute; reflexivity|].
  refine (cancel_is_final demo_clock quiet 100 60 4 demo0 demo3 ([] ++ ([] ++ [1])) (mkHandle 1 true) demo4 [] _ demo0_made _ _ _ _).
  - intros c s. apply runs_refl.
  - eapply runs_trans; [eapply runs_add_repeat_timer; [|exact demo1_added]|].
    + vm_compute. split; [discriminate|reflexivity].
    + eapply runs_trans; eapply runs_tick; [reflexivity|exact demo2_tick|reflexivity|exact demo3_tick].
  - reflexivity.
  - vm_compute. reflexivity.
  - eapply runs_tick; [reflexivity|exact demo4_tick].
Defined.

(** ** When a timer fires

    From here on the callbacks leave the wheel alone ([cb_quiet]), the clock never
    goes back and moves by at most [jitter] between two consecutive reads, and a
    repeating timer's interval is longer than a tick of layer 0 by that much
    ([calm]); [fast_repeat_hangs] is what happens to a faster one. *)

Record wheel_ok (w : Wheel) : Prop := {
  wheel_tick : 0 < tick_ms w;
  wheel_total : total_ms w = wheel_size w * tick_ms w;
  wheel_slots : Z.of_nat (length (slots w)) = wheel_size w;
  wheel_current : 0 <= current_slot w < wheel_size w;
  wheel_room : wheel_size w <= 2 ^ 30
}.

(** The layers after the first have ticks long enough for any delay to fit. *)
Definition coarse (ws : list Wheel) : Prop := Forall (fun w => wheel_size w = 1 \/ 2 <= tick_ms w) (tail ws).

Definition shape (s : timer_wheel) : Prop :=
  Forall wheel_ok (wheels_ s) /\ (2 <= length (wheels_ s))%nat /\ coarse (wheels_ s).

Lemma coarse_alter f layer ws : (forall w, wheel_size (f w) = wheel_size w /\ tick_ms (f w) = tick_ms w) ->
  coarse ws -> coarse (alter f layer ws).
Proof.
  intros Hf Hc. unfold coarse in *. destruct ws as [|w ws], layer as [|layer]; try done. cbn in *.
  apply Forall_alter; [done|]. intros v _ Hv. by destruct (Hf v) as [-> ->].
Qed.

(** The hand and the dimensions of a layer. *)
Definition geom (w : Wheel) : Z * Z * Z * Z := (current_slot w, tick_ms w, wheel_size w, total_ms w).
Definition same_geom (s s' : timer_wheel) : Prop := (geom <$> wheels_ s') = (geom <$> wheels_ s).

Definition blank_wheel (size tick : Z) : Wheel := mkWheel (replicate (Z.to_nat size) []) 0 tick size (size * tick).

(** A constructor that overflows nothing: the last layer's span is an [int]. *)
Lemma make_wheels_ok layers size tick : 0 < size -> 0 < tick -> size <= 2 ^ 30 -> tick * size ^ Z.of_nat layers < 2 ^ 31 ->
  exists ws, make_wheels layers size tick = Ok ws /\ Forall wheel_ok ws /\ length ws = layers
    /\ head ws = (if decide (layers = 0%nat) then None else Some (blank_wheel size tick))
    /\ Forall (fun w => wheel_size w = size /\ tick <= tick_ms w) ws.
Proof.
  intros Hs. revert tick. induction layers as [|n IH]; intros tick Ht Hr Hfit; cbn [make_wheels]; [by eexists|].
  rewrite Nat2Z.inj_succ, Z.pow_succ_r in Hfit by lia. pose proof (Z.pow_pos_nonneg size (Z.of_nat n) Hs ltac:(lia)).
  unfold new_wheel. rewrite (proj2 (Z.ltb_ge size 0)) by lia. rewrite !as_int_ok by nia. cbn [obind].
  destruct (IH (tick * size)) as (ws & -> & Hw & Hl & _ & Hg); [nia|lia|lia|]. cbn [obind]. eexists. split; [done|].
  split_and!; [|cbn; by rewrite Hl|done|].
  - constructor; [|done]. split; cbn; [done|done|rewrite length_replicate; lia|lia|done].
  - constructor; [done|]. eapply Forall_impl; [done|]. intros w [? ?]. split; [done|]. nia.
Qed.

(** Where the constructor returns, every layer's span was an [int]. *)
Lemma make_wheels_fits layers size tick ws : 0 < size -> 0 < tick -> make_wheels layers size tick = Ok ws -> tick * size ^ Z.of_nat layers < 2 ^ 31 \/ layers = 0%nat.
Proof.
  intros Hs. revert tick ws. induction layers as [|n IH]; intros tick ws Ht Hm; [by right|left]. cbn [make_wheels] in Hm. obinv.
  apply as_int_inv in E0 as [-> ?]. rewrite Nat2Z.inj_succ, Z.pow_succ_r, Z.mul_assoc by lia.
  destruct (IH (tick * size) a1) as [?| ->]; [nia|done|done|]. cbn. lia.
Qed.

Lemma TimerWheel_made tick size layers : 0 < tick -> 0 < size -> (2 <= layers)%nat -> tick * size ^ Z.of_nat layers < 2 ^ 31 ->
  exists s, TimerWheel tick size layers = Ok s /\ shape s /\ wheels_ s !! 0%nat = Some (blank_wheel size tick) /\ heap s = ∅ /\ reads s = 0%nat /\ next_id_ s = 1.
Proof.
  intros Ht Hs Hl Hfit. assert (size <= 2 ^ 30) as Hr.
  { destruct layers as [|[|n]]; [lia..|]. rewrite !Nat2Z.inj_succ, !Z.pow_succ_r in Hfit by lia.
    pose proof (Z.pow_pos_nonneg size (Z.of_nat n) Hs ltac:(lia)). assert (size = 1 \/ 2 <= size) as [->|?] by lia; [lia|]. nia. }
  destruct layers as [|n]; [lia|]. assert (Hfit' := Hfit). rewrite Nat2Z.inj_succ, Z.pow_succ_r, Z.mul_assoc in Hfit by lia.
  pose proof (Z.pow_pos_nonneg size (Z.of_nat n) Hs ltac:(lia)).
  destruct (make_wheels_ok n size (tick * size)) as (ws & Hm & Hw & Hlen & _ & Hg); [done|nia|done|done|].
  unfold TimerWheel. cbn [make_wheels]. unfold new_wheel. rewrite (proj2 (Z.ltb_ge size 0)) by lia. rewrite !as_int_ok by nia. cbn [obind].
  rewrite Hm. cbn [obind]. eexists. split; [done|]. split_and!; try done. split_and!; cbn [wheels_].
  - constructor; [|done]. split; cbn; [done|done|rewrite length_replicate; lia|lia|done].
  - cbn. lia.
  - unfold coarse. cbn. eapply Forall_impl; [done|]. intros w [-> ?]. assert (size = 1 \/ 2 <= size) as [->|?] by lia; [by left|right]. nia.
Qed.

Lemma TimerWheel_ok tick size layers s : 0 < tick -> 0 < size -> (2 <= layers)%nat -> TimerWheel tick size layers = Ok s ->
  shape s /\ wheels_ s !! 0%nat = Some (blank_wheel size tick) /\ s = mkTimerWheel (wheels_ s) false 1 ∅ ∅ 0 0.
Proof.
  intros Ht Hs Hl H. assert (exists ws, make_wheels layers size tick = Ok ws /\ s = mkTimerWheel ws false 1 ∅ ∅ 0 0) as (ws & Hm & E).
  { unfold TimerWheel in H. obinv. by eexists. }
  destruct (make_wheels_fits layers size tick ws Hs Ht Hm) as [Hfit|]; [|lia].
  destruct (TimerWheel_made tick size layers Ht Hs Hl Hfit) as (s' & H' & Hsh & Hw & _). rewrite H in H'. injection H' as <-.
  split_and!; [done|done|by subst].
Qed.

(** A last span that is no [int] overflows in the constructor. *)
Theorem constructor_overflows tick size layers : 0 < tick -> 0 < size -> layers <> 0%nat -> 2 ^ 31 <= tick * size ^ Z.of_nat layers ->
  TimerWheel tick size layers = Undefined.
Proof.
  intros Ht Hs. unfold TimerWheel. intros Hl Hbig. enough (make_wheels layers size tick = Undefined) as -> by done.
  revert tick Ht Hl Hbig. induction layers as [|n IH]; intros tick Ht Hl Hbig; [done|]. cbn [make_wheels]. unfold new_wheel.
  rewrite (proj2 (Z.ltb_ge size 0)) by lia. unfold as_int at 1. destruct (int_range (size * tick)) eqn:E; [|done]. cbn [obind].
  apply int_range_spec in E. rewrite as_int_ok by nia. cbn [obind].
  rewrite Nat2Z.inj_succ, Z.pow_succ_r, Z.mul_assoc in Hbig by lia.
  rewrite IH; [done|nia| |done]. intros ->. cbn in Hbig. lia.
Qed.

Lemma constructor_overflows_witness : TimerWheel 166 60 4 = Undefined.
Proof. apply constructor_overflows; vm_compute; congruence. Defined.

Lemma set_slot_geom layer slot l s : same_geom s (set_slot layer slot l s).
Proof.
  unfold same_geom, set_slot. cbn. revert layer. induction (wheels_ s) as [|w ws IH]; intros [|k]; cbn;
    [done|done|done|by f_equal].
Qed.

Lemma set_slot_shape layer slot l s : shape s -> shape (set_slot layer slot l s).
Proof.
  intros (Hw & Hl & Hc). split_and!; [|by cbn; rewrite length_alter|by apply coarse_alter]. cbn. apply Forall_alter; [done|].
  intros w _ []. split; cbn; [done|done|by rewrite length_insert|done|done].
Qed.

Lemma same_geom_lookup s s' layer w : same_geom s s' -> wheels_ s !! layer = Some w ->
  exists w', wheels_ s' !! layer = Some w' /\ geom w' = geom w.
Proof.
  intros Hg Hw. assert ((geom <$> wheels_ s') !! layer = Some (geom w)) as H.
  { rewrite Hg, list_lookup_fmap, Hw. done. }
  rewrite list_lookup_fmap in H. destruct (wheels_ s' !! layer) as [w'|]; [|done].
  cbn in H. exists w'. split; [done|]. congruence.
Qed.

Lemma shape_layer s layer : shape s -> (layer < length (wheels_ s))%nat ->
  exists w, wheels_ s !! layer = Some w /\ wheel_ok w.
Proof.
  intros [Hw _] Hl. apply lookup_lt_is_Some in Hl as [w Hl]. exists w. split; [done|].
  eapply Forall_lookup in Hw; [|done]. done.
Qed.

Lemma shape_slot s layer w slot : shape s -> wheels_ s !! layer = Some w -> 0 <= slot < wheel_size w ->
  is_Some (slot_at layer slot s).
Proof.
  intros [Hw _] Hl Hs. eapply Forall_lookup in Hw; [|done]. unfold slot_at. rewrite Hl. cbn.
  rewrite (proj2 (Z.ltb_ge slot 0)) by lia. apply lookup_lt_is_Some. destruct Hw. lia.
Qed.

Lemma find_layer_some ws delay : ws <> [] ->
  exists layer, find_layer ws delay = Some layer /\ (layer < length ws)%nat.
Proof.
  induction ws as [|w [|w' ws] IH]; intros H; [done|exists 0%nat; cbn; split; [done|lia]|]. cbn [find_layer].
  case_test; [exists 0%nat; cbn; split; [done|lia]|].
  destruct IH as (layer & Hl & ?); [done|]. exists (S layer).
  change (find_layer (w' :: ws) delay) with (find_layer (w' :: ws) delay) in Hl. cbn [find_layer] in Hl.
  rewrite Hl. cbn in *. split; [done|lia].
Qed.

Lemma find_layer_zero w w' ws delay : find_layer (w :: w' :: ws) delay = Some 0%nat <-> delay < total_ms w.
Proof.
  change (find_layer (w :: w' :: ws) delay)
    with (if delay <? total_ms w then Some 0%nat else S <$> find_layer (w' :: ws) delay).
  case_test; [by split|]. split; [|lia]. by destruct (find_layer (w' :: ws) delay).
Qed.

Lemma find_layer_span ws delay layer w : find_layer ws delay = Some layer -> ws !! layer = Some w ->
  delay < total_ms w \/ S layer = length ws.
Proof.
  revert layer. induction ws as [|v [|v' ws] IH]; intros layer Hl Hw; [done|injection Hl as <-; by right|]. cbn [find_layer] in Hl.
  destruct (delay <? total_ms v) eqn:E; [injection Hl as <-; injection Hw as ->; breflect; by left|].
  change (S <$> find_layer (v' :: ws) delay = Some layer) in Hl. destruct (find_layer (v' :: ws) delay) as [k|]; [|done].
  injection Hl as <-. cbn in Hw. destruct (IH k eq_refl Hw) as [?|?]; [by left|right; cbn in *; lia].
Qed.

(** The slot's index before it is reduced is an [int]. *)
Lemma slot_sum_fits s delay layer w : shape s -> find_layer (wheels_ s) delay = Some layer -> wheels_ s !! layer = Some w ->
  0 < delay < 2 ^ 31 -> 0 <= current_slot w + delay / tick_ms w < 2 ^ 31.
Proof.
  intros (Hf & Hlen & Hc) Hl Hw Hd. destruct (Forall_lookup_1 _ _ _ _ Hf Hw) as [Ht Htot Hsl Hcur Hroom].
  assert (0 <= delay / tick_ms w) by (apply Z.div_pos; lia).
  destruct (find_layer_span _ _ _ _ Hl Hw) as [Hspan|Hlast].
  - assert (delay / tick_ms w < wheel_size w) by (apply Z.div_lt_upper_bound; lia). lia.
  - assert (wheel_size w = 1 \/ 2 <= tick_ms w) as Hcw.
    { destruct (wheels_ s) as [|v ws]; [done|]. cbn in Hlen, Hlast. destruct layer as [|layer]; [lia|].
      exact (Forall_lookup_1 _ _ _ _ Hc Hw). }
    destruct Hcw as [H1|H2].
    + assert (delay / tick_ms w <= delay) by (apply Z.div_le_upper_bound; nia). lia.
    + assert (delay / tick_ms w <= delay / 2) by (apply Z.div_le_compat_l; lia).
      pose proof (Z.div_le_mono delay (2 ^ 31 - 1) 2 ltac:(lia) ltac:(lia)) as H3. change ((2 ^ 31 - 1) / 2) with (2 ^ 30 - 1) in H3. lia.
Qed.

(** Where [add_task_to_wheel] puts a task of the given delay. *)
Lemma add_task_spec clock s p t w0 :
  shape s -> heap s !! p = Some t -> wheels_ s !! 0%nat = Some w0 ->
  let delay := Z.max 1 (expire_time t - clock (reads s)) in
  delay < 2 ^ 31 ->
  exists layer slot r l, slot_at layer slot s = Some l
    /\ add_task_to_wheel clock p s
       = Ok (set_slot layer slot (l ++ [p]) (store p (with_rounds r t) (current_time_ms clock s).2))
    /\ (layer = 0%nat -> tick_ms w0 <= delay -> slot <> current_slot w0)
    /\ (delay < total_ms w0 ->
        layer = 0%nat /\ slot = (current_slot w0 + delay / tick_ms w0) mod wheel_size w0 /\ r = 0).
Proof.
  intros Hsh Ht Hw0 delay Hd. unfold add_task_to_wheel. rewrite Ht. cbn [need obind current_time_ms].
  assert ((if expire_time t - clock (reads s) <=? 0 then 1 else expire_time t - clock (reads s)) = delay) as ->
    by (subst delay; case_match; breflect; lia).
  cbn [wheels_]. destruct (find_layer_some (wheels_ s) delay) as (layer & Hl & Hlt).
  { destruct Hsh as [_ Hs]. by destruct (wheels_ s). }
  rewrite Hl. cbn [need obind]. destruct (shape_layer s layer Hsh Hlt) as (w & Hw & [Htick Htot Hsl Hc _]).
  rewrite Hw. cbn [need obind]. rewrite !(proj2 (Z.eqb_neq _ _)) by lia. cbn [orb].
  assert (0 < delay) as Hd0 by lia.
  assert (0 <= delay / tick_ms w <= delay) as Hq.
  { split; [apply Z.div_pos; lia|]. apply Z.div_le_upper_bound; [lia|]. nia. }
  rewrite Z.quot_div_nonneg by lia. rewrite i32_small by lia.
  rewrite as_int_ok by (pose proof (slot_sum_fits s delay layer w Hsh Hl Hw); lia). cbn [obind]. rewrite Z.rem_mod_nonneg by lia.
  rewrite Z.quot_div_nonneg by lia.
  set (slot := (current_slot w + delay / tick_ms w) mod wheel_size w).
  assert (0 <= slot < wheel_size w) as Hslot by (apply Z.mod_pos_bound; lia).
  destruct (shape_slot s layer w slot Hsh Hw Hslot) as [l Hsa].
  exists layer, slot, (delay / tick_ms w / wheel_size w), l. split; [done|]. split.
  { unfold push_back. change (slot_at layer slot (store _ _ _)) with (slot_at layer slot s). by rewrite Hsa. }
  assert (wheels_ s = w0 :: tail (wheels_ s) /\ tail (wheels_ s) <> []) as [Hws Htl].
  { destruct Hsh as [_ Hs]. destruct (wheels_ s) as [|v [|v' vs]]; cbn in *; [lia|lia|]. by simplify_eq. }
  assert (layer = 0%nat <-> delay < total_ms w0) as Hiff.
  { destruct (tail (wheels_ s)) as [|v vs] eqn:Et; [done|]. rewrite Hws in Hl. rewrite <- find_layer_zero, Hl. by split; [intros ->|intros [= ->]]. }
  assert (layer = 0%nat -> w = w0) as Hww by (intros ->; congruence).
  assert (layer = 0%nat -> delay / tick_ms w < wheel_size w) as Hlt0.
  { intros H0. rewrite <- (Hww H0) in Hiff. apply Z.div_lt_upper_bound; [lia|]. apply Hiff in H0. lia. }
  split.
  - intros H0 Hge. specialize (Hlt0 H0). rewrite <- (Hww H0) in *. subst slot.
    assert (1 <= delay / tick_ms w) by (apply Z.div_le_lower_bound; lia).
    destruct (Z.lt_ge_cases (current_slot w + delay / tick_ms w) (wheel_size w)).
    + rewrite Z.mod_small by lia. lia.
    + rewrite <- (Z_mod_plus_full _ (-1)), Z.mod_small; lia.
  - intros H. apply Hiff in H. specialize (Hlt0 H). rewrite <- (Hww H) in *. split_and!; [done|done|].
    apply Z.div_small. lia.
Qed.

Section Firing.
Context (clock : nat -> Z) (jitter : Z) (cb : Z -> timer_wheel -> timer_wheel).
Hypothesis clock_steady : forall k, clock k <= clock (S k) <= clock k + jitter.
Hypothesis cb_quiet : forall c s, cb c s = s.

(** Tasks expire within an [int] of now; a repeating one is slow. *)
Definition task_ok (t0 now : Z) (t : TimerTask) : Prop :=
  expire_time t < now + 2 ^ 31 /\ (0 < interval t -> t0 + jitter <= interval t < 2 ^ 31).

Definition heap_ok (t0 : Z) (s : timer_wheel) : Prop :=
  forall p t, heap s !! p = Some t -> task_ok t0 (clock (reads s)) t.

Record good (w0 : Wheel) (s : timer_wheel) : Prop := {
  good_wf : wf s;
  good_shape : shape s;
  good_heap : heap_ok (tick_ms w0) s;
  good_layer0 : exists w, wheels_ s !! 0%nat = Some w /\ geom w = geom w0
}.

(** Slots other than [slot] of layer 0 keep what they hold. *)
Definition others_grow (slot : Z) (s s' : timer_wheel) : Prop :=
  forall layer slot' k, slot_at layer slot' s = Some k -> ~ (layer = 0%nat /\ slot' = slot) ->
    exists k', slot_at layer slot' s' = Some (k ++ k').

Lemma others_grow_trans slot s1 s2 s3 :
  others_grow slot s1 s2 -> others_grow slot s2 s3 -> others_grow slot s1 s3.
Proof.
  intros H1 H2 layer slot' k Hk Hne. destruct (H1 _ _ _ Hk Hne) as [k1 Hk1].
  destruct (H2 _ _ _ Hk1 Hne) as [k2 Hk2]. exists (k1 ++ k2). by rewrite app_assoc.
Qed.

Lemma set_slot_grows layer slot k k' slot0 s :
  slot_at layer slot s = Some k -> (layer = 0%nat /\ slot = slot0) \/ (exists k1, k' = k ++ k1) ->
  others_grow slot0 s (set_slot layer slot k' s).
Proof.
  intros Hk Hor layer' slot' k2 Hk2 Hne.
  rewrite slot_at_set_slot; [|eauto|by eapply slot_at_nonneg]. case_decide as Hd.
  - destruct Hd as [-> ->]. destruct Hor as [?|[k1 ->]]; [tauto|]. exists k1. congruence.
  - exists []. by rewrite app_nil_r.
Qed.

Lemma task_ok_later t0 now now' t : now <= now' -> task_ok t0 now t -> task_ok t0 now' t.
Proof. unfold task_ok. lia. Qed.

(** What one turn of [process_slot]'s loop does to the task [p] of the
    position [i]: the rest of the slot comes next, and everything else stays. *)
Definition turn (w0 : Wheel) (i : nat) (l : list Z) (p : Z) (t : TimerTask) (s s1 : timer_wheel) (i1 : nat) (l1 : list Z) : Prop :=
  good w0 s1 /\ same_geom s s1 /\ slot_at 0 (current_slot w0) s1 = Some l1
  /\ drop i1 l1 = drop (S i) l /\ (length l1 - i1 < length l - i)%nat
  /\ (length (held s1) <= length (held s))%nat
  /\ (forall q, q ∈ held s -> q <> p -> q ∈ held s1 /\ heap s1 !! q = heap s !! q)
  /\ others_grow (current_slot w0) s s1 /\ next_id_ s1 = next_id_ s
  /\ (cancelled t = false -> rounds_left t <= 0 -> interval t = 0 ->
      held s ≡ₚ p :: held s1 /\ heap s1 = heap s).

Definition due (t : TimerTask) : list Z :=
  if cancelled t then [] else if 0 <? rounds_left t then []
  else match callback t with Some _ => [id t] | None => [] end.

Lemma drop_delete (l : list Z) i : drop i (delete i l) = drop (S i) l.
Proof. revert i. induction l as [|p l IH]; intros [|i]; [done|done|done|]. apply IH. Qed.

Lemma erase_turn w0 s i l p t s1 :
  good w0 s -> slot_at 0 (current_slot w0) s = Some l -> l !! i = Some p -> heap s !! p = Some t ->
  s1 = set_slot 0 (current_slot w0) (delete i l) s ->
  turn w0 i l p t s s1 i (delete i l) /\ erase_at 0 (current_slot w0) i s = Ok s1.
Proof.
  intros [Hwf Hsh Hho (w & Hw & Hg)] Hl Hp Ht ->.
  assert (erase_at 0 (current_slot w0) i s = Ok (set_slot 0 (current_slot w0) (delete i l) s)) as He
    by (unfold erase_at; by rewrite Hl).
  split; [|done]. pose proof (erase_at_held _ _ _ _ _ _ _ He Hl Hp) as [Hr Hh].
  pose proof (lookup_lt_Some _ _ _ Hp). split_and!.
  - split; [|by apply set_slot_shape|done|].
    + assert (safe (fun _ => False) s) as Hs by done.
      refine (proj1 (safe_sub (fun _ => False) _ _ [p] _ Hh _)). by apply (safe_rewheeled _ _ _ _ Hr).
    + destruct (same_geom_lookup _ _ _ _ (set_slot_geom 0 (current_slot w0) (delete i l) s) Hw) as (w' & ? & ?).
      exists w'. split; [done|congruence].
  - apply set_slot_geom.
  - rewrite slot_at_set_slot; [|eauto|by eapply slot_at_nonneg]. by rewrite decide_True.
  - apply drop_delete.
  - rewrite length_delete by done. lia.
  - rewrite Hh. cbn. lia.
  - intros q Hq Hne. split; [|done]. rewrite Hh in Hq. set_solver.
  - eapply set_slot_grows; [done|by left].
  - done.
  - done.
Qed.

Lemma rounds_turn w0 s i l p t r :
  good w0 s -> slot_at 0 (current_slot w0) s = Some l -> l !! i = Some p -> heap s !! p = Some t ->
  0 < rounds_left t ->
  turn w0 i l p t s (store p (with_rounds r t) s) (S i) l.
Proof.
  intros [Hwf Hsh Hho (w & Hw & Hg)] Hl Hp Ht Hr. pose proof (lookup_lt_Some _ _ _ Hp).
  split_and!; try done.
  - split; [|done| |by exists w].
    + refine (proj1 (safe_store (fun _ => False) (held s) s _ p t (with_rounds r t) _ _ _ _ _ _ _ _)); done.
    + intros q u. cbn. rewrite lookup_insert_Some. intros [[<- <-]|[_ Hu]]; [|by eapply Hho]. exact (Hho p t Ht).
  - lia.
  - intros q Hq Hne. split; [done|]. cbn. by rewrite lookup_insert_ne.
  - intros layer slot k Hk _. exists []. by rewrite app_nil_r.
  - lia.
Qed.

(** A repeating task is put into another slot, and its old address erased. *)
Lemma repeat_turn w0 s i l p t :
  good w0 s -> slot_at 0 (current_slot w0) s = Some l -> l !! i = Some p -> heap s !! p = Some t ->
  cancelled t = false -> 0 < interval t ->
  let t' := with_expire (clock (reads s) + interval t) t in
  exists s1 s2, add_task_to_wheel clock (next_addr s) (make_shared t' (store p t' (current_time_ms clock s).2)).2 = Ok s1
    /\ erase_at 0 (current_slot w0) i (set_map (<[id t := next_addr s]> (task_map_ s1)) s1) = Ok s2
    /\ turn w0 i l p t s s2 i (delete i l).
Proof.
  intros [Hwf Hsh Hho (w & Hw & Hg)] Hl Hp Ht Hc Hi t'.
  set (s0 := (make_shared t' (store p t' (current_time_ms clock s).2)).2).
  pose proof (lookup_lt_Some _ _ _ Hp) as Hlt. destruct (Hho p t Ht) as [_ Hslow]. specialize (Hslow Hi).
  pose proof (clock_steady (reads s)) as Hck. pose proof (clock_steady (S (reads s))) as Hck'.
  assert (current_slot w = current_slot w0 /\ tick_ms w = tick_ms w0) as [Hcw Htw] by (unfold geom in Hg; split; congruence).
  assert (wheel_ok w) as Hwok by (destruct Hsh as [Hf _]; by eapply Forall_lookup in Hf).
  destruct (add_task_spec clock s0 (next_addr s) t' w) as (layer & slot & r & k & Hk & Ha & Hne & _).
  { exact Hsh. } { apply lookup_insert_eq. } { exact Hw. } { cbn. lia. }
  assert (~ (layer = 0%nat /\ slot = current_slot w0)) as Hother.
  { intros [-> ->]. apply Hne; [done| |congruence]. cbn. lia. }
  eexists. eexists (set_slot 0 (current_slot w0) (delete i l) _). split; [exact Ha|].
  assert (forall l0 x, slot_at layer slot s = Some l0 -> slot_at 0 (current_slot w0) (set_slot layer slot x s) = Some l) as Hl1.
  { intros l0 x Hl0. rewrite slot_at_set_slot; [|eauto|by eapply slot_at_nonneg]. rewrite decide_False; [done|].
    intros [<- <-]. tauto. }
  set (s1 := set_slot layer slot (k ++ [next_addr s]) _) in *.
  set (s2 := set_map (<[id t := next_addr s]> (task_map_ s1)) s1) in *.
  assert (slot_at 0 (current_slot w0) s2 = Some l) as Hl2 by exact (Hl1 k _ Hk).
  assert (erase_at 0 (current_slot w0) i s2 = Ok (set_slot 0 (current_slot w0) (delete i l) s2)) as He
    by (unfold erase_at; by rewrite Hl2).
  split; [exact He|].
  assert (safe (fun _ => False) s) as Hs0 by done.
  destruct (repeat_safe clock (fun _ => False) s1 _ s p t _ 0%nat (current_slot w0) i l Hs0 Hl Hp Ht Hc Ha l Hl2 Hp He)
    as [[Hwf2 _] Hni].
  pose proof (erase_at_held _ _ _ _ _ _ _ He Hl2 Hp) as [_ Hh2].
  pose proof (add_task_held _ _ _ _ _ Ha (lookup_insert_eq _ _ _)) as (Hh1 & _).
  change (held s0) with (held s) in Hh1. change (held s2) with (held s1) in Hh2. rewrite Hh1 in Hh2.
  assert (next_addr s <> p) as Hnp.
  { intros <-. rewrite (wf_addr _ _ Hwf) in Ht; [done|lia]. }
  split_and!.
  - split; [exact Hwf2|by repeat apply set_slot_shape| |].
    + intros q u. cbn. rewrite lookup_insert_Some. cbn.
      assert (task_ok (tick_ms w0) (clock (S (S (reads s)))) t') as Ht'.
      { split; cbn; [lia|]. intros _. lia. }
      intros [[<- <-]|[_ Hu]]; [exact Ht'|]. rewrite !lookup_insert_Some in Hu.
      destruct Hu as [[<- <-]|[_ [[<- <-]|[_ Hu]]]]; [exact Ht'|exact Ht'|].
      eapply task_ok_later; [|by eapply Hho]. lia.
    + destruct (same_geom_lookup _ _ _ _ (set_slot_geom layer slot (k ++ [next_addr s]) s) Hw) as (w1 & Hw1 & Hg1).
      destruct (same_geom_lookup _ _ _ _ (set_slot_geom 0 (current_slot w0) (delete i l) _) Hw1) as (w2 & Hw2 & Hg2).
      exists w2. split; [exact Hw2|congruence].
  - unfold same_geom. etransitivity; [apply (set_slot_geom 0 (current_slot w0) (delete i l) s2)|].
    apply (set_slot_geom layer slot (k ++ [next_addr s]) s).
  - rewrite slot_at_set_slot; [|eauto|by eapply slot_at_nonneg]. by rewrite decide_True.
  - apply drop_delete.
  - rewrite length_delete by done. lia.
  - apply Permutation_length, eq_add_S in Hh2. apply Nat.eq_le_incl. symmetry. exact Hh2.
  - intros q Hq Hqp. assert (q <> next_addr s) as Hqn.
    { intros ->. apply (wf_held _ _ Hwf) in Hq as [u Hu]. rewrite (wf_addr _ _ Hwf) in Hu; [done|lia]. }
    split.
    + assert (q ∈ next_addr s :: held s) as Hq2 by (by right). rewrite Hh2 in Hq2. set_solver.
    + cbn. by rewrite !lookup_insert_ne.
  - eapply others_grow_trans; [|eapply (set_slot_grows 0 (current_slot w0) l); [exact Hl2|by left]].
    apply (set_slot_grows layer slot k (k ++ [next_addr s]) (current_slot w0) s Hk). right. eauto.
  - exact Hni.
  - lia.
Qed.

(** One turn of the loop. *)
Lemma process_turn w0 s i l p t :
  good w0 s -> slot_at 0 (current_slot w0) s = Some l -> l !! i = Some p -> heap s !! p = Some t ->
  exists s1 i1 l1, turn w0 i l p t s s1 i1 l1 /\ forall fuel,
    process_slot clock cb (S fuel) 0 (current_slot w0) i s
    = ('(s', f) ←o process_slot clock cb fuel 0 (current_slot w0) i1 s1; Ok (s', due t ++ f)).
Proof.
  intros Hg Hl Hp Ht. unfold due. cbn [process_slot]. rewrite Hl. cbn [need obind]. rewrite Hp, Ht. cbn [need obind].
  destruct (cancelled t) eqn:Hc.
  { destruct (erase_turn w0 s i l p t _ Hg Hl Hp Ht eq_refl) as [Htu He]. eexists _, _, _. split; [exact Htu|].
    intros fuel. rewrite He. cbn [obind]. by destruct (process_slot _ _ _ _ _ _ _) as [[? ?]| |]. }
  destruct (0 <? rounds_left t) eqn:Hr.
  { breflect. eexists _, _, _. split; [by apply (rounds_turn w0 s i l p t (rounds_left t - 1))|].
    intros fuel. by destruct (process_slot _ _ _ _ _ _ _) as [[? ?]| |]. }
  destruct (0 <? interval t) eqn:Hi.
  - breflect. destruct (repeat_turn w0 s i l p t Hg Hl Hp Ht Hc Hi) as (s1 & s2 & Ha & He & Htu).
    eexists _, _, _. split; [exact Htu|]. intros fuel. cbn [current_time_ms make_shared].
    match goal with |- context [add_task_to_wheel clock ?q ?x] =>
      change (add_task_to_wheel clock q x) with (add_task_to_wheel clock (next_addr s)
        (make_shared (with_expire (clock (reads s) + interval t) t)
          (store p (with_expire (clock (reads s) + interval t) t) (current_time_ms clock s).2)).2) end.
    rewrite Ha. cbn [obind].
    match goal with |- context [erase_at 0 _ i ?x] =>
      change x with (set_map (<[id t := next_addr s]> (task_map_ s1)) s1) end. rewrite He. cbn [obind].
    destruct (callback t); rewrite ?cb_quiet; by destruct (process_slot _ _ _ _ _ _ _) as [[? ?]| |].
  - destruct (erase_turn w0 s i l p t _ Hg Hl Hp Ht eq_refl) as [Htu He]. eexists _, _, _. split; [exact Htu|].
    intros fuel. cbn [obind]. rewrite He. cbn [obind].
    destruct (callback t); rewrite ?cb_quiet; by destruct (process_slot _ _ _ _ _ _ _) as [[? ?]| |].
Qed.

(** The pass over the current slot: it ends, it fires the one-shot tasks that
    are due exactly once and no live task held elsewhere. *)
Definition slot_pass (w0 : Wheel) (l : list Z) (i : nat) (s s' : timer_wheel) (fired : list Z) : Prop :=
  good w0 s' /\ same_geom s s' /\ (length (held s') <= length (held s))%nat
  /\ others_grow (current_slot w0) s s'
  /\ (forall q u, q ∈ held s -> heap s !! q = Some u -> cancelled u = false -> q ∉ drop i l ->
      (id u ∉ fired) /\ q ∈ held s' /\ heap s' !! q = Some u)
  /\ (forall q u c, q ∈ drop i l -> heap s !! q = Some u -> cancelled u = false -> rounds_left u <= 0 ->
      interval u = 0 -> callback u = Some c ->
      dead_on (held s') s' (id u) /\ exists f1 f2, fired = f1 ++ id u :: f2 /\ (id u ∉ f1) /\ (id u ∉ f2)).

Lemma wf_same_id s p q t u : wf s -> p ∈ held s -> q ∈ held s -> heap s !! p = Some t -> heap s !! q = Some u ->
  cancelled t = false -> cancelled u = false -> id t = id u -> p = q.
Proof.
  intros Hw Hp Hq Ht Hu Hct Hcu Hid. apply (wf_live _ _ Hw p t Hp Ht) in Hct.
  apply (wf_live _ _ Hw q u Hq Hu) in Hcu. congruence.
Qed.

Lemma due_live t j : j ∈ due t -> cancelled t = false /\ j = id t.
Proof. unfold due. repeat case_match; intros Hj; try by apply not_elem_of_nil in Hj. by apply list_elem_of_singleton in Hj. Qed.

Lemma turn_dead w0 i l p t s s1 i1 l1 : wf s -> p ∈ held s -> heap s !! p = Some t -> cancelled t = false ->
  rounds_left t <= 0 -> interval t = 0 -> turn w0 i l p t s s1 i1 l1 -> dead_on (held s1) s1 (id t).
Proof.
  intros Hw Hp Ht Hc Hr Hi (_ & _ & _ & _ & _ & _ & _ & _ & Hn & Hh). destruct (Hh Hc Hr Hi) as [Hheld Hheap].
  split; [rewrite Hn; by apply (wf_ids _ _ Hw) in Ht|]. rewrite Hheap. intros q u Hq Hu Hid.
  destruct (cancelled u) eqn:Hcu; [done|]. pose proof (wf_nodup _ _ Hw) as Hnd. rewrite Hheld in Hnd.
  apply NoDup_cons in Hnd as [Hnd _]. destruct Hnd.
  rewrite (wf_same_id s p q t u); try done. rewrite Hheld. by right.
Qed.

Lemma slot_nodup layer slot s l : NoDup (held s) -> slot_at layer slot s = Some l -> NoDup l.
Proof.
  intros Hn Hl. pose proof (held_set_slot _ _ _ _ [] Hl) as H. rewrite app_nil_r in H. rewrite <- H in Hn.
  by apply NoDup_app in Hn as (_ & _ & ?).
Qed.

Lemma slots_disjoint s layer slot layer' slot' l l' p : NoDup (held s) ->
  slot_at layer slot s = Some l -> slot_at layer' slot' s = Some l' -> ~ (layer = layer' /\ slot = slot') ->
  p ∈ l -> p ∈ l' -> False.
Proof.
  intros Hn Hl Hl' Hne Hp Hp'. pose proof (held_set_slot _ _ _ _ [] Hl) as H. rewrite app_nil_r in H.
  assert (slot_at layer' slot' (set_slot layer slot [] s) = Some l') as Hs.
  { rewrite slot_at_set_slot; [|eauto|by eapply slot_at_nonneg]. rewrite decide_False; [done|].
    intros [-> ->]. tauto. }
  apply list_elem_of_lookup in Hp' as [j Hj]. pose proof (slot_at_held _ _ _ _ _ _ Hs Hj) as Hh.
  rewrite <- H in Hn. apply NoDup_app in Hn as (_ & Hd & _). by apply (Hd p).
Qed.

Lemma process_quiet w0 fuel : forall s i l,
  good w0 s -> slot_at 0 (current_slot w0) s = Some l -> (length l - i < fuel)%nat ->
  exists s' fired, process_slot clock cb fuel 0 (current_slot w0) i s = Ok (s', fired) /\ slot_pass w0 l i s s' fired.
Proof.
  induction fuel as [|fuel IH]; intros s i l Hg Hl Hf; [lia|].
  assert (Hw := good_wf _ _ Hg).
  destruct (l !! i) as [p|] eqn:Hp.
  2: { exists s, []. cbn [process_slot]. rewrite Hl. cbn [need obind]. rewrite Hp. split; [done|].
       apply lookup_ge_None in Hp. unfold slot_pass. split_and!; [done|done|done| | |].
       - intros layer slot k Hk _. exists []. by rewrite app_nil_r.
       - intros q u Hq Hu _ _. split_and!; [by apply not_elem_of_nil|done|done].
       - intros q u c. rewrite drop_ge by done. by intros ?%not_elem_of_nil. }
  pose proof (slot_at_held _ _ _ _ _ _ Hl Hp) as Hheld.
  destruct (wf_held _ _ Hw p Hheld) as [t Ht].
  destruct (process_turn w0 s i l p t Hg Hl Hp Ht) as (s1 & i1 & l1 & Htu & Hstep).
  assert (Htu' := Htu). destruct Htu' as (Hg1 & Hge1 & Hl1 & Hdrop & Hlen & Hhl & Hkeep & Hgrow & Hnext & _).
  destruct (IH s1 i1 l1 Hg1 Hl1) as (s' & f & Hrun & Hg' & Hge' & Hhl' & Hgrow' & Hno & Hyes); [lia|].
  rewrite Hstep, Hrun. cbn [obind]. exists s', (due t ++ f). split; [done|].
  pose proof (drop_S _ _ _ Hp) as Hds. rewrite <- Hdrop in Hds.
  unfold slot_pass. split_and!; [done|unfold same_geom in *; congruence|lia|by eapply others_grow_trans| |].
  - intros q u Hq Hu Hc Hnin. rewrite Hds in Hnin. apply not_elem_of_cons in Hnin as [Hqp Hnin].
    destruct (Hkeep q Hq Hqp) as [Hq1 Hu1]. destruct (Hno q u Hq1) as (Hnf & Hq' & Hu'); [congruence|done|done|].
    split_and!; [|done|done]. rewrite elem_of_app. intros [Hd|?]; [|done].
    apply due_live in Hd as [Hct Hid]. by rewrite (wf_same_id s p q t u) in Hqp.
  - intros q u c Hq Hu Hc Hr Hi Hcb. rewrite Hds in Hq. apply elem_of_cons in Hq as [->|Hq].
    + rewrite Ht in Hu. injection Hu as ->.
      assert (dead_on (held s1) s1 (id u)) as Hdead by by eapply turn_dead.
      assert (safe (fun j => j = id u) s1) as Hsafe by (split; [apply Hg1|by intros ? ->]).
      destruct (process_slot_safe clock cb (fun j => j = id u) _ _ _ _ _ _ _
        (fun c s H => eq_ind_r (safe _) H (cb_quiet c s)) Hsafe Hrun) as [[_ Hd'] Hf'].
      split; [by apply Hd'|]. exists [], f. unfold due. rewrite Hc, (proj2 (Z.ltb_ge _ _)), Hcb by done.
      split_and!; [done|by apply not_elem_of_nil|]. intros Hin. by apply (Hf' _ Hin).
    + assert (q ∈ l) as Hql by (apply (subseteq_drop (S i)); by rewrite <- Hdrop).
      assert (q <> p) as Hqp.
      { pose proof (slot_nodup _ _ _ _ (wf_nodup _ _ Hw) Hl) as Hnd. intros ->.
        rewrite <- (take_drop_middle l i p Hp), <- Hdrop in Hnd.
        apply NoDup_app in Hnd as (_ & _ & [Hnd _]%NoDup_cons). done. }
      apply list_elem_of_lookup in Hql as [k Hk]. pose proof (slot_at_held _ _ _ _ _ _ Hl Hk) as Hqh.
      destruct (Hkeep q Hqh Hqp) as [_ Hu1].
      destruct (Hyes q u c Hq) as (Hd & f1 & f2 & -> & Hn1 & Hn2); [congruence|done|done|done|done|].
      split; [done|]. exists (due t ++ f1), f2. rewrite <- app_assoc. split_and!; [done| |done].
      rewrite elem_of_app. intros [Hd'|?]; [|done]. apply due_live in Hd' as [Hct Hid].
      by rewrite (wf_same_id s p q t u) in Hqp.
Qed.

(** Steps that keep what the slots of layer 0 hold, and the hand of layer 0. *)
Definition keeps (w0 : Wheel) (s s' : timer_wheel) : Prop :=
  good w0 s' /\ length (wheels_ s') = length (wheels_ s) /\ (length (held s') <= length (held s))%nat
  /\ (forall slot k q u, slot_at 0 slot s = Some k -> q ∈ k -> heap s !! q = Some u ->
       exists k', slot_at 0 slot s' = Some k' /\ q ∈ k' /\ heap s' !! q = Some u).

Lemma keeps_refl w0 s : good w0 s -> keeps w0 s s.
Proof. intros Hg. split_and!; [done|done|done|]. eauto. Qed.

Lemma keeps_trans w0 s1 s2 s3 : keeps w0 s1 s2 -> keeps w0 s2 s3 -> keeps w0 s1 s3.
Proof.
  intros (_ & Hw & Hh & Hk) (Hg & Hw' & Hh' & Hk'). split_and!; [done|congruence|lia|].
  intros slot k q u Hs Hq Hu. destruct (Hk _ _ _ _ Hs Hq Hu) as (k' & Hs' & Hq' & Hu'). eauto.
Qed.

Lemma same_geom_length s s' : same_geom s s' -> length (wheels_ s') = length (wheels_ s).
Proof. intros H. apply (f_equal length) in H. by rewrite !length_fmap in H. Qed.

(** The invariant with some addresses in hand. *)
Definition good_on (w0 : Wheel) (hs : list Z) (s : timer_wheel) : Prop :=
  wf_on hs s /\ shape s /\ heap_ok (tick_ms w0) s /\ exists w, wheels_ s !! 0%nat = Some w /\ geom w = geom w0.

Lemma good_on_held w0 s : good_on w0 (held s) s <-> good w0 s.
Proof. split; [by intros (? & ? & ? & ?)|by intros [? ? ? ?]]. Qed.

Lemma wf_wsafe hs s : wf_on hs s <-> safe_on (fun _ => False) hs s.
Proof. split; [by intros ?|by intros [? _]]. Qed.

Lemma geom_layer0 w0 s s' : same_geom s s' -> (exists w, wheels_ s !! 0%nat = Some w /\ geom w = geom w0) ->
  exists w, wheels_ s' !! 0%nat = Some w /\ geom w = geom w0.
Proof.
  intros Hg (w & Hw & He). destruct (same_geom_lookup _ _ _ _ Hg Hw) as (w' & Hw' & Hg'). exists w'.
  split; [done|congruence].
Qed.

(** Putting back one task of the cascaded slot. *)
Lemma cascade_one w0 s p ps a :
  good_on w0 (p :: ps ++ held s) s -> heap s !! p = Some a ->
  let s0 := (current_time_ms clock s).2 in
  exists s1, (if expire_time a - clock (reads s) <=? 0 then
                w ←o need (wheels_ s0 !! 0%nat); push_back 0 (current_slot w) p s0
              else add_task_to_wheel clock p s0) = Ok s1
    /\ good_on w0 (ps ++ held s1) s1 /\ same_geom s s1 /\ length (held s1) = S (length (held s))
    /\ (forall q, q ∈ held s -> q ∈ held s1 /\ heap s1 !! q = heap s !! q) /\ others_grow (-1) s s1.
Proof.
  intros (Hw & Hsh & Hho & (w & Hw0 & Hg)) Ha s0. apply wf_wsafe in Hw.
  pose proof (clock_steady (reads s)) as Hck. pose proof (clock_steady (S (reads s))) as Hck'.
  assert (heap_ok (tick_ms w0) s0) as Hho0.
  { intros q u Hu. apply (task_ok_later _ (clock (reads s))); [cbn; lia|by apply (Hho q)]. }
  assert (safe_on (fun _ => False) (p :: ps ++ held s) s0) as Hw' by (by apply (safe_ext _ _ s)).
  assert (forall q, q ∈ held s -> q <> p) as Hnp.
  { intros q Hq ->. pose proof (wf_nodup _ _ (proj1 Hw)) as Hn. apply NoDup_cons in Hn as [Hn _]. set_solver. }
  assert (Hfin : forall layer slot k s1, slot_at layer slot s = Some k -> held s1 ≡ₚ p :: held s ->
    wheels_ s1 = wheels_ (set_slot layer slot (k ++ [p]) s) -> wf_on (ps ++ held s1) s1 -> heap_ok (tick_ms w0) s1 ->
    (forall q, q <> p -> heap s1 !! q = heap s !! q) ->
    good_on w0 (ps ++ held s1) s1 /\ same_geom s s1 /\ length (held s1) = S (length (held s))
    /\ (forall q, q ∈ held s -> q ∈ held s1 /\ heap s1 !! q = heap s !! q) /\ others_grow (-1) s s1).
  { intros layer slot k s1 Hk Hh Hws Hwf Hhp Hq.
    assert (same_geom s s1) as Hge.
    { unfold same_geom. rewrite Hws. apply set_slot_geom. }
    split_and!.
    - split_and!; [done| |done|eapply geom_layer0; [done|by exists w]].
      pose proof (set_slot_shape layer slot (k ++ [p]) s Hsh) as Hx. unfold shape in *. by rewrite Hws.
    - done.
    - by apply Permutation_length in Hh.
    - intros q Hin. split; [rewrite Hh; by right|]. apply Hq. by apply Hnp.
    - intros layer' slot' k2 Hk2 Hne.
      destruct (set_slot_grows layer slot k (k ++ [p]) (-1) s Hk (or_intror (ex_intro _ [p] eq_refl)) _ _ _ Hk2 Hne)
        as [k3 Hk3]. exists k3. rewrite <- Hk3. unfold slot_at. by rewrite Hws. }
  case_match; breflect.
  - cbn [s0 current_time_ms wheels_ snd]. rewrite Hw0. cbn [need obind].
    assert (wheel_ok w) as Hwok by (destruct Hsh as [Hf _]; by eapply Forall_lookup in Hf).
    destruct (shape_slot s 0%nat w (current_slot w) Hsh Hw0) as [k Hk]; [apply Hwok|].
    assert (push_back 0 (current_slot w) p s0 = Ok (set_slot 0 (current_slot w) (k ++ [p]) s0)) as He.
    { unfold push_back. change (slot_at 0 (current_slot w) s0) with (slot_at 0 (current_slot w) s). by rewrite Hk. }
    pose proof (push_back_held _ _ _ _ _ He) as [Hr Hh].
    eexists. split; [exact He|]. apply (Hfin 0%nat (current_slot w) k); [exact Hk|exact Hh|done| |done|done].
    apply wf_wsafe, (safe_rewheeled _ _ _ _ Hr). eapply safe_perm; [|exact Hw'].
    rewrite Hh. apply (Permutation_middle ps (held s)).
  - destruct (add_task_spec clock s0 p a w) as (layer & slot & r & k & Hk & He & _).
    { exact Hsh. } { exact Ha. } { exact Hw0. } { destruct (Hho p a Ha) as [Hx _]. cbn. lia. }
    eexists. split; [exact He|].
    apply add_task_held with (t := a) in He as (Hh & Hm & Hn & Hna & r' & Hp); [|done].
    apply (Hfin layer slot k); [exact Hk|exact Hh|done| | |].
    + apply wf_wsafe. apply (safe_store _ _ s0 _ p a (with_rounds r' a)); try done.
      eapply safe_perm; [|exact Hw']. rewrite Hh. apply (Permutation_middle ps (held s)).
    + intros q u. cbn. rewrite lookup_insert_Some. intros [[<- <-]|[_ Hu]].
      * apply (task_ok_later _ (clock (reads s))); [lia|exact (Hho p a Ha)].
      * apply (task_ok_later _ (clock (reads s))); [lia|exact (Hho q u Hu)].
    + intros q Hq. cbn. by rewrite lookup_insert_ne.
Qed.

Lemma cascade_tasks_quiet w0 ps s :
  good_on w0 (ps ++ held s) s ->
  exists s', cascade_tasks clock ps s = Ok s' /\ good w0 s' /\ same_geom s s'
    /\ (length (held s') <= length ps + length (held s))%nat
    /\ (forall q, q ∈ held s -> heap s' !! q = heap s !! q) /\ others_grow (-1) s s'.
Proof.
  revert s. induction ps as [|p ps IH]; intros s Hg.
  { exists s. split_and!; [done|by apply good_on_held|done|done|done|].
    intros layer slot k Hk _. exists []. by rewrite app_nil_r. }
  assert (Hw := proj1 Hg). destruct (wf_held _ _ Hw p) as [a Ha]; [by left|].
  cbn [cascade_tasks]. rewrite Ha. cbn [need obind]. destruct (cancelled a) eqn:Hc.
  - destruct (IH s) as (s' & -> & Hg' & Hge & Hl & Hq & Hgr).
    { destruct Hg as (_ & ? & ? & ?). split_and!; [|done|done|done].
      apply wf_wsafe. eapply (safe_sub _ _ _ [p]); [|by apply wf_wsafe]. done. }
    exists s'. split_and!; try done. cbn. lia.
  - destruct (cascade_one w0 s p ps a Hg Ha) as (s1 & He & Hg1 & Hge1 & Hl1 & Hq1 & Hgr1).
    cbn [current_time_ms]. cbn [current_time_ms snd] in He. rewrite He. cbn [obind].
    destruct (IH s1 Hg1) as (s' & -> & Hg' & Hge & Hl & Hq & Hgr). exists s'. split_and!; try done.
    + unfold same_geom in *. congruence.
    + cbn. lia.
    + intros q Hin. destruct (Hq1 q Hin) as [Hin1 <-]. by apply Hq.
    + by eapply others_grow_trans.
Qed.

Lemma slot_at_ge layer slot s : slot_at layer slot s <> None -> (layer < length (wheels_ s))%nat.
Proof.
  unfold slot_at. intros H. apply lookup_lt_is_Some. by destruct (wheels_ s !! layer).
Qed.

(** Cascading an upper layer. *)
Lemma cascade_quiet w0 layer s : good w0 s -> (1 <= layer < length (wheels_ s))%nat ->
  exists s', cascade clock layer s = Ok s' /\ keeps w0 s s' /\ same_geom s s'.
Proof.
  intros Hg Hl. assert (Hg' := Hg). destruct Hg' as [Hw Hsh Hho Hl0].
  destruct (shape_layer s layer Hsh) as (w & Hlw & Hwok); [lia|].
  destruct (shape_slot s layer w (current_slot w) Hsh Hlw) as [l Hsl]; [apply Hwok|].
  unfold cascade. rewrite (proj2 (Nat.leb_gt layer 0)), (proj2 (Nat.leb_gt _ layer)) by lia. cbn [orb].
  rewrite Hlw. cbn [need obind]. rewrite Hsl. cbn [need obind].
  pose proof (held_set_slot _ _ _ _ [] Hsl) as Hh. rewrite app_nil_r in Hh.
  set (s0 := set_slot layer (current_slot w) [] s) in *.
  destruct (cascade_tasks_quiet w0 l s0) as (s' & -> & Hgd & Hge & Hlen & Hq & Hgr).
  { split_and!; [|by apply set_slot_shape|done|].
    - apply wf_wsafe. apply (safe_rewheeled _ _ s); [done|]. eapply safe_perm; [|by apply wf_wsafe].
      rewrite <- Hh. apply Permutation_app_comm.
    - eapply geom_layer0; [apply set_slot_geom|done]. }
  assert (same_geom s s') as Hge' by (unfold same_geom in *; rewrite Hge; apply set_slot_geom).
  exists s'. split; [done|]. split; [|done]. split_and!; [done|by apply same_geom_length| |].
  - apply Permutation_length in Hh. rewrite length_app in Hh. lia.
  - intros slot k q u Hk Hqk Hu.
    assert (slot_at 0 slot s0 = Some k) as Hk0.
    { subst s0. rewrite slot_at_set_slot; [|eauto|by eapply slot_at_nonneg]. rewrite decide_False by lia. done. }
    destruct (Hgr 0%nat slot k Hk0) as [k' Hk']; [apply slot_at_nonneg in Hk; lia|].
    exists (k ++ k'). split_and!; [done|by apply elem_of_app; left|].
    apply list_elem_of_lookup in Hqk as [j Hj]. by rewrite (Hq q (slot_at_held _ _ _ _ _ _ Hk0 Hj)).
Qed.

Lemma slot_at_set_current layer f layer' slot s : slot_at layer' slot (set_current layer f s) = slot_at layer' slot s.
Proof.
  unfold slot_at, set_current. cbn. destruct (decide (layer' = layer)) as [->|Hne].
  - rewrite list_lookup_alter_eq. by destruct (wheels_ s !! layer).
  - by rewrite list_lookup_alter_ne by done.
Qed.

(** The hand's next position. *)
Definition next_hand (w : Wheel) : Wheel :=
  mkWheel (slots w) (Z.rem (current_slot w + 1) (wheel_size w)) (tick_ms w) (wheel_size w) (total_ms w).

Lemma next_hand_ok w : wheel_ok w -> wheel_ok (next_hand w).
Proof.
  intros [Ht Htot Hs Hc ?]. split; cbn; try done.
  rewrite Z.rem_mod_nonneg by lia. apply Z.mod_pos_bound. lia.
Qed.

Lemma advance_quiet w0 layer s : good w0 s -> (layer < length (wheels_ s))%nat ->
  exists s' w, wheels_ s !! layer = Some w /\ advance layer s = Ok s'
    /\ keeps (if (layer =? 0)%nat then next_hand w0 else w0) s s'
    /\ at_zero layer s' = Ok (Z.rem (current_slot w + 1) (wheel_size w) =? 0).
Proof.
  intros [Hw Hsh Hho (w1 & Hw1 & Hgw)] Hl. destruct (shape_layer s layer Hsh Hl) as (w & Hlw & Hwok).
  unfold advance. rewrite Hlw. cbn [need obind]. rewrite (proj2 (Z.eqb_neq (wheel_size w) 0)) by (destruct Hwok; lia).
  eexists _, w. split; [done|]. split; [done|]. split.
  - split_and!.
    + split.
      * unfold wf. rewrite held_set_current. apply wf_wsafe. by apply (safe_rewheeled _ _ s).
      * destruct Hsh as (Hf & Hn & Hco). split_and!; [|cbn; by rewrite length_alter|by apply coarse_alter]. cbn. apply Forall_alter; [done|].
        intros v Hv Hvok. by apply next_hand_ok.
      * by destruct (layer =? 0)%nat.
      * cbn. destruct layer as [|layer]; cbn.
        -- rewrite list_lookup_alter_eq, Hw1. eexists. split; [done|]. unfold geom in *. cbn. simplify_eq. congruence.
        -- rewrite list_lookup_alter_ne by done. by exists w1.
    + cbn. by rewrite length_alter.
    + by rewrite held_set_current.
    + intros slot k q u Hk Hq Hu. exists k. rewrite slot_at_set_current. done.
  - unfold at_zero, set_current. cbn. rewrite list_lookup_alter_eq, Hlw. done.
Qed.

(** One tick: the hand moves on, the tasks of the other slots of layer 0 wait,
    and the one-shot tasks due in the current slot fire exactly once. *)
Definition ticked (w0 : Wheel) (l : list Z) (s s' : timer_wheel) (fired : list Z) : Prop :=
  good (next_hand w0) s' /\ (length (held s') <= length (held s))%nat
  /\ (forall slot k q u, slot <> current_slot w0 -> slot_at 0 slot s = Some k -> q ∈ k -> heap s !! q = Some u ->
        cancelled u = false ->
        (id u ∉ fired) /\ exists k', slot_at 0 slot s' = Some k' /\ q ∈ k' /\ heap s' !! q = Some u)
  /\ (forall q u c, q ∈ l -> heap s !! q = Some u -> cancelled u = false -> rounds_left u <= 0 ->
      interval u = 0 -> callback u = Some c ->
      dead_on (held s') s' (id u) /\ exists f1 f2, fired = f1 ++ id u :: f2 /\ (id u ∉ f1) /\ (id u ∉ f2)).

(** [cascade] then [advance], for an upper layer. *)
Lemma cascade_advance w0 layer s : good w0 s -> (1 <= layer < length (wheels_ s))%nat ->
  exists s1 s2 z, cascade clock layer s = Ok s1 /\ advance layer s1 = Ok s2 /\ at_zero layer s2 = Ok z /\ keeps w0 s s2.
Proof.
  intros Hg Hl. destruct (cascade_quiet w0 layer s Hg Hl) as (s1 & Hc & Hk1 & _).
  destruct (advance_quiet w0 layer s1) as (s2 & w & _ & Ha & Hk2 & Hz); [apply Hk1|destruct Hk1 as (_ & -> & _); lia|].
  rewrite (proj2 (Nat.eqb_neq layer 0)) in Hk2 by lia. eexists s1, s2, _. split_and!; [done|done|done|by eapply keeps_trans].
Qed.

Lemma after_turn_quiet w0 s : good w0 s -> exists s', after_turn clock s = Ok s' /\ keeps w0 s s'.
Proof.
  intros Hg. unfold after_turn. assert (2 <= length (wheels_ s))%nat as Hlen by apply (good_shape _ _ Hg).
  destruct (good_layer0 _ _ Hg) as (w & Hw & _). unfold at_zero at 1. rewrite Hw. cbn [need obind].
  case_match; [|exists s; split; [done|by apply keeps_refl]].
  destruct (cascade_advance w0 1 s Hg) as (s1 & s2 & z1 & -> & Ha & Hz & Hk); [lia|].
  cbn [obind]. rewrite Ha. cbn [obind]. rewrite Hz. cbn [obind].
  case_match; [|by exists s2]. breflect.
  destruct (cascade_advance w0 2 s2) as (s3 & s4 & z2 & -> & Ha' & Hz' & Hk'); [apply Hk|lia|].
  cbn [obind]. rewrite Ha'. cbn [obind]. rewrite Hz'. cbn [obind].
  assert (keeps w0 s s4) as Hk4 by by eapply keeps_trans.
  case_match; [|by exists s4]. breflect.
  destruct (cascade_advance w0 3 s4) as (s5 & s6 & z3 & -> & Ha'' & _ & Hk''); [apply Hk4|lia|].
  cbn [obind]. rewrite Ha''. exists s6. split; [done|by eapply keeps_trans].
Qed.

Lemma tick_quiet w0 fuel s l :
  good w0 s -> slot_at 0 (current_slot w0) s = Some l -> (length l < fuel)%nat ->
  exists s' fired, tick clock cb fuel s = Ok (s', fired) /\ ticked w0 l s s' fired.
Proof.
  intros Hg Hl Hf. rewrite tick_after_turn. destruct (good_layer0 _ _ Hg) as (w & Hw & Hgw).
  rewrite Hw. cbn [need obind]. assert (current_slot w = current_slot w0) as -> by (unfold geom in Hgw; congruence).
  destruct (process_quiet w0 fuel s 0 l Hg Hl) as (s1 & fired & -> & Hg1 & Hge & Hlen & Hgr & Hno & Hyes); [lia|].
  cbn [obind].
  destruct (advance_quiet w0 0 s1 Hg1) as (s2 & w1 & _ & Ha & Hk2 & _).
  { pose proof (good_shape _ _ Hg1) as (_ & ? & _). lia. }
  cbn [Nat.eqb] in Hk2. rewrite Ha. cbn [obind].
  destruct (after_turn_quiet (next_hand w0) s2) as (s3 & Hat & Hk3); [apply Hk2|]. rewrite Hat. cbn [obind].
  exists s3, fired. split; [done|].
  pose proof (keeps_trans _ _ _ _ Hk2 Hk3) as Hk. destruct Hk as (Hg3 & _ & Hl3 & Hkeep).
  split_and!; [done|lia| |].
  - intros slot k q u Hne Hk Hq Hu Hc. assert (Hq' := Hq). apply list_elem_of_lookup in Hq' as [j Hj].
    pose proof (slot_at_held _ _ _ _ _ _ Hk Hj) as Hheld.
    assert (q ∉ drop 0 l) as Hnin.
    { rewrite drop_0. intros Hql. apply (slots_disjoint s 0 slot 0 (current_slot w0) k l q); try done.
      - apply (wf_nodup _ _ (good_wf _ _ Hg)).
      - intros [_ ?]. done. }
    destruct (Hno q u Hheld Hu Hc Hnin) as (Hnf & Hh1 & Hu1). split; [done|].
    destruct (Hgr 0%nat slot k Hk) as [k1 Hk1]; [by intros [_ ?]|].
    apply (Hkeep slot (k ++ k1) q u Hk1); [by apply elem_of_app; left|done].
  - intros q u c Hq Hu Hc Hr Hi Hcb. destruct (Hyes q u c) as (Hd & Hsplit); try done.
    split; [|done]. assert (safe (fun j => j = id u) s1) as Hs1 by (split; [apply Hg1|by intros ? ->]).
    apply advance_safe with (D := fun j => j = id u) in Ha; [|done].
    apply after_turn_safe with (D := fun j => j = id u) in Hat; [|done]. by apply Hat.
Qed.

Lemma slot_length layer slot s l : slot_at layer slot s = Some l -> (length l <= length (held s))%nat.
Proof.
  intros Hl. pose proof (held_set_slot _ _ _ _ [] Hl) as H. rewrite app_nil_r in H.
  apply Permutation_length in H. rewrite length_app in H. lia.
Qed.

Lemma good_hand w0 s : good w0 s -> wheel_ok (mkWheel (replicate (Z.to_nat (wheel_size w0)) []) (current_slot w0)
  (tick_ms w0) (wheel_size w0) (total_ms w0)).
Proof.
  intros [_ [Hf _] _ (w & Hw & Hg)]. eapply Forall_lookup in Hf; [|exact Hw]. destruct Hf as [Ht Htot Hs Hc ?].
  assert (current_slot w = current_slot w0 /\ tick_ms w = tick_ms w0 /\ wheel_size w = wheel_size w0 /\ total_ms w = total_ms w0)
    as (E1 & E2 & E3 & E4) by (unfold geom in Hg; split_and!; congruence). rewrite E1, E2, E3, ?E4 in *.
  split; cbn; [done|done| |done|done]. rewrite length_replicate. lia.
Qed.

(** A task [k] slots ahead waits for [k] ticks. *)
Lemma waiting_ticks k : forall w0 s l p t fuel,
  good w0 s -> Z.of_nat k < wheel_size w0 ->
  slot_at 0 ((current_slot w0 + Z.of_nat k) mod wheel_size w0) s = Some l -> p ∈ l ->
  heap s !! p = Some t -> cancelled t = false -> (length (held s) < fuel)%nat ->
  exists s' fs w' l', run_loop clock cb k fuel s = Ok (s', fs) /\ Forall (fun f => id t ∉ f) fs
    /\ good w' s' /\ slot_at 0 (current_slot w') s' = Some l' /\ p ∈ l' /\ heap s' !! p = Some t
    /\ (length (held s') <= length (held s))%nat.
Proof.
  induction k as [|k IH]; intros w0 s l p t fuel Hg Hk Hl Hp Ht Hc Hf;
    destruct (good_hand _ _ Hg) as [Htick _ _ Hcur _]; cbn in Htick, Hcur.
  { exists s, [], w0, l. rewrite Z.add_0_r, Z.mod_small in Hl by lia. split_and!; try done. }
  destruct (good_layer0 _ _ Hg) as (w & Hw & Hgw).
  assert (current_slot w = current_slot w0 /\ wheel_size w = wheel_size w0) as [Hcw Hsw] by (unfold geom in Hgw; split; congruence).
  destruct (shape_slot s 0%nat w (current_slot w0) (good_shape _ _ Hg) Hw) as [l0 Hl0]; [lia|].
  assert ((current_slot w0 + Z.of_nat (S k)) mod wheel_size w0 <> current_slot w0) as Hne.
  { destruct (Z.lt_ge_cases (current_slot w0 + Z.of_nat (S k)) (wheel_size w0)).
    - rewrite Z.mod_small by lia. lia.
    - rewrite <- (Z_mod_plus_full _ (-1)), Z.mod_small; lia. }
  pose proof (slot_length _ _ _ _ Hl0) as Hlen0.
  destruct (tick_quiet w0 fuel s l0 Hg Hl0) as (s1 & fired & Hti & Hg1 & Hlen & Hwait & _); [lia|].
  destruct (Hwait _ _ _ _ Hne Hl Hp Ht Hc) as (Hnf & l1 & Hl1 & Hp1 & Ht1).
  destruct (IH (next_hand w0) s1 l1 p t fuel) as (s' & fs & w' & l' & Hr & Hfs & Hg' & Hl' & Hp' & Ht' & Hlen'); try done.
  - cbn. lia.
  - cbn. rewrite Z.rem_mod_nonneg, Zplus_mod_idemp_l by lia. rewrite <- Hl1. f_equal. f_equal. lia.
  - lia.
  - exists s', (fired :: fs), w', l'. cbn [run_loop]. rewrite Hti. cbn [obind]. rewrite Hr. cbn [obind].
    split_and!; try done; [by constructor|lia].
Qed.

Lemma dead_invalid s i h : wf s -> dead_on (held s) s i -> handle_id h = i -> is_timer_valid h s = false.
Proof.
  intros Hw [_ Hd] Hh. unfold is_timer_valid. case_match; [done|]. rewrite Hh.
  destruct (task_map_ s !! i) as [p|] eqn:Hm; [|done].
  destruct (wf_map _ _ Hw _ _ Hm) as (t & Ht & Hidt). unfold lock. case_decide as Hheld; [|done]. rewrite Ht.
  by rewrite (Hd p t).
Qed.

(** A new task within layer 0's span lies in the slot of its tick. *)
Lemma add_timer_good w0 s d c :
  good w0 s -> ids_left s -> 0 < d < 2 ^ 31 ->
  let delay := Z.max 1 (clock (reads s) + d - clock (S (reads s))) in
  delay < total_ms w0 ->
  exists s1 t l p, add_timer clock d (Some c) s = Ok (mkHandle (next_id_ s) true, s1) /\ good w0 s1
    /\ (length (held s1) <= S (length (held s)))%nat
    /\ slot_at 0 ((current_slot w0 + delay / tick_ms w0) mod wheel_size w0) s1 = Some l /\ p ∈ l
    /\ heap s1 !! p = Some t /\ id t = next_id_ s /\ cancelled t = false /\ rounds_left t = 0 /\ interval t = 0
    /\ callback t = Some c.
Proof.
  intros Hg Hids Hd delay Hdelay. assert (Hg' := Hg). destruct Hg' as [Hwf Hsh Hho (w & Hw & Hgw)].
  pose proof (clock_steady (reads s)) as Hck. pose proof (clock_steady (S (reads s))) as Hck'.
  set (t := mkTask (next_id_ s) (Some c) (clock (reads s) + d) 0 0 false).
  set (s0 := (make_shared t (current_time_ms clock (generate_id s).2).2).2).
  destruct (add_task_spec clock s0 (next_addr s) t w) as (layer & slot & r & k & Hk & He & _ & Hpl).
  { exact Hsh. } { apply lookup_insert_eq. } { exact Hw. } { cbn. lia. }
  assert (current_slot w = current_slot w0 /\ wheel_size w = wheel_size w0 /\ tick_ms w = tick_ms w0 /\ total_ms w = total_ms w0)
    as (Hc1 & Hc2 & Hc3 & Hc4) by (unfold geom in Hgw; split_and!; congruence).
  destruct Hpl as (-> & Hslot & ->); [rewrite Hc4; exact Hdelay|]. rewrite Hc1, Hc2, Hc3 in Hslot.
  assert (slot = (current_slot w0 + delay / tick_ms w0) mod wheel_size w0) as Hs by exact Hslot. rewrite <- Hs.
  set (s1 := set_slot 0 slot (k ++ [next_addr s]) _) in He.
  assert (add_timer clock d (Some c) s
    = Ok (mkHandle (next_id_ s) true, set_map (<[next_id_ s := next_addr s]> (task_map_ s1)) s1)) as Ha.
  { unfold add_timer, add_task. rewrite (proj2 (Z.leb_gt d 0)) by lia. cbn [orb]. rewrite bool_decide_false by done.
    cbn [generate_id current_time_ms make_shared].
    match goal with |- context [add_task_to_wheel clock ?q ?x] =>
      change (add_task_to_wheel clock q x) with (add_task_to_wheel clock (next_addr s) s0) end.
    by rewrite He. }
  destruct (add_task_safe clock (fun _ => False) d 0 (Some c) s _ _ Hids (proj1 (wf_wsafe _ _) Hwf) Ha) as ([Hwf1 _] & _).
  pose proof (add_task_held _ _ _ _ _ He (lookup_insert_eq _ _ _)) as (Hh & _).
  eexists _, (with_rounds 0 t), (k ++ [next_addr s]), (next_addr s). split; [exact Ha|].
  split_and!; try done.
  - split; [exact Hwf1|by apply set_slot_shape| |].
    + intros q u. cbn. rewrite lookup_insert_Some. cbn.
      assert (task_ok (tick_ms w0) (clock (S (S (reads s)))) t) as Ht' by (split; cbn; lia).
      intros [[<- <-]|[_ Hu]]; [exact Ht'|]. rewrite lookup_insert_Some in Hu.
      destruct Hu as [[<- <-]|[_ Hu]]; [exact Ht'|].
      apply (task_ok_later _ (clock (reads s))); [lia|by apply (Hho q)].
    + apply (geom_layer0 w0 s); [apply (set_slot_geom 0 slot (k ++ [next_addr s]) s)|by exists w].
  - apply Permutation_length in Hh. apply Nat.eq_le_incl. exact Hh.
  - change (slot_at 0 slot (set_slot 0 slot (k ++ [next_addr s]) s) = Some (k ++ [next_addr s])).
    rewrite slot_at_set_slot; [|by eexists|by eapply slot_at_nonneg]. by rewrite decide_True.
  - apply elem_of_app. right. by apply list_elem_of_singleton.
  - cbn. apply lookup_insert_eq.
Qed.

Lemma timer_fires w0 s d c fuel :
  good w0 s -> ids_left s -> 0 < d < 2 ^ 31 ->
  Z.max 1 (clock (reads s) + d - clock (S (reads s))) < total_ms w0 ->
  (S (length (held s)) < fuel)%nat ->
  let k := Z.max 1 (clock (reads s) + d - clock (S (reads s))) / tick_ms w0 in
  exists s1 s2 s3 fs f1 f2,
    add_timer clock d (Some c) s = Ok (mkHandle (next_id_ s) true, s1)
    /\ run_loop clock cb (Z.to_nat k) fuel s1 = Ok (s2, fs)
    /\ Forall (fun f => next_id_ s ∉ f) fs
    /\ tick clock cb fuel s2 = Ok (s3, f1 ++ next_id_ s :: f2)
    /\ (next_id_ s ∉ f1) /\ (next_id_ s ∉ f2)
    /\ is_timer_valid (mkHandle (next_id_ s) true) s3 = false.
Proof.
  intros Hg Hids Hd Hdelay Hf k. destruct (good_hand _ _ Hg) as [Htick Htot _ _ _]. cbn in Htick, Htot.
  destruct (add_timer_good w0 s d c Hg Hids Hd Hdelay)
    as (s1 & t & l & p & Ha & Hg1 & Hlen & Hl & Hp & Ht & Hid & Hc & Hr & Hi & Hcb).
  assert (0 <= k < wheel_size w0) as Hk.
  { split; [apply Z.div_pos; lia|]. apply Z.div_lt_upper_bound; lia. }
  rewrite <- Hid in Ha |- *.
  destruct (waiting_ticks (Z.to_nat k) w0 s1 l p t fuel Hg1) as (s2 & fs & w' & l' & Hrun & Hfs & Hg2 & Hl2 & Hp2 & Ht2 & Hlen2);
    try done; [lia|by rewrite Z2Nat.id by lia|lia|].
  pose proof (slot_length _ _ _ _ Hl2).
  destruct (tick_quiet w' fuel s2 l' Hg2 Hl2) as (s3 & fired & Hti & Hg3 & _ & _ & Hdue); [lia|].
  destruct (Hdue p t c Hp2 Ht2 Hc) as (Hdead & f1 & f2 & -> & Hn1 & Hn2); [lia|done|done|].
  exists s1, s2, s3, fs, f1, f2. split_and!; try done. eapply dead_invalid; [apply Hg3|exact Hdead|done].
Qed.

(** *** Calm histories *)

(** What leads from [s0] to a state with a tick of [tick_len]: any calls, whose
    repeating timers are slower than a tick by the clock's jitter. *)
Inductive calm (tick_len : Z) (s0 : timer_wheel) : timer_wheel -> Prop :=
| calm_new : calm tick_len s0 s0
| calm_add_timer s d c h s' : calm tick_len s0 s -> ids_left s -> d < 2 ^ 31 ->
    add_timer clock d c s = Ok (h, s') -> calm tick_len s0 s'
| calm_add_repeat_timer s d c h s' : calm tick_len s0 s -> ids_left s -> (0 < d -> tick_len + jitter <= d < 2 ^ 31) ->
    add_repeat_timer clock d c s = Ok (h, s') -> calm tick_len s0 s'
| calm_cancel s h : calm tick_len s0 s -> (valid h = true -> handle_id h < next_id_ s) -> calm tick_len s0 (cancel_timer h s).2
| calm_start s : calm tick_len s0 s -> calm tick_len s0 (start s)
| calm_stop s : calm tick_len s0 s -> calm tick_len s0 (stop s)
| calm_tick s fuel s' fired : calm tick_len s0 s -> (length (held s) < fuel)%nat ->
    tick clock cb fuel s = Ok (s', fired) -> calm tick_len s0 s'.

Lemma add_task_good w0 s d r c h s' : good w0 s -> ids_left s -> d < 2 ^ 31 -> (0 < r -> tick_ms w0 + jitter <= r < 2 ^ 31) ->
  add_task clock d r c s = Ok (h, s') -> good w0 s'.
Proof.
  intros Hg Hids Hd Hr Ha. assert (Hg' := Hg). destruct Hg' as [Hwf Hsh Hho (w & Hw & Hgw)].
  destruct (add_task_safe clock (fun _ => False) d r c s h s' Hids (proj1 (wf_wsafe _ _) Hwf) Ha) as ([Hwf1 _] & _).
  unfold add_task in Ha. destruct ((d <=? 0) || bool_decide (c = None)) eqn:E; [by injection Ha as _ <-|]. breflect.
  pose proof (clock_steady (reads s)) as Hck. pose proof (clock_steady (S (reads s))) as Hck'.
  set (t := mkTask (next_id_ s) c (clock (reads s) + d) r 0 false).
  set (s1 := (make_shared t (current_time_ms clock (generate_id s).2).2).2).
  destruct (add_task_spec clock s1 (next_addr s) t w) as (layer & slot & r' & k & Hk & He & _).
  { exact Hsh. } { apply lookup_insert_eq. } { exact Hw. } { cbn. lia. }
  cbn [generate_id current_time_ms make_shared] in Ha.
  match type of Ha with context [add_task_to_wheel clock ?q ?y] =>
    change (add_task_to_wheel clock q y) with (add_task_to_wheel clock (next_addr s) s1) in Ha end.
  rewrite He in Ha. cbn [obind] in Ha. injection Ha as _ <-. split; [exact Hwf1|by apply set_slot_shape| |].
  - intros q u. cbn. rewrite lookup_insert_Some. cbn.
    assert (task_ok (tick_ms w0) (clock (S (S (reads s)))) t) as Ht' by (split; cbn; [lia|exact Hr]).
    intros [[<- <-]|[_ Hu]]; [exact Ht'|]. rewrite lookup_insert_Some in Hu.
    destruct Hu as [[<- <-]|[_ Hu]]; [exact Ht'|].
    apply (task_ok_later _ (clock (reads s))); [lia|by apply (Hho q)].
  - apply (geom_layer0 w0 s); [apply (set_slot_geom layer slot (k ++ [next_addr s]) s)|by exists w].
Qed.

Lemma cancel_good w0 s h : good w0 s -> (valid h = true -> handle_id h < next_id_ s) -> good w0 (cancel_timer h s).2.
Proof.
  intros [Hwf Hsh Hho Hl] Hh. apply wf_wsafe in Hwf. pose proof (cancel_timer_keeps _ h s Hh Hwf) as [Hwf' _].
  assert (wheels_ (cancel_timer h s).2 = wheels_ s /\ reads (cancel_timer h s).2 = reads s
    /\ forall p t, heap (cancel_timer h s).2 !! p = Some t -> exists t0, heap s !! p = Some t0 /\ expire_time t = expire_time t0 /\ interval t = interval t0)
    as (Ew & Er & Eh).
  { unfold cancel_timer. destruct (negb (valid h)); [split_and!; [done..|]; eauto|]. destruct (task_map_ s !! handle_id h) as [p|]; [|split_and!; [done..|]; eauto].
    cbn. unfold lock. case_decide; [|split_and!; [done..|]; eauto]. destruct (heap s !! p) as [t|] eqn:Hp; [|split_and!; [done..|]; eauto]. split_and!; [done|done|].
    intros q u. cbn. rewrite lookup_insert_Some. intros [[<- <-]|[_ Hu]]; eauto. }
  split; [exact Hwf'|unfold shape; by rewrite Ew| |by rewrite Ew].
  intros p t (t0 & H0 & E1 & E2)%Eh. unfold task_ok. rewrite E1, E2, Er. exact (Hho p t0 H0).
Qed.

Definition same_dims (w w' : Wheel) : Prop := tick_ms w' = tick_ms w /\ wheel_size w' = wheel_size w /\ total_ms w' = total_ms w.

Lemma start_good w0 s : good w0 s -> exists w1, good w1 (start s) /\ same_dims w0 w1.
Proof.
  intros [Hwf Hsh Hho (w & Hw & Hgw)]. unfold start. case_match; [exists w0; split; [split; eauto|done]|].
  apply wf_wsafe in Hwf. pose proof (start_safe _ s Hwf) as [Hwf' _]. unfold start in Hwf'. rewrite H in Hwf'.
  exists (mkWheel (slots w) 0 (tick_ms w) (wheel_size w) (total_ms w)).
  assert (same_dims w0 w) as Hd by (unfold geom in Hgw; unfold same_dims; split_and!; congruence).
  split; [|exact Hd]. destruct Hsh as (Hf & Hn & Hc). split; [exact Hwf'| | |].
  - split_and!; cbn; [|by rewrite length_fmap|].
    + apply Forall_fmap. eapply Forall_impl; [exact Hf|]. intros v []. split; cbn; try done. lia.
    + unfold coarse in *. rewrite <- fmap_tail. apply Forall_fmap. exact Hc.
  - destruct Hd as (Ht & _). cbn. rewrite Ht. exact Hho.
  - cbn. rewrite list_lookup_fmap, Hw. by eexists.
Qed.

Lemma calm_good tick_len s0 w0 s : good w0 s0 -> tick_ms w0 = tick_len -> calm tick_len s0 s ->
  exists w1, good w1 s /\ same_dims w0 w1.
Proof.
  intros Hg Ht Hc. induction Hc as [|s d c h s' Hc IH Hi Hd Ha|s d c h s' Hc IH Hi Hd Ha|s h Hc IH Hh|s Hc IH|s Hc IH|s fuel s' fired Hc IH Hf Hti].
  - by exists w0.
  - destruct IH as (w1 & Hg1 & Hd1). exists w1. split; [|done]. eapply (add_task_good w1 s d 0); [done..|lia|exact Ha].
  - destruct IH as (w1 & Hg1 & Hd1). exists w1. split; [|done].
    assert (d < 2 ^ 31) by (destruct (Z.lt_ge_cases 0 d) as [Hp|]; [apply (Hd Hp)|lia]).
    eapply (add_task_good w1 s d d); [done..| |exact Ha]. destruct Hd1 as (E & _). rewrite E, Ht. exact Hd.
  - destruct IH as (w1 & Hg1 & Hd1). exists w1. split; [|done]. by apply cancel_good.
  - destruct IH as (w1 & Hg1 & Hd1). destruct (start_good w1 s Hg1) as (w2 & Hg2 & Hd2). exists w2. split; [done|].
    unfold same_dims in *. intuition congruence.
  - destruct IH as (w1 & [Hw Hsh Hho Hl] & Hd1). exists w1. split; [|done]. split; [|exact Hsh|exact Hho|exact Hl].
    apply wf_wsafe in Hw. change (wf_on (held s) (stop s)). apply wf_wsafe. apply (safe_ext _ (held s) s); done.
  - destruct IH as (w1 & Hg1 & Hd1). destruct (good_layer0 _ _ Hg1) as (w & Hw & Hgw). destruct (good_hand _ _ Hg1) as [_ _ _ Hcur _]. cbn in Hcur.
    destruct (shape_slot s 0%nat w (current_slot w1) (good_shape _ _ Hg1) Hw) as [l Hl].
    { assert (wheel_size w = wheel_size w1) as -> by (unfold geom in Hgw; congruence). exact Hcur. }
    pose proof (slot_length _ _ _ _ Hl). destruct (tick_quiet w1 fuel s l Hg1 Hl) as (s1 & f1 & Hti1 & Hg2 & _); [lia|].
    rewrite Hti in Hti1. injection Hti1 as -> _. by exists (next_hand w1).
Qed.

(** A new wheel satisfies the invariant. *)
Lemma TimerWheel_good tick_len size layers s : 0 < tick_len -> 0 < size -> (2 <= layers)%nat ->
  TimerWheel tick_len size layers = Ok s -> good (blank_wheel size tick_len) s.
Proof.
  intros Ht Hs Hl H. destruct (TimerWheel_ok tick_len size layers s Ht Hs Hl H) as (Hsh & Hw & E).
  split; [by eapply TimerWheel_wf|done| |by eexists]. intros p t. by rewrite E.
Qed.


End Firing.


(** ** Where the wheel goes wrong *)

(** A repeating timer faster than the tick is put back into the slot being
    processed, at its end: the pass over that slot never ends. *)
Lemma fast_repeat_spins clock cb w0 :
  (forall k, clock k <= clock (S k)) -> (forall c s, cb c s = s) ->
  forall fuel s w p t,
  shape s -> wheels_ s !! 0%nat = Some w -> geom w = geom w0 -> slot_at 0 (current_slot w0) s = Some [p] ->
  heap s !! p = Some t -> cancelled t = false -> rounds_left t = 0 -> 0 < interval t < tick_ms w0 ->
  interval t < 2 ^ 31 -> process_slot clock cb fuel 0 (current_slot w0) 0 s = Fuel.
Proof.
  intros Hck Hcb. induction fuel as [|fuel IH]; intros s w p t Hsh Hw Hgw Hl Ht Hc Hr Hi Hi'; [done|].
  cbn [process_slot]. rewrite Hl. cbn [need obind]. change ([p] !! 0%nat) with (Some p). cbv iota beta.
  rewrite Ht. cbn [need obind]. rewrite Hc, Hr, (proj2 (Z.ltb_lt 0 (interval t))) by lia.
  rewrite (proj2 (Z.ltb_ge 0 0)) by lia. cbn [current_time_ms make_shared].
  set (t' := with_expire (clock (reads s) + interval t) t).
  set (s0 := (make_shared t' (store p t' (current_time_ms clock s).2)).2).
  match goal with |- context [add_task_to_wheel clock ?q ?x] =>
    change (add_task_to_wheel clock q x) with (add_task_to_wheel clock (next_addr s) s0) end.
  assert (wheel_ok w) as [Htick Htot Hsl Hcu _] by (destruct Hsh as [Hf _]; by eapply Forall_lookup in Hf).
  assert (current_slot w = current_slot w0 /\ tick_ms w = tick_ms w0) as [Hcw Htw] by (unfold geom in Hgw; split; congruence).
  pose proof (Hck (reads s)).
  destruct (add_task_spec clock s0 (next_addr s) t' w) as (layer & slot & r & k & Hk & -> & _ & Hpl).
  { exact Hsh. } { apply lookup_insert_eq. } { exact Hw. } { cbn. lia. }
  destruct Hpl as (-> & Hslot & ->); [cbn; nia|].
  rewrite Z.div_small, Z.add_0_r, Z.mod_small, Hcw in Hslot by (cbn; lia). subst slot.
  change (slot_at 0 (current_slot w0) s0) with (slot_at 0 (current_slot w0) s) in Hk. rewrite Hl in Hk. injection Hk as <-.
  cbn [obind]. set (s1 := set_slot 0 (current_slot w0) _ _).
  assert (slot_at 0 (current_slot w0) s1 = Some [p; next_addr s]) as Hl1.
  { subst s1. rewrite slot_at_set_slot; [|by eexists|by eapply slot_at_nonneg]. by rewrite decide_True. }
  unfold erase_at. change (slot_at 0 (current_slot w0) (set_map _ s1)) with (slot_at 0 (current_slot w0) s1).
  rewrite Hl1. cbn [need obind delete list_delete].
  set (s2 := set_slot 0 (current_slot w0) [next_addr s] (set_map (<[id t := next_addr s]> (task_map_ s1)) s1)).
  assert ((match callback t with Some c => cb c s2 | None => s2 end) = s2) as Hs2 by (destruct (callback t); [apply Hcb|done]).
  match goal with |- context [process_slot clock cb fuel 0 (current_slot w0) 0 ?x] =>
    replace x with s2 by (symmetry; exact Hs2) end.
  destruct (geom_layer0 w0 s s2) as (w2 & Hw2 & Hg2).
  { etransitivity; [apply (set_slot_geom 0 (current_slot w0) [next_addr s] (set_map _ s1))|].
    apply (set_slot_geom 0 (current_slot w0) [p; next_addr s] s). }
  { by exists w. }
  rewrite (IH s2 w2 (next_addr s) (with_rounds 0 t')); try done.
  - by repeat apply set_slot_shape.
  - subst s2. rewrite slot_at_set_slot; [|by eexists|by eapply slot_at_nonneg]. by rewrite decide_True.
  - cbn. apply lookup_insert_eq.
Qed.

(** On a new wheel, a repeating timer whose interval is below the tick makes
    the very next tick hang: no amount of turns ends its loop. *)
Theorem fast_repeat_hangs clock cb tick_len size layers d c s0 :
  (forall k, clock k <= clock (S k)) -> (forall a s, cb a s = s) ->
  0 < size -> (2 <= layers)%nat -> 0 < d < tick_len -> d < 2 ^ 31 -> TimerWheel tick_len size layers = Ok s0 ->
  exists h s, add_repeat_timer clock d (Some c) s0 = Ok (h, s)
    /\ forall fuel, tick clock cb fuel s = Fuel.
Proof.
  intros Hck Hcb Hs Hl Hd Hd' H0.
  destruct (TimerWheel_ok tick_len size layers s0 ltac:(lia) Hs Hl H0) as (Hsh & Hw & E0). clear H0. revert Hsh Hw E0.
  generalize (wheels_ s0) as ws. intros ws Hsh Hw ->.
  set (s0 := mkTimerWheel ws false 1 ∅ ∅ 0 0) in *. set (w0 := blank_wheel size tick_len) in *.
  set (t := mkTask 1 (Some c) (clock 0%nat + d) d 0 false).
  set (s1 := (make_shared t (current_time_ms clock (generate_id s0).2).2).2).
  pose proof (Hck 0%nat).
  destruct (add_task_spec clock s1 0 t w0 Hsh) as (layer & slot & r & k & Hk & He & _ & Hpl);
    [apply lookup_insert_eq|exact Hw|cbn; lia|].
  destruct Hpl as (-> & Hslot & ->); [cbn; nia|].
  rewrite Z.div_small, Z.add_0_r, Z.mod_small in Hslot by (cbn; lia). subst slot.
  set (s2 := set_slot 0 (current_slot w0) (k ++ [0]) _) in He.
  assert (k = []) as ->.
  { apply slot_at_inv in Hk as (_ & w & Hw1 & Hk). assert (Some w = Some w0) as [= ->] by (rewrite <- Hw1; exact Hw).
    cbn in Hk. by apply lookup_replicate in Hk as [-> _]. }
  assert (slot_at 0 (current_slot w0) s2 = Some [0]) as Hl2.
  { subst s2. rewrite slot_at_set_slot; [|by eexists|cbn; lia]. by rewrite decide_True. }
  eexists _, (set_map (<[1 := 0]> (task_map_ s2)) s2). split.
  { unfold add_repeat_timer, add_task. rewrite (proj2 (Z.leb_gt d 0)) by lia. cbn [orb]. rewrite bool_decide_false by done.
    cbn [generate_id current_time_ms make_shared].
    match goal with |- context [add_task_to_wheel clock ?q ?x] =>
      change (add_task_to_wheel clock q x) with (add_task_to_wheel clock 0 s1) end.
    by rewrite He. }
  intros fuel. destruct (same_geom_lookup _ _ _ _ (set_slot_geom 0 (current_slot w0) ([] ++ [0]) s0) Hw) as (w2 & Hw2 & Hg2).
  unfold tick. change (wheels_ (set_map _ s2)) with (wheels_ s2). change (wheels_ s2 !! 0%nat = Some w2) in Hw2.
  rewrite Hw2. cbn [need obind]. assert (current_slot w2 = current_slot w0) as -> by (unfold geom in Hg2; congruence).
  rewrite (fast_repeat_spins clock cb w0 Hck Hcb fuel _ w2 0 (with_rounds 0 t)); try done.
  by apply set_slot_shape.
Qed.

Lemma fast_repeat_hangs_witness :
  exists h s, add_repeat_timer demo_clock 50 (Some 7) demo0 = Ok (h, s)
    /\ forall fuel, tick demo_clock quiet fuel s = Fuel.
Proof.
  apply (fast_repeat_hangs demo_clock quiet 100 60 4 50 7 demo0); [|done|lia|lia|lia|lia|exact demo0_made].
  intros k. unfold demo_clock. lia.
Defined.

(** With one layer, the tick that ends the first revolution reads [wheels_[1]],
    which does not exist. *)
Definition single (tick_len size : Z) (n : nat) : timer_wheel :=
  mkTimerWheel [mkWheel (replicate (Z.to_nat size) []) (Z.of_nat n) tick_len size (size * tick_len)] false 1 ∅ ∅ 0 0.

Lemma single_tick clock cb tick_len size n fuel : Z.of_nat n < size ->
  tick clock cb (S fuel) (single tick_len size n)
  = if Z.of_nat n + 1 <? size then Ok (single tick_len size (S n), []) else Undefined.
Proof.
  intros Hn. assert (slot_at 0 (Z.of_nat n) (single tick_len size n) = Some []) as Hs.
  { unfold slot_at. change (wheels_ (single tick_len size n) !! 0%nat) with
      (Some (mkWheel (replicate (Z.to_nat size) []) (Z.of_nat n) tick_len size (size * tick_len))).
    cbn [mbind option_bind slots]. rewrite (proj2 (Z.ltb_ge _ 0)) by lia. apply lookup_replicate_2. lia. }
  unfold tick. change (wheels_ (single tick_len size n) !! 0%nat) with
    (Some (mkWheel (replicate (Z.to_nat size) []) (Z.of_nat n) tick_len size (size * tick_len))).
  cbn [need obind current_slot process_slot]. rewrite Hs. cbn [need obind lookup list_lookup]. unfold advance.
  cbn. rewrite (proj2 (Z.eqb_neq size 0)) by lia. cbn. rewrite Z.rem_mod_nonneg by lia.
  destruct (Z.lt_ge_cases (Z.of_nat n + 1) size) as [Hlt|Hge].
  - rewrite Z.mod_small by lia. rewrite (proj2 (Z.eqb_neq _ 0)), (proj2 (Z.ltb_lt _ size)) by lia.
    unfold single at 2. rewrite Nat2Z.inj_succ. unfold set_current. cbn.
    by rewrite Z.rem_mod_nonneg, Z.mod_small by lia.
  - replace (Z.of_nat n + 1) with size by lia. rewrite Z_mod_same_full, Z.ltb_irrefl. done.
Qed.

(** The background loop of a one-layer wheel without a single timer runs into
    undefined behaviour in its first revolution, for every size and tick. *)
Theorem one_layer_out_of_range clock cb tick_len size fuel s0 : 0 < size -> TimerWheel tick_len size 1 = Ok s0 ->
  run_loop clock cb (Z.to_nat size) (S fuel) s0 = Undefined.
Proof.
  intros Hs H0. assert (s0 = single tick_len size 0) as ->.
  { unfold TimerWheel in H0. cbn [make_wheels] in H0. unfold new_wheel in H0. destruct (size <? 0); [done|]. obinv.
    repeat match goal with H : as_int _ = Ok _ |- _ => apply as_int_inv in H as [-> _] end. done. }
  assert (forall k n, (n + k = Z.to_nat size)%nat -> (0 < k)%nat ->
    run_loop clock cb k (S fuel) (single tick_len size n) = Undefined) as H; [|apply H; lia].
  induction k as [|k IH]; intros n Hn Hk; [lia|]. cbn [run_loop]. rewrite single_tick by lia.
  case_test; [|done]. cbn [obind]. rewrite IH; [done|lia|lia].
Qed.

Lemma one_layer_out_of_range_witness : run_loop demo_clock quiet 60 3 (single 100 60 0) = Undefined.
Proof. apply (one_layer_out_of_range demo_clock quiet 100 60 2 (single 100 60 0)); [lia|vm_compute; reflexivity]. Defined.

(** The third clock read, at the cascade after 120 ticks of 100 ms. *)
Definition punctual (k : nat) : Z := if (k <? 2)%nat then 0 else 12000.

(** A timer of 6000 ms on the default wheel, ticked on time, waits for two
    revolutions of layer 0: it fires at the start of tick 121, after 12000 ms. *)
Theorem layer_one_fires_late :
  let s := state_of demo0 (add_timer punctual 6000 (Some 7) demo0) in
  exists s', run_loop punctual quiet 121 5 s = Ok (s', replicate 120 [] ++ [[1]]).
Proof. eexists. vm_compute. reflexivity. Qed.

(** ** [TimerManager]: the singleton's wheel, once created *)

Module TimerManager.

Definition manager := option timer_wheel.

Definition init (tick size : Z) (layers : nat) (m : manager) : outcome manager :=
  match m with None => w ←o TimerWheel tick size layers; Ok (Some (start w)) | Some w => Ok (Some w) end.

Definition shutdown (m : manager) : manager := None.

Definition mgr_add_timer (clock : nat -> Z) (d : Z) (c : option Z) (m : manager) : outcome (TimerHandle * manager) :=
  match m with
  | Some w => '(h, w') ←o add_timer clock d c w; Ok (h, Some w')
  | None => Ok (TimerHandle_default, None)
  end.

Definition mgr_add_repeat_timer (clock : nat -> Z) (d : Z) (c : option Z) (m : manager) : outcome (TimerHandle * manager) :=
  match m with
  | Some w => '(h, w') ←o add_repeat_timer clock d c w; Ok (h, Some w')
  | None => Ok (TimerHandle_default, None)
  end.

Definition mgr_cancel_timer (h : TimerHandle) (m : manager) : TimerHandle * manager :=
  match m with
  | Some w => let '(h', w') := cancel_timer h w in (h', Some w')
  | None => (h, None)
  end.

End TimerManager.
