(* ===== verification/Wire.v ===== *)
(** * Wire: the field encodings shared by src/sync/frame_sync.cpp and state_sync.cpp

    Both files have their own copies of the same static helpers.  A decoder
    reads a field at an offset and returns it with the next offset, [None] where
    the code returns [false].  A [std::string] is the list of its bytes. *)

From Stdlib Require DecimalString.
From S2P Require Import Prelude.
From S2P Require Import Protocol.
Import Endian.

#[global] Instance byte_eq_dec : EqDecision byte := Byte.byte_eq_dec.

#[global] Program Instance byte_countable : Countable byte :=
  inj_countable' byte_val byte_of _.
Next Obligation. apply byte_of_val. Qed.

(** [std::string]. *)
Definition str : Type := list byte.
#[global] Instance str_eq_dec : EqDecision str := _.
#[global] Instance str_countable : Countable str := _.

(** A string literal, and [std::to_string] of an integer. *)
Definition lit (s : string) : str := String.list_byte_of_string s.
Definition to_string (z : Z) : str := lit (DecimalString.NilZero.string_of_int (Z.to_int z)).

Definition decoder_of (A : Type) : Type := list byte -> nat -> option (A * nat).

(** The loop of [decode_uint32] and [decode_uint64]: [value |= byte << (i * 8)]. *)
Fixpoint decode_le (n : nat) (i : Z) (value : Z) (data : list byte) (offset : nat) : Z :=
  match n with
  | O => value
  | S n' => decode_le n' (i + 1) (Z.lor value (Z.shiftl (byte_at data offset) (i * 8))) data (S offset)
  end.

Definition decode_uint32 : decoder_of Z := fun data offset =>
  if (length data <? offset + 4)%nat then None else Some (decode_le 4 0 0 data offset, (offset + 4)%nat).

Definition decode_uint64 : decoder_of Z := fun data offset =>
  if (length data <? offset + 8)%nat then None else Some (decode_le 8 0 0 data offset, (offset + 8)%nat).

Definition decode_uint8 : decoder_of Z := fun data offset =>
  if (length data <? offset + 1)%nat then None else Some (byte_at data offset, (offset + 1)%nat).

(** [decode_bytes] and [decode_string]. *)
Definition decode_bytes (e : endianness) : decoder_of (list byte) := fun data offset =>
  if (length data <? offset + 2)%nat then None
  else
    let len := Z.to_nat (net_to_host16 e (load16 e data offset)) in
    if (length data <? offset + 2 + len)%nat then None
    else Some (take len (drop (offset + 2) data), (offset + 2 + len)%nat).

(** [result[i] = (value >> (i * 8)) & 0xFF]. *)
Definition encode_le (n : nat) (value : Z) : list byte :=
  (fun i => byte_of (Z.land (Z.shiftr value (Z.of_nat i * 8)) 255)) <$> seq 0 n.

Definition encode_uint32 (value : Z) : list byte := encode_le 4 value.
Definition encode_uint64 (value : Z) : list byte := encode_le 8 value.
Definition encode_uint8 (value : Z) : list byte := [byte_of value].

Definition encode_bytes (e : endianness) (data : list byte) : list byte :=
  mem16 e (host_to_net16 e (u16 (Z.of_nat (length data)))) ++ data.

(** ** Round trips *)

(** A decoder that reads back, at any place of a packet, what [enc] wrote. *)
Definition reads {A} (dec : decoder_of A) (a : A) (enc : list byte) : Prop :=
  forall pre post, dec (pre ++ enc ++ post) (length pre) = Some (a, (length pre + length enc)%nat).

Lemma byte_at_mid pre enc post i : (i < length enc)%nat ->
  byte_at (pre ++ enc ++ post) (length pre + i) = byte_at enc i.
Proof.
  intros Hi. rewrite <- byte_at_drop, drop_app_length. by apply byte_at_app.
Qed.

Lemma byte_at_encode_le n v i : (i < n)%nat ->
  byte_at (encode_le n v) i = v / 2 ^ (8 * Z.of_nat i) mod 256.
Proof.
  intros Hi. unfold byte_at, encode_le. rewrite nth_lookup, list_lookup_fmap, lookup_seq_lt by done.
  cbn. rewrite byte_val_of, (Z.land_ones _ 8), Z.shiftr_div_pow2 by lia.
  rewrite Zmod_mod. by rewrite (Z.mul_comm _ 8).
Qed.

(** The loop reassembles the low bytes. *)
Lemma decode_le_spec n : forall i value data offset v,
  (forall j, (j < n)%nat -> byte_at data (offset + j) = v / 2 ^ (8 * (i + Z.of_nat j)) mod 256) ->
  0 <= i -> value = v mod 2 ^ (8 * i) ->
  decode_le n i value data offset = v mod 2 ^ (8 * (i + Z.of_nat n)).
Proof.
  induction n as [|n IH]; intros i value data offset v Hb Hi Hv; cbn [decode_le].
  { by rewrite Z.add_0_r. }
  rewrite (IH (i + 1) _ data (S offset) v).
  - do 2 f_equal. lia.
  - intros j Hj. replace (S offset + j)%nat with (offset + S j)%nat by lia. rewrite Hb by lia. do 3 f_equal. lia.
  - lia.
  - pose proof (Hb 0%nat ltac:(lia)) as H0. rewrite Nat.add_0_r, Z.add_0_r in H0. rewrite H0, Hv.
    rewrite (Z.mul_comm i 8). apply Z.bits_inj'. intros k Hk.
    rewrite Z.lor_spec, Z.shiftl_spec by done.
    change 256 with (2 ^ 8). destruct (Z.lt_ge_cases k (8 * i)) as [Hlt|Hge].
    + rewrite (Z.testbit_neg_r _ (k - 8 * i)) by lia. rewrite orb_false_r.
      rewrite !Z.mod_pow2_bits_low by lia. done.
    + rewrite Z.mod_pow2_bits_high by lia. cbn [orb].
      destruct (Z.lt_ge_cases k (8 * (i + 1))) as [Hlt|Hge'].
      * rewrite !Z.mod_pow2_bits_low by lia. rewrite Z.div_pow2_bits by lia. f_equal. lia.
      * rewrite !Z.mod_pow2_bits_high by lia. done.
Qed.

Lemma length_encode_le n v : length (encode_le n v) = n.
Proof. unfold encode_le. by rewrite length_fmap, length_seq. Qed.

Lemma decode_le_encode n v pre post : 0 <= v < 2 ^ (8 * Z.of_nat n) ->
  decode_le n 0 0 (pre ++ encode_le n v ++ post) (length pre) = v.
Proof.
  intros Hv. rewrite (decode_le_spec n 0 0 _ _ v); [by rewrite Z.add_0_l, Z.mod_small| |done|by rewrite Z.mod_1_r].
  intros j Hj. rewrite byte_at_mid by by rewrite length_encode_le. by rewrite byte_at_encode_le.
Qed.

Lemma reads_uint32 v : 0 <= v < 2 ^ 32 -> reads decode_uint32 v (encode_uint32 v).
Proof.
  intros Hv pre post. unfold decode_uint32, encode_uint32. rewrite !length_app, length_encode_le.
  rewrite (proj2 (Nat.ltb_ge _ _)) by lia. by rewrite decode_le_encode.
Qed.

Lemma reads_uint64 v : 0 <= v < 2 ^ 64 -> reads decode_uint64 v (encode_uint64 v).
Proof.
  intros Hv pre post. unfold decode_uint64, encode_uint64. rewrite !length_app, length_encode_le.
  rewrite (proj2 (Nat.ltb_ge _ _)) by lia. by rewrite decode_le_encode.
Qed.

Lemma reads_uint8 v : 0 <= v < 256 -> reads decode_uint8 v (encode_uint8 v).
Proof.
  intros Hv pre post. unfold decode_uint8, encode_uint8. rewrite !length_app. cbn [length].
  rewrite (proj2 (Nat.ltb_ge _ _)) by lia. rewrite <- (Nat.add_0_r (length pre)) at 1.
  rewrite byte_at_mid by (cbn; lia). unfold byte_at. cbn. by rewrite byte_val_of, Z.mod_small.
Qed.

Lemma load16_mid e pre enc post i : (i + 2 <= length enc)%nat ->
  load16 e (pre ++ enc ++ post) (length pre + i) = load16 e enc i.
Proof. intros Hi. rewrite <- load16_drop, drop_app_length. by apply load16_app. Qed.

Lemma reads_bytes e data : Z.of_nat (length data) < 65536 -> reads (decode_bytes e) data (encode_bytes e data).
Proof.
  intros Hd pre post. unfold decode_bytes, encode_bytes.
  set (len := mem16 e (host_to_net16 e (u16 (Z.of_nat (length data))))).
  assert (length len = 2%nat) as Hlen by apply length_mem16.
  rewrite !length_app, Hlen. rewrite (proj2 (Nat.ltb_ge _ _)) by lia.
  assert (net_to_host16 e (load16 e (pre ++ (len ++ data) ++ post) (length pre)) = Z.of_nat (length data)) as Hl.
  { rewrite <- (Nat.add_0_r (length pre)). rewrite load16_mid by (rewrite length_app; lia).
    unfold len. rewrite load_store16; rewrite uwrap_small; lia. }
  rewrite Hl, Nat2Z.id. rewrite (proj2 (Nat.ltb_ge _ _)) by lia. f_equal. f_equal; [|lia].
  rewrite <- drop_drop, drop_app_length, <- app_assoc.
  replace (drop 2 (len ++ data ++ post)) with (data ++ post) by (by rewrite <- Hlen, drop_app_length).
  apply take_app_length.
Qed.

(** Reading two fields one after the other. *)
Lemma reads_at {A} (dec : decoder_of A) a enc pre post n : reads dec a enc -> n = length pre ->
  dec (pre ++ enc ++ post) n = Some (a, (n + length enc)%nat).
Proof. intros H ->. apply H. Qed.
#[export] Hint Resolve reads_uint32 reads_uint64 reads_uint8 reads_bytes : chwell.
