(* ===== verification/Effects.v ===== *)
(** * Effects: mutexes, messages sent and unspecified iteration order

    A handler of src/sync reads and writes its component, locks its mutex and
    sends messages.  [M S A] is such a computation on a component of type [S];
    locking a [std::mutex] the same thread already holds is [Deadlock] (it is
    not recursive).  A connection is the address of its [TcpConnection]. *)

From S2P Require Import Prelude.
From S2P Require Import Protocol.

Record Sent := mkSent { to : Z; sent_msg : Message.Message }.

Inductive result (A : Type) :=
| Done (a : A)
| Deadlock.
Arguments Done {A} a.
Arguments Deadlock {A}.

Definition M (S A : Type) : Type := S -> result (A * S * list Sent).

Definition ret {S A} (a : A) : M S A := fun s => Done (a, s, []).

Definition bind {S A B} (m : M S A) (f : A -> M S B) : M S B := fun s =>
  match m s with
  | Done (a, s1, out1) =>
      match f a s1 with
      | Done (b, s2, out2) => Done (b, s2, out1 ++ out2)
      | Deadlock => Deadlock
      end
  | Deadlock => Deadlock
  end.

Declare Scope effect_scope.
Delimit Scope effect_scope with effect.
Notation "'let*' x := m 'in' k" := (bind m (fun x => k)) (at level 10, x name, k at level 200) : effect_scope.
Notation "'do' m 'then' k" := (bind m (fun _ => k)) (at level 10, m at level 100, k at level 200) : effect_scope.

(** A step that sends nothing. *)
Lemma bind_quiet {S A B} (m : M S A) (f : A -> M S B) s a s1 :
  m s = Done (a, s1, []) -> bind m f s = f a s1.
Proof. unfold bind. intros ->. by destruct (f a s1) as [[[b s2] out]|]. Qed.

Lemma bind_deadlock {S A B} (m : M S A) (f : A -> M S B) s : m s = Deadlock -> bind m f s = Deadlock.
Proof. unfold bind. by intros ->. Qed.

Definition gets {S A} (f : S -> A) : M S A := fun s => Done (f s, s, []).
Definition modify {S} (f : S -> S) : M S unit := fun s => Done (tt, f s, []).
Definition send {S} (c : Z) (m : Message.Message) : M S unit := fun s => Done (tt, s, [mkSent c m]).

(** A component with a mutex. *)
Class Lockable (S : Type) := {
  is_locked : S -> bool;
  set_locked : bool -> S -> S
}.

(** The scope of a [std::lock_guard]. *)
Definition with_lock {S A} `{Lockable S} (m : M S A) : M S A := fun s =>
  if is_locked s then Deadlock
  else match m (set_locked true s) with
       | Done (a, s', out) => Done (a, set_locked false s', out)
       | Deadlock => Deadlock
       end.

Lemma with_lock_done {S A} `{Lockable S} (m : M S A) s a s' out :
  is_locked s = false -> m (set_locked true s) = Done (a, s', out) ->
  with_lock m s = Done (a, set_locked false s', out).
Proof. intros Hl Hm. unfold with_lock. by rewrite Hl, Hm. Qed.

Lemma with_lock_deadlock {S A} `{Lockable S} (m : M S A) s :
  m (set_locked true s) = Deadlock -> with_lock m s = Deadlock.
Proof. unfold with_lock. intros ->. by destruct (is_locked s). Qed.

(** [for (auto& x : xs) f(x);] *)
Fixpoint for_each {S A} (f : A -> M S unit) (xs : list A) : M S unit :=
  match xs with
  | [] => ret tt
  | x :: xs' => bind (f x) (fun _ => for_each f xs')
  end.

(** Sends in a loop go out in its order. *)
Lemma for_each_sends {S A} (f : A -> Z) (g : A -> Message.Message) xs (s : S) :
  for_each (fun x => send (f x) (g x)) xs s = Done (tt, s, (fun x => mkSent (f x) (g x)) <$> xs).
Proof. induction xs as [|x xs IH]; [done|]. cbn. unfold bind. cbn. by rewrite IH. Qed.

(** The order in which an [unordered_map] is iterated: any, the standard says. *)
Class IterOrder (K : Type) `{Countable K} := {
  iter : forall A, gmap K A -> list (K * A);
  iter_perm : forall A (m : gmap K A), iter A m ≡ₚ map_to_list m
}.
Arguments iter {K _ _ _ A} m.
Arguments iter_perm {K _ _ _ A} m.

(** One such order, for examples. *)
Definition key_order (K : Type) `{Countable K} : IterOrder K :=
  {| iter := fun A m => map_to_list m; iter_perm := fun A m => reflexivity _ |}.

(** An [unordered_set] in iteration order. *)
Definition iter_set {K} `{IterOrder K} (s : gset K) : list K := (iter (gset_to_gmap tt s)).*1.

Section Iteration.
Context {K : Type} `{IterOrder K} {A : Type}.

Lemma elem_of_iter (m : gmap K A) k a : (k, a) ∈ iter m <-> m !! k = Some a.
Proof. rewrite (iter_perm m). apply elem_of_map_to_list. Qed.

Lemma NoDup_iter (m : gmap K A) : NoDup (iter m).*1.
Proof.
  pose proof (NoDup_fst_map_to_list m) as Hn. by rewrite <- (iter_perm m) in Hn.
Qed.

Lemma length_iter (m : gmap K A) : length (iter m) = size m.
Proof. rewrite (iter_perm m). apply length_map_to_list. Qed.
End Iteration.

Section SetIteration.
Context {K : Type} `{IterOrder K}.

Lemma elem_of_iter_set (s : gset K) k : k ∈ iter_set s <-> k ∈ s.
Proof.
  unfold iter_set. rewrite list_elem_of_fmap. split.
  - intros ([k' []] & -> & [Hk _]%elem_of_iter%lookup_gset_to_gmap_Some). done.
  - intros Hk. exists (k, tt). split; [done|]. by apply elem_of_iter, lookup_gset_to_gmap_Some.
Qed.

Lemma NoDup_iter_set (s : gset K) : NoDup (iter_set s).
Proof.
  pose proof (NoDup_fst_map_to_list (gset_to_gmap tt s)) as Hn.
  by rewrite <- (iter_perm (gset_to_gmap tt s)) in Hn.
Qed.

Lemma iter_set_perm (s : gset K) : iter_set s ≡ₚ elements s.
Proof.
  apply NoDup_Permutation; [apply NoDup_iter_set|apply NoDup_elements|].
  intros k. by rewrite elem_of_iter_set, elem_of_elements.
Qed.
End SetIteration.
