(* ===== verification/FrameSync.v ===== *)
(** * FrameSync: lock-step rooms of src/sync/frame_sync.cpp and frame_sync.h

    Module [Room] is [FrameSyncRoom]: the players' connections, a queue of
    inputs per player, the snapshots.  Module [Component] is
    [FrameSyncComponent]: the rooms and which connection is in which, the
    packet handlers and what they send.  Each has its own mutex.  An
    [unordered_map] is iterated in an order that is a parameter. *)

From stdpp Require Import sorting.
From S2P Require Import Prelude.
From S2P Require Import Protocol.
From S2P Require Import Wire.
From S2P Require Import Effects.
Import Endian Message.

#[local] Open Scope effect_scope.

Definition C2S_FRAME_INPUT : Z := 257.     (* 0x0101 *)
Definition C2S_FRAME_SYNC_REQ : Z := 258.  (* 0x0102 *)
Definition S2C_FRAME_SYNC : Z := 259.      (* 0x0103 *)
Definition S2C_FRAME_STATE : Z := 260.     (* 0x0104 *)
Definition S2C_FRAME_SNAPSHOT : Z := 261.  (* 0x0105 *)

Record FrameInput := mkInput { frame_id : Z; player_id : Z; input_data : list byte }.
Record FrameState := mkState { state_frame : Z; state_data : list byte }.
Record FrameSnapshot := mkSnapshot { snap_frame : Z; snapshot_data : list byte }.

Module Room.

Record room := mkRoom {
  room_id_ : str;
  frame_rate_ : Z;
  current_frame_ : Z;
  running_ : bool;
  room_locked : bool;
  players_ : gmap Z Z;
  player_inputs_ : gmap Z (list FrameInput);
  snapshots_ : gmap Z FrameSnapshot
}.

Definition FrameSyncRoom (rid : str) (rate : Z) : room := mkRoom rid rate 0 false false ∅ ∅ ∅.

#[global] Instance room_lockable : Lockable room := {|
  is_locked := room_locked;
  set_locked := fun b r => mkRoom (room_id_ r) (frame_rate_ r) (current_frame_ r) (running_ r) b
                             (players_ r) (player_inputs_ r) (snapshots_ r)
|}.

Definition with_frame (f : Z) (r : room) : room :=
  mkRoom (room_id_ r) (frame_rate_ r) f (running_ r) (room_locked r) (players_ r) (player_inputs_ r) (snapshots_ r).
Definition with_running (b : bool) (r : room) : room :=
  mkRoom (room_id_ r) (frame_rate_ r) (current_frame_ r) b (room_locked r) (players_ r) (player_inputs_ r) (snapshots_ r).
Definition with_players (ps : gmap Z Z) (qs : gmap Z (list FrameInput)) (r : room) : room :=
  mkRoom (room_id_ r) (frame_rate_ r) (current_frame_ r) (running_ r) (room_locked r) ps qs (snapshots_ r).
Definition with_snapshots (ss : gmap Z FrameSnapshot) (r : room) : room :=
  mkRoom (room_id_ r) (frame_rate_ r) (current_frame_ r) (running_ r) (room_locked r) (players_ r) (player_inputs_ r) ss.

Definition join_player (p conn : Z) : M room unit :=
  with_lock (modify (fun r => with_players (<[p := conn]> (players_ r)) (<[p := []]> (player_inputs_ r)) r)).

Definition leave_player (p : Z) : M room unit :=
  with_lock (modify (fun r => with_players (delete p (players_ r)) (delete p (player_inputs_ r)) r)).

(** [player_inputs_[player_id].push(input)], which makes the queue if there is none. *)
Definition submit_input (p : Z) (input : FrameInput) : M room unit :=
  with_lock (modify (fun r =>
    with_players (players_ r) (<[p := default [] (player_inputs_ r !! p) ++ [input]]> (player_inputs_ r)) r)).

(** The [while] loop over one queue: what it takes out, what is left. *)
Fixpoint take_frame (f : Z) (q : list FrameInput) : list FrameInput * list FrameInput :=
  match q with
  | [] => ([], [])
  | x :: q' =>
      if frame_id x <=? f then
        let '(xs, rest) := take_frame f q' in
        (if frame_id x =? f then x :: xs else xs, rest)
      else ([], q)
  end.

Section Order.
Context {IO : IterOrder Z}.

Definition get_all_inputs (f : Z) : M room (list FrameInput) :=
  with_lock (fun r =>
    Done (mjoin ((fun '(_, q) => (take_frame f q).1) <$> iter (player_inputs_ r)),
          with_players (players_ r) ((fun q => (take_frame f q).2) <$> player_inputs_ r) r, [])).

(** [while (snapshots_.size() > 10) snapshots_.erase(snapshots_.begin())]. *)
Fixpoint trim (fuel : nat) (m : gmap Z FrameSnapshot) : gmap Z FrameSnapshot :=
  match fuel with
  | O => m
  | S fuel' =>
      if (10 <? size m)%nat then
        match iter m with
        | (k, _) :: _ => trim fuel' (delete k m)
        | [] => m
        end
      else m
  end.

Definition create_snapshot (s : FrameSnapshot) : M room unit :=
  with_lock (modify (fun r =>
    let m := <[snap_frame s := s]> (snapshots_ r) in with_snapshots (trim (size m) m) r)).

Definition get_player_ids : M room (list Z) := with_lock (gets (fun r => (iter (player_inputs_ r)).*1)).

Definition get_player_connections : M room (list Z) := with_lock (gets (fun r => (iter (players_ r)).*2)).
End Order.

Definition get_snapshot (f : Z) : M room (option FrameSnapshot) := with_lock (gets (fun r => snapshots_ r !! f)).

Definition current_frame : M room Z := gets current_frame_.

Definition advance_frame : M room unit :=
  with_lock (modify (fun r => with_frame (u32 (current_frame_ r + 1)) r)).

Definition start_sync : M room unit := modify (with_running true).
Definition stop_sync : M room unit := modify (with_running false).

Definition player_count : M room nat := with_lock (gets (fun r => size (player_inputs_ r))).

(** [!queue.empty() && queue.front().frame_id == frame_id] *)
Definition front_is (f : Z) (q : list FrameInput) : bool :=
  match q with x :: _ => frame_id x =? f | [] => false end.

Definition inputs_ready (f : Z) (r : room) : bool :=
  bool_decide (map_Forall (fun _ q => front_is f q = true) (player_inputs_ r)).

Definition all_inputs_ready (f : Z) : M room bool := with_lock (gets (inputs_ready f)).

End Room.

Module Component.
Import Room.

Record ConnectionInfo := mkInfo { info_player : Z; info_room : str }.

Record component := mkComponent {
  locked : bool;
  rooms_ : gmap str room;
  connections_ : gmap Z ConnectionInfo;
  rate_ : Z
}.

Definition FrameSyncComponent (rate : Z) : component := mkComponent false ∅ ∅ rate.

#[global] Instance component_lockable : Lockable component := {|
  is_locked := locked;
  set_locked := fun b s => mkComponent b (rooms_ s) (connections_ s) (rate_ s)
|}.

Definition set_rooms (rs : gmap str room) (s : component) : component :=
  mkComponent (locked s) rs (connections_ s) (rate_ s).
Definition set_connections (cs : gmap Z ConnectionInfo) (s : component) : component :=
  mkComponent (locked s) (rooms_ s) cs (rate_ s).

(** A method of the room [it->second]; [dflt] when there is none. *)
Definition room_do {A} (rid : str) (dflt : A) (m : M room A) : M component A := fun s =>
  match rooms_ s !! rid with
  | None => Done (dflt, s, [])
  | Some r =>
      match m r with
      | Done (a, r', out) => Done (a, set_rooms (<[rid := r']> (rooms_ s)) s, out)
      | Deadlock => Deadlock
      end
  end.

Definition has_room (rid : str) : M component bool := gets (fun s => bool_decide (is_Some (rooms_ s !! rid))).

(** [ProtocolRouterComponent::send_message]. *)
Definition send_message (conn : Z) (msg : Message) : M component unit := send conn msg.

Definition create_room (rid : str) : M component unit :=
  with_lock (fun s =>
    if decide (is_Some (rooms_ s !! rid)) then Done (tt, s, [])
    else
      room_do rid tt start_sync (set_rooms (<[rid := FrameSyncRoom rid (rate_ s)]> (rooms_ s)) s)).

Definition destroy_room (rid : str) : M component unit :=
  with_lock (do room_do rid tt stop_sync then modify (fun s => set_rooms (delete rid (rooms_ s)) s)).

Definition join_room (p : Z) (rid : str) (conn : Z) : M component unit :=
  with_lock (
    let* ex := has_room rid in
    if ex then
      do room_do rid tt (join_player p conn) then
      modify (fun s => set_connections (<[conn := mkInfo p rid]> (connections_ s)) s)
    else ret tt).

Definition leave_room (p : Z) (rid : str) : M component unit :=
  let* should_destroy := with_lock (
    do room_do rid tt (leave_player p) then
    let* count := room_do rid 1%nat player_count in
    do modify (fun s => set_connections
      (filter (fun '(_, i) => ~ (info_player i = p /\ info_room i = rid)) (connections_ s)) s) then
    ret (count =? 0)%nat) in
  if should_destroy then destroy_room rid else ret tt.

Definition get_player_id (conn : Z) : M component Z :=
  with_lock (gets (fun s => match connections_ s !! conn with Some i => info_player i | None => 0 end)).

Definition get_room_id (conn : Z) : M component str :=
  with_lock (gets (fun s => match connections_ s !! conn with Some i => info_room i | None => [] end)).

Definition send_frame_sync (conn cur : Z) : M component unit :=
  send_message conn (mkMessage S2C_FRAME_SYNC (encode_uint32 cur)).

Section Program.
Context {IO : IterOrder Z} (e : endianness).

Definition send_frame_snapshot (conn : Z) (s : FrameSnapshot) : M component unit :=
  send_message conn (mkMessage S2C_FRAME_SNAPSHOT (encode_uint32 (snap_frame s) ++ encode_bytes e (snapshot_data s))).

(** The room the loop of [submit_input] finds. *)
Definition find_room (p : Z) (s : component) : option str :=
  head (omap (fun '(_, i) =>
    if decide (info_player i = p /\ is_Some (rooms_ s !! info_room i)) then Some (info_room i) else None)
    (iter (connections_ s))).

Definition submit_input (p : Z) (input : FrameInput) : M component unit :=
  with_lock (fun s =>
    match find_room p s with
    | Some rid => room_do rid tt (Room.submit_input p input) s
    | None => Done (tt, s, [])
    end).

Definition create_snapshot (rid : str) (snap : FrameSnapshot) : M component unit :=
  with_lock (room_do rid tt (Room.create_snapshot snap)).

Definition broadcast_frame_state (rid : str) (st : FrameState) : M component unit :=
  let* ex := with_lock (
    let* ex := has_room rid in
    let* conns := room_do rid [] get_player_connections in
    ret (if ex : bool then Some conns else None)) in
  match ex with
  | None => ret tt
  | Some conns =>
      let msg := mkMessage S2C_FRAME_STATE (encode_uint32 (state_frame st) ++ encode_bytes e (state_data st)) in
      for_each (fun conn => send_message conn msg) conns
  end.

(** [[player_id(4)][frame_id(4)][input_data_len(2)][input_data]] *)
Definition decode_frame_input (data : list byte) : option FrameInput :=
  '(player, off) ← decode_uint32 data 0%nat;
  '(frame, off) ← decode_uint32 data off;
  '(input, _) ← decode_bytes e data off;
  Some (mkInput frame player input).

Definition handle_frame_input (conn : Z) (data : list byte) : M component unit :=
  match decode_frame_input data with
  | None => ret tt
  | Some input =>
      do submit_input (player_id input) input then
      let* rid := get_room_id conn in
      if bool_decide (rid = []) then ret tt
      else with_lock (
        let* ex := has_room rid in
        if ex then
          let* ready := room_do rid false (all_inputs_ready (frame_id input)) in
          if ready : bool then
            do room_do rid tt advance_frame then
            let* cur := room_do rid 0 current_frame in
            broadcast_frame_state rid (mkState cur [])
          else ret tt
        else ret tt)
  end.

Definition handle_frame_sync_req (conn : Z) (data : list byte) : M component unit :=
  match decode_bytes e data 0%nat with
  | None => ret tt
  | Some (rid, _) =>
      with_lock (
        let* ex := has_room rid in
        if ex then
          let* cur := room_do rid 0 current_frame in
          send_frame_sync conn cur
        else ret tt)
  end.

Definition on_disconnect (conn : Z) : M component unit :=
  let* info := with_lock (fun s =>
    match connections_ s !! conn with
    | Some i => Done ((info_player i, info_room i), set_connections (delete conn (connections_ s)) s, [])
    | None => Done ((0, []), s, [])
    end) in
  if bool_decide (info.2 = []) then ret tt else leave_room info.1 info.2.

(** The handlers [on_register] gives the router, by command. *)
Definition on_register (cmd : Z) : option (Z -> list byte -> M component unit) :=
  if cmd =? C2S_FRAME_INPUT then Some handle_frame_input
  else if cmd =? C2S_FRAME_SYNC_REQ then Some handle_frame_sync_req
  else None.
End Program.
End Component.

(** ** Rooms *)

Module RoomFacts.
Import Room.

Lemma take_frame_spec f q : StronglySorted (fun x y => frame_id x <= frame_id y) q ->
  take_frame f q = (filter (fun x => frame_id x = f) q, filter (fun x => f < frame_id x) q).
Proof.
  intros Hs. induction Hs as [|x q Hs IH Hx]; [done|]. cbn [take_frame]. rewrite !filter_cons, IH.
  destruct (frame_id x <=? f) eqn:Hle; breflect.
  - rewrite (decide_False (P := f < frame_id x)) by lia. f_equal.
    destruct (frame_id x =? f) eqn:He; breflect; [by rewrite decide_True|by rewrite decide_False].
  - rewrite (decide_False (P := frame_id x = f)), decide_True by lia.
    rewrite Forall_forall in Hx. f_equal.
    + symmetry. apply filter_none. apply Forall_forall. intros y Hy. specialize (Hx y Hy). lia.
    + f_equal. symmetry. apply filter_all. apply Forall_forall. intros y Hy. specialize (Hx y Hy). lia.
Qed.

Section Order.
Context {IO : IterOrder Z}.

(** Collecting a frame's inputs from queues in frame order takes exactly the
    inputs of that frame, of every player, and leaves each player exactly the
    later ones: earlier inputs are dropped. *)
Theorem get_all_inputs_exact f r :
  room_locked r = false ->
  (forall p q, player_inputs_ r !! p = Some q -> StronglySorted (fun x y => frame_id x <= frame_id y) q) ->
  exists inputs r', get_all_inputs f r = Done (inputs, r', [])
    /\ inputs ≡ₚ filter (fun x => frame_id x = f) (mjoin ((map_to_list (player_inputs_ r)).*2))
    /\ (forall p, player_inputs_ r' !! p = filter (fun x => f < frame_id x) <$> player_inputs_ r !! p)
    /\ players_ r' = players_ r /\ current_frame_ r' = current_frame_ r.
Proof.
  intros Hl Hs. eexists _, _. split; [by apply with_lock_done|]. split_and!; [|intros p|done|done]; cbn.
  - rewrite <- (iter_perm (player_inputs_ r)).
    assert (forall kv, kv ∈ iter (player_inputs_ r) ->
      StronglySorted (fun x y => frame_id x <= frame_id y) kv.2) as Hall.
    { intros [k q] Hk%elem_of_iter. by eapply Hs. }
    clear Hs. induction (iter (player_inputs_ r)) as [|[k q] kvs IH]; [done|]. cbn.
    rewrite filter_app, IH by (intros kv Hkv; apply Hall; by right).
    rewrite take_frame_spec; [done|]. apply (Hall (k, q)). by left.
  - rewrite lookup_fmap. destruct (player_inputs_ r !! p) as [q|] eqn:Hp; [|done]. cbn.
    by rewrite (take_frame_spec f q (Hs p q Hp)).
Qed.

Lemma trim_spec fuel m : (size m <= fuel)%nat ->
  (size (trim fuel m) <= 10)%nat /\ (forall k s, trim fuel m !! k = Some s -> m !! k = Some s)
  /\ ((size m <= 10)%nat -> trim fuel m = m).
Proof.
  revert m. induction fuel as [|fuel IH]; intros m Hm; cbn [trim]; [split_and!; [lia|done|done]|].
  case_test; [|split_and!; [lia|done|done]].
  destruct (iter m) as [|[k s] kvs] eqn:Hi; [apply (f_equal length) in Hi; rewrite length_iter in Hi; cbn in Hi; lia|].
  assert (m !! k = Some s) as Hk by (apply elem_of_iter; rewrite Hi; by left).
  assert (size (delete k m) = pred (size m)) as Hsz by (rewrite map_size_delete, Hk; cbn; lia).
  destruct (IH (delete k m)) as (H1 & H2 & _); [lia|]. split_and!; [done| |lia].
  intros k' s' Hk'. apply H2 in Hk'. by apply lookup_delete_Some in Hk' as [_ ?].
Qed.

(** Storing a snapshot keeps at most ten, all of them ones that were stored,
    and loses none before the eleventh. *)
Theorem snapshots_bounded s r : room_locked r = false ->
  exists r', create_snapshot s r = Done (tt, r', []) /\ (size (snapshots_ r') <= 10)%nat
    /\ (forall k s', snapshots_ r' !! k = Some s' -> <[snap_frame s := s]> (snapshots_ r) !! k = Some s')
    /\ ((size (<[snap_frame s := s]> (snapshots_ r)) <= 10)%nat -> snapshots_ r' = <[snap_frame s := s]> (snapshots_ r)).
Proof.
  intros Hl. eexists. split; [by apply with_lock_done|]. cbn.
  by apply (trim_spec (size (<[snap_frame s := s]> (snapshots_ r)))).
Qed.
End Order.

(** Frames 1 to 11, stored in this order. *)
Fixpoint store_snapshots {IO : IterOrder Z} (fs : list Z) : M room unit :=
  match fs with
  | [] => ret tt
  | f :: fs' => do create_snapshot (mkSnapshot f []) then store_snapshots fs'
  end.

Lemma snapshots_bounded_witness :
  exists r', create_snapshot (IO := key_order Z) (mkSnapshot 5 []) (FrameSyncRoom [] 30) = Done (tt, r', [])
    /\ (size (snapshots_ r') <= 10)%nat
    /\ (forall k s', snapshots_ r' !! k = Some s' -> <[5 := mkSnapshot 5 []]> (∅ : gmap Z FrameSnapshot) !! k = Some s')
    /\ ((size (<[5%Z := mkSnapshot 5 []]> (∅ : gmap Z FrameSnapshot)) <= 10)%nat ->
        snapshots_ r' = <[5 := mkSnapshot 5 []]> ∅).
Proof. by apply (snapshots_bounded (IO := key_order Z) (mkSnapshot 5 []) (FrameSyncRoom [] 30)). Defined.

(** The snapshots are kept in an unordered map, so [erase(begin())] need not
    drop the oldest: with an iteration order the standard allows, storing
    frames 1 to 11 drops frame 11 at once and keeps frame 1. *)
Theorem newest_snapshot_lost :
  exists IO : IterOrder Z, exists r,
    store_snapshots (seqZ 1 11) (FrameSyncRoom [] 30) = Done (tt, r, [])
    /\ get_snapshot 11 r = Done (None, r, []) /\ get_snapshot 1 r = Done (Some (mkSnapshot 1 []), r, []).
Proof. exists (key_order Z). eexists. split_and!; vm_compute; reflexivity. Qed.

Definition demo_input (f p : Z) : FrameInput := mkInput f p [].

Definition demo_room : room :=
  with_players ∅ {[1 := [demo_input 1 1; demo_input 2 1; demo_input 3 1]; 2 := [demo_input 2 2]]} (FrameSyncRoom [] 30).

Lemma get_all_inputs_exact_witness :
  exists inputs r', get_all_inputs (IO := key_order Z) 2 demo_room = Done (inputs, r', [])
    /\ inputs ≡ₚ filter (fun x => frame_id x = 2) (mjoin ((map_to_list (player_inputs_ demo_room)).*2))
    /\ (forall p, player_inputs_ r' !! p = filter (fun x => 2 < frame_id x) <$> player_inputs_ demo_room !! p)
    /\ players_ r' = players_ demo_room /\ current_frame_ r' = 0.
Proof.
  apply (get_all_inputs_exact (IO := key_order Z) 2 demo_room).
  - reflexivity.
  - intros p q. cbn. rewrite lookup_insert_Some, lookup_singleton_Some. intros [[<- <-]|[_ [<- <-]]];
      repeat constructor; cbn; lia.
Defined.

End RoomFacts.

(** ** The component *)

Module ComponentFacts.
Import Room Component.

Section Order.
Context {IO : IterOrder Z} (e : endianness).

(** The packet of an input. *)
Definition encode_frame_input (i : FrameInput) : list byte :=
  encode_uint32 (player_id i) ++ encode_uint32 (frame_id i) ++ encode_bytes e (input_data i).

Definition input_wf (i : FrameInput) : Prop :=
  0 <= player_id i < 2 ^ 32 /\ 0 <= frame_id i < 2 ^ 32 /\ Z.of_nat (length (input_data i)) < 65536.

Lemma decode_encode_frame_input i more : input_wf i -> decode_frame_input e (encode_frame_input i ++ more) = Some i.
Proof.
  intros (Hp & Hf & Hd). unfold decode_frame_input, encode_frame_input. rewrite <- !app_assoc.
  set (p := encode_uint32 (player_id i)). set (f := encode_uint32 (frame_id i)). set (d := encode_bytes e (input_data i)).
  assert (decode_uint32 (p ++ f ++ d ++ more) 0%nat = Some (player_id i, length p)) as -> by by apply (reads_uint32 _ Hp []).
  cbn [mbind option_bind]. rewrite (reads_at decode_uint32 (frame_id i) f p (d ++ more)) by auto with chwell.
  cbn [mbind option_bind]. rewrite (app_assoc p f).
  rewrite (reads_at (decode_bytes e) (input_data i) d (p ++ f) more) by (by rewrite ?length_app; auto with chwell).
  by destruct i.
Qed.

(** The room with an input queued. *)
Definition submitted (i : FrameInput) (r : room) : room :=
  with_players (players_ r) (<[player_id i := default [] (player_inputs_ r !! player_id i) ++ [i]]> (player_inputs_ r)) r.

(** The player's input is queued in the room of the one connection it has. *)
Lemma submit_input_spec conn rid i r s :
  locked s = false -> room_locked r = false ->
  connections_ s !! conn = Some (mkInfo (player_id i) rid) -> rooms_ s !! rid = Some r ->
  (forall c k, connections_ s !! c = Some k -> info_player k = player_id i -> c = conn) ->
  submit_input (player_id i) i s = Done (tt, set_rooms (<[rid := submitted i r]> (rooms_ s)) s, []).
Proof.
  intros Hl Hrl Hc Hr Hu. unfold submit_input, with_lock. cbn [is_locked component_lockable]. rewrite Hl.
  assert (find_room (player_id i) (set_locked true s) = Some rid) as ->.
  { unfold find_room. cbn [connections_ rooms_ set_locked component_lockable].
    assert (forall c k, (c, k) ∈ iter (connections_ s) -> info_player k = player_id i -> k = mkInfo (player_id i) rid) as Hall.
    { intros c k Hk%elem_of_iter Hp. assert (c = conn) as -> by by eapply Hu. congruence. }
    assert ((conn, mkInfo (player_id i) rid) ∈ iter (connections_ s)) as Hin by by apply elem_of_iter.
    induction (iter (connections_ s)) as [|[c k] ks IH]; [by apply not_elem_of_nil in Hin|]. cbn.
    destruct (decide (info_player k = player_id i /\ is_Some (rooms_ s !! info_room k))) as [[Hp _]|Hn].
    - by rewrite (Hall c k ltac:(by left) Hp).
    - apply IH; [intros c' k' Hk'; apply (Hall c'); by right|].
      apply elem_of_cons in Hin as [[= <- <-]|Hin]; [|done]. destruct Hn. cbn. split; [done|]. by eexists. }
  unfold room_do. cbn [rooms_ set_locked component_lockable]. rewrite Hr.
  unfold Room.submit_input. erewrite with_lock_done; [|done|done]. destruct s, r; cbn in *. by subst.
Qed.

Lemma room_do_pure {A} rid (dflt : A) (f : room -> A) r s :
  rooms_ s !! rid = Some r -> room_locked r = false ->
  room_do rid dflt (with_lock (gets f)) s = Done (f (set_locked true r), s, []).
Proof.
  intros Hr Hl. unfold room_do. rewrite Hr. erewrite with_lock_done; [|done|done].
  replace (set_locked false (set_locked true r)) with r by (destruct r; cbn in *; by subst).
  rewrite insert_id by done. by destruct s.
Qed.

(** What a well-formed input packet does, for a player in one room: the input
    is queued, and when it completes the frame the handler never returns -- it
    broadcasts while holding the mutex that [broadcast_frame_state] locks. *)
Theorem frame_input_outcome conn (rid : str) i r s :
  locked s = false -> room_locked r = false -> input_wf i -> rid <> [] ->
  connections_ s !! conn = Some (mkInfo (player_id i) rid) -> rooms_ s !! rid = Some r ->
  (forall c k, connections_ s !! c = Some k -> info_player k = player_id i -> c = conn) ->
  handle_frame_input e conn (encode_frame_input i) s =
    if inputs_ready (frame_id i) (submitted i r) then Deadlock
    else Done (tt, set_rooms (<[rid := submitted i r]> (rooms_ s)) s, []).
Proof.
  intros Hl Hrl Hi Hrid Hc Hr Hu. unfold handle_frame_input.
  rewrite <- (app_nil_r (encode_frame_input i)), decode_encode_frame_input by done.
  rewrite (bind_quiet _ _ _ _ _ (submit_input_spec conn rid i r s Hl Hrl Hc Hr Hu)).
  set (s1 := set_rooms (<[rid := submitted i r]> (rooms_ s)) s).
  assert (get_room_id conn s1 = Done (rid, s1, [])) as Hg.
  { unfold get_room_id. erewrite with_lock_done; [|exact Hl|done]. cbn. rewrite Hc. destruct s; cbn in *. by subst. }
  rewrite (bind_quiet _ _ _ _ _ Hg), bool_decide_false by done.
  set (s2 := set_locked true s1).
  assert (rooms_ s2 !! rid = Some (submitted i r)) as Hr2 by (cbn; apply lookup_insert_eq).
  assert (has_room rid s2 = Done (true, s2, [])) as Hex by (unfold has_room, gets; by rewrite Hr2).
  pose proof (room_do_pure rid false (inputs_ready (frame_id i)) _ _ Hr2 Hrl) as Hready.
  change (inputs_ready (frame_id i) (set_locked true (submitted i r))) with (inputs_ready (frame_id i) (submitted i r)) in Hready.
  destruct (inputs_ready (frame_id i) (submitted i r)).
  - apply with_lock_deadlock. fold s2. rewrite (bind_quiet _ _ _ _ _ Hex), (bind_quiet _ _ _ _ _ Hready).
    erewrite bind_quiet by (unfold room_do; rewrite Hr2; unfold advance_frame; by erewrite with_lock_done).
    erewrite bind_quiet by (unfold room_do; cbn [rooms_ set_rooms]; by rewrite lookup_insert_eq).
    by apply bind_deadlock.
  - erewrite with_lock_done; [|exact Hl|].
    2: { fold s2. by rewrite (bind_quiet _ _ _ _ _ Hex), (bind_quiet _ _ _ _ _ Hready). }
    destruct s; cbn in *. by subst.
Qed.

(** No mutex is held between the calls. *)
Definition idle (s : component) : Prop :=
  locked s = false /\ forall rid r, rooms_ s !! rid = Some r -> room_locked r = false.

(** The room without a player. *)
Definition without (p : Z) (r : room) : room := with_players (delete p (players_ r)) (delete p (player_inputs_ r)) r.

Lemma leave_player_spec rid p r s : rooms_ s !! rid = Some r -> room_locked r = false ->
  room_do rid tt (leave_player p) s = Done (tt, set_rooms (<[rid := without p r]> (rooms_ s)) s, []).
Proof.
  intros Hr Hl. unfold room_do. rewrite Hr. unfold leave_player. erewrite with_lock_done; [|done|done].
  destruct r; cbn in *; by subst.
Qed.

Definition leave_connections (p : Z) (rid : str) (cs : gmap Z ConnectionInfo) : gmap Z ConnectionInfo :=
  filter (fun '(_, i) => ~ (info_player i = p /\ info_room i = rid)) cs.

(** The rooms after a player left one: an empty room is destroyed. *)
Definition leave_rooms (p : Z) (rid : str) (rs : gmap str room) : gmap str room :=
  match rs !! rid with
  | None => rs
  | Some r => if (size (player_inputs_ (without p r)) =? 0)%nat then delete rid rs else <[rid := without p r]> rs
  end.

Lemma leave_room_spec p (rid : str) s : idle s ->
  leave_room p rid s = Done (tt, mkComponent false (leave_rooms p rid (rooms_ s))
    (leave_connections p rid (connections_ s)) (rate_ s), []).
Proof.
  intros [Hl Hrooms]. unfold leave_room, leave_rooms. set (s0 := set_locked true s).
  destruct (rooms_ s !! rid) as [r|] eqn:Hr.
  - set (s1 := set_rooms (<[rid := without p r]> (rooms_ s0)) s0).
    set (s2 := set_connections (leave_connections p rid (connections_ s)) s1).
    assert (Hbody : with_lock (
      do room_do rid tt (leave_player p) then
      let* count := room_do rid 1%nat player_count in
      do modify (fun s => set_connections (leave_connections p rid (connections_ s)) s) then
      ret (count =? 0)%nat) s
      = Done ((size (player_inputs_ (without p r)) =? 0)%nat, set_locked false s2, [])).
    { apply with_lock_done; [done|]. rewrite (bind_quiet _ _ _ _ s1) by (by apply leave_player_spec; [|eapply Hrooms]).
      rewrite (bind_quiet _ _ _ (size (player_inputs_ (without p r))) s1); [done|].
      apply (room_do_pure rid 1%nat (fun r => size (player_inputs_ r)) (without p r) s1);
        [cbn; apply lookup_insert_eq|exact (Hrooms rid r Hr)]. }
    rewrite (bind_quiet _ _ _ _ _ Hbody). destruct (size (player_inputs_ (without p r)) =? 0)%nat.
    + unfold destroy_room. erewrite with_lock_done; [|done|].
      2: { erewrite bind_quiet; [done|]. unfold room_do. cbn [rooms_ s2 s1 set_connections set_rooms set_locked component_lockable].
           by rewrite lookup_insert_eq. }
      cbn. by rewrite !delete_insert_eq.
    + done.
  - assert (Hbody : with_lock (
      do room_do rid tt (leave_player p) then
      let* count := room_do rid 1%nat player_count in
      do modify (fun s => set_connections (leave_connections p rid (connections_ s)) s) then
      ret (count =? 0)%nat) s
      = Done (false, mkComponent false (rooms_ s) (leave_connections p rid (connections_ s)) (rate_ s), [])).
    { erewrite with_lock_done; [|done|].
      2: { rewrite (bind_quiet _ _ _ tt s0) by (unfold room_do; cbn; by rewrite Hr).
           rewrite (bind_quiet _ _ _ 1%nat s0) by (unfold room_do; cbn; by rewrite Hr). done. }
      done. }
    by rewrite (bind_quiet _ _ _ _ _ Hbody).
Qed.

(** A disconnect takes the connection's player out of its room, destroys the
    room when it was the last, and leaves no connection of that player in that
    room; a connection in no room changes nothing. *)
Theorem disconnect_leaves conn s : idle s ->
  on_disconnect conn s = Done (tt,
    match connections_ s !! conn with
    | Some i =>
        if decide (info_room i = []) then set_connections (delete conn (connections_ s)) s
        else mkComponent false (leave_rooms (info_player i) (info_room i) (rooms_ s))
               (leave_connections (info_player i) (info_room i) (connections_ s)) (rate_ s)
    | None => s
    end, []).
Proof.
  intros [Hl Hrooms]. unfold on_disconnect. destruct (connections_ s !! conn) as [i|] eqn:Hc.
  - set (s1 := set_connections (delete conn (connections_ s)) s).
    erewrite bind_quiet with (s1 := s1); [|erewrite with_lock_done; [|done|]; [|cbn; by rewrite Hc]; destruct s; cbn in *; by subst].
    cbn [fst snd]. case_decide as Hd; [by rewrite bool_decide_true|]. rewrite bool_decide_false by done.
    rewrite leave_room_spec by (split; [done|exact Hrooms]). do 3 f_equal. cbn.
    unfold leave_connections. f_equal. apply map_eq. intros c. apply option_eq. intros k.
    rewrite !map_lookup_filter_Some, lookup_delete_Some. split; [naive_solver|].
    intros [Hk Hn]. split_and!; [|done|done]. intros <-. rewrite Hc in Hk. injection Hk as ->. tauto.
  - erewrite bind_quiet with (s1 := s); [|erewrite with_lock_done; [|done|]; [|cbn; by rewrite Hc]; destruct s; cbn in *; by subst].
    done.
Qed.
End Order.

(** A room of two players; player 1 is on connection 11, player 2 on 12, and
    player 1's input of frame 0 is queued. *)
Definition demo_id : str := [Byte.x61].

Definition two_players : room :=
  mkRoom demo_id 30 0 true false {[1 := 11; 2 := 12]} {[1 := [mkInput 0 1 []]; 2 := []]} ∅.

Definition demo_component : component :=
  mkComponent false {[demo_id := two_players]} {[11 := mkInfo 1 demo_id; 12 := mkInfo 2 demo_id]} 30.

Lemma frame_input_outcome_witness :
  inputs_ready 0 (submitted (mkInput 0 2 []) two_players) = true
  /\ handle_frame_input (IO := key_order Z) Little 12 (encode_frame_input Little (mkInput 0 2 [])) demo_component = Deadlock.
Proof.
  split; [vm_compute; reflexivity|].
  refine (frame_input_outcome (IO := key_order Z) Little 12 demo_id (mkInput 0 2 []) two_players demo_component _ _ _ _ _ _ _);
    try reflexivity; [unfold input_wf; cbn; lia|discriminate|].
  intros c k. cbn. rewrite lookup_insert_Some, lookup_singleton_Some. intros [[<- <-]|[_ [<- <-]]]; cbn; [discriminate|done].
Defined.

Lemma disconnect_leaves_witness :
  on_disconnect 12 demo_component =
    Done (tt, mkComponent false (leave_rooms 2 demo_id (rooms_ demo_component))
                (leave_connections 2 demo_id (connections_ demo_component)) 30, []).
Proof.
  apply (disconnect_leaves 12 demo_component). split; [reflexivity|].
  intros rid r. unfold demo_component. cbn [rooms_]. rewrite lookup_singleton_Some. intros [_ <-]. reflexivity.
Defined.
End ComponentFacts.
