(* ===== verification/StateSync.v ===== *)
(** * StateSync: state rooms of src/sync/state_sync.cpp and state_sync.h

    Module [StateRoom] is [StateSyncRoom]: the entities' states and timestamps,
    their subscribers, and the two callbacks that send to a connection.  Module
    [StateComponent] is [StateSyncComponent]: the rooms, which room a connection
    is in, the packet handlers and the encodings they use. *)

From S2P Require Import Prelude.
From S2P Require Import Protocol.
From S2P Require Import Wire.
From S2P Require Import Effects.
Import Endian Message.

#[local] Open Scope effect_scope.

Definition C2S_STATE_UPDATE : Z := 513.       (* 0x0201 *)
Definition C2S_STATE_QUERY : Z := 514.        (* 0x0202 *)
Definition C2S_STATE_SUBSCRIBE : Z := 515.    (* 0x0203 *)
Definition C2S_STATE_UNSUBSCRIBE : Z := 516.  (* 0x0204 *)
Definition S2C_STATE_UPDATE : Z := 517.       (* 0x0205 *)
Definition S2C_STATE_DIFF : Z := 518.         (* 0x0206 *)
Definition S2C_STATE_SNAPSHOT : Z := 519.     (* 0x0207 *)

(** [StateValueType]: the byte on the wire is cast to it unchecked, so it is
    its number. *)
Definition STRING : Z := 4.
Definition BINARY : Z := 5.
Definition INT32 : Z := 0.
Definition INT64 : Z := 1.

Record StateValue := mkValue { type : Z; value : str }.

Definition StateValue_default : StateValue := mkValue INT32 [].

(** The constructors from an [int32_t] and a string; the bytes of a number are
    its object representation. *)
Definition StateValue_int32 (e : endianness) (v : Z) : StateValue := mkValue INT32 (mem32 e (u32 v)).
Definition StateValue_string (v : str) : StateValue := mkValue STRING v.
Definition StateValue_binary (v : list byte) : StateValue := mkValue BINARY v.

(** A [uint32_t]'s bits as an [int32_t]. *)
Definition signed32 (z : Z) : Z := if z <? 2 ^ 31 then z else z - 2 ^ 32.

Definition as_int32 (e : endianness) (v : StateValue) : Z :=
  if negb (type v =? INT32) || negb (length (value v) =? 4)%nat then 0 else signed32 (load32 e (value v) 0).

Definition as_string (v : StateValue) : str := if type v =? STRING then value v else [].

Definition as_binary (v : StateValue) : list byte := if type v =? BINARY then value v else [].

Record StateUpdate := mkUpdate { upd_entity : str; state_key : str; upd_value : StateValue; upd_timestamp : Z }.

Record StateDiff := mkDiff { diff_entity : str; changes : list (str * StateValue); diff_timestamp : Z }.

Record StateSnapshot := mkSnapshot { snap_entity : str; states : gmap str StateValue; snap_timestamp : Z }.

(** ** Encodings *)

Definition encode_string (e : endianness) (s : str) : list byte := encode_bytes e s.
Definition decode_string (e : endianness) : decoder_of str := decode_bytes e.

Definition encode_state_value (e : endianness) (v : StateValue) : list byte :=
  mem16 e (host_to_net16 e (u16 (Z.of_nat (length (value v))))) ++ value v.

(** One [key][type][len][value] of a diff or a snapshot. *)
Definition encode_change (e : endianness) (c : str * StateValue) : list byte :=
  encode_string e c.1 ++ [byte_of (type c.2)] ++ encode_state_value e c.2.

Definition encode_diff (e : endianness) (d : StateDiff) : list byte :=
  encode_string e (diff_entity d)
  ++ mem16 e (host_to_net16 e (u16 (Z.of_nat (length (changes d)))))
  ++ mjoin (encode_change e <$> changes d)
  ++ encode_uint64 (diff_timestamp d).

Definition encode_snapshot {IO : IterOrder str} (e : endianness) (s : StateSnapshot) : list byte :=
  encode_string e (snap_entity s)
  ++ mem16 e (host_to_net16 e (u16 (Z.of_nat (size (states s)))))
  ++ mjoin (encode_change e <$> iter (states s))
  ++ encode_uint64 (snap_timestamp s).

(** [[entity_id][state_key][value_type(1)][value][timestamp(8)]], as the query
    handler writes it and the update handler reads it. *)
Definition encode_update (e : endianness) (u : StateUpdate) : list byte :=
  encode_string e (upd_entity u) ++ encode_string e (state_key u) ++ encode_uint8 (type (upd_value u))
  ++ encode_bytes e (value (upd_value u)) ++ encode_uint64 (upd_timestamp u).

Definition decode_update (e : endianness) (data : list byte) : option StateUpdate :=
  '(entity_id, off) ← decode_string e data 0%nat;
  '(key, off) ← decode_string e data off;
  '(vt, off) ← decode_uint8 data off;
  '(v, off) ← decode_bytes e data off;
  '(timestamp, _) ← decode_uint64 data off;
  Some (mkUpdate entity_id key (mkValue vt v) timestamp).

Module StateRoom.

(** [has_diff] and [has_snapshot]: whether the callbacks are set; set, they
    are the component's [send_state_diff] and [send_state_snapshot]. *)
Record room := mkRoom {
  room_id_ : str;
  room_locked : bool;
  states_ : gmap str (gmap str StateValue);
  timestamps_ : gmap str Z;
  subscribers_ : gmap str (gset Z);
  connection_map_ : gset Z;
  has_diff : bool;
  has_snapshot : bool
}.

Definition StateSyncRoom (rid : str) : room := mkRoom rid false ∅ ∅ ∅ ∅ false false.

#[global] Instance state_room_lockable : Lockable room := {|
  is_locked := room_locked;
  set_locked := fun b r => mkRoom (room_id_ r) b (states_ r) (timestamps_ r) (subscribers_ r) (connection_map_ r)
                             (has_diff r) (has_snapshot r)
|}.

Definition set_diff_callback (r : room) : room :=
  mkRoom (room_id_ r) (room_locked r) (states_ r) (timestamps_ r) (subscribers_ r) (connection_map_ r) true (has_snapshot r).
Definition set_snapshot_callback (r : room) : room :=
  mkRoom (room_id_ r) (room_locked r) (states_ r) (timestamps_ r) (subscribers_ r) (connection_map_ r) (has_diff r) true.

Definition write_state (u : StateUpdate) (r : room) : room :=
  mkRoom (room_id_ r) (room_locked r)
    (<[upd_entity u := <[state_key u := upd_value u]> (default ∅ (states_ r !! upd_entity u))]> (states_ r))
    (<[upd_entity u := upd_timestamp u]> (timestamps_ r)) (subscribers_ r) (connection_map_ r) (has_diff r) (has_snapshot r).

Definition set_subscribers (m : gmap str (gset Z)) (c : gset Z) (r : room) : room :=
  mkRoom (room_id_ r) (room_locked r) (states_ r) (timestamps_ r) m c (has_diff r) (has_snapshot r).

Section Program.
Context {IOZ : IterOrder Z} {IOS : IterOrder str} (e : endianness).

Definition send_state_diff (conn : Z) (d : StateDiff) : M room unit :=
  send conn (mkMessage S2C_STATE_DIFF (encode_diff e d)).

Definition send_state_snapshot (conn : Z) (s : StateSnapshot) : M room unit :=
  send conn (mkMessage S2C_STATE_SNAPSHOT (encode_snapshot e s)).

Definition update_state (u : StateUpdate) : M room unit :=
  with_lock (
    do modify (write_state u) then
    let d := mkDiff (upd_entity u) [(state_key u, upd_value u)] (upd_timestamp u) in
    let* r := gets (fun r => r) in
    if has_diff r then
      match subscribers_ r !! upd_entity u with
      | None => ret tt
      | Some subs =>
          for_each (fun conn => send_state_diff conn d)
            (filter (fun c => c ∈ connection_map_ r) (iter_set subs))
      end
    else ret tt).

Definition query_state (entity_id key : str) : M room (option StateValue) :=
  with_lock (gets (fun r => m ← states_ r !! entity_id; m !! key)).

Definition query_all_states (entity_id : str) : M room (option (gmap str StateValue)) :=
  with_lock (gets (fun r => states_ r !! entity_id)).

(** The timestamp is uninitialised when the entity has none: [junk]. *)
Definition create_snapshot (junk : Z) (entity_id : str) : M room StateSnapshot :=
  with_lock (gets (fun r =>
    mkSnapshot entity_id (default ∅ (states_ r !! entity_id)) (default junk (timestamps_ r !! entity_id)))).

Definition subscribe (junk : Z) (entity_id : str) (conn : Z) : M room unit :=
  with_lock (
    do modify (fun r => set_subscribers
      (<[entity_id := {[conn]} ∪ default ∅ (subscribers_ r !! entity_id)]> (subscribers_ r))
      ({[conn]} ∪ connection_map_ r) r) then
    let* cb := gets has_snapshot in
    if cb : bool then
      let* s := create_snapshot junk entity_id in
      send_state_snapshot conn s
    else ret tt).

Definition unsubscribe (entity_id : str) (conn : Z) : M room unit :=
  with_lock (modify (fun r => set_subscribers
    (alter (fun subs => subs ∖ {[conn]}) entity_id (subscribers_ r)) (connection_map_ r) r)).

Definition get_entity_states (entity_id : str) : M room (option (gmap str StateValue)) :=
  with_lock (gets (fun r => states_ r !! entity_id)).

Definition get_entity_timestamp (entity_id : str) : M room (option Z) :=
  with_lock (gets (fun r => timestamps_ r !! entity_id)).

Definition get_entity_subscribers (entity_id : str) : M room (gset Z) :=
  with_lock (gets (fun r => default ∅ (subscribers_ r !! entity_id))).
End Program.
End StateRoom.

Module StateComponent.
Import StateRoom.

Record component := mkComponent {
  locked : bool;
  rooms_ : gmap str room;
  connections_ : gmap Z str
}.

Definition StateSyncComponent : component := mkComponent false ∅ ∅.

#[global] Instance state_component_lockable : Lockable component := {|
  is_locked := locked;
  set_locked := fun b s => mkComponent b (rooms_ s) (connections_ s)
|}.

Definition set_rooms (rs : gmap str room) (s : component) : component := mkComponent (locked s) rs (connections_ s).
Definition set_connections (cs : gmap Z str) (s : component) : component := mkComponent (locked s) (rooms_ s) cs.

Definition room_do {A} (rid : str) (dflt : A) (m : M room A) : M component A := fun s =>
  match rooms_ s !! rid with
  | None => Done (dflt, s, [])
  | Some r =>
      match m r with
      | Done (a, r', out) => Done (a, set_rooms (<[rid := r']> (rooms_ s)) s, out)
      | Deadlock => Deadlock
      end
  end.

Definition get_room_id (conn : Z) : M component str :=
  with_lock (gets (fun s => default [] (connections_ s !! conn))).

Definition create_room (rid : str) : M component unit :=
  with_lock (modify (fun s =>
    if decide (is_Some (rooms_ s !! rid)) then s
    else set_rooms (<[rid := set_snapshot_callback (set_diff_callback (StateSyncRoom rid))]> (rooms_ s)) s)).

Definition destroy_room (rid : str) : M component unit :=
  with_lock (modify (fun s => set_rooms (delete rid (rooms_ s)) s)).

Section Program.
Context {IOZ : IterOrder Z} {IOS : IterOrder str} (e : endianness) (junk : Z).

Definition update_state (rid : str) (u : StateUpdate) : M component unit :=
  with_lock (room_do rid tt (StateRoom.update_state e u)).

Definition query_state (rid entity_id key : str) : M component (option StateValue) :=
  with_lock (room_do rid None (StateRoom.query_state entity_id key)).

Definition query_all_states (rid entity_id : str) : M component (option (gmap str StateValue)) :=
  with_lock (room_do rid None (StateRoom.query_all_states entity_id)).

Definition create_snapshot (rid entity_id : str) : M component StateSnapshot :=
  with_lock (room_do rid (mkSnapshot [] ∅ junk) (StateRoom.create_snapshot junk entity_id)).

Definition handle_state_update (conn : Z) (data : list byte) : M component unit :=
  match decode_update e data with
  | None => ret tt
  | Some u =>
      let* rid := get_room_id conn in
      if bool_decide (rid = []) then ret tt else update_state rid u
  end.

Definition handle_state_query (conn : Z) (data : list byte) : M component unit :=
  match ('(entity_id, off) ← decode_string e data 0%nat; '(key, _) ← decode_string e data off; Some (entity_id, key)) with
  | None => ret tt
  | Some (entity_id, key) =>
      let* rid := get_room_id conn in
      if bool_decide (rid = []) then ret tt
      else
        let* found := query_state rid entity_id key in
        match found with
        | Some v => send conn (mkMessage S2C_STATE_UPDATE (encode_update e (mkUpdate entity_id key v 0)))
        | None => ret tt
        end
  end.

Definition handle_state_subscribe (conn : Z) (data : list byte) : M component unit :=
  match decode_string e data 0%nat with
  | None => ret tt
  | Some (entity_id, _) =>
      let* rid := get_room_id conn in
      if bool_decide (rid = []) then ret tt
      else with_lock (room_do rid tt (subscribe e junk entity_id conn))
  end.

Definition handle_state_unsubscribe (conn : Z) (data : list byte) : M component unit :=
  match decode_string e data 0%nat with
  | None => ret tt
  | Some (entity_id, _) =>
      let* rid := get_room_id conn in
      if bool_decide (rid = []) then ret tt
      else with_lock (room_do rid tt (unsubscribe entity_id conn))
  end.

Definition on_disconnect (conn : Z) : M component unit :=
  with_lock (modify (fun s => set_connections (delete conn (connections_ s)) s)).

(** The handlers [on_register] gives the router, by command. *)
Definition on_register (cmd : Z) : option (Z -> list byte -> M component unit) :=
  if cmd =? C2S_STATE_UPDATE then Some handle_state_update
  else if cmd =? C2S_STATE_QUERY then Some handle_state_query
  else if cmd =? C2S_STATE_SUBSCRIBE then Some handle_state_subscribe
  else if cmd =? C2S_STATE_UNSUBSCRIBE then Some handle_state_unsubscribe
  else None.
End Program.
End StateComponent.

(** ** Facts *)

Module StateFacts.
Import StateRoom StateComponent.

Definition update_wf (u : StateUpdate) : Prop :=
  Z.of_nat (length (upd_entity u)) < 65536 /\ Z.of_nat (length (state_key u)) < 65536
  /\ 0 <= type (upd_value u) < 256 /\ Z.of_nat (length (value (upd_value u))) < 65536
  /\ 0 <= upd_timestamp u < 2 ^ 64.

Lemma decode_encode_update e u more : update_wf u -> decode_update e (encode_update e u ++ more) = Some u.
Proof.
  intros (He & Hk & Ht & Hv & Hts). unfold decode_update, encode_update, decode_string, encode_string.
  set (a := encode_bytes e (upd_entity u)). set (b := encode_bytes e (state_key u)).
  set (c := encode_uint8 _). set (d := encode_bytes e _). set (t := encode_uint64 _). rewrite <- !app_assoc.
  assert (decode_bytes e (a ++ b ++ c ++ d ++ t ++ more) 0%nat = Some (upd_entity u, length a)) as ->
    by by apply (reads_bytes e _ He []).
  cbn [mbind option_bind]. rewrite (reads_at (decode_bytes e) (state_key u) b a (c ++ d ++ t ++ more)) by auto with chwell.
  cbn [mbind option_bind]. rewrite (app_assoc a b).
  rewrite (reads_at decode_uint8 (type (upd_value u)) c (a ++ b) (d ++ t ++ more)) by (rewrite ?length_app; auto with chwell).
  cbn [mbind option_bind]. rewrite (app_assoc (a ++ b) c).
  rewrite (reads_at (decode_bytes e) (value (upd_value u)) d ((a ++ b) ++ c) (t ++ more)) by (rewrite ?length_app; auto with chwell).
  cbn [mbind option_bind]. rewrite (app_assoc ((a ++ b) ++ c) d).
  rewrite (reads_at decode_uint64 (upd_timestamp u) t (((a ++ b) ++ c) ++ d) more) by (rewrite ?length_app; auto with chwell).
  destruct u as [? ? [? ?] ?]. done.
Qed.

(** An update with fields of at most 65535 bytes survives its encoding, whatever
    follows it in the packet. *)
Theorem update_roundtrip e u more : update_wf u -> decode_update e (encode_update e u ++ more) = Some u.
Proof. apply decode_encode_update. Qed.

Section Order.
Context {IOZ : IterOrder Z} {IOS : IterOrder str} (e : endianness) (junk : Z).

(** The subscribers the room has a connection for. *)
Definition listeners (entity_id : str) (r : room) : gset Z :=
  default ∅ (subscribers_ r !! entity_id) ∩ connection_map_ r.

Lemma filter_listeners entity_id subs r : subscribers_ r !! entity_id = Some subs ->
  filter (fun c => c ∈ connection_map_ r) (iter_set subs) ≡ₚ elements (listeners entity_id r).
Proof.
  intros Hs. unfold listeners. rewrite Hs. cbn [default]. rewrite iter_set_perm. apply NoDup_Permutation.
  - apply NoDup_filter, NoDup_elements.
  - apply NoDup_elements.
  - intros c. rewrite list_elem_of_filter, !elem_of_elements. unfold default, id. set_solver.
Qed.

(** An update writes one key of one entity and its time, and sends the change
    to each of the entity's subscribers exactly once, and to nobody else. *)
Theorem update_state_spec u r : room_locked r = false -> has_diff r = true ->
  exists out, StateRoom.update_state e u r = Done (tt, write_state u r, out)
    /\ out ≡ₚ (fun c => mkSent c (mkMessage S2C_STATE_DIFF
         (encode_diff e (mkDiff (upd_entity u) [(state_key u, upd_value u)] (upd_timestamp u)))))
         <$> elements (listeners (upd_entity u) r)
    /\ forall entity_id key, StateRoom.query_state entity_id key (write_state u r)
       = Done (if decide (entity_id = upd_entity u /\ key = state_key u) then Some (upd_value u)
               else states_ r !! entity_id ≫= (fun m => m !! key), write_state u r, []).
Proof.
  intros Hl Hd. unfold StateRoom.update_state.
  set (d := mkDiff (upd_entity u) [(state_key u, upd_value u)] (upd_timestamp u)).
  assert (Hq : forall entity_id key, StateRoom.query_state entity_id key (write_state u r)
       = Done (if decide (entity_id = upd_entity u /\ key = state_key u) then Some (upd_value u)
               else states_ r !! entity_id ≫= (fun m => m !! key), write_state u r, [])).
  { intros entity_id key. unfold StateRoom.query_state. erewrite with_lock_done; [|done|done]. cbn.
    do 3 f_equal; [|destruct r; cbn in *; by subst]. rewrite lookup_insert.
    destruct (decide (upd_entity u = entity_id)) as [<-|Hne].
    - cbn. rewrite lookup_insert. case_decide as Hk; [subst|].
      + by rewrite decide_True.
      + rewrite decide_False by (intros [_ ?]; congruence). by destruct (states_ r !! upd_entity u).
    - rewrite decide_False by (intros [? _]; congruence). done. }
  assert (set_locked false (write_state u (set_locked true r)) = write_state u r) as Hback
    by (destruct r; cbn in *; by subst).
  assert (has_diff (write_state u (set_locked true r)) = true) as Hd' by done.
  assert (subscribers_ (write_state u (set_locked true r)) !! upd_entity u = subscribers_ r !! upd_entity u) as Hs' by done.
  destruct (subscribers_ r !! upd_entity u) as [subs|] eqn:Hs.
  - eexists. split; [|split; [|exact Hq]].
    + erewrite with_lock_done; [|done|].
      2: { erewrite bind_quiet by done. cbv zeta. erewrite bind_quiet by done. rewrite Hd', Hs'. apply for_each_sends. }
      by rewrite <- Hback.
    + cbn. by rewrite (filter_listeners (upd_entity u) subs).
  - exists []. split; [|split; [|exact Hq]].
    + erewrite with_lock_done; [|done|].
      2: { erewrite bind_quiet by done. cbv zeta. erewrite bind_quiet by done. by rewrite Hd', Hs'. }
      by rewrite <- Hback.
    + unfold listeners. rewrite Hs. cbn. replace (∅ ∩ connection_map_ r) with (∅ : gset Z) by set_solver.
      by rewrite elements_empty.
Qed.

(** Subscribing to anything in a room the component made never returns:
    [subscribe] calls [create_snapshot] with the room's mutex held. *)
Theorem subscribe_deadlocks entity_id conn r : has_snapshot r = true -> subscribe e junk entity_id conn r = Deadlock.
Proof.
  intros Hs. apply with_lock_deadlock. erewrite bind_quiet by done.
  erewrite bind_quiet; [|unfold gets; cbn; by rewrite Hs]. by apply bind_deadlock.
Qed.

(** *** The component's packets *)

Inductive op :=
| CreateRoom (rid : str)
| DestroyRoom (rid : str)
| UpdateState (rid : str) (u : StateUpdate)
| QueryState (rid entity_id key : str)
| QueryAllStates (rid entity_id : str)
| CreateSnapshot (rid entity_id : str)
| Packet (cmd conn : Z) (data : list byte)
| Disconnect (conn : Z).

Definition run_op (o : op) : M component unit :=
  match o with
  | CreateRoom rid => create_room rid
  | DestroyRoom rid => destroy_room rid
  | UpdateState rid u => update_state e rid u
  | QueryState rid entity_id key => do query_state rid entity_id key then ret tt
  | QueryAllStates rid entity_id => do query_all_states rid entity_id then ret tt
  | CreateSnapshot rid entity_id => do create_snapshot junk rid entity_id then ret tt
  | Packet cmd conn data => match on_register e junk cmd with Some h => h conn data | None => ret tt end
  | Disconnect conn => on_disconnect conn
  end.

Fixpoint run_ops (os : list op) : M component unit :=
  match os with [] => ret tt | o :: os' => do run_op o then run_ops os' end.

(** Nothing is locked, and no connection is in a room. *)
Definition quiescent (s : component) : Prop :=
  locked s = false /\ connections_ s = ∅ /\ forall rid r, rooms_ s !! rid = Some r -> room_locked r = false /\ has_diff r = true.

Lemma packet_inert cmd conn data s h : quiescent s -> on_register e junk cmd = Some h -> h conn data s = Done (tt, s, []).
Proof.
  intros (Hl & Hc & _) Hh.
  assert (get_room_id conn s = Done ([], s, [])) as Hg.
  { unfold get_room_id. erewrite with_lock_done; [|done|done]. cbn. rewrite Hc. destruct s; cbn in *; by subst. }
  unfold on_register in Hh. repeat case_match; simplify_eq;
    unfold handle_state_update, handle_state_query, handle_state_subscribe, handle_state_unsubscribe;
    repeat case_match; try done; by rewrite (bind_quiet _ _ _ _ _ Hg).
Qed.

(** A room's method that returns keeps the component quiescent. *)
Lemma room_do_idle {A} rid (dflt : A) (m : M room A) s :
  quiescent s ->
  (forall r, room_locked r = false -> has_diff r = true -> exists a r' out,
     m r = Done (a, r', out) /\ room_locked r' = false /\ has_diff r' = true) ->
  exists a s' out, with_lock (room_do rid dflt m) s = Done (a, s', out) /\ quiescent s'.
Proof.
  intros (Hl & Hc & Hr) Hm. unfold room_do.
  destruct (rooms_ s !! rid) as [r|] eqn:Hrid.
  - destruct (Hr rid r Hrid) as [Hrl Hrd]. destruct (Hm r Hrl Hrd) as (a & r' & out & Hdo & Hl' & Hd').
    eexists a, _, out. split; [apply with_lock_done; [done|cbn; by rewrite Hrid, Hdo]|].
    split_and!; [done|done|]. intros rid' r1. cbn. rewrite lookup_insert_Some.
    intros [[<- <-]|[_ H1]]; [done|by apply Hr in H1].
  - eexists dflt, _, []. split; [apply with_lock_done; [done|cbn; by rewrite Hrid]|]. done.
Qed.

Lemma bind_idle {A} (m : M component A) s : (exists a s' out, m s = Done (a, s', out) /\ quiescent s') ->
  exists s' out, (do m then ret tt) s = Done (tt, s', out) /\ quiescent s'.
Proof. intros (a & s' & out & Hm & Hi). eexists s', _. split; [|done]. unfold bind. by rewrite Hm. Qed.

(** A room's getter. *)
Lemma getter_returns {A} (f : room -> A) r : room_locked r = false -> has_diff r = true ->
  exists a r' out, with_lock (gets f) r = Done (a, r', out) /\ room_locked r' = false /\ has_diff r' = true.
Proof. intros Hl Hd. eexists _, _, _. split; [by apply with_lock_done|]. done. Qed.

Lemma run_op_idle o s : quiescent s -> exists s' out, run_op o s = Done (tt, s', out) /\ quiescent s'.
Proof.
  intros Hi. assert (Hi' := Hi). destruct Hi' as (Hl & Hc & Hr). destruct o as [rid|rid|rid u|rid a b|rid a|rid a|c conn data|conn]; cbn [run_op].
  - eexists _, _. split; [by apply with_lock_done|]. split_and!; [done|cbn; by case_decide|].
    intros rid' r. cbn. case_decide; [by apply Hr|]. cbn. rewrite lookup_insert_Some.
    intros [[<- <-]|[_ H1]]; [done|by apply Hr in H1].
  - eexists _, _. split; [by apply with_lock_done|]. split_and!; [done|done|].
    intros rid' r. cbn. rewrite lookup_delete_Some. intros [_ H1]. by apply Hr in H1.
  - destruct (room_do_idle rid tt (StateRoom.update_state e u) s Hi) as ([] & s' & out & H & ?); [|eauto].
    intros r Hrl Hrd. destruct (update_state_spec u r Hrl Hrd) as (out & Hu & _). eexists _, _, _. split; [exact Hu|done].
  - apply bind_idle, room_do_idle; [done|]. intros r. apply getter_returns.
  - apply bind_idle, room_do_idle; [done|]. intros r. apply getter_returns.
  - apply bind_idle, room_do_idle; [done|]. intros r. apply getter_returns.
  - destruct (on_register e junk c) as [h|] eqn:Hh; [|by eexists s, []].
    eexists s, []. split; [by eapply packet_inert|done].
  - eexists _, _. split; [by apply with_lock_done|]. split_and!; [done|cbn; by rewrite Hc, delete_empty|done].
Qed.

(** [connections_], which maps a connection to its room, is never written:
    whatever calls and packets a server has seen, every packet handler leaves
    the component unchanged and answers nothing. *)
Theorem packet_handlers_inert os :
  exists s out, run_ops os StateSyncComponent = Done (tt, s, out) /\ connections_ s = ∅
    /\ forall cmd h conn data, on_register e junk cmd = Some h -> h conn data s = Done (tt, s, []).
Proof.
  assert (forall s, quiescent s -> exists s' out, run_ops os s = Done (tt, s', out) /\ quiescent s') as H.
  { induction os as [|o os IH]; intros s Hi; [by exists s, []|]. cbn [run_ops].
    destruct (run_op_idle o s Hi) as (s1 & out1 & H1 & Hi1). destruct (IH s1 Hi1) as (s2 & out2 & H2 & Hi2).
    exists s2, (out1 ++ out2). split; [|done]. unfold bind. by rewrite H1, H2. }
  destruct (H StateSyncComponent) as (s & out & Hr & Hi); [done|].
  exists s, out. split_and!; [done|by apply Hi|]. intros cmd h conn data. by apply packet_inert.
Qed.
End Order.

Definition demo_key : str := [Byte.x68; Byte.x70].
Definition demo_entity : str := [Byte.x65].
Definition demo_update : StateUpdate := mkUpdate demo_entity demo_key (StateValue_int32 Little 7) 5.
Definition demo_room : room :=
  set_snapshot_callback (set_diff_callback
    (mkRoom [] false ∅ ∅ {[demo_entity := {[11; 12]}]} {[11; 12]} false false)).

Lemma update_roundtrip_witness :
  decode_update Little (encode_update Little demo_update ++ [Byte.x00]) = Some demo_update /\ as_int32 Little (upd_value demo_update) = 7.
Proof.
  split; [|vm_compute; reflexivity].
  apply (update_roundtrip Little demo_update [Byte.x00]). unfold update_wf. vm_compute. intuition discriminate.
Defined.

Lemma update_state_spec_witness :
  exists out, StateRoom.update_state (IOZ := key_order Z) Big demo_update demo_room = Done (tt, write_state demo_update demo_room, out)
    /\ out ≡ₚ (fun c => mkSent c (mkMessage S2C_STATE_DIFF (encode_diff Big (mkDiff demo_entity [(demo_key, upd_value demo_update)] 5))))
         <$> elements (listeners demo_entity demo_room)
    /\ forall entity_id key, StateRoom.query_state entity_id key (write_state demo_update demo_room)
       = Done (if decide (entity_id = demo_entity /\ key = demo_key) then Some (upd_value demo_update)
               else states_ demo_room !! entity_id ≫= (fun m => m !! key), write_state demo_update demo_room, []).
Proof. by apply (update_state_spec (IOZ := key_order Z) Big demo_update demo_room). Defined.

Lemma subscribe_deadlocks_witness :
  subscribe (IOS := key_order str) Little 0 demo_entity 11 demo_room = Deadlock.
Proof. by apply (subscribe_deadlocks (IOS := key_order str) Little 0 demo_entity 11 demo_room). Defined.
End StateFacts.
