(* ===== verification/SlgMap.v ===== *)
(** * SlgMap: the strategy map of src/slg/map.cpp and map.h

    [SlgMapManager] keeps the cells in one vector, row by row, the cities and
    troops by id, and the grid manager of Aoi.v.  An operation returns
    [Undefined] where the code indexes [cells_] (or the grid manager its cells)
    out of range, or converts a double out of [int]'s range.  [rand] is the
    sequence of the values of [rand()]; [draws] counts the calls.  The callbacks'
    effect is the sequence of their arguments; [int] arithmetic is on [Z]. *)

From S2P Require Import Prelude.
From S2P Require Import Numeric.
From S2P Require Import Effects.
From S2P Require Aoi.

Inductive TerrainType := PLAIN | FOREST | MOUNTAIN | WATER | CITY | RESOURCE | CAMP.
#[global] Instance terrain_eq_dec : EqDecision TerrainType.
Proof. solve_decision. Defined.

Record GridCell := mkCell {
  x : Z; y : Z;
  terrain : TerrainType;
  owner_id : Z; alliance_id : Z;
  building_type : Z; building_level : Z; building_complete_time : Z;
  resource_type : Z; resource_amount : Z; resource_gather_rate : Z;
  troops : list Z
}.

Definition GridCell_default : GridCell := mkCell 0 0 PLAIN 0 0 0 0 0 0 0 0 [].

Definition has_building (c : GridCell) : bool := 0 <? building_type c.
Definition has_resource (c : GridCell) : bool := 0 <? resource_type c.
Definition has_owner (c : GridCell) : bool := 0 <? owner_id c.
Definition has_troops (c : GridCell) : bool := negb (bool_decide (troops c = [])).

Definition with_pos (px py : Z) (t : TerrainType) (c : GridCell) : GridCell :=
  mkCell px py t (owner_id c) (alliance_id c) (building_type c) (building_level c) (building_complete_time c)
    (resource_type c) (resource_amount c) (resource_gather_rate c) (troops c).
Definition with_terrain (t : TerrainType) (c : GridCell) : GridCell := with_pos (x c) (y c) t c.
Definition with_owner (o a : Z) (c : GridCell) : GridCell :=
  mkCell (x c) (y c) (terrain c) o a (building_type c) (building_level c) (building_complete_time c)
    (resource_type c) (resource_amount c) (resource_gather_rate c) (troops c).
Definition with_building (t l : Z) (c : GridCell) : GridCell :=
  mkCell (x c) (y c) (terrain c) (owner_id c) (alliance_id c) t l (building_complete_time c)
    (resource_type c) (resource_amount c) (resource_gather_rate c) (troops c).
Definition with_resource (t a r : Z) (c : GridCell) : GridCell :=
  mkCell (x c) (y c) RESOURCE (owner_id c) (alliance_id c) (building_type c) (building_level c)
    (building_complete_time c) t a r (troops c).

(** The fields of [City] the map writes; the production figures stay at their
    defaults. *)
Record City := mkCity {
  city_id : Z; city_owner : Z; city_alliance : Z;
  city_x : Z; city_y : Z;
  city_name : string;
  level : Z; durability : Z; max_durability : Z;
  food_production : Z; wood_production : Z; stone_production : Z; iron_production : Z;
  territory_range : Z
}.

Definition new_city (i owner px py : Z) (n : string) (l : Z) : City :=
  mkCity i owner 0 px py n l 100 100 100 50 30 20 3.

Inductive TroopState := IDLE | MARCHING | GATHERING | BATTLE | RETURNING.
#[global] Instance troop_state_eq_dec : EqDecision TroopState.
Proof. solve_decision. Defined.

Record Troop := mkTroop {
  troop_id : Z; troop_owner : Z;
  from_x : Z; from_y : Z; to_x : Z; to_y : Z; current_x : Z; current_y : Z;
  state : TroopState;
  start_time : Z; arrive_time : Z;
  infantry : Z; cavalry : Z; archer : Z; siege : Z;
  carry_food : Z; carry_wood : Z; carry_stone : Z; carry_iron : Z
}.

Definition total_soldiers (t : Troop) : Z := infantry t + cavalry t + archer t + siege t.
Definition total_carry (t : Troop) : Z := carry_food t + carry_wood t + carry_stone t + carry_iron t.

(** [None]: the division by [total_soldiers() + 1 = 0]. *)
Definition march_speed (t : Troop) : outcome Z :=
  if 0 <? cavalry t then
    if total_soldiers t + 1 =? 0 then Undefined
    else Ok (100 + Z.quot (20 * cavalry t) (total_soldiers t + 1))
  else Ok 100.

(** The updates of a troop's march. *)
Definition with_target (tx ty : Z) (s : TroopState) (t : Troop) : Troop :=
  mkTroop (troop_id t) (troop_owner t) (from_x t) (from_y t) tx ty (current_x t) (current_y t) s
    (start_time t) (arrive_time t) (infantry t) (cavalry t) (archer t) (siege t)
    (carry_food t) (carry_wood t) (carry_stone t) (carry_iron t).
Definition with_times (st ar : Z) (t : Troop) : Troop :=
  mkTroop (troop_id t) (troop_owner t) (from_x t) (from_y t) (to_x t) (to_y t) (current_x t) (current_y t) (state t)
    st ar (infantry t) (cavalry t) (archer t) (siege t)
    (carry_food t) (carry_wood t) (carry_stone t) (carry_iron t).
Definition with_current (cx cy : Z) (t : Troop) : Troop :=
  mkTroop (troop_id t) (troop_owner t) (from_x t) (from_y t) (to_x t) (to_y t) cx cy (state t)
    (start_time t) (arrive_time t) (infantry t) (cavalry t) (archer t) (siege t)
    (carry_food t) (carry_wood t) (carry_stone t) (carry_iron t).
Definition with_home (fx fy : Z) (s : TroopState) (t : Troop) : Troop :=
  mkTroop (troop_id t) (troop_owner t) fx fy (to_x t) (to_y t) (current_x t) (current_y t) s
    (start_time t) (arrive_time t) (infantry t) (cavalry t) (archer t) (siege t)
    (carry_food t) (carry_wood t) (carry_stone t) (carry_iron t).

Record SlgMapConfig := mkConfig { width : Z; height : Z; cell_size : Z; view_range : Z }.

Record map_manager := mkMap {
  config_ : SlgMapConfig;
  cells_ : list GridCell;
  cities_ : gmap Z City;
  troops_ : gmap Z Troop;
  next_city_id_ : Z;
  next_troop_id_ : Z;
  aoi_ : Aoi.GridAoi.aoi;
  draws : nat
}.

Definition SlgMapManager (c : SlgMapConfig) : outcome map_manager :=
  a ←o need (Aoi.GridAoi.aoi_init (Aoi.GridAoi.mkConfig 1000 1000 50 1)); Ok (mkMap c [] ∅ ∅ 1 1 a 0).

Definition set_cells (cs : list GridCell) (m : map_manager) : map_manager :=
  mkMap (config_ m) cs (cities_ m) (troops_ m) (next_city_id_ m) (next_troop_id_ m) (aoi_ m) (draws m).
Definition set_cities (cs : gmap Z City) (n : Z) (m : map_manager) : map_manager :=
  mkMap (config_ m) (cells_ m) cs (troops_ m) n (next_troop_id_ m) (aoi_ m) (draws m).
Definition set_troops (ts : gmap Z Troop) (n : Z) (a : Aoi.GridAoi.aoi) (m : map_manager) : map_manager :=
  mkMap (config_ m) (cells_ m) (cities_ m) ts (next_city_id_ m) n a (draws m).

Definition cell_index (m : map_manager) (px py : Z) : Z := py * width (config_ m) + px.

Definition is_valid_pos (m : map_manager) (px py : Z) : bool :=
  (0 <=? px) && (px <? width (config_ m)) && (0 <=? py) && (py <? height (config_ m)).

(** [cells_[i]]. *)
Definition cell_at (m : map_manager) (i : Z) : outcome GridCell :=
  if i <? 0 then Undefined else need (cells_ m !! Z.to_nat i).
Definition store_cell (i : Z) (c : GridCell) (m : map_manager) : map_manager :=
  set_cells (<[Z.to_nat i := c]> (cells_ m)) m.

(** [init]: [resize] keeps the cells there are and throws on a negative size; the
    loops write every position (none when both sides are negative). *)
Definition init (m : map_manager) : outcome map_manager :=
  let w := width (config_ m) in
  if w * height (config_ m) <? 0 then Undefined
  else
    let old := resize (Z.to_nat (w * height (config_ m))) GridCell_default (cells_ m) in
    if w <=? 0 then Ok (set_cells old m)
    else Ok (set_cells (imap (fun i c => with_pos (Z.of_nat i mod w) (Z.of_nat i / w) PLAIN c) old) m).

(** ** Cells *)

Definition get_cell (px py : Z) (m : map_manager) : outcome (option GridCell) :=
  if is_valid_pos m px py then c ←o cell_at m (cell_index m px py); Ok (Some c) else Ok None.

(** A cell operation: the flag, the new map and what the callback was given. *)
Definition cell_result : Type := outcome (bool * map_manager * list GridCell).

Definition change_cell (px py : Z) (f : GridCell -> option GridCell) (m : map_manager) : cell_result :=
  if is_valid_pos m px py then
    c ←o cell_at m (cell_index m px py);
    match f c with
    | Some c' => Ok (true, store_cell (cell_index m px py) c' m, [c'])
    | None => Ok (false, m, [])
    end
  else Ok (false, m, []).

Definition update_cell (px py : Z) (cell : GridCell) : map_manager -> cell_result :=
  change_cell px py (fun _ => Some cell).

Definition update_cell_owner (px py owner alliance : Z) : map_manager -> cell_result :=
  change_cell px py (fun c => Some (with_owner owner alliance c)).

Definition add_building (px py type lv : Z) : map_manager -> cell_result :=
  change_cell px py (fun c => if has_building c then None else Some (with_building type lv c)).

Definition remove_building (px py : Z) : map_manager -> cell_result :=
  change_cell px py (fun c => Some (with_building 0 0 c)).

(** ** Cities *)

Definition create_city (px py : Z) (name : string) (owner : Z) (m : map_manager) : cell_result :=
  if is_valid_pos m px py then
    c ←o cell_at m (cell_index m px py);
    if decide (terrain c <> PLAIN) then Ok (false, m, [])
    else
      let c' := with_owner owner (alliance_id c) (with_terrain CITY c) in
      let i := next_city_id_ m in
      Ok (true, set_cities (<[i := new_city i owner px py name 1]> (cities_ m)) (u64 (i + 1))
                  (store_cell (cell_index m px py) c' m), [c'])
  else Ok (false, m, []).

Definition get_city (i : Z) (m : map_manager) : option City := cities_ m !! i.

Definition update_city (c : City) (m : map_manager) : bool * map_manager :=
  if decide (is_Some (cities_ m !! city_id c)) then (true, set_cities (<[city_id c := c]> (cities_ m)) (next_city_id_ m) m)
  else (false, m).

Definition calculate_distance (x1 y1 x2 y2 : Z) : Z := Z.max (Z.abs (x2 - x1)) (Z.abs (y2 - y1)).

(** [None]: the division by a speed of 0. *)
Definition calculate_march_time (fx fy tx ty speed : Z) : outcome Z :=
  if speed =? 0 then Undefined else Ok (Z.quot (calculate_distance fx fy tx ty * 1000) speed).

(** ** Troops *)

Definition create_troop (owner fx fy inf cav arc sie : Z) (m : map_manager) : outcome (Z * map_manager * list Troop) :=
  let i := next_troop_id_ m in
  let t := mkTroop i owner fx fy 0 0 fx fy IDLE 0 0 inf cav arc sie 0 0 0 0 in
  '(_, a, _) ←o need (Aoi.GridAoi.add_entity (Aoi.mkEntity i fx fy Aoi.OTHER 0) (aoi_ m));
  Ok (i, set_troops (<[i := t]> (troops_ m)) (u64 (i + 1)) a m, [t]).

(** [now]: the clock, in the code's milliseconds. *)
Definition move_troop (i tx ty now : Z) (m : map_manager) : outcome (bool * map_manager * list Troop) :=
  match troops_ m !! i with
  | None => Ok (false, m, [])
  | Some t =>
      if decide (state t <> IDLE) then Ok (false, m, [])
      else
        speed ←o march_speed t;
        march ←o calculate_march_time (from_x t) (from_y t) tx ty speed;
        let t' := with_times now (now + march) (with_target tx ty MARCHING t) in
        Ok (true, set_troops (<[i := t']> (troops_ m)) (next_troop_id_ m) (aoi_ m) m, [t'])
  end.

Definition cancel_troop (i : Z) (m : map_manager) : bool * map_manager * list Troop :=
  match troops_ m !! i with
  | None => (false, m, [])
  | Some t =>
      if decide (state t <> MARCHING) then (false, m, [])
      else
        let t' := with_target (from_x t) (from_y t) RETURNING t in
        (true, set_troops (<[i := t']> (troops_ m)) (next_troop_id_ m) (aoi_ m) m, [t'])
  end.

Definition get_troop (i : Z) (m : map_manager) : option Troop := troops_ m !! i.

(** [static_cast<int>(d * progress)]. *)
Definition scaled (d : Z) (progress : f64) : outcome Z :=
  match f64_trunc (f64_mul (f64_of_Z d) progress) with
  | Some z => if (- 2 ^ 31 <=? z) && (z <? 2 ^ 31) then Ok z else Undefined
  | None => Undefined
  end.

(** Arriving: where the troop is, and what it does next. *)
Definition arrive (m : map_manager) (t : Troop) : outcome Troop :=
  let t := with_current (to_x t) (to_y t) t in
  if decide (state t = RETURNING) then Ok (with_home (to_x t) (to_y t) IDLE t)
  else
    cell ←o cell_at m (cell_index m (to_x t) (to_y t));
    Ok (if has_resource cell then with_home (from_x t) (from_y t) GATHERING t
        else if has_owner cell && negb (owner_id cell =? troop_owner t) then with_home (from_x t) (from_y t) BATTLE t
        else with_home (to_x t) (to_y t) IDLE t).

(** The position on the way. *)
Definition interpolate (now : Z) (t : Troop) : outcome Troop :=
  let elapsed := now - start_time t in
  let total := arrive_time t - start_time t in
  if 0 <? total then
    let progress := f64_div (f64_of_Z elapsed) (f64_of_Z total) in
    cx ←o scaled (to_x t - from_x t) progress;
    cy ←o scaled (to_y t - from_y t) progress;
    Ok (with_current (from_x t + cx) (from_y t + cy) t)
  else Ok t.

(** One turn of [update_troops]'s loop. *)
Definition update_troop (now : Z) (i : Z) (t : Troop) (m : map_manager) : outcome (map_manager * list Troop) :=
  if bool_decide (state t = MARCHING) || bool_decide (state t = RETURNING) then
    if arrive_time t <=? now then
      t' ←o arrive m t;
      '(_, a, _) ←o need (Aoi.GridAoi.update_entity (troop_id t') (current_x t') (current_y t') (aoi_ m));
      Ok (set_troops (<[i := t']> (troops_ m)) (next_troop_id_ m) a m, [t'])
    else
      t' ←o interpolate now t;
      Ok (set_troops (<[i := t']> (troops_ m)) (next_troop_id_ m) (aoi_ m) m, [])
  else Ok (m, []).

Fixpoint update_each (now : Z) (ts : list (Z * Troop)) (m : map_manager) : outcome (map_manager * list Troop) :=
  match ts with
  | [] => Ok (m, [])
  | (i, t) :: ts' =>
      '(m1, evs) ←o update_troop now i t m;
      '(m2, evs') ←o update_each now ts' m1;
      Ok (m2, evs ++ evs')
  end.

(** ** Queries and paths *)

Definition get_cells_in_range (px py r : Z) (m : map_manager) : outcome (list GridCell) :=
  foldr (fun '(nx, ny) acc => c ←o cell_at m (cell_index m nx ny); cs ←o acc; Ok (c :: cs)) (Ok [])
    (filter (fun '(nx, ny) => is_valid_pos m nx ny = true)
       (dy ← Aoi.range (- r) r; dx ← Aoi.range (- r) r; [(px + dx, py + dy)])).

Definition get_player_territory (p : Z) (m : map_manager) : list GridCell :=
  filter (fun c => owner_id c = p) (cells_ m).

(** The [while] loop of [find_path]. *)
Fixpoint walk_path (fuel : nat) (px py tx ty dx dy : Z) : outcome (list (Z * Z)) :=
  if (px =? tx) && (py =? ty) then Ok [(tx, ty)]
  else
    match fuel with
    | O => Fuel
    | S fuel' =>
        rest ←o (if negb (px =? tx) then walk_path fuel' (px + dx) py tx ty dx dy
                 else walk_path fuel' px (py + dy) tx ty dx dy);
        Ok ((px, py) :: rest)
    end.

(** One step per column, then one per row: the fuel is the number of steps. *)
Definition find_path (fx fy tx ty : Z) (m : map_manager) : outcome (list (Z * Z)) :=
  if negb (is_valid_pos m fx fy) || negb (is_valid_pos m tx ty) then Ok []
  else
    let dx := if fx <? tx then 1 else if tx <? fx then -1 else 0 in
    let dy := if fy <? ty then 1 else if ty <? fy then -1 else 0 in
    walk_path (Z.to_nat (Z.abs (tx - fx) + Z.abs (ty - fy))) fx fy tx ty dx dy.

Definition total_cells (m : map_manager) : Z := width (config_ m) * height (config_ m).
Definition total_cities (m : map_manager) : nat := size (cities_ m).
Definition total_troops (m : map_manager) : nat := size (troops_ m).

Section Order.
Context {IO : IterOrder Z}.

(** The loops over the unordered maps. *)
Definition update_troops (now : Z) (m : map_manager) : outcome (map_manager * list Troop) :=
  update_each now (iter (troops_ m)) m.

Definition get_city_at (px py : Z) (m : map_manager) : option City :=
  head (filter (fun c => city_x c = px /\ city_y c = py) (iter (cities_ m)).*2).

Definition get_troops_in_range (px py r : Z) (m : map_manager) : list Troop :=
  filter (fun t => calculate_distance px py (current_x t) (current_y t) <= r) (iter (troops_ m)).*2.

Definition get_cities_in_range (px py r : Z) (m : map_manager) : list City :=
  filter (fun c => calculate_distance px py (city_x c) (city_y c) <= r) (iter (cities_ m)).*2.
End Order.

(** ** Generation *)

Section Random.
Context (rand : nat -> Z).

(** [rand() % n]. *)
Definition rand_mod (n : Z) (m : map_manager) : Z * map_manager :=
  (Z.rem (rand (draws m)) n,
   mkMap (config_ m) (cells_ m) (cities_ m) (troops_ m) (next_city_id_ m) (next_troop_id_ m) (aoi_ m) (S (draws m))).

Definition random_terrain (r : Z) : TerrainType :=
  if r <? 60 then PLAIN else if r <? 75 then FOREST else if r <? 85 then MOUNTAIN else if r <? 95 then WATER else PLAIN.

Fixpoint terrain_from (i n : nat) (m : map_manager) : map_manager :=
  match n with
  | O => m
  | S n' =>
      let '(r, m) := rand_mod 100 m in
      terrain_from (S i) n' (set_cells (alter (with_terrain (random_terrain r)) i (cells_ m)) m)
  end.

Definition generate_terrain (m : map_manager) : map_manager := terrain_from 0 (length (cells_ m)) m.

Fixpoint generate_resources (count : nat) (m : map_manager) : outcome map_manager :=
  match count with
  | O => Ok m
  | S count' =>
      let '(px, m) := rand_mod (width (config_ m)) m in
      let '(py, m) := rand_mod (height (config_ m)) m in
      let i := cell_index m px py in
      c ←o cell_at m i;
      if bool_decide (terrain c = PLAIN) && negb (has_resource c) && negb (has_building c) then
        let '(t, m) := rand_mod 4 m in
        let '(a, m) := rand_mod 90000 m in
        let '(g, m) := rand_mod 200 m in
        generate_resources count' (store_cell i (with_resource (t + 1) (10000 + a) (100 + g) c) m)
      else generate_resources count' m
  end.

(** A city within 20 cells on both axes. *)
Definition too_close (px py : Z) (m : map_manager) : bool :=
  bool_decide (map_Exists (fun _ c => Z.abs (city_x c - px) < 20 /\ Z.abs (city_y c - py) < 20) (cities_ m)).

(** The new city on the cell [c] at [px], [py]; [name_of] is
    ["City_" + std::to_string(id)]. *)
Definition place_city (name_of : Z -> string) (px py l : Z) (c : GridCell) (m : map_manager) : map_manager :=
  let n := next_city_id_ m in
  set_cities (<[n := new_city n 0 px py (name_of n) (1 + l)]> (cities_ m)) (u64 (n + 1))
    (store_cell (cell_index m px py) (with_owner n (alliance_id c) (with_terrain CITY c)) m).

(** The [while] loop. *)
Fixpoint place_cities (name_of : Z -> string) (attempts : nat) (count margin xr yr : Z) (created : Z) (m : map_manager)
  : outcome map_manager :=
  match attempts with
  | O => Ok m
  | S attempts' =>
      if created <? count then
        let '(rx, m) := rand_mod xr m in
        let '(ry, m) := rand_mod yr m in
        let px := margin + rx in
        let py := margin + ry in
        c ←o cell_at m (cell_index m px py);
        if negb (too_close px py m) && bool_decide (terrain c = PLAIN) then
          let '(l, m) := rand_mod 5 m in
          place_cities name_of attempts' count margin xr yr (created + 1) (place_city name_of px py l c m)
        else place_cities name_of attempts' count margin xr yr created m
      else Ok m
  end.

Definition generate_cities (name_of : Z -> string) (count : Z) (m : map_manager) : outcome map_manager :=
  let margin := Z.min 50 (Z.quot (Z.min (width (config_ m)) (height (config_ m))) 4) in
  let xr := width (config_ m) - 2 * margin in
  let yr := height (config_ m) - 2 * margin in
  if (xr <=? 0) || (yr <=? 0) then Ok m
  else place_cities name_of (Z.to_nat (count * 100)) count margin xr yr 0 m.
End Random.

(** ** Facts *)

(** The board: as many cells as the configuration says, a consistent grid
    manager, city ids below the next one. *)
Record map_wf (m : map_manager) : Prop := {
  wf_width : 0 <= width (config_ m);
  wf_height : 0 <= height (config_ m);
  wf_cells : Z.of_nat (length (cells_ m)) = width (config_ m) * height (config_ m);
  wf_aoi : Aoi.GridAoi.aoi_wf (aoi_ m);
  wf_next : 0 <= next_city_id_ m;
  wf_cities : forall i c, cities_ m !! i = Some c -> 0 <= i < next_city_id_ m
}.

Lemma valid_pos_spec m px py :
  is_valid_pos m px py = true <-> 0 <= px < width (config_ m) /\ 0 <= py < height (config_ m).
Proof. unfold is_valid_pos. rewrite !andb_true_iff, !Z.leb_le, !Z.ltb_lt. lia. Qed.

Lemma valid_index m px py : map_wf m -> is_valid_pos m px py = true ->
  0 <= cell_index m px py < Z.of_nat (length (cells_ m)).
Proof. intros W [Hx Hy]%valid_pos_spec. rewrite (wf_cells m W). unfold cell_index. nia. Qed.

Lemma valid_cell m px py : map_wf m -> is_valid_pos m px py = true ->
  exists c, cell_at m (cell_index m px py) = Ok c.
Proof.
  intros W V. pose proof (valid_index m px py W V) as H. unfold cell_at. case_test; [lia|].
  destruct (cells_ m !! _) eqn:L; [eexists; done|]. apply lookup_ge_None in L. lia.
Qed.

Lemma cell_index_inj m px py qx qy :
  is_valid_pos m px py = true -> is_valid_pos m qx qy = true ->
  cell_index m px py = cell_index m qx qy -> (px, py) = (qx, qy).
Proof.
  intros [Hx Hy]%valid_pos_spec [Hx' Hy']%valid_pos_spec. unfold cell_index. intros H.
  assert (py = qy) as -> by nia. f_equal. lia.
Qed.

Lemma store_cell_at m i c j : 0 <= i < Z.of_nat (length (cells_ m)) -> 0 <= j ->
  cell_at (store_cell i c m) j = if i =? j then Ok c else cell_at m j.
Proof.
  intros Hi Hj. unfold cell_at, store_cell. cbn [cells_ set_cells]. case_test; [lia|].
  destruct (i =? j) eqn:Eij; breflect.
  - subst. rewrite list_lookup_insert_eq by lia. done.
  - by rewrite list_lookup_insert_ne by lia.
Qed.

Lemma store_cell_wf m i c : map_wf m -> map_wf (store_cell i c m).
Proof. intros [? ? ? ? ? ?]. split; cbn; try done. by rewrite length_insert. Qed.

(** ** Cell operations *)

(** On a well-formed board a cell operation at a position of the map reads
    the cell there and either refuses, changing nothing and calling back
    nothing, or stores the new cell, which is what [get_cell] then answers
    there, gives it to the callback, and changes no other position; outside the
    map it refuses. *)
Theorem cell_change_spec m px py f : map_wf m ->
  if is_valid_pos m px py then
    exists c, get_cell px py m = Ok (Some c) /\
      match f c with
      | None => change_cell px py f m = Ok (false, m, [])
      | Some c' => exists m', change_cell px py f m = Ok (true, m', [c']) /\ map_wf m' /\
          get_cell px py m' = Ok (Some c') /\
          (forall qx qy, (qx, qy) <> (px, py) -> get_cell qx qy m' = get_cell qx qy m) /\
          cities_ m' = cities_ m /\ troops_ m' = troops_ m
      end
  else get_cell px py m = Ok None /\ change_cell px py f m = Ok (false, m, []).
Proof.
  intros W. destruct (is_valid_pos m px py) eqn:V.
  2: { unfold get_cell, change_cell. by rewrite V. }
  destruct (valid_cell m px py W V) as [c Hc]. exists c. unfold get_cell, change_cell. rewrite V, Hc. cbn [obind].
  split; [done|]. destruct (f c) as [c'|]; [|done].
  pose proof (valid_index m px py W V) as Hi.
  exists (store_cell (cell_index m px py) c' m). split; [done|]. split; [by apply store_cell_wf|].
  change (is_valid_pos (store_cell _ c' m)) with (is_valid_pos m).
  change (cell_index (store_cell _ c' m)) with (cell_index m). split; [|split; [|done]].
  - rewrite V, store_cell_at by lia. by rewrite Z.eqb_refl.
  - intros qx qy Hq. destruct (is_valid_pos m qx qy) eqn:V'; [|done].
    rewrite store_cell_at by (pose proof (valid_index m qx qy W V'); lia).
    case_test; [|done]. exfalso. by apply Hq, (cell_index_inj m).
Qed.

(** ** Paths *)

Definition neighbours (p q : Z * Z) : Prop := Z.abs (q.1 - p.1) + Z.abs (q.2 - p.2) = 1.

Fixpoint chain (path : list (Z * Z)) : Prop :=
  match path with
  | p :: (q :: _) as rest => neighbours p q /\ chain rest
  | _ => True
  end.

Definition towards (a b : Z) : Z := if a <? b then 1 else if b <? a then -1 else 0.

Definition between (a b c : Z) : Prop := a <= b <= c \/ c <= b <= a.

Lemma walk_path_spec n px py tx ty dx dy :
  (px <> tx -> dx = towards px tx) -> (py <> ty -> dy = towards py ty) ->
  Z.of_nat n = Z.abs (tx - px) + Z.abs (ty - py) ->
  exists path, walk_path n px py tx ty dx dy = Ok path /\ length path = S n /\
    head path = Some (px, py) /\ last path = Some (tx, ty) /\ chain path /\
    Forall (fun p => between px p.1 tx /\ between py p.2 ty) path.
Proof.
  revert px py. induction n as [|n IH]; intros px py Hdx Hdy Hn.
  - assert (px = tx) as -> by lia. assert (py = ty) as -> by lia.
    exists [(tx, ty)]. cbn. rewrite !Z.eqb_refl. cbn. split_and!; try done.
    constructor; [|constructor]. unfold between. cbn [fst snd]. lia.
  - cbn [walk_path]. destruct (px =? tx) eqn:Ex; breflect; cbn [andb negb].
    + subst. destruct (py =? ty) eqn:Ey; breflect; [lia|]. cbn [obind].
      specialize (Hdy ltac:(done)). unfold towards in Hdy.
      destruct (IH tx (py + dy)) as (path & -> & Hl & Hh & Hlast & Hc & Hb); [done| | |].
      * intros Hne. unfold towards. revert Hne; revert Hdy. case_tests; lia.
      * revert Hdy. case_tests; lia.
      * exists ((tx, py) :: path). cbn [obind]. destruct path as [|q path]; [done|]. injection Hh as ->.
        split_and!; try done.
        -- cbn [length] in *. lia.
        -- split; [|exact Hc]. unfold neighbours. cbn [fst snd]. revert Hdy. case_tests; lia.
        -- constructor; [unfold between; cbn [fst snd]; lia|]. eapply Forall_impl; [exact Hb|].
           intros [qx qy]. unfold between. cbn [fst snd]. revert Hdy. case_tests; lia.
    + specialize (Hdx ltac:(done)). unfold towards in Hdx.
      destruct (IH (px + dx) py) as (path & -> & Hl & Hh & Hlast & Hc & Hb); [|done| |].
      * intros Hne. unfold towards. revert Hne; revert Hdx. case_tests; lia.
      * revert Hdx. case_tests; lia.
      * exists ((px, py) :: path). cbn [obind]. destruct path as [|q path]; [done|]. injection Hh as ->.
        split_and!; try done.
        -- cbn [length] in *. lia.
        -- split; [|exact Hc]. unfold neighbours. cbn [fst snd]. revert Hdx. case_tests; lia.
        -- constructor; [unfold between; cbn [fst snd]; lia|]. eapply Forall_impl; [exact Hb|].
           intros [qx qy]. unfold between. cbn [fst snd]. revert Hdx. case_tests; lia.
Qed.

(** Between two positions of the map [find_path] returns (the loop ends) a
    path that starts at the first and ends at the second, moves one cell
    horizontally or vertically at a time, stays on the map and is shortest;
    with an end off the map it returns the empty path. *)
Theorem find_path_spec m fx fy tx ty :
  if is_valid_pos m fx fy && is_valid_pos m tx ty then
    exists path, find_path fx fy tx ty m = Ok path /\
      head path = Some (fx, fy) /\ last path = Some (tx, ty) /\ chain path /\
      Forall (fun p => is_valid_pos m p.1 p.2 = true) path /\
      Z.of_nat (length path) = Z.abs (tx - fx) + Z.abs (ty - fy) + 1
  else find_path fx fy tx ty m = Ok [].
Proof.
  unfold find_path. destruct (is_valid_pos m fx fy) eqn:V1; [|done].
  destruct (is_valid_pos m tx ty) eqn:V2; [|done]. cbn [andb negb orb].
  destruct (walk_path_spec (Z.to_nat (Z.abs (tx - fx) + Z.abs (ty - fy))) fx fy tx ty (towards fx tx) (towards fy ty))
    as (path & Hp & Hl & Hh & Hlast & Hc & Hb); [done|done|lia|].
  exists path. split_and!; try done; [|lia].
  eapply Forall_impl; [exact Hb|]. intros [qx qy] [Hx Hy]. apply valid_pos_spec.
  apply valid_pos_spec in V1, V2. unfold between in *. cbn [fst snd] in *. lia.
Qed.

(** ** Marches *)

(** What a troop's turn makes of it. *)
Definition turn (m : map_manager) (now : Z) (t : Troop) : outcome Troop :=
  if bool_decide (state t = MARCHING) || bool_decide (state t = RETURNING) then
    if arrive_time t <=? now then arrive m t else interpolate now t
  else Ok t.

(** The parts of the map the troops do not change. *)
Definition same_board (m m' : map_manager) : Prop :=
  config_ m' = config_ m /\ cells_ m' = cells_ m /\ cities_ m' = cities_ m.

Lemma turn_board m m' now t : same_board m m' -> turn m' now t = turn m now t.
Proof. intros (Hc & Hl & _). unfold turn, arrive, cell_at, cell_index. by rewrite Hc, Hl. Qed.

Lemma update_troop_spec now i t m m' evs : troops_ m !! i = Some t ->
  update_troop now i t m = Ok (m', evs) ->
  exists t', turn m now t = Ok t' /\ troops_ m' = <[i := t']> (troops_ m) /\ same_board m m'.
Proof.
  intros Hi. unfold update_troop, turn. case_test.
  - case_test; intros H; obinv.
    + destruct a0 as [[b a0] ev]. obinv. eexists. split_and!; [done|done|by split_and!].
    + eexists. split_and!; [done|done|by split_and!].
  - intros Hx. obinv. exists t. split_and!; [done| |by split_and!]. by rewrite insert_id.
Qed.

Lemma update_each_spec now ts m m' evs : NoDup ts.*1 ->
  (forall i t, (i, t) ∈ ts -> troops_ m !! i = Some t) ->
  update_each now ts m = Ok (m', evs) ->
  same_board m m' /\
  (forall i t, (i, t) ∈ ts -> exists t', turn m now t = Ok t' /\ troops_ m' !! i = Some t') /\
  (forall i, i ∉ ts.*1 -> troops_ m' !! i = troops_ m !! i).
Proof.
  revert m evs. induction ts as [|[i t] ts IH]; intros m evs Hn Hts; cbn [update_each]; intros H.
  - obinv. split_and!; try done. by intros j u Hj%elem_of_nil.
  - cbn in Hn. apply NoDup_cons in Hn as [Hni Hn].
    obinv. destruct a as [m1 evs1]. obinv. destruct a as [m2 evs2]. obinv.
    pose proof (Hts i t ltac:(left)) as Hi.
    destruct (update_troop_spec _ _ _ _ _ _ Hi E) as (t' & Ht' & Htr & Hb).
    assert (Hother : forall j, j <> i -> troops_ m1 !! j = troops_ m !! j).
    { intros j Hj. rewrite Htr. by rewrite lookup_insert_ne. }
    destruct (IH m1 evs2 Hn) as (Hb2 & Hin & Hout); [|done|].
    { intros j u Hj. rewrite Hother; [by apply Hts; right|].
      intros ->. apply Hni. by apply (list_elem_of_fmap_2 fst) in Hj. }
    split; [unfold same_board in *; intuition congruence|]. split.
    + intros j u Hj. apply elem_of_cons in Hj as [[= -> ->]|Hj].
      * exists t'. split; [done|]. rewrite Hout by done. rewrite Htr. by rewrite lookup_insert_eq.
      * destruct (Hin j u Hj) as (u' & Hu & Hl). exists u'. by rewrite <- (turn_board m m1) by done.
    + intros j Hj. cbn in Hj. apply not_elem_of_cons in Hj as [Hji Hj]. by rewrite Hout, Hother.
Qed.

#[local] Arguments calculate_distance : simpl never.

Section MarchFacts.
Context {IO : IterOrder Z}.

(** [update_troops] gives every troop its own turn, whatever the order. *)
Lemma update_troops_pointwise now m m' evs : update_troops now m = Ok (m', evs) ->
  same_board m m' /\
  forall i, match troops_ m !! i with
            | Some t => exists t', turn m now t = Ok t' /\ troops_ m' !! i = Some t'
            | None => troops_ m' !! i = None
            end.
Proof.
  unfold update_troops. intros H.
  destruct (update_each_spec now (iter (troops_ m)) m m' evs) as (Hb & Hin & Hout); [apply NoDup_iter| |done|].
  { intros i t Hi. by apply elem_of_iter. }
  split; [done|]. intros i. destruct (troops_ m !! i) as [t|] eqn:L.
  - apply Hin. by apply elem_of_iter.
  - rewrite Hout; [done|]. intros ((j & t) & -> & Ht)%list_elem_of_fmap_1.
    apply elem_of_iter in Ht. cbn in L. congruence.
Qed.

(** A troop sent to a position of the map arrives: at the first update at or
    after its arrival time it stands on the target, gathering where there is a
    resource, in battle on a cell another player owns, and otherwise idle with
    the target as its new home; before that it is still marching. *)
Theorem march_outcome i tx ty t0 m m1 ev now m2 evs :
  map_wf m -> is_valid_pos m tx ty = true ->
  move_troop i tx ty t0 m = Ok (true, m1, ev) ->
  update_troops now m1 = Ok (m2, evs) ->
  exists t t2 cell, get_troop i m = Some t /\ get_troop i m2 = Some t2 /\
    get_cell tx ty m = Ok (Some cell) /\ total_soldiers t2 = total_soldiers t /\
    match march_speed t with
    | Ok speed =>
        if t0 + Z.quot (calculate_distance (from_x t) (from_y t) tx ty * 1000) speed <=? now then
          (current_x t2, current_y t2) = (tx, ty) /\
          state t2 = (if has_resource cell then GATHERING
                      else if has_owner cell && negb (owner_id cell =? troop_owner t) then BATTLE else IDLE) /\
          (state t2 = IDLE -> (from_x t2, from_y t2) = (tx, ty))
        else state t2 = MARCHING
    | _ => False
    end.
Proof.
  intros W V Hm Hu. unfold move_troop in Hm. destruct (troops_ m !! i) as [t|] eqn:L; [|done].
  case_decide as Hs; [done|]. obinv.
  destruct (valid_cell m tx ty W V) as [cell Hcell].
  unfold calculate_march_time in E0. revert E0. case_test; [done|]. intros [= <-].
  apply update_troops_pointwise in Hu as [_ Hp]. specialize (Hp i). cbn in Hp. rewrite lookup_insert_eq in Hp.
  destruct Hp as (t2 & Ht & L2). exists t, t2, cell. unfold get_troop, get_cell. rewrite V, Hcell. 
  rewrite E. revert Ht. unfold turn. rewrite bool_decide_true by done. cbn. case_test; cbn.
  - unfold arrive. cbn.
    change (cell_at _ (cell_index _ tx ty)) with (cell_at m (cell_index m tx ty)). rewrite Hcell. cbn.
    intros [= <-]. split_and!; try done; by case_tests.
  - unfold interpolate. case_test; intros H; obinv; by split_and!.
Qed.

(** [move_troop] accepts a target off the map, and the update at which the
    troop arrives reads [cells_] out of range, whatever the other troops do. *)
Theorem off_map_march_undefined i tx ty t0 m m1 ev now speed t :
  map_wf m -> cell_index m tx ty < 0 \/ Z.of_nat (length (cells_ m)) <= cell_index m tx ty ->
  move_troop i tx ty t0 m = Ok (true, m1, ev) ->
  get_troop i m = Some t -> march_speed t = Ok speed ->
  t0 + Z.quot (calculate_distance (from_x t) (from_y t) tx ty * 1000) speed <= now ->
  forall r, update_troops now m1 <> Ok r.
Proof.
  intros W Hoff Hm Ht Hsp Hnow [m2 evs] Hu. unfold move_troop in Hm. unfold get_troop in Ht. rewrite Ht in Hm.
  case_decide; [done|]. rewrite Hsp in Hm. cbn [obind] in Hm. obinv.
  unfold calculate_march_time in E. revert E. case_test; [done|]. intros [= <-].
  apply update_troops_pointwise in Hu as [_ Hp]. specialize (Hp i). cbn in Hp. rewrite lookup_insert_eq in Hp.
  destruct Hp as (t2 & Htn & _). revert Htn. unfold turn. rewrite bool_decide_true by done. cbn [orb].
  rewrite (proj2 (Z.leb_le _ _) Hnow : (arrive_time (with_times t0 _ (with_target tx ty MARCHING t)) <=? now) = true).
  unfold arrive. cbn. rewrite decide_False by done.
  change (cell_at _ (cell_index _ tx ty)) with (cell_at m (cell_index m tx ty)).
  unfold cell_at. case_test; [done|]. rewrite lookup_ge_None_2 by lia. done.
Qed.

(** A cancelled march is not walked back: at the next update, however soon,
    the troop is at the position it left from. *)
Theorem cancelled_troop_jumps_home i m m1 ev now m2 evs t :
  get_troop i m = Some t -> start_time t < arrive_time t ->
  cancel_troop i m = (true, m1, ev) -> update_troops now m1 = Ok (m2, evs) ->
  exists t2, get_troop i m2 = Some t2 /\ (current_x t2, current_y t2) = (from_x t, from_y t).
Proof.
  unfold get_troop, cancel_troop. intros L Hlt Hc Hu. rewrite L in Hc. revert Hc.
  case_decide as Hs; [done|]. intros [= <- _].
  apply update_troops_pointwise in Hu as [_ Hp]. specialize (Hp i). cbn in Hp. rewrite lookup_insert_eq in Hp.
  destruct Hp as (t2 & Ht & L2). exists t2. split; [done|]. revert Ht. unfold turn.
  rewrite orb_comm, bool_decide_true by done. cbn. case_test; cbn.
  - intros [= <-]. done.
  - unfold interpolate. cbn. case_test; [|lia]. rewrite !Z.sub_diag. intros H. obinv. cbn.
    assert (forall p z, scaled 0 p = Ok z -> z = 0) as Hz.
    { intros p z. unfold scaled, f64_mul. destruct p; cbn; by intros [= <-]. }
    repeat match goal with Hs : scaled 0 _ = Ok _ |- _ => apply Hz in Hs end. subst. by rewrite !Z.add_0_r.
Qed.
End MarchFacts.

(** ** City generation *)

(** Two cities are 20 cells or more apart on one of the axes. *)
Definition spread (m : map_manager) : Prop :=
  forall i j c d, cities_ m !! i = Some c -> cities_ m !! j = Some d -> i <> j ->
    20 <= Z.abs (city_x c - city_x d) \/ 20 <= Z.abs (city_y c - city_y d).

(** The cities added since [m0] stand on city cells of their own. *)
Definition founded (m0 m : map_manager) : Prop :=
  forall i c, cities_ m !! i = Some c -> cities_ m0 !! i = None ->
    exists cell, get_cell (city_x c) (city_y c) m = Ok (Some cell) /\ terrain cell = CITY /\ owner_id cell = i.

Lemma too_close_false px py m : too_close px py m = false ->
  forall i c, cities_ m !! i = Some c -> 20 <= Z.abs (city_x c - px) \/ 20 <= Z.abs (city_y c - py).
Proof.
  unfold too_close. intros Ht%bool_decide_eq_false_1 i c L.
  destruct (decide (Z.abs (city_x c - px) < 20 /\ Z.abs (city_y c - py) < 20)); [|lia].
  exfalso. apply Ht. by exists i, c.
Qed.

Section PlaceFacts.
Context (name_of : Z -> string) (m0 m : map_manager) (px py l : Z) (c : GridCell).
Context (W : map_wf m) (V : is_valid_pos m px py = true).
Context (Hcell : cell_at m (cell_index m px py) = Ok c).
Context (Hnext : next_city_id_ m + 1 < 2 ^ 64).

Let m1 := place_city name_of px py l c m.

Lemma next_wrap : u64 (next_city_id_ m + 1) = next_city_id_ m + 1.
Proof. apply uwrap_small. pose proof (wf_next m W). lia. Qed.

Lemma fresh_city : cities_ m !! next_city_id_ m = None.
Proof. destruct (cities_ m !! _) eqn:E; [|done]. apply (wf_cities m W) in E. lia. Qed.

Lemma place_wf : map_wf m1.
Proof.
  pose proof next_wrap as Hu. destruct W as [? ? ? ? ? Hc]. split; cbn; try done.
  - by rewrite length_insert.
  - lia.
  - rewrite Hu. intros i d [[<- _]|[Hi Hd]]%lookup_insert_Some; [lia|]. apply Hc in Hd. lia.
Qed.

Lemma place_spread : too_close px py m = false -> spread m -> spread m1.
Proof.
  intros Ht Hs i j d e Hi Hj Hne. pose proof (too_close_false px py m Ht) as Hf.
  cbn in Hi, Hj. apply lookup_insert_Some in Hi as [[<- <-]|[_ Hi]], Hj as [[<- <-]|[_ Hj]]; cbn.
  - done.
  - apply Hf in Hj. lia.
  - apply Hf in Hi. lia.
  - by apply (Hs i j).
Qed.

Lemma place_founded : terrain c = PLAIN -> founded m0 m -> founded m0 m1.
Proof.
  intros Hp Hf i d Hi H0. pose proof (valid_index m px py W V) as Hr. unfold get_cell.
  change (is_valid_pos m1) with (is_valid_pos m). change (cell_index m1) with (cell_index m).
  change (cell_at m1) with (cell_at (store_cell (cell_index m px py)
    (with_owner (next_city_id_ m) (alliance_id c) (with_terrain CITY c)) m)).
  cbn in Hi. apply lookup_insert_Some in Hi as [[<- <-]|[Hne Hi]].
  - eexists. cbn [city_x city_y new_city]. rewrite V, store_cell_at by lia. rewrite Z.eqb_refl. by split_and!.
  - destruct (Hf i d Hi H0) as (cell & Hg & Ht & Ho). exists cell. split; [|done].
    unfold get_cell in Hg. revert Hg. case_test; [|done]. intros Hg. obinv.
    rewrite store_cell_at by (pose proof (valid_index m _ _ W E); lia).
    case_test; [|by rewrite E0]. exfalso. rewrite <- E1, Hcell in E0. injection E0 as ->. congruence.
Qed.
End PlaceFacts.

(** A draw changes nothing but the number of draws. *)
Definition drawn (m m' : map_manager) : Prop :=
  config_ m' = config_ m /\ cells_ m' = cells_ m /\ cities_ m' = cities_ m /\
  next_city_id_ m' = next_city_id_ m /\ aoi_ m' = aoi_ m.

Lemma drawn_wf m m' : drawn m m' -> map_wf m -> map_wf m'.
Proof.
  intros (Hc & Hl & Hcs & Hn & Ha) [? ? ? ? ? ?].
  split; rewrite ?Hc, ?Hl, ?Hcs, ?Hn, ?Ha; try done.
Qed.

Lemma drawn_founded m0 m m' : drawn m m' -> founded m0 m -> founded m0 m'.
Proof.
  intros (Hc & Hl & Hcs & _ & _). unfold founded, get_cell, is_valid_pos, cell_at, cell_index.
  by rewrite Hc, Hl, Hcs.
Qed.

Lemma drawn_spread m m' : drawn m m' -> spread m -> spread m'.
Proof. intros (_ & _ & Hcs & _). unfold spread. by rewrite Hcs. Qed.

Lemma rand_mod_spec rand (Hrand : forall k, 0 <= rand k) n m r m' :
  rand_mod rand n m = (r, m') -> 0 < n -> drawn m m' /\ 0 <= r < n.
Proof. intros [= <- <-] Hn. split; [done|]. by apply Z.rem_bound_pos. Qed.

Section Generate.
Context (rand : nat -> Z) (Hrand : forall k, 0 <= rand k) (name_of : Z -> string).
Context (count margin xr yr : Z) (m0 : map_manager).

(** What holds of the map while cities are placed. *)
Definition placing (created : Z) (m : map_manager) : Prop :=
  map_wf m /\ config_ m = config_ m0 /\ spread m /\ founded m0 m /\ cities_ m0 ⊆ cities_ m /\
  Z.of_nat (size (cities_ m)) = Z.of_nat (size (cities_ m0)) + created /\
  next_city_id_ m = next_city_id_ m0 + created.

Lemma drawn_placing created m m' : drawn m m' -> placing created m -> placing created m'.
Proof.
  intros D (W & Hc & Hs & Hf & Hsub & Hsz & Hn). pose proof D as (Hc' & _ & Hcs & Hn' & _).
  unfold placing in *; split_and!; try (rewrite ?Hc', ?Hcs, ?Hn'; assumption).
  - by apply (drawn_wf m).
  - by apply (drawn_spread m).
  - by apply (drawn_founded m0 m).
Qed.

Lemma place_city_placing created px py l c m :
  placing created m -> is_valid_pos m px py = true -> cell_at m (cell_index m px py) = Ok c ->
  terrain c = PLAIN -> too_close px py m = false -> next_city_id_ m + 1 < 2 ^ 64 ->
  placing (created + 1) (place_city name_of px py l c m).
Proof.
  intros (W & Hc & Hs & Hf & Hsub & Hsz & Hn) V Hcell Hp Ht Hlt.
  pose proof (fresh_city m W) as Hfr.
  unfold placing in *; split_and!.
  - by apply place_wf.
  - done.
  - by apply place_spread.
  - by apply place_founded.
  - cbn. etrans; [done|]. by apply insert_subseteq.
  - cbn. rewrite map_size_insert_None by done. lia.
  - cbn. rewrite (next_wrap m W Hlt). lia.
Qed.

Context (Hx : 0 <= margin /\ 0 < xr /\ margin + xr <= width (config_ m0)).
Context (Hy : 0 < yr /\ margin + yr <= height (config_ m0)).

Lemma place_cities_placing attempts created m :
  next_city_id_ m0 + count < 2 ^ 64 -> placing created m -> created <= Z.max 0 count ->
  exists m' created', place_cities rand name_of attempts count margin xr yr created m = Ok m' /\
    placing created' m' /\ created' <= Z.max 0 count.
Proof.
  intros Hmax. revert created m. induction attempts as [|n IH]; intros created m P Hle; cbn [place_cities].
  { by exists m, created. }
  case_test; [|by exists m, created].
  destruct (rand_mod rand xr m) as [rx m1] eqn:R1. apply (rand_mod_spec rand Hrand) in R1 as [D1 Hrx]; [|lia].
  destruct (rand_mod rand yr m1) as [ry m2] eqn:R2. apply (rand_mod_spec rand Hrand) in R2 as [D2 Hry]; [|lia].
  cbv zeta. set (px := margin + rx). set (py := margin + ry).
  assert (P2 : placing created m2) by by apply (drawn_placing created m1), (drawn_placing created m).
  pose proof P2 as (W & Hc & _ & _ & _ & _ & Hn).
  assert (V : is_valid_pos m2 px py = true) by (apply valid_pos_spec; rewrite Hc; lia).
  destruct (valid_cell m2 px py W V) as [c Hcell]. rewrite Hcell. cbn [obind].
  destruct (too_close px py m2) eqn:Ht; cbn [negb andb]; [by apply IH|].
  case_bool_decide as Hp; [|by apply IH].
  destruct (rand_mod rand 5 m2) as [l m3] eqn:R3. apply (rand_mod_spec rand Hrand) in R3 as [D3 _]; [|lia].
  pose proof (drawn_placing created m2 m3 D3 P2) as P3. destruct D3 as (Hc3 & Hl3 & Hcs3 & Hn3 & _).
  apply IH; [|lia]. apply place_city_placing; try done.
  - unfold is_valid_pos. by rewrite Hc3.
  - unfold cell_at, cell_index. by rewrite Hl3, Hc3.
  - unfold too_close. by rewrite Hcs3.
  - rewrite Hn3. lia.
Qed.
End Generate.

(** On a well-formed board [generate_cities] returns without indexing the
    cells out of range; at most [count] cities are added and none removed, any
    two cities are then 20 cells or more apart on some axis if that held before,
    and every added city stands on a city cell that carries its id. *)
Theorem generate_cities_spread rand name_of count m :
  map_wf m -> (forall k, 0 <= rand k) -> spread m -> 0 <= count -> next_city_id_ m + count < 2 ^ 64 ->
  exists m', generate_cities rand name_of count m = Ok m' /\ map_wf m' /\ spread m' /\ founded m m' /\
    cities_ m ⊆ cities_ m' /\
    Z.of_nat (size (cities_ m')) <= Z.of_nat (size (cities_ m)) + count.
Proof.
  intros W Hr Hs Hc Hn. unfold generate_cities. set (margin := Z.min _ _).
  assert (Hm : 0 <= margin).
  { pose proof (wf_width m W). pose proof (wf_height m W). subst margin.
    pose proof (Z.quot_pos (Z.min (width (config_ m)) (height (config_ m))) 4). lia. }
  assert (P : placing m 0 m).
  { unfold placing in *; split_and!; try done; [|lia..]. intros i c L E. congruence. }
  case_test.
  - exists m. destruct P as (_ & _ & _ & Hf & Hsub & _). unfold placing in *; split_and!; try done. lia.
  - edestruct (place_cities_placing rand Hr name_of count margin) with (m0 := m) (created := 0) (m := m)
      as (m' & k & Hm' & (W' & _ & Hs' & Hf' & Hsub & Hsz & _) & Hk); try done; [| |lia|].
    3: { exists m'. unfold placing in *; split_and!; try done. lia. }
    all: lia.
Qed.

(** ** The initial map *)

Lemma default_aoi_ok : Aoi.GridAoi.config_ok (Aoi.GridAoi.mkConfig 1000 1000 50 1).
Proof. split; vm_compute; repeat split; congruence. Qed.

Lemma init_wf c : 0 < width c -> 0 < height c -> exists m, (m0 ←o SlgMapManager c; init m0) = Ok m /\ map_wf m.
Proof.
  intros Hw Hh. destruct (Aoi.GridAoi.aoi_init_ok _ default_aoi_ok) as (a & H0 & Ha & _).
  unfold SlgMapManager. rewrite H0. cbn [need obind]. unfold init. cbn [config_]. case_test; [nia|]. case_test; [lia|].
  eexists. split; [done|]. split; cbn; try lia.
  - rewrite length_imap, length_resize. lia.
  - exact Ha.
  - intros i d. by rewrite lookup_empty.
Qed.

(** Creating a troop anywhere succeeds and keeps the map well formed. *)
Lemma create_troop_wf owner fx fy inf cav arc sie m : map_wf m ->
  exists i m' t, create_troop owner fx fy inf cav arc sie m = Ok (i, m', [t]) /\ map_wf m' /\
    get_troop i m' = Some t /\ state t = IDLE /\ (from_x t, from_y t) = (fx, fy).
Proof.
  intros [? ? ? Ha ? ?]. unfold create_troop.
  destruct (Aoi.GridAoi.add_entity_ok (aoi_ m) (Aoi.mkEntity (next_troop_id_ m) fx fy Aoi.OTHER 0) Ha)
    as (a & evs & -> & Ha' & _). cbn [need obind].
  do 3 eexists. split; [done|]. split; [by split|]. split; [apply lookup_insert_eq|done].
Qed.

(** A 60 by 40 map, and one with a troop of ten horsemen at (1, 1). *)
Definition demo_map : map_manager :=
  match m0 ←o SlgMapManager (mkConfig 60 40 1 5); init m0 with
  | Ok m => m
  | _ => mkMap (mkConfig 0 0 1 5) [] ∅ ∅ 1 1 (Aoi.GridAoi.mkAoi (Aoi.GridAoi.mkConfig 1000 1000 50 1) ∅ [] ∅ false) 0
  end.

Lemma demo_map_wf : map_wf demo_map.
Proof.
  unfold demo_map. destruct (init_wf (mkConfig 60 40 1 5)) as (m & Hm & W); [done|done|]. by rewrite Hm.
Qed.

Definition demo_troop : map_manager :=
  match create_troop 7 1 1 0 10 0 0 demo_map with Ok (_, m, _) => m | _ => demo_map end.

Lemma demo_troop_wf : map_wf demo_troop.
Proof.
  unfold demo_troop.
  destruct (create_troop_wf 7 1 1 0 10 0 0 demo_map demo_map_wf) as (i & m & t & -> & W & _). exact W.
Qed.

#[local] Instance demo_order : IterOrder Z := key_order Z.

Definition demo_moved (tx ty : Z) : map_manager :=
  match move_troop 1 tx ty 1000 demo_troop with Ok (_, m, _) => m | _ => demo_troop end.

Lemma cell_change_spec_witness :
  is_valid_pos demo_map 3 2 = true /\
  exists c, get_cell 3 2 demo_map = Ok (Some c) /\
    match Some (with_owner 9 0 c) with
    | None => update_cell_owner 3 2 9 0 demo_map = Ok (false, demo_map, [])
    | Some c' => exists m', update_cell_owner 3 2 9 0 demo_map = Ok (true, m', [c']) /\ map_wf m' /\
        get_cell 3 2 m' = Ok (Some c') /\
        (forall qx qy, (qx, qy) <> (3, 2) -> get_cell qx qy m' = get_cell qx qy demo_map) /\
        cities_ m' = cities_ demo_map /\ troops_ m' = troops_ demo_map
    end.
Proof.
  split; [vm_compute; done|].
  exact (cell_change_spec demo_map 3 2 (fun c => Some (with_owner 9 0 c)) demo_map_wf).
Defined.


Definition demo_after (now : Z) (m : map_manager) : map_manager :=
  match update_troops now m with Ok (m', _) => m' | _ => m end.

Lemma demo_move tx ty : exists ev, move_troop 1 tx ty 1000 demo_troop = Ok (true, demo_moved tx ty, ev).
Proof.
  unfold demo_moved, move_troop.
  destruct (troops_ demo_troop !! 1) as [t|] eqn:L; [|by vm_compute in L].
  vm_compute in L. injection L as <-. rewrite decide_False by by intros H; apply H. cbn. by eexists.
Qed.

Lemma demo_update_marching : exists ev, update_troops 1067 (demo_moved 5 9) = Ok (demo_after 1067 (demo_moved 5 9), ev).
Proof. eexists. vm_compute. reflexivity. Qed.

Lemma march_outcome_witness :
  exists t t2 cell, get_troop 1 demo_troop = Some t /\ get_troop 1 (demo_after 1067 (demo_moved 5 9)) = Some t2 /\
    get_cell 5 9 demo_troop = Ok (Some cell) /\ total_soldiers t2 = total_soldiers t /\
    match march_speed t with
    | Ok speed =>
        if 1000 + Z.quot (calculate_distance (from_x t) (from_y t) 5 9 * 1000) speed <=? 1067 then
          (current_x t2, current_y t2) = (5, 9) /\
          state t2 = (if has_resource cell then GATHERING
                      else if has_owner cell && negb (owner_id cell =? troop_owner t) then BATTLE else IDLE) /\
          (state t2 = IDLE -> (from_x t2, from_y t2) = (5, 9))
        else state t2 = MARCHING
    | _ => False
    end.
Proof.
  destruct (demo_move 5 9) as [ev Hm]. destruct demo_update_marching as [evs Hu].
  exact (march_outcome 1 5 9 1000 demo_troop _ ev 1067 _ evs demo_troop_wf eq_refl Hm Hu).
Defined.

Lemma off_map_march_undefined_witness :
  exists ev t, move_troop 1 5 99 1000 demo_troop = Ok (true, demo_moved 5 99, ev) /\
    get_troop 1 demo_troop = Some t /\ march_speed t = Ok 118 /\
    (forall r, update_troops 9000 (demo_moved 5 99) <> Ok r).
Proof.
  destruct (demo_move 5 99) as [ev Hm].
  destruct (get_troop 1 demo_troop) as [t|] eqn:L; [|by vm_compute in L].
  pose proof L as L'. vm_compute in L'. injection L' as <-.
  eexists ev, _. split; [exact Hm|]. split; [done|]. split; [vm_compute; reflexivity|].
  eapply (off_map_march_undefined 1 5 99 1000 demo_troop (demo_moved 5 99) ev 9000 118 _ demo_troop_wf);
    [right; vm_compute; done|exact Hm|exact L|vm_compute; reflexivity|vm_compute; done].
Defined.

Definition demo_cancelled : map_manager := (cancel_troop 1 (demo_moved 5 9)).1.2.

Lemma demo_cancel : exists ev, cancel_troop 1 (demo_moved 5 9) = (true, demo_cancelled, ev).
Proof. eexists. vm_compute. reflexivity. Qed.

Lemma demo_update_cancelled : exists ev, update_troops 1040 demo_cancelled = Ok (demo_after 1040 demo_cancelled, ev).
Proof. eexists. vm_compute. reflexivity. Qed.

Lemma cancelled_troop_jumps_home_witness :
  exists t t2, get_troop 1 (demo_moved 5 9) = Some t /\ start_time t < 1040 < arrive_time t /\
    get_troop 1 (demo_after 1040 demo_cancelled) = Some t2 /\ (current_x t2, current_y t2) = (from_x t, from_y t).
Proof.
  destruct demo_cancel as [ev Hc]. destruct demo_update_cancelled as [evs Hu].
  destruct (get_troop 1 (demo_moved 5 9)) as [t|] eqn:L; [|by vm_compute in L].
  pose proof L as L'. vm_compute in L'. injection L' as <-.
  edestruct (cancelled_troop_jumps_home 1 (demo_moved 5 9) demo_cancelled ev 1040 (demo_after 1040 demo_cancelled) evs _ L) as (t2 & H2 & Hp); [cbn [start_time arrive_time]; lia|exact Hc|exact Hu|].
  eexists _, t2. split; [exact L|]. split; [cbn [start_time arrive_time]; lia|]. exact (conj H2 Hp).
Defined.

Lemma generate_cities_spread_witness :
  exists m', generate_cities Z.of_nat (fun _ => "City"%string) 3 demo_map = Ok m' /\ map_wf m' /\ spread m' /\
    founded demo_map m' /\ cities_ demo_map ⊆ cities_ m' /\
    Z.of_nat (size (cities_ m')) <= Z.of_nat (size (cities_ demo_map)) + 3.
Proof.
  apply (generate_cities_spread Z.of_nat (fun _ => "City"%string) 3 demo_map demo_map_wf); [lia| |done|by vm_compute].
  intros i j c d Hi. vm_compute in Hi. done.
Defined.
