(* ===== verification/Discovery.v ===== *)
(** * Discovery: the in-memory service registry of src/discovery/service_discovery.cpp

    [MemoryServiceDiscovery] keeps the instances by id, the ids of each service
    and the listeners of each service (a listener is a number; its calls are
    the sequence of what it was given).  [now] is [current_timestamp_ms()] at
    the call.  Every method holds [mutex_] from start to end, so the calls of
    several threads, the cleanup thread's among them, are a sequence.

    The abstract registry is one map from instance id to instance;
    [discovery_refines_registry] shows that no caller can tell the two apart. *)

From S2P Require Import Prelude.
From S2P Require Import Protocol.
From S2P Require Import Wire.
From S2P Require Import Effects.

Record ServiceInstance := mkInstance {
  service_id : str;
  instance_id : str;
  host : str;
  port : Z;
  metadata : gmap str str;
  register_time : Z;
  heartbeat_time : Z;
  is_alive : bool
}.

#[global] Instance ServiceInstance_eq_dec : EqDecision ServiceInstance.
Proof. solve_decision. Defined.

Definition ServiceInstance_default : ServiceInstance := mkInstance [] [] [] 0 ∅ 0 0 false.

Definition registered (now : Z) (i : ServiceInstance) : ServiceInstance :=
  mkInstance (service_id i) (instance_id i) (host i) (port i) (metadata i) now now true.
Definition beaten (now : Z) (i : ServiceInstance) : ServiceInstance :=
  mkInstance (service_id i) (instance_id i) (host i) (port i) (metadata i) (register_time i) now true.

Record discovery := mkDiscovery {
  instances_ : gmap str ServiceInstance;
  service_index_ : gmap str (gset str);
  listeners_ : gmap str (list Z);
  heartbeat_timeout_ms_ : Z;
  cleanup_interval_ms_ : Z;
  cleanup_running_ : bool
}.

Definition MemoryServiceDiscovery (timeout interval : Z) : discovery :=
  mkDiscovery ∅ ∅ ∅ timeout interval (0 <? interval).

Definition stop_cleanup_thread (d : discovery) : discovery :=
  mkDiscovery (instances_ d) (service_index_ d) (listeners_ d) (heartbeat_timeout_ms_ d) (cleanup_interval_ms_ d) false.

Definition set_instances (m : gmap str ServiceInstance) (ix : gmap str (gset str)) (d : discovery) : discovery :=
  mkDiscovery m ix (listeners_ d) (heartbeat_timeout_ms_ d) (cleanup_interval_ms_ d) (cleanup_running_ d).
Definition set_listeners (l : gmap str (list Z)) (d : discovery) : discovery :=
  mkDiscovery (instances_ d) (service_index_ d) l (heartbeat_timeout_ms_ d) (cleanup_interval_ms_ d) (cleanup_running_ d).

(** A listener's call. *)
Record notice := mkNotice { listener : Z; about_service : str; about : ServiceInstance }.

Definition register_service (now : Z) (instance : ServiceInstance) (d : discovery) : bool * discovery * list notice :=
  let i := instance_id instance in
  if decide (i = []) then (false, d, [])
  else if decide (is_Some (instances_ d !! i)) then (false, d, [])
  else
    let new_instance := registered now instance in
    let s := service_id instance in
    (true,
     set_instances (<[i := new_instance]> (instances_ d))
       (<[s := {[i]} ∪ default ∅ (service_index_ d !! s)]> (service_index_ d)) d,
     (fun l => mkNotice l s new_instance) <$> default [] (listeners_ d !! s)).

(** Erasing an instance and its entry of the index. *)
Definition erase_instance (i : str) (inst : ServiceInstance) (d : discovery) : discovery :=
  set_instances (delete i (instances_ d))
    (match service_index_ d !! service_id inst with
     | Some ids =>
         if decide (ids ∖ {[i]} = ∅) then delete (service_id inst) (service_index_ d)
         else <[service_id inst := ids ∖ {[i]}]> (service_index_ d)
     | None => service_index_ d
     end) d.

Definition deregister_service (i : str) (d : discovery) : bool * discovery :=
  match instances_ d !! i with
  | None => (false, d)
  | Some inst => (true, erase_instance i inst d)
  end.

Definition heartbeat (now : Z) (i : str) (d : discovery) : bool * discovery :=
  match instances_ d !! i with
  | None => (false, d)
  | Some inst => (true, set_instances (<[i := beaten now inst]> (instances_ d)) (service_index_ d) d)
  end.

Definition get_service_instance (i : str) (d : discovery) : option ServiceInstance := instances_ d !! i.

Definition add_listener (s : str) (l : Z) (d : discovery) : discovery :=
  set_listeners (<[s := default [] (listeners_ d !! s) ++ [l]]> (listeners_ d)) d.
Definition remove_listener (s : str) (d : discovery) : discovery := set_listeners (delete s (listeners_ d)) d.

Definition instance_is_alive (i : str) (d : discovery) : bool :=
  match instances_ d !! i with Some inst => is_alive inst | None => false end.

(** The instances [cleanup_expired_instances] removes. *)
Definition expired (now : Z) (d : discovery) (inst : ServiceInstance) : bool :=
  is_alive inst && (heartbeat_timeout_ms_ d <? now - heartbeat_time inst).

(** Its second loop's body. *)
Definition cleanup_one (d : discovery) (i : str) : discovery :=
  match instances_ d !! i with Some inst => erase_instance i inst d | None => d end.

Section Order.
Context {IO : IterOrder str}.

Definition discover_services (s : str) (d : discovery) : list ServiceInstance :=
  match service_index_ d !! s with
  | None => []
  | Some ids => filter (fun inst => is_alive inst = true) (omap (fun i => instances_ d !! i) (iter_set ids))
  end.

Definition get_all_services (d : discovery) : list str := (iter (service_index_ d)).*1.

Definition cleanup_expired_instances (now : Z) (d : discovery) : discovery :=
  foldl cleanup_one d (filter (fun p => expired now d p.2 = true) (iter (instances_ d))).*1.
End Order.

(** ** The index's invariant *)

(** Instances are stored under their own, non-empty id, are alive and in their
    service's index; the index holds nothing else and no empty set. *)
Record discovery_wf (d : discovery) : Prop := {
  wf_ids : forall i inst, instances_ d !! i = Some inst -> instance_id inst = i /\ i <> [] /\ is_alive inst = true;
  wf_index : forall s i,
    (exists ids, service_index_ d !! s = Some ids /\ i ∈ ids) <->
    exists inst, instances_ d !! i = Some inst /\ service_id inst = s;
  wf_nonempty : forall s, service_index_ d !! s <> Some ∅
}.

Lemma discovery_init_wf t n : discovery_wf (MemoryServiceDiscovery t n).
Proof.
  split; cbn; intros *; rewrite ?lookup_empty; [done| |done].
  by split; intros (? & ? & _).
Qed.

Lemma index_insert (ix : gmap str (gset str)) s i s' j :
  (exists ids, <[s := {[i]} ∪ default ∅ (ix !! s)]> ix !! s' = Some ids /\ j ∈ ids) <->
  (s' = s /\ j = i) \/ exists ids, ix !! s' = Some ids /\ j ∈ ids.
Proof.
  destruct (decide (s' = s)) as [->|Hne].
  - rewrite lookup_insert_eq. split.
    + intros (ids & [= <-] & [->%elem_of_singleton|Hj]%elem_of_union); [by left|right].
      destruct (ix !! s) as [ids|]; [by exists ids|by apply elem_of_empty in Hj].
    + intros [[_ ->]|(ids & -> & Hj)]; (eexists; split; [done|]); set_solver.
  - rewrite lookup_insert_ne by done. naive_solver.
Qed.

Lemma register_wf now inst d : discovery_wf d -> discovery_wf (register_service now inst d).1.2.
Proof.
  intros [Hi Hx Hn]. unfold register_service. case_decide as H0; [by split|]. case_decide as Hf; [by split|].
  cbn. split; cbn.
  - intros i x [[<- <-]|[_ Hl]]%lookup_insert_Some; [done|by apply Hi].
  - intros s i. rewrite index_insert, Hx. split.
    + intros [[-> ->]|(x & Hl & Hs)]; [exists (registered now inst); by rewrite lookup_insert_eq|].
      exists x. rewrite lookup_insert_ne; [done|]. intros <-. apply Hf. by exists x.
    + intros (x & [[<- <-]|[_ Hl]]%lookup_insert_Some & <-); [by left|right; by exists x].
  - intros s [[<- He]|[_ Hl]]%lookup_insert_Some; [set_solver|by apply (Hn s)].
Qed.

(** After an erasure the index answers as before, less the one id. *)
Lemma erase_index d i inst s j : discovery_wf d -> instances_ d !! i = Some inst ->
  (exists ids, service_index_ (erase_instance i inst d) !! s = Some ids /\ j ∈ ids) <->
  j <> i /\ exists ids, service_index_ d !! s = Some ids /\ j ∈ ids.
Proof.
  intros [Hi Hx Hn] L. cbn.
  destruct (proj2 (Hx (service_id inst) i) ltac:(by exists inst)) as (ids & Hids & Hmem). rewrite Hids.
  assert (forall s', s' <> service_id inst -> (exists ids', service_index_ d !! s' = Some ids' /\ j ∈ ids') -> j <> i) as Hne.
  { intros s' Hs' (x & Hl & Hs)%Hx ->. cbn in L. congruence. }
  destruct (decide (s = service_id inst)) as [->|Hs].
  - case_decide as He.
    + rewrite lookup_delete_eq. split; [by intros (? & ? & _)|].
      rewrite Hids. intros [Hji (x & [= <-] & Hj)]. set_solver.
    + rewrite lookup_insert_eq, Hids. split.
      * intros (x & [= <-] & Hj). split; [set_solver|]. exists ids. set_solver.
      * intros [Hji (x & [= <-] & Hj)]. eexists. split; [done|]. set_solver.
  - case_decide as He; rewrite ?lookup_delete_ne, ?lookup_insert_ne by done;
      (split; [intros He'; split; [by apply (Hne s)|done]|by intros [_ He']]).
Qed.

Lemma erase_wf d i inst : discovery_wf d -> instances_ d !! i = Some inst -> discovery_wf (erase_instance i inst d).
Proof.
  intros W L. pose proof W as [Hi Hx Hn]. split.
  - intros j x. cbn. intros [_ Hl]%lookup_delete_Some. by apply Hi.
  - intros s j. rewrite (erase_index d i inst s j W L), Hx. cbn. split.
    + intros [Hji (x & Hl & Hs)]. exists x. by rewrite lookup_delete_ne.
    + intros (x & [Hne Hl]%lookup_delete_Some & Hs). split; [done|by exists x].
  - intros s Hs. cbn in Hs. destruct (service_index_ d !! service_id inst) as [ids|]; [|by apply (Hn s)].
    case_decide as He.
    + apply lookup_delete_Some in Hs as [_ Hs]. by apply (Hn s).
    + apply lookup_insert_Some in Hs as [[_ Hs]|[_ Hs]]; [done|by apply (Hn s)].
Qed.

Lemma heartbeat_wf now i d : discovery_wf d -> discovery_wf (heartbeat now i d).2.
Proof.
  intros W. pose proof W as [Hi Hx Hn]. unfold heartbeat. destruct (instances_ d !! i) as [inst|] eqn:L; [|done].
  cbn. split; cbn; [| |done].
  - intros j x [[<- <-]|[_ Hl]]%lookup_insert_Some; [|by apply Hi]. by destruct (Hi i inst L) as (? & ? & _).
  - intros s j. rewrite Hx. destruct (decide (j = i)) as [->|Hne]; [|by rewrite lookup_insert_ne].
    rewrite lookup_insert_eq, L. split; intros (x & [= <-] & <-); by eexists.
Qed.

Lemma cleanup_fold_spec ids d : discovery_wf d ->
  discovery_wf (foldl cleanup_one d ids) /\ listeners_ (foldl cleanup_one d ids) = listeners_ d /\
  heartbeat_timeout_ms_ (foldl cleanup_one d ids) = heartbeat_timeout_ms_ d /\
  forall j, instances_ (foldl cleanup_one d ids) !! j = if decide (j ∈ ids) then None else instances_ d !! j.
Proof.
  revert d. induction ids as [|i ids IH]; intros d W; cbn [foldl].
  { split_and!; try done. }
  assert (discovery_wf (cleanup_one d i) /\ listeners_ (cleanup_one d i) = listeners_ d /\
    heartbeat_timeout_ms_ (cleanup_one d i) = heartbeat_timeout_ms_ d /\
    instances_ (cleanup_one d i) = delete i (instances_ d)) as (W1 & Hl & Ht & Hd).
  { unfold cleanup_one. destruct (instances_ d !! i) as [inst|] eqn:L.
    - split; [by apply erase_wf|done].
    - split_and!; try done. by rewrite delete_id. }
  destruct (IH _ W1) as (W2 & Hl2 & Ht2 & Hd2). split; [done|]. split; [by rewrite Hl2|]. split; [by rewrite Ht2|].
  intros j. rewrite Hd2, Hd. destruct (decide (j = i)) as [->|Hne].
  - rewrite lookup_delete_eq. rewrite (decide_True _ _ (list_elem_of_here _ _)). by case_decide.
  - rewrite lookup_delete_ne by done. do 2 case_decide; set_solver.
Qed.

(** ** The abstract registry *)

Record registry := mkRegistry { entries : gmap str ServiceInstance; watchers : gmap str (list Z) }.

Inductive op :=
| Register (inst : ServiceInstance) | Deregister (i : str) | Heartbeat (i : str) | Cleanup
| Discover (s : str) | Get (i : str) | Alive (i : str) | Services
| Listen (s : str) (l : Z) | Unlisten (s : str).

Inductive answer :=
| Flag (b : bool) (ns : list notice) | Found (l : list ServiceInstance) | One (o : option ServiceInstance)
| Names (l : list str) | Nothing.

(** Answers that are sets have no order. *)
Definition agree (a b : answer) : Prop :=
  match a, b with
  | Found l, Found l' => l ≡ₚ l'
  | Names l, Names l' => l ≡ₚ l'
  | _, _ => a = b
  end.

Definition spec_op (timeout now : Z) (o : op) (r : registry) : answer * registry :=
  let m := entries r in
  match o with
  | Register inst =>
      if decide (instance_id inst = [] \/ is_Some (m !! instance_id inst)) then (Flag false [], r)
      else (Flag true ((fun l => mkNotice l (service_id inst) (registered now inst))
                         <$> default [] (watchers r !! service_id inst)),
            mkRegistry (<[instance_id inst := registered now inst]> m) (watchers r))
  | Deregister i => (Flag (bool_decide (is_Some (m !! i))) [], mkRegistry (delete i m) (watchers r))
  | Heartbeat i => (Flag (bool_decide (is_Some (m !! i))) [], mkRegistry (alter (beaten now) i m) (watchers r))
  | Cleanup => (Nothing, mkRegistry (filter (fun p => now - heartbeat_time p.2 <= timeout) m) (watchers r))
  | Discover s => (Found (filter (fun inst => service_id inst = s) (map_to_list m).*2), r)
  | Get i => (One (m !! i), r)
  | Alive i => (Flag (bool_decide (is_Some (m !! i))) [], r)
  | Services => (Names (elements (list_to_set (service_id <$> (map_to_list m).*2) : gset str)), r)
  | Listen s l => (Nothing, mkRegistry m (<[s := default [] (watchers r !! s) ++ [l]]> (watchers r)))
  | Unlisten s => (Nothing, mkRegistry m (delete s (watchers r)))
  end.

Fixpoint spec_ops (timeout : Z) (os : list (Z * op)) (r : registry) : list answer * registry :=
  match os with
  | [] => ([], r)
  | (now, o) :: os' =>
      let '(a, r1) := spec_op timeout now o r in
      let '(al, r2) := spec_ops timeout os' r1 in (a :: al, r2)
  end.

Section Refinement.
Context {IO : IterOrder str}.

Definition run_op (now : Z) (o : op) (d : discovery) : answer * discovery :=
  match o with
  | Register inst => let '(b, d', ns) := register_service now inst d in (Flag b ns, d')
  | Deregister i => let '(b, d') := deregister_service i d in (Flag b [], d')
  | Heartbeat i => let '(b, d') := heartbeat now i d in (Flag b [], d')
  | Cleanup => (Nothing, cleanup_expired_instances now d)
  | Discover s => (Found (discover_services s d), d)
  | Get i => (One (get_service_instance i d), d)
  | Alive i => (Flag (instance_is_alive i d) [], d)
  | Services => (Names (get_all_services d), d)
  | Listen s l => (Nothing, add_listener s l d)
  | Unlisten s => (Nothing, remove_listener s d)
  end.

Fixpoint run_ops (os : list (Z * op)) (d : discovery) : list answer * discovery :=
  match os with
  | [] => ([], d)
  | (now, o) :: os' =>
      let '(a, d1) := run_op now o d in
      let '(al, d2) := run_ops os' d1 in (a :: al, d2)
  end.

Definition represents (d : discovery) (r : registry) : Prop :=
  discovery_wf d /\ instances_ d = entries r /\ listeners_ d = watchers r.

Lemma cleanup_entries now d : discovery_wf d ->
  instances_ (cleanup_expired_instances now d) =
  filter (fun p => now - heartbeat_time p.2 <= heartbeat_timeout_ms_ d) (instances_ d).
Proof.
  intros W. unfold cleanup_expired_instances.
  destruct (cleanup_fold_spec (filter (fun p => expired now d p.2 = true) (iter (instances_ d))).*1 d W)
    as (_ & _ & _ & Hd).
  apply map_eq. intros j. rewrite Hd. set (ids := (filter _ _).*1).
  assert (Hids : j ∈ ids <-> exists inst, instances_ d !! j = Some inst /\ expired now d inst = true).
  { unfold ids. rewrite list_elem_of_fmap. split.
    - intros ([k inst] & -> & [He Hk%elem_of_iter]%list_elem_of_filter). by exists inst.
    - intros (inst & L & He). exists (j, inst). split; [done|]. apply list_elem_of_filter. split; [done|].
      by apply elem_of_iter. }
  destruct (instances_ d !! j) as [inst|] eqn:L.
  - pose proof (wf_ids d W j inst L) as (_ & _ & Ha).
    assert (expired now d inst = true <-> ~ now - heartbeat_time inst <= heartbeat_timeout_ms_ d) as Hex.
    { unfold expired. rewrite Ha. cbn. rewrite Z.ltb_lt. lia. }
    symmetry. case_decide as Hj.
    + apply map_lookup_filter_None. right. intros x Hx. rewrite L in Hx. injection Hx as <-.
      apply Hids in Hj as (y & [= <-] & He). by apply Hex.
    + apply map_lookup_filter_Some. split; [done|]. cbn.
      destruct (decide (now - heartbeat_time inst <= heartbeat_timeout_ms_ d)) as [|Hn]; [done|].
      exfalso. apply Hj, Hids. exists inst. split; [done|]. by apply Hex.
  - symmetry. assert (filter (fun p : str * ServiceInstance => now - heartbeat_time p.2 <= heartbeat_timeout_ms_ d)
      (instances_ d) !! j = None) as -> by (apply map_lookup_filter_None; by left).
    by case_decide.
Qed.

Lemma cleanup_wf now d : discovery_wf d -> discovery_wf (cleanup_expired_instances now d).
Proof. intros W. by apply cleanup_fold_spec. Qed.

Lemma NoDup_values d : discovery_wf d -> NoDup (map_to_list (instances_ d)).*2.
Proof.
  intros W. apply NoDup_fmap_2_strong; [|apply NoDup_map_to_list].
  intros [i a] [j b] Ha%elem_of_map_to_list Hb%elem_of_map_to_list. cbn. intros <-.
  destruct (wf_ids d W i a Ha) as (<- & _). by destruct (wf_ids d W j a Hb) as (<- & _).
Qed.

Lemma discover_perm s d : discovery_wf d ->
  discover_services s d ≡ₚ filter (fun inst => service_id inst = s) (map_to_list (instances_ d)).*2.
Proof.
  intros W. apply NoDup_Permutation.
  - unfold discover_services. destruct (service_index_ d !! s) as [ids|]; [|apply NoDup_nil_2].
    apply NoDup_filter, NoDup_omap; [|apply NoDup_iter_set].
    intros i j inst _ _ Hi Hj. destruct (wf_ids d W i inst Hi) as (<- & _).
    by destruct (wf_ids d W j inst Hj) as (<- & _).
  - by apply NoDup_filter, NoDup_values.
  - intros inst. rewrite list_elem_of_filter, list_elem_of_fmap.
    transitivity (service_id inst = s /\ instances_ d !! instance_id inst = Some inst).
    + unfold discover_services. split.
      * destruct (service_index_ d !! s) as [ids|] eqn:Es; [|by intros ?%elem_of_nil].
        intros [_ (i & Hi%elem_of_iter_set & L)%list_elem_of_omap]%list_elem_of_filter.
        destruct (wf_ids d W i inst L) as (<- & _). split; [|done].
        destruct (proj1 (wf_index d W s (instance_id inst)) ltac:(by exists ids)) as (x & Hx & Hs). by simplify_eq.
      * intros [Hs L]. destruct (proj2 (wf_index d W s (instance_id inst)) ltac:(by exists inst)) as (ids & -> & Hm).
        apply list_elem_of_filter. split; [by apply (wf_ids d W _ _ L)|].
        apply list_elem_of_omap. exists (instance_id inst). split; [by apply elem_of_iter_set|done].
    + split.
      * intros [Hs L]. split; [done|]. exists (instance_id inst, inst). split; [done|]. by apply elem_of_map_to_list.
      * intros [Hs ([i x] & -> & L%elem_of_map_to_list)]. cbn [snd] in *. split; [done|]. by destruct (wf_ids d W i x L) as (-> & _).
Qed.

Lemma services_perm d : discovery_wf d ->
  get_all_services d ≡ₚ elements (list_to_set (service_id <$> (map_to_list (instances_ d)).*2) : gset str).
Proof.
  intros W. apply NoDup_Permutation; [apply NoDup_iter|apply NoDup_elements|].
  intros s. rewrite elem_of_elements, elem_of_list_to_set. unfold get_all_services.
  rewrite !list_elem_of_fmap. split.
  - intros ([s' ids] & -> & L%elem_of_iter). cbn.
    destruct (set_choose_or_empty ids) as [[i Hi]|He].
    + destruct (proj1 (wf_index d W s' i) ltac:(by exists ids)) as (inst & Hl & Hs).
      exists inst. split; [done|]. apply list_elem_of_fmap. exists (i, inst). split; [done|].
      by apply elem_of_map_to_list.
    + exfalso. apply (wf_nonempty d W s'). rewrite L. f_equal. by apply leibniz_equiv.
  - intros (inst & -> & ([i x] & -> & L%elem_of_map_to_list)%list_elem_of_fmap). cbn.
    destruct (proj2 (wf_index d W (service_id x) i) ltac:(by exists x)) as (ids & Hids & _).
    exists (service_id x, ids). split; [done|]. by apply elem_of_iter.
Qed.

(** One operation, on the implementation and on the registry. *)
Lemma run_op_refines now o d r : represents d r ->
  agree (run_op now o d).1 (spec_op (heartbeat_timeout_ms_ d) now o r).1 /\
  represents (run_op now o d).2 (spec_op (heartbeat_timeout_ms_ d) now o r).2 /\
  heartbeat_timeout_ms_ (run_op now o d).2 = heartbeat_timeout_ms_ d.
Proof.
  unfold represents. destruct r as [m ws]. intros (W & He & Hl). cbn in He, Hl. subst m ws.
  destruct o as [inst|i|i| |s|i|i| |s l|s]; cbn [run_op spec_op entries watchers].
  - pose proof (register_wf now inst d W) as W'. revert W'. unfold register_service.
    case_decide as H1; [rewrite decide_True by (by left); by intros _|].
    case_decide as H2; [rewrite decide_True by (by right); by intros _|].
    rewrite decide_False by (by intros [|]). intros W'. by split_and!.
  - unfold deregister_service. destruct (instances_ d !! i) as [inst|] eqn:L; cbn.
    + split_and!; try done. by apply erase_wf.
    + rewrite ?bool_decide_eq_false_2 by by intros [? ?]. split_and!; try done. cbn. by rewrite delete_id.
  - pose proof (heartbeat_wf now i d W) as W'. revert W'. unfold heartbeat.
    destruct (instances_ d !! i) as [inst|] eqn:L; cbn; intros W'.
    + split_and!; try done. cbn. apply map_eq. intros j. destruct (decide (j = i)) as [->|Hne].
      * by rewrite lookup_insert_eq, lookup_alter_eq, L.
      * by rewrite lookup_insert_ne, lookup_alter_ne.
    + rewrite ?bool_decide_eq_false_2 by by intros [? ?]. split_and!; try done. cbn. symmetry. apply map_eq. intros j.
      destruct (decide (j = i)) as [->|Hne]; [by rewrite lookup_alter_eq, L|by rewrite lookup_alter_ne].
  - cbn. split; [done|]. rewrite cleanup_entries by done. cbn.
    destruct (cleanup_fold_spec (filter (fun p => expired now d p.2 = true) (iter (instances_ d))).*1 d W)
      as (W' & Hl & Ht & _). by split_and!.
  - cbn. split_and!; try done. by apply discover_perm.
  - by split_and!.
  - cbn. split_and!; try done. unfold instance_is_alive. destruct (instances_ d !! i) as [inst|] eqn:L.
    + by destruct (wf_ids d W i inst L) as (_ & _ & ->).
    + by rewrite ?bool_decide_eq_false_2 by by intros [? ?].
  - cbn. split_and!; try done. by apply services_perm.
  - cbn. split_and!; try done. by destruct W.
  - cbn. split_and!; try done. by destruct W.
Qed.

Lemma run_ops_refines os d r : represents d r ->
  Forall2 agree (run_ops os d).1 (spec_ops (heartbeat_timeout_ms_ d) os r).1 /\
  represents (run_ops os d).2 (spec_ops (heartbeat_timeout_ms_ d) os r).2.
Proof.
  revert d r. induction os as [|[now o] os IH]; intros d r R; cbn [run_ops spec_ops]; [by split|].
  pose proof (run_op_refines now o d r R) as (Ha & R1 & Ht).
  destruct (run_op now o d) as [a d1], (spec_op _ now o r) as [b r1]. cbn in *.
  specialize (IH d1 r1 R1). rewrite Ht in IH.
  destruct (run_ops os d1) as [al d2], (spec_ops _ os r1) as [bl r2]. cbn in *.
  destruct IH as [? ?]. split; [by constructor|done].
Qed.

(** C8: Whatever the calls and their times, and whatever order the hash tables
    are iterated in, a freshly built discovery answers every call as one map
    from instance id to instance does: it discovers exactly the registered
    instances of a service, each once, cleans up exactly those whose last
    heartbeat is too old, and tells every listener of a registration. *)
Theorem discovery_refines_registry timeout interval os :
  let d := run_ops os (MemoryServiceDiscovery timeout interval) in
  let r := spec_ops timeout os (mkRegistry ∅ ∅) in
  Forall2 agree d.1 r.1 /\ instances_ d.2 = entries r.2 /\ discovery_wf d.2.
Proof.
  destruct (run_ops_refines os (MemoryServiceDiscovery timeout interval) (mkRegistry ∅ ∅)) as (Ha & W & He & _).
  { split_and!; try done. apply discovery_init_wf. }
  by split_and!.
Qed.
End Refinement.
