(* ===== verification/LoadBalance.v ===== *)
(** * LoadBalance: the balancers of src/loadbalance/load_balancer.cpp

    Three implementations of the interface [LoadBalancer] choose among the
    instances of a service: in turn, at random, and by smooth weighted
    round-robin.  [discover] is [discovery_->discover_services], what
    Discovery.v models; [pick k n] is what the [k]-th draw of the standard
    library's [uniform_int_distribution(0, n - 1)] gives.  [int] sums of the
    weights are [Undefined] when they overflow; [current_index_] is a [size_t]
    and wraps. *)

From S2P Require Import Prelude.
From S2P Require Import Wire.
From S2P Require Import Discovery.

Inductive LoadBalanceStrategy := ROUND_ROBIN | RANDOM | LEAST_CONNECTIONS | WEIGHTED_ROUND_ROBIN | WEIGHTED_RANDOM.

(** What the three classes have in common. *)
Record base := mkBase {
  strategy_ : LoadBalanceStrategy;
  lb_instances_ : list ServiceInstance;
  weights_ : gmap str Z
}.

Definition base_init (s : LoadBalanceStrategy) : base := mkBase s [] ∅.

Definition set_strategy (s : LoadBalanceStrategy) (b : base) : base := mkBase s (lb_instances_ b) (weights_ b).
Definition set_weight (i : str) (w : Z) (b : base) : base :=
  mkBase (strategy_ b) (lb_instances_ b) (<[i := w]> (weights_ b)).
Definition get_weight (b : base) (i : str) : Z := default 1 (weights_ b !! i).
Definition with_instances (l : list ServiceInstance) (b : base) : base := mkBase (strategy_ b) l (weights_ b).

(** [class LoadBalancer]: its selection and update, over the implementation's
    state; what every implementation promises is that it answers only with an
    instance it holds and that it answers whenever it holds one or is told of
    one. *)
Class LoadBalancer (S : Type) := {
  lb_base : S -> base;
  select_instance : (str -> list ServiceInstance) -> str -> S -> outcome (option ServiceInstance * S);
  update_instances : list ServiceInstance -> S -> S
}.

(** The list the selection is made from: the cached one, unless it is empty. *)
Definition fetched (discover : str -> list ServiceInstance) (service : str) (b : base) : list ServiceInstance :=
  match lb_instances_ b with [] => discover service | l => l end.

Class LoadBalancerLaws (S : Type) `{LoadBalancer S} : Prop := {
  select_among : forall discover service s out s',
    select_instance discover service s = Ok (out, s') ->
    lb_instances_ (lb_base s') ≡ₚ fetched discover service (lb_base s) /\
    (forall inst, out = Some inst -> inst ∈ fetched discover service (lb_base s));
  update_holds : forall l s, lb_instances_ (lb_base (update_instances l s)) = l
}.

(** ** Round robin *)

Record round_robin := mkRoundRobin { rr_base : base; current_index_ : Z }.

Definition RoundRobinLoadBalancer : round_robin := mkRoundRobin (base_init ROUND_ROBIN) 0.

Definition rr_select (discover : str -> list ServiceInstance) (service : str) (s : round_robin)
  : outcome (option ServiceInstance * round_robin) :=
  let l := fetched discover service (rr_base s) in
  let b := with_instances l (rr_base s) in
  if bool_decide (l = []) then Ok (None, mkRoundRobin b (current_index_ s))
  else
    let index := current_index_ s mod Z.of_nat (length l) in
    out ←o need (l !! Z.to_nat index);
    Ok (Some out, mkRoundRobin b (u64 (current_index_ s + 1))).

Definition rr_update (l : list ServiceInstance) (s : round_robin) : round_robin :=
  mkRoundRobin (with_instances l (rr_base s)) (current_index_ s).

#[export] Instance round_robin_balancer : LoadBalancer round_robin :=
  {| lb_base := rr_base; select_instance := rr_select; update_instances := rr_update |}.

(** ** Random *)

Record random := mkRandom { rd_base : base; rng_draws : nat }.

Definition RandomLoadBalancer : random := mkRandom (base_init RANDOM) 0.

Section RandomProgram.
Context (pick : nat -> nat -> nat).

Definition rd_select (discover : str -> list ServiceInstance) (service : str) (s : random)
  : outcome (option ServiceInstance * random) :=
  let l := fetched discover service (rd_base s) in
  let b := with_instances l (rd_base s) in
  if bool_decide (l = []) then Ok (None, mkRandom b (rng_draws s))
  else
    out ←o need (l !! pick (rng_draws s) (length l));
    Ok (Some out, mkRandom b (S (rng_draws s))).

Definition rd_update (l : list ServiceInstance) (s : random) : random :=
  mkRandom (with_instances l (rd_base s)) (rng_draws s).

#[export] Instance random_balancer : LoadBalancer random :=
  {| lb_base := rd_base; select_instance := rd_select; update_instances := rd_update |}.
End RandomProgram.

(** ** Smooth weighted round-robin *)

Record weighted := mkWeighted { wr_base : base; current_weights_ : gmap str Z }.

Definition WeightedRoundRobinLoadBalancer : weighted := mkWeighted (base_init WEIGHTED_ROUND_ROBIN) ∅.

(** [a += b] on [int]s. *)
Definition int_add (a b : Z) : outcome Z :=
  if (- 2 ^ 31 <=? a + b) && (a + b <? 2 ^ 31) then Ok (a + b) else Undefined.

(** [a.instance_id < b.instance_id]: [std::string] compares its bytes unsigned. *)
Fixpoint str_ltb (a b : str) : bool :=
  match a, b with
  | [], [] => false
  | [], _ :: _ => true
  | _ :: _, [] => false
  | x :: a', y :: b' => (byte_val x <? byte_val y) || ((byte_val x =? byte_val y) && str_ltb a' b')
  end.

(** [std::stable_sort] by that order. *)
Fixpoint insert_stable (x : ServiceInstance) (l : list ServiceInstance) : list ServiceInstance :=
  match l with
  | [] => [x]
  | y :: l' => if str_ltb (instance_id y) (instance_id x) then y :: insert_stable x l' else x :: l
  end.
Definition stable_sort (l : list ServiceInstance) : list ServiceInstance := foldr insert_stable [] l.

(** The first loop: the total, and a current weight for every instance. *)
Fixpoint total_weight (b : base) (l : list ServiceInstance) (acc : Z) : outcome Z :=
  match l with
  | [] => Ok acc
  | i :: l' => acc ←o int_add acc (get_weight b (instance_id i)); total_weight b l' acc
  end.

Definition init_current (l : list ServiceInstance) (cw : gmap str Z) : gmap str Z :=
  foldl (fun m i => if decide (is_Some (m !! instance_id i)) then m else <[instance_id i := 0]> m) cw l.

(** The second loop, at index [i]. *)
Fixpoint best_of (b : base) (l : list ServiceInstance) (i : nat) (cw : gmap str Z) (best : nat) (mx : Z)
  : outcome (nat * gmap str Z) :=
  match l with
  | [] => Ok (best, cw)
  | inst :: l' =>
      c ←o int_add (default 0 (cw !! instance_id inst)) (get_weight b (instance_id inst));
      let cw := <[instance_id inst := c]> cw in
      if mx <? c then best_of b l' (S i) cw i c else best_of b l' (S i) cw best mx
  end.

Definition wr_select (discover : str -> list ServiceInstance) (service : str) (s : weighted)
  : outcome (option ServiceInstance * weighted) :=
  let l := match lb_instances_ (wr_base s) with [] => stable_sort (discover service) | l => l end in
  let b := with_instances l (wr_base s) in
  match l with
  | [] => Ok (None, mkWeighted b (current_weights_ s))
  | [inst] => Ok (Some inst, mkWeighted b (current_weights_ s))
  | _ =>
      total ←o total_weight b l 0;
      let cw := init_current l (current_weights_ s) in
      if total <=? 0 then Ok (None, mkWeighted b cw)
      else
        '(best, cw) ←o best_of b l 0 cw 0 (- 2 ^ 31);
        out ←o need (l !! best);
        c ←o int_add (default 0 (cw !! instance_id out)) (- total);
        Ok (Some out, mkWeighted b (<[instance_id out := c]> cw))
  end.

Definition wr_update (l : list ServiceInstance) (s : weighted) : weighted :=
  mkWeighted (with_instances l (wr_base s)) ∅.

#[export] Instance weighted_balancer : LoadBalancer weighted :=
  {| lb_base := wr_base; select_instance := wr_select; update_instances := wr_update |}.

(** [n] selections in a row. *)
Fixpoint selections {S} `{LoadBalancer S} (discover : str -> list ServiceInstance) (service : str) (n : nat) (s : S)
  : outcome (list (option ServiceInstance) * S) :=
  match n with
  | O => Ok ([], s)
  | S n' =>
      '(out, s1) ←o select_instance discover service s;
      '(outs, s2) ←o selections discover service n' s1;
      Ok (out :: outs, s2)
  end.

(** ** The interface's laws *)

Lemma insert_stable_perm x l : insert_stable x l ≡ₚ x :: l.
Proof.
  induction l as [|y l IH]; [done|]. cbn. case_match; [|done]. rewrite IH. apply perm_swap.
Qed.

Lemma stable_sort_perm l : stable_sort l ≡ₚ l.
Proof. induction l as [|x l IH]; [done|]. cbn. by rewrite insert_stable_perm, IH. Qed.

#[export] Instance round_robin_laws : LoadBalancerLaws round_robin.
Proof.
  split; [|done]. intros discover service s out s'. cbn. unfold rr_select.
  case_bool_decide as E; intros H; obinv; cbn; (split; [done|]).
  - done.
  - intros inst [= <-]. by eapply list_elem_of_lookup_2.
Qed.

#[export] Instance random_laws pick : @LoadBalancerLaws random (random_balancer pick).
Proof.
  split; [|done]. intros discover service s out s'. cbn. unfold rd_select.
  case_bool_decide as E; intros H; obinv; cbn; (split; [done|]).
  - done.
  - intros inst [= <-]. by eapply list_elem_of_lookup_2.
Qed.

Lemma wr_fetched discover service s :
  match lb_instances_ (wr_base s) with [] => stable_sort (discover service) | l => l end
  ≡ₚ fetched discover service (wr_base s).
Proof. unfold fetched. destruct (lb_instances_ _); [apply stable_sort_perm|done]. Qed.

#[export] Instance weighted_laws : LoadBalancerLaws weighted.
Proof.
  split; [|done]. intros discover service s out s'. cbn. unfold wr_select.
  pose proof (wr_fetched discover service s) as Hp. revert Hp. set (l := match _ with [] => _ | _ => _ end).
  intros Hp. assert (forall inst, inst ∈ l -> inst ∈ fetched discover service (wr_base s)) as Hin.
  { intros inst. by rewrite Hp. }
  destruct l as [|i1 [|i2 l]].
  - intros H. obinv. done.
  - intros H. obinv. split; [done|]. intros inst [= <-]. apply Hin. left.
  - intros H. obinv. revert H. case_test; intros H; obinv; [done|].
    destruct a0 as [best cw]. obinv. split; [done|]. intros inst [= <-]. apply Hin. by eapply list_elem_of_lookup_2.
Qed.

(** ** Fairness of the round robin *)

Lemma rr_select_cached discover service b c l : lb_instances_ b = l -> l <> [] -> 0 <= c < 2 ^ 64 - 1 ->
  exists out, l !! Z.to_nat (c mod Z.of_nat (length l)) = Some out /\
    rr_select discover service (mkRoundRobin b c) = Ok (Some out, mkRoundRobin (with_instances l b) (c + 1)).
Proof.
  intros Hb Hl Hc. unfold rr_select. cbn [rr_base current_index_].
  assert (fetched discover service b = l) as -> by (unfold fetched; rewrite Hb; by destruct l).
  rewrite bool_decide_eq_false_2 by done.
  assert (0 < Z.of_nat (length l)) as Hn by (destruct l; [done|cbn; lia]).
  pose proof (Z.mod_pos_bound c _ Hn). destruct (lookup_lt_is_Some_2 l (Z.to_nat (c mod Z.of_nat (length l)))) as [out Ho]; [lia|].
  exists out. split; [done|]. rewrite Ho. cbn. do 3 f_equal. apply uwrap_small. lia.
Qed.

Lemma rr_selections discover service b c l k : lb_instances_ b = l -> l <> [] -> 0 <= c -> c + Z.of_nat k < 2 ^ 64 ->
  exists outs, selections discover service k (mkRoundRobin b c) =
      Ok (outs, mkRoundRobin (if decide (k = 0%nat) then b else with_instances l b) (c + Z.of_nat k)) /\
    outs = (fun j => l !! Z.to_nat ((c + Z.of_nat j) mod Z.of_nat (length l))) <$> seq 0 k.
Proof.
  intros Hb Hl. revert b c Hb. induction k as [|k IH]; intros b c Hb Hc Hk.
  { exists []. rewrite decide_True by done. cbn. by rewrite Z.add_0_r. }
  destruct (rr_select_cached discover service b c l Hb Hl) as (out & Ho & Hs); [lia|].
  destruct (IH (with_instances l b) (c + 1)) as (outs & Hr & Ho'); [done|lia|lia|].
  exists (Some out :: outs). cbn [selections select_instance round_robin_balancer]. rewrite Hs. cbn [obind].
  rewrite Hr. cbn [obind]. split.
  - rewrite (decide_False (P := S k = 0%nat)) by done. replace (c + Z.of_nat (S k)) with (c + 1 + Z.of_nat k) by lia.
    by case_decide.
  - cbn [seq fmap list_fmap]. rewrite Z.add_0_r, Ho. f_equal. rewrite Ho', <- fmap_S_seq, <- list_fmap_compose.
    apply list_fmap_ext. intros j x _. cbn. do 3 f_equal. lia.
Qed.

(** As many selections in a row as there are instances choose every instance
    exactly once, wherever the round robin stands (as long as its [size_t]
    counter does not wrap in between). *)
Theorem round_robin_fair discover service b c :
  lb_instances_ b <> [] -> 0 <= c -> c + Z.of_nat (length (lb_instances_ b)) < 2 ^ 64 ->
  exists outs, selections discover service (length (lb_instances_ b)) (mkRoundRobin b c) =
      Ok (outs, mkRoundRobin b (c + Z.of_nat (length (lb_instances_ b)))) /\
    outs ≡ₚ Some <$> lb_instances_ b.
Proof.
  intros Hl Hc Hn. set (l := lb_instances_ b) in *. set (n := length l).
  destruct (rr_selections discover service b c l n eq_refl Hl Hc Hn) as (outs & Hs & Ho).
  exists outs. split.
  { rewrite Hs. do 3 f_equal. rewrite decide_False by (unfold n; destruct l; [done|cbn; lia]). by destruct b. }
  enough (outs = Some <$> rotate (Z.to_nat (c mod Z.of_nat n)) l) as ->.
  { apply fmap_Permutation. unfold rotate. by rewrite Permutation_app_comm, take_drop. }
  assert (0 < Z.of_nat n) as Hpos by (unfold n; destruct l; [done|cbn; lia]).
  rewrite Ho. apply list_eq. intros j. rewrite !list_lookup_fmap.
  destruct (decide (j < n)%nat) as [Hj|Hj].
  - rewrite lookup_seq_lt by done. rewrite lookup_rotate_r by done. cbn.
    fold n. assert (Z.to_nat ((c + Z.of_nat j) mod Z.of_nat n) = rotate_nat_add (Z.to_nat (c mod Z.of_nat n)) j n) as Heq.
    { rewrite <- (Nat.add_0_l j) at 2. pose proof (Z.mod_pos_bound c _ Hpos).
      rewrite rotate_nat_add_add, rotate_nat_add_0 by lia.
      apply Nat2Z.inj. rewrite Nat2Z.inj_mod, Nat2Z.inj_add, !Z2Nat.id by (apply Z.mod_pos_bound; lia).
      by rewrite Zplus_mod_idemp_l. }
    rewrite Heq. destruct (lookup_lt_is_Some_2 l (rotate_nat_add (Z.to_nat (c mod Z.of_nat n)) j n)) as [x ->]; [|done].
    apply rotate_nat_add_lt. lia.
  - rewrite lookup_seq_ge by lia. rewrite lookup_ge_None_2; [done|]. rewrite length_rotate. unfold n in Hj. lia.
Qed.

(** ** The smooth weighted cycle *)

Definition cur (cw : gmap str Z) (x : str) : Z := default 0 (cw !! x).
Definition ids (l : list ServiceInstance) : list str := instance_id <$> l.

(** How often [x] was selected. *)
Fixpoint times (x : str) (outs : list (option ServiceInstance)) : Z :=
  match outs with
  | [] => 0
  | Some inst :: outs' => (if decide (instance_id inst = x) then 1 else 0) + times x outs'
  | None :: outs' => times x outs'
  end.

Lemma int_add_ok a b : - 2 ^ 31 <= a + b < 2 ^ 31 -> int_add a b = Ok (a + b).
Proof. intros H. unfold int_add. rewrite (proj2 (Z.leb_le _ _)), (proj2 (Z.ltb_lt _ _)) by lia. done. Qed.

Lemma total_weight_ok b l acc : (forall x, x ∈ ids l -> 0 <= get_weight b x) -> 0 <= acc ->
  acc + sumZ (get_weight b) (ids l) < 2 ^ 31 -> total_weight b l acc = Ok (acc + sumZ (get_weight b) (ids l)).
Proof.
  revert acc. induction l as [|i l IH]; intros acc Hw Ha Hs; cbn [total_weight]; [cbn; f_equal; lia|].
  change (ids (i :: l)) with (instance_id i :: ids l) in *. cbn [sumZ foldr] in *.
  fold (sumZ (get_weight b) (ids l)) in *.
  assert (forall x, x ∈ ids l -> 0 <= get_weight b x) as Hw' by (intros x Hx; apply Hw; by right).
  pose proof (Hw (instance_id i) ltac:(left)). pose proof (sumZ_lower (get_weight b) (ids l) 0 Hw').
  rewrite int_add_ok by lia. cbn [obind]. rewrite IH by (try done; lia). f_equal. lia.
Qed.

Lemma init_current_cur l cw x : cur (init_current l cw) x = cur cw x.
Proof.
  revert cw. induction l as [|i l IH]; intros cw; [done|]. unfold init_current. cbn [foldl].
  fold (init_current l (if decide (is_Some (cw !! instance_id i)) then cw else <[instance_id i := 0]> cw)).
  rewrite IH. case_decide as Hi; [done|]. unfold cur. destruct (decide (x = instance_id i)) as [->|Hne].
  - rewrite lookup_insert_eq. destruct (cw !! instance_id i) eqn:E; [|done]. exfalso. apply Hi. by eexists.
  - by rewrite lookup_insert_ne.
Qed.

Lemma cur_insert cw i c x : cur (<[i := c]> cw) x = if decide (x = i) then c else cur cw x.
Proof. unfold cur. case_decide; [subst; by rewrite lookup_insert_eq|by rewrite lookup_insert_ne]. Qed.

(** The second loop raises every current weight and finds the first largest. *)
Lemma best_of_spec b l i cw best mx : NoDup (ids l) ->
  (forall x, x ∈ ids l -> - 2 ^ 31 <= cur cw x + get_weight b x < 2 ^ 31) ->
  exists best' cw', best_of b l i cw best mx = Ok (best', cw') /\
    (forall x, cur cw' x = if decide (x ∈ ids l) then cur cw x + get_weight b x else cur cw x) /\
    ((best' = best /\ forall x, x ∈ ids l -> cur cw x + get_weight b x <= mx) \/
     (exists j inst, best' = (i + j)%nat /\ l !! j = Some inst /\
        mx < cur cw (instance_id inst) + get_weight b (instance_id inst) /\
        forall x, x ∈ ids l -> cur cw x + get_weight b x <= cur cw (instance_id inst) + get_weight b (instance_id inst))).
Proof.
  revert i cw best mx. induction l as [|inst l IH]; intros i cw best mx Hn Hr; cbn [best_of].
  { exists best, cw. split; [done|]. split; [|left; split; [done|]]; intros x.
    - rewrite decide_False; [done|]. apply not_elem_of_nil.
    - by intros ?%elem_of_nil. }
  change (ids (inst :: l)) with (instance_id inst :: ids l) in *. apply NoDup_cons in Hn as [Hi Hn].
  fold (cur cw (instance_id inst)). pose proof (Hr (instance_id inst) ltac:(left)) as Hc.
  rewrite int_add_ok by lia. cbn [obind]. set (c := cur cw (instance_id inst) + get_weight b (instance_id inst)) in *.
  set (cw1 := <[instance_id inst := c]> cw).
  assert (Hsame : forall x, x ∈ ids l -> cur cw1 x = cur cw x).
  { intros x Hx. unfold cw1. rewrite cur_insert, decide_False; [done|]. by intros ->. }
  assert (Hcur : forall cw' : gmap str Z,
    (forall x, cur cw' x = if decide (x ∈ ids l) then cur cw1 x + get_weight b x else cur cw1 x) ->
    forall x, cur cw' x = if decide (x ∈ instance_id inst :: ids l) then cur cw x + get_weight b x else cur cw x).
  { intros cw' H x. rewrite H. destruct (decide (x ∈ ids l)) as [Hx|Hx].
    - rewrite Hsame by done. rewrite decide_True by by right. done.
    - unfold cw1. rewrite cur_insert. destruct (decide (x = instance_id inst)) as [->|Hne].
      + by rewrite decide_True by left.
      + rewrite decide_False; [done|]. by intros [|]%elem_of_cons. }
  destruct (mx <? c) eqn:E; breflect.
  - destruct (IH (S i) cw1 i c Hn) as (best' & cw' & -> & H1 & H2); [intros x Hx; rewrite Hsame by done; apply Hr; by right|].
    exists best', cw'. split; [done|]. split; [by apply Hcur|]. right.
    destruct H2 as [[-> Hm]|(j & out & -> & Hj & Hlt & Hm)].
    + exists 0%nat, inst. split; [lia|]. split; [done|]. split; [done|]. intros x [->|Hx]%elem_of_cons; [done|].
      rewrite <- Hsame by done. by apply Hm.
    + assert (instance_id out ∈ ids l) as Ho by by apply list_elem_of_fmap_2, list_elem_of_lookup_2 with j.
      rewrite Hsame in Hlt, Hm by done.
      exists (S j), out. split; [lia|]. split; [done|]. split; [lia|]. intros x [->|Hx]%elem_of_cons; [fold c; lia|].
      specialize (Hm x Hx). by rewrite Hsame in Hm.
  - destruct (IH (S i) cw1 best mx Hn) as (best' & cw' & -> & H1 & H2); [intros x Hx; rewrite Hsame by done; apply Hr; by right|].
    exists best', cw'. split; [done|]. split; [by apply Hcur|].
    destruct H2 as [[-> Hm]|(j & out & -> & Hj & Hlt & Hm)].
    + left. split; [done|]. intros x [->|Hx]%elem_of_cons; [done|]. rewrite <- Hsame by done. by apply Hm.
    + right. assert (instance_id out ∈ ids l) as Ho by by apply list_elem_of_fmap_2, list_elem_of_lookup_2 with j.
      rewrite Hsame in Hlt, Hm by done.
      exists (S j), out. split; [lia|]. split; [done|]. split; [lia|]. intros x [->|Hx]%elem_of_cons; [fold c; lia|].
      specialize (Hm x Hx). by rewrite Hsame in Hm.
Qed.

(** The cases of a list of at least two elements. *)
Lemma match_nonempty {A} (l d : list A) : (2 <= length l)%nat -> match l with [] => d | x :: l' => x :: l' end = l.
Proof. destruct l; [cbn; lia|done]. Qed.
Lemma match_two {A B} (l : list A) (a : B) (f : A -> B) (c : B) : (2 <= length l)%nat ->
  match l with [] => a | [x] => f x | _ => c end = c.
Proof. destruct l as [|x [|y l]]; cbn; (lia || done). Qed.

Lemma with_instances_id l b : lb_instances_ b = l -> with_instances l b = b.
Proof. intros <-. by destruct b. Qed.

Section Cycle.
Context (discover : str -> list ServiceInstance) (service : str) (b : base) (l : list ServiceInstance).
Context (Hb : lb_instances_ b = l) (Hlen : (2 <= length l)%nat) (Hnd : NoDup (ids l)).
Context (Hw : forall x, x ∈ ids l -> 0 <= get_weight b x).

Let W : Z := sumZ (get_weight b) (ids l).
Context (HW : 0 < W) (Hint : Z.of_nat (length l) * W < 2 ^ 31).

(** What holds of the current weights between two selections. *)
Definition steady (cw : gmap str Z) : Prop :=
  sumZ (cur cw) (ids l) = 0 /\ forall x, x ∈ ids l -> - W < cur cw x.

Lemma length_ids : length (ids l) = length l.
Proof. apply length_fmap. Qed.

Lemma steady_range cw : steady cw -> forall x, x ∈ ids l -> - 2 ^ 31 <= cur cw x + get_weight b x < 2 ^ 31.
Proof.
  intros [Hs Hlo] x Hx. pose proof (Hlo x Hx). pose proof (Hw x Hx).
  pose proof (sumZ_term (cur cw) (ids l) (- W + 1) x Hx ltac:(intros y Hy; specialize (Hlo y Hy); lia)) as Hc.
  pose proof (sumZ_term (get_weight b) (ids l) 0 x Hx Hw) as Hwx. fold W in Hwx. rewrite length_ids in *. nia.
Qed.

(** Some instance gets ahead: the raised weights sum to [W]. *)
Lemma steady_positive cw : steady cw -> exists x, x ∈ ids l /\ 0 < cur cw x + get_weight b x.
Proof.
  intros [Hs _]. destruct (decide (Exists (fun x => 0 < cur cw x + get_weight b x) (ids l))) as [He|Hn].
  { by apply Exists_exists in He. }
  exfalso. assert (forall x, x ∈ ids l -> 0 <= - 1 * (cur cw x + get_weight b x)) as Hle.
  { intros x Hx. destruct (decide (0 < cur cw x + get_weight b x)); [|lia].
    exfalso. apply Hn, Exists_exists. by exists x. }
  apply sumZ_lower in Hle. rewrite sumZ_mul, sumZ_add, Hs in Hle. fold W in Hle. lia.
Qed.

Lemma wr_select_steady cw : steady cw ->
  exists out cw', wr_select discover service (mkWeighted b cw) = Ok (Some out, mkWeighted b cw') /\ out ∈ l /\
    steady cw' /\
    forall x, x ∈ ids l ->
      cur cw' x = cur cw x + get_weight b x - W * (if decide (instance_id out = x) then 1 else 0).
Proof.
  intros S. pose proof S as [Hs Hlo]. unfold wr_select. cbn [wr_base]. cbv zeta. rewrite Hb.
  rewrite (match_nonempty l _ Hlen), (match_two l _ _ _ Hlen).
  rewrite (with_instances_id l b Hb).
  rewrite total_weight_ok; [|done|lia|fold W; nia]. cbn [obind]. fold W. rewrite Z.add_0_l.
  rewrite (proj2 (Z.leb_gt W 0)) by lia. cbn [current_weights_].
  destruct (best_of_spec b l 0 (init_current l cw) 0 (- 2 ^ 31) Hnd) as (best & cw1 & -> & Hcur & Hbest).
  { intros x Hx. rewrite init_current_cur. by apply steady_range. }
  cbn [obind]. destruct (steady_positive cw S) as (y & Hy & Hpos).
  destruct Hbest as [[_ Hm]|(j & out & -> & Hj & _ & Hm)].
  { specialize (Hm y Hy). rewrite init_current_cur in Hm. lia. }
  cbn [Nat.add]. rewrite Hj. cbn [need obind]. fold (cur cw1 (instance_id out)).
  assert (instance_id out ∈ ids l) as Ho by by apply list_elem_of_fmap_2, list_elem_of_lookup_2 with j.
  assert (Hc1 : forall x, x ∈ ids l -> cur cw1 x = cur cw x + get_weight b x).
  { intros x Hx. by rewrite Hcur, decide_True, init_current_cur. }
  pose proof (steady_range cw S _ Ho). pose proof (Hm y Hy) as Hmy. rewrite !init_current_cur in Hmy.
  assert (Z.of_nat (length l) * W >= W) by nia.
  rewrite int_add_ok by (rewrite Hc1 by done; lia). cbn [obind].
  assert (Hc2 : forall x, x ∈ ids l -> cur (<[instance_id out := cur cw1 (instance_id out) + - W]> cw1) x =
    cur cw x + get_weight b x - W * (if decide (instance_id out = x) then 1 else 0)).
  { intros x Hx. rewrite cur_insert. destruct (decide (x = instance_id out)) as [->|Hne].
    - rewrite decide_True by done. rewrite Hc1 by done. lia.
    - rewrite decide_False by congruence. rewrite Hc1 by done. lia. }
  exists out, (<[instance_id out := cur cw1 (instance_id out) + - W]> cw1).
  split; [done|]. split; [by apply list_elem_of_lookup_2 with j|]. split; [|done].
  split.
  - rewrite (sumZ_ext _ (fun x => (cur cw x + get_weight b x) + - W * (if decide (instance_id out = x) then 1 else 0)))
      by (intros x Hx; rewrite Hc2 by done; lia).
    rewrite !sumZ_add, sumZ_mul, Hs, (sumZ_indicator _ _ Hnd Ho). fold W. lia.
  - intros x Hx. rewrite Hc2 by done. specialize (Hlo x Hx). specialize (Hw x Hx). case_decide as Hx'; [subst x|]; lia.
Qed.

Lemma wr_cycle cw k : steady cw ->
  exists outs cw', selections discover service k (mkWeighted b cw) = Ok (outs, mkWeighted b cw') /\
    steady cw' /\ (forall out, out ∈ outs -> exists inst, out = Some inst /\ inst ∈ l) /\
    forall x, x ∈ ids l -> cur cw' x = cur cw x + Z.of_nat k * get_weight b x - W * times x outs.
Proof.
  revert cw. induction k as [|k IH]; intros cw S.
  { exists [], cw. split; [done|]. split; [done|]. split; [by intros ? ?%elem_of_nil|]. intros x _. cbn. lia. }
  destruct (wr_select_steady cw S) as (out & cw1 & Hs & Ho & S1 & Hc1).
  destruct (IH cw1 S1) as (outs & cw2 & Hr & S2 & Hin & Hc2).
  exists (Some out :: outs), cw2. cbn [selections select_instance weighted_balancer]. rewrite Hs. cbn [obind].
  rewrite Hr. cbn [obind]. split; [done|]. split; [done|]. split.
  - intros o [->|Ho']%elem_of_cons; [by exists out|by apply Hin].
  - intros x Hx. rewrite Hc2, Hc1 by done. cbn [times]. lia.
Qed.
End Cycle.

(** [K] cycles. *)
Lemma weighted_cycles discover service b cw W (K : nat) :
  let l := lb_instances_ b in
  (2 <= length l)%nat -> NoDup (ids l) -> (forall x, x ∈ ids l -> 0 <= get_weight b x) ->
  W = sumZ (get_weight b) (ids l) -> 0 < W -> Z.of_nat (length l) * W < 2 ^ 31 ->
  (forall x, x ∈ ids l -> cur cw x = 0) ->
  exists outs cw', selections discover service (K * Z.to_nat W) (mkWeighted b cw) = Ok (outs, mkWeighted b cw') /\
    (forall x, x ∈ ids l -> times x outs = Z.of_nat K * get_weight b x /\ cur cw' x = 0).
Proof.
  intros l Hlen Hnd Hw HWe HW Hint Hz. subst W. set (W := sumZ (get_weight b) (ids l)) in *.
  assert (steady b l cw) as S.
  { split; [|intros x Hx; rewrite Hz by done; fold W; lia].
    rewrite (sumZ_ext _ (fun _ => 0 * 0)) by (intros x Hx; by rewrite Hz). by rewrite sumZ_mul. }
  destruct (wr_cycle discover service b l eq_refl Hlen Hnd Hw HW Hint cw (K * Z.to_nat W) S)
    as (outs & cw' & Hs & [Hsum Hlo] & _ & Hc).
  exists outs, cw'. split; [done|].
  assert (Hc' : forall x, x ∈ ids l -> cur cw' x = W * (Z.of_nat K * get_weight b x - times x outs)).
  { intros x Hx. rewrite Hc, Hz, Nat2Z.inj_mul, Z2Nat.id by (done || lia). fold W. lia. }
  assert (Hpos : forall x, x ∈ ids l -> 0 <= cur cw' x).
  { intros x Hx. specialize (Hlo x Hx). fold W in Hlo. rewrite Hc' in Hlo by done. rewrite Hc' by done.
    assert (0 <= Z.of_nat K * get_weight b x - times x outs) by (clearbody W; nia). apply Z.mul_nonneg_nonneg; lia. }
  intros x Hx. pose proof (sumZ_term (cur cw') (ids l) 0 x Hx Hpos). specialize (Hpos x Hx).
  assert (cur cw' x = 0) as E by lia. split; [|done]. rewrite Hc' in E by done.
  apply Z.eq_mul_0 in E as [E|E]; lia.
Qed.

(** C16: Smooth weighted round-robin is exact: with the current weights at zero,
    as many selections as the weights add up to choose every instance exactly
    as often as its weight says, leave the current weights at zero again, and no
    [int] overflows on the way. *)
Theorem weighted_cycle_exact discover service b cw W :
  let l := lb_instances_ b in
  (2 <= length l)%nat -> NoDup (ids l) -> (forall x, x ∈ ids l -> 0 <= get_weight b x) ->
  W = sumZ (get_weight b) (ids l) -> 0 < W -> Z.of_nat (length l) * W < 2 ^ 31 ->
  (forall x, x ∈ ids l -> cur cw x = 0) ->
  exists outs cw', selections discover service (Z.to_nat W) (mkWeighted b cw) = Ok (outs, mkWeighted b cw') /\
    (forall x, x ∈ ids l -> times x outs = get_weight b x /\ cur cw' x = 0).
Proof.
  intros l Hlen Hnd Hw HWe HW Hint Hz. destruct (weighted_cycles discover service b cw W 1 Hlen Hnd Hw HWe HW Hint Hz) as (outs & cw' & Hs & Ht).
  exists outs, cw'. rewrite Nat.mul_1_l in Hs. split; [done|]. intros x Hx. rewrite <- (Z.mul_1_l (get_weight b x)). by apply Ht.
Qed.

(** ** One list for every service *)

(** Whatever the balancer, the instances fetched for the first service are
    kept for every other: a later selection for another service answers with an
    instance discovered for the first, and does not discover again. *)
Theorem cached_for_every_service {S} `{LoadBalancerLaws S} discover first later s out s1 out' s2 :
  lb_instances_ (lb_base s) = [] -> discover first <> [] ->
  select_instance discover first s = Ok (out, s1) ->
  select_instance discover later s1 = Ok (Some out', s2) ->
  out' ∈ discover first.
Proof.
  intros He Hf H1 H2. apply select_among in H1 as [Hp _]. apply select_among in H2 as [_ Hin].
  unfold fetched in Hp at 1. rewrite He in Hp.
  specialize (Hin out' eq_refl). unfold fetched in Hin.
  destruct (lb_instances_ (lb_base s1)) as [|i l]; [|by rewrite Hp in Hin].
  by apply Permutation_nil_l in Hp.
Qed.

(** ** Examples *)

Definition demo_str (n : Z) : str := [byte_of n].
Definition demo_instance (s i : Z) : ServiceInstance := mkInstance (demo_str s) (demo_str i) [] 80 ∅ 0 0 true.
Definition demo_discover (service : str) : list ServiceInstance :=
  if decide (service = demo_str 65) then [demo_instance 65 1; demo_instance 65 2; demo_instance 65 3]
  else [demo_instance 66 9].

Definition demo_base : base := with_instances (demo_discover (demo_str 65)) (base_init ROUND_ROBIN).

Lemma round_robin_fair_witness :
  exists outs, selections demo_discover (demo_str 65) 3 (mkRoundRobin demo_base 7) = Ok (outs, mkRoundRobin demo_base 10) /\
    outs ≡ₚ Some <$> lb_instances_ demo_base.
Proof. apply (round_robin_fair demo_discover (demo_str 65) demo_base 7); [done|lia|done]. Defined.

Definition demo_weighted : base := set_weight (demo_str 1) 5 demo_base.

Lemma weighted_cycle_exact_witness :
  exists outs cw', selections demo_discover (demo_str 65) 7 (mkWeighted demo_weighted ∅) = Ok (outs, mkWeighted demo_weighted cw') /\
    (forall x, x ∈ ids (lb_instances_ demo_weighted) -> times x outs = get_weight demo_weighted x /\ cur cw' x = 0).
Proof.
  apply (weighted_cycle_exact demo_discover (demo_str 65) demo_weighted ∅ 7).
  - vm_compute. lia.
  - by apply (bool_decide_unpack _).
  - intros x Hx. revert x Hx. apply Forall_forall. by apply (bool_decide_unpack _).
  - by vm_compute.
  - lia.
  - done.
  - intros x _. done.
Defined.

Lemma cached_for_every_service_witness :
  exists s1 out s2, select_instance demo_discover (demo_str 65) RoundRobinLoadBalancer = Ok (out, s1) /\
    select_instance demo_discover (demo_str 66) s1 = Ok (Some (demo_instance 65 2), s2) /\
    demo_instance 65 2 ∈ demo_discover (demo_str 65) /\ demo_instance 65 2 ∉ demo_discover (demo_str 66).
Proof.
  eexists _, _, _. split; [vm_compute; reflexivity|]. split; [vm_compute; reflexivity|]. split.
  - eapply (cached_for_every_service demo_discover (demo_str 65) (demo_str 66) RoundRobinLoadBalancer);
      [done|done|vm_compute; reflexivity|vm_compute; reflexivity].
  - by apply (bool_decide_unpack _).
Defined.
