(* ===== verification/ConsistentHash.v ===== *)
(** * ConsistentHash: the hash ring of src/loadbalance/consistent_hash.cpp

    Every service has a ring of virtual nodes sorted by hash; a key belongs to
    the first virtual node clockwise from its hash.  [std::sort] is not stable:
    the order it leaves equal hashes in is that of [ring_sort], any sorting
    function.  [int] arithmetic on the number of virtual nodes is on [Z]. *)

From stdpp Require Import sorting.
From S2P Require Import Prelude.
From S2P Require Import Wire.

Record VirtualNode := mkVirtualNode {
  service_id : str;
  instance_id : str;
  node_id : str;
  hash_value : Z
}.
#[global] Instance VirtualNode_eq_dec : EqDecision VirtualNode.
Proof. solve_decision. Defined.

(** FNV-1a. *)
Definition hash (key : str) : Z :=
  foldl (fun h c => u32 (Z.lxor h (byte_val c) * 16777619)) 2166136261 key.

Definition get_virtual_node_id (instance : str) (index : Z) : str := instance ++ lit "#" ++ to_string index.

Definition hash_le (a b : VirtualNode) : Prop := hash_value a <= hash_value b.
#[global] Instance hash_le_dec a b : Decision (hash_le a b).
Proof. unfold hash_le. apply _. Defined.
#[global] Instance hash_le_trans : Transitive hash_le.
Proof. unfold hash_le. intros a b c. lia. Qed.
#[global] Instance hash_le_total : Total hash_le.
Proof. unfold hash_le. intros a b. lia. Qed.

(** [std::sort] with the comparison by hash. *)
Class RingSort := {
  ring_sort : list VirtualNode -> list VirtualNode;
  ring_sort_perm : forall l, ring_sort l ≡ₚ l;
  ring_sort_sorted : forall l, StronglySorted hash_le (ring_sort l)
}.

(** One such function, for examples. *)
Definition merge_ring_sort : RingSort :=
  {| ring_sort := merge_sort hash_le; ring_sort_perm := merge_sort_Permutation hash_le;
     ring_sort_sorted := StronglySorted_merge_sort hash_le |}.

Record balancer := mkBalancer {
  virtual_nodes_ : Z;
  service_instances_ : gmap str (list VirtualNode);
  service_ring_ : gmap str (list VirtualNode)
}.

Definition ConsistentHashLoadBalancer (n : Z) : balancer := mkBalancer n ∅ ∅.

(** The virtual nodes the loop of [add_instance] makes. *)
Definition new_nodes (service instance : str) (count : Z) : list VirtualNode :=
  (fun i => let vid := get_virtual_node_id instance i in mkVirtualNode service instance vid (hash vid)) <$> seqZ 0 count.

(** [operator[]] makes the ring even when the loop does not run. *)
Definition add_instance `{RingSort} (service instance : str) (weight : Z) (s : balancer) : balancer :=
  let nodes := new_nodes service instance (virtual_nodes_ s * weight) in
  mkBalancer (virtual_nodes_ s)
    (if decide (nodes = []) then service_instances_ s
     else <[service := default [] (service_instances_ s !! service) ++ nodes]> (service_instances_ s))
    (<[service := ring_sort (default [] (service_ring_ s !! service) ++ nodes)]> (service_ring_ s)).

Definition without (instance : str) : list VirtualNode -> list VirtualNode :=
  filter (fun v => instance_id v <> instance).

Definition remove_instance (service instance : str) (s : balancer) : balancer :=
  match service_instances_ s !! service with
  | None => s
  | Some _ =>
      mkBalancer (virtual_nodes_ s) (alter (without instance) service (service_instances_ s))
        (alter (without instance) service (service_ring_ s))
  end.

(** [std::lower_bound], and the first node when it finds none. *)
Definition pick (ring : list VirtualNode) (h : Z) : option VirtualNode :=
  match list_find (fun v => h <= hash_value v) ring with
  | Some (_, v) => Some v
  | None => head ring
  end.

Definition select_instance (service key : str) (s : balancer) : option str :=
  match service_ring_ s !! service with
  | None => None
  | Some ring => instance_id <$> pick ring (hash key)
  end.

Definition get_all_instances (service : str) (s : balancer) : list VirtualNode :=
  default [] (service_instances_ s !! service).

Definition clear (s : balancer) : balancer := mkBalancer (virtual_nodes_ s) ∅ ∅.

(** ** The ring's invariant *)

Definition ring (s : balancer) (service : str) : list VirtualNode := default [] (service_ring_ s !! service).

(** Every ring is sorted and holds exactly the service's virtual nodes. *)
Definition ring_wf (s : balancer) : Prop := forall service,
  StronglySorted hash_le (ring s service) /\ ring s service ≡ₚ get_all_instances service s /\
  Forall (fun v => 0 <= hash_value v < 2 ^ 32) (ring s service).

Lemma hash_range key : 0 <= hash key < 2 ^ 32.
Proof.
  unfold hash. destruct key as [|c k _] using rev_ind; [done|]. rewrite foldl_app. cbn. by apply (uwrap_range 32).
Qed.

Lemma new_nodes_range service instance n : Forall (fun v => 0 <= hash_value v < 2 ^ 32) (new_nodes service instance n).
Proof. apply Forall_fmap, Forall_true. intros i. apply hash_range. Qed.

Lemma new_nodes_instance service instance n v : v ∈ new_nodes service instance n -> instance_id v = instance.
Proof. unfold new_nodes. by intros (? & -> & _)%list_elem_of_fmap. Qed.

Lemma instances_of_add `{RingSort} service instance w s :
  get_all_instances service (add_instance service instance w s) =
  get_all_instances service s ++ new_nodes service instance (virtual_nodes_ s * w).
Proof.
  unfold get_all_instances, add_instance. cbn. case_decide as Hn.
  - by rewrite Hn, app_nil_r.
  - by rewrite lookup_insert_eq.
Qed.

Lemma init_ring_wf n : ring_wf (ConsistentHashLoadBalancer n).
Proof. intros service. split; [constructor|]. split; [done|constructor]. Qed.

Lemma add_instance_wf `{RingSort} service instance w s : ring_wf s -> ring_wf (add_instance service instance w s).
Proof.
  intros R sv. destruct (R sv) as (Hs & Hp & Hr). unfold ring, get_all_instances, add_instance in *. cbn.
  set (nodes := new_nodes service instance _). destruct (decide (sv = service)) as [->|Hne].
  - rewrite lookup_insert_eq. cbn [default]. split; [apply ring_sort_sorted|]. split.
    + rewrite ring_sort_perm. case_decide as Hnil.
      * rewrite Hnil, app_nil_r. done.
      * rewrite lookup_insert_eq. cbn. by rewrite Hp.
    + rewrite ring_sort_perm. apply Forall_app. split; [done|apply new_nodes_range].
  - rewrite lookup_insert_ne by done. case_decide; rewrite ?lookup_insert_ne by done; by split_and!.
Qed.

Lemma StronglySorted_filter {A} (R : A -> A -> Prop) (P : A -> Prop) `{!forall x, Decision (P x)} l :
  StronglySorted R l -> StronglySorted R (filter P l).
Proof.
  induction 1 as [|x l Hl IH Hx]; [constructor|]. rewrite filter_cons. case_decide; [|done].
  constructor; [done|]. rewrite Forall_forall in *. intros y [_ Hy]%list_elem_of_filter. by apply Hx.
Qed.

Lemma ring_remove service instance s sv : ring_wf s ->
  ring (remove_instance service instance s) sv =
  (if decide (sv = service) then without instance (ring s sv) else ring s sv) /\
  get_all_instances sv (remove_instance service instance s) =
  (if decide (sv = service) then without instance (get_all_instances sv s) else get_all_instances sv s).
Proof.
  intros R. destruct (R sv) as (_ & Hp & _). revert Hp.
  unfold ring, get_all_instances, remove_instance.
  destruct (service_instances_ s !! service) as [l|] eqn:E.
  - intros _. cbn. case_decide as Hsv.
    + subst. rewrite !lookup_alter_eq, E. cbn. by destruct (service_ring_ s !! service).
    + by rewrite !lookup_alter_ne by done.
  - intros Hp. case_decide as Hsv; [|done]. subst. rewrite E in *. cbn in *.
    apply Permutation_nil_r in Hp. by rewrite Hp.
Qed.

Lemma remove_instance_wf service instance s : ring_wf s -> ring_wf (remove_instance service instance s).
Proof.
  intros R sv. destruct (ring_remove service instance s sv R) as [-> ->]. destruct (R sv) as (Hs & Hp & Hr).
  case_decide; [|done]. unfold without. split; [by apply StronglySorted_filter|]. split; [by rewrite Hp|].
  rewrite Forall_forall in *. intros v [_ Hv]%list_elem_of_filter. by apply Hr.
Qed.

(** ** Who owns a key *)

(** The distance clockwise from [h] to a virtual node. *)
Definition clockwise (h : Z) (v : VirtualNode) : Z := u32 (hash_value v - h).

Lemma clockwise_spec h v : 0 <= h < 2 ^ 32 -> 0 <= hash_value v < 2 ^ 32 ->
  clockwise h v = if h <=? hash_value v then hash_value v - h else hash_value v - h + 2 ^ 32.
Proof.
  intros Hh Hv. unfold clockwise, uwrap. case_test.
  - rewrite Z.mod_small; lia.
  - rewrite <- (Z.mod_add _ 1) by lia. rewrite Z.mod_small; lia.
Qed.

Lemma StronglySorted_lookup {A} (R : A -> A -> Prop) l i j x y :
  StronglySorted R l -> l !! i = Some x -> l !! j = Some y -> (i < j)%nat -> R x y.
Proof.
  intros Hs. revert i j. induction Hs as [|z l Hl IH Hz]; intros i j Hi Hj Hij; [done|].
  destruct j as [|j]; [lia|]. destruct i as [|i]; cbn in Hi, Hj.
  - injection Hi as ->. rewrite Forall_forall in Hz. by apply Hz, list_elem_of_lookup_2 with j.
  - apply (IH i j); [done|done|lia].
Qed.

(** [pick] on a sorted ring: the nearest virtual node clockwise. *)
Lemma pick_nearest l h v : StronglySorted hash_le l -> Forall (fun v => 0 <= hash_value v < 2 ^ 32) l ->
  0 <= h < 2 ^ 32 -> pick l h = Some v -> v ∈ l /\ forall w, w ∈ l -> clockwise h v <= clockwise h w.
Proof.
  intros Hs Hr Hh. rewrite Forall_forall in Hr. unfold pick.
  destruct (list_find _ l) as [[i u]|] eqn:E.
  - intros [= ->]. apply list_find_Some in E as (Hi & Hle & Hlt). cbn in Hle.
    assert (v ∈ l) as Hv by by apply list_elem_of_lookup_2 with i. split; [done|]. intros w Hw.
    rewrite !clockwise_spec by auto. pose proof (Hr v Hv). pose proof (Hr w Hw).
    rewrite (proj2 (Z.leb_le _ _) Hle). case_test; [|lia].
    apply list_elem_of_lookup_1 in Hw as [j Hj]. destruct (decide (i <= j)%nat) as [Hij|Hij].
    + destruct (decide (i = j)) as [->|Hne]; [simplify_eq; lia|].
      pose proof (StronglySorted_lookup hash_le l i j v w Hs Hi Hj ltac:(lia)) as Hsl. unfold hash_le in Hsl. lia.
    + exfalso. apply (Hlt j w Hj); lia.
  - intros Hv. apply list_find_None in E. rewrite Forall_forall in E.
    destruct l as [|x l]; [done|]. cbn in Hv. injection Hv as ->. split; [left|]. intros w Hw.
    rewrite !clockwise_spec by (try apply Hr; try done; left). pose proof (E w Hw). pose proof (E v ltac:(left)).
    cbn in *. do 2 (rewrite (proj2 (Z.leb_gt _ _)) by lia).
    apply elem_of_cons in Hw as [->|Hw]; [lia|]. apply StronglySorted_inv in Hs as [_ Hs].
    rewrite Forall_forall in Hs. specialize (Hs w Hw). unfold hash_le in Hs. lia.
Qed.

Lemma pick_some l h : l <> [] -> is_Some (pick l h).
Proof. intros Hl. unfold pick. destruct (list_find _ l) as [[]|]; [by eexists|]. by destruct l; [|eexists]. Qed.

Lemma select_pick service key s : select_instance service key s = instance_id <$> pick (ring s service) (hash key).
Proof. unfold select_instance, ring. by destruct (service_ring_ s !! service). Qed.

Lemma ring_nearest service key s : ring_wf s ->
  match pick (ring s service) (hash key) with
  | Some v => v ∈ get_all_instances service s /\
      forall w, w ∈ get_all_instances service s -> clockwise (hash key) v <= clockwise (hash key) w
  | None => get_all_instances service s = []
  end.
Proof.
  intros R. destruct (R service) as (Hs & Hp & Hr). destruct (pick _ _) as [v|] eqn:E.
  - apply pick_nearest in E as [Hv Hm]; [|done|done|apply hash_range]. split; [by rewrite <- Hp|].
    intros w. rewrite <- Hp. apply Hm.
  - destruct (ring s service) as [|x l]; [by apply Permutation_nil_l in Hp|].
    destruct (pick_some (x :: l) (hash key)) as [? ?]; [done|congruence].
Qed.

(** A key is served exactly when its service has a virtual node, and by the
    instance of the virtual node nearest clockwise from the key's hash, around
    the 32-bit circle. *)
Theorem select_nearest service key s : ring_wf s ->
  match select_instance service key s with
  | Some i => exists v, v ∈ get_all_instances service s /\ instance_id v = i /\
      forall w, w ∈ get_all_instances service s -> clockwise (hash key) v <= clockwise (hash key) w
  | None => get_all_instances service s = []
  end.
Proof.
  intros R. pose proof (ring_nearest service key s R) as H. rewrite select_pick.
  destruct (pick _ _) as [v|]; cbn; [|done]. exists v. by destruct H.
Qed.

(** ** Membership changes move few keys *)

Lemma pick_filter (P : VirtualNode -> Prop) `{!forall v, Decision (P v)} l h v :
  pick l h = Some v -> P v -> pick (filter P l) h = Some v.
Proof.
  unfold pick. intros Hp HP. destruct (list_find _ l) as [[i u]|] eqn:E.
  - injection Hp as ->. apply list_find_Some in E as (Hi & Hle & Hlt).
    rewrite <- (take_drop_middle l i v Hi), filter_app, filter_cons, decide_True by done.
    rewrite list_find_app_r.
    + cbn. rewrite decide_True by done. done.
    + apply list_find_None, Forall_forall. intros w [_ Hw]%list_elem_of_filter.
      apply list_elem_of_lookup_1 in Hw as [j Hj]. apply lookup_take_Some in Hj as [Hj Hji]. by apply (Hlt j).
  - apply list_find_None in E. destruct l as [|x l]; [done|]. injection Hp as ->.
    rewrite (proj2 (list_find_None _ _)).
    + by rewrite filter_cons, decide_True.
    + rewrite Forall_forall in *. intros w [_ Hw]%list_elem_of_filter. by apply E.
Qed.

Lemma remove_keeps_key service gone key s i : ring_wf s ->
  select_instance service key s = Some i -> i <> gone ->
  select_instance service key (remove_instance service gone s) = Some i.
Proof.
  intros R. rewrite !select_pick. destruct (ring_remove service gone s service R) as [-> _].
  rewrite decide_True by done. destruct (pick (ring s service) (hash key)) as [v|] eqn:E; [|done].
  intros [= <-] Hg. unfold without. by rewrite (pick_filter _ _ _ _ E Hg).
Qed.

(** Removing an instance moves only the keys it served: a key of any other
    instance stays where it is, and no key is served by the removed one. *)
Theorem remove_moves_only_its_keys service gone key s : ring_wf s ->
  select_instance service key (remove_instance service gone s) <> Some gone /\
  forall i, select_instance service key s = Some i -> i <> gone ->
    select_instance service key (remove_instance service gone s) = Some i.
Proof.
  intros R. split; [|by intros i; apply remove_keeps_key].
  rewrite select_pick. destruct (ring_remove service gone s service R) as [-> _]. rewrite decide_True by done.
  destruct (R service) as (Hs & _ & Hr).
  destruct (pick (without gone (ring s service)) (hash key)) as [w|] eqn:E; [|done]. cbn. intros [= Hw].
  apply pick_nearest in E as [[Hn _]%list_elem_of_filter _]; [done|by apply StronglySorted_filter| |apply hash_range].
  rewrite Forall_forall in *. intros u [_ Hu]%list_elem_of_filter. by apply Hr.
Qed.

(** Adding an instance moves keys to it only: where the virtual nodes' hashes
    are distinct, a key that was served stays with its instance or goes to the
    new one. *)
Theorem add_moves_keys_to_it_only `{RingSort} service new key w s i : ring_wf s ->
  NoDup (hash_value <$> get_all_instances service s) ->
  select_instance service key s = Some i ->
  select_instance service key (add_instance service new w s) = Some i \/
  select_instance service key (add_instance service new w s) = Some new.
Proof.
  intros R Hnd Hsel. pose proof (add_instance_wf service new w s R) as R'.
  destruct (R service) as (Hs & Hp & Hr). destruct (R' service) as (Hs' & _ & Hr').
  rewrite !select_pick in *. destruct (pick (ring s service) (hash key)) as [v|] eqn:E; [|done]. injection Hsel as <-.
  set (nodes := new_nodes service new (virtual_nodes_ s * w)).
  assert (ring (add_instance service new w s) service ≡ₚ ring s service ++ nodes) as Hp'.
  { unfold ring at 1. cbn. rewrite lookup_insert_eq. cbn. apply ring_sort_perm. }
  pose proof (pick_nearest _ _ _ Hs Hr (hash_range key) E) as [Hv Hm].
  destruct (pick_some (ring (add_instance service new w s) service) (hash key)) as [u Eu].
  { intros Hnil. rewrite Hnil in Hp'. apply Permutation_nil_l, eq_sym, app_eq_nil in Hp' as [Hn _]. rewrite Hn in Hv. by apply elem_of_nil in Hv. }
  rewrite Eu. pose proof (pick_nearest _ _ _ Hs' Hr' (hash_range key) Eu) as [Hu Hm'].
  rewrite Hp' in Hu. apply elem_of_app in Hu as [Hu|Hu].
  - left. cbn. do 2 f_equal. rewrite <- Hp in Hnd.
    assert (hash_value u = hash_value v) as Heq.
    { specialize (Hm u Hu). specialize (Hm' v ltac:(rewrite Hp'; apply elem_of_app; by left)).
      rewrite Forall_forall in Hr. pose proof (Hr u Hu). pose proof (Hr v Hv). pose proof (hash_range key).
      rewrite !clockwise_spec in Hm, Hm' by auto. revert Hm Hm'. case_tests; lia. }
    apply list_elem_of_lookup_1 in Hu as [a Ha], Hv as [c Hc].
    assert (a = c) as ->; [|congruence].
    eapply (NoDup_lookup _ a c (hash_value v) Hnd); rewrite list_lookup_fmap.
    + by rewrite Ha, <- Heq.
    + by rewrite Hc.
  - right. cbn. f_equal. by eapply new_nodes_instance.
Qed.

(** ** Examples *)

#[local] Instance demo_sort : RingSort := merge_ring_sort.

(** Two instances of one service, four virtual nodes each. *)
Definition demo_ring : balancer :=
  add_instance (lit "logic") (lit "b") 1 (add_instance (lit "logic") (lit "a") 1 (ConsistentHashLoadBalancer 4)).

Lemma demo_ring_wf : ring_wf demo_ring.
Proof. apply add_instance_wf, add_instance_wf, init_ring_wf. Qed.

Lemma select_nearest_witness :
  match select_instance (lit "logic") (lit "player1") demo_ring with
  | Some i => exists v, v ∈ get_all_instances (lit "logic") demo_ring /\ instance_id v = i /\
      forall w, w ∈ get_all_instances (lit "logic") demo_ring ->
        clockwise (hash (lit "player1")) v <= clockwise (hash (lit "player1")) w
  | None => get_all_instances (lit "logic") demo_ring = []
  end.
Proof. apply (select_nearest (lit "logic") (lit "player1") demo_ring demo_ring_wf). Defined.

Definition demo_owner : str := default [] (select_instance (lit "logic") (lit "player1") demo_ring).

Lemma remove_moves_only_its_keys_witness :
  select_instance (lit "logic") (lit "player1") demo_ring = Some demo_owner /\
  select_instance (lit "logic") (lit "player1") (remove_instance (lit "logic") (lit "a") demo_ring) <> Some (lit "a") /\
  forall i, select_instance (lit "logic") (lit "player1") demo_ring = Some i -> i <> lit "a" ->
    select_instance (lit "logic") (lit "player1") (remove_instance (lit "logic") (lit "a") demo_ring) = Some i.
Proof.
  split; [vm_compute; reflexivity|].
  exact (remove_moves_only_its_keys (lit "logic") (lit "a") (lit "player1") demo_ring demo_ring_wf).
Defined.

Lemma add_moves_keys_to_it_only_witness :
  select_instance (lit "logic") (lit "player1") demo_ring = Some demo_owner /\
  (select_instance (lit "logic") (lit "player1") (add_instance (lit "logic") (lit "c") 1 demo_ring) = Some demo_owner \/
   select_instance (lit "logic") (lit "player1") (add_instance (lit "logic") (lit "c") 1 demo_ring) = Some (lit "c")).
Proof.
  split; [vm_compute; reflexivity|].
  apply (add_moves_keys_to_it_only (lit "logic") (lit "c") (lit "player1") 1 demo_ring demo_owner demo_ring_wf).
  - apply (bool_decide_unpack _). vm_compute. exact I.
  - vm_compute. reflexivity.
Defined.
