(* ===== verification/Cluster.v ===== *)
(** * Cluster: node registration of src/cluster/node.cpp and cluster/node_registry.h

    Module [Registry] is [NodeRegistry], the static table of nodes with a hash
    ring per node type (ConsistentHash.v).  Module [Node] is [Node], which
    registers itself with a discovery (Discovery.v) and sends heartbeats from
    its own thread; a turn of that thread's loop is one step.  The YAML parser
    is not the program's: [load_from_yaml_node] starts from the fields it
    found. *)

From S2P Require Import Prelude.
From S2P Require Import Wire.
From S2P Require Import Effects.
From S2P Require Import Discovery.
From S2P Require ConsistentHash.

Module Registry.

Record NodeInfo := mkNodeInfo {
  node_id : str;
  listen_addr : str;
  listen_port : Z;
  node_type : str;
  online : bool
}.

Definition NodeInfo_default : NodeInfo := mkNodeInfo [] [] 0 [] false.

Definition offline (n : NodeInfo) : NodeInfo :=
  mkNodeInfo (node_id n) (listen_addr n) (listen_port n) (node_type n) false.

Record registry := mkNodes { nodes_ : gmap str NodeInfo; ch_balancer_ : ConsistentHash.balancer }.

(** The ring's default of 160 virtual nodes. *)
Definition NodeRegistry : registry := mkNodes ∅ (ConsistentHash.ConsistentHashLoadBalancer 160).

(** The group of nodes of any type. *)
Definition all_group : str := lit "__all__".
#[global] Arguments all_group : simpl never.

(** The fields of one entry of the configuration's [nodes]. *)
Record yaml_entry := mkEntry { y_id : option str; y_host : option str; y_port : option Z; y_type : option str }.

Definition entry_info (n : yaml_entry) : NodeInfo :=
  mkNodeInfo (default [] (y_id n)) (default [] (y_host n)) (default 0 (y_port n)) (default [] (y_type n)) true.

Section Program.
Context {RS : ConsistentHash.RingSort} {IO : IterOrder str}.

Definition register_node (id addr : str) (port : Z) (type : str) (r : registry) : registry :=
  mkNodes (<[id := mkNodeInfo id addr port type true]> (nodes_ r))
    (ConsistentHash.add_instance type id 1 (ch_balancer_ r)).

Definition unregister_node (id : str) (r : registry) : registry :=
  match nodes_ r !! id with
  | None => r
  | Some n => mkNodes (<[id := offline n]> (nodes_ r)) (ConsistentHash.remove_instance (node_type n) id (ch_balancer_ r))
  end.

Definition find_node (id : str) (r : registry) : option NodeInfo :=
  match nodes_ r !! id with
  | Some n => if online n then Some n else None
  | None => None
  end.

Definition find_nodes_by_type (type : str) (r : registry) : list NodeInfo :=
  filter (fun n => online n = true /\ (type = [] \/ node_type n = type)) (iter (nodes_ r)).*2.

Definition get_all_nodes (r : registry) : list NodeInfo := find_nodes_by_type [] r.

Definition select_node_by_hash (key type : str) (r : registry) : option NodeInfo :=
  let service_group := if decide (type = []) then all_group else type in
  selected ← ConsistentHash.select_instance service_group key (ch_balancer_ r);
  find_node selected r.

(** The loop of [load_from_yaml_node]. *)
Definition load_entry (r : registry) (n : yaml_entry) : registry :=
  let info := entry_info n in
  if negb (bool_decide (node_id info = [])) && negb (listen_port info =? 0) then
    mkNodes (<[node_id info := info]> (nodes_ r))
      (ConsistentHash.add_instance all_group (node_id info) 1
         (ConsistentHash.add_instance (node_type info) (node_id info) 1 (ch_balancer_ r)))
  else r.

(** [None]: the document has no [nodes]. *)
Definition load_from_yaml_node (nodes : option (list yaml_entry)) (r : registry) : bool * registry :=
  match nodes with
  | None => (false, r)
  | Some l =>
      let r' := foldl load_entry (mkNodes ∅ (ConsistentHash.clear (ch_balancer_ r))) l in
      (negb (bool_decide (nodes_ r' = ∅)), r')
  end.

(** ** Facts *)

Record registry_wf (r : registry) : Prop := {
  wf_ring : ConsistentHash.ring_wf (ch_balancer_ r);
  wf_names : forall i n, nodes_ r !! i = Some n -> node_id n = i
}.

Lemma registry_init_wf : registry_wf NodeRegistry.
Proof. split; [apply ConsistentHash.init_ring_wf|]. intros i n. cbn. by rewrite lookup_empty. Qed.

Lemma register_node_wf id addr port type r : registry_wf r -> registry_wf (register_node id addr port type r).
Proof.
  intros [Hr Hn]. split; cbn; [by apply ConsistentHash.add_instance_wf|].
  intros i n [[<- <-]|[_ L]]%lookup_insert_Some; [done|by apply Hn].
Qed.

Lemma unregister_node_wf id r : registry_wf r -> registry_wf (unregister_node id r).
Proof.
  intros [Hr Hn]. unfold unregister_node. destruct (nodes_ r !! id) as [n|] eqn:L; [|by split].
  split; cbn; [by apply ConsistentHash.remove_instance_wf|].
  intros i m [[<- <-]|[_ Lm]]%lookup_insert_Some; [by apply (Hn id n)|by apply Hn].
Qed.

(** Another type's ring does not change. *)
Lemma remove_other service gone key other b : other <> service ->
  ConsistentHash.select_instance other key (ConsistentHash.remove_instance service gone b) =
  ConsistentHash.select_instance other key b.
Proof.
  intros Hne. unfold ConsistentHash.remove_instance, ConsistentHash.select_instance.
  destruct (ConsistentHash.service_instances_ b !! service); [|done]. cbn. by rewrite lookup_alter_ne.
Qed.

(** Taking a node out of the registry moves only the keys it served: a key
    that was routed to another node is routed to that node still. *)
Theorem unregister_keeps_other_keys key type gone n r : registry_wf r ->
  select_node_by_hash key type r = Some n -> node_id n <> gone ->
  select_node_by_hash key type (unregister_node gone r) = Some n.
Proof.
  intros W Hsel Hne. unfold unregister_node. destruct (nodes_ r !! gone) as [g|] eqn:G; [|done].
  revert Hsel. unfold select_node_by_hash. set (grp := if decide (type = []) then all_group else type). cbn.
  destruct (ConsistentHash.select_instance grp key (ch_balancer_ r)) as [i|] eqn:E; [|done]. cbn. intros Hf.
  assert (i = node_id n) as ->.
  { unfold find_node in Hf. destruct (nodes_ r !! i) as [m|] eqn:L; [|done]. destruct (online m); [|done].
    injection Hf as ->. symmetry. by apply (wf_names r W). }
  assert (ConsistentHash.select_instance grp key (ConsistentHash.remove_instance (node_type g) gone (ch_balancer_ r))
    = Some (node_id n)) as ->.
  { destruct (decide (grp = node_type g)) as [Hg|Hg]; [|by rewrite remove_other].
    pose proof (ConsistentHash.remove_keeps_key grp gone key (ch_balancer_ r) (node_id n) (wf_ring r W) E Hne). by rewrite <- Hg. }
  cbn. revert Hf. unfold find_node. cbn. by rewrite lookup_insert_ne.
Qed.

(** Calls that register and unregister nodes. *)
Inductive node_op := Reg (id addr : str) (port : Z) (type : str) | Unreg (id : str).

Definition run_node_op (r : registry) (o : node_op) : registry :=
  match o with Reg id addr port type => register_node id addr port type r | Unreg id => unregister_node id r end.

Definition grouped (o : node_op) : Prop := match o with Reg _ _ _ type => type <> all_group | Unreg _ => True end.

Lemma add_other service i w other b : other <> service ->
  ConsistentHash.service_ring_ (ConsistentHash.add_instance service i w b) !! other =
  ConsistentHash.service_ring_ b !! other.
Proof. intros Hne. cbn. by rewrite lookup_insert_ne. Qed.

Lemma no_all_group os r : ConsistentHash.service_ring_ (ch_balancer_ r) !! all_group = None -> Forall grouped os ->
  ConsistentHash.service_ring_ (ch_balancer_ (foldl run_node_op r os)) !! all_group = None.
Proof.
  intros Hr Hos. revert r Hr. induction Hos as [|o os Ho _ IH]; intros r Hr; [done|]. apply IH. clear IH.
  destruct o as [id addr port type|id]; cbn in *.
  - by rewrite lookup_insert_ne.
  - unfold unregister_node. destruct (nodes_ r !! id) as [n|]; [|done]. cbn.
    unfold ConsistentHash.remove_instance. destruct (ConsistentHash.service_instances_ _ !! _); [|done]. cbn.
    destruct (decide (node_type n = all_group)) as [->|Hne].
    + by rewrite lookup_alter_eq, Hr.
    + by rewrite lookup_alter_ne.
Qed.

Lemma select_other service i w other key b : other <> service ->
  ConsistentHash.select_instance other key (ConsistentHash.add_instance service i w b) =
  ConsistentHash.select_instance other key b.
Proof. intros Hne. unfold ConsistentHash.select_instance. by rewrite add_other. Qed.

(** Nodes registered at run time can never be chosen without naming their
    type: after any registrations and removals, selecting among all types finds
    nothing, while the listing of all nodes shows every online one. *)
Theorem any_type_unselectable os key : Forall grouped os ->
  select_node_by_hash key [] (foldl run_node_op NodeRegistry os) = None /\
  forall n, n ∈ get_all_nodes (foldl run_node_op NodeRegistry os) <->
    online n = true /\ exists i, nodes_ (foldl run_node_op NodeRegistry os) !! i = Some n.
Proof.
  intros Hos. split.
  - unfold select_node_by_hash. rewrite decide_True by done. unfold ConsistentHash.select_instance.
    by rewrite no_all_group.
  - intros n. unfold get_all_nodes, find_nodes_by_type. rewrite list_elem_of_filter, list_elem_of_fmap. split.
    + intros [[Ho _] ([i m] & -> & L%elem_of_iter)]. split; [done|by exists i].
    + intros [Ho (i & L)]. split; [split; [done|by left]|]. exists (i, n). split; [done|by apply elem_of_iter].
Qed.

(** Registering a node again under another type leaves it in the first
    type's ring: every key of the first type is then routed to a node of the
    other type. *)
Theorem reregistered_keeps_old_type id addr port t1 t2 key : t1 <> t2 -> t1 <> [] ->
  select_node_by_hash key t1 (register_node id addr port t2 (register_node id addr port t1 NodeRegistry))
  = Some (mkNodeInfo id addr port t2 true).
Proof.
  intros Hne Ht. unfold select_node_by_hash. rewrite decide_False by done. cbn [register_node ch_balancer_].
  set (b := ConsistentHash.add_instance t1 id 1 (ch_balancer_ NodeRegistry)).
  assert (ConsistentHash.select_instance t1 key (ConsistentHash.add_instance t2 id 1 b) = Some id) as ->.
  { transitivity (ConsistentHash.select_instance t1 key b); [by apply select_other|].
    pose proof (ConsistentHash.ring_nearest t1 key b) as Hn. rewrite ConsistentHash.select_pick.
    specialize (Hn (ConsistentHash.add_instance_wf _ _ _ _ (ConsistentHash.init_ring_wf _))).
    revert Hn. unfold b. rewrite ConsistentHash.instances_of_add. cbn [app ConsistentHash.get_all_instances].
    destruct (ConsistentHash.pick _ _) as [v|]; [|done]. intros [Hv _]. cbn. f_equal.
    apply elem_of_app in Hv as [Hv|Hv]; [by apply elem_of_nil in Hv|by eapply ConsistentHash.new_nodes_instance]. }
  cbn. unfold find_node. cbn. by rewrite lookup_insert_eq.
Qed.
End Program.

(** Two logic nodes. *)
#[local] Instance demo_sort : ConsistentHash.RingSort := ConsistentHash.merge_ring_sort.
#[local] Instance demo_order : IterOrder str := key_order str.

Definition demo_ops : list node_op := [Reg (lit "n1") (lit "10.0.0.1") 9000 (lit "logic"); Reg (lit "n2") (lit "10.0.0.2") 9000 (lit "logic")].
Definition demo_nodes : registry := foldl run_node_op NodeRegistry demo_ops.
Definition demo_owner : NodeInfo := default NodeInfo_default (select_node_by_hash (lit "player1") (lit "logic") demo_nodes).
Definition demo_gone : str := if decide (node_id demo_owner = lit "n1") then lit "n2" else lit "n1".

Lemma demo_nodes_wf : registry_wf demo_nodes.
Proof. apply register_node_wf, register_node_wf, registry_init_wf. Qed.

Lemma unregister_keeps_other_keys_witness :
  select_node_by_hash (lit "player1") (lit "logic") demo_nodes = Some demo_owner /\
  select_node_by_hash (lit "player1") (lit "logic") (unregister_node demo_gone demo_nodes) = Some demo_owner.
Proof.
  split; [vm_compute; reflexivity|].
  apply (unregister_keeps_other_keys (lit "player1") (lit "logic") demo_gone demo_owner demo_nodes demo_nodes_wf).
  - vm_compute. reflexivity.
  - apply (bool_decide_unpack _). vm_compute. exact I.
Defined.

Lemma any_type_unselectable_witness :
  select_node_by_hash (lit "player1") [] (foldl run_node_op NodeRegistry demo_ops) = None /\
  length (get_all_nodes (foldl run_node_op NodeRegistry demo_ops)) = 2%nat.
Proof.
  split; [|vm_compute; reflexivity].
  apply (any_type_unselectable demo_ops (lit "player1")). by repeat constructor.
Defined.

Lemma reregistered_keeps_old_type_witness :
  select_node_by_hash (lit "player1") (lit "gateway")
    (register_node (lit "n1") (lit "10.0.0.1") 9000 (lit "logic")
       (register_node (lit "n1") (lit "10.0.0.1") 9000 (lit "gateway") NodeRegistry))
  = Some (mkNodeInfo (lit "n1") (lit "10.0.0.1") 9000 (lit "logic") true).
Proof. by apply (reregistered_keeps_old_type (lit "n1") (lit "10.0.0.1") 9000 (lit "gateway") (lit "logic") (lit "player1")). Defined.
End Registry.

Module Node.

Record node := mkNode {
  node_id_ : str;
  node_type_ : str;
  listen_addr_ : str;
  listen_port_ : Z;
  heartbeat_interval_seconds_ : Z;
  attached : bool;               (** [discovery_] is not null *)
  running_ : bool
}.

Definition Node (id type addr : str) (port interval : Z) : node := mkNode id type addr port interval false false.

Definition set_state (att run : bool) (n : node) : node :=
  mkNode (node_id_ n) (node_type_ n) (listen_addr_ n) (listen_port_ n) (heartbeat_interval_seconds_ n) att run.

(** The instance [start] and [heartbeat_loop] register. *)
Definition own_instance (n : node) : ServiceInstance :=
  mkInstance (node_type_ n) (node_id_ n) (listen_addr_ n) (listen_port_ n)
    {[lit "node_type" := node_type_ n]} 0 0 true.

(** [given]: the pointer passed is not null. *)
Definition start (now : Z) (given : bool) (n : node) (d : discovery) : bool * node * discovery * list notice :=
  if running_ n then (false, n, d, [])
  else if negb given then (false, n, d, [])
  else
    let '(ok, d', ns) := register_service now (own_instance n) d in
    if ok : bool then (true, set_state true true n, d', ns) else (false, set_state true (running_ n) n, d', ns).

Definition stop (n : node) (d : discovery) : node * discovery :=
  if running_ n then
    if attached n then (set_state false false n, (deregister_service (node_id_ n) d).2)
    else (set_state (attached n) false n, d)
  else (n, d).

(** One turn of [heartbeat_loop], after the wait. *)
Definition beat (now : Z) (n : node) (d : discovery) : discovery * list notice :=
  if running_ n && attached n then
    let '(ok, d') := heartbeat now (node_id_ n) d in
    if ok : bool then (d', []) else let '(_, d'', ns) := register_service now (own_instance n) d' in (d'', ns)
  else (d, []).

(** ** A node among other users of the discovery *)

Inductive event := Beat | Call (o : op).

Section Run.
Context {IO : IterOrder str} (n : node).

Definition step (d : discovery) (e : Z * event) : discovery :=
  match e with
  | (now, Beat) => (beat now n d).1
  | (now, Call o) => (run_op now o d).2
  end.

(** The others do not deregister the node or beat for it, and a cleanup comes no
    later after the node's last beat than the heartbeat timeout. *)
Fixpoint on_time (timeout last : Z) (es : list (Z * event)) : Prop :=
  match es with
  | [] => True
  | (now, Beat) :: es' => on_time timeout now es'
  | (now, Call Cleanup) :: es' => now - last <= timeout /\ on_time timeout last es'
  | (_, Call (Deregister i)) :: es' => i <> node_id_ n /\ on_time timeout last es'
  | (_, Call (Heartbeat i)) :: es' => i <> node_id_ n /\ on_time timeout last es'
  | (_, Call _) :: es' => on_time timeout last es'
  end.

(** The node's entry: its own address, last heard of at [last]. *)
Definition listed (last : Z) (d : discovery) : Prop :=
  exists inst, instances_ d !! node_id_ n = Some inst /\ heartbeat_time inst = last /\
    (service_id inst, host inst, port inst) = (node_type_ n, listen_addr_ n, listen_port_ n).

Definition last_beat (last : Z) (es : list (Z * event)) : Z :=
  foldl (fun t e => match e.2 with Beat => e.1 | Call _ => t end) last es.

(** A call of someone else leaves the entry alone. *)
Lemma call_listed now o last d : discovery_wf d -> on_time (heartbeat_timeout_ms_ d) last [(now, Call o)] ->
  listed last d -> listed last (run_op now o d).2.
Proof.
  intros W Ht (inst & L & Hh & Ha).
  assert (represents d (mkRegistry (instances_ d) (listeners_ d))) as R by done.
  destruct (run_op_refines now o d _ R) as (_ & (_ & He & _) & _). unfold listed. rewrite He. clear R He.
  destruct o as [i|i|i| |s|i|i| |s l|s]; cbn in *; try (by exists inst).
  - case_decide as Hd; cbn; [by exists inst|]. exists inst. rewrite lookup_insert_ne; [done|].
    intros Hi. apply Hd. right. rewrite Hi. by exists inst.
  - exists inst. rewrite lookup_delete_ne; [done|]. by destruct Ht.
  - exists inst. rewrite lookup_alter_ne; [done|]. by destruct Ht.
  - exists inst. split; [|done]. apply map_lookup_filter_Some. split; [done|]. cbn. rewrite Hh. by destruct Ht.
Qed.

Lemma beat_listed now last d : running_ n = true -> attached n = true -> listed last d -> listed now (beat now n d).1.
Proof.
  intros Hr Ha (inst & L & _ & Had). unfold beat, heartbeat. rewrite Hr, Ha, L. cbn.
  exists (beaten now inst). cbn. by rewrite lookup_insert_eq.
Qed.

Lemma step_timeout d e : discovery_wf d ->
  discovery_wf (step d e) /\ heartbeat_timeout_ms_ (step d e) = heartbeat_timeout_ms_ d.
Proof.
  intros W. destruct e as [now [|o]]; cbn.
  - unfold beat. destruct (running_ n && attached n); [|done].
    pose proof (heartbeat_wf now (node_id_ n) d W) as W'. destruct (heartbeat now (node_id_ n) d) as [ok d'] eqn:E.
    assert (heartbeat_timeout_ms_ d' = heartbeat_timeout_ms_ d) as Ht.
    { revert E. unfold heartbeat. destruct (instances_ d !! node_id_ n); by intros [= _ <-]. }
    destruct ok; [done|]. pose proof (register_wf now (own_instance n) d' W') as W''.
    destruct (register_service now (own_instance n) d') as [[b d''] ns] eqn:E'. cbn in *. split; [done|].
    rewrite <- Ht. revert E'. unfold register_service. repeat case_decide; by intros [= _ <- _].
  - destruct (run_op_refines now o d (mkRegistry (instances_ d) (listeners_ d))) as (_ & (W' & _) & Ht); [done|done].
Qed.

(** A started node stays discoverable: as long as no cleanup comes later
    after its last heartbeat than the timeout, and nobody deregisters it,
    whatever the others do, the discovery lists it at its own address with the
    time of its last heartbeat. *)
Theorem node_stays_registered last d es : running_ n = true -> attached n = true -> discovery_wf d ->
  listed last d -> on_time (heartbeat_timeout_ms_ d) last es -> listed (last_beat last es) (foldl step d es).
Proof.
  intros Hr Ha. revert last d. induction es as [|[now e] es IH]; intros last d W L Ht; [done|].
  destruct (step_timeout d (now, e) W) as [W' Hto]. cbn [foldl last_beat].
  destruct e as [|o].
  - apply (IH now); [done|by apply (beat_listed now last)|by rewrite Hto].
  - apply (IH last); [done| |rewrite Hto; by destruct o; cbn in Ht; try destruct Ht].
    apply call_listed; [done| |done]. destruct o; cbn in *; naive_solver.
Qed.

(** After any turn of a running node's heartbeat loop the discovery knows the
    node, expired or not, as heard of at that moment. *)
Theorem beat_registers now d : running_ n = true -> attached n = true -> node_id_ n <> [] ->
  exists inst, instances_ (beat now n d).1 !! node_id_ n = Some inst /\ heartbeat_time inst = now /\ is_alive inst = true.
Proof.
  intros Hr Ha Hid. unfold beat, heartbeat. rewrite Hr, Ha. cbn.
  destruct (instances_ d !! node_id_ n) as [inst|] eqn:L; cbn.
  - exists (beaten now inst). by rewrite lookup_insert_eq.
  - unfold register_service. cbn. rewrite decide_False by done. rewrite L, decide_False by by intros [? ?].
    cbn. eexists. by rewrite lookup_insert_eq.
Qed.
End Run.

#[local] Instance demo_order : IterOrder str := key_order str.

Definition demo_node : node := set_state true true (Node (lit "n1") (lit "logic") (lit "10.0.0.1") 9000 10).
Definition demo_discovery : discovery := (register_service 1000 (own_instance demo_node) (MemoryServiceDiscovery 30000 0)).1.2.
Definition demo_events : list (Z * event) :=
  [(11000, Beat); (20000, Call Cleanup); (21000, Call (Deregister (lit "n2"))); (21000, Beat); (45000, Call Cleanup)].

Lemma demo_discovery_wf : discovery_wf demo_discovery.
Proof. apply register_wf, discovery_init_wf. Qed.

Lemma node_stays_registered_witness :
  listed demo_node 21000 (foldl (step demo_node) demo_discovery demo_events).
Proof.
  apply (node_stays_registered demo_node 1000 demo_discovery demo_events eq_refl eq_refl demo_discovery_wf).
  - exists (registered 1000 (own_instance demo_node)). split_and!; vm_compute; reflexivity.
  - by repeat split.
Defined.

Lemma beat_registers_witness :
  exists inst, instances_ (beat 50000 demo_node (MemoryServiceDiscovery 30000 0)).1 !! node_id_ demo_node = Some inst /\
    heartbeat_time inst = 50000 /\ is_alive inst = true.
Proof. by apply (beat_registers demo_node 50000 (MemoryServiceDiscovery 30000 0)). Defined.
End Node.
