(* ===== verification/Session.v ===== *)
(** * Session: src/include service/session_manager.h

    [SessionManager] keeps a session per connection (the address of its
    [TcpConnection]).  [now] is the clock in seconds at the call; an absent
    session leaves every update without effect except [login], which makes one. *)

From S2P Require Import Prelude.
From S2P Require Import Protocol.
From S2P Require Import Wire.
From S2P Require Import Effects.

Record SessionInfo := mkSession {
  player_id : str;
  room_id : str;
  gateway_id : str;
  authed : bool;
  last_active_time : Z
}.

Definition SessionInfo_default : SessionInfo := mkSession [] [] [] false 0.

Definition sessions : Type := gmap Z SessionInfo.

Definition update_active_time (now : Z) (s : SessionInfo) : SessionInfo :=
  mkSession (player_id s) (room_id s) (gateway_id s) (authed s) now.

Definition on_disconnect (c : Z) (m : sessions) : sessions := delete c m.

Definition login (now c : Z) (p : str) (m : sessions) : sessions :=
  let s := default SessionInfo_default (m !! c) in
  <[c := update_active_time now (mkSession p (room_id s) (gateway_id s) true (last_active_time s))]> m.

Definition logout (c : Z) (m : sessions) : sessions := delete c m.

Definition join_room (now c : Z) (r : str) (m : sessions) : sessions :=
  alter (fun s => update_active_time now (mkSession (player_id s) r (gateway_id s) (authed s) (last_active_time s))) c m.

Definition leave_room (now c : Z) (m : sessions) : sessions :=
  alter (fun s => update_active_time now (mkSession (player_id s) [] (gateway_id s) (authed s) (last_active_time s))) c m.

Definition set_gateway (now c : Z) (g : str) (m : sessions) : sessions :=
  alter (fun s => update_active_time now (mkSession (player_id s) (room_id s) g (authed s) (last_active_time s))) c m.

Definition is_logged_in (c : Z) (m : sessions) : bool :=
  match m !! c with Some s => authed s | None => false end.

Definition get_player_id (c : Z) (m : sessions) : str :=
  match m !! c with Some s => if authed s then player_id s else [] | None => [] end.

Definition get_room_id (c : Z) (m : sessions) : str :=
  match m !! c with Some s => room_id s | None => [] end.

Definition get_players_in_room {IO : IterOrder Z} (r : str) (m : sessions) : list str :=
  player_id <$> filter (fun s => room_id s = r /\ authed s = true) (iter m).*2.
