(* ===== verification/Game.v ===== *)
(** * Game: the service, its router and the game components

    src/include service/service.h and component.h, src/service/protocol_router.cpp,
    src/game/game_components.cpp and src/game/player_move.cpp.

    A [service] is the vector of its components, in the order they were added;
    [get_component] finds the first of a type and a message handler is the index
    of the component it calls.  Bytes of a connection go to the router, whose
    parser for that connection (Protocol.v) yields messages, each handled by the
    component registered for its command; what is sent is the sequence of
    [Sent].  A connection is the address of its [TcpConnection], a [float] its
    four bytes.  [clock] gives the successive readings of the clock. *)

From S2P Require Import Prelude.
From S2P Require Import Framing.
From S2P Require Import Protocol.
From S2P Require Import Wire.
From S2P Require Import Effects.
From S2P Require Session.
Import Endian Message.

(** ** Commands and error codes *)

Definition C2S_LOGIN : Z := 1.
Definition S2C_LOGIN : Z := 2.
Definition C2S_CHAT : Z := 3.
Definition S2C_CHAT : Z := 4.
Definition C2S_HEARTBEAT : Z := 5.
Definition S2C_HEARTBEAT : Z := 6.
Definition C2S_JOIN_ROOM : Z := 7.
Definition S2C_JOIN_ROOM : Z := 8.
Definition S2C_ERROR : Z := 255.
Definition C2S_PLAYER_MOVE : Z := 129.  (* 0x0081 *)
Definition S2C_PLAYER_POS : Z := 131.   (* 0x0083 *)

Definition INVALID_REQUEST : Z := 1.
Definition INVALID_PLAYER_ID : Z := 2.
Definition INVALID_TOKEN : Z := 3.
Definition NOT_LOGGED_IN : Z := 4.

(** ** Encodings *)

Definition encode_string (e : endianness) (s : str) : list byte := encode_bytes e s.
Definition decode_string (e : endianness) : decoder_of str := decode_bytes e.

(** [int64_t]: eight bytes, little end first, read into a signed integer. *)
Definition decode_int64 : decoder_of Z := fun data offset =>
  '(v, off) ← decode_uint64 data offset; Some ((v + 2 ^ 63) mod 2 ^ 64 - 2 ^ 63, off).
Definition encode_int64 (v : Z) : list byte := encode_le 8 v.

Definition encode_bool (b : bool) : list byte := [if b then Byte.x01 else Byte.x00].

(** A [float] by its object representation. *)
Definition float : Type := list byte.
Definition decode_float : decoder_of float := fun data offset =>
  if (length data <? offset + 4)%nat then None else Some (take 4 (drop offset data), (offset + 4)%nat).
Definition encode_float (f : float) : list byte := f.

Record PlayerPosition := mkPosition { pos_x : float; pos_y : float; pos_z : float }.

(** ** The service *)

(** [RoomComponent]'s rooms and connections. *)
Record rooms := mkRooms { rooms_ : gmap str (gset Z); connections_map_ : gset Z }.

Inductive component :=
| SessionManager (s : Session.sessions)
| ProtocolRouter (parsers : gmap Z decoder) (handlers : gmap Z nat)
| LoginComponent
| ChatComponent
| RoomComponent (r : rooms)
| HeartbeatComponent
| PlayerMoveComponent (positions : gmap str PlayerPosition).

Definition as_sessions (c : component) : option Session.sessions :=
  match c with SessionManager s => Some s | _ => None end.
Definition as_router (c : component) : option (gmap Z decoder * gmap Z nat) :=
  match c with ProtocolRouter p h => Some (p, h) | _ => None end.
Definition as_rooms (c : component) : option rooms := match c with RoomComponent r => Some r | _ => None end.

Record service := mkService { components_ : list component; reads : nat }.

Definition set_component (i : nat) (c : component) (svc : service) : service :=
  mkService (<[i := c]> (components_ svc)) (reads svc).

(** The clock was read once. *)
Definition tick (svc : service) : service := mkService (components_ svc) (S (reads svc)).

(** [get_component<T>]: the first of the type, with its index. *)
Fixpoint first_component {A} (f : component -> option A) (cs : list component) : option (nat * A) :=
  match cs with
  | [] => None
  | c :: cs' =>
      match f c with
      | Some a => Some (0%nat, a)
      | None => '(i, a) ← first_component f cs'; Some (S i, a)
      end
  end.
Definition get_component {A} (f : component -> option A) (svc : service) : option (nat * A) :=
  first_component f (components_ svc).

(** The command a component's [on_register] asks the router for. *)
Definition command_of (c : component) : option Z :=
  match c with
  | LoginComponent => Some C2S_LOGIN
  | ChatComponent => Some C2S_CHAT
  | RoomComponent _ => Some C2S_JOIN_ROOM
  | HeartbeatComponent => Some C2S_HEARTBEAT
  | PlayerMoveComponent _ => Some C2S_PLAYER_MOVE
  | SessionManager _ | ProtocolRouter _ _ => None
  end.

Definition on_register (i : nat) (c : component) (svc : service) : service :=
  match command_of c, get_component as_router svc with
  | Some command, Some (j, (parsers, handlers)) =>
      set_component j (ProtocolRouter parsers (<[command := i]> handlers)) svc
  | _, _ => svc
  end.

Definition add_component (c : component) (svc : service) : service :=
  on_register (length (components_ svc)) c (mkService (components_ svc ++ [c]) (reads svc)).

(** ** Rooms *)

Definition join_room (conn : Z) (room : str) (r : rooms) : rooms :=
  mkRooms (<[room := {[conn]} ∪ default ∅ (rooms_ r !! room)]> (rooms_ r)) ({[conn]} ∪ connections_map_ r).

Definition leave_rooms (conn : Z) (r : rooms) : rooms :=
  mkRooms (filter (fun p => p.2 <> ∅) ((fun cs : gset Z => cs ∖ {[conn]}) <$> rooms_ r))
    (connections_map_ r ∖ {[conn]}).

Section Program.
Context {IO : IterOrder Z} (clock : nat -> Z) (e : endianness).

Definition get_connections_in_room (room : str) (r : rooms) : list Z :=
  match rooms_ r !! room with
  | None => []
  | Some cs => filter (fun c => c ∈ connections_map_ r) (iter_set cs)
  end.

(** ** What is sent *)

Definition error_response (code : Z) (message : str) : Message :=
  mkMessage S2C_ERROR (mem16 e (host_to_net16 e code) ++ encode_string e message).
Definition login_response (ok : bool) (message : str) : Message :=
  mkMessage S2C_LOGIN (encode_bool ok ++ encode_string e message).
Definition chat_message (from content : str) : Message :=
  mkMessage S2C_CHAT (encode_string e from ++ encode_string e content).
Definition join_room_response (ok : bool) (message room : str) : Message :=
  mkMessage S2C_JOIN_ROOM (encode_bool ok ++ encode_string e message ++ encode_string e room).
Definition heartbeat_response (timestamp_ms : Z) : Message :=
  mkMessage S2C_HEARTBEAT (encode_int64 timestamp_ms).
Definition player_position_message (p : str) (pos : PlayerPosition) : Message :=
  mkMessage S2C_PLAYER_POS
    (encode_string e p ++ encode_float (pos_x pos) ++ encode_float (pos_y pos) ++ encode_float (pos_z pos)).

(** ** Handlers *)

Definition effect : Type := service -> service * list Sent.

Definition reply (conn : Z) (m : Message) : effect := fun svc => (svc, [mkSent conn m]).
Definition refuse (conn code : Z) (message : string) : effect := reply conn (error_response code (lit message)).

(** A call on the session manager, if there is one, with the time it reads. *)
Definition on_sessions (f : Z -> Session.sessions -> Session.sessions) (svc : service) : service :=
  match get_component as_sessions svc with
  | Some (i, s) =>
      tick (set_component i (SessionManager (f (clock (reads svc)) s)) svc)
  | None => svc
  end.

Definition handle_login (conn : Z) (data : list byte) : effect := fun svc =>
  match decode_string e data 0%nat with
  | None => refuse conn INVALID_REQUEST "Failed to decode player_id" svc
  | Some (player, off) =>
      match decode_string e data off with
      | None => refuse conn INVALID_REQUEST "Failed to decode token" svc
      | Some (token, _) =>
          if decide (player = []) then refuse conn INVALID_PLAYER_ID "Player ID cannot be empty" svc
          else if decide (token = []) then refuse conn INVALID_TOKEN "Token cannot be empty" svc
          else reply conn (login_response true (lit "Login success"))
                 (on_sessions (fun now => Session.login now conn player) svc)
      end
  end.

Definition broadcast (room : str) (m : Message) : effect := fun svc =>
  match get_component as_rooms svc with
  | None => (svc, [])
  | Some (_, r) => (svc, (fun c => mkSent c m) <$> get_connections_in_room room r)
  end.

Definition handle_chat (conn : Z) (data : list byte) : effect := fun svc =>
  match decode_string e data 0%nat with
  | None => refuse conn INVALID_REQUEST "Failed to decode room_id" svc
  | Some (room, off) =>
      match decode_string e data off with
      | None => refuse conn INVALID_REQUEST "Failed to decode content" svc
      | Some (content, _) =>
          match get_component as_sessions svc with
          | Some (_, s) =>
              let player := Session.get_player_id conn s in
              if decide (player = []) then refuse conn NOT_LOGGED_IN "Please login first" svc
              else broadcast room (chat_message player content) svc
          | None => broadcast room (chat_message (lit "unknown") content) svc
          end
      end
  end.

(** [i]: the component's own index. *)
Definition handle_join_room (i : nat) (own : rooms) (conn : Z) (data : list byte) : effect := fun svc =>
  match decode_string e data 0%nat with
  | None => refuse conn INVALID_REQUEST "Failed to decode room_id" svc
  | Some (room, _) =>
      if decide (room = []) then refuse conn INVALID_REQUEST "Room ID cannot be empty" svc
      else
        let logged := match get_component as_sessions svc with
                      | Some (_, s) => Session.is_logged_in conn s
                      | None => true
                      end in
        if negb logged then refuse conn NOT_LOGGED_IN "Please login first" svc
        else
          let svc := set_component i (RoomComponent (join_room conn room own)) svc in
          let svc := on_sessions (fun now => Session.join_room now conn room) svc in
          reply conn (join_room_response true (lit "Join room success") room) svc
  end.

Definition handle_heartbeat (conn : Z) (data : list byte) : effect := fun svc =>
  match decode_int64 data 0%nat with
  | None => (svc, [])
  | Some (timestamp_ms, _) => reply conn (heartbeat_response timestamp_ms) svc
  end.

Definition session_player (conn : Z) (svc : service) : str :=
  match get_component as_sessions svc with Some (_, s) => Session.get_player_id conn s | None => [] end.
Definition session_room (conn : Z) (svc : service) : str :=
  match get_component as_sessions svc with Some (_, s) => Session.get_room_id conn s | None => [] end.

Definition update_player_position (p : str) (pos : PlayerPosition) (m : gmap str PlayerPosition) : gmap str PlayerPosition :=
  <[p := pos]> m.
Definition get_player_position (p : str) (m : gmap str PlayerPosition) : option PlayerPosition := m !! p.

Definition handle_player_move (i : nat) (own : gmap str PlayerPosition) (conn : Z) (data : list byte) : effect := fun svc =>
  match ('(x, off) ← decode_float data 0%nat; '(y, off) ← decode_float data off; '(z, _) ← decode_float data off;
         Some (mkPosition x y z)) with
  | None => (svc, [])
  | Some pos =>
      let player := session_player conn svc in
      if decide (player = []) then (svc, [])
      else
        let svc := set_component i (PlayerMoveComponent (update_player_position player pos own)) svc in
        let room := session_room conn svc in
        if decide (room = []) then (svc, []) else broadcast room (player_position_message player pos) svc
  end.

(** The handler of the component at an index. *)
Definition handle (i : nat) (conn : Z) (msg : Message) : effect := fun svc =>
  match components_ svc !! i with
  | Some LoginComponent => handle_login conn (body msg) svc
  | Some ChatComponent => handle_chat conn (body msg) svc
  | Some (RoomComponent r) => handle_join_room i r conn (body msg) svc
  | Some HeartbeatComponent => handle_heartbeat conn (body msg) svc
  | Some (PlayerMoveComponent p) => handle_player_move i p conn (body msg) svc
  | Some (SessionManager _) | Some (ProtocolRouter _ _) | None => (svc, [])
  end.

(** ** Routing and dispatch *)

(** One turn of the router's loop: the handlers are those of router [j]. *)
Definition route (j : nat) (conn : Z) (msg : Message) : effect := fun svc =>
  match components_ svc !! j with
  | Some (ProtocolRouter _ handlers) =>
      match handlers !! cmd msg with Some i => handle i conn msg svc | None => (svc, []) end
  | _ => (svc, [])
  end.

Fixpoint route_all (j : nat) (conn : Z) (msgs : list Message) : effect := fun svc =>
  match msgs with
  | [] => (svc, [])
  | m :: ms =>
      let '(svc1, out1) := route j conn m svc in
      let '(svc2, out2) := route_all j conn ms svc1 in (svc2, out1 ++ out2)
  end.

(** [on_message] of the component at index [j]; only the router has one. *)
Definition on_message (j : nat) (conn : Z) (data : list byte) (svc : service) : outcome (service * list Sent) :=
  match components_ svc !! j with
  | Some (ProtocolRouter parsers handlers) =>
      '(msgs, p) ←o Parser.feed e data (default decoder_init (parsers !! conn));
      Ok (route_all j conn msgs (set_component j (ProtocolRouter (<[conn := p]> parsers) handlers) svc))
  | _ => Ok (svc, [])
  end.

Fixpoint dispatch_from (js : list nat) (conn : Z) (data : list byte) (svc : service) : outcome (service * list Sent) :=
  match js with
  | [] => Ok (svc, [])
  | j :: js' =>
      '(svc1, out1) ←o on_message j conn data svc;
      '(svc2, out2) ←o dispatch_from js' conn data svc1;
      Ok (svc2, out1 ++ out2)
  end.

Definition dispatch_message (conn : Z) (data : list byte) (svc : service) : outcome (service * list Sent) :=
  dispatch_from (seq 0 (length (components_ svc))) conn data svc.

(** [on_disconnect] of the component at index [j]. *)
Definition on_disconnect (conn : Z) (svc : service) (j : nat) : service :=
  match components_ svc !! j with
  | Some (SessionManager s) => set_component j (SessionManager (Session.on_disconnect conn s)) svc
  | Some (ProtocolRouter parsers handlers) => set_component j (ProtocolRouter (delete conn parsers) handlers) svc
  | Some (RoomComponent r) =>
      on_sessions (fun now => Session.leave_room now conn) (set_component j (RoomComponent (leave_rooms conn r)) svc)
  | Some (PlayerMoveComponent p) =>
      let player := session_player conn svc in
      if decide (player = []) then svc else set_component j (PlayerMoveComponent (delete player p)) svc
  | _ => svc
  end.

Definition dispatch_disconnect (conn : Z) (svc : service) : service :=
  foldl (on_disconnect conn) svc (seq 0 (length (components_ svc))).
End Program.

(** A receiver decodes a chat message exactly as long as the name and the
    content together take at most 65531 bytes; beyond, it decodes a shorter one
    and what remains of the bytes sent is read as further messages. *)
Theorem chat_on_the_wire e (player content : list byte) m0 :
  let m := chat_message e player content in
  if Z.of_nat (length player) + Z.of_nat (length content) <=? 65531 then
    deserialize e (serialize e m) m0 = (true, m)
  else exists m' rest, deserialize e (serialize e m) m0 = (true, m') /\
    (length (body m') < length (body m))%nat /\ rest <> [] /\ serialize e m = serialize e m' ++ rest.
Proof.
  intros m. assert (length (body m) = (4 + length player + length content)%nat) as Hl.
  { cbn. unfold encode_string, encode_bytes. rewrite !length_app, !length_mem16. lia. }
  rewrite deserialize_serialize_any by done. case_test.
  - f_equal. rewrite uwrap_small by (rewrite Hl; lia). rewrite Nat2Z.id, take_ge by lia. done.
  - pose proof (uwrap_range 16 (Z.of_nat (length (body m)))) as Hr. set (n := u16 (Z.of_nat (length (body m)))) in *.
    exists (mkMessage (cmd m) (take (Z.to_nat n) (body m))), (drop (Z.to_nat n) (body m)).
    assert (length (take (Z.to_nat n) (body m)) = Z.to_nat n) as Ht by (rewrite length_take; lia).
    split; [done|]. cbn [body]. rewrite Ht. split; [lia|]. split.
    + intros Hd%(f_equal length). rewrite length_drop, Hl in Hd. simpl length in Hd. lia.
    + unfold serialize. cbn [body cmd]. rewrite Ht, Z2Nat.id by lia.
      rewrite (uwrap_small 16 n) by lia. fold n. by rewrite <- !app_assoc, take_drop.
Qed.
