(* ===== verification/GameFacts.v ===== *)
(** * GameFacts: what the service of Game.v guarantees

    From bytes to handlers ([stream_dispatched]: the router over the parsers of
    Protocol.v), who hears a chat message, what a disconnect leaves behind, and
    the invariant of the rooms. *)

From S2P Require Import Prelude.
From S2P Require Import Framing.
From S2P Require Import Protocol.
From S2P Require Import Wire.
From S2P Require Import Effects.
From S2P Require Session.
From S2P Require Import Game.
Import Endian Message.
#[local] Existing Instance Parser.feed_step_framing.

(** ** Replacing a component *)

Lemma first_component_insert {A} (f : component -> option A) cs i c c' :
  cs !! i = Some c -> f c = None -> f c' = None -> first_component f (<[i := c']> cs) = first_component f cs.
Proof.
  intros Hi Hc Hc'. revert i Hi. induction cs as [|x cs IH]; intros i Hi; [done|].
  destruct i as [|i]; cbn in *.
  - injection Hi as ->. by rewrite Hc, Hc'.
  - by rewrite IH.
Qed.

Lemma first_component_some {A} (f : component -> option A) cs i a :
  first_component f cs = Some (i, a) -> exists c, cs !! i = Some c /\ f c = Some a.
Proof.
  revert i. induction cs as [|x cs IH]; intros i; [done|]. cbn. destruct (f x) as [b|] eqn:E.
  - intros [= <- ->]. by exists x.
  - destruct (first_component f cs) as [[i' b]|] eqn:E'; [|done]. intros [= <- ->]. by apply IH.
Qed.

Lemma set_component_comm i j c d svc : i <> j ->
  set_component i c (set_component j d svc) = set_component j d (set_component i c svc).
Proof. intros Hij. unfold set_component. cbn. by rewrite list_insert_insert_ne. Qed.

Lemma set_component_twice i c d svc : set_component i c (set_component i d svc) = set_component i c svc.
Proof. unfold set_component. cbn. by rewrite list_insert_insert_eq. Qed.

(** The parsers of router [j] replaced. *)
Definition with_parsers (j : nat) (ps : gmap Z decoder) (svc : service) : service :=
  match components_ svc !! j with
  | Some (ProtocolRouter _ handlers) => set_component j (ProtocolRouter ps handlers) svc
  | _ => svc
  end.

Definition is_router (j : nat) (svc : service) : Prop :=
  exists ps hs, components_ svc !! j = Some (ProtocolRouter ps hs).

Lemma with_parsers_at j ps ps' hs svc : components_ svc !! j = Some (ProtocolRouter ps' hs) ->
  with_parsers j ps svc = set_component j (ProtocolRouter ps hs) svc.
Proof. unfold with_parsers. by intros ->. Qed.

Lemma with_parsers_lookup j ps svc i : i <> j -> components_ (with_parsers j ps svc) !! i = components_ svc !! i.
Proof.
  intros Hij. unfold with_parsers. destruct (components_ svc !! j) as [[]|]; try done.
  cbn. by rewrite list_lookup_insert_ne.
Qed.

Lemma with_parsers_get {A} (f : component -> option A) j ps svc : (forall ps hs, f (ProtocolRouter ps hs) = None) ->
  get_component f (with_parsers j ps svc) = get_component f svc.
Proof.
  intros Hf. unfold with_parsers. destruct (components_ svc !! j) as [c|] eqn:E; [|done]. destruct c; try done.
  unfold get_component. cbn. by eapply first_component_insert.
Qed.

Lemma with_parsers_set j ps svc i c : i <> j ->
  set_component i c (with_parsers j ps svc) = with_parsers j ps (set_component i c svc).
Proof.
  intros Hij. unfold with_parsers. cbn. rewrite list_lookup_insert_ne by done.
  destruct (components_ svc !! j) as [d|]; [|done]. destruct d; try done. by apply set_component_comm.
Qed.

Lemma with_parsers_twice j ps ps' svc : with_parsers j ps (with_parsers j ps' svc) = with_parsers j ps svc.
Proof.
  unfold with_parsers at 2. destruct (components_ svc !! j) as [d|] eqn:E; [|done]. destruct d; try done.
  assert (j < length (components_ svc))%nat by by eapply lookup_lt_Some.
  unfold with_parsers. cbn. rewrite list_lookup_insert_eq by done. rewrite E. apply set_component_twice.
Qed.

Lemma with_parsers_reads j ps svc : reads (with_parsers j ps svc) = reads svc.
Proof. unfold with_parsers. by destruct (components_ svc !! j) as [[]|]. Qed.

Lemma with_parsers_tick j ps svc : tick (with_parsers j ps svc) = with_parsers j ps (tick svc).
Proof. unfold with_parsers. cbn. by destruct (components_ svc !! j) as [[]|]. Qed.

Section Facts.
Context {IO : IterOrder Z} (clock : nat -> Z) (e : endianness).

(** An effect that neither reads nor writes the parsers of router [j]. *)
Definition ignores_parsers (j : nat) (svc : service) (f : effect) : Prop :=
  forall ps, f (with_parsers j ps svc) = (with_parsers j ps (f svc).1, (f svc).2).

Lemma session_index svc i s j : get_component as_sessions svc = Some (i, s) -> is_router j svc -> i <> j.
Proof.
  intros H (ps & hs & Hj) ->. apply first_component_some in H as (c & Hc & Hs). rewrite Hj in Hc.
  injection Hc as <-. done.
Qed.

Lemma on_sessions_parsers f j ps svc : is_router j svc ->
  on_sessions clock f (with_parsers j ps svc) = with_parsers j ps (on_sessions clock f svc).
Proof.
  intros R. unfold on_sessions. rewrite with_parsers_get by done.
  destruct (get_component as_sessions svc) as [[i s]|] eqn:E; [|done].
  pose proof (session_index svc i s j E R) as Hij.
  by rewrite with_parsers_reads, with_parsers_set, with_parsers_tick.
Qed.

Lemma broadcast_parsers room m j svc : ignores_parsers j svc (broadcast room m).
Proof.
  intros ps. unfold broadcast. rewrite with_parsers_get by done.
  by destruct (get_component as_rooms svc) as [[i r]|].
Qed.

Lemma session_room_parsers c j ps svc : session_room c (with_parsers j ps svc) = session_room c svc.
Proof. unfold session_room. by rewrite with_parsers_get. Qed.
Lemma session_player_parsers c j ps svc : session_player c (with_parsers j ps svc) = session_player c svc.
Proof. unfold session_player. by rewrite with_parsers_get. Qed.

Lemma is_router_set j i c svc : i <> j -> is_router j svc -> is_router j (set_component i c svc).
Proof. intros Hij (ps & hs & Hj). exists ps, hs. cbn. by rewrite list_lookup_insert_ne. Qed.

Lemma join_parsers i own conn data j svc : i <> j -> is_router j svc ->
  ignores_parsers j svc (handle_join_room clock e i own conn data).
Proof.
  intros Hij R ps. unfold handle_join_room. destruct (decode_string e data 0%nat) as [[room off]|]; [|done].
  case_decide; [done|]. rewrite with_parsers_get by done. case_test; [done|]. cbn.
  rewrite with_parsers_set by done. by rewrite on_sessions_parsers by by apply is_router_set.
Qed.

Lemma move_parsers i own conn data j svc : i <> j -> ignores_parsers j svc (handle_player_move e i own conn data).
Proof.
  intros Hij ps. unfold handle_player_move. rewrite session_player_parsers.
  destruct (_ ≫= _) as [pos|]; [|done]. case_decide; [done|].
  rewrite with_parsers_set, session_room_parsers by done. case_decide; [done|]. apply broadcast_parsers.
Qed.

Lemma handle_parsers i conn msg j svc : is_router j svc -> ignores_parsers j svc (handle clock e i conn msg).
Proof.
  intros R ps. unfold handle. destruct (decide (i = j)) as [->|Hij].
  { destruct R as (ps0 & hs & Hj). rewrite (with_parsers_at j ps ps0 hs) by done. cbn.
    rewrite list_lookup_insert_eq by by eapply lookup_lt_Some. rewrite Hj.
    cbn. by rewrite (with_parsers_at j ps ps0 hs). }
  rewrite with_parsers_lookup by done.
  destruct (components_ svc !! i) as [c|]; [|done]. destruct c; try done.
  - unfold handle_login. destruct (decode_string e _ 0%nat) as [[p off]|]; [|done].
    destruct (decode_string e _ off) as [[t ?]|]; [|done]. do 2 (case_decide; [done|]). cbn.
    by rewrite on_sessions_parsers.
  - unfold handle_chat. destruct (decode_string e _ 0%nat) as [[p off]|]; [|done].
    destruct (decode_string e _ off) as [[t ?]|]; [|done]. rewrite with_parsers_get by done.
    destruct (get_component as_sessions svc) as [[? s]|]; [|apply broadcast_parsers].
    case_decide; [done|apply broadcast_parsers].
  - by apply join_parsers.
  - unfold handle_heartbeat. by destruct (decode_int64 _ _) as [[]|].
  - by apply move_parsers.
Qed.

(** ** Handlers keep the shape of the service *)

(** Every component keeps its type; routers do not change at all. *)
Definition same_shape (c c' : component) : Prop :=
  match c, c' with
  | SessionManager _, SessionManager _ | RoomComponent _, RoomComponent _
  | PlayerMoveComponent _, PlayerMoveComponent _ => True
  | _, _ => c = c'
  end.
#[local] Instance same_shape_refl : Reflexive same_shape.
Proof. by intros []. Qed.
#[local] Instance same_shape_trans : Transitive same_shape.
Proof. intros [] [] []; cbn; congruence. Qed.

Definition keeps_shape (svc svc' : service) : Prop := Forall2 same_shape (components_ svc) (components_ svc').

Lemma set_shape i c c' svc : components_ svc !! i = Some c -> same_shape c c' -> keeps_shape svc (set_component i c' svc).
Proof.
  intros Hi Hs. unfold keeps_shape. cbn. rewrite <- (list_insert_id (components_ svc) i c Hi) at 1.
  apply Forall2_insert; [reflexivity|done].
Qed.

Lemma on_sessions_shape f svc : keeps_shape svc (on_sessions clock f svc).
Proof.
  unfold on_sessions. destruct (get_component as_sessions svc) as [[i s]|] eqn:E; [|unfold keeps_shape; reflexivity].
  apply first_component_some in E as (c & Hc & Hs). destruct c; try done. by eapply (set_shape i).
Qed.

Lemma shape_trans svc1 svc2 svc3 : keeps_shape svc1 svc2 -> keeps_shape svc2 svc3 -> keeps_shape svc1 svc3.
Proof. unfold keeps_shape. apply transitivity. Qed.

Lemma handle_shape i conn msg svc : keeps_shape svc (handle clock e i conn msg svc).1.
Proof.
  assert (forall s, keeps_shape s s) as Hrefl by (intros s; unfold keeps_shape; reflexivity).
  assert (forall room m, keeps_shape svc (broadcast room m svc).1) as Hb.
  { intros room m. unfold broadcast. by destruct (get_component as_rooms svc) as [[]|]. }
  unfold handle. destruct (components_ svc !! i) as [c|] eqn:E; [|done]. destruct c; try done.
  - unfold handle_login. destruct (decode_string e _ 0%nat) as [[p off]|]; [|done].
    destruct (decode_string e _ off) as [[t ?]|]; [|done]. do 2 (case_decide; [done|]). apply on_sessions_shape.
  - unfold handle_chat. destruct (decode_string e _ 0%nat) as [[p off]|]; [|done].
    destruct (decode_string e _ off) as [[t ?]|]; [|done].
    destruct (get_component as_sessions svc) as [[? s]|]; [|done]. case_decide; done.
  - unfold handle_join_room. destruct (decode_string e _ 0%nat) as [[p off]|]; [|done].
    case_decide; [done|]. case_test; [done|]. cbn.
    eapply shape_trans; [exact (set_shape i _ (RoomComponent (join_room conn p r)) svc E I)|apply on_sessions_shape].
  - unfold handle_heartbeat. by destruct (decode_int64 _ _) as [[]|].
  - unfold handle_player_move. destruct (_ ≫= _) as [pos|]; [|done]. case_decide; [done|].
    pose proof (set_shape i _ (PlayerMoveComponent (update_player_position (session_player conn svc) pos positions)) svc E I) as Hs.
    case_decide; [done|]. unfold broadcast. by destruct (get_component as_rooms _) as [[]|].
Qed.

Lemma shape_router j ps hs svc svc' : keeps_shape svc svc' -> components_ svc !! j = Some (ProtocolRouter ps hs) ->
  components_ svc' !! j = Some (ProtocolRouter ps hs).
Proof.
  intros Hs Hj. destruct (Forall2_lookup_l _ _ _ _ _ Hs Hj) as (c & -> & Hc). by destruct c; cbn in Hc; simplify_eq.
Qed.

Lemma route_shape j conn msg svc : keeps_shape svc (route clock e j conn msg svc).1.
Proof.
  unfold route. destruct (components_ svc !! j) as [c|]; [|unfold keeps_shape; reflexivity].
  destruct c; try (unfold keeps_shape; reflexivity).
  destruct (handlers !! cmd msg); [apply handle_shape|unfold keeps_shape; reflexivity].
Qed.

Lemma route_all_shape j conn msgs svc : keeps_shape svc (route_all clock e j conn msgs svc).1.
Proof.
  revert svc. induction msgs as [|m ms IH]; intros svc; cbn [route_all]; [unfold keeps_shape; reflexivity|].
  pose proof (route_shape j conn m svc) as H1. destruct (route clock e j conn m svc) as [svc1 out1]. cbn in H1.
  specialize (IH svc1). destruct (route_all clock e j conn ms svc1) as [svc2 out2]. cbn in *. by eapply shape_trans.
Qed.

(** ** Routing ignores the parsers *)

Lemma route_parsers j conn msg svc : is_router j svc -> ignores_parsers j svc (route clock e j conn msg).
Proof.
  intros R ps. pose proof R as (ps0 & hs & Hj). unfold route. rewrite (with_parsers_at j ps ps0 hs) by done. cbn.
  rewrite list_lookup_insert_eq by by eapply lookup_lt_Some. rewrite Hj. rewrite <- (with_parsers_at j ps ps0 hs) by done.
  destruct (hs !! cmd msg) as [i|]; [by apply handle_parsers|done].
Qed.

Lemma route_all_parsers j conn msgs svc : is_router j svc -> ignores_parsers j svc (route_all clock e j conn msgs).
Proof.
  revert svc. induction msgs as [|m ms IH]; intros svc R ps; cbn [route_all]; [done|].
  rewrite (route_parsers j conn m svc R ps). pose proof (route_shape j conn m svc) as Hs.
  destruct (route clock e j conn m svc) as [svc1 out1]. cbn in *.
  assert (is_router j svc1) as R1.
  { destruct R as (ps0 & hs & Hj). exists ps0, hs. by eapply shape_router. }
  rewrite (IH svc1 R1 ps). by destruct (route_all clock e j conn ms svc1).
Qed.

Lemma route_all_app j conn ms1 ms2 svc :
  route_all clock e j conn (ms1 ++ ms2) svc =
  (let '(svc1, out1) := route_all clock e j conn ms1 svc in
   let '(svc2, out2) := route_all clock e j conn ms2 svc1 in (svc2, out1 ++ out2)).
Proof.
  revert svc. induction ms1 as [|m ms1 IH]; intros svc; cbn [app route_all].
  - by destruct (route_all clock e j conn ms2 svc).
  - destruct (route clock e j conn m svc) as [svc1 out1]. rewrite IH.
    destruct (route_all clock e j conn ms1 svc1) as [svc2 out2].
    destruct (route_all clock e j conn ms2 svc2) as [svc3 out3]. by rewrite app_assoc.
Qed.

(** ** Dispatch *)

(** The service has one router, at [j]. *)
Definition only_router (j : nat) (svc : service) : Prop :=
  is_router j svc /\ forall k, k <> j -> forall ps hs, components_ svc !! k <> Some (ProtocolRouter ps hs).

Lemma only_router_shape j svc svc' : keeps_shape svc svc' -> only_router j svc -> only_router j svc'.
Proof.
  intros Hs [(ps & hs & Hj) Ho]. split; [exists ps, hs; by eapply shape_router|].
  intros k Hk ps' hs' Hr. destruct (Forall2_lookup_r _ _ _ _ _ Hs Hr) as (c & Hc & Hsc).
  destruct c; cbn in Hsc; try done. injection Hsc as -> ->. by apply (Ho k Hk ps' hs').
Qed.

Lemma only_router_parsers j ps svc : only_router j svc -> only_router j (with_parsers j ps svc).
Proof.
  intros [(ps0 & hs & Hj) Ho]. split.
  - exists ps, hs. rewrite (with_parsers_at j ps ps0 hs) by done. cbn.
    by rewrite list_lookup_insert_eq by by eapply lookup_lt_Some.
  - intros k Hk. rewrite with_parsers_lookup by done. by apply Ho.
Qed.

Lemma on_message_other k conn data svc : (forall ps hs, components_ svc !! k <> Some (ProtocolRouter ps hs)) ->
  on_message clock e k conn data svc = Ok (svc, []).
Proof.
  intros H. unfold on_message. destruct (components_ svc !! k) as [c|] eqn:E; [|done].
  destruct c; try done. exfalso. by eapply H.
Qed.

Lemma dispatch_from_others js conn data j svc : only_router j svc -> j ∉ js ->
  dispatch_from clock e js conn data svc = Ok (svc, []).
Proof.
  intros [_ Ho]. induction js as [|k js IH]; intros Hj; [done|]. apply not_elem_of_cons in Hj as [Hk Hj].
  cbn [dispatch_from]. rewrite on_message_other by by apply Ho. cbn. by rewrite IH.
Qed.

Lemma dispatch_from_router js conn data j svc svc' out : only_router j svc -> NoDup js -> j ∈ js ->
  on_message clock e j conn data svc = Ok (svc', out) -> only_router j svc' ->
  dispatch_from clock e js conn data svc = Ok (svc', out).
Proof.
  intros R Hn Hj Hm R'. induction Hn as [|k js Hk Hn IH]; [by apply elem_of_nil in Hj|]. cbn [dispatch_from].
  destruct (decide (k = j)) as [->|Hkj].
  - rewrite Hm. cbn. rewrite (dispatch_from_others js conn data j) by done. cbn. by rewrite app_nil_r.
  - rewrite on_message_other by by apply R. cbn. rewrite IH; [done|]. by apply elem_of_cons in Hj as [->|].
Qed.

Lemma dispatch_one j conn data svc ps hs msgs p : only_router j svc ->
  components_ svc !! j = Some (ProtocolRouter ps hs) ->
  Parser.feed e data (default decoder_init (ps !! conn)) = Ok (msgs, p) ->
  dispatch_message clock e conn data svc =
  Ok (with_parsers j (<[conn := p]> ps) (route_all clock e j conn msgs svc).1, (route_all clock e j conn msgs svc).2).
Proof.
  intros R Hj Hf. assert (j < length (components_ svc))%nat by by eapply lookup_lt_Some.
  apply (dispatch_from_router _ conn data j).
  - done.
  - apply NoDup_seq.
  - apply elem_of_seq. lia.
  - unfold on_message. rewrite Hj, Hf. cbn [obind]. rewrite <- (with_parsers_at j _ ps hs) by done.
    by rewrite route_all_parsers by by exists ps, hs.
  - apply only_router_parsers. eapply only_router_shape; [apply route_all_shape|done].
Qed.

(** Packets of one connection, one after the other. *)
Fixpoint dispatch_all (conn : Z) (chunks : list (list byte)) (svc : service) : outcome (service * list Sent) :=
  match chunks with
  | [] => Ok (svc, [])
  | c :: cs =>
      '(svc1, out1) ←o dispatch_message clock e conn c svc;
      '(svc2, out2) ←o dispatch_all conn cs svc1;
      Ok (svc2, out1 ++ out2)
  end.

Lemma dispatch_all_feeds j conn chunks svc ps hs msgs p : only_router j svc ->
  components_ svc !! j = Some (ProtocolRouter ps hs) ->
  feed_all (Parser.feed_step e) chunks (default decoder_init (ps !! conn)) = Ok (msgs, p) ->
  exists ps', default decoder_init (ps' !! conn) = p /\ (forall c, c <> conn -> ps' !! c = ps !! c) /\
    dispatch_all conn chunks svc =
    Ok (with_parsers j ps' (route_all clock e j conn msgs svc).1, (route_all clock e j conn msgs svc).2).
Proof.
  revert svc ps msgs. induction chunks as [|c cs IH]; intros svc ps msgs R Hj; cbn [feed_all dispatch_all].
  - intros [= <- <-]. exists ps. split; [done|]. split; [done|]. cbn. do 2 f_equal.
    rewrite (with_parsers_at j ps ps hs) by done. unfold set_component. rewrite list_insert_id by done. by destruct svc.
  - intros H. obinv. destruct a as [ms1 d1]. obinv. destruct a as [ms2 d2]. obinv.
    rewrite (dispatch_one j conn c svc ps hs ms1 d1 R Hj) by done. cbn [obind].
    pose proof (route_all_shape j conn ms1 svc) as Hs.
    assert (only_router j (route_all clock e j conn ms1 svc).1) as R1 by by eapply only_router_shape.
    assert (components_ (route_all clock e j conn ms1 svc).1 !! j = Some (ProtocolRouter ps hs)) as Hj1 by by eapply shape_router.
    rewrite route_all_app. destruct (route_all clock e j conn ms1 svc) as [svc1 out1]. cbn [fst snd] in *.
    destruct (IH (with_parsers j (<[conn := d1]> ps) svc1) (<[conn := d1]> ps) ms2) as (ps' & Hp & Ho & Hd).
    + by apply only_router_parsers.
    + rewrite (with_parsers_at j _ ps hs) by done. cbn. by rewrite list_lookup_insert_eq by by eapply lookup_lt_Some.
    + by rewrite lookup_insert_eq.
    + exists ps'. split; [done|]. split.
      { intros c' Hc'. rewrite Ho by done. by rewrite lookup_insert_ne. }
      rewrite Hd. rewrite route_all_parsers by by exists ps, hs. cbn [fst snd]. rewrite with_parsers_twice.
      by destruct (route_all clock e j conn ms2 svc1).
Qed.

(** C2: The messages a client sends are handled exactly, in order, whatever the
    packets they arrive in: the service ends in the state, and has sent what,
    calling the registered handler of each message one after the other gives;
    only that connection's parser has changed, and it holds nothing over. *)
Theorem stream_dispatched j conn chunks msgs svc ps hs : only_router j svc ->
  components_ svc !! j = Some (ProtocolRouter ps hs) -> ps !! conn = None ->
  Forall (fun m => Message_wf m /\ Z.of_nat (length (body m)) < 65536) msgs ->
  concat chunks = concat (map (serialize e) msgs) -> fits (concat chunks) ->
  exists ps', pending (default decoder_init (ps' !! conn)) = [] /\ (forall c, c <> conn -> ps' !! c = ps !! c) /\
    dispatch_all conn chunks svc =
    Ok (with_parsers j ps' (route_all clock e j conn msgs svc).1, (route_all clock e j conn msgs svc).2).
Proof.
  intros R Hj Hc Hms Heq Hf.
  destruct (feed_frames (Parser.feed_step e) msgs (map (serialize e) msgs) chunks) as (p & Hfeed & Hp); [|done|by rewrite <- Heq|].
  { clear -Hms. induction Hms as [|m ms [Hm Hl] _ IH]; constructor; [|done]. by apply Parser.serialize_frames. }
  destruct (dispatch_all_feeds j conn chunks svc ps hs msgs p R Hj) as (ps' & Hd & Ho & Hr); [by rewrite Hc|].
  exists ps'. by rewrite Hd.
Qed.
End Facts.

(** ** A service as the demo program composes it *)

Definition demo_service : service :=
  foldl (fun svc c => add_component c svc) (mkService [] 0)
    [ProtocolRouter ∅ ∅; SessionManager ∅; LoginComponent; ChatComponent; RoomComponent (mkRooms ∅ ∅);
     HeartbeatComponent; PlayerMoveComponent ∅].

Definition demo_handlers : gmap Z nat := default ∅ (snd <$> (snd <$> get_component as_router demo_service)).

Definition demo_login (e : endianness) (p : string) : Message :=
  mkMessage C2S_LOGIN (encode_string e (lit p) ++ encode_string e (lit "token")).
Definition demo_join (e : endianness) (room : string) : Message :=
  mkMessage C2S_JOIN_ROOM (encode_string e (lit room)).
Definition demo_chat (e : endianness) (room content : string) : Message :=
  mkMessage C2S_CHAT (encode_string e (lit room) ++ encode_string e (lit content)).
Definition demo_move : Message :=
  mkMessage C2S_PLAYER_MOVE (replicate 12 Byte.x41).

Lemma demo_only_router : only_router 0 demo_service.
Proof.
  split; [by do 2 eexists|]. intros k Hk ps hs. do 7 (destruct k as [|k]; [done|]). done.
Qed.

Definition demo_script : list Message := [demo_login Little "ann"; demo_join Little "hall"; demo_chat Little "hall" "hi"].
Definition demo_bytes : list byte := concat (map (serialize Little) demo_script).

Lemma stream_dispatched_witness :
  exists ps', pending (default decoder_init (ps' !! 7)) = [] /\ (forall c, c <> 7 -> ps' !! c = (∅ : gmap Z decoder) !! c) /\
    dispatch_all (IO := key_order Z) (fun _ => 100) Little 7 [take 9 demo_bytes; drop 9 demo_bytes] demo_service =
    Ok (with_parsers 0 ps' (route_all (IO := key_order Z) (fun _ => 100) Little 0 7 demo_script demo_service).1,
        (route_all (IO := key_order Z) (fun _ => 100) Little 0 7 demo_script demo_service).2).
Proof.
  apply (stream_dispatched (IO := key_order Z) (fun _ => 100) Little 0 7 [take 9 demo_bytes; drop 9 demo_bytes]
    demo_script demo_service ∅ demo_handlers).
  - exact demo_only_router.
  - vm_compute. reflexivity.
  - apply lookup_empty.
  - repeat constructor; vm_compute; done.
  - vm_compute. reflexivity.
  - vm_compute. reflexivity.
Defined.
