(* ===== verification/GameRooms.v ===== *)
(** * GameRooms: rooms, chat and disconnects of the service of Game.v

    The invariant of the rooms, who hears a chat message, which messages
    survive the wire, and what a disconnect forgets. *)

From S2P Require Import Prelude.
From S2P Require Import Framing.
From S2P Require Import Protocol.
From S2P Require Import Wire.
From S2P Require Import Effects.
From S2P Require Session.
From S2P Require Import Game.
From S2P Require Import GameFacts.
Import Endian Message.

(** ** The rooms' invariant *)

(** No room is empty and every member's connection is known. *)
Definition rooms_wf (r : rooms) : Prop :=
  forall room cs, rooms_ r !! room = Some cs -> cs <> ∅ /\ cs ⊆ connections_map_ r.

Lemma join_room_wf conn room r : rooms_wf r -> rooms_wf (join_room conn room r).
Proof.
  intros W room' cs. cbn. intros [[<- <-]|[_ L]]%lookup_insert_Some.
  - split; [set_solver|]. destruct (rooms_ r !! room) as [cs|] eqn:E; cbn; [apply W in E as [_ E]|]; set_solver.
  - apply W in L as [? ?]. split; [done|set_solver].
Qed.

Lemma leave_rooms_lookup conn r room cs :
  rooms_ (leave_rooms conn r) !! room = Some cs <->
  cs <> ∅ /\ exists cs0, rooms_ r !! room = Some cs0 /\ cs = cs0 ∖ {[conn]}.
Proof.
  cbn. rewrite map_lookup_filter_Some, lookup_fmap_Some. cbn. naive_solver.
Qed.

Lemma leave_rooms_wf conn r : rooms_wf r -> rooms_wf (leave_rooms conn r).
Proof.
  intros W room cs (Hne & cs0 & L & ->)%leave_rooms_lookup. split; [done|].
  apply W in L as [_ L]. cbn. set_solver.
Qed.

Definition component_wf (c : component) : Prop := match c with RoomComponent r => rooms_wf r | _ => True end.

(** What the service keeps whatever it is sent. *)
Definition service_wf (svc : service) : Prop := Forall component_wf (components_ svc).

Section Rooms.
Context {IO : IterOrder Z} (clock : nat -> Z) (e : endianness).

Lemma set_component_wf i c svc : component_wf c -> service_wf svc -> service_wf (set_component i c svc).
Proof. intros Hc Hs. by apply Forall_insert. Qed.

Lemma on_sessions_wf f svc : service_wf svc -> service_wf (on_sessions clock f svc).
Proof.
  intros W. unfold on_sessions. destruct (get_component as_sessions svc) as [[i s]|]; [|done].
  by apply (set_component_wf i (SessionManager _)).
Qed.

Lemma component_at_wf i c svc : service_wf svc -> components_ svc !! i = Some c -> component_wf c.
Proof. intros W. by apply Forall_lookup_1. Qed.

Lemma broadcast_state room m svc : (broadcast room m svc).1 = svc.
Proof. unfold broadcast. by destruct (get_component as_rooms svc) as [[]|]. Qed.

Lemma handle_wf i conn msg svc : service_wf svc -> service_wf (handle clock e i conn msg svc).1.
Proof.
  intros W. unfold handle. destruct (components_ svc !! i) as [c|] eqn:E; [|done]. destruct c; try done.
  - unfold handle_login. destruct (decode_string e _ 0%nat) as [[p off]|]; [|done].
    destruct (decode_string e _ off) as [[t ?]|]; [|done]. do 2 (case_decide; [done|]). by apply on_sessions_wf.
  - unfold handle_chat. destruct (decode_string e _ 0%nat) as [[p off]|]; [|done].
    destruct (decode_string e _ off) as [[t ?]|]; [|done].
    destruct (get_component as_sessions svc) as [[? s]|]; [case_decide; [done|]|]; by rewrite broadcast_state.
  - unfold handle_join_room. destruct (decode_string e _ 0%nat) as [[p off]|]; [|done].
    case_decide; [done|]. case_test; [done|]. cbn.
    apply on_sessions_wf, set_component_wf; [|done]. apply join_room_wf. by apply (component_at_wf i _ svc W E).
  - unfold handle_heartbeat. by destruct (decode_int64 _ _) as [[]|].
  - unfold handle_player_move. destruct (_ ≫= _) as [pos|]; [|done]. case_decide; [done|].
    case_decide; [|rewrite broadcast_state]; by apply (set_component_wf i (PlayerMoveComponent _)).
Qed.

Lemma route_all_wf j conn msgs svc : service_wf svc -> service_wf (route_all clock e j conn msgs svc).1.
Proof.
  revert svc. induction msgs as [|m ms IH]; intros svc W; [done|]. cbn [route_all].
  assert (service_wf (route clock e j conn m svc).1) as W1.
  { unfold route. destruct (components_ svc !! j) as [[]|]; try done. destruct (_ !! _); [by apply handle_wf|done]. }
  destruct (route clock e j conn m svc) as [svc1 out1]. specialize (IH svc1 W1).
  by destruct (route_all clock e j conn ms svc1).
Qed.

Lemma on_message_wf j conn data svc svc' out : service_wf svc ->
  on_message clock e j conn data svc = Ok (svc', out) -> service_wf svc'.
Proof.
  intros W. unfold on_message. destruct (components_ svc !! j) as [c|]; [|by intros [= <- _]].
  destruct c; try by intros [= <- _]. intros H. obinv. destruct a as [msgs p].
  assert (service_wf (set_component j (ProtocolRouter (<[conn := p]> parsers) handlers) svc)) as W1
    by by apply set_component_wf.
  pose proof (route_all_wf j conn msgs _ W1) as W2. injection H as H. by rewrite H in W2.
Qed.

Lemma dispatch_from_wf js conn data svc svc' out : service_wf svc ->
  dispatch_from clock e js conn data svc = Ok (svc', out) -> service_wf svc'.
Proof.
  revert svc out. induction js as [|j js IH]; intros svc out W; cbn [dispatch_from]; [by intros [= <- _]|].
  intros H. obinv. destruct a as [svc1 out1]. obinv. destruct a as [svc2 out2]. obinv.
  eapply IH; [|done]. by eapply on_message_wf.
Qed.

Lemma on_disconnect_wf conn j svc : service_wf svc -> service_wf (on_disconnect clock conn svc j).
Proof.
  intros W. unfold on_disconnect. destruct (components_ svc !! j) as [c|] eqn:E; [|done]. destruct c; try done.
  - by apply (set_component_wf j (SessionManager _)).
  - by apply (set_component_wf j (ProtocolRouter _ _)).
  - apply on_sessions_wf, set_component_wf; [|done]. apply leave_rooms_wf. by apply (component_at_wf j _ svc W E).
  - case_decide; [done|]. by apply (set_component_wf j (PlayerMoveComponent _)).
Qed.

Lemma dispatch_disconnect_wf conn svc : service_wf svc -> service_wf (dispatch_disconnect clock conn svc).
Proof.
  unfold dispatch_disconnect. generalize (seq 0 (length (components_ svc))) as js. intros js. revert svc.
  induction js as [|j js IH]; intros svc W; [done|]. by apply IH, on_disconnect_wf.
Qed.

(** What happens to a service: bytes of a connection, or its end. *)
Inductive happening := Bytes (conn : Z) (data : list byte) | Gone (conn : Z).

Fixpoint run (hs : list happening) (svc : service) : outcome (service * list Sent) :=
  match hs with
  | [] => Ok (svc, [])
  | Bytes conn data :: hs' =>
      '(svc1, out1) ←o dispatch_message clock e conn data svc;
      '(svc2, out2) ←o run hs' svc1; Ok (svc2, out1 ++ out2)
  | Gone conn :: hs' => run hs' (dispatch_disconnect clock conn svc)
  end.

Lemma run_wf hs svc svc' out : service_wf svc -> run hs svc = Ok (svc', out) -> service_wf svc'.
Proof.
  revert svc out. induction hs as [|[conn data|conn] hs IH]; intros svc out W; cbn [run]; [by intros [= <- _]| |].
  - intros H. obinv. destruct a as [svc1 out1]. obinv. destruct a as [svc2 out2]. obinv.
    eapply IH; [|done]. by eapply dispatch_from_wf.
  - apply IH. by apply dispatch_disconnect_wf.
Qed.

Lemma members_heard room r : rooms_wf r ->
  get_connections_in_room room r ≡ₚ elements (default ∅ (rooms_ r !! room)).
Proof.
  intros W. unfold get_connections_in_room. destruct (rooms_ r !! room) as [cs|] eqn:E; [|done]. cbn.
  rewrite filter_all; [apply iter_set_perm|]. apply Forall_forall. intros c Hc%elem_of_iter_set.
  apply W in E as [_ E]. by apply E.
Qed.

(** C24: Whatever packets and disconnects the service has seen, a well-formed chat
    packet of a logged-in connection sends the content, under the player's name
    of the session, to each connection in the room exactly once and to nobody
    else, and changes nothing; one of a connection that is not logged in is
    answered with an error only. *)
Theorem chat_reaches_room hs svc0 svc out0 i s k r conn room content rest :
  service_wf svc0 -> run hs svc0 = Ok (svc, out0) ->
  get_component as_sessions svc = Some (i, s) -> get_component as_rooms svc = Some (k, r) ->
  Z.of_nat (length room) < 65536 -> Z.of_nat (length content) < 65536 ->
  let data := encode_string e room ++ encode_string e content ++ rest in
  let player := Session.get_player_id conn s in
  if decide (player = []) then
    handle_chat e conn data svc = refuse e conn NOT_LOGGED_IN "Please login first" svc
  else exists out, handle_chat e conn data svc = (svc, out) /\
    out ≡ₚ (fun c => mkSent c (chat_message e player content)) <$> elements (default ∅ (rooms_ r !! room)).
Proof.
  intros W0 Hrun Hs Hr Hroom Hcont data player. pose proof (run_wf hs svc0 svc out0 W0 Hrun) as W.
  unfold handle_chat, decode_string.
  unfold data, encode_string.
  pose proof (reads_bytes e room Hroom [] (encode_bytes e content ++ rest)) as H1. cbn [app length] in H1.
  rewrite H1. cbn [Nat.add].
  rewrite (reads_at _ _ _ _ rest _ (reads_bytes e content Hcont)) by done. rewrite Hs. fold player.
  case_decide as Hp; [done|]. unfold broadcast. rewrite Hr. eexists. split; [done|].
  apply fmap_Permutation, members_heard.
  apply first_component_some in Hr as (c & Hc & Hcr). destruct c; try done. injection Hcr as ->.
  exact (component_at_wf k _ svc W Hc).
Qed.
End Rooms.

(** ** Two players in a room of the demo service *)

Definition demo_clock (n : nat) : Z := 100 + Z.of_nat n.

Definition demo_story : list happening :=
  Bytes 7 (serialize Little (demo_login Little "ann") ++ serialize Little (demo_join Little "hall")) ::
  Bytes 8 (serialize Little (demo_login Little "bob") ++ serialize Little (demo_join Little "hall")) ::
  Bytes 9 (serialize Little (demo_login Little "eve")) :: [].

Definition demo_after : service :=
  match run (IO := key_order Z) demo_clock Little demo_story demo_service with Ok (svc, _) => svc | _ => demo_service end.

Definition demo_sessions : Session.sessions := default ∅ (snd <$> get_component as_sessions demo_after).
Definition demo_rooms : rooms := default (mkRooms ∅ ∅) (snd <$> get_component as_rooms demo_after).

Lemma demo_service_wf : service_wf demo_service.
Proof. unfold service_wf. repeat apply Forall_cons_2; done. Qed.

Lemma chat_reaches_room_witness :
  exists out, handle_chat (IO := key_order Z) Little 8 (encode_string Little (lit "hall") ++ encode_string Little (lit "hi") ++ []) demo_after
    = (demo_after, out) /\
    out ≡ₚ (fun c => mkSent c (chat_message Little (lit "bob") (lit "hi"))) <$>
      elements (default ∅ (rooms_ demo_rooms !! lit "hall")).
Proof.
  assert (Session.get_player_id 8 demo_sessions = lit "bob") as Hb by (vm_compute; reflexivity).
  assert (exists out0, run (IO := key_order Z) demo_clock Little demo_story demo_service = Ok (demo_after, out0)) as [out0 Hrun]
    by (eexists; vm_compute; reflexivity).
  assert (get_component as_sessions demo_after = Some (1%nat, demo_sessions)) as Hs by (vm_compute; reflexivity).
  assert (get_component as_rooms demo_after = Some (4%nat, demo_rooms)) as Hr by (vm_compute; reflexivity).
  assert (Z.of_nat (length (lit "hall")) < 65536) as Hl1 by (vm_compute; reflexivity).
  assert (Z.of_nat (length (lit "hi")) < 65536) as Hl2 by (vm_compute; reflexivity).
  pose proof (chat_reaches_room (IO := key_order Z) demo_clock Little demo_story demo_service demo_after out0 1%nat demo_sessions
    4%nat demo_rooms 8 (lit "hall") (lit "hi") [] demo_service_wf Hrun Hs Hr Hl1 Hl2) as H.
  cbv zeta in H. rewrite Hb in H. rewrite decide_False in H by (intros Hc; discriminate Hc). exact H.
Defined.
