(* ===== verification/GameDisconnect.v ===== *)
(** * GameDisconnect: what the service of Game.v forgets with a connection

    The exact effect of a disconnect on every component, whatever the order they
    were added in: all but the player's position goes. *)

From S2P Require Import Prelude.
From S2P Require Import Framing.
From S2P Require Import Protocol.
From S2P Require Import Wire.
From S2P Require Import Effects.
From S2P Require Session.
From S2P Require Import Game.
From S2P Require Import GameFacts.
From S2P Require Import GameRooms.
Import Endian Message.

(** The connections in a room. *)
Definition members (room : str) (r : rooms) : gset Z := default ∅ (rooms_ r !! room).

Lemma elem_of_members_leave conn room r d : d ∈ members room (leave_rooms conn r) <-> d ∈ members room r /\ d <> conn.
Proof.
  unfold members. destruct (rooms_ (leave_rooms conn r) !! room) as [cs|] eqn:E; cbn [default].
  - apply leave_rooms_lookup in E as (_ & cs0 & -> & ->). cbn. set_solver.
  - split; [set_solver|]. intros [Hd Hne]. exfalso. destruct (rooms_ r !! room) as [cs0|] eqn:E0; cbn in Hd; [|set_solver].
    assert (rooms_ (leave_rooms conn r) !! room = Some (cs0 ∖ {[conn]})) as H; [|by rewrite H in E].
    apply leave_rooms_lookup. split; [set_solver|eauto].
Qed.

(** Whose session the connection is, as component [k] finds it at the disconnect:
    a session manager added before [k] has forgotten it. *)
Definition player_known (conn : Z) (svc : service) (k : nat) : str :=
  match get_component as_sessions svc with
  | Some (i, s) => if (i <? k)%nat then [] else Session.get_player_id conn s
  | None => []
  end.

Definition drop_position (player : str) (p : gmap str PlayerPosition) : gmap str PlayerPosition :=
  if decide (player = []) then p else delete player p.

(** Component [k] after the disconnect. *)
Definition disconnected (conn : Z) (svc : service) (k : nat) (c : component) : component :=
  match c with
  | SessionManager s => SessionManager (delete conn s)
  | ProtocolRouter ps hs => ProtocolRouter (delete conn ps) hs
  | RoomComponent r => RoomComponent (leave_rooms conn r)
  | PlayerMoveComponent p => PlayerMoveComponent (drop_position (player_known conn svc k) p)
  | LoginComponent | ChatComponent | HeartbeatComponent => c
  end.

(** Not yet told: at most the session of [conn] was told to leave its room. *)
Definition untold (conn : Z) (c c' : component) : Prop :=
  match c, c' with
  | SessionManager s, SessionManager s' =>
      delete conn s' = delete conn s /\ Session.get_player_id conn s' = Session.get_player_id conn s
  | SessionManager _, _ => False
  | _, _ => c' = c
  end.

#[local] Instance untold_refl conn : Reflexive (untold conn).
Proof. by intros []. Qed.

Lemma untold_other conn c c' : untold conn c c' -> (forall s, c <> SessionManager s) -> c' = c.
Proof. destruct c; try done. intros _ H. by edestruct H. Qed.

Lemma leave_room_untold now conn s : untold conn (SessionManager s) (SessionManager (Session.leave_room now conn s)).
Proof.
  unfold untold, Session.leave_room, Session.get_player_id. unfold Session.sessions in *. split.
  - apply map_eq. intros c. destruct (decide (c = conn)) as [->|Hc].
    + by rewrite !lookup_delete_eq.
    + by rewrite !lookup_delete_ne, lookup_alter_ne.
  - rewrite lookup_alter_eq. by destruct (s !! conn).
Qed.

Lemma gone_player conn s : Session.get_player_id conn (delete conn s) = [].
Proof. unfold Session.get_player_id, Session.sessions in *. by rewrite lookup_delete_eq. Qed.

Lemma leave_room_gone now conn s : Session.leave_room now conn (delete conn s) = delete conn s.
Proof.
  unfold Session.leave_room, Session.sessions in *. apply map_eq. intros c. destruct (decide (c = conn)) as [->|Hc].
  - by rewrite lookup_alter_eq, lookup_delete_eq.
  - by rewrite lookup_alter_ne.
Qed.

(** Lists whose components correspond have the same first component. *)
Lemma first_component_related {A} (f : component -> option A) (P : nat -> A -> A -> Prop) cs cs' :
  length cs' = length cs ->
  (forall k c, cs !! k = Some c -> exists c', cs' !! k = Some c' /\
     match f c with Some a => exists a', f c' = Some a' /\ P k a a' | None => f c' = None end) ->
  match first_component f cs with
  | Some (i, a) => exists a', first_component f cs' = Some (i, a') /\ P i a a'
  | None => first_component f cs' = None
  end.
Proof.
  revert cs' P. induction cs as [|c cs IH]; intros [|c' cs'] P Hl H; try done.
  destruct (H 0%nat c eq_refl) as (? & [= <-] & Hc). cbn.
  destruct (f c) as [a|]; [destruct Hc as (a' & -> & Ha); eauto|rewrite Hc].
  specialize (IH cs' (fun k => P (S k)) ltac:(by injection Hl) (fun k c1 => H (S k) c1)).
  destruct (first_component f cs) as [[i a]|]; cbn; [|by rewrite IH].
  destruct IH as (a' & -> & Ha). by exists a'.
Qed.

Section Disconnect.
Context {IO : IterOrder Z} (clock : nat -> Z) (conn : Z) (svc : service).

(** The components after the first [n] were told. *)
Definition told (n : nat) (cs : list component) : Prop :=
  length cs = length (components_ svc) /\
  forall k c, components_ svc !! k = Some c ->
    exists c', cs !! k = Some c' /\ if (k <? n)%nat then c' = disconnected conn svc k c else untold conn c c'.

(** What replaces the sessions of component [k]. *)
Definition told_sessions (n k : nat) (s s' : Session.sessions) : Prop :=
  if (k <? n)%nat then s' = delete conn s
  else delete conn s' = delete conn s /\ Session.get_player_id conn s' = Session.get_player_id conn s.

Lemma told_first n cs : told n cs ->
  match first_component as_sessions (components_ svc) with
  | Some (i, s) => exists s', first_component as_sessions cs = Some (i, s') /\ told_sessions n i s s'
  | None => first_component as_sessions cs = None
  end.
Proof.
  intros [Hl Ht]. apply first_component_related; [done|]. intros k c Hc.
  destruct (Ht k c Hc) as (c' & Hc' & Hk). exists c'. split; [done|]. unfold told_sessions.
  destruct (k <? n)%nat; [subst c'; destruct c; cbn; eauto|].
  destruct c, c'; cbn in Hk; simplify_eq; cbn; eauto; done.
Qed.

Lemma told_set n c cs : components_ svc !! n = Some c -> told n cs ->
  told (S n) (<[n := disconnected conn svc n c]> cs).
Proof.
  intros Hc [Hl Ht]. split; [by rewrite length_insert|]. intros k c1 Hc1. destruct (decide (k = n)) as [->|Hk].
  - exists (disconnected conn svc n c). rewrite list_lookup_insert_eq by (rewrite Hl; by eapply lookup_lt_Some).
    split; [done|]. case_test; [by simplify_eq|lia].
  - destruct (Ht k c1 Hc1) as (c' & Hc' & Hr). exists c'. rewrite list_lookup_insert_ne by done. split; [done|].
    replace (k <? S n)%nat with (k <? n)%nat; [done|]. apply Bool.eq_iff_eq_true. rewrite !Nat.ltb_lt. lia.
Qed.

Lemma told_keep n c cs : components_ svc !! n = Some c -> told n cs ->
  cs !! n = Some (disconnected conn svc n c) -> told (S n) cs.
Proof. intros Hc Ht Hn. rewrite <- (list_insert_id cs n _ Hn). by apply told_set. Qed.

(** Leaving the room in the session changes nothing that matters. *)
Lemma told_leave n svc' : told n (components_ svc') ->
  told n (components_ (on_sessions clock (fun now => Session.leave_room now conn) svc')).
Proof.
  intros [Hl Ht]. unfold on_sessions. destruct (get_component as_sessions svc') as [[i s]|] eqn:E; [|done].
  apply first_component_some in E as (c & Hi & Hs). destruct c; try done. injection Hs as ->.
  split; [by cbn; rewrite length_insert|]. intros k c Hc. destruct (Ht k c Hc) as (c' & Hc' & Hr). cbn [components_ tick set_component].
  destruct (decide (k = i)) as [->|Hk]; [|exists c'; by rewrite list_lookup_insert_ne].
  eexists. rewrite list_lookup_insert_eq by by eapply lookup_lt_Some. split; [done|].
  rewrite Hi in Hc'. injection Hc' as <-. destruct (i <? n)%nat.
  - destruct c; cbn in *; simplify_eq. by rewrite leave_room_gone.
  - destruct c; cbn in Hr; simplify_eq. destruct Hr as [Hr1 Hr2].
    pose proof (leave_room_untold (clock (reads svc')) conn s) as [H1 H2]. split; congruence.
Qed.

Lemma told_player n svc' : told n (components_ svc') -> session_player conn svc' = player_known conn svc n.
Proof.
  intros Ht%told_first. unfold session_player, player_known, get_component.
  destruct (first_component as_sessions (components_ svc)) as [[i s]|]; [|by rewrite Ht].
  destruct Ht as (s' & -> & Hs). unfold told_sessions in Hs. destruct (i <? n)%nat.
  - subst s'. by rewrite gone_player.
  - apply Hs.
Qed.

(** [disconnected] is what [on_disconnect] does to component [n]. *)
Lemma told_step n svc' c : components_ svc !! n = Some c -> told n (components_ svc') ->
  told (S n) (components_ (on_disconnect clock conn svc' n)).
Proof.
  intros Hc Ht. pose proof (told_set n c _ Hc Ht) as Hset. pose proof (told_keep n c _ Hc Ht) as Hkeep.
  pose proof (told_player n _ Ht) as Hp.
  pose proof Ht as [_ (c' & Hc' & Hu)%(fun t => t n c Hc)]. rewrite Nat.ltb_irrefl in Hu.
  unfold on_disconnect. rewrite Hc'.
  destruct c, c'; cbn in Hu; simplify_eq; try done; try by apply Hkeep.
  - destruct Hu as [Hu _]. unfold Session.on_disconnect. rewrite Hu. exact Hset.
  - by apply told_leave.
  - rewrite Hp. cbn [disconnected] in *. unfold drop_position in *. case_decide; [by apply Hkeep|exact Hset].
Qed.

Lemma told_all : told (length (components_ svc)) (components_ (dispatch_disconnect clock conn svc)).
Proof.
  unfold dispatch_disconnect.
  assert (forall n m svc', (n + m = length (components_ svc))%nat -> told n (components_ svc') ->
    told (n + m) (components_ (foldl (on_disconnect clock conn) svc' (seq n m)))) as H.
  { intros n m. revert n. induction m as [|m IH]; intros n svc' Hn Ht; [by rewrite Nat.add_0_r|]. cbn [seq foldl].
    rewrite <- Nat.add_succ_comm. apply IH; [lia|].
    destruct (lookup_lt_is_Some_2 (components_ svc) n) as [c Hc]; [lia|]. by eapply told_step. }
  apply (H 0%nat); [done|]. split; [done|]. intros k c Hc. exists c. split; [done|]. cbn. reflexivity.
Qed.

Lemma disconnect_at k c : components_ svc !! k = Some c ->
  components_ (dispatch_disconnect clock conn svc) !! k = Some (disconnected conn svc k c).
Proof.
  intros Hc. destruct (proj2 told_all k c Hc) as (c' & -> & Hk).
  rewrite (proj2 (Nat.ltb_lt _ _)) in Hk by by eapply lookup_lt_Some. by rewrite Hk.
Qed.

(** Whatever the order the components were added in, a disconnect leaves no
    session, no parser and no room membership of the connection, and no empty
    room; sessions, parsers and memberships of the others stay as they are. *)
Theorem disconnect_forgets k c : components_ svc !! k = Some c ->
  exists c', components_ (dispatch_disconnect clock conn svc) !! k = Some c' /\
    match c, c' with
    | SessionManager s, SessionManager s' =>
        Session.is_logged_in conn s' = false /\ forall d, d <> conn -> s' !! d = s !! d
    | ProtocolRouter ps hs, ProtocolRouter ps' hs' =>
        hs' = hs /\ ps' !! conn = None /\ forall d, d <> conn -> ps' !! d = ps !! d
    | RoomComponent r, RoomComponent r' =>
        (forall room d, d ∈ members room r' <-> d ∈ members room r /\ d <> conn) /\
        (forall room, ~ (conn ∈ get_connections_in_room room r')) /\
        (forall room, rooms_ r' !! room <> Some ∅)
    | PlayerMoveComponent _, PlayerMoveComponent _ => True
    | _, _ => c' = c
    end.
Proof.
  intros Hc. eexists. split; [by apply disconnect_at|]. destruct c; cbn [disconnected]; try done.
  - unfold Session.is_logged_in, Session.sessions in *. rewrite lookup_delete_eq. split; [done|].
    intros d Hd. by rewrite lookup_delete_ne.
  - split; [done|]. split; [by rewrite lookup_delete_eq|]. intros d Hd. by rewrite lookup_delete_ne.
  - split; [|split].
    + intros room d. apply elem_of_members_leave.
    + intros room. unfold get_connections_in_room. destruct (rooms_ _ !! room) as [cs|]; [|apply not_elem_of_nil].
      cbn. rewrite list_elem_of_filter. set_solver.
    + intros room (? & _)%leave_rooms_lookup. done.
Qed.

(** The position of a player is dropped on the disconnect when the
    PlayerMoveComponent was added before the first SessionManager, and kept for
    ever otherwise: by then the session no longer says whose connection it was. *)
Theorem position_survives_disconnect i k s p player : get_component as_sessions svc = Some (i, s) ->
  components_ svc !! k = Some (PlayerMoveComponent p) -> Session.get_player_id conn s = player -> player <> [] ->
  components_ (dispatch_disconnect clock conn svc) !! k =
  Some (PlayerMoveComponent (if (i <? k)%nat then p else delete player p)).
Proof.
  intros Hs Hk <- Hne. rewrite (disconnect_at k _ Hk). cbn [disconnected]. unfold player_known. rewrite Hs.
  unfold drop_position. destruct (i <? k)%nat; [done|]. by rewrite decide_False.
Qed.
End Disconnect.

(** ** Disconnects of the demo service, where the sessions come first *)

Definition demo_moved : service :=
  (handle (IO := key_order Z) demo_clock Little 6 7 demo_move demo_after).1.
Definition demo_positions : gmap str PlayerPosition :=
  match components_ demo_moved !! 6%nat with Some (PlayerMoveComponent p) => p | _ => ∅ end.

Lemma disconnect_forgets_witness :
  exists c', components_ (dispatch_disconnect demo_clock 7 demo_after) !! 4%nat = Some c' /\
    match c' with
    | RoomComponent r' =>
        (forall room d, d ∈ members room r' <-> d ∈ members room demo_rooms /\ d <> 7) /\
        (forall room, ~ (7 ∈ get_connections_in_room (IO := key_order Z) room r')) /\
        (forall room, rooms_ r' !! room <> Some ∅)
    | _ => False
    end.
Proof.
  assert (components_ demo_after !! 4%nat = Some (RoomComponent demo_rooms)) as Hr by (vm_compute; reflexivity).
  destruct (disconnect_forgets (IO := key_order Z) demo_clock 7 demo_after 4 (RoomComponent demo_rooms) Hr) as (c' & Hc' & H).
  exists c'. split; [exact Hc'|]. destruct c'; try discriminate H. exact H.
Defined.

Lemma position_survives_disconnect_witness :
  components_ (dispatch_disconnect demo_clock 7 demo_moved) !! 6%nat = Some (PlayerMoveComponent demo_positions)
  /\ is_Some (demo_positions !! lit "ann").
Proof.
  assert (get_component as_sessions demo_moved = Some (1%nat, demo_sessions)) as Hs by (vm_compute; reflexivity).
  assert (components_ demo_moved !! 6%nat = Some (PlayerMoveComponent demo_positions)) as Hp by (vm_compute; reflexivity).
  assert (Session.get_player_id 7 demo_sessions = lit "ann") as Hb by (vm_compute; reflexivity).
  split.
  - exact (position_survives_disconnect demo_clock 7 demo_moved 1 6 demo_sessions demo_positions (lit "ann") Hs Hp Hb ltac:(discriminate)).
  - exists (default (mkPosition [] [] []) (demo_positions !! lit "ann")). vm_compute. reflexivity.
Defined.
