(* ===== verification/NumericBounds.v ===== *)
(** * NumericBounds: magnitudes of binary64 results

    [within k x]: [x] is finite and [|x| < 2^k].  Products, quotients and integers
    of bounded magnitude stay bounded, so the casts to [int] of Numeric.v are
    defined; each rounding costs at most one bit. *)

From Stdlib Require Import SpecFloat.
From S2P Require Import Prelude.
From S2P Require Import Numeric.

(** ** Mantissas under shifts *)

(** [m * 2^e < 2^k]. *)
Definition below (k m e : Z) : Prop := 0 <= m /\ e <= k /\ m < 2 ^ (k - e).

Lemma below_div k m e n : below k m e -> 0 <= n -> e + n <= k -> below k (m / 2 ^ n) (e + n).
Proof.
  intros (Hm & He & Hl) Hn Hk. pose proof (Z.pow_pos_nonneg 2 n ltac:(lia) Hn).
  split; [by apply Z.div_pos|]. split; [done|]. apply Z.div_lt_upper_bound; [done|].
  rewrite <- Z.pow_add_r by lia. by replace (n + (k - (e + n))) with (k - e) by lia.
Qed.

Lemma below_succ k m e : below k m e -> below (k + 1) (m + 1) e.
Proof.
  intros (Hm & He & Hl). split; [lia|]. split; [lia|].
  replace (k + 1 - e) with (Z.succ (k - e)) by lia. rewrite Z.pow_succ_r by lia.
  pose proof (Z.pow_pos_nonneg 2 (k - e)). lia.
Qed.

Lemma below_weaken k k' m e : k <= k' -> below k m e -> below k' m e.
Proof.
  intros Hk (Hm & He & Hl). split; [done|]. split; [lia|].
  eapply Z.lt_le_trans; [done|]. apply Z.pow_le_mono_r; lia.
Qed.

Lemma below_mul k1 k2 m1 e1 m2 e2 : below k1 m1 e1 -> below k2 m2 e2 -> below (k1 + k2) (m1 * m2) (e1 + e2).
Proof.
  intros (Hm1 & He1 & Hl1) (Hm2 & He2 & Hl2). split; [lia|]. split; [lia|].
  replace (k1 + k2 - (e1 + e2)) with ((k1 - e1) + (k2 - e2)) by lia. rewrite Z.pow_add_r by lia. nia.
Qed.

Lemma digits_size p : digits2_pos p = Pos.size p.
Proof. induction p as [p IH|p IH|]; cbn; congruence. Qed.

Lemma digits_lt p : Zpos p < 2 ^ Zpos (digits2_pos p).
Proof. rewrite digits_size, <- Pos2Z.inj_pow. apply Pos.size_gt. Qed.

Lemma digits_ge p : 2 ^ (Zpos (digits2_pos p) - 1) <= Zpos p.
Proof.
  rewrite digits_size. pose proof (Pos.size_le p) as H. apply Pos2Z.pos_le_pos in H.
  rewrite Pos2Z.inj_pow in H.
  replace (Zpos (Pos.size p)) with (Z.succ (Zpos (Pos.size p) - 1)) in H by lia.
  rewrite Z.pow_succ_r in H by lia. lia.
Qed.

Lemma below_digits k m e : below k m e -> Zdigits2 m + e <= k.
Proof.
  intros (Hm & He & Hl). destruct m as [|p|p]; [cbn; lia| |lia]. cbn [Zdigits2].
  pose proof (digits_ge p). destruct (Z.le_gt_cases (Zpos (digits2_pos p) + e) k) as [|Hk]; [done|].
  pose proof (Z.pow_le_mono_r 2 (k - e) (Zpos (digits2_pos p) - 1)). lia.
Qed.

Lemma shr_1_half mrs : 0 <= shr_m mrs -> shr_m (shr_1 mrs) = shr_m mrs / 2.
Proof. rewrite <- Z.div2_div. by destruct mrs as [[|[p|p|]|p] r s]. Qed.

Lemma iter_shr n : forall mrs, 0 <= shr_m mrs -> shr_m (SpecFloat.iter_pos shr_1 n mrs) = shr_m mrs / 2 ^ Zpos n.
Proof.
  induction n as [n IH|n IH|]; intros mrs Hm; cbn [SpecFloat.iter_pos].
  - assert (0 <= shr_m (shr_1 mrs)) by (rewrite shr_1_half by done; apply Z.div_pos; lia).
    rewrite !IH, shr_1_half by (rewrite ?IH by done; try done; apply Z.div_pos; lia).
    rewrite !Z.div_div by lia. f_equal. replace (Zpos n~1) with (1 + Zpos n + Zpos n) by lia.
    rewrite !Z.pow_add_r by lia. lia.
  - rewrite !IH by (rewrite ?IH by done; try done; apply Z.div_pos; lia).
    rewrite !Z.div_div by lia. f_equal. replace (Zpos n~0) with (Zpos n + Zpos n) by lia. by rewrite Z.pow_add_r by lia.
  - by apply shr_1_half.
Qed.

Lemma shr_fexp_below k m e l : below k m e -> -1074 <= k ->
  below k (shr_m (shr_fexp 53 1024 m e l).1) (shr_fexp 53 1024 m e l).2.
Proof.
  intros Hb Hk. pose proof (below_digits k m e Hb) as Hd. pose proof Hb as (Hm & He & _).
  assert (shr_m (shr_record_of_loc m l) = m) as Hr by by destruct l as [|[]].
  unfold shr_fexp, shr. destruct (fexp 53 1024 (Zdigits2 m + e) - e) as [|n|n] eqn:E; cbn [fst snd]; try by rewrite Hr.
  rewrite iter_shr by by rewrite Hr. rewrite Hr. apply below_div; [done|lia|].
  rewrite <- E. unfold fexp, emin. lia.
Qed.

Lemma round_below k m l : forall e, below k m e -> below (k + 1) (round_nearest_even m l) e.
Proof.
  intros e Hb. pose proof (below_weaken k (k + 1) m e ltac:(lia) Hb). pose proof (below_succ k m e Hb).
  destruct l as [|[]]; cbn; try done. by case_test.
Qed.

(** ** Magnitudes *)

Definition within (k : Z) (x : f64) : Prop :=
  match x with
  | S754_zero _ => True
  | S754_finite _ m e => below k (Zpos m) e
  | S754_infinity _ | S754_nan => False
  end.

Lemma round_aux_within k s m e l : below k m e -> -1074 <= k < 971 -> within (k + 1) (binary_round_aux 53 1024 s m e l).
Proof.
  intros Hb Hk. unfold binary_round_aux.
  pose proof (shr_fexp_below k m e l Hb ltac:(lia)) as H1. destruct (shr_fexp 53 1024 m e l) as [r1 e1]. cbn [fst snd] in H1.
  apply (round_below k _ (loc_of_shr_record r1)) in H1.
  pose proof (shr_fexp_below (k + 1) _ e1 loc_Exact H1 ltac:(lia)) as H2.
  destruct (shr_fexp 53 1024 _ e1 loc_Exact) as [r2 e2]. cbn [fst snd] in H2.
  destruct (shr_m r2) as [|p|p]; [done| |by destruct H2].
  pose proof H2 as (_ & He & _). case_test; [done|lia].
Qed.

Lemma iter_double d p : Zpos (Pos.iter xO p d) = Zpos p * 2 ^ Zpos d.
Proof.
  induction d as [|d IH] using Pos.peano_ind; [cbn; lia|].
  rewrite Pos.iter_succ, Pos2Z.inj_succ, Z.pow_succ_r by lia. rewrite Pos2Z.inj_xO, IH. lia.
Qed.

Lemma shl_align_below k p e e' : below k (Zpos p) e -> below k (Zpos (shl_align p e e').1) (shl_align p e e').2.
Proof.
  intros (Hp & He & Hl). unfold shl_align. destruct (e' - e) as [|d|d] eqn:E; cbn [fst snd]; try done.
  split; [lia|]. split; [lia|]. rewrite iter_double. replace (k - e') with ((k - e) + Zpos d) by lia.
  rewrite Z.pow_add_r by lia. pose proof (Z.pow_pos_nonneg 2 (Zpos d)). nia.
Qed.

Lemma f64_of_Z_within k z : 0 <= k < 971 -> Z.abs z < 2 ^ k -> within (k + 1) (f64_of_Z z).
Proof.
  intros Hk Hz. unfold f64_of_Z, binary_normalize.
  assert (forall s p, Zpos p < 2 ^ k -> within (k + 1) (binary_round 53 1024 s p 0)) as H.
  { intros s p Hp. unfold binary_round. assert (below k (Zpos p) 0) as Hb by (split; [lia|rewrite Z.sub_0_r; lia]).
    pose proof (shl_align_below k p 0 (fexp 53 1024 (Zpos (digits2_pos p) + 0)) Hb) as Ha.
    destruct (shl_align p 0 _) as [m e]. apply round_aux_within; [done|lia]. }
  destruct z as [|p|p]; [done|apply H; lia|apply H; lia].
Qed.

Lemma f64_mul_within j k x y : within j x -> within k y -> -1074 <= j + k < 971 -> within (j + k + 1) (f64_mul x y).
Proof.
  intros Hx Hy Hk. unfold f64_mul, SFmul. destruct x as [| | |sx mx ex], y as [| | |sy my ey]; try done.
  apply round_aux_within; [|done]. rewrite Pos2Z.inj_mul. by apply below_mul.
Qed.

(** [y] at least [2^b]. *)
Definition at_least (b : Z) (y : f64) : Prop :=
  match y with S754_finite _ m e => b + 1 <= Zpos (digits2_pos m) + e | _ => False end.

Lemma f64_div_within k b x y : within k x -> at_least b y -> -1074 <= k - b + 1 < 971 ->
  within (k - b + 2) (f64_div x y).
Proof.
  intros Hx Hy Hk. unfold f64_div, SFdiv. destruct x as [| | |sx mx ex], y as [| | |sy my ey]; try done.
  cbn [within at_least] in *. unfold SFdiv_core_binary.
  set (d1 := Zdigits2 (Zpos mx)). set (d2 := Zdigits2 (Zpos my)). pose proof (below_digits _ _ _ Hx) as Hd1. fold d1 in Hd1.
  set (e' := Z.min _ _). set (s := ex - ey - e'). assert (0 <= s) as Hs by (unfold s, e'; lia).
  set (m' := match s with 0 => Zpos mx | Zpos _ => _ | Zneg _ => 0 end).
  assert (m' = Zpos mx * 2 ^ s) as Hm'.
  { unfold m'. destruct s as [|p|p]; [lia| |lia]. by rewrite Z.shiftl_mul_pow2. }
  clearbody m'. pose proof (Z_div_mod m' (Zpos my) ltac:(lia)) as Hq. destruct (Z.div_eucl m' (Zpos my)) as [q r].
  replace (k - b + 2) with (k - b + 1 + 1) by lia. apply round_aux_within; [|lia].
  pose proof (digits_ge my) as Hmy. change (Zpos (digits2_pos my)) with d2 in Hy, Hmy.
  destruct Hx as (_ & Hex & Hmx). assert (e' <= k - b + 1) as He' by (unfold e', fexp, emin; lia).
  assert (1 <= d2) as Hd2 by (subst d2; cbn; lia).
  assert (0 <= q) by (pose proof (Z.pow_pos_nonneg 2 s); nia). split; [done|]. split; [done|].
  apply Z.nle_gt. intros Hge.
  assert (Zpos mx * 2 ^ s < 2 ^ (k - ex + s)) as H1.
  { rewrite Z.pow_add_r by lia. pose proof (Z.pow_pos_nonneg 2 s). nia. }
  assert (2 ^ (k - ex + s) <= 2 ^ (k - b + 1 - e' + (d2 - 1))) as H2 by (apply Z.pow_le_mono_r; lia).
  rewrite (Z.pow_add_r 2 (k - b + 1 - e')) in H2 by lia.
  pose proof (Z.pow_pos_nonneg 2 (d2 - 1)). nia.
Qed.

Lemma f64_trunc_within k x : 0 <= k -> within k x -> exists z, f64_trunc x = Some z /\ Z.abs z < 2 ^ k.
Proof.
  intros Hk. destruct x as [| | |s m e]; try done.
  - intros _. exists 0. split; [done|]. pose proof (Z.pow_pos_nonneg 2 k). lia.
  - intros (Hm & He & Hl). eexists. split; [done|].
    set (a := if 0 <=? e then _ else _). enough (0 <= a < 2 ^ k) by (destruct s; lia).
    subst a. case_test.
    + replace k with (k - e + e) at 1 by lia. rewrite Z.pow_add_r by lia. pose proof (Z.pow_pos_nonneg 2 e). nia.
    + pose proof (Z.pow_pos_nonneg 2 (- e)). split; [apply Z.div_pos; lia|]. apply Z.div_lt_upper_bound; [lia|].
      rewrite <- Z.pow_add_r by lia. by replace (- e + k) with (k - e) by lia.
Qed.

(** A cast of a small double is defined, and small. *)
Lemma f64_to_int_within k x : 0 <= k <= 31 -> within k x -> exists z, f64_to_int x = Ok z /\ Z.abs z < 2 ^ k.
Proof.
  intros Hk (z & Hz & Ha)%f64_trunc_within; [|lia]. exists z. split; [|done]. unfold f64_to_int. rewrite Hz. cbn.
  apply as_int_ok. pose proof (Z.pow_le_mono_r 2 k 31). lia.
Qed.
