(* ===== verification/Battle.v ===== *)
(** * Battle: src/slg/battle.cpp

    [BattleSystem::execute] and the formulas it uses.  [rng] is the sequence of
    the values of the generator, [rand] that of [rand()]; a [dice] counts the
    values drawn from each.  Arithmetic on [int] that overflows, a [double] cast
    out of [int]'s range and a target among no generals are [Undefined]. *)

From S2P Require Import Prelude.
From S2P Require Import Protocol.
From S2P Require Import Wire.
From S2P Require Import Numeric.

Record General := mkGeneral {
  general_id : Z;
  name : str;
  rarity : Z;
  level : Z;
  force : Z;
  intelligence : Z;
  command : Z;
  charm : Z;
  speed : Z;
  skill_id : Z;
  skill_level : Z
}.

Definition General_default : General := mkGeneral 0 [] 1 1 50 50 50 50 50 0 1.

Record Action := mkAction {
  action_attacker : Z;
  action_target : Z;
  damage : Z;
  action_skill : Z;
  is_skill : bool;
  desc : str
}.

Record BattleRound := mkRound {
  round : Z;
  attacker_actions : list Action;
  defender_actions : list Action;
  attacker_remaining : Z;
  defender_remaining : Z
}.

Inductive Result := ATTACKER_WIN | DEFENDER_WIN | DRAW.
#[export] Instance Result_eq_dec : EqDecision Result.
Proof. solve_decision. Defined.

Record BattleReport := mkReport {
  report_id : Z;
  timestamp : Z;
  attacker_id : Z;
  attacker_name : str;
  attacker_generals : list General;
  attacker_initial : Z;
  attacker_final : Z;
  defender_id : Z;
  defender_name : str;
  defender_generals : list General;
  defender_initial : Z;
  defender_final : Z;
  battle_result : Result;
  rounds : list BattleRound;
  food_loss : Z;
  wood_loss : Z;
  stone_loss : Z;
  iron_loss : Z
}.

Definition attacker_won (r : BattleReport) : bool := bool_decide (battle_result r = ATTACKER_WIN).

Record BattleConfig := mkConfig {
  max_rounds : Z;
  use_skills : bool;
  config_base_damage : Z;
  force_ratio : f64;
  intel_ratio : f64
}.

(** 2.0 and 1.5, exactly. *)
Definition BattleConfig_default : BattleConfig :=
  mkConfig 8 true 100 (f64_of_Z 2) (f64_div (f64_of_Z 3) (f64_of_Z 2)).

(** ** Formulas *)

(** [BattleFormula::base_damage] and [skill_damage], on values that do not overflow. *)
Definition base_damage (attacker_force defender_command base : Z) : outcome Z :=
  diff ←o as_int (attacker_force - Z.quot defender_command 2);
  twice ←o as_int (diff * 2);
  as_int (base + Z.max 0 twice).

Definition skill_damage (attacker_intel skill_power skill_level : Z) : outcome Z :=
  a ←o as_int (attacker_intel * skill_power);
  b ←o as_int (a * skill_level);
  Ok (Z.quot b 100).

Definition critical_multiplier : Z := 150.

Definition damage_reduction (defender_command : Z) : f64 :=
  f64_div (f64_of_Z defender_command) (f64_add (f64_of_Z defender_command) (f64_of_Z 200)).

Definition calculate_general_power (g : General) : outcome Z :=
  a ←o as_int (force g + intelligence g);
  b ←o as_int (a + command g);
  as_int (b + Z.quot (speed g) 2).

Fixpoint generals_power (gs : list General) (total : Z) : outcome Z :=
  match gs with
  | [] => Ok total
  | g :: gs' => p ←o calculate_general_power g; t ←o as_int (total + p); generals_power gs' t
  end.

Definition calculate_power (gs : list General) (troops : Z) : outcome Z :=
  total ←o generals_power gs 0;
  t ←o as_int (troops * 10);
  as_int (total + t).

Definition calculate_skill_damage (c : BattleConfig) (attacker : General) (skill_level : Z) : outcome Z :=
  product ←o as_int (intelligence attacker * skill_level);
  f64_to_int (f64_div (f64_mul (f64_mul (f64_of_Z product) (intel_ratio c)) (f64_of_Z 50)) (f64_of_Z 100)).

(** The literals 0.8 and 0.3: the doubles nearest to them. *)
Definition f64_0_8 : f64 := f64_div (f64_of_Z 8) (f64_of_Z 10).
Definition f64_0_3 : f64 := f64_div (f64_of_Z 3) (f64_of_Z 10).

Definition random_factor (r : Z) : f64 := f64_add f64_0_8 (f64_div (f64_of_Z (r mod 41)) (f64_of_Z 100)).

Definition generate_action_desc (attacker defender : General) (damage : Z) (is_skill : bool) : str :=
  if is_skill then
    name attacker ++ lit " 发动技能，对 " ++ name defender ++ lit " 造成 " ++ to_string damage ++ lit " 点伤害！"
  else
    name attacker ++ lit " 攻击 " ++ name defender ++ lit "，造成 " ++ to_string damage ++ lit " 点伤害。".

(** ** Dice *)

Record dice := mkDice { rng_reads : nat; rand_reads : nat }.

Section Rolls.
Context (rng rand : nat -> Z).

Definition roll (d : dice) : Z * dice := (rng (rng_reads d), mkDice (S (rng_reads d)) (rand_reads d)).
Definition toss (d : dice) : Z * dice := (rand (rand_reads d), mkDice (rng_reads d) (S (rand_reads d))).

(** [check_critical] with 30 and [check_dodge] with 20: the chance of [own]
    against [other], in percent. *)
Definition check_chance (own other percent : Z) (d : dice) : outcome (bool * dice) :=
  total ←o as_int (own + other);
  if total <=? 0 then Ok (false, d)
  else
    scaled ←o as_int (own * percent);
    let '(r, d) := toss d in Ok (Z.rem r 100 <? Z.quot scaled total, d).
Definition check_critical (attacker_force defender_speed : Z) := check_chance attacker_force defender_speed 30.
Definition check_dodge (defender_speed attacker_force : Z) := check_chance defender_speed attacker_force 20.

Definition calculate_damage (c : BattleConfig) (attacker defender : General) (use_skill : bool) (d : dice) :
    outcome (Z * dice) :=
  diff ←o as_int (force attacker - Z.quot (command defender) 2);
  force_damage ←o f64_to_int (f64_mul (f64_of_Z diff) (force_ratio c));
  intel_damage ←o (if use_skill then calculate_skill_damage c attacker (skill_level attacker) else Ok 0);
  let '(r, d) := roll d in
  a ←o as_int (config_base_damage c + force_damage);
  b ←o as_int (a + intel_damage);
  total ←o f64_to_int (f64_mul (f64_of_Z b) (random_factor r));
  '(dodged, d) ←o check_dodge (speed defender) (force attacker) d;
  total ←o (if dodged : bool then f64_to_int (f64_mul (f64_of_Z total) f64_0_3) else Ok total);
  '(critical, d) ←o check_critical (force attacker) (speed defender) d;
  total ←o (if critical : bool then as_int (total * critical_multiplier) else Ok total);
  Ok (Z.max 1 total, d).

(** One side acts: [own] and [other] are the troops each side has left. *)
Fixpoint act (c : BattleConfig) (own : Z) (generals targets : list General) (other : Z) (d : dice) :
    outcome (list Action * Z * dice) :=
  match generals with
  | [] => Ok ([], other, d)
  | general :: generals' =>
      if (other <=? 0) || (own <=? 0) then Ok ([], other, d)
      else
        let '(r, d) := roll d in
        target ←o need (targets !! Z.to_nat (r mod Z.max 1 (Z.of_nat (length targets))));
        let '(use_skill, d) :=
          if use_skills c then let '(r, d) := roll d in (r mod 100 <? 30, d) else (false, d) in
        '(dmg, d) ←o calculate_damage c general target use_skill d;
        let actual := Z.min dmg other in
        let action := mkAction (general_id general) (general_id target) actual
                        (if use_skill then skill_id general else 0) use_skill
                        (generate_action_desc general target actual use_skill) in
        '(actions, other', d) ←o act c own generals' targets (other - actual) d;
        Ok (action :: actions, other', d)
  end.

(** The rounds from number [n] on; [fuel] is how many the configuration leaves. *)
Fixpoint fight (fuel : nat) (c : BattleConfig) (n : Z) (ags dgs : list General) (attackers defenders : Z) (d : dice) :
    outcome (list BattleRound * Z * Z * dice) :=
  match fuel with
  | O => Ok ([], attackers, defenders, d)
  | S fuel' =>
      '(aacts, defenders1, d) ←o act c attackers ags dgs defenders d;
      '(dacts, attackers1, d) ←o
        (if 0 <? defenders1 then act c defenders1 dgs ags attackers d else Ok ([], attackers, d));
      let br := mkRound n aacts dacts attackers1 defenders1 in
      if (attackers1 <=? 0) || (defenders1 <=? 0) then Ok ([br], attackers1, defenders1, d)
      else
        n' ←o as_int (n + 1);
        '(brs, attackers2, defenders2, d) ←o fight fuel' c n' ags dgs attackers1 defenders1 d;
        Ok (br :: brs, attackers2, defenders2, d)
  end.

Definition result_of (attackers defenders : Z) : Result :=
  if defenders <? attackers then ATTACKER_WIN
  else if attackers <? defenders then DEFENDER_WIN
  else DRAW.

(** [now]: the reading of the clock.  The report callback gets the report. *)
Definition execute (c : BattleConfig) (now aid : Z) (aname : str) (ags : list General) (atroops : Z)
    (did : Z) (dname : str) (dgs : list General) (dtroops : Z) (d : dice) : outcome (BattleReport * dice) :=
  '(brs, attackers, defenders, d) ←o fight (Z.to_nat (max_rounds c)) c 1 ags dgs atroops dtroops d;
  aloss ←o as_int (atroops - attackers);
  _ ←o as_int (dtroops - defenders);
  food ←o as_int (aloss * 10);
  wood ←o as_int (aloss * 5);
  stone ←o as_int (aloss * 3);
  iron ←o as_int (aloss * 2);
  Ok (mkReport now now aid aname ags atroops attackers did dname dgs dtroops defenders
        (result_of attackers defenders) brs food wood stone iron, d).
End Rolls.
