(* ===== verification/BattleFacts.v ===== *)
(** * BattleFacts: what a battle of Battle.v amounts to

    Under the default configuration a battle between generals of ordinary
    attributes never overflows, whatever the dice, and its report adds up. *)

From Stdlib Require Import SpecFloat.
From S2P Require Import Prelude.
From S2P Require Import Numeric.
From S2P Require Import NumericBounds.
From S2P Require Import Protocol.
From S2P Require Import Wire.
From S2P Require Import Battle.

Definition hurt (acts : list Action) : Z := sumZ damage acts.

(** ** The report adds up *)

(** The troops lost are the damage dealt, no action deals less than 1, rounds are
    numbered from 1, the battle lasts its rounds unless a side is wiped out, the
    result compares the troops left and the losses are the configured multiples. *)
Definition accounts (c : BattleConfig) (r : BattleReport) : Prop :=
  attacker_final r = attacker_initial r - sumZ (fun br => hurt (defender_actions br)) (rounds r) /\
  defender_final r = defender_initial r - sumZ (fun br => hurt (attacker_actions br)) (rounds r) /\
  0 <= attacker_final r <= attacker_initial r /\ 0 <= defender_final r <= defender_initial r /\
  Forall (fun br => Forall (fun a => 1 <= damage a) (attacker_actions br ++ defender_actions br)) (rounds r) /\
  round <$> rounds r = seqZ 1 (Z.of_nat (length (rounds r))) /\
  Z.of_nat (length (rounds r)) <= Z.max 0 (max_rounds c) /\
  (Z.of_nat (length (rounds r)) < max_rounds c -> attacker_final r = 0 \/ defender_final r = 0) /\
  (battle_result r = ATTACKER_WIN <-> defender_final r < attacker_final r) /\
  (battle_result r = DEFENDER_WIN <-> attacker_final r < defender_final r) /\
  food_loss r = 10 * (attacker_initial r - attacker_final r).

Section Dice.
Context (rng rand : nat -> Z).

Lemma calculate_damage_pos c g t u d v d' : calculate_damage rng rand c g t u d = Ok (v, d') -> 1 <= v.
Proof.
  unfold calculate_damage. intros H. obinv. destruct (roll rng d) as [r d1]. obinv.
  destruct a5 as [dodged d2]. obinv. destruct a6 as [crit d3]. obinv. lia.
Qed.

Lemma act_spec c own gs ts other d acts other' d' :
  act rng rand c own gs ts other d = Ok (acts, other', d') -> 0 <= other ->
  other' = other - hurt acts /\ 0 <= other' <= other /\ Forall (fun a => 1 <= damage a) acts.
Proof.
  assert (forall o, 0 <= o -> o = o - hurt [] /\ 0 <= o <= o /\ Forall (fun a => 1 <= damage a) []) as Hnone.
  { intros o Ho. unfold hurt, sumZ. cbn. split; [lia|]. split; [lia|constructor]. }
  revert other d acts. induction gs as [|g gs IH]; intros other d acts; cbn [act]; [intros [= <- <- <-]; apply Hnone|].
  case_test; [intros [= <- <- <-]; apply Hnone|].
  destruct (roll rng d) as [r d1]. intros Hrun Ho. obinv.
  destruct (if use_skills c then _ else _) as [u d2]. obinv. destruct a0 as [v d3].
  apply calculate_damage_pos in E0 as Hv. obinv. destruct a0 as [[acts1 other1] d4]. obinv.
  apply IH in E1 as (-> & Hr & Hf); [|lia]. unfold hurt, sumZ in *. cbn [foldr damage].
  split; [lia|]. split; [lia|]. constructor; [cbn; lia|done].
Qed.

Lemma fight_spec c ags dgs fuel : forall n a b d brs a' b' d',
  fight rng rand fuel c n ags dgs a b d = Ok (brs, a', b', d') -> 0 <= a -> 0 <= b ->
  a' = a - sumZ (fun br => hurt (defender_actions br)) brs /\
  b' = b - sumZ (fun br => hurt (attacker_actions br)) brs /\
  0 <= a' <= a /\ 0 <= b' <= b /\
  Forall (fun br => Forall (fun x => 1 <= damage x) (attacker_actions br ++ defender_actions br)) brs /\
  round <$> brs = seqZ n (Z.of_nat (length brs)) /\
  (length brs <= fuel)%nat /\ ((length brs < fuel)%nat -> a' = 0 \/ b' = 0).
Proof.
  induction fuel as [|fuel IH]; intros n a b d brs a' b' d'; cbn [fight].
  { intros [= <- <- <- <-] ? ?. rewrite !sumZ_nil. cbn [length]. split_and!; (lia || done). }
  intros H Ha Hb. obinv. destruct a0 as [[aacts b1] d1]. obinv. destruct a0 as [[dacts a1] d2].
  apply act_spec in E as (-> & Hb1 & Hf1); [|done].
  assert (a1 = a - hurt dacts /\ 0 <= a1 <= a /\ Forall (fun x => 1 <= damage x) dacts) as (-> & Ha1 & Hf2).
  { destruct (0 <? _) in E0; [by apply act_spec in E0|]. injection E0 as <- <- <-. unfold hurt. rewrite sumZ_nil. split_and!; (lia || done). }
  assert (Forall (fun x => 1 <= damage x) (aacts ++ dacts)) as Hf by by apply Forall_app.
  destruct ((_ <=? 0) || _) eqn:Eend in H.
  - injection H as <- <- <- <-. rewrite !sumZ_cons, !sumZ_nil. cbn [length attacker_actions defender_actions].
    split_and!; try lia; [by apply Forall_singleton|done].
  - obinv. destruct a1 as [[[brs2 a2] b2] d3]. obinv. apply as_int_inv in E as [-> _].
    apply IH in E1 as (-> & -> & Ha2 & Hb2 & Hfs & Hn & Hl & Hend); [|lia|lia].
    rewrite !sumZ_cons, fmap_cons. cbn [length attacker_actions defender_actions round].
    split_and!; try lia.
    + by constructor.
    + rewrite seqZ_cons by lia. f_equal. rewrite Hn. f_equal; lia.
Qed.

Lemma execute_accounts c now aid an ags atr did dn dgs dtr d r d' :
  execute rng rand c now aid an ags atr did dn dgs dtr d = Ok (r, d') -> 0 <= atr -> 0 <= dtr ->
  accounts c r /\ attacker_initial r = atr /\ defender_initial r = dtr /\ attacker_generals r = ags /\ defender_generals r = dgs.
Proof.
  unfold execute. intros H Ha Hb. obinv. destruct a as [[[brs a'] b'] d1].
  apply fight_spec in E as (-> & -> & Hra & Hrb & Hf & Hn & Hl & Hend); [|done|done]. obinv.
  repeat match goal with H : as_int _ = Ok _ |- _ => apply as_int_inv in H as [-> _] end.
  unfold accounts. cbn [attacker_final attacker_initial defender_final defender_initial rounds battle_result food_loss
    attacker_generals defender_generals]. split; [|done]. unfold result_of.
  split_and!; try done; try lia; try (intros ?; apply Hend; lia).
  all: repeat case_test; split; intros; try done; lia.
Qed.
End Dice.

(** ** No battle between ordinary generals overflows *)

(** Attributes below 4096, and so the product of intelligence and skill level. *)
Definition ordinary (g : General) : Prop :=
  0 <= force g < 4096 /\ 0 <= command g < 4096 /\ 0 <= speed g < 4096 /\
  0 <= intelligence g * skill_level g < 4096.

Lemma ordinary_dec g : Decision (ordinary g).
Proof. unfold ordinary. apply _. Defined.
#[export] Existing Instance ordinary_dec.

Section Defined.
Context (rng rand : nat -> Z).
Abbreviation c := BattleConfig_default.

Lemma two_within : within 2 (force_ratio c).
Proof. vm_compute. split_and!; done. Qed.
Lemma ratio_within : within 1 (intel_ratio c).
Proof. vm_compute. split_and!; done. Qed.
Lemma dodge_within : within (-1) f64_0_3.
Proof. vm_compute. split_and!; done. Qed.

Lemma random_factor_within r : within 1 (random_factor r).
Proof.
  unfold random_factor. pose proof (Z.mod_pos_bound r 41 ltac:(lia)) as Hr. revert Hr.
  generalize (r mod 41) as m. intros m Hm.
  assert (Forall (fun m => within 1 (f64_add f64_0_8 (f64_div (f64_of_Z m) (f64_of_Z 100)))) (seqZ 0 41)) as H.
  { repeat (apply Forall_cons_2; [vm_compute; split_and!; done|]). constructor. }
  apply (proj1 (Forall_forall _ _) H). apply elem_of_seqZ. lia.
Qed.

Lemma skill_damage_defined g : ordinary g ->
  exists z, calculate_skill_damage c g (skill_level g) = Ok z /\ Z.abs z < 2 ^ 18.
Proof.
  intros (_ & _ & _ & Hi). unfold calculate_skill_damage. rewrite as_int_ok by lia. cbn [obind].
  apply f64_to_int_within; [lia|]. apply (f64_div_within 22 6); [|vm_compute; done|lia].
  apply (f64_mul_within 15 6); [|vm_compute; split_and!; done|lia].
  apply (f64_mul_within 13 1); [|exact ratio_within|lia]. apply (f64_of_Z_within 12); lia.
Qed.

Lemma check_chance_defined own other percent d : 0 <= own < 4096 -> 0 <= other < 4096 -> 0 <= percent <= 30 ->
  exists b d', check_chance rand own other percent d = Ok (b, d').
Proof.
  intros Ho Ht Hp. unfold check_chance. rewrite as_int_ok by lia. cbn [obind]. case_test; [by do 2 eexists|].
  rewrite as_int_ok by nia. cbn [obind]. by do 2 eexists.
Qed.

Lemma calculate_damage_defined g t u d : ordinary g -> ordinary t ->
  exists v d', calculate_damage rng rand c g t u d = Ok (v, d').
Proof.
  intros Hg Ht. pose proof Hg as (Hf & Hc & Hs & _). pose proof Ht as (Hf' & Hc' & Hs' & _).
  assert (0 <= Z.quot (command t) 2 < 2048) as Hq by (Z.to_euclidean_division_equations; lia).
  unfold calculate_damage. rewrite as_int_ok by lia. cbn [obind].
  destruct (f64_to_int_within 17 (f64_mul (f64_of_Z (force g - Z.quot (command t) 2)) (force_ratio c))) as (fd & -> & Hfd); [lia| |].
  { apply (f64_mul_within 14 2); [|exact two_within|lia]. apply (f64_of_Z_within 13); lia. }
  cbn [obind].
  assert (exists i, (if u then calculate_skill_damage c g (skill_level g) else Ok 0) = Ok i /\ Z.abs i < 2 ^ 18) as (i & -> & Hi).
  { destruct u; [by apply skill_damage_defined|]. by exists 0. }
  cbn [obind]. destruct (roll rng d) as [r d1]. cbn [config_base_damage c].
  rewrite !as_int_ok by lia. cbn [obind]. rewrite as_int_ok by lia. cbn [obind].
  destruct (f64_to_int_within 22 (f64_mul (f64_of_Z (100 + fd + i)) (random_factor r))) as (total & -> & Htot); [lia| |].
  { apply (f64_mul_within 20 1); [|apply random_factor_within|lia]. apply (f64_of_Z_within 19); lia. }
  cbn [obind]. destruct (check_chance_defined (speed t) (force g) 20 d1) as (dodged & d2 & Hd2); [done|done|lia|].
  unfold check_dodge. rewrite Hd2. cbn [obind].
  assert (exists i, (if dodged then f64_to_int (f64_mul (f64_of_Z total) f64_0_3) else Ok total) = Ok i /\ Z.abs i < 2 ^ 23) as (i' & -> & Hi').
  { destruct dodged; [|exists total; split; [done|lia]]. apply f64_to_int_within; [lia|].
    apply (f64_mul_within 23 (-1)); [|exact dodge_within|lia]. apply (f64_of_Z_within 22); lia. }
  cbn [obind]. destruct (check_chance_defined (force g) (speed t) 30 d2) as (crit & d3 & Hd3); [done|done|lia|].
  unfold check_critical. rewrite Hd3. cbn [obind]. destruct crit; [|by do 2 eexists].
  rewrite as_int_ok by (unfold critical_multiplier; lia). by do 2 eexists.
Qed.

Lemma act_defined gs ts own : Forall ordinary gs -> Forall ordinary ts -> ts <> [] ->
  forall other d, exists acts other' d', act rng rand c own gs ts other d = Ok (acts, other', d').
Proof.
  intros Hgs Hts Hne. induction Hgs as [|g gs Hg _ IH]; intros other d; cbn [act]; [by do 3 eexists|].
  case_test; [by do 3 eexists|]. destruct (roll rng d) as [r d1].
  destruct (lookup_lt_is_Some_2 ts (Z.to_nat (r mod Z.max 1 (Z.of_nat (length ts))))) as [t Ht].
  { destruct ts; [done|]. cbn [length]. pose proof (Z.mod_pos_bound r (Z.max 1 (Z.of_nat (S (length ts))))). lia. }
  rewrite Ht. cbn [need obind]. destruct (if use_skills c then _ else _) as [u d2].
  destruct (calculate_damage_defined g t u d2) as (v & d3 & ->); [done|by eapply Forall_lookup_1|]. cbn [obind].
  destruct (IH (other - Z.min v other) d3) as (acts & o & d4 & ->). by do 3 eexists.
Qed.

Lemma fight_defined ags dgs : Forall ordinary ags -> Forall ordinary dgs -> ags <> [] -> dgs <> [] ->
  forall fuel n a b d, 0 <= n -> n + Z.of_nat fuel < 2 ^ 31 ->
  exists brs a' b' d', fight rng rand fuel c n ags dgs a b d = Ok (brs, a', b', d').
Proof.
  intros Hags Hdgs Ha Hd. induction fuel as [|fuel IH]; intros n a b d Hn Hf; cbn [fight]; [by do 4 eexists|].
  destruct (act_defined ags dgs a Hags Hdgs Hd b d) as (aacts & b1 & d1 & ->). cbn [obind].
  assert (exists dacts a1 d2, (if 0 <? b1 then act rng rand c b1 dgs ags a d1 else Ok ([], a, d1)) = Ok (dacts, a1, d2))
    as (dacts & a1 & d2 & ->) by (case_test; [by apply act_defined|by do 3 eexists]).
  cbn [obind]. case_test; [by do 4 eexists|]. rewrite as_int_ok by lia. cbn [obind].
  destruct (IH (n + 1) a1 b1 d2) as (brs & a2 & b2 & d3 & ->); [lia|lia|]. by do 4 eexists.
Qed.

(** C27: Under the default configuration any battle between ordinary generals
    with up to 200 million troops a side ends in a report, whatever the dice,
    and the report adds up: troops lost are damage dealt, round by round. *)
Theorem battle_fought now aid an ags atr did dn dgs dtr d :
  Forall ordinary ags -> Forall ordinary dgs -> ags <> [] -> dgs <> [] ->
  0 <= atr <= 200000000 -> 0 <= dtr <= 200000000 ->
  exists r d', execute rng rand c now aid an ags atr did dn dgs dtr d = Ok (r, d') /\
    accounts c r /\ attacker_initial r = atr /\ defender_initial r = dtr.
Proof.
  intros Hags Hdgs Ha Hd Hatr Hdtr.
  destruct (fight_defined ags dgs Hags Hdgs Ha Hd (Z.to_nat (max_rounds c)) 1 atr dtr d) as (brs & a' & b' & d1 & Hfight); [lia|vm_compute; done|].
  pose proof (fight_spec rng rand c ags dgs _ 1 atr dtr d brs a' b' d1 Hfight) as (_ & _ & Hra & Hrb & _); [lia|lia|].
  assert (exists r d', execute rng rand c now aid an ags atr did dn dgs dtr d = Ok (r, d')) as (r & d' & Hr).
  { unfold execute. rewrite Hfight. cbn [obind]. repeat (rewrite as_int_ok by lia; cbn [obind]). by do 2 eexists. }
  exists r, d'. split; [done|]. apply execute_accounts in Hr as (? & ? & ? & _); [done|lia|lia].
Qed.
End Defined.

(** ** A battle *)

Definition demo_general (id : Z) (n : string) : General := mkGeneral id (lit n) 1 1 50 50 50 50 50 7 1.

Lemma battle_fought_witness :
  exists r d', execute (fun k => Z.of_nat k * 37) (fun k => Z.of_nat k * 11 + 3) BattleConfig_default 5
      1 (lit "a") [demo_general 1 "zhao"; demo_general 2 "guan"] 1000 2 (lit "b") [demo_general 3 "cao"] 900 (mkDice 0 0) = Ok (r, d')
    /\ accounts BattleConfig_default r /\ attacker_initial r = 1000 /\ defender_initial r = 900.
Proof.
  apply battle_fought; [| |discriminate|discriminate|split; discriminate|split; discriminate];
    apply (bool_decide_unpack _); vm_compute; exact I.
Defined.
