(* ===== verification/StdNum.v ===== *)
(** * StdNum: the library's strings: order, and conversions from and to numbers

    [std::stoll], [std::stod] and [std::to_string] as redis_client.cpp
    and document.cpp use them, with [strtoll] and [strtod] which do not throw, in the
    "C" locale.  A conversion that throws is [None].  The sign of a NaN is not kept. *)

From stdpp Require Import sorting.
From Stdlib Require Import SpecFloat DecimalString DecimalZ DecimalPos.
From S2P Require Import Prelude.
From S2P Require Import Numeric.
From S2P Require Import Protocol.
From S2P Require Import Wire.

(** [isspace], [isdigit] and the value of a hexadecimal digit. *)
Definition is_space (b : byte) : bool := let v := byte_val b in (v =? 32) || ((9 <=? v) && (v <=? 13)).

Definition digit (b : byte) : option Z :=
  let v := byte_val b in if (48 <=? v) && (v <=? 57) then Some (v - 48) else None.

Definition hex_digit (b : byte) : option Z :=
  let v := byte_val b in
  if (48 <=? v) && (v <=? 57) then Some (v - 48)
  else if (65 <=? v) && (v <=? 70) then Some (v - 55)
  else if (97 <=? v) && (v <=? 102) then Some (v - 87)
  else None.

(** [toupper]. *)
Definition to_upper (b : byte) : byte :=
  let v := byte_val b in if (97 <=? v) && (v <=? 122) then byte_of (v - 32) else b.

Fixpoint skip_spaces (s : str) : str :=
  match s with b :: s' => if is_space b then skip_spaces s' else s | [] => [] end.

(** An optional sign. *)
Definition sign (s : str) : bool * str :=
  match s with
  | b :: s' => if byte_val b =? 45 then (true, s') else if byte_val b =? 43 then (false, s') else (false, s)
  | [] => (false, [])
  end.

(** The leading digits and what follows them. *)
Fixpoint digits (d : byte -> option Z) (s : str) : list Z * str :=
  match s with
  | b :: s' => match d b with Some v => let '(ds, rest) := digits d s' in (v :: ds, rest) | None => ([], s) end
  | [] => ([], [])
  end.

Definition value (base : Z) (ds : list Z) : Z := foldl (fun acc d => acc * base + d) 0 ds.

(** [std::stoll]. *)
Definition stoll (s : str) : option Z :=
  let '(neg, s) := sign (skip_spaces s) in
  let '(ds, _) := digits digit s in
  match ds with
  | [] => None
  | _ => let v := if neg then - value 10 ds else value 10 ds in if int64_range v then Some v else None
  end.

(** ** [std::stod] *)

(** [num / den], rounded to [emax]. *)
Definition ratio (emax num den : Z) : f64 :=
  match num, den with
  | Zpos n, Zpos d => SFdiv 53 emax (S754_finite false n 0) (S754_finite false d 0)
  | _, _ => S754_zero false
  end.

(** Below 2^-1022 even with unbounded exponents, and not exact: [ERANGE]. *)
Definition underflows (num den : Z) : bool :=
  match ratio (2 ^ 40) num den with
  | S754_finite _ m e =>
      (Zpos (digits2_pos m) + e <=? -1022) &&
      match ratio 1024 num den with
      | S754_finite _ m e => negb (Zpos m * den =? num * 2 ^ (- e))
      | _ => true
      end
  | _ => false
  end.

Definition rounded (neg : bool) (num den : Z) : option f64 :=
  match ratio 1024 num den with
  | S754_infinity _ => None
  | x => if underflows num den then None else Some (if neg then SFopp x else x)
  end.

(** [base ^ e] as a fraction. *)
Definition scaled (neg : bool) (m base e : Z) : option f64 :=
  if 0 <=? e then rounded neg (m * base ^ e) 1 else rounded neg m (base ^ (- e)).

(** Mantissa digits, with their number after the point. *)
Definition mantissa (d : byte -> option Z) (s : str) : list Z * Z * str :=
  let '(ds1, rest) := digits d s in
  match rest with
  | b :: rest' =>
      if byte_val b =? 46 then
        let '(ds2, rest'') := digits d rest' in (ds1 ++ ds2, Z.of_nat (length ds2), rest'')
      else (ds1, 0, rest)
  | [] => (ds1, 0, [])
  end.

(** The exponent after [letter] (in upper case), 0 if there is none. *)
Definition exponent (letter : Z) (s : str) : Z :=
  match s with
  | b :: s' =>
      if byte_val (to_upper b) =? letter then
        let '(neg, s'') := sign s' in
        let '(ds, _) := digits digit s'' in if neg then - value 10 ds else value 10 ds
      else 0
  | [] => 0
  end.

Definition starts (prefix : string) (s : str) : bool :=
  bool_decide (to_upper <$> take (length (lit prefix)) s = lit prefix).

Definition stod_decimal (neg : bool) (s : str) : option f64 :=
  let '(ds, frac, rest) := mantissa digit s in
  match ds with [] => None | _ => scaled neg (value 10 ds) 10 (exponent 69 rest - frac) end.

Definition stod (s : str) : option f64 :=
  let '(neg, s) := sign (skip_spaces s) in
  if starts "INF" s then Some (S754_infinity neg)
  else if starts "NAN" s then Some S754_nan
  else if starts "0X" s then
    let '(ds, frac, rest) := mantissa hex_digit (drop 2 s) in
    match ds with [] => stod_decimal neg s | _ => scaled neg (value 16 ds) 2 (exponent 80 rest - 4 * frac) end
  else stod_decimal neg s.

(** ** [std::to_string(double)]: six decimals *)

(** [m * 2^e * 10^6] to the nearest integer, ties to even. *)
Definition micros (m e : Z) : Z :=
  if 0 <=? e then m * 10 ^ 6 * 2 ^ e
  else
    let n := m * 10 ^ 6 in
    let d := 2 ^ (- e) in
    let q := n / d in
    match 2 * (n mod d) ?= d with
    | Lt => q
    | Eq => if Z.even q then q else q + 1
    | Gt => q + 1
    end.

Definition padded (q : Z) : str :=
  let s := to_string q in replicate (6 - length s) (byte_of 48) ++ s.

Definition fixed (neg : bool) (q : Z) : str :=
  (if neg then lit "-" else []) ++ to_string (q / 10 ^ 6) ++ lit "." ++ padded (q mod 10 ^ 6).

Definition double_to_string (x : f64) : str :=
  match x with
  | S754_zero s => fixed s 0
  | S754_finite s m e => fixed s (micros (Zpos m) e)
  | S754_infinity s => (if s then lit "-" else []) ++ lit "inf"
  | S754_nan => lit "nan"
  end.

(** ** The conversions that do not throw *)

(** [std::strtoll]: 0 without digits, the nearest bound out of range. *)
Definition strtoll (s : str) : Z :=
  let '(neg, s) := sign (skip_spaces s) in
  let '(ds, _) := digits digit s in
  Z.max (- 2 ^ 63) (Z.min (2 ^ 63 - 1) (if neg then - value 10 ds else value 10 ds)).

(** [std::strtod]: 0 without digits, an infinity or a denormal out of range. *)
Definition unscaled (neg : bool) (m base e : Z) : f64 :=
  let x := if 0 <=? e then ratio 1024 (m * base ^ e) 1 else ratio 1024 m (base ^ (- e)) in if neg then SFopp x else x.

Definition strtod_decimal (neg : bool) (s : str) : f64 :=
  let '(ds, frac, rest) := mantissa digit s in
  match ds with [] => S754_zero false | _ => unscaled neg (value 10 ds) 10 (exponent 69 rest - frac) end.

Definition strtod (s : str) : f64 :=
  let '(neg, s) := sign (skip_spaces s) in
  if starts "INF" s then S754_infinity neg
  else if starts "NAN" s then S754_nan
  else if starts "0X" s then
    let '(ds, frac, rest) := mantissa hex_digit (drop 2 s) in
    match ds with [] => strtod_decimal neg s | _ => unscaled neg (value 16 ds) 2 (exponent 80 rest - 4 * frac) end
  else strtod_decimal neg s.

(** ** The order of strings *)

(** [std::string]'s order, by unsigned bytes. *)
Fixpoint str_leb (s t : str) : bool :=
  match s, t with
  | [], _ => true
  | _, [] => false
  | a :: s', b :: t' => (byte_val a <? byte_val b) || ((byte_val a =? byte_val b) && str_leb s' t')
  end.
Definition str_le (s t : str) : Prop := str_leb s t = true.
#[export] Instance str_le_dec : RelDecision str_le.
Proof. intros s t. unfold str_le. apply _. Defined.

Lemma str_leb_total s t : str_leb s t = false -> str_leb t s = true.
Proof.
  revert t. induction s as [|a s IH]; intros [|b t]; cbn; try done. intros Hf. breflect.
  destruct (Z.lt_total (byte_val b) (byte_val a)) as [Hl|[Hl|Hl]]; [by rewrite (proj2 (Z.ltb_lt _ _))| |lia].
  rewrite Hl, Z.eqb_refl in *. cbn in *. rewrite (IH t) by done. apply orb_true_r.
Qed.

(** The pairs of a [std::map] in the order of its iterators. *)
Definition key_le {A} (p q : str * A) : Prop := str_le p.1 q.1.
#[export] Instance key_le_dec {A} : RelDecision (@key_le A).
Proof. intros p q. unfold key_le. apply _. Defined.

Definition in_order {A} (m : gmap str A) : list (str * A) := merge_sort key_le (map_to_list m).

Lemma in_order_perm {A} (m : gmap str A) : in_order m ≡ₚ map_to_list m.
Proof. apply merge_sort_Permutation. Qed.

(** ** [stoll] inverts [to_string] *)

Fixpoint uint_digits (u : Decimal.uint) : list Z :=
  match u with
  | Decimal.Nil => []
  | Decimal.D0 u => 0 :: uint_digits u | Decimal.D1 u => 1 :: uint_digits u
  | Decimal.D2 u => 2 :: uint_digits u | Decimal.D3 u => 3 :: uint_digits u
  | Decimal.D4 u => 4 :: uint_digits u | Decimal.D5 u => 5 :: uint_digits u
  | Decimal.D6 u => 6 :: uint_digits u | Decimal.D7 u => 7 :: uint_digits u
  | Decimal.D8 u => 8 :: uint_digits u | Decimal.D9 u => 9 :: uint_digits u
  end.

Lemma lit_cons a s : lit (String.String a s) = Ascii.byte_of_ascii a :: lit s.
Proof. done. Qed.

Lemma digits_uint u : digits digit (lit (NilEmpty.string_of_uint u)) = (uint_digits u, []).
Proof.
  induction u as [|u IH|u IH|u IH|u IH|u IH|u IH|u IH|u IH|u IH|u IH]; [done|..];
    cbn [NilEmpty.string_of_uint uint_digits]; rewrite lit_cons; cbn [digits]; rewrite IH; done.
Qed.

Lemma foldl_uint u p : foldl (fun acc d => acc * 10 + d) (Zpos p) (uint_digits u) = Zpos (Pos.of_uint_acc u p).
Proof.
  revert p. induction u as [|u IH|u IH|u IH|u IH|u IH|u IH|u IH|u IH|u IH|u IH]; intros p; [done|..];
    cbn [uint_digits foldl Pos.of_uint_acc]; rewrite <- IH; f_equal; lia.
Qed.

Lemma value_uint u : value 10 (uint_digits u) = Z.of_N (Pos.of_uint u).
Proof.
  unfold value. induction u as [|u IH|u IH|u IH|u IH|u IH|u IH|u IH|u IH|u IH|u IH]; [done|exact IH|..];
    cbn [uint_digits foldl Pos.of_uint Z.of_N]; by rewrite <- foldl_uint.
Qed.

Lemma to_uint_not_nil p : Pos.to_uint p <> Decimal.Nil.
Proof. intros H. pose proof (Unsigned.of_to p) as Ho. rewrite H in Ho. discriminate Ho. Qed.

Lemma nil_zero u : u <> Decimal.Nil -> NilZero.string_of_uint u = NilEmpty.string_of_uint u.
Proof. by destruct u. Qed.

Lemma uint_digits_nonempty u : u <> Decimal.Nil -> uint_digits u <> [].
Proof. by destruct u. Qed.

(** Digits need neither spaces nor a sign skipped. *)
Lemma uint_unsigned u : u <> Decimal.Nil ->
  sign (skip_spaces (lit (NilEmpty.string_of_uint u))) = (false, lit (NilEmpty.string_of_uint u)).
Proof. by destruct u. Qed.

Lemma stoll_digits u v : u <> Decimal.Nil -> v = Z.of_N (Pos.of_uint u) ->
  exists ds, digits digit (lit (NilEmpty.string_of_uint u)) = (ds, []) /\ ds <> [] /\ value 10 ds = v.
Proof.
  intros Hu ->. exists (uint_digits u). split; [apply digits_uint|]. split; [by apply uint_digits_nonempty|apply value_uint].
Qed.

Lemma stoll_to_string z : - 2 ^ 63 <= z < 2 ^ 63 -> stoll (to_string z) = Some z.
Proof.
  intros Hz%int64_range_spec. unfold stoll, to_string. destruct z as [|p|p]; [done| |]; cbn [Z.to_int NilZero.string_of_int].
  - pose proof (to_uint_not_nil p) as Hn. rewrite nil_zero, uint_unsigned by done.
    destruct (stoll_digits (Pos.to_uint p) (Zpos p) Hn) as (ds & -> & Hds & ->); [by rewrite Unsigned.of_to|].
    rewrite Hz. by destruct ds.
  - pose proof (to_uint_not_nil p) as Hn. rewrite nil_zero, lit_cons by done. cbn [skip_spaces sign].
    destruct (stoll_digits (Pos.to_uint p) (Zpos p) Hn) as (ds & Hd & Hds & Hv); [by rewrite Unsigned.of_to|].
    change (is_space _) with false. cbn [sign]. change (byte_val _ =? 45) with true. cbv iota. rewrite Hd, Hv.
    change (- Zpos p) with (Zneg p). rewrite Hz. by destruct ds.
Qed.

Lemma stoll_strtoll s v : stoll s = Some v -> strtoll s = v.
Proof.
  unfold stoll, strtoll. destruct (sign (skip_spaces s)) as [neg s1]. destruct (digits digit s1) as [ds rest].
  destruct ds as [|d ds]; [done|]. case_test; [|done]. intros [= <-]. apply int64_range_spec in E. lia.
Qed.
