(* ===== verification/Redis.v ===== *)
(** * Redis: src/redis/redis_client.cpp

    [RedisClient] keeps its data in memory.  [execute] runs one command under the
    client's mutex; [now] is the clock in seconds at that moment.  A conversion of
    an argument may throw, which keeps what the command has done so far.  Signed
    overflow, [toupper] of a byte beyond ASCII and a NaN score (which breaks the
    order [std::sort] needs) are undefined. *)

From stdpp Require Import sorting.
From Stdlib Require Import SpecFloat.
From S2P Require Import Prelude.
From S2P Require Import Numeric.
From S2P Require Import Protocol.
From S2P Require Import Wire.
From S2P Require Import Effects.
From S2P Require Import StdNum.

(** ** Replies *)

Inductive ReplyType := STRING | INTEGER | ARRAY | NIL | ERROR | STATUS.
#[export] Instance ReplyType_eq_dec : EqDecision ReplyType.
Proof. solve_decision. Defined.

Inductive RedisReply := mkReply (type : ReplyType) (reply_str : str) (integer : Z) (elements : list RedisReply).

Definition reply_type (r : RedisReply) : ReplyType := let 'mkReply t _ _ _ := r in t.
Definition reply_str (r : RedisReply) : str := let 'mkReply _ s _ _ := r in s.
Definition integer (r : RedisReply) : Z := let 'mkReply _ _ i _ := r in i.
Definition elements_of (r : RedisReply) : list RedisReply := let 'mkReply _ _ _ es := r in es.

Definition reply_init : RedisReply := mkReply NIL [] 0 [].
Definition is_type (t : ReplyType) (r : RedisReply) : bool := bool_decide (reply_type r = t).
Definition ok (r : RedisReply) : bool := negb (is_type ERROR r) && negb (is_type NIL r).

Definition string_reply (s : str) : RedisReply := mkReply STRING s 0 [].
Definition integer_reply (i : Z) : RedisReply := mkReply INTEGER [] i [].
Definition array_reply (es : list str) : RedisReply := mkReply ARRAY [] 0 (string_reply <$> es).
Definition status_reply (s : string) : RedisReply := mkReply STATUS (lit s) 0 [].

(** ** The store *)

Record redis := mkRedis {
  data_ : gmap str str;
  expires_ : gmap str Z;
  hashes_ : gmap str (gmap str str);
  lists_ : gmap str (list str);
  sets_ : gmap str (gset str);
  zsets_ : gmap str (list (f64 * str))
}.

Definition RedisClient_init : redis := mkRedis ∅ ∅ ∅ ∅ ∅ ∅.

Definition with_data f s := mkRedis (f (data_ s)) (expires_ s) (hashes_ s) (lists_ s) (sets_ s) (zsets_ s).
Definition with_expires f s := mkRedis (data_ s) (f (expires_ s)) (hashes_ s) (lists_ s) (sets_ s) (zsets_ s).
Definition with_hashes f s := mkRedis (data_ s) (expires_ s) (f (hashes_ s)) (lists_ s) (sets_ s) (zsets_ s).
Definition with_lists f s := mkRedis (data_ s) (expires_ s) (hashes_ s) (f (lists_ s)) (sets_ s) (zsets_ s).
Definition with_sets f s := mkRedis (data_ s) (expires_ s) (hashes_ s) (lists_ s) (f (sets_ s)) (zsets_ s).
Definition with_zsets f s := mkRedis (data_ s) (expires_ s) (hashes_ s) (lists_ s) (sets_ s) (f (zsets_ s)).

Definition disconnect (s : redis) : redis := RedisClient_init.

(** What a call does. *)
Inductive call (A : Type) := Returned (a : A) (s : redis) | Threw (s : redis) | UndefinedCall.
Arguments Returned {A} a s.
Arguments Threw {A} s.
Arguments UndefinedCall {A}.

Definition via {A B} (f : A -> B) (c : call A) : call B :=
  match c with Returned a s => Returned (f a) s | Threw s => Threw s | UndefinedCall => UndefinedCall end.

(** A conversion; it may throw in state [s]. *)
Definition convert {A B} (x : option A) (s : redis) (k : A -> call B) : call B :=
  match x with Some a => k a | None => Threw s end.

(** A signed 64-bit sum. *)
Definition sum64 {B} (a b : Z) (k : Z -> call B) : call B :=
  match i64_add a b with Some z => k z | None => UndefinedCall end.

(** Everything kept under a key. *)
Definition forget_key (k : str) (s : redis) : redis :=
  mkRedis (delete k (data_ s)) (delete k (expires_ s)) (delete k (hashes_ s)) (delete k (lists_ s))
    (delete k (sets_ s)) (delete k (zsets_ s)).

Definition check_expire (now : Z) (k : str) (s : redis) : redis :=
  match expires_ s !! k with
  | Some deadline => if deadline <=? now then forget_key k s else s
  | None => s
  end.

(** ** Strings *)

Definition cmd_set (k v : str) (s : redis) : call RedisReply :=
  Returned (status_reply "OK") (with_data (insert k v) s).

(** [expires_[k] = now + stoll(seconds)]. *)
Definition set_deadline (now : Z) (k seconds : str) (s : redis) (r : RedisReply) : call RedisReply :=
  convert (stoll seconds) s (fun n => sum64 now n (fun deadline => Returned r (with_expires (insert k deadline) s))).

Definition cmd_setex (now : Z) (k seconds v : str) (s : redis) : call RedisReply :=
  set_deadline now k seconds (with_data (insert k v) s) (status_reply "OK").

Definition cmd_setnx (k v : str) (s : redis) : call RedisReply :=
  match data_ s !! k with
  | None => Returned (integer_reply 1) (with_data (insert k v) s)
  | Some _ => Returned (integer_reply 0) s
  end.

Definition cmd_get (now : Z) (k : str) (s : redis) : call RedisReply :=
  let s := check_expire now k s in
  match data_ s !! k with
  | Some v => Returned (string_reply v) s
  | None => Returned reply_init s
  end.

Definition present {A} (m : gmap str A) (k : str) : Z := match m !! k with Some _ => 1 | None => 0 end.

Fixpoint del_keys (ks : list str) (count : Z) (s : redis) : Z * redis :=
  match ks with
  | [] => (count, s)
  | k :: ks' => del_keys ks' (count + present (data_ s) k) (forget_key k s)
  end.

Definition cmd_del (ks : list str) (s : redis) : call RedisReply :=
  let '(count, s') := del_keys ks 0 s in Returned (integer_reply count) s'.

Definition cmd_exists (now : Z) (k : str) (s : redis) : call RedisReply :=
  let s := check_expire now k s in Returned (integer_reply (present (data_ s) k)) s.

Definition cmd_expire (now : Z) (k seconds : str) (s : redis) : call RedisReply :=
  match data_ s !! k with
  | Some _ => set_deadline now k seconds s (integer_reply 1)
  | None => Returned (integer_reply 0) s
  end.

Definition cmd_ttl (now : Z) (k : str) (s : redis) : call RedisReply :=
  match data_ s !! k, expires_ s !! k with
  | None, _ => Returned (integer_reply (-2)) s
  | Some _, None => Returned (integer_reply (-1)) s
  | Some _, Some deadline =>
      match i64_sub deadline now with
      | Some remaining => Returned (integer_reply (Z.max 0 remaining)) s
      | None => UndefinedCall
      end
  end.

(** [val], then the stored string becomes [val + by]. *)
Definition add_to (k : str) (by_ : Z) (val : Z) (s : redis) : call RedisReply :=
  sum64 val by_ (fun v => Returned (integer_reply v) (with_data (insert k (to_string v)) s)).

Definition stored_integer (k : str) (s : redis) : option Z :=
  match data_ s !! k with Some v => stoll v | None => Some 0 end.

Definition cmd_incr (k : str) (s : redis) : call RedisReply :=
  convert (stored_integer k s) s (fun val => add_to k 1 val s).

Definition cmd_incrby (k increment : str) (s : redis) : call RedisReply :=
  convert (stored_integer k s) s (fun val => convert (stoll increment) s (fun n => add_to k n val s)).

(** ** Hashes *)

Definition cmd_hset (k field v : str) (s : redis) : call RedisReply :=
  Returned (integer_reply 1) (with_hashes (fun m => <[k := <[field := v]> (default ∅ (m !! k))]> m) s).

Definition hash_field (k field : str) (s : redis) : option str := h ← hashes_ s !! k; (h : gmap str str) !! field.

Definition cmd_hget (k field : str) (s : redis) : call RedisReply :=
  match hash_field k field s with
  | Some v => Returned (string_reply v) s
  | None => Returned reply_init s
  end.

Definition cmd_hgetall {IO : IterOrder str} (k : str) (s : redis) : call RedisReply :=
  Returned (array_reply (default [] (h ← hashes_ s !! k; Some (p ← iter h; [p.1; p.2])))) s.

Definition cmd_hexists (k field : str) (s : redis) : call RedisReply :=
  Returned (integer_reply (if hash_field k field s is Some _ then 1 else 0)) s.

Definition cmd_hdel (k field : str) (s : redis) : call RedisReply :=
  Returned (integer_reply (if hash_field k field s is Some _ then 1 else 0)) (with_hashes (alter (delete field) k) s).

Definition cmd_hlen (k : str) (s : redis) : call RedisReply :=
  Returned (integer_reply (default 0 (h ← hashes_ s !! k; Some (Z.of_nat (size (h : gmap str str)))))) s.

(** ** Lists *)

Definition list_at (k : str) (s : redis) : list str := default [] (lists_ s !! k).

Definition put_list (k : str) (l : list str) (s : redis) : call RedisReply :=
  Returned (integer_reply (Z.of_nat (length l))) (with_lists (insert k l) s).

Definition cmd_lpush (k v : str) (s : redis) : call RedisReply := put_list k (v :: list_at k s) s.
Definition cmd_rpush (k v : str) (s : redis) : call RedisReply := put_list k (list_at k s ++ [v]) s.

Definition cmd_lpop (k : str) (s : redis) : call RedisReply :=
  match lists_ s !! k with
  | Some (v :: l) => Returned (string_reply v) (with_lists (insert k l) s)
  | _ => Returned reply_init s
  end.

Definition cmd_rpop (k : str) (s : redis) : call RedisReply :=
  match lists_ s !! k with
  | Some (x :: l) =>
      Returned (string_reply (List.last (x :: l) x)) (with_lists (insert k (removelast (x :: l))) s)
  | _ => Returned reply_init s
  end.

(** The loop [for (i = start; i <= stop; ++i)] over elements; [None] is a read
    out of range. *)
Fixpoint collect {A} (l : list A) (n : nat) (i : Z) : option (list A) :=
  match n with
  | O => Some []
  | S n' =>
      x ← (if i <? 0 then None else l !! Z.to_nat i);
      xs ← collect l n' (i + 1); Some (x :: xs)
  end.

Definition range_of {A} (l : list A) (start stop : Z) : option (list A) :=
  let len := Z.of_nat (length l) in
  let start := if start <? 0 then len + start else start in
  let stop := if stop <? 0 then len + stop else stop in
  let start := Z.max 0 start in
  let stop := Z.min (len - 1) stop in
  collect l (Z.to_nat (stop - start + 1)) start.

(** [LRANGE] and [ZRANGE] of the elements kept, if any. *)
Definition range_reply {A} (f : A -> str) (l : option (list A)) (start stop : str) (s : redis) : call RedisReply :=
  match l with
  | None => Returned (array_reply []) s
  | Some l =>
      convert (stoll start) s (fun a => convert (stoll stop) s (fun b =>
        match range_of l a b with
        | Some xs => Returned (array_reply (f <$> xs)) s
        | None => UndefinedCall
        end))
  end.

Definition cmd_lrange (k start stop : str) (s : redis) : call RedisReply :=
  range_reply id (lists_ s !! k) start stop s.

Definition cmd_llen (k : str) (s : redis) : call RedisReply :=
  Returned (integer_reply (Z.of_nat (length (list_at k s)))) s.

(** ** Sets *)

Definition set_at (k : str) (s : redis) : gset str := default ∅ (sets_ s !! k).
Definition member (k m : str) (s : redis) : Z := if decide (m ∈ set_at k s) then 1 else 0.

Definition cmd_sadd (k m : str) (s : redis) : call RedisReply :=
  Returned (integer_reply (1 - member k m s)) (with_sets (insert k ({[m]} ∪ set_at k s)) s).

Definition cmd_srem (k m : str) (s : redis) : call RedisReply :=
  Returned (integer_reply (member k m s)) (with_sets (insert k (set_at k s ∖ {[m]})) s).

Definition cmd_sismember (k m : str) (s : redis) : call RedisReply :=
  Returned (integer_reply (member k m s)) (with_sets (insert k (set_at k s)) s).

Definition cmd_smembers (k : str) (s : redis) : call RedisReply :=
  Returned (array_reply (merge_sort str_le (elements (set_at k s)))) s.

Definition cmd_scard (k : str) (s : redis) : call RedisReply :=
  Returned (integer_reply (Z.of_nat (size (set_at k s)))) s.

(** ** Sorted sets *)

(** [std::pair<double, std::string>]'s order; no score is a NaN. *)
Definition scored_le (p q : f64 * str) : Prop :=
  SFltb p.1 q.1 = true \/ (SFltb q.1 p.1 = false /\ str_le p.2 q.2).
#[export] Instance scored_le_dec : RelDecision scored_le.
Proof. intros p q. unfold scored_le. apply _. Defined.

Definition zset_at (k : str) (s : redis) : list (f64 * str) := default [] (zsets_ s !! k).

(** The first entry of a member is given the score. *)
Fixpoint rescore (m : str) (score : f64) (z : list (f64 * str)) : option (list (f64 * str)) :=
  match z with
  | [] => None
  | p :: z' => if decide (p.2 = m) then Some ((score, m) :: z') else z1 ← rescore m score z'; Some (p :: z1)
  end.

Definition cmd_zadd (k score m : str) (s : redis) : call RedisReply :=
  convert (stod score) s (fun x =>
    match x with
    | S754_nan => UndefinedCall
    | _ =>
        match rescore m x (zset_at k s) with
        | Some z => Returned (integer_reply 0) (with_zsets (insert k z) s)
        | None => Returned (integer_reply 1) (with_zsets (insert k (merge_sort scored_le (zset_at k s ++ [(x, m)]))) s)
        end
    end).

Definition cmd_zrange (k start stop : str) (s : redis) : call RedisReply :=
  range_reply snd (zsets_ s !! k) start stop s.

(** The index of a member. *)
Fixpoint rank (m : str) (z : list (f64 * str)) : option nat :=
  match z with [] => None | p :: z' => if decide (p.2 = m) then Some 0%nat else S <$> rank m z' end.

Definition cmd_zrem (k m : str) (s : redis) : call RedisReply :=
  match rank m (zset_at k s) with
  | Some i => Returned (integer_reply 1) (with_zsets (insert k (delete i (zset_at k s))) s)
  | None => Returned (integer_reply 0) s
  end.

Definition cmd_zscore (k m : str) (s : redis) : call RedisReply :=
  match (i ← rank m (zset_at k s); zset_at k s !! i) with
  | Some p => Returned (string_reply (double_to_string p.1)) s
  | None => Returned reply_init s
  end.

Definition cmd_zrank (k m : str) (s : redis) : call RedisReply :=
  Returned (integer_reply (default (-1) (Z.of_nat <$> rank m (zset_at k s)))) s.

Definition cmd_zcard (k : str) (s : redis) : call RedisReply :=
  Returned (integer_reply (Z.of_nat (length (zset_at k s)))) s.

(** ** [execute] *)

Definition is_ascii (s : str) : bool := forallb (fun b => byte_val b <? 128) s.

(** [else if (cmd == name && args.size() >= n)]; [args] are those after the command. *)
Definition on (cmd : str) (name : string) (c rest : call RedisReply) : call RedisReply :=
  if bool_decide (cmd = lit name) then c else rest.

Section Chain.
Context (cmd : str) (args : list str).

Definition on1 (name : string) (f : str -> call RedisReply) (rest : call RedisReply) : call RedisReply :=
  match args with a :: _ => on cmd name (f a) rest | _ => rest end.
Definition on2 (name : string) (f : str -> str -> call RedisReply) (rest : call RedisReply) : call RedisReply :=
  match args with a :: b :: _ => on cmd name (f a b) rest | _ => rest end.
Definition on3 (name : string) (f : str -> str -> str -> call RedisReply) (rest : call RedisReply) : call RedisReply :=
  match args with a :: b :: c :: _ => on cmd name (f a b c) rest | _ => rest end.

Definition run_command {IO : IterOrder str} (now : Z) (s : redis) : call RedisReply :=
  on2 "SET" (fun k v => cmd_set k v s) (
  on3 "SETEX" (fun k n v => cmd_setex now k n v s) (
  on2 "SETNX" (fun k v => cmd_setnx k v s) (
  on1 "GET" (fun k => cmd_get now k s) (
  on1 "DEL" (fun _ => cmd_del args s) (
  on1 "EXISTS" (fun k => cmd_exists now k s) (
  on2 "EXPIRE" (fun k n => cmd_expire now k n s) (
  on1 "TTL" (fun k => cmd_ttl now k s) (
  on1 "INCR" (fun k => cmd_incr k s) (
  on2 "INCRBY" (fun k n => cmd_incrby k n s) (
  on3 "HSET" (fun k f v => cmd_hset k f v s) (
  on2 "HGET" (fun k f => cmd_hget k f s) (
  on1 "HGETALL" (fun k => cmd_hgetall k s) (
  on2 "HEXISTS" (fun k f => cmd_hexists k f s) (
  on2 "HDEL" (fun k f => cmd_hdel k f s) (
  on1 "HLEN" (fun k => cmd_hlen k s) (
  on2 "LPUSH" (fun k v => cmd_lpush k v s) (
  on2 "RPUSH" (fun k v => cmd_rpush k v s) (
  on1 "LPOP" (fun k => cmd_lpop k s) (
  on1 "RPOP" (fun k => cmd_rpop k s) (
  on3 "LRANGE" (fun k a b => cmd_lrange k a b s) (
  on2 "SADD" (fun k m => cmd_sadd k m s) (
  on2 "SREM" (fun k m => cmd_srem k m s) (
  on2 "SISMEMBER" (fun k m => cmd_sismember k m s) (
  on1 "SMEMBERS" (fun k => cmd_smembers k s) (
  on1 "SCARD" (fun k => cmd_scard k s) (
  on3 "ZADD" (fun k x m => cmd_zadd k x m s) (
  on3 "ZRANGE" (fun k a b => cmd_zrange k a b s) (
  on2 "ZREM" (fun k m => cmd_zrem k m s) (
  on2 "ZSCORE" (fun k m => cmd_zscore k m s) (
  on2 "ZRANK" (fun k m => cmd_zrank k m s) (
  on1 "ZCARD" (fun k => cmd_zcard k s) (
  on1 "LLEN" (fun k => cmd_llen k s) (
  on cmd "PING" (Returned (status_reply "PONG") s) (
  Returned (mkReply ERROR (lit "unsupported command: " ++ cmd) 0 []) s)))))))))))))))))))))))))))))))))).
End Chain.

Section Client.
Context {IO : IterOrder str} (now : Z).

Definition execute (args : list str) (s : redis) : call RedisReply :=
  match args with
  | [] => Returned (mkReply ERROR (lit "empty command") 0 []) s
  | cmd :: args' => if is_ascii cmd then run_command (to_upper <$> cmd) args' now s else UndefinedCall
  end.

(** ** The client's methods *)

Definition command (name : string) (args : list str) (s : redis) : call RedisReply := execute (lit name :: args) s.

(** [static_cast<int>(r.integer)]: modulo 2^32. *)
Definition int_of (d : Z) (r : RedisReply) : Z := if is_type INTEGER r then i32 (integer r) else d.
Definition int64_of (d : Z) (r : RedisReply) : Z := if is_type INTEGER r then integer r else d.
Definition is_one (r : RedisReply) : bool := is_type INTEGER r && (integer r =? 1).
Definition str_of (r : RedisReply) : str := if is_type STRING r then reply_str r else [].
Definition opt_of (r : RedisReply) : option str := if is_type STRING r then Some (reply_str r) else None.
Definition strs_of (r : RedisReply) : list str := if is_type ARRAY r then reply_str <$> elements_of r else [].

Definition set (k v : str) (s : redis) : call bool := via ok (command "SET" [k; v] s).
Definition setex (k : str) (seconds : Z) (v : str) (s : redis) : call bool :=
  via ok (command "SETEX" [k; to_string seconds; v] s).
Definition setnx (k v : str) (s : redis) : call bool := via is_one (command "SETNX" [k; v] s).
Definition get (k : str) (s : redis) : call str := via str_of (command "GET" [k] s).
Definition get_value (k : str) (s : redis) : call (option str) := via opt_of (command "GET" [k] s).
Definition del (k : str) (s : redis) : call Z := via (int_of 0) (command "DEL" [k] s).
Definition exists_ (k : str) (s : redis) : call bool := via is_one (command "EXISTS" [k] s).
Definition expire (k : str) (seconds : Z) (s : redis) : call bool := via is_one (command "EXPIRE" [k; to_string seconds] s).
Definition ttl (k : str) (s : redis) : call Z := via (int_of (-2)) (command "TTL" [k] s).
Definition incr (k : str) (s : redis) : call Z := via (int64_of 0) (command "INCR" [k] s).
Definition incrby (k : str) (n : Z) (s : redis) : call Z := via (int64_of 0) (command "INCRBY" [k; to_string n] s).

Definition hset (k f v : str) (s : redis) : call bool := via ok (command "HSET" [k; f; v] s).
Definition hget (k f : str) (s : redis) : call str := via str_of (command "HGET" [k; f] s).
Definition hget_value (k f : str) (s : redis) : call (option str) := via opt_of (command "HGET" [k; f] s).
Definition hexists (k f : str) (s : redis) : call bool := via is_one (command "HEXISTS" [k; f] s).
Definition hdel (k f : str) (s : redis) : call Z := via (int_of 0) (command "HDEL" [k; f] s).
Definition hlen (k : str) (s : redis) : call Z := via (int64_of 0) (command "HLEN" [k] s).

(** The map built from pairs of elements. *)
Fixpoint pairs_of (es : list str) : gmap str str -> gmap str str := fun m =>
  match es with f :: v :: es' => pairs_of es' (<[f := v]> m) | _ => m end.
Definition map_of (r : RedisReply) : gmap str str :=
  if is_type ARRAY r && (Nat.even (length (elements_of r))) then pairs_of (reply_str <$> elements_of r) ∅ else ∅.
Definition hgetall (k : str) (s : redis) : call (gmap str str) := via map_of (command "HGETALL" [k] s).

Definition lpush (k v : str) (s : redis) : call Z := via (int64_of 0) (command "LPUSH" [k; v] s).
Definition rpush (k v : str) (s : redis) : call Z := via (int64_of 0) (command "RPUSH" [k; v] s).
Definition lpop (k : str) (s : redis) : call str := via str_of (command "LPOP" [k] s).
Definition rpop (k : str) (s : redis) : call str := via str_of (command "RPOP" [k] s).
Definition llen (k : str) (s : redis) : call Z := via (int64_of 0) (command "LLEN" [k] s).
Definition lrange (k : str) (start stop : Z) (s : redis) : call (list str) :=
  via strs_of (command "LRANGE" [k; to_string start; to_string stop] s).

Definition sadd (k m : str) (s : redis) : call Z := via (int_of 0) (command "SADD" [k; m] s).
Definition srem (k m : str) (s : redis) : call Z := via (int_of 0) (command "SREM" [k; m] s).
Definition sismember (k m : str) (s : redis) : call bool := via is_one (command "SISMEMBER" [k; m] s).
Definition scard (k : str) (s : redis) : call Z := via (int64_of 0) (command "SCARD" [k] s).
Definition smembers (k : str) (s : redis) : call (list str) := via strs_of (command "SMEMBERS" [k] s).

Definition zadd (k : str) (score : f64) (m : str) (s : redis) : call Z :=
  via (int_of 0) (command "ZADD" [k; double_to_string score; m] s).
Definition zrem (k m : str) (s : redis) : call Z := via (int_of 0) (command "ZREM" [k; m] s).
Definition zscore (k m : str) (s : redis) : call f64 :=
  match command "ZSCORE" [k; m] s with
  | Returned r s' => if is_type STRING r then convert (stod (reply_str r)) s' (fun x => Returned x s') else Returned (S754_zero false) s'
  | Threw s' => Threw s'
  | UndefinedCall => UndefinedCall
  end.
Definition zrank (k m : str) (s : redis) : call Z := via (int64_of (-1)) (command "ZRANK" [k; m] s).
Definition zcard (k : str) (s : redis) : call Z := via (int64_of 0) (command "ZCARD" [k] s).
Definition zrange (k : str) (start stop : Z) (s : redis) : call (list str) :=
  via strs_of (command "ZRANGE" [k; to_string start; to_string stop] s).
End Client.
