(* ===== verification/RedisTypes.v ===== *)
(** * RedisTypes: which command of Redis.v runs, and the type of its reply *)

From stdpp Require Import sorting.
From Stdlib Require Import SpecFloat.
From S2P Require Import Prelude.
From S2P Require Import Numeric.
From S2P Require Import Protocol.
From S2P Require Import Wire.
From S2P Require Import Effects.
From S2P Require Import StdNum.
From S2P Require Import Redis.

(** ** Which command runs *)

Lemma on_hit cmd name c rest : cmd = lit name -> on cmd name c rest = c.
Proof. intros H. unfold on. by rewrite bool_decide_true. Qed.
Lemma on_miss cmd name c rest : cmd <> lit name -> on cmd name c rest = rest.
Proof. intros H. unfold on. by rewrite bool_decide_false. Qed.

Lemma on1_miss cmd args name f rest : cmd <> lit name -> on1 cmd args name f rest = rest.
Proof. intros H. unfold on1. destruct args; [done|by apply on_miss]. Qed.
Lemma on2_miss cmd args name f rest : cmd <> lit name -> on2 cmd args name f rest = rest.
Proof. intros H. unfold on2. destruct args as [|? [|? ?]]; try done. by apply on_miss. Qed.
Lemma on3_miss cmd args name f rest : cmd <> lit name -> on3 cmd args name f rest = rest.
Proof. intros H. unfold on3. destruct args as [|? [|? [|? ?]]]; try done. by apply on_miss. Qed.

Lemma on1_hit cmd a args name f rest : cmd = lit name -> on1 cmd (a :: args) name f rest = f a.
Proof. apply on_hit. Qed.
Lemma on2_hit cmd a b args name f rest : cmd = lit name -> on2 cmd (a :: b :: args) name f rest = f a b.
Proof. apply on_hit. Qed.
Lemma on3_hit cmd a b c args name f rest : cmd = lit name -> on3 cmd (a :: b :: c :: args) name f rest = f a b c.
Proof. apply on_hit. Qed.

(** Walks the chain of a literal command given enough arguments. *)
Ltac miss := vm_compute; discriminate.
Ltac run_chain :=
  unfold command, execute; change (is_ascii _) with true; cbv beta iota; unfold run_command;
  repeat first
    [ rewrite on2_miss by miss | rewrite on1_miss by miss | rewrite on3_miss by miss
    | rewrite on_miss by miss ];
  first [ rewrite on1_hit by reflexivity | rewrite on2_hit by reflexivity
        | rewrite on3_hit by reflexivity | rewrite on_hit by reflexivity ].

Section Facts.
Context {IO : IterOrder str} (now : Z).

(** ** Reply types *)

(** Each command with its number of arguments and the types it may reply. *)
Definition signature : list (string * nat * list ReplyType) :=
  [("SET", 2%nat, [STATUS]); ("SETEX", 3%nat, [STATUS]); ("SETNX", 2%nat, [INTEGER]); ("GET", 1%nat, [STRING; NIL]);
   ("DEL", 1%nat, [INTEGER]); ("EXISTS", 1%nat, [INTEGER]); ("EXPIRE", 2%nat, [INTEGER]); ("TTL", 1%nat, [INTEGER]);
   ("INCR", 1%nat, [INTEGER]); ("INCRBY", 2%nat, [INTEGER]); ("HSET", 3%nat, [INTEGER]); ("HGET", 2%nat, [STRING; NIL]);
   ("HGETALL", 1%nat, [ARRAY]); ("HEXISTS", 2%nat, [INTEGER]); ("HDEL", 2%nat, [INTEGER]); ("HLEN", 1%nat, [INTEGER]);
   ("LPUSH", 2%nat, [INTEGER]); ("RPUSH", 2%nat, [INTEGER]); ("LPOP", 1%nat, [STRING; NIL]); ("RPOP", 1%nat, [STRING; NIL]);
   ("LRANGE", 3%nat, [ARRAY]); ("SADD", 2%nat, [INTEGER]); ("SREM", 2%nat, [INTEGER]); ("SISMEMBER", 2%nat, [INTEGER]);
   ("SMEMBERS", 1%nat, [ARRAY]); ("SCARD", 1%nat, [INTEGER]); ("ZADD", 3%nat, [INTEGER]); ("ZRANGE", 3%nat, [ARRAY]);
   ("ZREM", 2%nat, [INTEGER]); ("ZSCORE", 2%nat, [STRING; NIL]); ("ZRANK", 2%nat, [INTEGER]); ("ZCARD", 1%nat, [INTEGER]);
   ("LLEN", 1%nat, [INTEGER]); ("PING", 0%nat, [STATUS])].

Definition replies (ts : list ReplyType) (c : call RedisReply) : Prop :=
  match c with Returned r _ => reply_type r ∈ ts | Threw _ | UndefinedCall => True end.

Lemma replies_convert {A} ts (x : option A) s k : (forall a, replies ts (k a)) -> replies ts (convert x s k).
Proof. by destruct x; cbn. Qed.

Lemma replies_sum64 ts a b k : (forall z, replies ts (k z)) -> replies ts (sum64 a b k).
Proof. unfold sum64. by destruct (i64_add a b). Qed.

Lemma replies_range {A} (f : A -> str) l a b s : replies [ARRAY] (range_reply f l a b s).
Proof.
  unfold range_reply. destruct l as [l|]; [|left]. do 2 (apply replies_convert; intros ?).
  destruct (range_of l _ _); [left|done].
Qed.

(** The chain passes over the other commands. *)
Lemma pass_on cmd name ts c rest : cmd <> lit name -> replies ts rest -> replies ts (on cmd name c rest).
Proof. intros H. by rewrite on_miss. Qed.
Lemma pass_on1 cmd args name ts f rest : cmd <> lit name -> replies ts rest -> replies ts (on1 cmd args name f rest).
Proof. intros H. by rewrite on1_miss. Qed.
Lemma pass_on2 cmd args name ts f rest : cmd <> lit name -> replies ts rest -> replies ts (on2 cmd args name f rest).
Proof. intros H. by rewrite on2_miss. Qed.
Lemma pass_on3 cmd args name ts f rest : cmd <> lit name -> replies ts rest -> replies ts (on3 cmd args name f rest).
Proof. intros H. by rewrite on3_miss. Qed.

Ltac pass_chain :=
  unfold command, execute; change (is_ascii _) with true; cbv beta iota; unfold run_command;
  repeat first
    [ simple apply pass_on2; [miss|] | simple apply pass_on1; [miss|] | simple apply pass_on3; [miss|]
    | simple apply pass_on; [miss|] ];
  first [ rewrite on1_hit by reflexivity | rewrite on2_hit by reflexivity
        | rewrite on3_hit by reflexivity | rewrite on_hit by reflexivity ].

(** Splits the tests of a command, then its reply is the first or second type. *)
Ltac reply_cases :=
  unfold cmd_setex, cmd_setnx, cmd_get, cmd_del, cmd_expire, cmd_ttl, cmd_incr, cmd_incrby, set_deadline, add_to,
    cmd_hget, cmd_lpop, cmd_rpop, cmd_zadd, cmd_zrem, cmd_zscore;
  repeat first
    [ apply replies_convert; intros ?
    | apply replies_sum64; intros ?
    | apply replies_range
    | progress cbn [replies reply_type integer_reply string_reply array_reply status_reply reply_init]
    | case_match ];
  try done; repeat constructor.

(** As many arguments as are promised. *)
Ltac destruct_args args Hn :=
  cbn [length] in Hn;
  repeat match type of Hn with (S _ <= _)%nat => destruct args as [|? args]; [cbn in Hn; lia|cbn in Hn; apply le_S_n in Hn] end.

(** C19: A command given enough arguments replies one of the types its client
    method reads, whatever the store and the arguments (when it replies). *)
Theorem command_replies_its_type name n ts args s :
  (name, n, ts) ∈ signature -> (n <= length args)%nat -> replies ts (command now name args s).
Proof.
  unfold signature. intros Hin Hn.
  repeat (apply elem_of_cons in Hin as [[= -> -> ->]|Hin];
    [destruct_args args Hn; pass_chain; reply_cases|]); by apply elem_of_nil in Hin.
Qed.
End Facts.

Lemma command_replies_its_type_witness :
  replies [STRING; NIL] (command (IO := key_order str) 7 "LPOP" [lit "queue"] RedisClient_init).
Proof.
  apply (command_replies_its_type (IO := key_order str) 7 "LPOP" 1 [STRING; NIL] [lit "queue"] RedisClient_init); [|cbn; lia].
  apply (bool_decide_unpack _). vm_compute. exact I.
Defined.
