(* ===== verification/RedisFacts.v ===== *)
(** * RedisFacts: what the client of Redis.v guarantees

    Ranges of lists, counters, sorted sets, and what a deadline does and does
    not reach. *)

From stdpp Require Import sorting.
From Stdlib Require Import SpecFloat.
From S2P Require Import Prelude.
From S2P Require Import Numeric.
From S2P Require Import Protocol.
From S2P Require Import Wire.
From S2P Require Import Effects.
From S2P Require Import StdNum.
From S2P Require Import Redis.
From S2P Require Import RedisTypes.

Section Facts.
Context {IO : IterOrder str} (now : Z).

(** ** Deadlines *)

(** The value of a key that is read at [now]. *)
Definition expired (k : str) (s : redis) : bool :=
  match expires_ s !! k with Some deadline => deadline <=? now | None => false end.
Definition visible (k : str) (s : redis) : option str := if expired k s then None else data_ s !! k.

Lemma check_expire_data k s : data_ (check_expire now k s) !! k = visible k s.
Proof.
  unfold visible, expired, check_expire. destruct (expires_ s !! k) as [d|]; [|done].
  case_test; [apply lookup_delete_eq|done].
Qed.

Lemma get_value_runs k s : get_value now k s = via opt_of (cmd_get now k s).
Proof. unfold get_value. by run_chain. Qed.
Lemma set_runs k v s : set now k v s = Returned true (with_data (insert k v) s).
Proof. unfold set. by run_chain. Qed.
Lemma setnx_runs k v s : setnx now k v s = via is_one (cmd_setnx k v s).
Proof. unfold setnx. by run_chain. Qed.
Lemma del_runs k s : del now k s = via (int_of 0) (cmd_del [k] s).
Proof. unfold del. by run_chain. Qed.
Lemma expire_runs k n s : expire now k n s = via is_one (cmd_expire now k (to_string n) s).
Proof. unfold expire. by run_chain. Qed.
Lemma incr_runs k s : incr now k s = via (int64_of 0) (cmd_incr k s).
Proof. unfold incr. by run_chain. Qed.

Lemma get_value_spec k s : get_value now k s = Returned (visible k s) (check_expire now k s).
Proof.
  rewrite get_value_runs. unfold cmd_get. rewrite check_expire_data. by destruct (visible k s).
Qed.

(** A value set over a key whose deadline has passed is lost at once: SET
    says OK, the next GET says nil and everything under the key is gone. *)
Theorem set_inherits_deadline k v deadline s : expires_ s !! k = Some deadline -> deadline <= now ->
  exists s1 s2, set now k v s = Returned true s1 /\ get_value now k s1 = Returned None s2 /\
    s2 = forget_key k s1 /\ data_ s1 !! k = Some v.
Proof.
  intros He Hd. eexists _, _. split; [apply set_runs|]. rewrite get_value_spec. unfold visible, expired, check_expire.
  cbn [with_data expires_ data_]. rewrite He. rewrite (proj2 (Z.leb_le _ _)) by done.
  split; [done|]. split; [done|]. apply lookup_insert_eq.
Qed.

(** ** Ranges *)

Lemma collect_slice {A} (l : list A) n i : 0 <= i -> i + Z.of_nat n <= Z.of_nat (length l) ->
  collect l n i = Some (take n (drop (Z.to_nat i) l)).
Proof.
  revert i. induction n as [|n IH]; intros i Hi Hn; cbn [collect]; [done|].
  rewrite (proj2 (Z.ltb_ge _ _)) by lia.
  destruct (lookup_lt_is_Some_2 l (Z.to_nat i)) as [x Hx]; [lia|]. rewrite Hx. cbn.
  rewrite IH by lia. cbn. rewrite (drop_S l x (Z.to_nat i) Hx). cbn [take]. do 3 f_equal. f_equal. lia.
Qed.

(** A position counted from the end when negative. *)
Definition from_end (len i : Z) : Z := if i <? 0 then len + i else i.

(** LRANGE and ZRANGE never read out of range: for any two positions, negative
    ones counted from the end, they give the elements between them, both included. *)
Theorem range_exact {A} (l : list A) start stop :
  let len := Z.of_nat (length l) in
  let first := Z.max 0 (from_end len start) in
  let last := Z.min (len - 1) (from_end len stop) in
  range_of l start stop = Some (take (Z.to_nat (last - first + 1)) (drop (Z.to_nat first) l)).
Proof.
  intros len first last. unfold range_of. fold len. change (if start <? 0 then _ else _) with (from_end len start).
  change (if stop <? 0 then _ else _) with (from_end len stop). fold first last.
  destruct (Z.le_gt_cases first last); [apply collect_slice; lia|].
  replace (Z.to_nat (last - first + 1)) with 0%nat by lia. done.
Qed.

(** ** Counters *)

Fixpoint incr_times (n : nat) (k : str) (s : redis) : call Z :=
  match n with
  | O => Returned 0 s
  | S O => incr now k s
  | S n' => match incr now k s with Returned _ s' => incr_times n' k s' | c => c end
  end.

Lemma incr_step k v s : stored_integer k s = Some v -> - 2 ^ 63 <= v < 2 ^ 63 - 1 ->
  incr now k s = Returned (v + 1) (with_data (insert k (to_string (v + 1))) s).
Proof.
  intros Hv Hr. rewrite incr_runs. unfold cmd_incr. rewrite Hv. cbn [convert]. unfold add_to, sum64.
  rewrite i64_add_def by lia. done.
Qed.

Lemma stored_after k v s : - 2 ^ 63 <= v < 2 ^ 63 -> stored_integer k (with_data (insert k (to_string v)) s) = Some v.
Proof. intros Hv. unfold stored_integer. cbn. rewrite lookup_insert_eq. by apply stoll_to_string. Qed.

(** Incrementing a counter [n] times adds [n] to it, through its decimal
    string, as long as the sum is an int64: the last call returns it and it is kept. *)
Theorem incr_counts k v n s : stored_integer k s = Some v -> - 2 ^ 63 <= v -> v + Z.of_nat n < 2 ^ 63 -> (0 < n)%nat ->
  exists s', incr_times n k s = Returned (v + Z.of_nat n) s' /\
    data_ s' = <[k := to_string (v + Z.of_nat n)]> (data_ s) /\ expires_ s' = expires_ s.
Proof.
  revert v s. induction n as [|n IH]; intros v s Hv Hl Hn Hpos; [lia|].
  destruct n as [|n].
  - cbn [incr_times]. rewrite (incr_step k v) by (done || lia). by eexists.
  - change (incr_times (S (S n)) k s) with (match incr now k s with Returned _ s' => incr_times (S n) k s' | c => c end).
    rewrite (incr_step k v) by (done || lia).
    destruct (IH (v + 1) (with_data (insert k (to_string (v + 1))) s)) as (s' & Hi & Hd & He); [|lia|lia|lia|].
    { apply stored_after. lia. }
    exists s'. rewrite Hi, Hd, He. cbn. rewrite insert_insert_eq. by replace (v + 1 + Z.of_nat (S n)) with (v + Z.of_nat (S (S n))) by lia.
Qed.
End Facts.

(** ** Sorted sets *)

#[export] Instance scored_le_total : Total scored_le.
Proof.
  intros p q. unfold scored_le, str_le. destruct (SFltb p.1 q.1) eqn:E1; [left; by left|].
  destruct (SFltb q.1 p.1) eqn:E2; [right; by left|].
  destruct (str_leb p.2 q.2) eqn:E3; [left; by right|]. right. right. split; [done|by apply str_leb_total].
Qed.

Lemma rescore_rank m x z :
  match rank m z with
  | Some i => exists z', rescore m x z = Some z' /\ z'.*2 = z.*2 /\ z' !! i = Some (x, m)
  | None => rescore m x z = None
  end.
Proof.
  induction z as [|p z IH]; cbn; [done|]. case_decide as Hp; [eexists; split; [done|by rewrite fmap_cons, <- Hp]|].
  destruct (rank m z) as [i|]; cbn; [|by rewrite IH]. destruct IH as (z' & -> & Hz & Hi).
  eexists. split; [done|]. by rewrite !fmap_cons, Hz.
Qed.

(** ZADD of a new member sorts the whole set by score and name; of a member
    already there it changes the score where the member stands and sorts
    nothing, so the set may be left out of order. *)
Theorem zadd_sorts_only_new_members k score m x s : stod score = Some x -> x <> S754_nan ->
  exists r s', cmd_zadd k score m s = Returned r s' /\
    if rank m (zset_at k s) is Some i then
      integer r = 0 /\ (zset_at k s').*2 = (zset_at k s).*2 /\ zset_at k s' !! i = Some (x, m)
    else integer r = 1 /\ Sorted scored_le (zset_at k s') /\ zset_at k s' ≡ₚ (x, m) :: zset_at k s.
Proof.
  intros Hx Hn. unfold cmd_zadd. rewrite Hx. cbn [convert]. pose proof (rescore_rank m x (zset_at k s)) as Hr.
  assert (forall (r : RedisReply) z, exists r' s', match x with S754_nan => UndefinedCall | _ => Returned r (with_zsets (insert k z) s) end
    = Returned r' s' /\ r' = r /\ zset_at k s' = z) as Hret.
  { intros r z. exists r, (with_zsets (insert k z) s). unfold zset_at. cbn. rewrite lookup_insert_eq. by destruct x. }
  destruct (rank m (zset_at k s)) as [i|].
  - destruct Hr as (z & Hz & Hm & Hi). rewrite Hz. destruct (Hret (integer_reply 0) z) as (r' & s' & He & -> & Hz').
    exists (integer_reply 0), s'. by rewrite He, Hz'.
  - rewrite Hr. destruct (Hret (integer_reply 1) (merge_sort scored_le (zset_at k s ++ [(x, m)]))) as (r' & s' & He & -> & Hz').
    exists (integer_reply 1), s'. rewrite He, Hz'. split; [done|]. split; [done|]. split; [apply Sorted_merge_sort; apply _|].
    rewrite merge_sort_Permutation. apply Permutation_app_comm.
Qed.

Definition state_after (c : call RedisReply) : redis :=
  match c with Returned _ s | Threw s => s | UndefinedCall => RedisClient_init end.
Definition reply_of (c : call RedisReply) : option RedisReply := match c with Returned r _ => Some r | _ => None end.

(** After ZADD z 1 a, ZADD z 2 b, ZADD z 3 a: [a] is still first. *)
Lemma zadd_out_of_order :
  let z := lit "z" in
  let s1 := state_after (cmd_zadd z (lit "1") (lit "a") RedisClient_init) in
  let s2 := state_after (cmd_zadd z (lit "2") (lit "b") s1) in
  let s3 := state_after (cmd_zadd z (lit "3") (lit "a") s2) in
  reply_of (cmd_zrange z (lit "0") (lit "-1") s3) = Some (array_reply [lit "a"; lit "b"]).
Proof. vm_compute. reflexivity. Qed.

(** ** Instances *)

Lemma set_inherits_deadline_witness :
  exists s1 s2, set (IO := key_order str) 9 (lit "k") (lit "new") (mkRedis ∅ {[ lit "k" := 5 ]} ∅ ∅ ∅ ∅) = Returned true s1
    /\ get_value (IO := key_order str) 9 (lit "k") s1 = Returned None s2 /\ s2 = forget_key (lit "k") s1
    /\ data_ s1 !! lit "k" = Some (lit "new").
Proof.
  apply (set_inherits_deadline (IO := key_order str) 9 (lit "k") (lit "new") 5); [vm_compute; reflexivity|lia].
Defined.

Lemma incr_counts_witness :
  exists s', incr_times (IO := key_order str) 0 3 (lit "n") RedisClient_init = Returned 3 s'
    /\ data_ s' = <[lit "n" := to_string 3]> ∅ /\ expires_ s' = ∅.
Proof.
  apply (incr_counts (IO := key_order str) 0 (lit "n") 0 3 RedisClient_init); [vm_compute; reflexivity|lia|vm_compute; reflexivity|lia].
Defined.

Lemma zadd_sorts_only_new_members_witness :
  exists r s', cmd_zadd (lit "z") (lit "1.5") (lit "a") RedisClient_init = Returned r s' /\
    integer r = 1 /\ Sorted scored_le (zset_at (lit "z") s') /\
    zset_at (lit "z") s' ≡ₚ [(f64_div (f64_of_Z 3) (f64_of_Z 2), lit "a")].
Proof.
  apply (zadd_sorts_only_new_members (lit "z") (lit "1.5") (lit "a") (f64_div (f64_of_Z 3) (f64_of_Z 2)) RedisClient_init);
    [vm_compute; reflexivity|discriminate].
Defined.
