(* ===== verification/DistLock.v ===== *)
(** * DistLock: src/include redis/distributed_lock.h

    Clients of one Redis key, each a [DistributedLock] with its renewing thread.
    A step is one call on Redis (atomic under the client's mutex) with the local
    code up to the next one, by the main or the renewing thread of one client,
    or the clock moving on; the steps of all threads interleave freely.  A token
    is the next value of the generator: [tok] gives them in order. *)

From S2P Require Import Prelude.
From S2P Require Import Numeric.
From S2P Require Import Protocol.
From S2P Require Import Wire.
From S2P Require Import Effects.
From S2P Require Import StdNum.
From S2P Require Import Redis.
From S2P Require Import RedisTypes.
From S2P Require Import RedisFacts.

(** Where the main thread is: between calls, after SETNX succeeded, waiting for
    the renewing thread in [unlock], before GET and before DEL of [unlock];
    [Terminated] by [std::terminate] or a crash; [Destroyed]. *)
Inductive main_phase := Idle | Acquired (token : str) | Stopping | Checking | Deleting | Terminated | Destroyed.

(** The renewing thread: none (or joined), asleep, awake before GET, before
    EXPIRE, having seen another value, ended but not joined. *)
Inductive renewer := NoThread | Waiting | Awake | Renewing | Losing | Finished.

Record client := mkClient {
  lock_token_ : str;
  locked_ : bool;
  fencing_token_ : Z;
  main : main_phase;
  renew_thread_ : renewer;
  lease_from : Z  (* ghost: the time of the client's last successful SETNX or EXPIRE call *)
}.

Definition DistributedLock : client := mkClient [] false 0 Idle NoThread 0.

Definition with_main (p : main_phase) (c : client) : client :=
  mkClient (lock_token_ c) (locked_ c) (fencing_token_ c) p (renew_thread_ c) (lease_from c).
Definition with_renewer (r : renewer) (c : client) : client :=
  mkClient (lock_token_ c) (locked_ c) (fencing_token_ c) (main c) r (lease_from c).
Definition with_locked (b : bool) (c : client) : client :=
  mkClient (lock_token_ c) b (fencing_token_ c) (main c) (renew_thread_ c) (lease_from c).
Definition with_lease (t : Z) (c : client) : client :=
  mkClient (lock_token_ c) (locked_ c) (fencing_token_ c) (main c) (renew_thread_ c) t.

Definition joinable (r : renewer) : bool := match r with NoThread => false | _ => true end.

(** The process of a client is over: neither thread runs. *)
Definition dead (c : client) : bool := match main c with Terminated | Destroyed => true | _ => false end.

Record world := mkWorld {
  store_ : redis;
  now_ : Z;
  clients : Z -> client;
  generated : nat  (* tokens generated so far *)
}.

Section Lock.
Context {IO : IterOrder str} (tok : nat -> str) (lock_key_ : str) (ttl_seconds_ : Z).

(** One call on Redis. *)
Definition redis_call {A} (f : Z -> redis -> call A) (w : world) : option (A * redis) :=
  match f (now_ w) (store_ w) with Returned a s => Some (a, s) | Threw _ | UndefinedCall => None end.

Definition update (i : Z) (c : client) (s : redis) (w : world) : world :=
  mkWorld s (now_ w) (fun j => if decide (j = i) then c else clients w j) (generated w).

(** [try_lock] up to its SETNX. *)
Definition try_lock_setnx (i : Z) (w : world) : option world :=
  let token := tok (generated w) in
  '(done, s) ← redis_call (fun now => setnx now lock_key_ token) w;
  let c := clients w i in
  let w' := mkWorld (store_ w) (now_ w) (clients w) (S (generated w)) in
  Some (update i (if done : bool then with_lease (now_ w) (with_main (Acquired token) c) else c) s w').

(** The rest of [try_lock]: EXPIRE, the fields, the renewing thread; assigning
    to a thread that was not joined terminates the program. *)
Definition try_lock_expire (i : Z) (token : str) (w : world) : option world :=
  '(_, s) ← redis_call (fun now => expire now lock_key_ ttl_seconds_) w;
  let c := clients w i in
  let c' := mkClient token true (u64 (fencing_token_ c + 1)) Idle Waiting (now_ w) in
  Some (update i (if joinable (renew_thread_ c) then with_main Terminated c' else c') s w).

(** [unlock]'s comparison and its DEL. *)
Definition released (c : client) : client := mkClient [] false (fencing_token_ c) Idle (renew_thread_ c) (lease_from c).

Definition unlock_get (i : Z) (w : world) : option world :=
  '(current, s) ← redis_call (fun now => get now lock_key_) w;
  let c := clients w i in
  Some (update i (if decide (current = lock_token_ c) then with_main Deleting c else released c) s w).

Definition unlock_del (i : Z) (w : world) : option world :=
  '(_, s) ← redis_call (fun now => del now lock_key_) w;
  Some (update i (released (clients w i)) s w).

(** The renewing thread's GET and EXPIRE. *)
Definition renew_get (i : Z) (w : world) : option world :=
  '(current, s) ← redis_call (fun now => get now lock_key_) w;
  let c := clients w i in
  Some (update i (with_renewer (if decide (current = lock_token_ c) then Renewing else Losing) c) s w).

Definition renew_expire (i : Z) (w : world) : option world :=
  '(_, s) ← redis_call (fun now => expire now lock_key_ ttl_seconds_) w;
  Some (update i (with_lease (now_ w) (with_renewer Waiting (clients w i))) s w).

(** What may happen next: the clock, or a client's main or renewing thread.  The
    main thread may call [try_lock], [unlock] and the destructor when idle;
    [lock] is a loop of [try_lock], [unlock] of a client that is not locked
    returns at once. *)
Inductive action :=
| Tick (now : Z) | Crash (i : Z)
| TryLock (i : Z) | SetTtl (i : Z) | Unlock (i : Z) | Join (i : Z) | Compare (i : Z) | Delete (i : Z) | Destroy (i : Z)
| Wake (i : Z) | RenewCompare (i : Z) | RenewSetTtl (i : Z) | Lose (i : Z).

Definition exec (a : action) (w : world) : option world :=
  let set_client i c := Some (update i c (store_ w) w) in
  match a with
  | Tick t => if now_ w <=? t then Some (mkWorld (store_ w) t (clients w) (generated w)) else None
  | Crash i => set_client i (with_main Terminated (clients w i))
  | TryLock i => match main (clients w i) with Idle => try_lock_setnx i w | _ => None end
  | SetTtl i => match main (clients w i) with Acquired token => try_lock_expire i token w | _ => None end
  | Unlock i =>
      match main (clients w i), locked_ (clients w i) with
      | Idle, true => set_client i (with_main Stopping (clients w i))
      | _, _ => None
      end
  | Join i =>
      match main (clients w i), renew_thread_ (clients w i) with
      | Stopping, (NoThread | Waiting | Finished) => set_client i (with_main Checking (with_renewer NoThread (clients w i)))
      | _, _ => None
      end
  | Compare i => match main (clients w i) with Checking => unlock_get i w | _ => None end
  | Delete i => match main (clients w i) with Deleting => unlock_del i w | _ => None end
  | Destroy i =>
      match main (clients w i), locked_ (clients w i) with
      | Idle, false =>
          set_client i (with_main (if joinable (renew_thread_ (clients w i)) then Terminated else Destroyed) (clients w i))
      | _, _ => None
      end
  | Wake i =>
      match main (clients w i), renew_thread_ (clients w i) with
      | (Idle | Acquired _), Waiting =>
          set_client i (with_renewer (if locked_ (clients w i) then Awake else Finished) (clients w i))
      | _, _ => None
      end
  | RenewCompare i =>
      match dead (clients w i), renew_thread_ (clients w i) with false, Awake => renew_get i w | _, _ => None end
  | RenewSetTtl i =>
      match dead (clients w i), renew_thread_ (clients w i) with false, Renewing => renew_expire i w | _, _ => None end
  | Lose i =>
      match dead (clients w i), renew_thread_ (clients w i) with
      | false, Losing => set_client i (with_renewer Finished (with_locked false (clients w i)))
      | _, _ => None
      end
  end.

Fixpoint exec_all (acts : list action) (w : world) : option world :=
  match acts with [] => Some w | a :: acts' => w' ← exec a w; exec_all acts' w' end.

Definition step (w w' : world) : Prop := exists a, exec a w = Some w'.

Definition initial (now : Z) : world := mkWorld RedisClient_init now (fun _ => DistributedLock) 0.
End Lock.
