(* ===== verification/DistLockFacts.v ===== *)
(** * DistLockFacts: what the lock of DistLock.v guarantees

    Mutual exclusion of the clients whose time is not up, under every
    interleaving in which a comparison and the call it guards fall in the same
    lease; the interleaving without that; and the two ways a lost lock hurts. *)

From S2P Require Import Prelude.
From S2P Require Import Numeric.
From S2P Require Import Protocol.
From S2P Require Import Wire.
From S2P Require Import Effects.
From S2P Require Import StdNum.
From S2P Require Import Redis.
From S2P Require Import RedisTypes.
From S2P Require Import RedisFacts.
From S2P Require Import DistLock.

Section Spec.
Context {IO : IterOrder str} (tok : nat -> str) (lock_key_ : str) (ttl_seconds_ : Z).

(** The client holds the lock, as far as it can know: it has just acquired it,
    or is locked and its renewing thread has not seen another value. *)
Definition holds (c : client) : bool :=
  match main c with
  | Acquired _ => true
  | Terminated | Destroyed => false
  | _ => locked_ c && match renew_thread_ c with Losing => false | _ => true end
  end.

(** ... and its time is not up. *)
Definition fresh (now : Z) (c : client) : Prop := now < lease_from c + ttl_seconds_.

(** No client is so late that its time is up between GET and DEL or EXPIRE. *)
Definition timely (w : world) : Prop :=
  forall i, dead (clients w i) = false ->
    main (clients w i) = Deleting \/ renew_thread_ (clients w i) = Renewing -> fresh (now_ w) (clients w i).

Definition timely_step (w w' : world) : Prop := timely w /\ step tok lock_key_ ttl_seconds_ w w' /\ timely w'.
End Spec.

Section Facts.
Context {IO : IterOrder str} (tok : nat -> str) (key : str) (ttl : Z).
Hypothesis tok_inj : forall m n, tok m = tok n -> m = n.
Hypothesis tok_nonempty : forall n, tok n <> [].

(** ** One key of Redis *)

Definition D (s : redis) : option str := data_ s !! key.
Definition X (s : redis) : option Z := expires_ s !! key.

Lemma setnx_key now v s : exists s', setnx now key v s = Returned (bool_decide (D s = None)) s' /\
  D s' = Some (default v (D s)) /\ X s' = X s.
Proof.
  rewrite setnx_runs. unfold cmd_setnx, D, X. destruct (data_ s !! key) as [u|] eqn:E; eexists; (split; [done|]); cbn.
  - by rewrite E.
  - by rewrite lookup_insert_eq.
Qed.

Lemma expire_key now s b s' : expire now key ttl s = Returned b s' -> int64_range ttl = true ->
  D s' = D s /\ X s' = (if D s is Some _ then Some (now + ttl) else X s).
Proof.
  rewrite expire_runs. intros H Hr%int64_range_spec. unfold cmd_expire, set_deadline in H. unfold D, X.
  destruct (data_ s !! key) as [u|] eqn:E; cbn in H; [|by injection H as _ <-; rewrite E].
  rewrite stoll_to_string in H by done. cbn in H. unfold sum64 in H.
  destruct (i64_add now ttl) as [d|] eqn:Hd; [|done]. apply i64_add_ok in Hd as [-> _].
  injection H as _ <-. cbn. by rewrite E, lookup_insert_eq.
Qed.

Lemma del_key now s n s' : del now key s = Returned n s' -> D s' = None /\ X s' = None.
Proof.
  rewrite del_runs. cbn. intros [= _ <-]. unfold D, X. cbn. by rewrite !lookup_delete_eq.
Qed.

(** GET: the value if its deadline has not passed; otherwise the key is gone. *)
Lemma get_key now s v s' : get now key s = Returned v s' ->
  if expired now key s then v = [] /\ D s' = None /\ X s' = None
  else v = default [] (D s) /\ D s' = D s /\ X s' = X s.
Proof.
  assert (get now key s = via str_of (cmd_get now key s)) as -> by by unfold get; run_chain.
  unfold cmd_get. rewrite check_expire_data. unfold visible, check_expire, expired, D, X.
  destruct (expires_ s !! key) as [d|] eqn:E; [destruct (d <=? now)|].
  - cbn. intros [= <- <-]. cbn. by rewrite !lookup_delete_eq.
  - destruct (data_ s !! key) eqn:Ed; cbn; intros [= <- <-]; by rewrite ?Ed, ?E.
  - destruct (data_ s !! key) eqn:Ed; cbn; intros [= <- <-]; by rewrite ?Ed, ?E.
Qed.
(** ** The invariant of a client, given the key's value and deadline *)

Definition unaware (c : client) : bool :=
  locked_ c && match renew_thread_ c with Losing => false | _ => true end.

(** Its fields: an unaware client whose time is not up has the key, under its own
    deadline; one that knows better, or never had the lock, does not. *)
Definition lease_ok (d : option str) (x : option Z) (now : Z) (c : client) : Prop :=
  (locked_ c = true -> lock_token_ c <> []) /\
  (renew_thread_ c = Awake \/ renew_thread_ c = Renewing -> locked_ c = true) /\
  if unaware c then fresh ttl now c -> d = Some (lock_token_ c) /\ x = Some (lease_from c + ttl)
  else lock_token_ c <> [] -> d <> Some (lock_token_ c).

Definition client_ok (d : option str) (x : option Z) (now : Z) (c : client) : Prop :=
  match main c with
  | Terminated | Destroyed => True
  | Acquired t =>
      d = Some t /\ x = None /\ lock_token_ c <> t /\ renew_thread_ c <> Renewing /\
      (locked_ c = true -> lock_token_ c <> []) /\ (renew_thread_ c = Awake -> locked_ c = true)
  | Idle => lease_ok d x now c
  | Stopping => lease_ok d x now c /\ lock_token_ c <> []
  | Checking => lease_ok d x now c /\ lock_token_ c <> [] /\ renew_thread_ c = NoThread
  | Deleting => lease_ok d x now c /\ lock_token_ c <> [] /\ renew_thread_ c = NoThread /\ locked_ c = true
  end.

(** The tokens a client knows: its own and one just generated. *)
Definition mentions (c : client) (t : str) : Prop :=
  main c = Acquired t \/ (lock_token_ c = t /\ t <> []).

(** A client that counts on the key. *)
Definition claims (now : Z) (c : client) : Prop :=
  match main c with
  | Terminated | Destroyed => False
  | Acquired _ => True
  | _ => unaware c = true /\ fresh ttl now c
  end.

Lemma claims_value d x now c : client_ok d x now c -> claims now c ->
  exists t, d = Some t /\ mentions c t /\ (x = None \/ exists e, x = Some e /\ now < e).
Proof.
  unfold client_ok, claims, mentions, lease_ok, fresh. destruct (main c) as [|t| | | | |]; try done.
  2: { intros (-> & -> & _) _. exists t. eauto. }
  all: intros Hok [Hu Hf]; rewrite Hu in Hok; destruct (lock_token_ c) as [|b l] eqn:E;
    [unfold unaware in Hu; apply andb_true_iff in Hu as [Hu _]; naive_solver|].
  all: exists (b :: l); naive_solver.
Qed.

(** Whoever does not count on the key does not mind what happens to it, unless its
    old token comes back. *)
Lemma client_ok_change d x d' x' now c : client_ok d x now c -> ~ claims now c ->
  (forall t, mentions c t -> d' = Some t -> d = Some t) -> client_ok d' x' now c.
Proof.
  unfold client_ok, claims, lease_ok, mentions. intros Hok Hc Hd.
  destruct (main c) as [|t| | | | |]; try done; destruct (unaware c) eqn:Hu; naive_solver.
Qed.

Lemma client_ok_later d x now now' c : client_ok d x now c -> now <= now' -> client_ok d x now' c.
Proof.
  unfold client_ok, lease_ok, fresh. intros Hok Hn.
  destruct (main c); try done; destruct (unaware c); naive_solver lia.
Qed.

(** ** The invariant of the world *)

Record inv (w : world) : Prop := {
  inv_key : X (store_ w) <> None -> D (store_ w) <> None;
  inv_clients : forall i, client_ok (D (store_ w)) (X (store_ w)) (now_ w) (clients w i);
  inv_generated : forall i t, mentions (clients w i) t -> exists n, (n < generated w)%nat /\ t = tok n;
  inv_unique : forall i j t, mentions (clients w i) t -> mentions (clients w j) t -> i = j
}.

Lemma update_at i c s w : clients (update i c s w) i = c.
Proof. cbn. by rewrite decide_True. Qed.
Lemma update_other i j c s w : j <> i -> clients (update i c s w) j = clients w j.
Proof. intros Hj. cbn. by rewrite decide_False. Qed.

(** A client changes, with the key or not; it learns no new token. *)
Lemma inv_update i c s w : inv w -> (X s <> None -> D s <> None) -> client_ok (D s) (X s) (now_ w) c ->
  (forall t, mentions c t -> mentions (clients w i) t) ->
  (forall j, j <> i -> client_ok (D s) (X s) (now_ w) (clients w j)) -> inv (update i c s w).
Proof.
  intros [_ _ Hg Hu] Hk Hc Hm Ho.
  assert (forall j t, mentions (clients (update i c s w) j) t -> mentions (clients w j) t) as Hall.
  { intros j t. destruct (decide (j = i)) as [->|Hj]; [rewrite update_at; apply Hm|by rewrite update_other]. }
  split; [done| |eauto|eauto]. intros j. destruct (decide (j = i)) as [->|Hj]; [by rewrite update_at|].
  rewrite update_other by done. by apply Ho.
Qed.

(** Only the client changes. *)
Lemma inv_local i c w : inv w -> client_ok (D (store_ w)) (X (store_ w)) (now_ w) c ->
  (forall t, mentions c t -> mentions (clients w i) t) -> inv (update i c (store_ w) w).
Proof. intros I Hc Hm. apply inv_update; try done; [apply I|]. intros j _. apply I. Qed.

(** The others do not count on a key one client has. *)
Lemma others_unclaimed i t w : inv w -> D (store_ w) = Some t -> mentions (clients w i) t ->
  forall j, j <> i -> ~ claims (now_ w) (clients w j).
Proof.
  intros I Hd Hm j Hj Hc. destruct (claims_value _ _ _ _ (inv_clients _ I j) Hc) as (t' & Hd' & Hm' & _).
  rewrite Hd in Hd'. injection Hd' as <-. apply Hj. by eapply (inv_unique _ I).
Qed.

(** Nobody counts on a key that is not there or has expired. *)
Lemma nobody_claims w : inv w -> D (store_ w) = None \/ expired (now_ w) key (store_ w) = true ->
  forall j, ~ claims (now_ w) (clients w j).
Proof.
  intros I H j Hc. destruct (claims_value _ _ _ _ (inv_clients _ I j) Hc) as (t & Hd & _ & Hx).
  destruct H as [H|H]; [congruence|]. unfold expired in H. unfold X in Hx.
  destruct (expires_ (store_ w) !! key) as [e|]; [|done]. breflect. destruct Hx as [|(e' & [= <-] & ?)]; [done|lia].
Qed.
(** ** Every step keeps it *)

Hypothesis ttl_range : int64_range ttl = true.

Lemma redis_call_inv {A} (f : Z -> redis -> call A) w a s : redis_call f w = Some (a, s) -> f (now_ w) (store_ w) = Returned a s.
Proof. unfold redis_call. destruct (f _ _); try done. by intros [= <- <-]. Qed.

Lemma try_lock_inv i w w' : inv w -> timely ttl w -> main (clients w i) = Idle ->
  try_lock_setnx tok key i w = Some w' -> inv w'.
Proof.
  intros I T Hi. unfold try_lock_setnx. intros H. apply bind_Some in H as ([done s] & Hcall%redis_call_inv & [= <-]).
  destruct (setnx_key (now_ w) (tok (generated w)) (store_ w)) as (s' & Hs & Hd & Hx). rewrite Hs in Hcall.
  injection Hcall as <- ->. pose proof I as [Ik Ic Ig Iu].
  assert (forall j t, mentions (clients w j) t -> t <> tok (generated w)) as Hnew.
  { intros j t Hm ->. apply Ig in Hm as (n & Hn & Ht). apply tok_inj in Ht. lia. }
  set (w1 := mkWorld (store_ w) (now_ w) (clients w) (S (generated w))).
  assert (inv w1) as I1.
  { split; try done. intros j t (n & Hn & ->)%Ig. exists n. split; [cbn; lia|done]. }
  case_bool_decide as Hnone.
  - rewrite Hnone in Hd. cbn in Hd.
    assert (X (store_ w) = None) as Hxn by (destruct (X (store_ w)) eqn:E; [by destruct Ik|done]). rewrite Hxn in Hx.
    pose proof (Ic i) as Hok. rewrite Hnone, Hxn in Hok. unfold client_ok in Hok. rewrite Hi in Hok.
    split; cbn [store_ now_ update]; rewrite ?Hd, ?Hx; try done.
    + intros j. destruct (decide (j = i)) as [->|Hj].
      * rewrite update_at. cbn. split_and!; try done.
        -- intros Ht. destruct (clients w i) as [tk l f m r le] eqn:E. cbn in *. apply (Hnew i tk); [|done].
           right. rewrite E. cbn. split; [done|]. rewrite Ht. apply tok_nonempty.
        -- intros Hr. destruct Hok as (_ & Hl & Hf). unfold unaware in Hf. rewrite Hl, Hr in Hf by by right.
           cbn in Hf. destruct Hf as [? _]; [|done]. apply T; [|by right]. unfold dead. by rewrite Hi.
        -- apply Hok.
        -- intros Ha. apply Hok. by left.
      * rewrite update_other by done. apply (client_ok_change None None); [rewrite <- Hnone, <- Hxn; apply Ic| |].
        -- apply nobody_claims; [done|by left].
        -- intros t Hm [= <-]. exfalso. by apply (Hnew j _ Hm).
    + intros j t. destruct (decide (j = i)) as [->|Hj].
      * rewrite update_at. intros [[= <-]|Hm]; [exists (generated w); cbn; split; [lia|done]|].
        destruct (Ig i t) as (n & Hn & ->); [by right|]. exists n. cbn. split; [lia|done].
      * rewrite update_other by done. apply I1.
    + assert (forall j t, j <> i -> mentions (clients w j) t ->
        mentions (with_lease (now_ w) (with_main (Acquired (tok (generated w))) (clients w i))) t -> False) as Hne.
      { intros j t Hj Hm [[= <-]|Hm']; [by apply (Hnew j _ Hm)|]. apply Hj. eapply Iu; [done|by right]. }
      intros j k t. destruct (decide (j = i)) as [->|Hj], (decide (k = i)) as [->|Hk]; try done;
        rewrite ?update_at, ?update_other by done; intros Hm Hm'; [by destruct (Hne k t Hk)|by destruct (Hne j t Hj)|by eapply Iu].
  - assert (D s = D (store_ w)) as Hd' by (destruct (D (store_ w)); done).
    apply (inv_update i _ s w1 I1); cbn; rewrite ?Hd', ?Hx; try done.
Qed.

Lemma set_ttl_inv i t w w' : inv w -> main (clients w i) = Acquired t -> try_lock_expire key ttl i t w = Some w' -> inv w'.
Proof.
  intros I Hi. unfold try_lock_expire. intros H. apply bind_Some in H as ([b s] & Hcall%redis_call_inv & [= <-]).
  apply expire_key in Hcall as [Hd Hx]; [|done]. pose proof (inv_clients _ I i) as Hok. unfold client_ok in Hok.
  rewrite Hi in Hok. destruct Hok as (Hdt & _). rewrite Hdt in Hd, Hx.
  assert (t <> []) as Ht by (destruct (inv_generated _ I i t) as (n & _ & ->); [by left|apply tok_nonempty]).
  apply inv_update; [done|by rewrite Hd| | |].
  - rewrite Hd, Hx. destruct (joinable _); [done|]. split; [done|]. split; [by intros [|]|]. by intros _.
  - intros t' Hm. assert (t' = t) as ->; [|by left]. destruct (joinable _), Hm as [Hm|[Hm _]]; cbn in Hm; congruence.
  - intros j Hj. apply (client_ok_change (D (store_ w)) (X (store_ w))); [apply I| |by rewrite Hd, Hdt].
    apply (others_unclaimed i t); [done|done|by left|done].
Qed.
(** A GET only removes a key nobody counts on. *)
Lemma inv_get v s w : inv w -> get (now_ w) key (store_ w) = Returned v s ->
  inv (mkWorld s (now_ w) (clients w) (generated w)) /\ v = default [] (D s).
Proof.
  intros I Hg%get_key. pose proof I as [Ik Ic Ig Iu]. destruct (expired _ _ _) eqn:E.
  - destruct Hg as (-> & Hd & Hx). rewrite Hd. split; [|done]. split; cbn [store_ now_ clients]; [by rewrite Hx| |done|done].
    intros j. rewrite Hd, Hx. apply (client_ok_change (D (store_ w)) (X (store_ w))); [apply Ic| |done].
    apply nobody_claims; [done|by right].
  - destruct Hg as (-> & Hd & Hx). rewrite Hd. split; [|done]. split; cbn [store_ now_ clients]; rewrite ?Hd, ?Hx; done.
Qed.

Lemma released_ok d x now c : renew_thread_ c = NoThread -> client_ok d x now (released c).
Proof. intros Hr. unfold client_ok, lease_ok, unaware. cbn. rewrite Hr. split; [done|]. split; [by intros [|]|done]. Qed.

Lemma unlock_get_inv i w w' : inv w -> main (clients w i) = Checking -> unlock_get key i w = Some w' -> inv w'.
Proof.
  intros I Hi. unfold unlock_get. intros H. apply bind_Some in H as ([v s] & Hcall%redis_call_inv & [= <-]).
  apply (inv_get v s w I) in Hcall as [I1 ->]. set (w1 := mkWorld s (now_ w) (clients w) (generated w)) in *.
  pose proof (inv_clients _ I1 i) as Hok. unfold client_ok in Hok. cbn [w1 clients store_] in Hok. rewrite Hi in Hok.
  destruct Hok as (Hl & Ht & Hr). apply (inv_local i _ w1 I1); cbn [w1 clients store_ now_].
  - case_decide as Hm; [|by apply released_ok]. cbn. split; [exact Hl|]. split_and!; try done.
    destruct Hl as (_ & _ & Hl). destruct (locked_ (clients w i)) eqn:E; [done|]. unfold unaware in Hl. rewrite E in Hl. cbn in Hl.
    destruct (D s) as [d|] eqn:Ed; [|done]. cbn in Hm. subst d. by destruct Hl.
  - intros t. case_decide; [|by intros [?|[<- ?]]]. intros [?|?]; [done|by right].
Qed.

Lemma renew_get_inv i w w' : inv w -> dead (clients w i) = false -> renew_thread_ (clients w i) = Awake ->
  renew_get key i w = Some w' -> inv w'.
Proof.
  intros I Hdead Hi. unfold renew_get. intros H. apply bind_Some in H as ([v s] & Hcall%redis_call_inv & [= <-]).
  apply (inv_get v s w I) in Hcall as [I1 ->]. set (w1 := mkWorld s (now_ w) (clients w) (generated w)) in *.
  pose proof (inv_clients _ I1 i) as Hok. cbn [w1 clients store_] in Hok.
  apply (inv_local i _ w1 I1); cbn [w1 clients store_ now_]; [|by intros t [?|?]; [left|right]].
  assert (lease_ok (D s) (X s) (now_ w) (clients w i) -> lease_ok (D s) (X s) (now_ w)
    (with_renewer (if decide (default [] (D s) = lock_token_ (clients w i)) then Renewing else Losing) (clients w i))) as Hlease.
  { unfold lease_ok, unaware. rewrite Hi. cbn. intros (Hl & Hlock & Hf). rewrite Hlock in * by by left.
    case_decide as Hm; [by split_and!|]. split; [done|]. split; [done|]. cbn. intros Hne Hd. by rewrite Hd in Hm. }
  unfold client_ok in Hok |- *. cbn [main with_renewer]. destruct (main (clients w i)) as [|t| | | | |] eqn:Em; try done.
  - by apply Hlease.
  - destruct Hok as (Hd & Hx & Hne & _ & Hl & Ha). cbn. rewrite Hd. cbn. rewrite decide_False by congruence. done.
  - destruct Hok as [Hok Ht]. split; [by apply Hlease|done].
  - by destruct Hok as (_ & _ & Hok); rewrite Hi in Hok.
  - by destruct Hok as (_ & _ & Hok & _); rewrite Hi in Hok.
Qed.

Lemma unlock_del_inv i w w' : inv w -> timely ttl w -> main (clients w i) = Deleting -> unlock_del key i w = Some w' -> inv w'.
Proof.
  intros I T Hi. unfold unlock_del. intros H. apply bind_Some in H as ([n s] & Hcall%redis_call_inv & [= <-]).
  apply del_key in Hcall as [Hd Hx]. pose proof (inv_clients _ I i) as Hok. unfold client_ok in Hok. rewrite Hi in Hok.
  destruct Hok as ((_ & _ & Hf) & Ht & Hr & Hl). unfold unaware in Hf. rewrite Hl, Hr in Hf. cbn in Hf.
  destruct Hf as [Hdw _]; [apply T; [unfold dead; by rewrite Hi|by left]|].
  apply inv_update; rewrite ?Hd, ?Hx; try done.
  - by apply released_ok.
  - by intros t [?|[<- ?]].
  - intros j Hj. apply (client_ok_change (D (store_ w)) (X (store_ w))); [apply I| |done].
    apply (others_unclaimed i (lock_token_ (clients w i))); [done|done|by right|done].
Qed.

Lemma renew_expire_inv i w w' : inv w -> timely ttl w -> dead (clients w i) = false ->
  renew_thread_ (clients w i) = Renewing -> renew_expire key ttl i w = Some w' -> inv w'.
Proof.
  intros I T Hdead Hi. unfold renew_expire. intros H. apply bind_Some in H as ([b s] & Hcall%redis_call_inv & [= <-]).
  apply expire_key in Hcall as [Hd Hx]; [|done]. pose proof (inv_clients _ I i) as Hok.
  assert (fresh ttl (now_ w) (clients w i)) as Hfresh by (apply T; [done|by right]).
  assert (lease_ok (D (store_ w)) (X (store_ w)) (now_ w) (clients w i) /\
    (main (clients w i) = Idle \/ main (clients w i) = Stopping)) as [(Hl & Hlock & Hf) Hmain].
  { unfold client_ok in Hok. unfold dead in Hdead. destruct (main (clients w i)); try done; naive_solver congruence. }
  assert (locked_ (clients w i) = true) as Hlk by (apply Hlock; by right).
  unfold unaware in Hf. rewrite Hlk, Hi in Hf. cbn in Hf. destruct (Hf Hfresh) as [Hdw _]. rewrite Hdw in Hd, Hx.
  assert (mentions (clients w i) (lock_token_ (clients w i))) as Hm by (right; split; [done|by apply Hl]).
  apply inv_update; rewrite ?Hd, ?Hx; try done.
  - assert (lease_ok (Some (lock_token_ (clients w i))) (Some (now_ w + ttl)) (now_ w)
      (with_lease (now_ w) (with_renewer Waiting (clients w i)))) as Hlease.
    { unfold lease_ok, unaware. cbn. rewrite Hlk. split; [by intros _; apply Hl|]. split; [by intros [|]|done]. }
    unfold client_ok. cbn [main with_lease with_renewer]. destruct Hmain as [-> | ->]; [done|]. split; [done|]. by apply Hl.
  - intros j Hj. apply (client_ok_change (D (store_ w)) (X (store_ w))); [apply I| |by rewrite Hdw].
    by apply (others_unclaimed i (lock_token_ (clients w i))).
Qed.
(** Steps without a call on Redis. *)
Lemma wake_ok d x now c : (main c = Idle \/ exists t, main c = Acquired t) -> renew_thread_ c = Waiting ->
  client_ok d x now c -> client_ok d x now (with_renewer (if locked_ c then Awake else Finished) c).
Proof.
  unfold client_ok, lease_ok, unaware. cbn [main with_renewer]. intros Hm Hr Hok. rewrite Hr in Hok.
  destruct (locked_ c) eqn:E; cbn [locked_ renew_thread_ lock_token_ lease_from with_renewer]; rewrite E;
    destruct Hm as [Hm|[t Hm]]; rewrite Hm in *; cbn in *; naive_solver.
Qed.

Lemma lose_ok d x now c : renew_thread_ c = Losing -> client_ok d x now c ->
  client_ok d x now (with_renewer Finished (with_locked false c)).
Proof.
  unfold client_ok, lease_ok, unaware. cbn. intros Hr Hok. rewrite Hr in Hok. rewrite andb_false_r in Hok.
  destruct (main c); try done; naive_solver.
Qed.

Lemma join_ok d x now c : main c = Stopping -> renew_thread_ c = NoThread \/ renew_thread_ c = Waiting \/ renew_thread_ c = Finished ->
  client_ok d x now c -> client_ok d x now (with_main Checking (with_renewer NoThread c)).
Proof.
  unfold client_ok, lease_ok, unaware. cbn. intros -> Hr [(Hl & _ & Hf) Ht].
  assert (match renew_thread_ c with Losing => false | _ => true end = true) as E by (by destruct Hr as [-> | [-> | ->]]). rewrite E in Hf.
  split_and!; try done. by intros [|].
Qed.

Lemma exec_inv a w w' : inv w -> timely ttl w -> exec tok key ttl a w = Some w' -> inv w'.
Proof.
  intros I T. destruct a as [t|i|i|i|i|i|i|i|i|i|i|i|i]; cbn [exec].
  - case_test; [|done]. intros [= <-]. destruct I as [Ik Ic Ig Iu]. split; try done.
    intros i. apply (client_ok_later _ _ (now_ w)); [apply Ic|done].
  - intros [= <-]. apply inv_local; [done|done|]. by intros t [?|?]; [|right].
  - destruct (main (clients w i)) eqn:E; try done. by apply try_lock_inv.
  - destruct (main (clients w i)) eqn:E; try done. by apply set_ttl_inv.
  - destruct (main (clients w i)) eqn:E; try done. destruct (locked_ (clients w i)) eqn:El; try done. intros [= <-].
    pose proof (inv_clients _ I i) as Hok. unfold client_ok in Hok. rewrite E in Hok.
    apply inv_local; [done| |by intros t [?|?]; [|right]]. split; [exact Hok|]. by apply Hok.
  - destruct (main (clients w i)) eqn:E; try done. destruct (renew_thread_ (clients w i)) eqn:Er; try done; intros [= <-];
      (apply inv_local; [done| |by intros t [?|?]; [|right]]); apply join_ok; try apply I; naive_solver.
  - destruct (main (clients w i)) eqn:E; try done. by apply unlock_get_inv.
  - destruct (main (clients w i)) eqn:E; try done. by apply unlock_del_inv.
  - destruct (main (clients w i)) eqn:E; try done. destruct (locked_ (clients w i)) eqn:El; try done. intros [= <-].
    apply inv_local; [done| |intros t [Hm|?]; [|by right]].
    + unfold client_ok. cbn. by destruct (joinable _).
    + cbn in Hm. by destruct (joinable _).
  - destruct (main (clients w i)) eqn:E; try done; destruct (renew_thread_ (clients w i)) eqn:Er; try done; intros [= <-];
      (apply inv_local; [done| |by intros ? [?|?]; [left|right]]); apply wake_ok; try apply I; eauto.
  - destruct (dead (clients w i)) eqn:E; [done|]. destruct (renew_thread_ (clients w i)) eqn:Er; try done. by apply renew_get_inv.
  - destruct (dead (clients w i)) eqn:E; [done|]. destruct (renew_thread_ (clients w i)) eqn:Er; try done. by apply renew_expire_inv.
  - destruct (dead (clients w i)) eqn:E; [done|]. destruct (renew_thread_ (clients w i)) eqn:Er; try done. intros [= <-].
    apply inv_local; [done| |by intros ? [?|?]; [left|right]]. apply lose_ok; [done|apply I].
Qed.

Lemma initial_inv now : inv (initial now).
Proof.
  split; cbn.
  - by unfold X.
  - intros i. unfold client_ok, lease_ok, unaware. cbn. split; [done|]. split; [by intros [|]|done].
  - by intros i t [|[<- ?]].
  - by intros i j t [|[<- ?]].
Qed.

Lemma reachable_inv now w : rtc (timely_step tok key ttl) (initial now) w -> inv w.
Proof.
  pose proof (initial_inv now) as I. revert I. generalize (initial now) as w0. intros w0 I Hr.
  induction Hr as [|w0 w1 w2 (T & (a & Ha) & _) _ IH]; [done|]. apply IH. by eapply exec_inv.
Qed.

(** C9: Mutual exclusion: however the clients' threads interleave, as long as no
    time runs out between a client's GET and the DEL or EXPIRE it decides, no two
    clients hold the lock with time left. *)
Theorem mutual_exclusion now w i j : rtc (timely_step tok key ttl) (initial now) w ->
  holds (clients w i) = true -> fresh ttl (now_ w) (clients w i) ->
  holds (clients w j) = true -> fresh ttl (now_ w) (clients w j) -> i = j.
Proof.
  intros I%reachable_inv Hi Hfi Hj Hfj.
  assert (forall k, holds (clients w k) = true -> fresh ttl (now_ w) (clients w k) -> claims (now_ w) (clients w k)) as Hc.
  { intros k. unfold holds, claims, unaware. by destruct (main (clients w k)). }
  destruct (claims_value _ _ _ _ (inv_clients _ I i) (Hc i Hi Hfi)) as (t & Hd & Hm & _).
  destruct (claims_value _ _ _ _ (inv_clients _ I j) (Hc j Hj Hfj)) as (t' & Hd' & Hm' & _).
  rewrite Hd in Hd'. injection Hd' as <-. by eapply (inv_unique _ I).
Qed.

(** ** A holder that dies *)

(** The key is there and nobody alive has anything to do with it. *)
Definition orphaned (w : world) : Prop :=
  is_Some (D (store_ w)) /\
  forall i, dead (clients w i) = true \/
    (main (clients w i) = Idle /\ locked_ (clients w i) = false /\
     (renew_thread_ (clients w i) = NoThread \/ renew_thread_ (clients w i) = Finished)).

Lemma orphaned_update i c s w : orphaned w -> is_Some (D s) ->
  (dead c = true \/ (main c = Idle /\ locked_ c = false /\ (renew_thread_ c = NoThread \/ renew_thread_ c = Finished))) ->
  orphaned (update i c s w).
Proof.
  intros [_ Hw] Hs Hc. split; [done|]. intros j. destruct (decide (j = i)) as [->|Hj].
  - by rewrite update_at.
  - rewrite update_other by done. apply Hw.
Qed.

Lemma orphaned_exec a w w' : orphaned w -> exec tok key ttl a w = Some w' -> orphaned w' /\ D (store_ w') = D (store_ w).
Proof.
  intros O. pose proof O as [Hs Hw]. destruct a as [t|i|i|i|i|i|i|i|i|i|i|i|i]; cbn [exec].
  1: case_test; [|done]; by intros [= <-].
  all: pose proof (Hw i) as Hi; unfold dead in *.
  1: intros [= <-]; (split; [|done]); apply orphaned_update; [done|done|by left].
  2,3,4,5,6,8: destruct (main (clients w i)) eqn:E; try done; destruct Hi as [?|(? & Hl & Hr)]; try done;
    try (destruct (locked_ (clients w i)); done); try (by destruct Hr as [-> | ->]).
  3,4,5: destruct (main (clients w i)) eqn:E; try done; destruct Hi as [?|(? & Hl & Hr)]; try done; by destruct Hr as [-> | ->].
  - destruct (main (clients w i)) eqn:E; try done. unfold try_lock_setnx. intros H.
    apply bind_Some in H as ([done_ s] & Hcall%redis_call_inv & [= <-]).
    destruct (setnx_key (now_ w) (tok (generated w)) (store_ w)) as (s' & Hset & Hd & _). rewrite Hset in Hcall.
    injection Hcall as <- ->. destruct Hs as [u Hu]. rewrite Hu in Hd |- *. cbn in Hd.
    rewrite bool_decide_false by done. split; [|done].
    apply (orphaned_update i _ s (mkWorld (store_ w) (now_ w) (clients w) (S (generated w)))); [split; [by exists u|done]|by exists u|].
    destruct Hi as [?|Hi]; [done|]. right; by rewrite E.
  - destruct (main (clients w i)) eqn:E; try done. destruct (locked_ (clients w i)) eqn:El; try done. intros [= <-].
    split; [|done]. apply orphaned_update; [done|done|]. left. unfold dead. cbn. by destruct (joinable _).
Qed.

(** When the holder of the lock dies and no other client is in the middle of a
    call, nobody ever gets the lock again: SETNX does not look at deadlines, so
    the key stays, however long ago its time ran out. *)
Theorem orphaned_lock_stays w w' i : orphaned w -> rtc (step tok key ttl) w w' ->
  holds (clients w' i) = false /\ D (store_ w') = D (store_ w).
Proof.
  intros O Hr. assert (orphaned w' /\ D (store_ w') = D (store_ w)) as [[_ Hw] Hd].
  { induction Hr as [|w w1 w2 [a Ha] _ IH]; [done|]. destruct (orphaned_exec a w w1 O Ha) as [O1 <-]. by apply IH. }
  split; [|done]. unfold holds. destruct (Hw i) as [Hdead|(-> & -> & _)]; [|done].
  unfold dead in Hdead. by destruct (main (clients w' i)).
Qed.
End Facts.
