(* ===== verification/DistLockRuns.v ===== *)
(** * DistLockRuns: runs of the lock of DistLock.v

    Concrete interleavings: one that satisfies the hypotheses of mutual
    exclusion, one where the DEL of a late [unlock] removes another client's
    lock, and what becomes of a client whose lock was lost. *)

From S2P Require Import Prelude.
From S2P Require Import Numeric.
From S2P Require Import Protocol.
From S2P Require Import Wire.
From S2P Require Import Effects.
From S2P Require Import StdNum.
From S2P Require Import Redis.
From S2P Require Import RedisFacts.
From S2P Require Import DistLock.
From S2P Require Import DistLockFacts.

#[local] Instance demo_order : IterOrder str := key_order str.

Definition demo_token (n : nat) : str := replicate (S n) Byte.x41.

Lemma demo_token_inj m n : demo_token m = demo_token n -> m = n.
Proof. intros H%(f_equal length). unfold demo_token in H. rewrite !length_replicate in H. lia. Qed.
Lemma demo_token_nonempty n : demo_token n <> [].
Proof. done. Qed.

Definition demo_key : str := lit "lock:order:1".
Definition demo_ttl : Z := 10.

Abbreviation demo_exec := (exec demo_token demo_key demo_ttl).
Abbreviation demo_step := (step demo_token demo_key demo_ttl).

(** ** Checked runs *)

Definition actor (a : action) : option Z :=
  match a with
  | Tick _ => None
  | Crash i | TryLock i | SetTtl i | Unlock i | Join i | Compare i | Delete i | Destroy i
  | Wake i | RenewCompare i | RenewSetTtl i | Lose i => Some i
  end.

Lemma exec_other a w w' j : demo_exec a w = Some w' -> actor a <> Some j -> clients w' j = clients w j.
Proof.
  intros H Hj.
  assert (forall i c s w0, Some i <> Some j -> clients (update i c s w0) j = clients w0 j) as Hu.
  { intros i c s w0 Hi. apply update_other. congruence. }
  destruct a as [t|i|i|i|i|i|i|i|i|i|i|i|i]; cbn [exec actor] in *.
  all: unfold try_lock_setnx, try_lock_expire, unlock_get, unlock_del, renew_get, renew_expire in H.
  all: repeat match goal with
    | H : (if ?b then _ else _) = Some _ |- _ => destruct b; [|done]
    | H : match ?x with _ => _ end = Some _ |- _ => destruct x eqn:?; try done
    | H : _ ≫= _ = Some _ |- _ => apply bind_Some in H as ([? ?] & _ & H)
    | H : Some _ = Some _ |- _ => injection H as <-
    end; try done; by rewrite Hu.
Qed.

(** All clients but those listed are untouched. *)
Definition only (cs : list Z) (w : world) : Prop := forall i, i ∉ cs -> clients w i = DistributedLock.

Definition timely_b (cs : list Z) (w : world) : bool :=
  forallb (fun i =>
    let c := clients w i in
    dead c || negb (match main c with Deleting => true | _ => match renew_thread_ c with Renewing => true | _ => false end end)
    || (now_ w <? lease_from c + demo_ttl)) cs.

Lemma timely_b_spec cs w : only cs w -> timely_b cs w = true -> timely demo_ttl w.
Proof.
  intros Ho Hb i Hd Hc. destruct (decide (i ∈ cs)) as [Hi|Hi].
  - unfold timely_b in Hb. rewrite forallb_forall in Hb. specialize (Hb i (proj1 (list_elem_of_In _ _) Hi)). cbn in Hb.
    rewrite Hd in Hb. cbn in Hb. unfold fresh. apply orb_true_iff in Hb as [Hb|Hb]; [|by breflect].
    destruct Hc as [Hc|Hc]; rewrite Hc in Hb; [done|]. by destruct (main (clients w i)).
  - rewrite Ho in Hc by done. by destruct Hc.
Qed.

Fixpoint run_timely (cs : list Z) (acts : list action) (w : world) : option world :=
  if timely_b cs w then
    match acts with
    | [] => Some w
    | a :: acts' =>
        if match actor a with Some i => bool_decide (i ∈ cs) | None => true end then
          w' ← demo_exec a w; run_timely cs acts' w'
        else None
    end
  else None.

Lemma run_timely_steps cs acts w w' : only cs w -> run_timely cs acts w = Some w' ->
  rtc (timely_step demo_token demo_key demo_ttl) w w' /\ timely demo_ttl w.
Proof.
  revert w. induction acts as [|a acts IH]; intros w Ho; cbn [run_timely].
  all: destruct (timely_b cs w) eqn:Ht; [|done]; pose proof (timely_b_spec cs w Ho Ht) as T.
  - intros [= <-]. by split; [constructor|].
  - destruct (match actor a with Some i => _ | None => _ end) eqn:Ha; [|done]. intros H. apply bind_Some in H as (w1 & H1 & H2). apply IH in H2 as [Hr T1].
    + split; [|done]. eapply rtc_l; [|done]. split; [done|]. split; [by exists a|done].
    + intros i Hi. rewrite (exec_other a w w1 i H1); [by apply Ho|]. intros Hai. rewrite Hai in Ha.
      by apply bool_decide_eq_true in Ha.
Qed.

Lemma exec_all_steps acts w w' : exec_all demo_token demo_key demo_ttl acts w = Some w' -> rtc demo_step w w'.
Proof.
  revert w. induction acts as [|a acts IH]; intros w; cbn [exec_all]; [by intros [= <-]|].
  intros H. apply bind_Some in H as (w1 & H1 & H2). eapply rtc_l; [by exists a|by apply IH].
Qed.

(** ** A holder, a competitor, a renewal *)

Definition timely_script : list action :=
  [TryLock 0; SetTtl 0; TryLock 1; Tick 5; Wake 0; RenewCompare 0; Tick 6; RenewSetTtl 0; TryLock 1].
Definition timely_world : world := default (initial 0) (run_timely [0; 1] timely_script (initial 0)).

Lemma mutual_exclusion_witness :
  holds (clients timely_world 0) = true /\ fresh demo_ttl (now_ timely_world) (clients timely_world 0) /\
  forall j, holds (clients timely_world j) = true -> fresh demo_ttl (now_ timely_world) (clients timely_world j) -> 0 = j.
Proof.
  assert (rtc (timely_step demo_token demo_key demo_ttl) (initial 0) timely_world) as Hr.
  { assert (match run_timely [0; 1] timely_script (initial 0) with Some _ => true | None => false end = true) as Hs
      by (vm_compute; reflexivity).
    apply (run_timely_steps [0; 1] timely_script); [by intros i _|]. unfold timely_world.
    destruct (run_timely [0; 1] timely_script (initial 0)); [reflexivity|discriminate Hs]. }
  assert (holds (clients timely_world 0) = true) as Hh by (vm_compute; reflexivity).
  assert (fresh demo_ttl (now_ timely_world) (clients timely_world 0)) as Hf by (vm_compute; reflexivity).
  split; [exact Hh|]. split; [exact Hf|]. intros j Hj Hfj.
  exact (mutual_exclusion demo_token demo_key demo_ttl demo_token_inj demo_token_nonempty eq_refl 0 timely_world 0 j Hr Hh Hf Hj Hfj).
Defined.

(** ** A late DEL *)

(** Client 0 loses the lock while its [unlock] waits for the renewing thread; its
    GET later removes client 1's expired key between client 1's GET and DEL; that
    DEL then hits the key client 2 has just set. *)
Definition late_script : list action :=
  [TryLock 0; SetTtl 0; Wake 0; Unlock 0; Tick 20; RenewCompare 0; TryLock 1; SetTtl 1; Lose 0; Join 0;
   Tick 29; Unlock 1; Join 1; Compare 1; Tick 31; Compare 0; TryLock 2; SetTtl 2; Delete 1; TryLock 3; SetTtl 3].
Definition late_world : world :=
  default (initial 0) (exec_all demo_token demo_key demo_ttl late_script (initial 0)).

Lemma script_reaches acts w : w = default (initial 0) (exec_all demo_token demo_key demo_ttl acts (initial 0)) ->
  match exec_all demo_token demo_key demo_ttl acts (initial 0) with Some _ => true | None => false end = true ->
  rtc demo_step (initial 0) w.
Proof.
  intros -> Hs. apply (exec_all_steps acts). by destruct (exec_all demo_token demo_key demo_ttl acts (initial 0)).
Qed.

(** Since [unlock] compares with GET and then calls DEL, the clients can reach
    a state where two hold the lock, both with all their time left. *)
Theorem unlock_deletes_anothers_lock : exists w i j, rtc demo_step (initial 0) w /\ i <> j /\
  holds (clients w i) = true /\ fresh demo_ttl (now_ w) (clients w i) /\
  holds (clients w j) = true /\ fresh demo_ttl (now_ w) (clients w j).
Proof.
  exists late_world, 2, 3. split; [apply (script_reaches late_script); [done|vm_compute; reflexivity]|].
  split_and!; [done|vm_compute; reflexivity..].
Qed.

(** ** A client whose lock was lost *)

Definition lost_script : list action := [TryLock 0; SetTtl 0; Tick 20; Wake 0; RenewCompare 0; Lose 0].
Definition lost_world : world :=
  default (initial 0) (exec_all demo_token demo_key demo_ttl lost_script (initial 0)).

(** The client found out in its renewing thread, which has ended unjoined. *)
Definition found_out (c : client) : Prop := main c = Idle /\ locked_ c = false /\ renew_thread_ c = Finished.

(** A client whose renewing thread found the lock lost cannot be used again:
    [unlock] does nothing, and destroying it or locking it again terminates the
    program, since the thread is never joined. Such a client is reachable. *)
Theorem lost_lock_terminates :
  (exists w i, rtc demo_step (initial 0) w /\ found_out (clients w i)) /\
  forall w i, found_out (clients w i) ->
    demo_exec (Unlock i) w = None /\
    (exists w', demo_exec (Destroy i) w = Some w' /\ main (clients w' i) = Terminated) /\
    forall w1 w2, demo_exec (TryLock i) w = Some w1 -> demo_exec (SetTtl i) w1 = Some w2 -> main (clients w2 i) = Terminated.
Proof.
  split.
  { exists lost_world, 0. split; [apply (script_reaches lost_script); [done|vm_compute; reflexivity]|].
    split_and!; vm_compute; reflexivity. }
  intros w i (Hm & Hl & Hr). cbn [exec]. rewrite Hm, Hl, Hr. split; [done|]. split.
  - eexists. split; [done|]. by rewrite update_at.
  - intros w1 w2 H1 H2. unfold try_lock_setnx in H1. apply bind_Some in H1 as ([b s] & _ & [= <-]).
    rewrite update_at in H2. destruct b; cbn [main with_lease with_main] in H2; [|by rewrite Hm in H2].
    unfold try_lock_expire in H2. apply bind_Some in H2 as ([b2 s2] & _ & [= <-]). rewrite update_at. cbn. rewrite decide_True by done. cbn. by rewrite Hr.
Qed.

(** ** A holder that dies *)

Definition dead_script : list action := [TryLock 0; SetTtl 0; Crash 0].
Definition dead_world : world :=
  default (initial 0) (exec_all demo_token demo_key demo_ttl dead_script (initial 0)).
Definition long_after : world :=
  default dead_world (exec_all demo_token demo_key demo_ttl [Tick 1000000; TryLock 1; TryLock 2] dead_world).

Lemma orphaned_lock_stays_witness :
  holds (clients long_after 1) = false /\ D demo_key (store_ long_after) = D demo_key (store_ dead_world).
Proof.
  assert (orphaned demo_key dead_world) as O.
  { split; [exists (demo_token 0); vm_compute; reflexivity|]. intros i. destruct (decide (i = 0)) as [->|Hi].
    - left. vm_compute. reflexivity.
    - right. assert (clients dead_world i = DistributedLock) as ->; [|by split_and!; auto].
      unfold dead_world. assert (exists w, exec_all demo_token demo_key demo_ttl dead_script (initial 0) = Some w) as [w Hw]
        by (eexists; reflexivity).
      rewrite Hw. cbn [default]. unfold dead_script in Hw. cbn [exec_all] in Hw.
      apply bind_Some in Hw as (w1 & H1 & Hw). apply bind_Some in Hw as (w2 & H2 & Hw). apply bind_Some in Hw as (w3 & H3 & Hw).
      injection Hw as <-. unfold id. rewrite (exec_other _ _ _ i H3), (exec_other _ _ _ i H2), (exec_other _ _ _ i H1) by (cbn; congruence).
      reflexivity. }
  assert (rtc demo_step dead_world long_after) as Hr.
  { apply (exec_all_steps [Tick 1000000; TryLock 1; TryLock 2]). unfold long_after.
    assert (match exec_all demo_token demo_key demo_ttl [Tick 1000000; TryLock 1; TryLock 2] dead_world with Some _ => true | None => false end = true)
      as Hs by (vm_compute; reflexivity).
    destruct (exec_all demo_token demo_key demo_ttl [Tick 1000000; TryLock 1; TryLock 2] dead_world); [reflexivity|discriminate Hs]. }
  exact (orphaned_lock_stays demo_token demo_key demo_ttl dead_world long_after 1 O Hr).
Defined.
