(* ===== verification/Storage.v ===== *)
(** * Storage: src/include storage/ and src/storage/memory_storage.cpp

    The interface every back end implements ([StorageInterface], with the laws a
    client may rely on in [StorageLaws]), its default batch operations, and the
    in-memory back end.  An entry is read until its [expire_at] has passed; 0 is
    never.  [now] is the clock in seconds at the call. *)

From S2P Require Import Prelude.
From S2P Require Import Protocol.
From S2P Require Import Wire.
From S2P Require Import Effects.

Record StorageDocument := mkDoc { key : str; doc_value : str; expire_at : Z }.

Record StorageResult := mkResult { ok : bool; error_msg : str; value : str }.
Definition success (v : str) : StorageResult := mkResult true [] v.
Definition failure (msg : string) : StorageResult := mkResult false (lit msg) [].

(** ** The interface *)

Class StorageInterface (S : Type) := {
  get : Z -> str -> S -> StorageResult * S;
  put : Z -> str -> str -> Z -> S -> StorageResult * S;
  remove : Z -> str -> S -> StorageResult * S;
  exists_ : Z -> str -> S -> bool * S;
  keys : Z -> str -> S -> list str * S;
  mget : Z -> list str -> S -> list StorageResult * S;
  mput : Z -> list StorageDocument -> S -> StorageResult * S
}.

(** The entry is still there at [now]. *)
Definition lasts (now expire_at : Z) : bool := negb ((0 <? expire_at) && (expire_at <? now)).

Definition is_prefix (p s : str) : bool := bool_decide (take (length p) s = p).

(** What clients may rely on: the operations act on the map of what can be read
    at the time; time only moves on, and an operation may drop what is past. *)
Class StorageLaws (S : Type) `{StorageInterface S} := {
  view : Z -> S -> gmap str str;
  get_law now k s : forall r s', get now k s = (r, s') ->
    (if view now s !! k is Some v then ok r = true /\ value r = v else ok r = false) /\
    forall t, now <= t -> view t s' = view t s;
  put_law now k v e s : forall r s', put now k v e s = (r, s') -> ok r = true ->
    forall t, now <= t -> view t s' = if lasts t e then <[k := v]> (view t s) else delete k (view t s);
  remove_law now k s : forall r s', remove now k s = (r, s') ->
    (is_Some (view now s !! k) -> ok r = true) /\
    (ok r = true -> forall t, now <= t -> view t s' = delete k (view t s));
  exists_law now k s : forall b s', exists_ now k s = (b, s') ->
    b = bool_decide (is_Some (view now s !! k)) /\ forall t, now <= t -> view t s' = view t s;
  keys_law now p s : forall ks s', keys now p s = (ks, s') ->
    NoDup ks /\ (forall k, k ∈ ks <-> is_Some (view now s !! k) /\ is_prefix p k = true) /\
    forall t, now <= t -> view t s' = view t s;
  mget_law now ks s : forall rs s', mget now ks s = (rs, s') ->
    length rs = length ks /\
    (forall i k r, ks !! i = Some k -> rs !! i = Some r ->
       if view now s !! k is Some v then ok r = true /\ value r = v else ok r = false) /\
    forall t, now <= t -> view t s' = view t s
}.

(** The interface's own batch operations, for back ends that do not override them. *)
Section Default.
Context {S : Type} `{StorageInterface S} (now : Z).

Fixpoint default_mget (ks : list str) (s : S) : list StorageResult * S :=
  match ks with
  | [] => ([], s)
  | k :: ks' => let '(r, s1) := get now k s in let '(rs, s2) := default_mget ks' s1 in (r :: rs, s2)
  end.

Fixpoint default_mput (docs : list StorageDocument) (s : S) : StorageResult * S :=
  match docs with
  | [] => (success [], s)
  | d :: docs' =>
      let '(r, s1) := put now (key d) (doc_value d) (expire_at d) s in
      if ok r then default_mput docs' s1 else (r, s1)
  end.
End Default.

(** ** In memory *)

Record Entry := mkEntry { entry_value : str; entry_expire_at : Z }.

Abbreviation MemoryStorage := (gmap str Entry).

Definition prune_expired (now : Z) (m : MemoryStorage) : MemoryStorage :=
  filter (fun p => lasts now (entry_expire_at p.2) = true) m.

Definition memory_find (k : str) (m : MemoryStorage) : StorageResult :=
  match m !! k with Some e => success (entry_value e) | None => failure "key not found" end.

Definition memory_get (now : Z) (k : str) (m : MemoryStorage) : StorageResult * MemoryStorage :=
  let m := prune_expired now m in (memory_find k m, m).

Definition memory_put (k v : str) (e : Z) (m : MemoryStorage) : StorageResult * MemoryStorage :=
  (success [], <[k := mkEntry v e]> m).

Definition memory_remove (k : str) (m : MemoryStorage) : StorageResult * MemoryStorage :=
  match m !! k with
  | None => (failure "key not found", m)
  | Some _ => (success [], delete k m)
  end.

Definition memory_exists (now : Z) (k : str) (m : MemoryStorage) : bool * MemoryStorage :=
  let m := prune_expired now m in (bool_decide (is_Some (m !! k)), m).

Definition memory_keys {IO : IterOrder str} (now : Z) (p : str) (m : MemoryStorage) : list str * MemoryStorage :=
  let m := prune_expired now m in (filter (fun k => is_prefix p k = true) (iter m).*1, m).

Definition memory_mget (now : Z) (ks : list str) (m : MemoryStorage) : list StorageResult * MemoryStorage :=
  let m := prune_expired now m in ((fun k => memory_find k m) <$> ks, m).

Definition memory_mput (docs : list StorageDocument) (m : MemoryStorage) : StorageResult * MemoryStorage :=
  (success [], foldl (fun m d => <[key d := mkEntry (doc_value d) (expire_at d)]> m) m docs).

#[export] Instance memory_storage {IO : IterOrder str} : StorageInterface MemoryStorage := {|
  get := memory_get;
  put _ := memory_put;
  remove _ := memory_remove;
  exists_ := memory_exists;
  keys := memory_keys;
  mget := memory_mget;
  mput _ := memory_mput
|}.

(** ** It obeys the laws *)

Definition memory_view (now : Z) (m : MemoryStorage) : gmap str str := entry_value <$> prune_expired now m.

Lemma lasts_earlier now t e : now <= t -> lasts t e = true -> lasts now e = true.
Proof. unfold lasts. intros Ht. rewrite !negb_true_iff, !andb_false_iff, !Z.ltb_ge. lia. Qed.

Lemma prune_lookup now m k e : prune_expired now m !! k = Some e <-> m !! k = Some e /\ lasts now (entry_expire_at e) = true.
Proof. unfold prune_expired. apply map_lookup_filter_Some. Qed.

Lemma prune_prune now t m : now <= t -> prune_expired t (prune_expired now m) = prune_expired t m.
Proof.
  intros Ht. apply map_eq. intros k. apply option_eq. intros e. rewrite !prune_lookup.
  split; [naive_solver|]. intros [H1 H2]. split_and!; try done. by eapply lasts_earlier.
Qed.

Lemma view_prune now t m : now <= t -> memory_view t (prune_expired now m) = memory_view t m.
Proof. intros Ht. unfold memory_view. by rewrite prune_prune. Qed.

Lemma memory_find_spec now k m :
  if memory_view now m !! k is Some v then memory_find k (prune_expired now m) = success v
  else ok (memory_find k (prune_expired now m)) = false.
Proof.
  unfold memory_view, memory_find. rewrite lookup_fmap.
  by destruct (prune_expired now m !! k).
Qed.

Lemma view_put t k v e m : memory_view t (<[k := mkEntry v e]> m) =
  if lasts t e then <[k := v]> (memory_view t m) else delete k (memory_view t m).
Proof.
  unfold memory_view, prune_expired. case_test.
  - rewrite map_filter_insert_True by done. by rewrite fmap_insert.
  - rewrite map_filter_insert_False by (cbn; by rewrite E). by rewrite map_filter_delete, fmap_delete.
Qed.

Lemma view_remove t k m : memory_view t (delete k m) = delete k (memory_view t m).
Proof. unfold memory_view, prune_expired. by rewrite map_filter_delete, fmap_delete. Qed.

Lemma view_put_all t docs m :
  memory_view t (foldl (fun m d => <[key d := mkEntry (doc_value d) (expire_at d)]> m) m docs) =
  foldl (fun v d => if lasts t (expire_at d) then <[key d := doc_value d]> v else delete (key d) v) (memory_view t m) docs.
Proof. revert m. induction docs as [|d docs IH]; intros m; [done|]. cbn. by rewrite IH, view_put. Qed.

#[export] Program Instance memory_storage_laws {IO : IterOrder str} : StorageLaws MemoryStorage := {|
  view := memory_view
|}.
Next Obligation.
  intros IO now k m r m' [= <- <-]. split; [|intros t Ht; by apply view_prune].
  pose proof (memory_find_spec now k m) as H. destruct (memory_view now m !! k); [by rewrite H|done].
Qed.
Next Obligation. intros IO now k v e m r m' [= <- <-] _ t _. apply view_put. Qed.
Next Obligation.
  intros IO now k m r m'. cbn. unfold memory_remove. destruct (m !! k) as [e|] eqn:E; intros [= <- <-].
  - split; [done|]. intros _ t _. apply view_remove.
  - split; [|done]. unfold memory_view. rewrite lookup_fmap. intros (v & Hv).
    apply fmap_Some in Hv as (e & He & _). apply prune_lookup in He as [He _]. congruence.
Qed.
Next Obligation.
  intros IO now k m b m' [= <- <-]. split; [|intros t Ht; by apply view_prune].
  unfold memory_view. rewrite lookup_fmap. apply bool_decide_ext. by rewrite fmap_is_Some.
Qed.
Next Obligation.
  intros IO now p m ks m' [= <- <-]. split; [apply NoDup_filter, NoDup_iter|]. split; [|intros t Ht; by apply view_prune].
  intros k. rewrite list_elem_of_filter, list_elem_of_fmap. unfold memory_view. rewrite lookup_fmap, fmap_is_Some. split.
  - intros (Hp & [k' e] & -> & He%elem_of_iter). split; [by exists e|done].
  - intros [(e & He) Hp]. split; [done|]. exists (k, e). split; [done|]. by apply elem_of_iter.
Qed.
Next Obligation.
  intros IO now ks m rs m' [= <- <-]. split; [apply length_fmap|]. split; [|intros t Ht; by apply view_prune].
  intros i k r Hk. rewrite list_lookup_fmap, Hk. intros [= <-].
  pose proof (memory_find_spec now k m) as H. destruct (memory_view now m !! k); [by rewrite H|done].
Qed.

(** The in-memory MGET and MPUT do what the interface's own, one by one, do:
    the same results, and the same entries to be read from then on. *)
Theorem memory_batches_are_loops {IO : IterOrder str} now ks docs m :
  (memory_mget now ks m).1 = (default_mget now ks m).1 /\
  memory_view now (memory_mget now ks m).2 = memory_view now (default_mget now ks m).2 /\
  memory_mput docs m = default_mput now docs m.
Proof.
  assert (forall ks m, (default_mget now ks m).1 = (memory_mget now ks m).1 /\
    memory_view now (default_mget now ks m).2 = memory_view now m) as Hget.
  { clear. intros ks. induction ks as [|k ks IH]; intros m; [done|]. cbn [default_mget get memory_storage memory_get].
    destruct (IH (prune_expired now m)) as [IH1 IH2]. destruct (default_mget now ks (prune_expired now m)) as [rs m2].
    cbn in *. split; [|by rewrite IH2, view_prune by lia]. rewrite IH1. f_equal. by rewrite prune_prune by lia. }
  destruct (Hget ks m) as [-> ->]. split; [done|]. split; [by apply view_prune|].
  clear Hget. unfold memory_mput. revert m. induction docs as [|d docs IH]; intros m; [done|]. cbn. apply IH.
Qed.

(** An entry is read until the second its [expire_at] names, included, and never
    after; with [expire_at] 0 or less for ever. *)
Theorem entry_lifetime later k v e m :
  (memory_get later k (memory_put k v e m).2).1 =
  if (0 <? e) && (e <? later) then failure "key not found" else success v.
Proof.
  unfold memory_get, memory_find. cbn.
  destruct (prune_expired later (<[k := mkEntry v e]> m) !! k) as [x|] eqn:E.
  - apply prune_lookup in E as [Hx Hl]. rewrite lookup_insert_eq in Hx. injection Hx as <-. unfold lasts in Hl. cbn in *.
    apply negb_true_iff in Hl. by rewrite Hl.
  - case_test; [done|]. exfalso. assert (prune_expired later (<[k := mkEntry v e]> m) !! k = Some (mkEntry v e)) as H; [|congruence].
    apply prune_lookup. rewrite lookup_insert_eq. unfold lasts. cbn. by rewrite E0.
Qed.
