(* ===== verification/Orm.v ===== *)
(** * Orm: src/storage/orm/document.cpp and src/include storage/orm/

    Documents, their text form (the one without YAML) and the repository of the
    rows of a table, over any storage that obeys the laws of Storage.v. *)

From stdpp Require Import sorting.
From S2P Require Import Prelude.
From S2P Require Import Numeric.
From S2P Require Import Protocol.
From S2P Require Import Wire.
From S2P Require Import Effects.
From S2P Require Import StdNum.
From S2P Require Storage.

(** ** Documents *)

Abbreviation Document := (gmap str str).

Definition get_string (k d : str) (doc : Document) : str := default d (doc !! k).
Definition get_int64 (k : str) (d : Z) (doc : Document) : Z := default d (strtoll <$> doc !! k).
Definition get_int (k : str) (d : Z) (doc : Document) : Z := i32 (get_int64 k d doc).
Definition get_double (k : str) (d : f64) (doc : Document) : f64 := default d (strtod <$> doc !! k).

Definition get_bool (k : str) (d : bool) (doc : Document) : bool :=
  match doc !! k with
  | None => d
  | Some v =>
      if bool_decide (v ∈ [lit "1"; lit "true"; lit "yes"]) then true
      else if bool_decide (v ∈ [lit "0"; lit "false"; lit "no"]) then false
      else d
  end.

Definition set_string (k v : str) (doc : Document) : Document := <[k := v]> doc.
Definition set_int64 (k : str) (v : Z) (doc : Document) : Document := <[k := Wire.to_string v]> doc.
Definition set_int (k : str) (v : Z) (doc : Document) : Document := <[k := Wire.to_string v]> doc.
Definition set_double (k : str) (v : f64) (doc : Document) : Document := <[k := double_to_string v]> doc.
Definition set_bool (k : str) (v : bool) (doc : Document) : Document := <[k := lit (if v then "1" else "0")]> doc.
Definition has (k : str) (doc : Document) : bool := bool_decide (is_Some (doc !! k)).

(** ** Text *)

Definition backslash : byte := byte_of 92.
Definition newline : byte := byte_of 10.
Definition equals : byte := byte_of 61.
Definition letter_n : byte := byte_of 110.

Fixpoint escape (s : str) : str :=
  match s with
  | [] => []
  | c :: s' =>
      (if Byte.eqb c backslash then [backslash; backslash]
       else if Byte.eqb c newline then [backslash; letter_n]
       else if Byte.eqb c equals then [backslash; equals]
       else [c]) ++ escape s'
  end.

Fixpoint unescape (s : str) : str :=
  match s with
  | [] => []
  | c :: s' =>
      match s' with
      | d :: s'' =>
          if Byte.eqb c backslash then (if Byte.eqb d letter_n then newline else d) :: unescape s''
          else c :: unescape s'
      | [] => [c]
      end
  end.

Definition fields (doc : Document) : list (str * str) := in_order doc.

Definition line (p : str * str) : str := escape p.1 ++ [equals] ++ escape p.2 ++ [newline].

Definition to_string (doc : Document) : str := concat (line <$> fields doc).

(** The end of a line. *)
Definition end_line (k cur : str) (in_key : bool) (doc : Document) : Document :=
  if negb in_key && negb (bool_decide (k = [])) then <[unescape k := unescape cur]> doc else doc.

(** The loop of [from_string]; the end of the data ends the last line. *)
Fixpoint parse (s : str) (k cur : str) (in_key : bool) (doc : Document) : Document :=
  match s with
  | [] => end_line k cur in_key doc
  | c :: s' =>
      if Byte.eqb c newline then parse s' [] [] true (end_line k cur in_key doc)
      else if Byte.eqb c equals && in_key then parse s' cur [] false doc
      else if Byte.eqb c backslash then
        match s' with
        | d :: s'' => parse s'' k (cur ++ [backslash; d]) in_key doc
        | [] => parse s' k (cur ++ [c]) in_key doc
        end
      else parse s' k (cur ++ [c]) in_key doc
  end.

Definition from_string (data : str) : bool * Document := (true, parse data [] [] true ∅).

(** ** Repositories *)

(** What a class derived from [Entity] defines; [new] is its default value. *)
Record Entity (T : Type) := mkEntity {
  entity_table : T -> str;
  entity_id : T -> str;
  to_document : T -> Document;
  from_document : Document -> T -> T;
  new : T
}.
Arguments entity_table {T} e.
Arguments entity_id {T} e.
Arguments to_document {T} e.
Arguments from_document {T} e.
Arguments new {T} e.

Section Repository.
Context {S : Type} `{Storage.StorageInterface S} {T : Type} (E : Entity T) (table_name : str) (now : Z).

Definition prefix : str := table_name ++ lit ":".
Definition make_key (id : str) : str := prefix ++ id.
Definition extract_id (k : str) : str := if Storage.is_prefix prefix k then drop (length prefix) k else k.

Definition save (e : T) (s : S) : Storage.StorageResult * S :=
  if bool_decide (entity_table E e <> table_name) then
    (Storage.failure "ORM Repository: entity.table_name() does not match repository table_name", s)
  else
    let doc := set_string (lit "id") (entity_id E e) (to_document E e) in
    Storage.put now (make_key (entity_id E e)) (to_string doc) 0 s.

(** [find], from the entity [out] the caller passes. *)
Definition find (id : str) (out : T) (s : S) : option T * S :=
  let '(r, s1) := Storage.get now (make_key id) s in
  if Storage.ok r then
    let '(parsed, doc) := from_string (Storage.value r) in
    if parsed then (Some (from_document E doc out), s1) else (None, s1)
  else (None, s1).

Definition find_new (id : str) (s : S) : option T * S := find id (new E) s.

Definition remove (id : str) (s : S) : Storage.StorageResult * S := Storage.remove now (make_key id) s.
Definition exists_ (id : str) (s : S) : bool * S := Storage.exists_ now (make_key id) s.

(** The per-key fallback of [find_all]. *)
Fixpoint find_each (ks : list str) (s : S) : list T * S :=
  match ks with
  | [] => ([], s)
  | k :: ks' =>
      let '(found, s1) := find_new (extract_id k) s in
      let '(es, s2) := find_each ks' s1 in
      (option_list found ++ es, s2)
  end.

Definition parse_response (r : Storage.StorageResult) : option T :=
  if Storage.ok r then
    let '(parsed, doc) := from_string (Storage.value r) in
    if parsed then Some (from_document E doc (new E)) else None
  else None.

Definition find_all (s : S) : list T * S :=
  let '(ks, s1) := Storage.keys now prefix s in
  match ks with
  | [] => ([], s1)
  | _ =>
      let '(rs, s2) := Storage.mget now ks s1 in
      if bool_decide (length rs = length ks) then (omap parse_response rs, s2)
      else find_each ks s2
  end.
End Repository.

(** The entity of the repository's example. *)
Record Player := mkPlayer { player_id : str; player_name : str; player_level : Z }.
Definition player_entity : Entity Player := {|
  entity_table _ := lit "players";
  entity_id := player_id;
  to_document p :=
    set_int (lit "level") (player_level p) (set_string (lit "name") (player_name p)
      (set_string (lit "id") (player_id p) ∅));
  from_document doc _ :=
    mkPlayer (get_string (lit "id") [] doc) (get_string (lit "name") [] doc) (get_int (lit "level") 0 doc);
  new := mkPlayer [] [] 0
|}.
