(* ===== verification/OrmFacts.v ===== *)
(** * OrmFacts: documents survive their text, repositories are tables

    The repository's theorems hold for any storage with the laws of Storage.v;
    the in-memory one has them. *)

From stdpp Require Import sorting.
From S2P Require Import Prelude.
From S2P Require Import Numeric.
From S2P Require Import Protocol.
From S2P Require Import Wire.
From S2P Require Import Effects.
From S2P Require Import StdNum.
From S2P Require Storage.
From S2P Require Import Orm.

(** ** Text *)

Lemma byte_eqb_true b c : Byte.eqb b c = true -> b = c.
Proof. apply Byte.byte_dec_bl. Qed.
Lemma byte_eqb_refl b : Byte.eqb b b = true.
Proof. by apply Byte.byte_dec_lb. Qed.

Lemma escape_nil s : escape s = [] -> s = [].
Proof. destruct s as [|c s]; [done|]. cbn. by repeat case_test. Qed.

Lemma unescape_escape s : unescape (escape s) = s.
Proof.
  induction s as [|c s IH]; [done|]. cbn [escape].
  destruct (Byte.eqb c backslash) eqn:E1; [apply byte_eqb_true in E1 as ->; cbn; by rewrite IH|].
  destruct (Byte.eqb c newline) eqn:E2; [apply byte_eqb_true in E2 as ->; cbn; by rewrite IH|].
  destruct (Byte.eqb c equals) eqn:E3; [apply byte_eqb_true in E3 as ->; cbn; by rewrite IH|].
  cbn [app unescape]. destruct (escape s) as [|d l] eqn:E; [by rewrite (escape_nil s E)|]. by rewrite E1, IH.
Qed.

(** An escaped byte is collected with its backslash. *)
Lemma parse_pair d s k cur in_key doc :
  parse (backslash :: d :: s) k cur in_key doc = parse s k (cur ++ [backslash; d]) in_key doc.
Proof. done. Qed.

(** Escaped text is collected whole, in a key as in a value. *)
Lemma parse_escape s : forall rest k cur in_key doc,
  parse (escape s ++ rest) k cur in_key doc = parse rest k (cur ++ escape s) in_key doc.
Proof.
  induction s as [|c s IH]; intros rest k cur in_key doc; [by rewrite app_nil_r|]. cbn [escape].
  destruct (Byte.eqb c backslash) eqn:E1; [apply byte_eqb_true in E1 as ->; cbn [app]; by rewrite parse_pair, IH, <- app_assoc|].
  destruct (Byte.eqb c newline) eqn:E2; [apply byte_eqb_true in E2 as ->; cbn [app]; by rewrite parse_pair, IH, <- app_assoc|].
  destruct (Byte.eqb c equals) eqn:E3; [apply byte_eqb_true in E3 as ->; cbn [app]; by rewrite parse_pair, IH, <- app_assoc|].
  cbn [app parse]. rewrite E1, E2, E3. cbn. by rewrite IH, <- app_assoc.
Qed.

(** A field without a name is not read back. *)
Definition put_field (doc : Document) (p : str * str) : Document := if decide (p.1 = []) then doc else <[p.1 := p.2]> doc.

Lemma parse_line p rest doc : parse (line p ++ rest) [] [] true doc = parse rest [] [] true (put_field doc p).
Proof.
  unfold line. rewrite <- !app_assoc, parse_escape. cbn [app parse].
  rewrite (byte_eqb_refl equals). change (Byte.eqb equals newline) with false. cbn [andb].
  rewrite parse_escape. cbn [app parse]. rewrite (byte_eqb_refl newline). unfold put_field, end_line. cbn [negb andb].
  rewrite !unescape_escape. case_decide as Hk; [rewrite Hk; by rewrite bool_decide_true|].
  rewrite bool_decide_false; [done|]. by intros ?%escape_nil.
Qed.

Lemma parse_lines l doc : parse (concat (line <$> l)) [] [] true doc = foldl put_field doc l.
Proof.
  revert doc. induction l as [|p l IH]; intros doc; [done|]. cbn [fmap list_fmap concat]. by rewrite parse_line, IH.
Qed.

Lemma put_fields_lookup (doc : Document) l m k : (forall p, p ∈ l -> doc !! p.1 = Some p.2) ->
  foldl put_field m l !! k = if decide (k ∈ l.*1 /\ k <> []) then doc !! k else (m : gmap str str) !! k.
Proof.
  revert m. induction l as [|p l IH]; intros m Hl; cbn [foldl].
  { rewrite decide_False; [done|]. by intros [?%elem_of_nil _]. }
  rewrite IH by (intros q Hq; apply Hl; by right). specialize (Hl p ltac:(left)). rewrite fmap_cons.
  case_decide as H1.
  - rewrite decide_True; [done|]. split; [right; apply H1|apply H1].
  - unfold put_field. destruct (decide (p.1 = [])) as [Hp|Hp].
    + rewrite decide_False; [done|]. intros [[->|?]%elem_of_cons ?]; [done|by apply H1].
    + destruct (decide (k = p.1)) as [->|Hk].
      * rewrite lookup_insert_eq, decide_True by (split; [left|done]). done.
      * rewrite lookup_insert_ne by done. rewrite decide_False; [done|]. intros [[->|?]%elem_of_cons ?]; [done|by apply H1].
Qed.

Lemma elem_of_fields (doc : Document) p : p ∈ fields doc <-> doc !! p.1 = Some p.2.
Proof. unfold fields. rewrite in_order_perm. destruct p. apply elem_of_map_to_list. Qed.

(** A document read back from its text is the document, whatever bytes its
    names and values have, except that a field with an empty name is lost. *)
Theorem document_roundtrip doc : from_string (to_string doc) = (true, delete [] doc).
Proof.
  unfold from_string, to_string. rewrite parse_lines. f_equal. apply map_eq. intros k.
  rewrite (put_fields_lookup doc) by (intros p; apply elem_of_fields). case_decide as Hk.
  - by rewrite lookup_delete_ne by (intros <-; by apply Hk).
  - destruct (decide (k = [])) as [->|Hne]; [by rewrite lookup_delete_eq|]. rewrite lookup_delete_ne by done.
    destruct (doc !! k) as [v|] eqn:Ev; [|done]. exfalso. apply Hk. split; [|done].
    apply list_elem_of_fmap. exists (k, v). split; [done|]. by apply elem_of_fields.
Qed.

(** Integers and booleans set in a document are read back, the integers in the
    range of the getter's type. *)
Theorem fields_read_back k d (b db : bool) v doc : - 2 ^ 63 <= v < 2 ^ 63 ->
  get_int64 k d (set_int64 k v doc) = v /\ get_bool k db (set_bool k b doc) = b /\
  (- 2 ^ 31 <= v < 2 ^ 31 -> get_int k d (set_int k v doc) = v).
Proof.
  intros Hv. unfold get_int, set_int, get_int64, set_int64, get_bool, set_bool. rewrite !lookup_insert_eq. cbn.
  rewrite (stoll_strtoll _ v) by by apply stoll_to_string. split_and!; [done|by destruct b|]. intros Hi. by apply i32_small.
Qed.

(** ** Repositories *)

Section Rows.
Context {S : Type} `{L : Storage.StorageLaws S} {T : Type} (E : Entity T) (table_name : str).

Lemma make_key_inj i j : make_key table_name i = make_key table_name j -> i = j.
Proof. apply app_inv_head. Qed.

Lemma is_prefix_make i : Storage.is_prefix (prefix table_name) (make_key table_name i) = true.
Proof. unfold Storage.is_prefix, make_key. apply bool_decide_eq_true. apply take_app_length. Qed.

Lemma prefix_made k : Storage.is_prefix (prefix table_name) k = true -> exists i, k = make_key table_name i.
Proof.
  unfold Storage.is_prefix. intros Hk%bool_decide_eq_true. exists (drop (length (prefix table_name)) k).
  unfold make_key. rewrite <- Hk at 1. by rewrite take_drop.
Qed.

(** The abstract table: the entity of each id, among what can be read. *)
Definition parsed (text : str) : T := from_document E (from_string text).2 (new E).
Definition row (v : gmap str str) (id : str) : option T := parsed <$> v !! make_key table_name id.

(** The entity's own class reads back what it writes. *)
Definition faithful (e : T) : Prop :=
  from_document E (delete [] (set_string (lit "id") (entity_id E e) (to_document E e))) (new E) = e.

(** C36: On any lawful storage a saved entity whose class reads back what it writes
    ([faithful]) is found by its id from then on, equal to what was saved, until it is
    saved again or removed; other ids are untouched. *)
Theorem saved_is_found now e s r s' : save E table_name now e s = (r, s') -> Storage.ok r = true -> faithful e ->
  forall later id s1, now <= later -> Storage.view later s1 = Storage.view later s' ->
    (find_new E table_name later id s1).1 =
    if decide (id = entity_id E e) then Some e else row (Storage.view later s) id.
Proof.
  unfold save. destruct (bool_decide (entity_table E e <> table_name)); [by intros [= <- _]|].
  intros Hp Hok Hf later id s1 Hl Hv. pose proof (Storage.put_law _ _ _ _ _ _ _ Hp Hok later Hl) as Hview.
  unfold find_new, find. destruct (Storage.get later (make_key table_name id) s1) as [r1 s2] eqn:Hg.
  apply Storage.get_law in Hg as [Hg _]. rewrite Hv, Hview in Hg. cbn [Storage.lasts Z.ltb andb negb] in Hg.
  change (Storage.lasts later 0) with true in Hg. cbv iota in Hg. destruct (decide (id = entity_id E e)) as [->|Hid].
  - rewrite lookup_insert_eq in Hg. destruct Hg as [Hok1 Hval]. rewrite Hok1, Hval, document_roundtrip. cbv iota beta zeta. cbn [fst]. f_equal. exact Hf.
  - rewrite lookup_insert_ne in Hg by by intros ?%make_key_inj. unfold row.
    destruct (Storage.view later s !! make_key table_name id) as [text|]; cbn; [|by rewrite Hg].
    destruct Hg as [Hok1 Hval]. by rewrite Hok1, Hval.
Qed.

(** The answers of a batch, row by row. *)
Lemma responses_rows v l rs : length rs = length l -> (forall id, id ∈ l -> is_Some (row v id)) ->
  (forall i k r, (make_key table_name <$> l) !! i = Some k -> rs !! i = Some r ->
    if v !! k is Some x then Storage.ok r = true /\ Storage.value r = x else Storage.ok r = false) ->
  omap (parse_response E) rs = omap (row v) l /\ length (omap (row v) l) = length l.
Proof.
  revert rs. induction l as [|id l IH]; intros [|r rs] Hlen Hs Hr; try done.
  destruct (IH rs) as [IH1 IH2]; [by injection Hlen|by intros id' Hid; apply Hs; right|by intros j; apply (Hr (Datatypes.S j))|].
  destruct (Hs id ltac:(left)) as [x Hx]. specialize (Hr 0%nat (make_key table_name id) r eq_refl eq_refl).
  assert (parse_response E r = Some x) as Hp.
  { unfold row in Hx. destruct (v !! make_key table_name id) as [text|]; [|done]. destruct Hr as [Hok <-].
    unfold parse_response. rewrite Hok. exact Hx. }
  cbn. rewrite Hp, Hx. cbn. by rewrite IH1, IH2.
Qed.

(** On any lawful storage [find_all] gives the entity of every id of the table,
    each exactly once, and changes nothing that can be read. *)
Theorem find_all_exact now s es s' : find_all E table_name now s = (es, s') ->
  exists ids, NoDup ids /\ (forall id, id ∈ ids <-> is_Some (row (Storage.view now s) id)) /\
    es = omap (row (Storage.view now s)) ids /\ length es = length ids /\
    forall t, now <= t -> Storage.view t s' = Storage.view t s.
Proof.
  unfold find_all. destruct (Storage.keys now (prefix table_name) s) as [ks s1] eqn:Hk.
  apply Storage.keys_law in Hk as (Hn & Hks & Hv1).
  assert (exists ids, ks = make_key table_name <$> ids) as [ids ->].
  { assert (Forall (fun k => exists i, k = make_key table_name i) ks) as Hall.
    { apply Forall_forall. intros k Hin. apply prefix_made, Hks, Hin. }
    clear -Hall. induction Hall as [|k ks (i & ->) _ (ids & ->)]; [by exists []|]. by exists (i :: ids). }
  apply NoDup_fmap_1 in Hn.
  assert (forall id, id ∈ ids <-> is_Some (row (Storage.view now s) id)) as Hids.
  { intros id. unfold row. rewrite fmap_is_Some. specialize (Hks (make_key table_name id)). rewrite list_elem_of_fmap in Hks.
    split; [intros Hin; apply Hks; by exists id|]. intros Hs. destruct (proj2 Hks) as (i & Hi%make_key_inj & Hin); [|by subst].
    split; [done|apply is_prefix_make]. }
  intros Hf. exists ids. split; [done|]. split; [done|].
  destruct ids as [|i ids]; [injection Hf as <- <-; by split_and!|].
  cbn [fmap list_fmap] in Hf. change (make_key table_name i :: _) with (make_key table_name <$> (i :: ids)) in Hf.
  destruct (Storage.mget now (make_key table_name <$> (i :: ids)) s1) as [rs s2] eqn:Hm.
  apply Storage.mget_law in Hm as (Hlen & Hr & Hv2). rewrite bool_decide_true in Hf by done. injection Hf as <- <-.
  rewrite Hv1 in Hr by lia. rewrite length_fmap in Hlen.
  destruct (responses_rows (Storage.view now s) (i :: ids) rs) as [-> Hle]; [done|by intros id; apply Hids|done|].
  split; [done|]. split; [done|]. intros t Ht. by rewrite Hv2, Hv1.
Qed.

(** Removal and existence, on the abstract table. *)
Lemma removed_is_gone now id s r s' : remove table_name now id s = (r, s') -> Storage.ok r = true ->
  forall later id', now <= later -> row (Storage.view later s') id' = if decide (id' = id) then None else row (Storage.view later s) id'.
Proof.
  intros Hr Hok later id' Hl. apply Storage.remove_law in Hr as [_ Hv]. unfold row. rewrite (Hv Hok later Hl).
  case_decide as Hid; [subst; by rewrite lookup_delete_eq|]. by rewrite lookup_delete_ne by by intros ?%make_key_inj.
Qed.

Lemma exists_iff_row now id s b s' : exists_ table_name now id s = (b, s') -> b = bool_decide (is_Some (row (Storage.view now s) id)).
Proof.
  intros Hb. apply Storage.exists_law in Hb as [-> _]. apply bool_decide_ext. unfold row. by rewrite fmap_is_Some.
Qed.
End Rows.

(** Rows of a table whose name continues this one's after a colon are rows of this one too. *)
Lemma nested_table_shared {T} (E : Entity T) t sub v id :
  row E (t ++ lit ":" ++ sub) v id = row E t v (sub ++ lit ":" ++ id).
Proof. unfold row, make_key, prefix. by rewrite <- !app_assoc. Qed.

(** ** Players in memory *)

Lemma player_faithful p : - 2 ^ 31 <= player_level p < 2 ^ 31 -> faithful player_entity p.
Proof.
  intros Hl. unfold faithful. cbn. unfold set_string, set_int, get_string, get_int, get_int64.
  assert (forall (k v : str) (doc : Document), k <> [] -> (delete [] doc : Document) !! k = doc !! k) as Hd
    by (intros; by rewrite lookup_delete_ne).
  rewrite !(Hd _ []) by done. rewrite lookup_insert_eq.
  rewrite (lookup_insert_ne _ (lit "id") (lit "name")) by done. rewrite (lookup_insert_ne _ (lit "level") (lit "name")) by done.
  rewrite lookup_insert_eq. rewrite (lookup_insert_ne _ (lit "id") (lit "level")) by done. rewrite lookup_insert_eq. cbn.
  rewrite (stoll_strtoll _ (player_level p)) by (apply stoll_to_string; lia). rewrite i32_small by done. by destruct p.
Qed.

Section Demo.
#[local] Instance demo_order : IterOrder str := key_order str.
#[local] Existing Instances Storage.memory_storage Storage.memory_storage_laws.
Definition demo_player : Player := mkPlayer (lit "p001") (lit "ali=ce") 10.
Definition demo_saved : gmap str Storage.Entry := (save player_entity (lit "players") 100 demo_player (∅ : gmap str Storage.Entry)).2.

Lemma saved_is_found_witness :
  (find_new player_entity (lit "players") 200 (lit "p001") demo_saved).1 = Some demo_player.
Proof.
  pose proof (saved_is_found player_entity (lit "players") 100 demo_player (∅ : gmap str Storage.Entry) (Storage.success []) demo_saved
    eq_refl eq_refl (player_faithful demo_player ltac:(split; [discriminate|reflexivity])) 200 (lit "p001") demo_saved ltac:(lia) eq_refl) as H.
  rewrite decide_True in H by reflexivity. exact H.
Defined.

Lemma find_all_exact_witness : exists ids,
  NoDup ids /\ (forall id, id ∈ ids <-> is_Some (row player_entity (lit "players") (Storage.view 200 demo_saved) id)) /\
  length (find_all player_entity (lit "players") 200 demo_saved).1 = length ids.
Proof.
  destruct (find_all player_entity (lit "players") 200 demo_saved) as [es s'] eqn:E.
  destruct (find_all_exact player_entity (lit "players") 200 demo_saved es s' E) as (ids & Hn & Hi & _ & Hl & _).
  exists ids. split; [exact Hn|]. split; [exact Hi|exact Hl].
Defined.

Lemma fields_read_back_witness :
  get_int64 (lit "gold") 0 (set_int64 (lit "gold") (-5) ∅) = -5 /\ get_bool (lit "vip") false (set_bool (lit "vip") true ∅) = true.
Proof.
  split.
  - exact (proj1 (fields_read_back (lit "gold") 0 true false (-5) ∅ ltac:(split; [discriminate|reflexivity]))).
  - exact (proj1 (proj2 (fields_read_back (lit "vip") 0 true false 0 ∅ ltac:(split; [discriminate|reflexivity])))).
Defined.
End Demo.
