(* ===== verification/TaskQueue.v ===== *)
(** * TaskQueue: src/include task/task_queue.h and src/task/task_queue.cpp

    A queue of tasks, its worker threads and the threads that use it.  A step is
    what one thread does between two points where another may be seen: an access
    to an atomic field, or a critical section of [mutex_]; the steps of all threads
    interleave freely.  [start] and [stop] are called by one thread. *)

From stdpp Require Import sorting.
From S2P Require Import Prelude.
From S2P Require Import Protocol.
From S2P Require Import Wire.

(** ** Tasks *)

Inductive TaskPriority := LOW | NORMAL | HIGH | URGENT.
Definition priority_int (p : TaskPriority) : Z :=
  match p with LOW => 0 | NORMAL => 1 | HIGH => 2 | URGENT => 3 end.

Inductive TaskStatus := PENDING | RUNNING | COMPLETED | FAILED | CANCELLED | TIMEOUT.
#[export] Instance TaskStatus_eq_dec : EqDecision TaskStatus.
Proof. solve_decision. Defined.

(** [result_value] is [None] until it is assigned. *)
Record TaskResult (T : Type) := mkTaskResult { status : TaskStatus; result_value : option T; error : str }.
Arguments mkTaskResult {T} _ _ _.
Arguments status {T} _.
Arguments result_value {T} _.
Arguments error {T} _.

Definition ok {T} (r : TaskResult T) : bool := bool_decide (status r = COMPLETED).
Definition failed {T} (r : TaskResult T) : bool := bool_decide (status r ∈ [FAILED; TIMEOUT; CANCELLED]).

(** How a call of a user's function ends: with its value, with a
    [std::exception], with another exception. *)
Inductive ending (T : Type) := Returns (v : T) | Throws (what : str) | ThrowsOther.
Arguments Returns {T} v.
Arguments Throws {T} what.
Arguments ThrowsOther {T}.

(** [Task<T>::execute]: its result, and how it ends itself. *)
Definition execute {T} (func : ending T) (callback : option (TaskResult T -> ending unit)) : TaskResult T * ending unit :=
  let result_ := match func with
    | Returns v => mkTaskResult COMPLETED (Some v) []
    | Throws what => mkTaskResult FAILED None what
    | ThrowsOther => mkTaskResult FAILED None (lit "Unknown error")
    end in
  (result_, match callback with Some f => f result_ | None => Returns tt end).

(** A task behind its base class: [address] is that of the object, which
    [shared_ptr]s compare; [ends] is how its [execute] will end. *)
Record TaskBase := mkTask {
  id_ : Z;
  address : Z;
  priority_ : TaskPriority;
  timeout_ms_ : Z;
  retry_count_ : Z;
  ends : ending unit
}.

(** ** The priority queue *)

Definition entry : Type := Z * TaskBase.

(** [operator<] of the pairs. *)
Definition less (a b : entry) : bool := (a.1 <? b.1) || negb (b.1 <? a.1) && (address a.2 <? address b.2).

(** [top] and [pop]: a greatest element, and the rest. *)
Fixpoint pop (q : list entry) : option (entry * list entry) :=
  match q with
  | [] => None
  | x :: q' =>
      match pop q' with
      | None => Some (x, [])
      | Some (y, r) => if less y x then Some (x, q') else Some (y, x :: r)
      end
  end.

(** ** The queue and its threads *)

Record Config := mkConfig { worker_threads : Z; max_queue_size : Z; enable_priority : bool }.
Definition Config_init : Config := mkConfig 4 10000 true.

Record TaskQueue := mkQueue {
  running_ : bool;
  next_task_id_ : Z;
  running_count_ : Z;
  completed_count_ : Z;
  queue_ : list entry;
  tasks_ : gmap Z TaskBase
}.
Definition TaskQueue_init : TaskQueue := mkQueue false 1 0 0 [] ∅.

Definition i64 (z : Z) : Z := (z + 2 ^ 63) mod 2 ^ 64 - 2 ^ 63.

Definition with_running (b : bool) (q : TaskQueue) : TaskQueue :=
  mkQueue b (next_task_id_ q) (running_count_ q) (completed_count_ q) (queue_ q) (tasks_ q).
Definition next_id (q : TaskQueue) : TaskQueue :=
  mkQueue (running_ q) (i64 (next_task_id_ q + 1)) (running_count_ q) (completed_count_ q) (queue_ q) (tasks_ q).
Definition add_running (d : Z) (q : TaskQueue) : TaskQueue :=
  mkQueue (running_ q) (next_task_id_ q) (i32 (running_count_ q + d)) (completed_count_ q) (queue_ q) (tasks_ q).
Definition add_completed (q : TaskQueue) : TaskQueue :=
  mkQueue (running_ q) (next_task_id_ q) (running_count_ q) (i64 (completed_count_ q + 1)) (queue_ q) (tasks_ q).
Definition with_queue (l : list entry) (q : TaskQueue) : TaskQueue :=
  mkQueue (running_ q) (next_task_id_ q) (running_count_ q) (completed_count_ q) l (tasks_ q).
Definition with_tasks (m : gmap Z TaskBase) (q : TaskQueue) : TaskQueue :=
  mkQueue (running_ q) (next_task_id_ q) (running_count_ q) (completed_count_ q) (queue_ q) m.

Definition pending_count (q : TaskQueue) : Z := i32 (Z.of_nat (length (queue_ q))).
Definition running_count (q : TaskQueue) : Z := running_count_ q.
Definition completed_count (q : TaskQueue) : Z := completed_count_ q.

(** [wait_all] returns when both are zero; they are read one after the other. *)
Definition wait_all_continues (pending running : Z) : bool := (0 <? pending) || (0 <? running).

(** [submit] up to the lock: a task with its id. *)
Definition make_task (body : ending unit) (priority : TaskPriority) (timeout_ms retry_count : Z) (addr : Z)
    (q : TaskQueue) : TaskBase * TaskQueue :=
  (mkTask (next_task_id_ q) addr priority timeout_ms retry_count body, next_id q).

Definition priority_value (c : Config) (t : TaskBase) : Z := if enable_priority c then priority_int (priority_ t) else 0.

Definition full (c : Config) (q : TaskQueue) : bool := max_queue_size c <=? i32 (Z.of_nat (length (queue_ q))).

(** [submit] under the lock: its answer. *)
Definition submit (c : Config) (t : TaskBase) (q : TaskQueue) : Z * TaskQueue :=
  if full c q then (-1, q)
  else (id_ t, with_queue ((priority_value c t, t) :: queue_ q) (with_tasks (<[id_ t := t]> (tasks_ q)) q)).

(** [submit_void] submits a function that returns [true] after the user's. *)
Definition submit_void (func : ending unit) : ending bool :=
  match func with Returns _ => Returns true | Throws what => Throws what | ThrowsOther => ThrowsOther end.

Definition cancel (task_id : Z) (q : TaskQueue) : bool * TaskQueue :=
  if decide (is_Some (tasks_ q !! task_id)) then (true, with_tasks (delete task_id (tasks_ q)) q) else (false, q).

(** Where a worker is in [worker_loop]: at the loop's test; before the critical
    section; inside it with nothing to do, holding the mutex, about to sleep;
    asleep; with a task taken, counted, run, counted off, counted as completed;
    out of the loop. *)
Inductive worker :=
| Testing | Entering | Deciding | Asleep
| Taken (t : TaskBase) | Started (t : TaskBase) | Executed (t : TaskBase) | Uncounted (t : TaskBase) | Erasing (t : TaskBase)
| Exited.

(** The thread that starts and stops the queue: free, in [stop] before
    [notify_all], joining the workers. *)
Inductive controller := Free | Notifying | Joining.

Record world := mkWorld {
  queue : TaskQueue;
  workers_ : list worker;
  control : controller;
  submitting : list TaskBase;  (* the tasks whose [submit] has not reached the lock *)
  terminated : bool;           (* by an exception that left a thread *)
  accepted : list Z;           (* ghost: the ids [submit] returned *)
  executed : list Z            (* ghost: the ids whose function was called *)
}.

Definition initial : world := mkWorld TaskQueue_init [] Free [] false [] [].

Definition with_object (q : TaskQueue) (w : world) : world :=
  mkWorld q (workers_ w) (control w) (submitting w) (terminated w) (accepted w) (executed w).
Definition with_workers (l : list worker) (w : world) : world :=
  mkWorld (queue w) l (control w) (submitting w) (terminated w) (accepted w) (executed w).
Definition with_control (c : controller) (w : world) : world :=
  mkWorld (queue w) (workers_ w) c (submitting w) (terminated w) (accepted w) (executed w).
Definition with_submitting (l : list TaskBase) (w : world) : world :=
  mkWorld (queue w) (workers_ w) (control w) l (terminated w) (accepted w) (executed w).
Definition accept (id : Z) (w : world) : world :=
  mkWorld (queue w) (workers_ w) (control w) (submitting w) (terminated w) (accepted w ++ [id]) (executed w).
Definition run_task (t : TaskBase) (w : world) : world :=
  mkWorld (queue w) (workers_ w) (control w) (submitting w)
    (match ends t with ThrowsOther => true | _ => terminated w end) (accepted w) (executed w ++ [id_ t]).

Definition holds_mutex (k : worker) : bool := match k with Deciding => true | _ => false end.
Definition mutex_free (w : world) : bool := forallb (fun k => negb (holds_mutex k)) (workers_ w).

Definition wake (k : worker) : worker := match k with Asleep => Entering | _ => k end.
Definition is_asleep (k : worker) : bool := match k with Asleep => true | _ => false end.
Definition is_exited (k : worker) : bool := match k with Exited => true | _ => false end.

(** [notify_one] wakes one of the sleeping workers, none when none sleeps. *)
Definition notify_one (target : option nat) (l : list worker) : option (list worker) :=
  match target with
  | Some i => match l !! i with Some Asleep => Some (<[i := Entering]> l) | _ => None end
  | None => if existsb is_asleep l then None else Some l
  end.

(** The critical section in which a worker takes a task. *)
Definition take_task (q : TaskQueue) : worker * TaskQueue :=
  match pop (queue_ q) with
  | Some (e, rest) => (Taken e.2, with_queue rest q)
  | None => (if running_ q then Deciding else Exited, q)
  end.

(** One step of [worker_loop]. *)
Definition work (i : nat) (w : world) : option world :=
  k ← workers_ w !! i;
  let q := queue w in
  let go k' w' := Some (with_workers (<[i := k']> (workers_ w')) w') in
  match k with
  | Testing => go (if running_ q then Entering else Exited) w
  | Entering => if mutex_free w then let '(k', q') := take_task q in go k' (with_object q' w) else None
  | Deciding => go Asleep w
  | Taken t => go (Started t) (with_object (add_running 1 q) w)
  | Started t => go (Executed t) (run_task t w)
  | Executed t => go (Uncounted t) (with_object (add_running (-1) q) w)
  | Uncounted t => go (Erasing t) (with_object (add_completed q) w)
  | Erasing t => if mutex_free w then go Testing (with_object (with_tasks (delete (id_ t) (tasks_ q)) q) w) else None
  | Asleep | Exited => None
  end.

(** What may happen next. [Submit] is [submit] up to the lock, for a task whose
    [execute] ends as [body] says; [Push] the rest of the [n]th pending one, with the
    worker woken; [Spurious] a wake-up without notification. *)
Inductive action :=
| Submit (body : ending unit) (priority : TaskPriority) (timeout_ms retry_count addr : Z)
| Push (n : nat) (woken : option nat) | Cancel (id : Z)
| Start | Stop | NotifyAll | Join
| Work (i : nat) | Spurious (i : nat).

Section Steps.
Context (c : Config).

(** [submit]'s critical section, for a pending task. *)
Definition push (n : nat) (woken : option nat) (w : world) : option world :=
  t ← submitting w !! n;
  let '(id, q') := submit c t (queue w) in
  let w' := with_submitting (delete n (submitting w)) (with_object q' w) in
  if full c (queue w) then Some w'
  else l ← notify_one woken (workers_ w'); Some (accept id (with_workers l w')).

Definition exec (a : action) (w : world) : option world :=
  if terminated w then None else
  match a with
  | Submit body p timeout retry addr =>
      let '(t, q') := make_task body p timeout retry addr (queue w) in
      Some (with_submitting (submitting w ++ [t]) (with_object q' w))
  | Push n woken => if mutex_free w then push n woken w else None
  | Cancel id => if mutex_free w then Some (with_object (cancel id (queue w)).2 w) else None
  | Start =>
      match control w with
      | Free =>
          if running_ (queue w) then Some w
          else Some (with_workers (workers_ w ++ replicate (Z.to_nat (worker_threads c)) Testing)
                 (with_object (with_running true (queue w)) w))
      | _ => None
      end
  | Stop =>
      match control w with
      | Free =>
          if running_ (queue w) then Some (with_control Notifying (with_object (with_running false (queue w)) w))
          else Some w
      | _ => None
      end
  | NotifyAll =>
      match control w with
      | Notifying => Some (with_control Joining (with_workers (wake <$> workers_ w) w))
      | _ => None
      end
  | Join =>
      match control w with
      | Joining => if forallb is_exited (workers_ w) then Some (with_control Free (with_workers [] w)) else None
      | _ => None
      end
  | Work i => work i w
  | Spurious i =>
      match workers_ w !! i with
      | Some Asleep => Some (with_workers (<[i := Entering]> (workers_ w)) w)
      | _ => None
      end
  end.

Fixpoint run (acts : list action) (w : world) : option world :=
  match acts with [] => Some w | a :: acts' => w' ← exec a w; run acts' w' end.
End Steps.
