(* ===== verification/TaskQueueFacts.v ===== *)
(** * TaskQueueFacts: what the task queue promises, and what it does not *)

From S2P Require Import Prelude.
From S2P Require Import Protocol.
From S2P Require Import Wire.
From S2P Require Import TaskQueue.

(** ** The priority queue *)

Lemma less_spec a b : less a b = true <-> a.1 < b.1 \/ a.1 = b.1 /\ address a.2 < address b.2.
Proof. unfold less. rewrite orb_true_iff, andb_true_iff, negb_true_iff, !Z.ltb_lt, Z.ltb_ge. lia. Qed.

Lemma less_irreflexive a : less a a = false.
Proof. apply not_true_iff_false. rewrite less_spec. lia. Qed.

Lemma pop_none q : pop q = None -> q = [].
Proof. destruct q as [|x q]; [done|]. cbn. destruct (pop q) as [[y r]|]; [by destruct (less y x)|done]. Qed.

(** [pop] takes a greatest element out. *)
Lemma pop_spec q x r : pop q = Some (x, r) -> q ≡ₚ x :: r /\ forall y, y ∈ q -> less x y = false.
Proof.
  revert x r. induction q as [|z q IH]; intros x r; [done|]. cbn. destruct (pop q) as [[y r']|] eqn:Hp.
  - destruct (IH y r' eq_refl) as [Hq Hy]. destruct (less y z) eqn:Hz; intros [= <- <-].
    + split; [done|]. intros u [->|Hu]%elem_of_cons; [apply less_irreflexive|]. specialize (Hy u Hu).
      apply not_true_iff_false in Hy. apply not_true_iff_false. rewrite less_spec in *. lia.
    + split; [rewrite Hq; constructor|]. by intros u [->|Hu]%elem_of_cons; [|apply Hy].
  - apply pop_none in Hp as ->. intros [= <- <-]. split; [done|].
    intros u ->%list_elem_of_singleton. apply less_irreflexive.
Qed.

(** ** Counters *)

Lemma i32_add a b : i32 (i32 a + b) = i32 (a + b).
Proof.
  unfold i32. replace ((a + 2 ^ 31) mod 2 ^ 32 - 2 ^ 31 + b + 2 ^ 31) with ((a + 2 ^ 31) mod 2 ^ 32 + b) by lia.
  rewrite Zplus_mod_idemp_l. do 2 f_equal. lia.
Qed.

Lemma i64_add a b : i64 (i64 a + b) = i64 (a + b).
Proof.
  unfold i64. replace ((a + 2 ^ 63) mod 2 ^ 64 - 2 ^ 63 + b + 2 ^ 63) with ((a + 2 ^ 63) mod 2 ^ 64 + b) by lia.
  rewrite Zplus_mod_idemp_l. do 2 f_equal. lia.
Qed.

Lemma i64_small z : - 2 ^ 63 <= z < 2 ^ 63 -> i64 z = z.
Proof. intros Hz. unfold i64. rewrite Z.mod_small; lia. Qed.

(** ** The tasks at the workers *)

(** Taken and not run yet; counted as running; run and not counted as completed. *)
Definition to_run (k : worker) : list Z := match k with Taken t | Started t => [id_ t] | _ => [] end.
Definition counted (k : worker) : list Z := match k with Started t | Executed t => [id_ t] | _ => [] end.
Definition uncompleted (k : worker) : list Z := match k with Executed t | Uncounted t => [id_ t] | _ => [] end.

Definition queued (w : world) : list Z := id_ ∘ snd <$> queue_ (queue w).
Definition in_hand (w : world) : list Z := workers_ w ≫= to_run.
Definition placed (w : world) : list Z := queued w ++ in_hand w ++ executed w.
Definition submitted (w : world) : list Z := (id_ <$> submitting w) ++ placed w.

Definition counts_ok (w : world) : Prop :=
  running_count_ (queue w) = i32 (Z.of_nat (length (workers_ w ≫= counted))) /\
  completed_count_ (queue w) = i64 (Z.of_nat (length (executed w)) - Z.of_nat (length (workers_ w ≫= uncompleted))).

Record accounts (n : Z) (w : world) : Prop := {
  next_ok : next_task_id_ (queue w) = 1 + n;
  ids_distinct : NoDup (submitted w);
  ids_issued : Forall (fun id => 1 <= id <= n) (submitted w);
  accepted_where : accepted w ≡ₚ placed w;
  counters_ok : counts_ok w
}.

Lemma replace_worker (l : list worker) i k k' : l !! i = Some k ->
  exists rest, l ≡ₚ k :: rest /\ <[i := k']> l ≡ₚ k' :: rest.
Proof.
  intros Hk. exists (delete i l). split; [by apply delete_Permutation|].
  rewrite insert_take_drop by by eapply lookup_lt_Some. rewrite delete_take_drop. by rewrite Permutation_middle.
Qed.

Lemma accounts_moved n w w' : accounts n w -> submitting w' = submitting w -> accepted w' = accepted w ->
  next_task_id_ (queue w') = next_task_id_ (queue w) -> placed w' ≡ₚ placed w -> counts_ok w' -> accounts n w'.
Proof.
  intros [Hn Hd Hi Ha _] Hs Hacc Hnext Hp Hc. split; rewrite ?Hs, ?Hacc, ?Hnext, ?Hp; try done; unfold submitted; by rewrite Hs, Hp.
Qed.

Lemma take_task_spec q k q' : take_task q = (k, q') ->
  (exists e rest, k = Taken e.2 /\ queue_ q ≡ₚ e :: rest /\ (forall y, y ∈ queue_ q -> less e y = false) /\ q' = with_queue rest q) \/
  (queue_ q = [] /\ k = (if running_ q then Deciding else Exited) /\ q' = q).
Proof.
  unfold take_task. destruct (pop (queue_ q)) as [[e rest]|] eqn:Hp; intros [= <- <-].
  - left. apply pop_spec in Hp as [Hq Hy]. by exists e, rest.
  - right. split_and!; [by apply pop_none|done|done].
Qed.

(** The accounts of a step in which a worker goes from [k] to [k']. *)
Definition moves (k k' : worker) (w w0 : world) : Prop :=
  workers_ w0 = workers_ w /\ submitting w0 = submitting w /\ accepted w0 = accepted w /\
  next_task_id_ (queue w0) = next_task_id_ (queue w) /\
  to_run k' ++ queued w0 ++ executed w0 ≡ₚ to_run k ++ queued w ++ executed w /\
  running_count_ (queue w0) = i32 (running_count_ (queue w) + (Z.of_nat (length (counted k')) - Z.of_nat (length (counted k)))) /\
  completed_count_ (queue w0) = i64 (completed_count_ (queue w) + (Z.of_nat (length (executed w0)) - Z.of_nat (length (executed w)) -
    Z.of_nat (length (uncompleted k')) + Z.of_nat (length (uncompleted k)))).

Lemma work_moves i w w' : counts_ok w -> work i w = Some w' -> exists k k' w0,
  workers_ w !! i = Some k /\ w' = with_workers (<[i := k']> (workers_ w)) w0 /\ moves k k' w w0.
Proof.
  intros [Hr Hc] Hw. unfold work in Hw. destruct (workers_ w !! i) as [k|] eqn:Hk; [|done]. cbn in Hw. exists k.
  destruct k; try done; try (destruct (mutex_free w); [|done]); try (destruct (take_task _) as [k1 q1] eqn:Ht);
    injection Hw as <-; eexists _, _; (split; [done|split; [done|]]); unfold moves; cbn;
    try (apply take_task_spec in Ht as [(e & rest & -> & Hq & _ & ->)|(Hq & -> & ->)]).
  all: try destruct (running_ (queue w)).
  all: cbn; rewrite ?Hr, ?Hc, ?i32_add, ?i64_add, ?length_app; cbn; split_and!; try done; try (f_equal; lia).
  all: unfold queued; cbn; rewrite ?Hq; cbn; try done; solve_Permutation.
Qed.

Lemma accounts_work n i w w' : accounts n w -> work i w = Some w' -> accounts n w'.
Proof.
  intros Ha Hw. pose proof (counters_ok _ _ Ha) as [Hr Hc].
  destruct (work_moves i w w' (counters_ok _ _ Ha) Hw) as (k & k' & w0 & Hk & -> & Hw0 & Hs & Hacc & Hn & Hp & Hr' & Hc').
  destruct (replace_worker _ i k k' Hk) as (rest & Hl & Hl').
  apply (accounts_moved n w); try done.
  - unfold placed, in_hand, queued in *. cbn. rewrite Hl', Hl. cbn. rewrite <- !app_assoc.
    transitivity ((rest ≫= to_run) ++ to_run k' ++ queued w0 ++ executed w0); [unfold queued; solve_Permutation|].
    rewrite Hp. unfold queued. solve_Permutation.
  - unfold counts_ok. cbn. rewrite Hr', Hc', Hl'.
    rewrite Hr, Hc, Hl. cbn. rewrite i32_add, i64_add, !length_app. split; f_equal; lia.
Qed.

(** Workers without a task come and go. *)
Definition hands_kept (l l' : list worker) : Prop := forall f : worker -> list Z,
  f Testing = [] -> f Entering = [] -> f Asleep = [] -> f Exited = [] -> l' ≫= f ≡ₚ l ≫= f.

Definition idle (k : worker) : bool := match k with Testing | Entering | Asleep | Exited => true | _ => false end.

Lemma insert_keeps i k k' (l : list worker) : l !! i = Some k -> idle k = true -> idle k' = true -> hands_kept l (<[i := k']> l).
Proof.
  intros Hl Hk Hk' f H1 H2 H3 H4. destruct (replace_worker l i k k' Hl) as (rest & Hr & Hr'). rewrite Hr', Hr. cbn.
  assert (f k = []) as -> by by destruct k. assert (f k' = []) as -> by by destruct k'. done.
Qed.

Lemma notify_keeps target l l' : notify_one target l = Some l' -> hands_kept l l'.
Proof.
  unfold notify_one. destruct target as [i|].
  - destruct (l !! i) as [[]|] eqn:Hi; intros [= <-]. by eapply insert_keeps.
  - destruct (existsb is_asleep l); intros [= <-]. by intros f.
Qed.

Lemma wake_keeps l : hands_kept l (wake <$> l).
Proof.
  intros f H1 H2 H3 H4. induction l as [|k l IH]; [done|]. cbn. rewrite IH. by destruct k; cbn; rewrite ?H2, ?H3.
Qed.

Lemma spawn_keeps l n : hands_kept l (l ++ replicate n Testing).
Proof.
  intros f H1 _ _ _. rewrite bind_app. induction n as [|n IH]; cbn; [by rewrite app_nil_r|]. by rewrite H1.
Qed.

Lemma join_keeps l : forallb is_exited l = true -> hands_kept l [].
Proof.
  intros Hl f _ _ _ H4. induction l as [|k l IH]; [done|]. cbn in *. apply andb_true_iff in Hl as [Hk Hl].
  destruct k; try done. by rewrite H4, <- IH.
Qed.

Lemma accounts_hands n w q c l : accounts n w -> hands_kept (workers_ w) l ->
  queue_ q = queue_ (queue w) -> next_task_id_ q = next_task_id_ (queue w) ->
  running_count_ q = running_count_ (queue w) -> completed_count_ q = completed_count_ (queue w) ->
  accounts n (with_control c (with_workers l (with_object q w))).
Proof.
  intros Ha Hl Hq Hn Hr Hc. apply (accounts_moved n w); try done.
  - unfold placed, queued, in_hand. cbn. by rewrite Hq, (Hl to_run).
  - destruct (counters_ok _ _ Ha) as [Hr' Hc']. unfold counts_ok. cbn. by rewrite Hr, Hc, (Hl counted), (Hl uncompleted).
Qed.

Lemma accounts_push c n m woken w w' : accounts n w -> push c m woken w = Some w' -> accounts n w'.
Proof.
  intros Ha Hp. pose proof Ha as [Hn Hd Hi Hacc [Hr Hc]]. unfold push in Hp. destruct (submitting w !! m) as [t|] eqn:Ht; [|done]. cbn in Hp.
  apply delete_Permutation in Ht. revert Hp Ht. generalize (delete m (submitting w)) as others. intros others Hp Ht. unfold submit in Hp. destruct (full c (queue w)).
  - injection Hp as <-. unfold submitted in Hd, Hi. rewrite Ht in Hd, Hi. cbn in Hd, Hi.
    apply NoDup_cons in Hd as [_ Hd]. apply Forall_cons in Hi as [_ Hi]. by split.
  - destruct (notify_one woken (workers_ w)) as [l|] eqn:Hl; [|done]. injection Hp as <-. apply notify_keeps in Hl.
    assert (placed (accept (id_ t) (with_workers l (with_submitting others (with_object
      (with_queue ((priority_value c t, t) :: queue_ (queue w)) (with_tasks (<[id_ t:=t]> (tasks_ (queue w))) (queue w))) w))))
      ≡ₚ id_ t :: placed w) as Hp by (unfold placed, queued, in_hand; cbn; by rewrite (Hl to_run)).
    assert (id_ t :: (id_ <$> others) ++ placed w ≡ₚ submitted w) as Hs by (unfold submitted; by rewrite Ht).
    split; [done| | | |].
    + unfold submitted. rewrite Hp. cbn. by rewrite <- Permutation_middle, Hs.
    + unfold submitted. rewrite Hp. cbn. by rewrite <- Permutation_middle, Hs.
    + rewrite Hp. cbn. rewrite Hacc. solve_Permutation.
    + unfold counts_ok. cbn. by rewrite (Hl counted), (Hl uncompleted).
Qed.

Definition submits (a : action) : Z := match a with Submit _ _ _ _ _ => 1 | _ => 0 end.

Lemma accounts_exec c n a w w' : accounts n w -> 0 <= n < 2 ^ 63 - 2 -> exec c a w = Some w' -> accounts (n + submits a) w'.
Proof.
  intros Ha Hn He. unfold exec in He. destruct (terminated w); [done|].
  destruct a; cbn [submits]; rewrite ?Z.add_0_r.
  - injection He as <-. destruct Ha as [Hnext Hd Hi Hacc Hc]. split; [| | |done|done].
    + cbn. rewrite Hnext, i64_small; lia.
    + unfold submitted. cbn. rewrite fmap_app, <- app_assoc. cbn. rewrite <- Permutation_middle. constructor; [|done].
      intros Hin. rewrite Forall_forall in Hi. specialize (Hi _ Hin). lia.
    + unfold submitted. cbn. rewrite fmap_app, <- app_assoc. cbn. rewrite <- Permutation_middle.
      constructor; [lia|]. eapply Forall_impl; [exact Hi|]. cbn. lia.
  - destruct (mutex_free w); [|done]. by eapply accounts_push.
  - destruct (mutex_free w); [|done]. injection He as <-. apply (accounts_moved n w); try done.
    all: unfold cancel; case_decide; try done; apply (counters_ok _ _ Ha).
  - destruct (control w) eqn:Hctl; [|done..]. destruct (running_ (queue w)); injection He as <-; [done|].
    apply (accounts_hands n w (with_running true (queue w)) (control w) (workers_ w ++ replicate (Z.to_nat (worker_threads c)) Testing));
      try done. apply spawn_keeps.
  - destruct (control w) eqn:Hctl; [|done..]. destruct (running_ (queue w)); injection He as <-; [|done].
    apply (accounts_hands n w (with_running false (queue w)) Notifying (workers_ w)); try done. by intros f.
  - destruct (control w) eqn:Hctl; [done| |done]. injection He as <-.
    apply (accounts_hands n w (queue w) Joining (wake <$> workers_ w)); try done. apply wake_keeps.
  - destruct (control w) eqn:Hctl; [done|done|]. destruct (forallb is_exited _) eqn:Hx; [|done]. injection He as <-.
    apply (accounts_hands n w (queue w) Free []); try done. by apply join_keeps.
  - by eapply accounts_work.
  - destruct (workers_ w !! i) as [[]|] eqn:Hi; try done. injection He as <-.
    apply (accounts_hands n w (queue w) (control w) (<[i := Entering]> (workers_ w))); try done. by eapply insert_keeps.
Qed.

Lemma accounts_run c acts : forall n w w', accounts n w -> 0 <= n -> n + Z.of_nat (length acts) < 2 ^ 63 - 1 ->
  run c acts w = Some w' -> exists n', accounts n' w'.
Proof.
  induction acts as [|a acts IH]; intros n w w' Ha Hn Hl Hr; cbn in Hr; [exists n; by simplify_eq|].
  destruct (exec c a w) as [w1|] eqn:He; [|done]. cbn in Hr. cbn [length] in Hl.
  assert (0 <= submits a <= 1) by by destruct a.
  eapply (IH (n + submits a)); [eapply accounts_exec; [done|lia|done]|lia|lia|done].
Qed.

Lemma accounts_initial : accounts 0 initial.
Proof. by split; [|constructor|constructor|..]. Qed.

(** C12: Whatever the threads do and in whatever order, the tasks that were accepted
    are, each once, in the queue, at a worker or run, so none is lost and none run
    twice; the counters are those of the tasks being run and of the tasks done. *)
Theorem tasks_run_once c acts w : run c acts initial = Some w -> Z.of_nat (length acts) < 2 ^ 63 - 1 ->
  NoDup (accepted w) /\ accepted w ≡ₚ queued w ++ in_hand w ++ executed w /\
  running_count (queue w) = i32 (Z.of_nat (length (workers_ w ≫= counted))) /\
  completed_count (queue w) = i64 (Z.of_nat (length (executed w)) - Z.of_nat (length (workers_ w ≫= uncompleted))).
Proof.
  intros Hr Hl. destruct (accounts_run c acts 0 initial w accounts_initial ltac:(lia) Hl Hr) as [n [_ Hd _ Ha [Hr' Hc]]].
  split_and!; [|done|done|done]. rewrite Ha. unfold submitted in Hd. by apply NoDup_app in Hd as (_ & _ & ?).
Qed.

(** ** The order and the bound of the queue *)

Definition queue_wf (c : Config) (w : world) : Prop :=
  Forall (fun e => e.1 = priority_value c e.2) (queue_ (queue w)) /\
  (max_queue_size c < 2 ^ 31 -> Z.of_nat (length (queue_ (queue w))) <= Z.max 0 (max_queue_size c)).

Lemma queue_wf_work c i w w' : queue_wf c w -> work i w = Some w' -> queue_wf c w'.
Proof.
  intros [Hp Hb] Hw. unfold work in Hw. destruct (workers_ w !! i) as [k|]; [|done]. cbn in Hw.
  destruct k; try done; try (destruct (mutex_free w); [|done]); try (destruct (take_task _) as [k1 q1] eqn:Ht);
    injection Hw as <-; try done.
  apply take_task_spec in Ht as [(e & rest & -> & Hq & _ & ->)|(Hq & -> & ->)]; [|done].
  unfold queue_wf in *. cbn. rewrite Hq in Hp, Hb. apply Forall_cons in Hp as [_ Hp]. cbn in Hb. split; [done|lia].
Qed.

Lemma queue_wf_exec c a w w' : queue_wf c w -> exec c a w = Some w' -> queue_wf c w'.
Proof.
  intros Hwf He. unfold exec in He. destruct (terminated w); [done|].
  destruct a.
  - by injection He as <-.
  - destruct (mutex_free w); [|done]. unfold push in He. destruct (submitting w !! n) as [t|]; [|done]. cbn in He.
    destruct Hwf as [Hp Hb]. unfold submit in He. destruct (full c (queue w)) eqn:Hf; [by injection He as <-|].
    destruct (notify_one woken _) as [l|]; [|done]. injection He as <-. split; cbn; [by constructor|].
    intros Hm. specialize (Hb Hm). apply Z.leb_gt in Hf. rewrite i32_small in Hf; lia.
  - destruct (mutex_free w); [|done]. injection He as <-. unfold cancel. by case_decide.
  - destruct (control w); [|done..]. by destruct (running_ (queue w)); injection He as <-.
  - destruct (control w); [|done..]. by destruct (running_ (queue w)); injection He as <-.
  - destruct (control w); [done| |done]. by injection He as <-.
  - destruct (control w); [done|done|]. destruct (forallb is_exited _); [|done]. by injection He as <-.
  - by eapply queue_wf_work.
  - destruct (workers_ w !! i) as [[]|]; try done. by injection He as <-.
Qed.

Lemma queue_wf_run c acts : forall w w', queue_wf c w -> run c acts w = Some w' -> queue_wf c w'.
Proof.
  induction acts as [|a acts IH]; intros w w' Hwf Hr; cbn in Hr; [by simplify_eq|].
  destruct (exec c a w) as [w1|] eqn:He; [|done]. eapply IH; [by eapply queue_wf_exec|done].
Qed.

Lemma queue_wf_initial c : queue_wf c initial.
Proof. split; [constructor|cbn; lia]. Qed.

(** At any time the queue holds no more tasks than configured, and a worker takes
    a task of the highest priority in it, among those the one whose object has the
    highest address. *)
Theorem highest_priority_taken c acts w : run c acts initial = Some w -> max_queue_size c < 2 ^ 31 ->
  pending_count (queue w) = Z.of_nat (length (queue_ (queue w))) /\ pending_count (queue w) <= Z.max 0 (max_queue_size c) /\
  forall k t q', take_task (queue w) = (k, q') -> k = Taken t ->
    forall e, e ∈ queue_ (queue w) -> priority_value c e.2 <= priority_value c t /\
      (priority_value c e.2 = priority_value c t -> address e.2 <= address t).
Proof.
  intros Hr Hm. destruct (queue_wf_run c acts initial w (queue_wf_initial c) Hr) as [Hp Hb]. specialize (Hb Hm).
  assert (pending_count (queue w) = Z.of_nat (length (queue_ (queue w)))) as Hlen by (apply i32_small; lia).
  split_and!; [done|lia|].
  intros k t q' Ht Hk e He. apply take_task_spec in Ht as [(x & rest & Hx & Hq & Hg & _)|(_ & Hx & _)];
    rewrite Hk in Hx; [|by destruct (running_ (queue w))]. injection Hx as ->.
  specialize (Hg e He). apply not_true_iff_false in Hg. rewrite less_spec in Hg.
  rewrite Forall_forall in Hp. assert (x ∈ queue_ (queue w)) as Hin by (rewrite Hq; left).
  rewrite (Hp e He), (Hp x Hin) in Hg. lia.
Qed.

(** ** Cancelling *)

(** What can be seen of a queue but through [cancel]: all but [tasks_]. *)
Definition forget (w : world) : world := with_object (with_tasks ∅ (queue w)) w.

#[export] Instance world_equiv : Equiv world := fun w w' => forget w = forget w'.
#[export] Instance world_equivalence : Equivalence (≡@{world}).
Proof. split; unfold equiv, world_equiv; [done|by intros w w' ->|by intros w w' w'' -> ->]. Qed.

Lemma with_object_equiv q q' w : with_tasks ∅ q = with_tasks ∅ q' -> with_object q w ≡ with_object q' w.
Proof. intros Hq. unfold equiv, world_equiv, forget. cbn. by rewrite Hq. Qed.

(** No step but [Cancel] reads [tasks_]. *)
Lemma exec_forget c a w : forget <$> exec c a (forget w) = forget <$> exec c a w.
Proof.
  destruct w as [[r n rc cc q ts] l ctl sub term acc ex]. unfold exec, forget. cbn. destruct term; [done|].
  destruct a; unfold mutex_free, push, submit, full, cancel, work; cbn; try done.
  - destruct (forallb _ l); [|done]. destruct (sub !! n0) as [t|]; [|done]. cbn.
    destruct (max_queue_size c <=? _); cbn; [done|]. by destruct (notify_one woken l).
  - destruct (forallb _ l); [|done]. cbn. by repeat case_decide.
  - by destruct ctl, r.
  - by destruct ctl, r.
  - by destruct ctl.
  - destruct ctl; try done. by case_match.
  - destruct (l !! i) as [k|]; [|done]. cbn. destruct k; try done.
    + destruct (forallb _ l); [|done]. unfold take_task. cbn. destruct (pop q) as [[e rest]|]; by destruct r.
    + destruct (forallb _ l); done.
  - destruct (l !! i) as [[]|]; done.
Qed.

Lemma forget_equiv (o o' : option world) : forget <$> o = forget <$> o' -> o ≡ o'.
Proof. destruct o, o'; try done. cbn. intros H%(inj Some). by constructor. Qed.

#[export] Instance exec_proper c a : Proper ((≡@{world}) ==> (≡)) (exec c a).
Proof.
  intros w w' Hw. apply forget_equiv. by rewrite <- exec_forget, (Hw : forget w = forget w'), exec_forget.
Qed.

#[export] Instance run_proper c acts : Proper ((≡@{world}) ==> (≡)) (run c acts).
Proof.
  induction acts as [|a acts IH]; intros w w' Hw; cbn; [by constructor|].
  destruct (exec_proper c a w w' Hw); [by apply IH|constructor].
Qed.

Definition is_cancel (a : action) : bool := match a with Cancel _ => true | _ => false end.

(** Cancelling has no effect but its answer: without its [cancel] calls any run
    does the same, with the same tasks accepted, queued and run in the same order. *)
Theorem cancel_has_no_effect c acts w w' : run c acts w = Some w' ->
  exists w'', run c (filter (fun a => is_cancel a = false) acts) w = Some w'' /\ w'' ≡ w'.
Proof.
  revert w. induction acts as [|a acts IH]; intros w Hr; [by exists w'; simplify_eq|]. cbn [run] in Hr.
  destruct (exec c a w) as [w1|] eqn:He; [|done]. cbn in Hr. destruct (IH w1 Hr) as (w2 & H2 & Hw2).
  rewrite filter_cons. case_decide as Ha; [exists w2; cbn; by rewrite He|].
  assert (w1 ≡ w) as Hw.
  { destruct a; try done. unfold exec in He. destruct (terminated w); [done|]. destruct (mutex_free w); [|done].
    injection He as <-. unfold equiv, world_equiv, forget, cancel. cbn. by case_decide. }
  pose proof (run_proper c (filter (fun a => is_cancel a = false) acts) w1 w Hw) as Hrun. rewrite H2 in Hrun.
  inversion Hrun as [? w3 H3 Hw3|]; subst. exists w3. split; [done|]. by rewrite <- H3.
Qed.

(** ** Stopping *)

(** How many steps a worker of a stopped queue has left. *)
Definition steps_left (k : worker) : nat :=
  match k with
  | Exited | Asleep => 0
  | Testing | Deciding => 1
  | Erasing _ => 2
  | Uncounted _ => 3
  | Executed _ => 4
  | Started _ => 5
  | Taken _ => 6
  | Entering => 7
  end.

Definition total_left (w : world) : nat := sum_list_with steps_left (workers_ w).

Lemma work_stopped i w w' : running_ (queue w) = false -> work i w = Some w' ->
  running_ (queue w') = false /\ (total_left w' < total_left w)%nat.
Proof.
  intros Hr Hw. unfold work in Hw. destruct (workers_ w !! i) as [k|] eqn:Hk; [|done]. cbn in Hw. unfold total_left.
  destruct k; try done; try (destruct (mutex_free w); [|done]); try (destruct (take_task _) as [k1 q1] eqn:Ht);
    injection Hw as <-; rewrite ?Hr; cbn; try (apply take_task_spec in Ht as [(e & rest & -> & _ & _ & ->)|(_ & -> & ->)]; rewrite ?Hr).
  all: split; [done|]; match goal with |- context [<[_ := ?k']> _] => pose proof (sum_insert steps_left _ _ _ k' Hk) as H; cbn in H end; lia.
Qed.

Lemma left_bound w : (total_left w <= 7 * length (workers_ w))%nat.
Proof. unfold total_left. induction (workers_ w) as [|k l IH]; [done|]. cbn. destruct k; cbn; lia. Qed.

Lemma work_stuck w : (forall i, work i w = None) -> Forall (fun k => k = Exited \/ k = Asleep) (workers_ w).
Proof.
  intros Hs. assert (mutex_free w = true) as Hm.
  { apply forallb_forall. intros k Hk%list_elem_of_In. apply list_elem_of_lookup in Hk as [i Hk]. specialize (Hs i).
    unfold work in Hs. rewrite Hk in Hs. by destruct k. }
  apply Forall_lookup. intros i k Hk. specialize (Hs i). unfold work in Hs. rewrite Hk in Hs. cbn in Hs. rewrite Hm in Hs.
  destruct k; try done; [|by right|by left]. by destruct (take_task (queue w)).
Qed.

(** The workers of a stopped queue come to rest: at most seven steps each, and
    then each of them has left its loop, or sleeps because it slept through
    [notify_all]. *)
Theorem stopped_workers_rest c order w w' : running_ (queue w) = false -> run c (Work <$> order) w = Some w' ->
  (length order <= 7 * length (workers_ w))%nat /\
  ((forall i, work i w' = None) -> Forall (fun k => k = Exited \/ k = Asleep) (workers_ w')).
Proof.
  intros Hr Hrun. split; [|apply work_stuck]. pose proof (left_bound w).
  assert (length order + total_left w' <= total_left w)%nat; [|lia]. clear H. revert w Hr Hrun.
  induction order as [|i order IH]; intros w Hr Hrun; cbn in *; [by simplify_eq|].
  destruct (exec c (Work i) w) as [w1|] eqn:Hw; [|done]. cbn in Hrun. unfold exec in Hw. destruct (terminated w); [done|].
  apply work_stopped in Hw as [Hr1 Hl]; [|done]. specialize (IH w1 Hr1 Hrun). lia.
Qed.

(** A worker asleep while [stop] joins is woken by a task pushed or by chance only. *)
Definition wakes (a : action) : bool := match a with Push _ _ | Spurious _ => true | _ => false end.

Lemma asleep_stays c a w w' i : control w = Joining -> workers_ w !! i = Some Asleep -> wakes a = false ->
  exec c a w = Some w' -> control w' = Joining /\ workers_ w' !! i = Some Asleep.
Proof.
  intros Hc Hi Ha He. unfold exec in He. destruct (terminated w); [done|]. destruct a; try done; rewrite ?Hc in He; try done.
  - by injection He as <-.
  - destruct (mutex_free w); [|done]. by injection He as <-.
  - destruct (forallb is_exited (workers_ w)) eqn:Hx; [|done]. rewrite forallb_forall in Hx.
    assert (is_exited Asleep = true); [|done]. apply Hx, list_elem_of_In. by eapply list_elem_of_lookup_2.
  - unfold work in He. destruct (workers_ w !! i0) as [k|] eqn:Hk; [|done]. cbn in He.
    assert (i0 <> i) by (intros ->; rewrite Hi in Hk; by injection Hk as <-).
    destruct k; try done; try (destruct (mutex_free w); [|done]); try (destruct (take_task _) as [k1 q1]);
      injection He as <-; cbn; (split; [done|]); by rewrite list_lookup_insert_ne.
Qed.

(** [stop] between a worker's look at an empty queue and its going to sleep. *)
Definition lost_wakeup : list action := [Start; Work 0; Work 0; Stop; NotifyAll; Work 0].

(** With any configuration of at least one worker [stop] can hang: its
    notification can fall between a worker's test and its sleep, as [running_] is
    written without the mutex, and then [stop] never returns, whatever every thread
    does, unless a task is pushed or the worker wakes by chance. *)
Theorem stop_can_hang c : 0 < worker_threads c -> exists w, run c lost_wakeup initial = Some w /\
  forall acts w', Forall (fun a => wakes a = false) acts -> run c acts w = Some w' -> control w' = Joining.
Proof.
  intros Hn. destruct (Z.to_nat (worker_threads c)) as [|n] eqn:Hw; [lia|].
  assert (exists w, run c lost_wakeup initial = Some w /\ control w = Joining /\ workers_ w !! 0%nat = Some Asleep) as (w & Hr & Hc & Hs).
  { assert (forall (k : nat), forallb (fun k => negb (holds_mutex k)) (replicate k Testing) = true) as Hm by (induction k; done).
    unfold run, lost_wakeup, exec. cbn. rewrite Hw. cbn. unfold mutex_free. cbn. rewrite Hm. cbn. by eexists. }
  exists w. split; [done|]. intros acts w' Ha Hrun. clear Hr. revert w Hc Hs Hrun.
  induction Ha as [|a acts Ha _ IH]; intros w Hc Hs Hrun; cbn in Hrun; [by simplify_eq|].
  destruct (exec c a w) as [w1|] eqn:He; [|done]. cbn in Hrun. destruct (asleep_stays c a w w1 0 Hc Hs Ha He) as [Hc1 Hs1]. by eapply IH.
Qed.

(** A worker with a task it has not counted yet. *)
Definition between : list action :=
  [Start; Submit (Returns tt) NORMAL 0 0 1; Push 0 None; Work 0; Work 0].

(** [wait_all] can return while an accepted task has not run: between a worker's
    taking it and counting it both counts are zero. *)
Theorem wait_all_returns_early c : 0 < worker_threads c -> 0 < max_queue_size c ->
  exists w, run c between initial = Some w /\ wait_all_continues (pending_count (queue w)) (running_count (queue w)) = false /\
    accepted w = [1] /\ executed w = [].
Proof.
  intros Hn Hq. destruct (Z.to_nat (worker_threads c)) as [|n] eqn:Hw; [lia|].
  assert (forall (k : nat), forallb (fun k => negb (holds_mutex k)) (replicate k Testing) = true) as Hm by (induction k; done).
  assert (forall (k : nat), existsb is_asleep (replicate k Testing) = false) as Hs by (induction k; done).
  assert ((max_queue_size c <=? i32 (Z.of_nat 0)) = false) as Hf by (apply Z.leb_gt; change (i32 (Z.of_nat 0)) with 0; lia).
  unfold run, between, exec. cbn. rewrite Hw. cbn. unfold mutex_free. cbn. rewrite Hm. unfold push, submit, full. cbn.
  rewrite Hf. cbn. rewrite Hs. cbn. rewrite Hm. cbn. by eexists.
Qed.

(** ** A run *)

(** Two tasks, the more urgent one taken first; the first is cancelled, and run. *)
Definition demo_config : Config := mkConfig 1 10 true.
Definition demo_start : list action :=
  [Start; Submit (Returns tt) LOW 0 0 7; Push 0 None; Submit (Throws (lit "late")) URGENT 0 0 8; Push 0 None].
Definition demo_acts : list action :=
  demo_start ++ [Cancel 1] ++ (Work <$> replicate 16 0%nat) ++ [Stop].

Definition runs (c : Config) (acts : list action) (w : world) : bool := match run c acts w with Some _ => true | None => false end.

Lemma run_some c acts w : runs c acts w = true -> run c acts w = Some (default initial (run c acts w)).
Proof. unfold runs. by destruct (run c acts w). Qed.

Definition demo_end : world := default initial (run demo_config demo_acts initial).

Lemma demo_run : run demo_config demo_acts initial = Some demo_end.
Proof. unfold demo_end. apply run_some. vm_compute. reflexivity. Qed.

Example demo_executed : executed demo_end = [2; 1].
Proof. vm_compute. reflexivity. Qed.

Lemma tasks_run_once_witness : NoDup (accepted demo_end) /\ executed demo_end = [2; 1] /\ completed_count (queue demo_end) = 2.
Proof.
  pose proof (tasks_run_once demo_config demo_acts demo_end demo_run ltac:(vm_compute; reflexivity))
    as (Hd & _ & _ & Hc).
  split; [exact Hd|]. split; [vm_compute; reflexivity|]. rewrite Hc. vm_compute. reflexivity.
Defined.

Definition demo_ready : world := default initial (run demo_config demo_start initial).

Lemma demo_started : run demo_config demo_start initial = Some demo_ready.
Proof. unfold demo_ready. apply run_some. vm_compute. reflexivity. Qed.

Lemma highest_priority_taken_witness :
  pending_count (queue demo_ready) <= 10 /\
  exists t, (take_task (queue demo_ready)).1 = Taken t /\ forall e, e ∈ queue_ (queue demo_ready) -> priority_value demo_config e.2 <= priority_value demo_config t.
Proof.
  destruct (highest_priority_taken demo_config demo_start demo_ready demo_started ltac:(reflexivity)) as (_ & Hb & Ht).
  split; [exact Hb|].
  assert ((take_task (queue demo_ready)).1 = Taken (mkTask 2 8 URGENT 0 0 (Throws (lit "late")))) as Hk by (vm_compute; reflexivity).
  destruct (take_task (queue demo_ready)) as [k q]. cbn [fst] in Hk |- *.
  eexists. split; [exact Hk|]. intros e He. exact (proj1 (Ht _ _ _ eq_refl Hk e He)).
Defined.

Lemma cancel_has_no_effect_witness : exists w,
  run demo_config (filter (fun a => is_cancel a = false) demo_acts) initial = Some w /\ w ≡ demo_end.
Proof. exact (cancel_has_no_effect demo_config demo_acts initial demo_end demo_run). Defined.

Definition demo_stopped : world := with_workers [Entering] (with_object (with_running false (queue demo_ready)) demo_ready).
Definition demo_rest : world := default initial (run demo_config (Work <$> replicate 7 0%nat) demo_stopped).

Lemma demo_rests : run demo_config (Work <$> replicate 7 0%nat) demo_stopped = Some demo_rest.
Proof. unfold demo_rest. apply run_some. vm_compute. reflexivity. Qed.

Lemma stopped_workers_rest_witness : (length (replicate 7 0%nat) <= 7 * length (workers_ demo_stopped))%nat /\
  ((forall i, work i demo_rest = None) -> Forall (fun k => k = Exited \/ k = Asleep) (workers_ demo_rest)).
Proof. apply (stopped_workers_rest demo_config (replicate 7 0%nat)); [reflexivity|exact demo_rests]. Defined.

Lemma stop_can_hang_witness : exists w, run demo_config lost_wakeup initial = Some w /\
  forall acts w', Forall (fun a => wakes a = false) acts -> run demo_config acts w = Some w' -> control w' = Joining.
Proof. exact (stop_can_hang demo_config ltac:(reflexivity)). Defined.

Lemma wait_all_returns_early_witness : exists w, run demo_config between initial = Some w /\
  wait_all_continues (pending_count (queue w)) (running_count (queue w)) = false /\ accepted w = [1] /\ executed w = [].
Proof. exact (wait_all_returns_early demo_config ltac:(reflexivity) ltac:(reflexivity)). Defined.
