(* ===== verification/Http.v ===== *)
(** * Http: src/http/http_server.cpp, http_response.cpp and src/include http/

    The requests a session reads from its socket, byte by byte as the code finds
    them, and the bytes of a response.  [npos] is [None]. *)

From stdpp Require Import sorting.
From S2P Require Import Prelude.
From S2P Require Import Numeric.
From S2P Require Import Protocol.
From S2P Require Import Wire.
From S2P Require Import StdNum.

Record HttpRequest := mkRequest {
  method : str;
  path : str;
  version : str;
  headers : gmap str str;
  body : str
}.

Definition header (k : str) (r : HttpRequest) : str := default ([] : str) (headers r !! k).

Record HttpResponse := mkResponse { status_code : Z; reason : str; resp_headers : gmap str str; resp_body : str }.
Definition HttpResponse_init : HttpResponse := mkResponse 200 (lit "OK") ∅ [].
Definition set_header (k v : str) (r : HttpResponse) : HttpResponse :=
  mkResponse (status_code r) (reason r) (<[k := v]> (resp_headers r)) (resp_body r).

(** ** Strings *)

Definition cr : byte := byte_of 13.
Definition lf : byte := byte_of 10.
Definition tab : byte := byte_of 9.
Definition space : byte := byte_of 32.
Definition colon : byte := byte_of 58.
Definition crlf : str := [cr; lf].

Definition prefix_of (p s : str) : bool := bool_decide (take (length p) s = p).

(** [s.find(p)] and [s.find(p, from)]. *)
Fixpoint find (p s : str) : option nat :=
  if prefix_of p s then Some 0%nat else match s with [] => None | _ :: s' => S <$> find p s' end.
Definition find_from (p : str) (from : nat) (s : str) : option nat := Nat.add from <$> find p (drop from s).

Definition substr (s : str) (pos len : nat) : str := take len (drop pos s).

(** [std::atoi]; undefined when the value is not an [int]. *)
Definition atoi (s : str) : outcome Z :=
  let v := strtoll s in if (- 2 ^ 31 <=? v) && (v <? 2 ^ 31) then Ok v else Undefined.

(** ** Requests *)

(** The spaces and tabs a value starts with. *)
Fixpoint trim (s : str) : str :=
  match s with
  | c :: s' => if Byte.eqb c space || Byte.eqb c tab then trim s' else s
  | [] => []
  end.

Definition parse_header (line : str) (hs : gmap str str) : gmap str str :=
  match find [colon] line with
  | Some n => <[take n line := trim (drop (S n) line)]> hs
  | None => hs
  end.

(** The loop over the header lines. *)
Fixpoint parse_headers (fuel : nat) (header_end line_start : nat) (data : str) (hs : gmap str str) : outcome (gmap str str) :=
  if (line_start <? header_end)%nat then
    match find_from crlf line_start data with
    | None => Ok hs
    | Some line_end =>
        if (header_end <? line_end)%nat then Ok hs
        else match fuel with
             | O => Fuel
             | S fuel' =>
                 let line := substr data line_start (line_end - line_start) in
                 parse_headers fuel' header_end (line_end + 2) data (parse_header line hs)
             end
    end
  else Ok hs.

Definition parse_body (hs : gmap str str) (header_end : nat) (data : str) : outcome str :=
  let content_length_str := default ([] : str) (hs !! lit "Content-Length") in
  if bool_decide (content_length_str = []) then Ok []
  else
    len ←o atoi content_length_str;
    let body_start := (header_end + 4)%nat in
    Ok (if (0 <? len) && (Z.of_nat body_start + len <=? Z.of_nat (length data)) then substr data body_start (Z.to_nat len) else []).

Definition parse_request (data : str) : outcome (option HttpRequest) :=
  match find crlf data with
  | None => Ok None
  | Some pos =>
      let request_line := take pos data in
      match find [space] request_line with
      | None => Ok None
      | Some sp1 =>
          match find_from [space] (S sp1) request_line with
          | None => Ok None
          | Some sp2 =>
              match find (crlf ++ crlf) data with
              | None => Ok None
              | Some header_end =>
                  hs ←o parse_headers (length data) header_end (pos + 2) data ∅;
                  b ←o parse_body hs header_end data;
                  Ok (Some (mkRequest (take sp1 request_line) (substr request_line (S sp1) (sp2 - sp1 - 1))
                        (drop (S sp2) request_line) hs b))
              end
          end
      end
  end.

(** ** Responses *)

Definition header_line (p : str * str) : str := p.1 ++ lit ": " ++ p.2 ++ crlf.

Definition to_bytes (r : HttpResponse) : str :=
  lit "HTTP/1.1 " ++ to_string (status_code r) ++ [space] ++ reason r ++ crlf ++
  concat (header_line <$> in_order (resp_headers r)) ++
  lit "Content-Length: " ++ to_string (Z.of_nat (length (resp_body r))) ++ crlf ++ crlf ++ resp_body r.

(** ** A session *)

Definition no_handler : HttpResponse :=
  set_header (lit "Content-Type") (lit "text/plain; charset=utf-8") (mkResponse 404 (lit "Not Found") ∅ (lit "No handler")).

Section Session.
Context (handler_ : option (HttpRequest -> HttpResponse -> HttpResponse)).

Definition respond (req : HttpRequest) : HttpResponse :=
  match handler_ with Some h => h req HttpResponse_init | None => no_handler end.

(** [HttpSession::run], on what each read of the socket gives (nothing at its end
    or on an error): the request handled, if any, and the bytes written. *)
Fixpoint session_run (reads : list str) (request_data : str) : outcome (option (HttpRequest * str)) :=
  match reads with
  | [] => Ok None
  | r :: reads' =>
      if bool_decide (r = []) then Ok None
      else
        let request_data := request_data ++ r in
        match find (crlf ++ crlf) request_data with
        | None => session_run reads' request_data
        | Some _ =>
            parsed ←o parse_request request_data;
            Ok ((fun req => (req, to_bytes (respond req))) <$> parsed)
        end
  end.
End Session.
