(* ===== verification/HttpFacts.v ===== *)
(** * HttpFacts: requests and responses are read back *)

From stdpp Require Import sorting.
From Stdlib Require Import DecimalString.
From S2P Require Import Prelude.
From S2P Require Import Numeric.
From S2P Require Import Protocol.
From S2P Require Import Wire.
From S2P Require Import StdNum.
From S2P Require Import Http.

(** ** Searching *)

Lemma prefix_of_app p s : prefix_of p (p ++ s) = true.
Proof. apply bool_decide_eq_true, take_app_length. Qed.

Lemma find_prefix p s : find p (p ++ s) = Some 0%nat.
Proof. destruct (p ++ s) eqn:E; cbn; by rewrite <- E, prefix_of_app. Qed.

Lemma prefix_of_long p s t : prefix_of p s = true -> prefix_of p (s ++ t) = true.
Proof.
  unfold prefix_of. rewrite !bool_decide_eq_true. intros Hp. rewrite take_app, Hp.
  assert (length p <= length s)%nat by (rewrite <- Hp at 1; rewrite length_take; lia).
  replace (length p - length s)%nat with 0%nat by lia. apply app_nil_r.
Qed.

(** What is found stays found when more arrives. *)
Lemma find_more p s t i : find p s = Some i -> find p (s ++ t) = Some i /\ (i + length p <= length s)%nat.
Proof.
  revert i. induction s as [|c s IH]; intros i; cbn [find app length].
  - destruct (prefix_of p []) eqn:Hp; [|done]. intros [= <-]. apply bool_decide_eq_true in Hp.
    rewrite take_nil in Hp. subst p. split; [apply (find_prefix [])|cbn; lia].
  - destruct (prefix_of p (c :: s)) eqn:Hp.
    + intros [= <-]. rewrite (prefix_of_long p (c :: s) t Hp : prefix_of p (c :: s ++ t) = true). split; [done|].
      apply bool_decide_eq_true in Hp. rewrite <- Hp, length_take. cbn. lia.
    + destruct (find p s) as [j|] eqn:Hf; [|done]. intros [= <-]. destruct (IH j eq_refl) as [H1 H2].
      destruct (prefix_of p (c :: s ++ t)) eqn:Hp'; [|by rewrite H1; split; [|lia]].
      exfalso. unfold prefix_of in Hp, Hp'. apply bool_decide_eq_true in Hp'. apply bool_decide_eq_false in Hp. apply Hp.
      rewrite <- Hp' at 2. change (c :: s ++ t) with ((c :: s) ++ t). rewrite take_app_le by (cbn; lia). done.
Qed.

Lemma find_byte b s t : b ∉ s -> find [b] (s ++ b :: t) = Some (length s).
Proof.
  induction s as [|c s IH]; intros Hb; [apply (find_prefix [b])|]. apply not_elem_of_cons in Hb as [Hc Hb].
  cbn [app find]. unfold prefix_of. rewrite bool_decide_false by (cbn; congruence). by rewrite IH.
Qed.

Lemma find_no_byte b s : b ∉ s -> find [b] s = None.
Proof.
  induction s as [|c s IH]; intros Hb; [done|]. apply not_elem_of_cons in Hb as [Hc Hb].
  cbn [find]. unfold prefix_of. rewrite bool_decide_false by (cbn; congruence). by rewrite IH.
Qed.

(** No line feed in [s]: the first CRLF is the one after it. *)
Lemma crlf_not_in c s t q : lf ∉ c :: s -> prefix_of (crlf ++ q) (c :: s ++ crlf ++ t) = false.
Proof.
  intros Hn. apply bool_decide_eq_false. cbn. intros [= -> H].
  destruct s as [|d s]; [done|]. injection H as -> _. set_solver.
Qed.

Lemma find_crlf s t : lf ∉ s -> find crlf (s ++ crlf ++ t) = Some (length s).
Proof.
  induction s as [|c s IH]; intros Hn; [apply (find_prefix crlf)|]. cbn [app find]. 
  rewrite (crlf_not_in c s t [] Hn : prefix_of crlf _ = false). rewrite IH by set_solver. done.
Qed.

Lemma find_blank_here s t : lf ∉ s -> find (crlf ++ crlf) (s ++ crlf ++ crlf ++ t) = Some (length s).
Proof.
  induction s as [|c s IH]; intros Hn; [apply (find_prefix (crlf ++ crlf))|]. cbn [app find].
  rewrite (crlf_not_in c s (crlf ++ t) crlf) by done. rewrite IH by set_solver. done.
Qed.

Lemma find_blank_later s t : lf ∉ s -> prefix_of crlf t = false ->
  find (crlf ++ crlf) (s ++ crlf ++ t) = Nat.add (length s + 2) <$> find (crlf ++ crlf) t.
Proof.
  intros Hn Ht. induction s as [|c s IH].
  - change ([] ++ crlf ++ t) with (cr :: lf :: t). cbn [find]. assert (prefix_of (crlf ++ crlf) (cr :: lf :: t) = false) as ->.
    { apply bool_decide_eq_false. apply bool_decide_eq_false in Ht. cbn in *. intros [= H]. by apply Ht. }
    assert (prefix_of (crlf ++ crlf) (lf :: t) = false) as ->; [by apply bool_decide_eq_false|]. by destruct (find _ t).
  - cbn [app find]. rewrite (crlf_not_in c s t crlf) by done. rewrite IH by set_solver. by destruct (find _ t).
Qed.

(** ** Header lines *)

(** A header that can be sent: its name and value do not break its line, and its
    value starts with no blank. *)
Definition clean (p : str * str) : Prop :=
  (lf ∉ p.1) /\ (lf ∉ p.2) /\ (colon ∉ p.1) /\ trim p.2 = p.2.

Lemma header_line_shape p t : header_line p ++ t = (p.1 ++ [colon; space] ++ p.2) ++ crlf ++ t.
Proof. unfold header_line. by rewrite <- !app_assoc. Qed.

Lemma clean_line p : clean p -> lf ∉ p.1 ++ [colon; space] ++ p.2.
Proof. intros (H1 & H2 & _). rewrite !elem_of_app, !elem_of_cons. set_solver. Qed.

Lemma line_not_blank p t : clean p -> prefix_of crlf (header_line p ++ t) = false.
Proof.
  intros Hp. rewrite header_line_shape. pose proof (clean_line p Hp) as Hl.
  destruct (p.1 ++ [colon; space] ++ p.2) as [|c s] eqn:E; [by destruct p.1|]. by apply (crlf_not_in c s t []).
Qed.

Lemma parse_clean p hs : clean p -> parse_header (p.1 ++ [colon; space] ++ p.2) hs = <[p.1 := p.2]> hs.
Proof.
  intros (_ & _ & Hc & Ht). unfold parse_header. cbn [app]. rewrite find_byte by done. rewrite take_app_length. f_equal.
  rewrite drop_app_ge by lia. replace (S (length p.1) - length p.1)%nat with 1%nat by lia. cbn. exact Ht.
Qed.

Definition put_header (hs : gmap str str) (p : str * str) : gmap str str := <[p.1 := p.2]> hs.

Lemma parse_headers_spec l : forall fuel pre rest hs data header_end, Forall clean l -> (length l <= fuel)%nat ->
  data = pre ++ concat (header_line <$> l) ++ crlf ++ rest ->
  (header_end + 2 = length pre + length (concat (header_line <$> l)))%nat ->
  parse_headers fuel header_end (length pre) data hs = Ok (foldl put_header hs l).
Proof.
  induction l as [|p l IH]; intros fuel pre rest hs data header_end Hl Hf Hd He.
  - cbn in He. assert ((length pre <? header_end)%nat = false) as Hlt by (apply Nat.ltb_ge; lia). destruct fuel; cbn [parse_headers]; by rewrite Hlt.
  - apply Forall_cons in Hl as [Hp Hl]. destruct fuel as [|fuel]; [cbn in Hf; lia|]. cbn [fmap list_fmap concat] in Hd, He.
    rewrite <- app_assoc, header_line_shape in Hd. set (line := p.1 ++ [colon; space] ++ p.2) in *.
    assert (length (header_line p) = length line + 2)%nat as Hlen.
    { pose proof (header_line_shape p []) as H. rewrite !app_nil_r in H. rewrite H. apply (length_app line crlf). }
    assert (2 <= length line)%nat as Hl2 by (unfold line; rewrite !length_app; cbn; lia).
    rewrite length_app, Hlen in He. cbn [parse_headers].
    assert (find_from crlf (length pre) data = Some (length pre + length line)%nat) as ->.
    { unfold find_from. rewrite Hd, drop_app_length, find_crlf by by apply clean_line. done. }
    assert ((length pre <? header_end)%nat = true) as -> by (apply Nat.ltb_lt; lia).
    assert ((header_end <? length pre + length line)%nat = false) as -> by (apply Nat.ltb_ge; lia).
    assert (substr data (length pre) (length pre + length line - length pre) = line) as ->.
    { unfold substr. rewrite Hd, drop_app_length. replace (length pre + length line - length pre)%nat with (length line) by lia. apply take_app_length. }
    unfold line at 2. rewrite parse_clean by done.
    replace (length pre + length line + 2)%nat with (length (pre ++ line ++ crlf)) by (rewrite !length_app; cbn; lia).
    apply (IH _ _ rest); [done|cbn in Hf; lia| |rewrite !length_app; cbn; lia].
    rewrite Hd. by rewrite <- !app_assoc.
Qed.

Lemma find_blank_lines s l t : lf ∉ s -> Forall clean l ->
  find (crlf ++ crlf) (s ++ crlf ++ concat (header_line <$> l) ++ crlf ++ t) =
  Some (length s + length (concat (header_line <$> l)))%nat.
Proof.
  intros Hs Hl. revert s Hs. induction Hl as [|p l Hp Hl IH]; intros s Hs; [cbn [fmap list_fmap concat app]; rewrite find_blank_here by done; f_equal; cbn; lia|].
  cbn [fmap list_fmap concat]. rewrite <- app_assoc. rewrite find_blank_later by (done || by apply line_not_blank).
  rewrite header_line_shape, IH by by apply clean_line. cbn. f_equal.
  pose proof (header_line_shape p []) as H. rewrite !app_nil_r in H. rewrite H, !length_app. cbn. lia.
Qed.

(** ** Requests *)

Definition head (m p v : str) (l : list (str * str)) : str :=
  m ++ [space] ++ p ++ [space] ++ v ++ crlf ++ concat (header_line <$> l) ++ crlf.

(** The body that the headers announce, of what follows them. *)
Definition body_of (hs : gmap str str) (rest : str) : outcome str :=
  let cl := default ([] : str) (hs !! lit "Content-Length") in
  if bool_decide (cl = []) then Ok []
  else len ←o atoi cl; Ok (if (0 <? len) && (len <=? Z.of_nat (length rest)) then take (Z.to_nat len) rest else []).

Lemma parse_body_spec hs h header_end rest : length h = (header_end + 4)%nat ->
  parse_body hs header_end (h ++ rest) = body_of hs rest.
Proof.
  intros Hh. unfold parse_body, body_of. case_bool_decide; [done|]. destruct (atoi _) as [len| |]; [cbn [obind]|done|done].
  unfold substr. rewrite <- Hh, drop_app_length, length_app. do 2 f_equal.
  assert ((Z.of_nat (length h) + len <=? Z.of_nat (length h + length rest)) = (len <=? Z.of_nat (length rest))) as ->; [|done].
  apply Bool.eq_true_iff_eq. rewrite !Z.leb_le. lia.
Qed.

Record names_ok (m p v : str) (l : list (str * str)) : Prop := {
  method_ok : (lf ∉ m) /\ (space ∉ m);
  path_ok : (lf ∉ p) /\ (space ∉ p);
  version_ok : lf ∉ v;
  lines_ok : Forall clean l
}.

Lemma lines_count l : (length l <= length (concat (header_line <$> l)))%nat.
Proof.
  induction l as [|p l IH]; [done|]. cbn [fmap list_fmap concat length]. unfold header_line at 1. rewrite !length_app. cbn. lia.
Qed.

Lemma parse_request_spec m p v l rest : names_ok m p v l ->
  parse_request (head m p v l ++ rest) =
  (b ←o body_of (foldl put_header ∅ l) rest; Ok (Some (mkRequest m p v (foldl put_header ∅ l) b))).
Proof.
  intros [[Hm1 Hm2] [Hp1 Hp2] Hv Hl]. set (line := m ++ [space] ++ p ++ [space] ++ v).
  assert (lf ∉ line) as Hline by (unfold line; rewrite !elem_of_app, !elem_of_cons; set_solver).
  assert (head m p v l ++ rest = line ++ crlf ++ concat (header_line <$> l) ++ crlf ++ rest) as Hd
    by (unfold head, line; by rewrite <- !app_assoc).
  unfold parse_request. rewrite Hd at 1. rewrite find_crlf by done. cbv zeta.
  assert (take (length line) (head m p v l ++ rest) = line) as -> by (rewrite Hd; apply take_app_length).
  assert (find [space] line = Some (length m)) as -> by (unfold line; by apply find_byte).
  assert (find_from [space] (S (length m)) line = Some (S (length m) + length p)%nat) as ->.
  { unfold find_from, line. rewrite drop_app_ge by lia. replace (S (length m) - length m)%nat with 1%nat by lia. 
    change (drop 1 ([space] ++ p ++ [space] ++ v)) with (p ++ space :: v). by rewrite find_byte. }
  rewrite Hd at 1. rewrite find_blank_lines by done.
  replace (length line + 2)%nat with (length (line ++ crlf)) by (rewrite length_app; done).
  assert (length (head m p v l) = length line + length (concat (header_line <$> l)) + 4)%nat as Hlen.
  { apply (f_equal length) in Hd. rewrite !length_app in Hd. cbn in Hd. lia. }
  rewrite (parse_headers_spec l _ (line ++ crlf) rest); [cbn [obind]|done| | |].
  - rewrite parse_body_spec by done. destruct (body_of _ rest); [cbn [obind]|done|done]. do 3 f_equal; unfold line, substr.
    + apply take_app_length.
    + rewrite drop_app_ge by lia. replace (S (length m) - length m)%nat with 1%nat by lia.
      replace (S (length m) + length p - length m - 1)%nat with (length p) by lia. apply (take_app_length p).
    + rewrite drop_app_ge by lia. replace (S (S (length m) + length p) - length m)%nat with (S (S (length p))) by lia.
      change (drop (S (S (length p))) ([space] ++ p ++ [space] ++ v)) with (drop (S (length p)) (p ++ [space] ++ v)). rewrite drop_app_ge by lia. by replace (S (length p) - length p)%nat with 1%nat by lia.
  - rewrite length_app, Hlen. pose proof (lines_count l). lia.
  - rewrite Hd. by rewrite <- !app_assoc.
  - rewrite length_app. cbn. lia.
Qed.

(** ** Numbers in headers *)

Definition numeral (b : byte) : Prop := byte_val b = 45 \/ 48 <= byte_val b <= 57.

Lemma uint_numerals u : Forall numeral (lit (NilEmpty.string_of_uint u)).
Proof.
  induction u as [|u IH|u IH|u IH|u IH|u IH|u IH|u IH|u IH|u IH|u IH]; [constructor|..];
    cbn [NilEmpty.string_of_uint]; rewrite lit_cons; (constructor; [right; cbv; split; discriminate|exact IH]).
Qed.

Lemma to_string_numerals z : Forall numeral (to_string z).
Proof.
  unfold to_string. destruct z as [|p|p]; cbn [Z.to_int NilZero.string_of_int].
  - constructor; [right; cbv; split; discriminate|constructor].
  - rewrite nil_zero by apply to_uint_not_nil. apply uint_numerals.
  - rewrite lit_cons, nil_zero by apply to_uint_not_nil. constructor; [left; reflexivity|apply uint_numerals].
Qed.

Lemma not_numeral b z : ~ numeral b -> b ∉ to_string z.
Proof. intros Hb Hin. apply Hb. by apply (proj1 (Forall_forall _ _) (to_string_numerals z)). Qed.

Lemma to_string_nonempty z : to_string z <> [].
Proof.
  unfold to_string. destruct z as [|p|p]; cbn [Z.to_int NilZero.string_of_int]; [done| |by rewrite lit_cons].
  rewrite nil_zero by apply to_uint_not_nil. pose proof (to_uint_not_nil p). by destruct (Pos.to_uint p).
Qed.

Lemma lf_not_numeral : ~ numeral lf.
Proof. intros [H|H]; cbv in H; [discriminate|by destruct H]. Qed.
Lemma space_not_numeral : ~ numeral space.
Proof. intros [H|H]; cbv in H; [discriminate|by destruct H]. Qed.

Lemma trim_numerals z : trim (to_string z) = to_string z.
Proof.
  pose proof (to_string_numerals z) as H. destruct (to_string z) as [|c s]; [done|]. apply Forall_cons in H as [H _].
  cbn [trim]. assert (Byte.eqb c space = false /\ Byte.eqb c tab = false) as [-> ->]; [|done].
  split; apply not_true_iff_false; intros ->%Byte.byte_dec_bl; destruct H as [H|H]; cbv in H; [discriminate| |discriminate|]; by destruct H.
Qed.

Definition content_length (n : nat) : str * str := (lit "Content-Length", to_string (Z.of_nat n)).

Lemma content_length_clean n : clean (content_length n).
Proof. split_and!; cbn; [cbv; set_solver|apply not_numeral, lf_not_numeral|cbv; set_solver|apply trim_numerals]. Qed.

Lemma body_announced (hs : gmap str str) b extra : hs !! lit "Content-Length" = Some (to_string (Z.of_nat (length b))) ->
  Z.of_nat (length b) < 2 ^ 31 -> body_of hs (b ++ extra) = Ok b.
Proof.
  intros Hc Hb. unfold body_of. cbv zeta. rewrite Hc. cbn [default]. rewrite bool_decide_false by apply to_string_nonempty.
  unfold atoi. rewrite (stoll_strtoll _ (Z.of_nat (length b))) by (apply stoll_to_string; lia). cbv zeta.
  rewrite (proj2 (Z.leb_le _ _)), (proj2 (Z.ltb_lt _ _)) by lia. cbn [andb obind]. f_equal.
  rewrite length_app, (proj2 (Z.leb_le _ _)) by lia. rewrite Nat2Z.id, take_app_length, andb_true_r.
  case_test; [done|]. by destruct b.
Qed.

(** ** Round trips *)

Lemma put_headers_in_order (hs : gmap str str) : foldl put_header ∅ (in_order hs) = hs.
Proof.
  apply map_eq. intros k.
  assert (NoDup (in_order hs).*1) as Hn by (rewrite in_order_perm; apply NoDup_fst_map_to_list).
  assert (forall p, p ∈ in_order hs <-> hs !! p.1 = Some p.2) as Hin
    by (intros [k' v]; rewrite in_order_perm; apply elem_of_map_to_list).
  assert (forall l (m : gmap str str), NoDup l.*1 -> foldl put_header m l !! k =
    if decide (k ∈ l.*1) then (list_to_map l : gmap str str) !! k else m !! k) as Hf.
  { clear. intros l. induction l as [|p l IH]; intros m Hl; [done|]. apply NoDup_cons in Hl as [Hp Hl]. cbn [foldl fmap list_fmap].
    rewrite IH by done. unfold put_header. destruct p as [i x]. cbn [fst snd list_to_map foldr] in *.
    destruct (decide (k = i)) as [->|Hk].
    - rewrite decide_False by done. rewrite decide_True by left. cbn. by rewrite !lookup_insert_eq.
    - cbn. rewrite !lookup_insert_ne by done.
      destruct (decide (k ∈ l.*1)); [rewrite decide_True by (by right)|rewrite decide_False by (rewrite elem_of_cons; naive_solver)]; done. }
  rewrite Hf by done. case_decide as Hk.
  - apply list_elem_of_fmap in Hk as ([i x] & -> & Hx). pose proof (proj1 (Hin (i, x)) Hx) as Hi. cbn in Hi |- *.
    rewrite Hi. by apply elem_of_list_to_map.
  - rewrite lookup_empty. symmetry. apply eq_None_not_Some. intros [x Hx]. apply Hk. apply list_elem_of_fmap.
    exists (k, x). split; [done|]. by apply Hin.
Qed.

Lemma clean_in_order (hs : gmap str str) : map_Forall (fun k v => clean (k, v)) hs -> Forall clean (in_order hs).
Proof. intros Hh. rewrite in_order_perm. apply Forall_forall. intros [k v] Hkv%elem_of_map_to_list. exact (Hh k v Hkv). Qed.

(** The text of a request, and when the server can read it back: no line feed and no
    space where one would end a part, headers that fit their lines, and the body
    announced by its length, or none. *)
Definition request_text (r : HttpRequest) : str := head (method r) (path r) (version r) (in_order (headers r)) ++ body r.

Record readable (r : HttpRequest) : Prop := {
  parts_ok : names_ok (method r) (path r) (version r) (in_order (headers r));
  body_ok : headers r !! lit "Content-Length" = Some (to_string (Z.of_nat (length (body r)))) /\ Z.of_nat (length (body r)) < 2 ^ 31 \/
    headers r !! lit "Content-Length" = None /\ body r = []
}.

(** C40: A request is read back from its text exactly, whatever follows it. *)
Theorem request_roundtrip r extra : readable r -> parse_request (request_text r ++ extra) = Ok (Some r).
Proof.
  intros [Hp Hb]. unfold request_text. rewrite <- app_assoc, parse_request_spec, put_headers_in_order by done.
  assert (body_of (headers r) (body r ++ extra) = Ok (body r)) as ->; [|by destruct r].
  destruct Hb as [[Hc Hb]|[Hc Hb]]; [by apply body_announced|]. unfold body_of. cbv zeta. by rewrite Hc, Hb.
Qed.

(** What [to_bytes] writes is read back by the same parser: the status line as
    the three parts of the first line, each header, the length, which [to_bytes]
    writes last so that it wins over one the handler had set, and the body exactly. *)
Theorem response_roundtrip r extra : lf ∉ reason r -> map_Forall (fun k v => clean (k, v)) (resp_headers r) ->
  Z.of_nat (length (resp_body r)) < 2 ^ 31 ->
  parse_request (to_bytes r ++ extra) = Ok (Some (mkRequest (lit "HTTP/1.1") (to_string (status_code r)) (reason r)
    (<[lit "Content-Length" := to_string (Z.of_nat (length (resp_body r)))]> (resp_headers r)) (resp_body r))).
Proof.
  intros Hr Hh Hb. set (l := in_order (resp_headers r) ++ [content_length (length (resp_body r))]).
  assert (to_bytes r ++ extra = head (lit "HTTP/1.1") (to_string (status_code r)) (reason r) l ++ resp_body r ++ extra) as ->.
  { unfold to_bytes, head, l. rewrite fmap_app, concat_app. cbn [fmap list_fmap concat]. unfold header_line at 3. cbn [content_length fst snd].
    rewrite app_nil_r. change (lit "HTTP/1.1 ") with (lit "HTTP/1.1" ++ [space]).
    change (lit "Content-Length: ") with (lit "Content-Length" ++ lit ": "). by rewrite <- !app_assoc. }
  assert (Forall clean l) as Hl.
  { apply Forall_app. split; [by apply clean_in_order|constructor; [apply content_length_clean|constructor]]. }
  rewrite parse_request_spec.
  - unfold l. rewrite foldl_app, put_headers_in_order. cbn [foldl]. unfold put_header, content_length. cbn [fst snd].
    rewrite body_announced by (done || by rewrite lookup_insert_eq). done.
  - split; [split; vm_compute; set_solver| |done|done]. split; apply not_numeral; [apply lf_not_numeral|apply space_not_numeral].
Qed.

(** ** Sessions *)

(** Where the head of a request ends. *)
Lemma head_found m p v l t : names_ok m p v l ->
  find (crlf ++ crlf) (head m p v l ++ t) = Some (length (head m p v l) - 4)%nat.
Proof.
  intros [[Hm1 Hm2] [Hp1 Hp2] Hv Hl]. set (line := m ++ [space] ++ p ++ [space] ++ v).
  assert (lf ∉ line) as Hline by (unfold line; rewrite !elem_of_app, !elem_of_cons; set_solver).
  assert (head m p v l = line ++ crlf ++ concat (header_line <$> l) ++ crlf) as -> by (unfold head, line; by rewrite <- !app_assoc).
  rewrite <- !app_assoc, find_blank_lines by done. f_equal. rewrite !length_app. cbn. lia.
Qed.

Lemma head_long m p v l : (4 <= length (head m p v l))%nat.
Proof. unfold head. rewrite !length_app. cbn. lia. Qed.

Lemma head_unfinished m p v l data tail : names_ok m p v l -> head m p v l = data ++ tail -> tail <> [] ->
  find (crlf ++ crlf) data = None.
Proof.
  intros Hn Hd Ht. destruct (find (crlf ++ crlf) data) as [i|] eqn:Hf; [|done]. exfalso.
  apply (find_more _ _ tail) in Hf as [Hf Hi]. rewrite <- Hd in Hf. pose proof (head_found m p v l [] Hn) as Hh.
  rewrite app_nil_r, Hf in Hh. injection Hh as ->. cbn in Hi. pose proof (head_long m p v l).
  apply (f_equal length) in Hd. rewrite length_app in Hd. destruct tail; [done|]. cbn in Hd. lia.
Qed.

Section Sessions.
Context (handler_ : option (HttpRequest -> HttpResponse -> HttpResponse)).

Lemma session_waits m p v l tail rest : names_ok m p v l -> tail <> [] -> forall before data,
  Forall (fun r => r <> []) before -> head m p v l = data ++ concat before ++ tail ->
  session_run handler_ (before ++ rest) data = session_run handler_ rest (data ++ concat before).
Proof.
  intros Hn Ht before. induction before as [|r before IH]; intros data Hb Hd; cbn [concat app] in *; [by rewrite app_nil_r|].
  apply Forall_cons in Hb as [Hr Hb]. cbn [session_run]. rewrite bool_decide_false by done. cbv zeta.
  rewrite (head_unfinished m p v l (data ++ r) (concat before ++ tail)); [|done|by rewrite Hd, <- !app_assoc|by destruct (concat before)].
  rewrite (IH (data ++ r)); [by rewrite <- app_assoc|done|by rewrite Hd, <- !app_assoc].
Qed.

(** C37: However the bytes of a request are split into reads, its method, path, version
    and headers reach the handler exactly; but the body only if the read that ends the
    headers also brings all of it: otherwise the handler sees an empty body. *)
Theorem session_serves r before tail arrived later after : readable r -> Forall (fun x => x <> []) before -> tail <> [] ->
  request_text r = concat before ++ tail ++ arrived ++ later ->
  head (method r) (path r) (version r) (in_order (headers r)) = concat before ++ tail ->
  session_run handler_ (before ++ (tail ++ arrived) :: after) [] =
  let seen := mkRequest (method r) (path r) (version r) (headers r) (if bool_decide (later = []) then body r else []) in
  Ok (Some (seen, to_bytes (respond handler_ seen))).
Proof.
  intros [Hp Hb] Hbefore Ht Htext Hh. rewrite (session_waits _ _ _ _ tail _ Hp Ht before []); [|done|done]. cbn [app session_run].
  rewrite bool_decide_false by by destruct tail. cbv zeta. rewrite app_assoc, <- Hh, head_found, parse_request_spec, put_headers_in_order by done.
  assert (body r = arrived ++ later) as Hbody.
  { unfold request_text in Htext. rewrite Hh, <- !app_assoc in Htext. by apply app_inv_head, app_inv_head in Htext. }
  assert (body_of (headers r) arrived = Ok (if bool_decide (later = []) then body r else [])) as ->; [|done].
  destruct Hb as [[Hc Hb]|[Hc Hb]].
  - case_bool_decide as Hl; [subst later; rewrite app_nil_r in Hbody; subst arrived; pose proof (body_announced (headers r) (body r) [] Hc Hb) as H;
      by rewrite app_nil_r in H|].
    unfold body_of. cbv zeta. rewrite Hc. cbn [default]. rewrite bool_decide_false by apply to_string_nonempty. unfold atoi.
    rewrite (stoll_strtoll _ (Z.of_nat (length (body r)))) by (apply stoll_to_string; lia). cbv zeta.
    rewrite (proj2 (Z.leb_le _ _)), (proj2 (Z.ltb_lt _ _)) by lia. cbn [andb obind].
    assert ((Z.of_nat (length (body r)) <=? Z.of_nat (length arrived)) = false) as ->; [|by rewrite andb_false_r].
    apply Z.leb_gt. rewrite Hbody, length_app. destruct later; [done|]. cbn. lia.
  - unfold body_of. cbv zeta. rewrite Hc. cbn. rewrite Hb in Hbody. symmetry in Hbody. apply app_nil in Hbody as [-> ->]. by rewrite Hb.
Qed.
End Sessions.

(** ** Examples *)

Definition demo_request : HttpRequest :=
  mkRequest (lit "POST") (lit "/login") (lit "HTTP/1.1")
    (<[lit "Host" := lit "game"]> (<[lit "Content-Length" := lit "3"]> ∅)) (lit "a=1").

#[local] Instance clean_dec p : Decision (clean p).
Proof. unfold clean. apply _. Defined.

Lemma demo_readable : readable demo_request.
Proof.
  split.
  - split; [by apply (bool_decide_unpack _); vm_compute..|].
    apply clean_in_order. apply map_Forall_insert_2; [by apply (bool_decide_unpack _); vm_compute|].
    apply map_Forall_insert_2; [by apply (bool_decide_unpack _); vm_compute|apply map_Forall_empty].
  - left. split; [|reflexivity]. vm_compute. reflexivity.
Qed.

Lemma request_roundtrip_witness : parse_request (request_text demo_request ++ lit "GET / HTTP/1.1") = Ok (Some demo_request).
Proof. exact (request_roundtrip demo_request (lit "GET / HTTP/1.1") demo_readable). Defined.

Definition demo_response : HttpResponse :=
  set_header (lit "Content-Type") (lit "text/plain") (mkResponse 404 (lit "Not Found") ∅ (lit "gone")).

Lemma response_roundtrip_witness :
  parse_request (to_bytes demo_response ++ []) = Ok (Some (mkRequest (lit "HTTP/1.1") (lit "404") (lit "Not Found")
    (<[lit "Content-Length" := lit "4"]> (<[lit "Content-Type" := lit "text/plain"]> ∅)) (lit "gone"))).
Proof.
  apply (response_roundtrip demo_response []); [by apply (bool_decide_unpack _); vm_compute| |reflexivity].
  apply map_Forall_insert_2; [by apply (bool_decide_unpack _); vm_compute|apply map_Forall_empty].
Defined.

Definition demo_head : str := head (method demo_request) (path demo_request) (version demo_request) (in_order (headers demo_request)).

(** The head in two reads, the second with one byte of the body: the body is lost. *)
Lemma session_serves_witness :
  session_run None [take 10 demo_head; drop 10 demo_head ++ lit "a"; lit "=1"] [] =
  Ok (Some (mkRequest (lit "POST") (lit "/login") (lit "HTTP/1.1") (headers demo_request) [], to_bytes no_handler)).
Proof.
  apply (session_serves None demo_request [take 10 demo_head] (drop 10 demo_head) (lit "a") (lit "=1") [lit "=1"]).
  - exact demo_readable.
  - constructor; [|constructor]. intros H. vm_compute in H. discriminate H.
  - intros H. vm_compute in H. discriminate H.
  - unfold request_text. fold demo_head. cbn [concat app]. rewrite app_nil_r, app_assoc, take_drop. reflexivity.
  - cbn [concat app]. rewrite app_nil_r, take_drop. reflexivity.
Defined.
