(* ===== verification/Gateway.v ===== *)
(** * Gateway: src/gateway/gateway_forwarder.cpp

    The component that relays clients to backend servers: two tables of
    connections, the choice of a backend by the registry of Cluster.v, messages
    serialised by Protocol.v.  A connection is its address.  The network answers a
    connection attempt with the new connection's address, or not at all; an
    address is not that of a live connection.  A handler runs as one step: each
    connection is read by one thread, and the tables are locked at each use. *)

From S2P Require Import Prelude.
From S2P Require Import Framing.
From S2P Require Import Protocol.
From S2P Require Import Wire.
From S2P Require Import Effects.
From S2P Require ConsistentHash.
From S2P Require Cluster.
Import Endian Message Parser.

Record gateway := mkGateway {
  backend_host_ : str;
  backend_port_ : Z;
  backend_node_type_ : str;
  registry_loaded_ : bool;
  registry_ : Cluster.Registry.registry;
  client_to_backend_ : gmap Z Z;
  backend_to_client_ : gmap Z Z
}.

(** The two constructors. *)
Definition GatewayForwarder (host : str) (port : Z) : gateway := mkGateway host port [] false Cluster.Registry.NodeRegistry ∅ ∅.
Definition GatewayForwarder_of_type (node_type : str) : gateway :=
  mkGateway [] 0 node_type false Cluster.Registry.NodeRegistry ∅ ∅.

Definition with_registry (r : Cluster.Registry.registry) (g : gateway) : gateway :=
  mkGateway (backend_host_ g) (backend_port_ g) (backend_node_type_ g) true r (client_to_backend_ g) (backend_to_client_ g).
Definition with_tables (cb bc : gmap Z Z) (g : gateway) : gateway :=
  mkGateway (backend_host_ g) (backend_port_ g) (backend_node_type_ g) (registry_loaded_ g) (registry_ g) cb bc.

(** What the component does outside: an attempt to connect for a client, bytes
    sent to a backend or a client, a backend connection closed. *)
Inductive effect :=
| Connect (client : Z) (host : str) (port : Z)
| ToBackend (backend : Z) (data : list byte)
| ToClient (client : Z) (data : list byte)
| CloseBackend (backend : Z).

Section Program.
Context {RS : ConsistentHash.RingSort} (e : endianness).

(** The nodes found in the configuration file, [None] if it cannot be read. *)
Context (config : option (list Cluster.Registry.yaml_entry)).

Definition on_disconnect (conn : Z) (g : gateway) : gateway * list effect :=
  match client_to_backend_ g !! conn with
  | Some backend =>
      (with_tables (delete conn (client_to_backend_ g)) (delete backend (backend_to_client_ g)) g, [CloseBackend backend])
  | None => (g, [])
  end.

Definition has_backend (conn : Z) (g : gateway) : bool := bool_decide (is_Some (client_to_backend_ g !! conn)).

(** The registry, loaded at its first use. *)
Definition load_registry (g : gateway) : gateway :=
  if registry_loaded_ g then g else with_registry (Cluster.Registry.load_from_yaml_node config (registry_ g)).2 g.

(** [connect_backend]'s choice of an address. *)
Definition choose_backend (conn : Z) (g : gateway) : (str * Z) * gateway :=
  if bool_decide (backend_node_type_ g = []) then ((backend_host_ g, backend_port_ g), g)
  else
    let g := load_registry g in
    match Cluster.Registry.select_node_by_hash (Wire.to_string conn) (backend_node_type_ g) (registry_ g) with
    | Some info => ((Cluster.Registry.listen_addr info, Cluster.Registry.listen_port info), g)
    | None => ((backend_host_ g, backend_port_ g), g)
    end.

(** [do_connect]; [answer] is the network's. *)
Definition do_connect (conn : Z) (host : str) (port : Z) (answer : option Z) (g : gateway) : option Z * gateway * list effect :=
  if bool_decide (host = []) || (port =? 0) then (None, g, [])
  else match answer with
       | None => (None, g, [Connect conn host port])
       | Some backend =>
           (Some backend, with_tables (<[conn := backend]> (client_to_backend_ g)) (<[backend := conn]> (backend_to_client_ g)) g,
            [Connect conn host port])
       end.

Definition connect_backend (conn : Z) (answer : option Z) (g : gateway) : option Z * gateway * list effect :=
  let '((host, port), g) := choose_backend conn g in do_connect conn host port answer g.

Definition unavailable (msg : Message) : Message := mkMessage (cmd msg) (lit "gateway: backend unavailable").

Definition forward (conn : Z) (msg : Message) (answer : option Z) (g : gateway) : gateway * list effect :=
  match client_to_backend_ g !! conn with
  | Some backend => (g, [ToBackend backend (serialize e msg)])
  | None =>
      let '(found, g, out) := connect_backend conn answer g in
      match found with
      | None => (g, out ++ [ToClient conn (serialize e (unavailable msg))])
      | Some backend => (g, out ++ [ToBackend backend (serialize e msg)])
      end
  end.

Definition on_backend_message (backend : Z) (data : list byte) (g : gateway) : gateway * list effect :=
  match backend_to_client_ g !! backend with
  | Some conn => (g, [ToClient conn data])
  | None => (g, [])
  end.

Definition on_backend_close (backend : Z) (g : gateway) : gateway * list effect :=
  match backend_to_client_ g !! backend with
  | Some conn => (with_tables (delete conn (client_to_backend_ g)) (delete backend (backend_to_client_ g)) g, [])
  | None => (g, [])
  end.

Inductive event :=
| Forward (client : Z) (msg : Message) (answer : option Z)
| Disconnect (client : Z)
| BackendMessage (backend : Z) (data : list byte)
| BackendClose (backend : Z).

Definition handle (ev : event) (g : gateway) : gateway * list effect :=
  match ev with
  | Forward c m answer => forward c m answer g
  | Disconnect c => on_disconnect c g
  | BackendMessage b data => on_backend_message b data g
  | BackendClose b => on_backend_close b g
  end.

Fixpoint run (evs : list event) (g : gateway) : gateway * list effect :=
  match evs with
  | [] => (g, [])
  | ev :: evs' => let '(g1, out1) := handle ev g in let '(g2, out2) := run evs' g1 in (g2, out1 ++ out2)
  end.

(** A new connection's address is not that of one alive: the tables own the
    backends' connections. *)
Definition fresh (ev : event) (g : gateway) : Prop :=
  match ev with Forward _ _ (Some b) => forall c, client_to_backend_ g !! c <> Some b | _ => True end.

Fixpoint fresh_run (evs : list event) (g : gateway) : Prop :=
  match evs with [] => True | ev :: evs' => fresh ev g /\ fresh_run evs' (handle ev g).1 end.

(** ** The tables *)

(** The tables are each other's inverse. *)
Definition tables_ok (g : gateway) : Prop := forall c b, client_to_backend_ g !! c = Some b <-> backend_to_client_ g !! b = Some c.

Lemma load_tables g : client_to_backend_ (load_registry g) = client_to_backend_ g /\ backend_to_client_ (load_registry g) = backend_to_client_ g.
Proof. unfold load_registry. by destruct (registry_loaded_ g). Qed.

Lemma choose_tables c g : client_to_backend_ (choose_backend c g).2 = client_to_backend_ g /\
  backend_to_client_ (choose_backend c g).2 = backend_to_client_ g.
Proof.
  unfold choose_backend. case_bool_decide; [done|]. pose proof (load_tables g). by destruct (Cluster.Registry.select_node_by_hash _ _ _).
Qed.

(** What an attempt to connect comes to. *)
Lemma connect_backend_spec c answer g found g' out : connect_backend c answer g = (found, g', out) ->
  (found = None /\ client_to_backend_ g' = client_to_backend_ g /\ backend_to_client_ g' = backend_to_client_ g \/
   exists b, found = Some b /\ answer = Some b /\ client_to_backend_ g' = <[c := b]> (client_to_backend_ g) /\
     backend_to_client_ g' = <[b := c]> (backend_to_client_ g)) /\
  (out = [] \/ out = [Connect c (choose_backend c g).1.1 (choose_backend c g).1.2]).
Proof.
  unfold connect_backend. pose proof (choose_tables c g) as [H1 H2]. destruct (choose_backend c g) as [[host port] g1]. cbn in *.
  unfold do_connect. destruct (_ || _); [intros [= <- <- <-]; auto|].
  destruct answer as [b|]; intros [= <- <- <-]; cbn; [|auto]. split; [right; exists b; by rewrite H1, H2|by right].
Qed.

Lemma delete_tables c b g : tables_ok g -> client_to_backend_ g !! c = Some b ->
  tables_ok (with_tables (delete c (client_to_backend_ g)) (delete b (backend_to_client_ g)) g).
Proof.
  intros Hg Hc c' b'. cbn. destruct (decide (c' = c)) as [->|Hne].
  - rewrite lookup_delete_eq. split; [done|]. intros [Hb Hb']%lookup_delete_Some. apply Hg in Hb'. congruence.
  - rewrite lookup_delete_ne by done. rewrite lookup_delete_Some, (Hg c' b' : _ <-> _). split; [|naive_solver].
    intros Hb. split; [|done]. intros <-. apply (proj1 (Hg _ _)) in Hc. congruence.
Qed.

Lemma handle_tables ev g : tables_ok g -> fresh ev g -> tables_ok (handle ev g).1.
Proof.
  intros Hg Hf. destruct ev as [c m answer|c|b data|b]; cbn.
  - unfold forward. destruct (client_to_backend_ g !! c) as [b|] eqn:Hc; [done|].
    destruct (connect_backend c answer g) as [[found g1] out] eqn:E. apply connect_backend_spec in E as [[(-> & H1 & H2)|(b & -> & -> & H1 & H2)] _].
    + intros c' b'. cbn. by rewrite H1, H2.
    + cbn in *. intros c' b'. rewrite H1, H2. rewrite !lookup_insert_Some, (Hg c' b' : _ <-> _). 
      split; intros [[-> ->]|[Hne Hb]]; auto; right; split; try done.
      * intros ->. apply Hg in Hb. by apply Hf in Hb.
      * intros ->. apply Hg in Hb. congruence.
  - unfold on_disconnect. destruct (client_to_backend_ g !! c) as [b|] eqn:Hc; [|done]. by apply delete_tables.
  - unfold on_backend_message. by destruct (backend_to_client_ g !! b).
  - unfold on_backend_close. destruct (backend_to_client_ g !! b) as [c|] eqn:Hb; [|done]. apply delete_tables; [done|by apply Hg].
Qed.

Lemma run_tables evs g : tables_ok g -> fresh_run evs g -> tables_ok (run evs g).1.
Proof.
  revert g. induction evs as [|ev evs IH]; intros g Hg Hf; [done|]. destruct Hf as [Hf Hfs]. cbn.
  pose proof (handle_tables ev g Hg Hf). destruct (handle ev g) as [g1 o1]. cbn in *. specialize (IH g1 H Hfs). by destruct (run evs g1).
Qed.

Lemma initial_tables g : client_to_backend_ g = ∅ -> backend_to_client_ g = ∅ -> tables_ok g.
Proof. intros H1 H2 c b. by rewrite H1, H2, !lookup_empty. Qed.
(** ** Relaying *)

Definition to_backend (b : Z) (out : list effect) : list byte :=
  out ≫= fun x => match x with ToBackend b' data => if decide (b' = b) then data else [] | _ => [] end.
Definition to_client (c : Z) (out : list effect) : list byte :=
  out ≫= fun x => match x with ToClient c' data => if decide (c' = c) then data else [] | _ => [] end.

(** The messages a client has forwarded, and the bytes a backend has sent. *)
Definition forwarded (c : Z) (evs : list event) : list Message :=
  evs ≫= fun ev => match ev with Forward c' m _ => if decide (c' = c) then [m] else [] | _ => [] end.
Definition received (b : Z) (evs : list event) : list byte :=
  evs ≫= fun ev => match ev with BackendMessage b' data => if decide (b' = b) then data else [] | _ => [] end.

Definition ends (c b : Z) (ev : event) : bool :=
  match ev with Disconnect c' => bool_decide (c' = c) | BackendClose b' => bool_decide (b' = b) | _ => false end.

(** The session of a client [c] with its backend [b] goes on, and [out] relays [ms] and [data] in it. *)
Definition relays (c b : Z) (ms : list Message) (data : list byte) (r : gateway * list effect) : Prop :=
  client_to_backend_ r.1 !! c = Some b /\ to_backend b r.2 = concat (map (serialize e) ms) /\ to_client c r.2 = data.

Lemma backends_differ g c c' b b' : tables_ok g -> client_to_backend_ g !! c = Some b -> client_to_backend_ g !! c' = Some b' ->
  c' <> c -> b' <> b.
Proof. intros Hg Hc Hc' Hne ->. apply (proj1 (Hg _ _)) in Hc, Hc'. congruence. Qed.

Lemma relay_forward c b c' m answer g : tables_ok g -> fresh (Forward c' m answer) g -> client_to_backend_ g !! c = Some b ->
  relays c b (forwarded c [Forward c' m answer]) [] (forward c' m answer g).
Proof.
  intros Hg Hf Hc. unfold forwarded, forward, relays. cbn. destruct (decide (c' = c)) as [->|Hne].
  { rewrite Hc. unfold to_backend. cbn. by rewrite decide_True by done. }
  destruct (client_to_backend_ g !! c') as [b'|] eqn:Hc'.
  { unfold to_backend. cbn. by rewrite decide_False by exact (backends_differ g c c' b b' Hg Hc Hc' Hne). }
  destruct (connect_backend c' answer g) as [[found g1] out] eqn:E.
  apply connect_backend_spec in E as [[(-> & H1 & H2)|(b' & -> & -> & H1 & H2)] [-> | ->]];
    unfold to_backend, to_client; cbn; rewrite H1, ?lookup_insert_ne by done; split_and!; try done;
    rewrite decide_False; try done; intros ->; exact (Hf _ Hc).
Qed.

Lemma relay_step c b ev g : tables_ok g -> fresh ev g -> client_to_backend_ g !! c = Some b -> ends c b ev = false ->
  relays c b (forwarded c [ev]) (received b [ev]) (handle ev g).
Proof.
  intros Hg Hf Hc He. destruct ev as [c' m answer|c'|b' data|b']; cbn in He.
  - by apply relay_forward.
  - apply bool_decide_eq_false in He. unfold handle, on_disconnect, relays. destruct (client_to_backend_ g !! c'); [|done].
    cbn. by rewrite lookup_delete_ne.
  - unfold handle, on_backend_message, relays, received. cbn. pose proof (proj1 (Hg c b) Hc) as Hb. destruct (decide (b' = b)) as [->|Hne].
    { rewrite Hb. unfold to_client. cbn. by rewrite decide_True by done. }
    destruct (backend_to_client_ g !! b') as [c'|] eqn:Hb'; [|done]. unfold to_client. cbn.
    rewrite decide_False; [done|]. intros ->. apply (proj2 (Hg _ _)) in Hb'. congruence.
  - apply bool_decide_eq_false in He. unfold handle, on_backend_close, relays. destruct (backend_to_client_ g !! b') as [c'|] eqn:Hb'; [|done].
    cbn. apply (proj2 (Hg _ _)) in Hb'. by rewrite lookup_delete_ne by congruence.
Qed.

Lemma relay_run c b evs g : tables_ok g -> fresh_run evs g -> client_to_backend_ g !! c = Some b ->
  Forall (fun ev => ends c b ev = false) evs -> relays c b (forwarded c evs) (received b evs) (run evs g).
Proof.
  intros Hg Hf Hc He. revert g Hg Hf Hc. induction He as [|ev evs He _ IH]; intros g Hg Hf Hc; [done|].
  destruct Hf as [Hf Hfs]. pose proof (relay_step c b ev g Hg Hf Hc He) as (Hc1 & Hb1 & Hd1).
  pose proof (handle_tables ev g Hg Hf) as Hg1. cbn [run]. destruct (handle ev g) as [g1 o1]. cbn in Hg1, Hfs, Hc1, Hb1, Hd1.
  destruct (IH g1 Hg1 Hfs Hc1) as (Hc2 & Hb2 & Hd2). destruct (run evs g1) as [g2 o2]. cbn in *. split; [done|].
  unfold to_backend, to_client, forwarded, received in *. cbn. rewrite !bind_app. cbn in Hb2, Hd2. cbn. rewrite Hb2, Hd2, Hb1, Hd1.
  rewrite !app_nil_r. split; [by rewrite map_app, concat_app|done].
Qed.

(** C17: Whatever has happened before and whatever the other clients and backends do,
    as long as neither end of a client's session goes away its backend, however the
    bytes are cut on the way, parses exactly the messages the client forwarded, in
    order, and the client is sent exactly the bytes its backend sent. *)
Theorem relay_exact before evs g0 g out0 g' out c b chunks :
  client_to_backend_ g0 = ∅ -> backend_to_client_ g0 = ∅ ->
  run before g0 = (g, out0) -> fresh_run before g0 -> client_to_backend_ g !! c = Some b ->
  run evs g = (g', out) -> fresh_run evs g -> Forall (fun ev => ends c b ev = false) evs ->
  Forall (fun m => Message_wf m /\ Z.of_nat (length (body m)) < 65536) (forwarded c evs) ->
  concat chunks = to_backend b out -> fits (concat chunks) ->
  client_to_backend_ g' !! c = Some b /\ to_client c out = received b evs /\
  exists p, feed_all (Parser.feed_step e) chunks decoder_init = Ok (forwarded c evs, p) /\ pending p = [].
Proof.
  intros H1 H2 Hr0 Hf0 Hc Hr Hf He Hms Hch Hfit. pose proof (run_tables before g0 (initial_tables g0 H1 H2) Hf0) as Hg. rewrite Hr0 in Hg. cbn [fst] in Hg.
  pose proof (relay_run c b evs g Hg Hf Hc He) as (Hc' & Hb & Hd). rewrite Hr in Hc', Hb, Hd. cbn [fst snd] in Hc', Hb, Hd. split; [done|]. split; [done|].
  apply (feed_frames _ (forwarded c evs) (map (serialize e) (forwarded c evs))); [|by rewrite Hch, Hb|by rewrite <- Hb, <- Hch].
  clear -Hms. induction Hms as [|m ms [Hm Hl] _ IH]; constructor; [|done]. by apply Parser.serialize_frames.
Qed.

(** ** The choice of a backend *)

Definition address (c : Z) (g : gateway) : str * Z := (choose_backend c g).1.

Lemma load_fields g : backend_host_ (load_registry g) = backend_host_ g /\ backend_port_ (load_registry g) = backend_port_ g /\
  backend_node_type_ (load_registry g) = backend_node_type_ g.
Proof. unfold load_registry. by destruct (registry_loaded_ g). Qed.

Lemma same_choice c g g' : backend_host_ g' = backend_host_ g -> backend_port_ g' = backend_port_ g ->
  backend_node_type_ g' = backend_node_type_ g -> registry_ (load_registry g') = registry_ (load_registry g) -> address c g' = address c g.
Proof.
  intros H1 H2 H3 H4. unfold address, choose_backend. rewrite H3. case_bool_decide; [by cbn; rewrite H1, H2|].
  cbv zeta. destruct (load_fields g) as (-> & -> & ->), (load_fields g') as (-> & -> & ->). rewrite H1, H2, H3, H4.
  by destruct (Cluster.Registry.select_node_by_hash _ _ _).
Qed.

Definition same_backends (g g' : gateway) : Prop :=
  backend_host_ g' = backend_host_ g /\ backend_port_ g' = backend_port_ g /\
  backend_node_type_ g' = backend_node_type_ g /\ registry_ (load_registry g') = registry_ (load_registry g).

Lemma choose_same c g : same_backends g (choose_backend c g).2.
Proof.
  unfold choose_backend. case_bool_decide; [done|]. cbv zeta. unfold same_backends.
  destruct (Cluster.Registry.select_node_by_hash _ _ _); cbn; unfold load_registry; by destruct (registry_loaded_ g) eqn:Hl; cbn; rewrite ?Hl.
Qed.

Lemma tables_same cb bc g : same_backends g (with_tables cb bc g).
Proof. unfold same_backends, load_registry. by cbn; destruct (registry_loaded_ g). Qed.

Lemma same_trans g1 g2 g3 : same_backends g1 g2 -> same_backends g2 g3 -> same_backends g1 g3.
Proof. unfold same_backends. naive_solver congruence. Qed.

Lemma connect_same c answer g : same_backends g (connect_backend c answer g).1.2.
Proof.
  unfold connect_backend. pose proof (choose_same c g) as H. destruct (choose_backend c g) as [[host port] g1]. cbn in H |- *.
  unfold do_connect. destruct (_ || _); [done|]. destruct answer; [|done]. cbn. eapply same_trans; [exact H|apply tables_same].
Qed.

Lemma handle_same ev g : same_backends g (handle ev g).1 /\
  forall c h p, Connect c h p ∈ (handle ev g).2 -> (h, p) = address c g.
Proof.
  assert (same_backends g g) as Hrefl by done. destruct ev as [c m answer|c|b data|b]; cbn.
  - unfold forward. destruct (client_to_backend_ g !! c); [split; [done|]; intros ? ? ? ?%list_elem_of_singleton; done|].
    pose proof (connect_same c answer g) as Hs. destruct (connect_backend c answer g) as [[found g1] out] eqn:E.
    apply connect_backend_spec in E as [_ Ho]. cbn in Hs.
    assert (forall x c' h p, x <> Connect c' h p -> Connect c' h p ∈ out ++ [x] -> (h, p) = address c' g) as Hx.
    { intros x c' h p Hne. destruct Ho as [-> | ->]; cbn; rewrite ?elem_of_cons, elem_of_nil.
      - naive_solver.
      - intros [[= -> -> ->]|[?|[]]]; [|congruence]. unfold address. by destruct (choose_backend c g).1. }
    destruct found; cbn; (split; [done|]); intros c' h p; by apply Hx.
  - unfold on_disconnect. destruct (client_to_backend_ g !! c); cbn; (split; [try apply tables_same; done|]).
    + by intros ? ? ? ?%list_elem_of_singleton.
    + by intros ? ? ? ?%elem_of_nil.
  - unfold on_backend_message. destruct (backend_to_client_ g !! b); cbn; (split; [done|]).
    + by intros ? ? ? ?%list_elem_of_singleton.
    + by intros ? ? ? ?%elem_of_nil.
  - unfold on_backend_close. destruct (backend_to_client_ g !! b); cbn; (split; [try apply tables_same; done|]);
      by intros ? ? ? ?%elem_of_nil.
Qed.

Lemma run_connects evs g c h p : Connect c h p ∈ (run evs g).2 -> (h, p) = address c g.
Proof.
  revert g. induction evs as [|ev evs IH]; intros g; [by intros ?%elem_of_nil|]. cbn [run].
  pose proof (handle_same ev g) as [(H1 & H2 & H3 & H4) Hc]. destruct (handle ev g) as [g1 o1]. cbn in *.
  specialize (IH g1). destruct (run evs g1) as [g2 o2]. cbn in *. intros [Hin|Hin]%elem_of_app; [by apply Hc|].
  rewrite (IH Hin). by apply same_choice.
Qed.

(** Every attempt to connect for a client goes to one and the same address,
    whatever happens in between: a client whose backend has died is never moved to
    another node. *)
Theorem dead_backend_chosen_again evs g c h p h' p' :
  Connect c h p ∈ (run evs g).2 -> Connect c h' p' ∈ (run evs g).2 -> h' = h /\ p' = p.
Proof. intros H1%run_connects H2%run_connects. rewrite <- H1 in H2. by injection H2. Qed.
End Program.

(** ** Examples *)

#[local] Instance demo_sort : ConsistentHash.RingSort := ConsistentHash.merge_ring_sort.

Definition demo_config : option (list Cluster.Registry.yaml_entry) :=
  Some [Cluster.Registry.mkEntry (Some (lit "n1")) (Some (lit "10.0.0.1")) (Some 9000) (Some (lit "logic"));
        Cluster.Registry.mkEntry (Some (lit "n2")) (Some (lit "10.0.0.2")) (Some 9000) (Some (lit "logic"))].

(** A client whose backend dies, and who forwards again. *)
Definition demo_death : list event :=
  [Forward 1 (mkMessage 2 (lit "a")) (Some 100); BackendClose 100; Forward 1 (mkMessage 2 (lit "b")) (Some 101)].
Definition demo_typed : gateway := GatewayForwarder_of_type (lit "logic").

Lemma dead_backend_chosen_again_witness :
  Connect 1 (lit "10.0.0.1") 9000 ∈ (run Little demo_config demo_death demo_typed).2 /\
  forall h p, Connect 1 h p ∈ (run Little demo_config demo_death demo_typed).2 -> h = lit "10.0.0.1" /\ p = 9000.
Proof.
  assert (Connect 1 (lit "10.0.0.1") 9000 ∈ (run Little demo_config demo_death demo_typed).2) as H by (vm_compute; left).
  split; [exact H|]. intros h p. exact (dead_backend_chosen_again Little demo_config demo_death demo_typed 1 _ _ h p H).
Defined.

Definition demo_gateway : gateway := GatewayForwarder (lit "10.0.0.9") 9000.
Definition demo_before : list event := [Forward 1 (mkMessage 2 (lit "hi")) (Some 100)].
Definition demo_events : list event :=
  [Forward 1 (mkMessage 2 (lit "one")) None; Forward 2 (mkMessage 2 (lit "x")) (Some 101); BackendMessage 100 (lit "re");
   BackendMessage 101 (lit "no"); Disconnect 2; Forward 1 (mkMessage 3 (lit "two")) None; BackendMessage 100 (lit "ply")].

Lemma unused (m : gmap Z Z) b : bool_decide (map_Forall (fun _ b' => b' <> b) m) = true -> forall c, m !! c <> Some b.
Proof. intros H%bool_decide_eq_true c Hc. exact (H c b Hc eq_refl). Qed.

Lemma relay_exact_witness :
  let g := (run Little None demo_before demo_gateway).1 in
  let out := (run Little None demo_events g).2 in
  to_client 1 out = lit "reply" /\
  exists p, feed_all (Parser.feed_step Little) [to_backend 100 out] decoder_init =
    Ok ([mkMessage 2 (lit "one"); mkMessage 3 (lit "two")], p) /\ pending p = [].
Proof.
  intros g out.
  destruct (relay_exact Little None demo_before demo_events demo_gateway g (run Little None demo_before demo_gateway).2
    (run Little None demo_events g).1 out 1 100 [to_backend 100 out]) as (_ & H1 & H2).
  - reflexivity.
  - reflexivity.
  - apply surjective_pairing.
  - split; [|exact I]. refine (unused _ 100 _). reflexivity.
  - vm_compute. reflexivity.
  - apply surjective_pairing.
  - cbn. repeat split. refine (unused _ 101 _). vm_compute. reflexivity.
  - repeat constructor.
  - repeat (constructor; [split; [split; [discriminate|reflexivity]|reflexivity]|]). constructor.
  - cbn [concat]. apply app_nil_r.
  - unfold fits. vm_compute. reflexivity.
  - split; [exact H1|exact H2].
Defined.
