(* ===== verification/Rpc.v ===== *)
(** * Rpc: src/rpc/rpc_client.cpp and rpc_server.cpp

    The client's table of pending calls, with the circuit breaker of
    CircuitBreaker.v and a limiter of RateLimiter.v in front, and the server's
    dispatch.  Both ends give the bytes they keep to a fresh parser at each read.
    A callback is a number; what it does to the client is a later step.  Times are
    nanoseconds of the steady clock. *)

From S2P Require Import Prelude.
From S2P Require Import Numeric.
From S2P Require Import Framing.
From S2P Require Import Protocol.
From S2P Require Import Wire.
From S2P Require Import Effects.
From S2P Require CircuitBreaker.
From S2P Require RateLimiter.
Import Endian Message.

(** ** Bodies *)

Section Body.
Context (e : endianness).

(** [htonl] and [ntohl] are [host_to_net32] and [net_to_host32]. *)
Definition encode_rpc_body (request_id : Z) (payload : list byte) : list byte :=
  mem32 e (host_to_net32 e request_id) ++ payload.

Definition decode_rpc_body (b : list byte) : option (Z * list byte) :=
  if (length b <? 4)%nat then None else Some (net_to_host32 e (load32 e b 0), drop 4 b).

(** [Parser().feed(buffer)]. *)
Definition parse_all (buffer : list byte) : outcome (list Message) :=
  '(msgs, _) ←o Parser.feed e buffer decoder_init; Ok msgs.

(** The bytes of the messages parsed, dropped from the buffer. *)
Definition consumed (msgs : list Message) : nat := sum_list_with (fun m => 4 + length (body m))%nat msgs.
Definition drop_consumed (msgs : list Message) (buffer : list byte) : list byte :=
  if (consumed msgs <=? length buffer)%nat then drop (consumed msgs) buffer else buffer.
End Body.

(** ** The client *)

Record PendingRequest := mkPending { callback : option Z; deadline : Z }.

Record client (L : Type) := mkClient {
  connected : bool;
  next_request_id_ : Z;
  default_timeout_seconds_ : Z;
  pending_requests_ : gmap Z PendingRequest;
  cleanup_thread_ : bool;  (* joinable *)
  recv_buffer_ : list byte;
  circuit_breaker_ : option CircuitBreaker.breaker;
  rate_limiter_ : option L
}.
Arguments mkClient {L} _ _ _ _ _ _ _ _.
Arguments connected {L} _.
Arguments next_request_id_ {L} _.
Arguments default_timeout_seconds_ {L} _.
Arguments pending_requests_ {L} _.
Arguments cleanup_thread_ {L} _.
Arguments recv_buffer_ {L} _.
Arguments circuit_breaker_ {L} _.
Arguments rate_limiter_ {L} _.

Inductive effect :=
| Send (data : list byte)
| Called (cb : Z) (ok : bool) (response : Message).

Definition invoke (cb : option Z) (ok : bool) (response : Message) : list effect :=
  match cb with Some f => [Called f ok response] | None => [] end.

Section Client.
Context {L : Type} `{RL : RateLimiter.RateLimiter L} {IO : IterOrder Z} (e : endianness).

Definition RpcClient (default_timeout : Z) (cb : option CircuitBreaker.breaker) (rl : option L) : client L :=
  mkClient false 1 default_timeout ∅ false [] cb rl.

Definition with_connected (b : bool) (c : client L) : client L :=
  mkClient b (next_request_id_ c) (default_timeout_seconds_ c) (pending_requests_ c) (cleanup_thread_ c) (recv_buffer_ c)
    (circuit_breaker_ c) (rate_limiter_ c).
Definition with_pending (p : gmap Z PendingRequest) (c : client L) : client L :=
  mkClient (connected c) (next_request_id_ c) (default_timeout_seconds_ c) p (cleanup_thread_ c) (recv_buffer_ c)
    (circuit_breaker_ c) (rate_limiter_ c).
Definition with_cleanup (b : bool) (c : client L) : client L :=
  mkClient (connected c) (next_request_id_ c) (default_timeout_seconds_ c) (pending_requests_ c) b (recv_buffer_ c)
    (circuit_breaker_ c) (rate_limiter_ c).
Definition with_buffer (b : list byte) (c : client L) : client L :=
  mkClient (connected c) (next_request_id_ c) (default_timeout_seconds_ c) (pending_requests_ c) (cleanup_thread_ c) b
    (circuit_breaker_ c) (rate_limiter_ c).
Definition with_breaker (b : option CircuitBreaker.breaker) (c : client L) : client L :=
  mkClient (connected c) (next_request_id_ c) (default_timeout_seconds_ c) (pending_requests_ c) (cleanup_thread_ c) (recv_buffer_ c)
    b (rate_limiter_ c).
Definition with_limiter (l : option L) (c : client L) : client L :=
  mkClient (connected c) (next_request_id_ c) (default_timeout_seconds_ c) (pending_requests_ c) (cleanup_thread_ c) (recv_buffer_ c)
    (circuit_breaker_ c) l.
Definition add_request (id : Z) (r : PendingRequest) (c : client L) : client L :=
  mkClient (connected c) (u32 (id + 1)) (default_timeout_seconds_ c) (<[id := r]> (pending_requests_ c)) (cleanup_thread_ c)
    (recv_buffer_ c) (circuit_breaker_ c) (rate_limiter_ c).

(** [connect], once the network has answered: starting the cleaning thread while
    the last one has not been joined terminates the program. *)
Definition connect (c : client L) : option (client L) :=
  if cleanup_thread_ c then None else Some (with_cleanup true (with_connected true c)).

(** Every pending call fails, in the table's order. *)
Definition fail_all (c : client L) : list effect := p ← iter (pending_requests_ c); invoke (callback p.2) false Message_default.

Definition disconnect (c : client L) : client L * list effect :=
  (with_pending ∅ (with_connected false (with_cleanup false c)), fail_all c).

Definition on_disconnect (c : client L) : client L * list effect :=
  (with_connected false (with_pending ∅ c), fail_all c).

Definition breaker_open (c : client L) : bool :=
  match circuit_breaker_ c with
  | Some b => match CircuitBreaker.get_state b with CircuitBreaker.OPEN => true | _ => false end
  | None => false
  end.

(** The limiter's part of [call]: whether to go on. *)
Definition pass_limiter (check_readings consume_readings : list Z) (c : client L) : option (bool * client L) :=
  match rate_limiter_ c with
  | None => Some (true, c)
  | Some l =>
      '(rsp, l1) ← RateLimiter.rl_step (RateLimiter.ReqCheck "rpc" check_readings) l;
      let allowed := match rsp with RateLimiter.RspResult r => RateLimiter.allowed r | _ => false end in
      if negb allowed then Some (false, with_limiter (Some l1) c)
      else
        '(_, l2) ← RateLimiter.rl_step (RateLimiter.ReqConsume "rpc" 1 consume_readings) l1;
        Some (true, with_limiter (Some l2) c)
  end.

Definition call (cmd : Z) (request_data : list byte) (cb : option Z) (timeout_seconds : Z) (now : Z)
    (check_readings consume_readings : list Z) (c : client L) : option (client L * list effect) :=
  if negb (connected c) then Some (c, invoke cb false Message_default)
  else if breaker_open c then Some (c, invoke cb false Message_default)
  else
    '(allowed, c) ← pass_limiter check_readings consume_readings c;
    if negb (allowed : bool) then Some (c, invoke cb false Message_default)
    else
      let request_id := next_request_id_ c in
      let effective_timeout := if timeout_seconds <? 0 then default_timeout_seconds_ c else timeout_seconds in
      Some (add_request request_id (mkPending cb (now + effective_timeout * 10 ^ 9)) c,
            [Send (serialize e (mkMessage cmd (encode_rpc_body e request_id request_data)))]).

(** One message of the loop of [on_message]. *)
Definition deliver (msg : Message) (c : client L) : client L * list effect :=
  match decode_rpc_body e (body msg) with
  | None => (c, [])
  | Some (request_id, payload) =>
      match pending_requests_ c !! request_id with
      | None => (c, [])
      | Some req =>
          (with_pending (delete request_id (pending_requests_ c)) c, invoke (callback req) true (mkMessage (cmd msg) payload))
      end
  end.

Fixpoint deliver_all (msgs : list Message) (c : client L) : client L * list effect :=
  match msgs with
  | [] => (c, [])
  | m :: ms => let '(c1, out1) := deliver m c in let '(c2, out2) := deliver_all ms c1 in (c2, out1 ++ out2)
  end.

Definition on_message (data : list byte) (c : client L) : outcome (client L * list effect) :=
  let buffer := recv_buffer_ c ++ data in
  msgs ←o parse_all e buffer;
  Ok (deliver_all msgs (with_buffer (drop_consumed msgs buffer) c)).

(** The breaker's part of an expired call. *)
Definition report_timeout (t0 t1 now : Z) (c : client L) : client L :=
  match circuit_breaker_ c with
  | Some b => with_breaker (Some (CircuitBreaker.execute (fun b => (CircuitBreaker.Throws "rpc timeout", b)) t0 t1 now b).2) c
  | None => c
  end.

(** [cleanup_expired_requests]; [readings] are the breaker's of each expired call. *)
Definition expired (now : Z) (c : client L) : list (Z * PendingRequest) :=
  filter (fun p => deadline p.2 <= now) (iter (pending_requests_ c)).

Fixpoint fail_expired (l : list (Z * PendingRequest)) (readings : nat -> Z * Z * Z) (c : client L) : client L * list effect :=
  match l with
  | [] => (c, [])
  | p :: l' =>
      let '(t0, t1, now) := readings 0%nat in
      let c1 := report_timeout t0 t1 now c in
      let '(c2, out) := fail_expired l' (fun n => readings (S n)) c1 in
      (c2, invoke (callback p.2) false Message_default ++ out)
  end.

Definition cleanup_expired_requests (now : Z) (readings : nat -> Z * Z * Z) (c : client L) : client L * list effect :=
  let gone := expired now c in
  fail_expired gone readings (with_pending (filter (fun p => ~ deadline p.2 <= now) (pending_requests_ c)) c).
End Client.

(** ** The server *)

(** What a handler does to its application's state, its reply or an exception. *)
Inductive reply := Replies (response : list byte) | Throws (what : list byte).
Definition handler (X : Type) : Type := list byte -> X -> reply * X.

Record server (X : Type) := mkServer {
  methods_ : gmap Z (handler X);
  buffers_ : gmap Z (list byte);
  total_requests_ : Z;
  active_connections_ : Z
}.
Arguments mkServer {X} _ _ _ _.
Arguments methods_ {X} _.
Arguments buffers_ {X} _.
Arguments total_requests_ {X} _.
Arguments active_connections_ {X} _.

Section Server.
Context {X : Type} (e : endianness).

Definition RpcServer : server X := mkServer ∅ ∅ 0 0.

Definition register_method (method_id : Z) (h : handler X) (s : server X) : server X :=
  mkServer (<[method_id := h]> (methods_ s)) (buffers_ s) (total_requests_ s) (active_connections_ s).
Definition unregister_method (method_id : Z) (s : server X) : server X :=
  mkServer (delete method_id (methods_ s)) (buffers_ s) (total_requests_ s) (active_connections_ s).
Definition handle_connect (s : server X) : server X :=
  mkServer (methods_ s) (buffers_ s) (total_requests_ s) (i32 (active_connections_ s + 1)).
Definition handle_disconnect (conn : Z) (s : server X) : server X :=
  mkServer (methods_ s) (delete conn (buffers_ s)) (total_requests_ s) (i32 (active_connections_ s - 1)).
Definition with_conn_buffer (conn : Z) (b : list byte) (s : server X) : server X :=
  mkServer (methods_ s) (<[conn := b]> (buffers_ s)) (total_requests_ s) (active_connections_ s).
Definition count_request (s : server X) : server X :=
  mkServer (methods_ s) (buffers_ s) (i32 (total_requests_ s + 1)) (active_connections_ s).

(** The id in front of a body, and what the handler sees. *)
Definition split_body (b : list byte) : list byte * list byte :=
  if (4 <=? length b)%nat then (take 4 b, drop 4 b) else ([], b).

Definition handle_request (msg : Message) (s : server X) (x : X) : Message * X :=
  let '(request_id_prefix, handler_body) := split_body (body msg) in
  match methods_ s !! cmd msg with
  | Some h =>
      let '(r, x') := h handler_body x in
      (mkMessage (cmd msg) (request_id_prefix ++ match r with Replies response => response | Throws what => what end), x')
  | None => (mkMessage (cmd msg) request_id_prefix, x)
  end.

(** The loop over the messages, with the bytes sent. *)
Fixpoint handle_requests (msgs : list Message) (s : server X) (x : X) : server X * X * list byte :=
  match msgs with
  | [] => (s, x, [])
  | m :: ms =>
      let s1 := count_request s in
      let '(r, x1) := handle_request m s1 x in
      let '(s2, x2, out) := handle_requests ms s1 x1 in
      (s2, x2, serialize e r ++ out)
  end.

Definition handle_message (conn : Z) (data : list byte) (s : server X) (x : X) : outcome (server X * X * list byte) :=
  let buffer := default [] (buffers_ s !! conn) ++ data in
  msgs ←o parse_all e buffer;
  let '(s1, x1, out) := handle_requests msgs (with_conn_buffer conn buffer s) x in
  Ok (match msgs with [] => s1 | _ => with_conn_buffer conn (drop_consumed msgs (default [] (buffers_ s1 !! conn))) s1 end, x1, out).
End Server.
