(* ===== verification/RpcFacts.v ===== *)
(** * RpcFacts: calls and their answers, end to end *)

From Stdlib Require Import Strings.Byte.
From S2P Require Import Prelude.
From S2P Require Import Numeric.
From S2P Require Import Framing.
From S2P Require Import Protocol.
From S2P Require Import Wire.
From S2P Require Import Effects.
From S2P Require CircuitBreaker.
From S2P Require RateLimiter.
From S2P Require Import Rpc.
Import Endian Message Parser.

(** ** Streams kept and parsed again at each read *)

Section Streams.
Context (e : endianness).

Lemma feed_step_size b m n : feed_step e b 0 = Emit m n -> n = (4 + length (body m))%nat.
Proof.
  unfold feed_step. cbv zeta. case_tests; try done. intros [= <- <-]. cbn [body].
  rewrite length_take, length_drop. rewrite ?Nat.sub_0_r, ?Nat.add_0_l in *. pose proof (load16_net_range e b 2). lia.
Qed.

Lemma feed_step_total b : feed_step e b 0 <> Overrun.
Proof. unfold feed_step. cbv zeta. by case_tests. Qed.

(** The bytes of the messages are all that was parsed. *)
Lemma parses_consumed b : fits b -> exists ms r, parses (feed_step e) b = Ok (ms, r) /\
  r = drop (consumed ms) b /\ (consumed ms <= length b)%nat.
Proof.
  remember (length b) as len eqn:Hlen. revert b Hlen. induction (lt_wf len) as [len _ IH]; intros b -> Hf.
  pose proof (parses_step (feed_step e) b Hf) as Hs. destruct (feed_step e b 0) as [|m n|] eqn:E; rewrite Hs; clear Hs.
  - exists [], b. split; [done|]. cbn. split; [done|lia].
  - pose proof (next_bounds _ _ _ Hf E) as Hn. apply feed_step_size in E.
    destruct (IH (length (drop n b))) with (b := drop n b) as (ms & r & Hp & Hr & Hc); [rewrite length_drop; lia|done|by apply fits_drop|].
    rewrite Hp. cbn [obind]. exists (m :: ms), r. split; [done|]. unfold consumed in *. cbn [sum_list_with]. rewrite length_drop in Hc.
    split; [|lia]. rewrite Hr, drop_drop. f_equal. lia.
  - by apply feed_step_total in E.
Qed.

Lemma parse_all_spec b ms r : fits b -> parses (feed_step e) b = Ok (ms, r) -> parse_all e b = Ok ms /\ drop_consumed ms b = r.
Proof.
  intros Hf Hp. split.
  - unfold parse_all, feed. pose proof (feed_refines (feed_step e) b decoder_init) as H. cbn [pending decoder_init buffer_ head_ drop app] in H.
    specialize (H ltac:(unfold decoder_wf; cbn; lia) Hf). rewrite (Hp : parses _ b = _) in H. destruct (feed_with _ b decoder_init) as [[ms' d]| |]; [|done..].
    by destruct H as (-> & _).
  - destruct (parses_consumed b Hf) as (ms' & r' & Hp' & -> & Hc). rewrite Hp in Hp'. injection Hp' as -> ->.
    unfold drop_consumed. by rewrite (proj2 (Nat.leb_le _ _)).
Qed.
End Streams.

Section Runs.
Context (e : endianness).

Lemma parses_rest b ms r : fits b -> parses (feed_step e) b = Ok (ms, r) -> fits r /\ parses (feed_step e) r = Ok ([], r).
Proof.
  intros Hf Hp. destruct (parses_consumed e b Hf) as (ms' & r' & Hp' & Hr & _). rewrite Hp in Hp'. injection Hp' as -> ->.
  assert (fits r') as Hfr by (rewrite Hr; by apply fits_drop). split; [done|].
  pose proof (parses_step (feed_step e) r' Hfr) as Hs. rewrite Hs. by rewrite (parses_rest_wait _ _ _ _ Hf Hp).
Qed.

(** A read parses the bytes kept and the new ones, and keeps the rest. *)
Lemma parses_chunk b chunk rest ms r : fits (b ++ chunk ++ rest) -> parses (feed_step e) (b ++ chunk ++ rest) = Ok (ms, r) ->
  exists ms1 r1 ms2, parses (feed_step e) (b ++ chunk) = Ok (ms1, r1) /\ parses (feed_step e) (r1 ++ rest) = Ok (ms2, r) /\
    ms = ms1 ++ ms2 /\ fits (r1 ++ rest) /\ parses (feed_step e) r1 = Ok ([], r1).
Proof.
  intros Hf Hp. rewrite app_assoc in Hf, Hp. pose proof (parses_app (feed_step e) (b ++ chunk) rest Hf) as Ha. rewrite Hp in Ha.
  pose proof (fits_app_l _ _ Hf) as Hf1. destruct (parses_consumed e (b ++ chunk) Hf1) as (ms1 & r1 & Hp1 & Hr1 & Hc1).
  rewrite Hp1 in Ha. cbn [obind] in Ha. destruct (parses (feed_step e) (r1 ++ rest)) as [[ms2 r2]| |] eqn:Hp2; [|done..].
  injection Ha as -> ->. exists ms1, r1, ms2. split_and!; try done; [|by eapply parses_rest].
  rewrite Hr1. unfold fits in *. rewrite !length_app in *. rewrite length_drop, length_app. lia.
Qed.

(** *** The client *)

Section ClientRun.
Context {L : Type}.

Fixpoint receive_all (chunks : list (list byte)) (c : client L) : outcome (client L * list effect) :=
  match chunks with
  | [] => Ok (c, [])
  | data :: chunks' =>
      '(c1, out1) ←o on_message e data c;
      '(c2, out2) ←o receive_all chunks' c1;
      Ok (c2, out1 ++ out2)
  end.

Lemma deliver_buffer m b (c : client L) : deliver e m (with_buffer b c) = (with_buffer b (deliver e m c).1, (deliver e m c).2).
Proof. unfold deliver. destruct (decode_rpc_body e (body m)) as [[id payload]|]; [|done]. cbn. by destruct (pending_requests_ c !! id). Qed.

Lemma deliver_all_buffer ms b (c : client L) : deliver_all e ms (with_buffer b c) = (with_buffer b (deliver_all e ms c).1, (deliver_all e ms c).2).
Proof.
  revert c. induction ms as [|m ms IH]; intros c; [done|]. cbn. rewrite deliver_buffer. destruct (deliver e m c) as [c1 o1]. cbn.
  rewrite IH. by destruct (deliver_all e ms c1).
Qed.

Lemma deliver_all_app ms1 ms2 (c : client L) : deliver_all e (ms1 ++ ms2) c =
  let '(c1, o1) := deliver_all e ms1 c in let '(c2, o2) := deliver_all e ms2 c1 in (c2, o1 ++ o2).
Proof.
  revert c. induction ms1 as [|m ms1 IH]; intros c; [cbn; by destruct (deliver_all e ms2 c)|]. cbn. destruct (deliver e m c) as [c1 o1].
  rewrite IH. destruct (deliver_all e ms1 c1) as [c2 o2]. destruct (deliver_all e ms2 c2) as [c3 o3]. by rewrite app_assoc.
Qed.

Lemma deliver_keeps_buffer ms (c : client L) : recv_buffer_ (deliver_all e ms c).1 = recv_buffer_ c.
Proof.
  revert c. induction ms as [|m ms IH]; intros c; [done|]. cbn. destruct (deliver e m c) as [c1 o1] eqn:E.
  specialize (IH c1). destruct (deliver_all e ms c1) as [c2 o2]. cbn in *. rewrite IH. unfold deliver in E.
  destruct (decode_rpc_body e (body m)) as [[id payload]|]; [|by injection E as <- <-].
  destruct (pending_requests_ c !! id); by injection E as <- <-.
Qed.

Lemma receive_all_spec chunks ms r : forall c : client L, parses (feed_step e) (recv_buffer_ c) = Ok ([], recv_buffer_ c) ->
  fits (recv_buffer_ c ++ concat chunks) -> parses (feed_step e) (recv_buffer_ c ++ concat chunks) = Ok (ms, r) ->
  receive_all chunks c = Ok (deliver_all e ms (with_buffer r c)).
Proof.
  revert ms. induction chunks as [|data chunks IH]; intros ms c Hi Hf Hp; cbn [receive_all concat] in *.
  - rewrite app_nil_r, Hi in Hp. injection Hp as <- <-. by destruct c.
  - destruct (parses_chunk _ _ _ _ _ Hf Hp) as (ms1 & r1 & ms2 & Hp1 & Hp2 & -> & Hf2 & Hi2).
    rewrite app_assoc in Hf. pose proof (fits_app_l _ _ Hf) as Hf1. destruct (parse_all_spec e _ _ _ Hf1 Hp1) as [Ha Hd].
    unfold on_message. rewrite Ha. cbn [obind]. rewrite Hd.
    pose proof (deliver_keeps_buffer ms1 (with_buffer r1 c)) as Hb. destruct (deliver_all e ms1 (with_buffer r1 c)) as [c1 o1] eqn:E.
    cbn in Hb. cbn [obind]. rewrite (IH ms2 c1) by (rewrite Hb; done). cbn [obind].
    rewrite deliver_all_buffer in E. destruct (deliver_all e ms1 c) as [c0 o0] eqn:E0. injection E as <- <-.
    rewrite !deliver_all_buffer, deliver_all_app, E0. by destruct (deliver_all e ms2 c0).
Qed.
End ClientRun.

(** *** The server *)

Section ServerRun.
Context {X : Type} (conn : Z).

Fixpoint serve_all (chunks : list (list byte)) (s : server X) (x : X) : outcome (server X * X * list byte) :=
  match chunks with
  | [] => Ok (s, x, [])
  | data :: chunks' =>
      '(s1, x1, out1) ←o handle_message e conn data s x;
      '(s2, x2, out2) ←o serve_all chunks' s1 x1;
      Ok (s2, x2, out1 ++ out2)
  end.

(** The answers to the messages, one after the other. *)
Fixpoint answers (ms : list Message) (s : server X) (x : X) : list Message * X :=
  match ms with
  | [] => ([], x)
  | m :: ms' => let '(r, x1) := handle_request m s x in let '(rs, x2) := answers ms' s x1 in (r :: rs, x2)
  end.

Lemma answers_methods ms s s' x : methods_ s' = methods_ s -> answers ms s' x = answers ms s x.
Proof.
  intros Hm. revert x. induction ms as [|m ms IH]; intros x; [done|]. cbn. unfold handle_request. rewrite Hm.
  destruct (split_body (body m)). destruct (methods_ s !! cmd m) as [h|]; [destruct (h _ x)|]; by rewrite IH.
Qed.

Lemma answers_app ms1 ms2 s x : answers (ms1 ++ ms2) s x =
  let '(rs1, x1) := answers ms1 s x in let '(rs2, x2) := answers ms2 s x1 in (rs1 ++ rs2, x2).
Proof.
  revert x. induction ms1 as [|m ms1 IH]; intros x; [cbn; by destruct (answers ms2 s x)|]. cbn. destruct (handle_request m s x) as [r x1].
  rewrite IH. destruct (answers ms1 s x1) as [rs1 x2]. by destruct (answers ms2 s x2).
Qed.

Lemma handle_requests_spec ms s x : exists s', handle_requests e ms s x =
  (s', (answers ms s x).2, concat (map (serialize e) (answers ms s x).1)) /\ methods_ s' = methods_ s /\ buffers_ s' = buffers_ s.
Proof.
  revert s x. induction ms as [|m ms IH]; intros s x; [by exists s|]. cbn.
  change (handle_request m (count_request s) x) with (handle_request m s x). destruct (handle_request m s x) as [r x1].
  destruct (IH (count_request s) x1) as (s' & -> & Hm & Hb). rewrite (answers_methods ms s (count_request s) x1) by done.
  exists s'. by destruct (answers ms s x1).
Qed.

Definition kept (s : server X) : list byte := default [] (buffers_ s !! conn).

Lemma handle_message_spec data s x ms r : fits (kept s ++ data) -> parses (feed_step e) (kept s ++ data) = Ok (ms, r) ->
  exists s', handle_message e conn data s x = Ok (s', (answers ms s x).2, concat (map (serialize e) (answers ms s x).1)) /\
    methods_ s' = methods_ s /\ kept s' = r.
Proof.
  intros Hf Hp. destruct (parse_all_spec e _ _ _ Hf Hp) as [Ha Hd]. unfold handle_message. fold (kept s). cbv zeta. rewrite Ha. cbn [obind].
  destruct (handle_requests_spec ms (with_conn_buffer conn (kept s ++ data) s) x) as (s' & -> & Hm & Hb).
  rewrite (answers_methods ms s) by done. eexists. split; [done|]. destruct ms as [|m ms].
  - split; [by rewrite Hm|]. unfold kept. rewrite Hb. cbn. rewrite lookup_insert_eq. cbn. rewrite <- Hd. unfold drop_consumed. cbn. done.
  - cbn. split; [by rewrite Hm|]. unfold kept. cbn. rewrite lookup_insert_eq, Hb. cbn. by rewrite lookup_insert_eq.
Qed.

Lemma serve_all_spec chunks ms r : forall s x, parses (feed_step e) (kept s) = Ok ([], kept s) ->
  fits (kept s ++ concat chunks) -> parses (feed_step e) (kept s ++ concat chunks) = Ok (ms, r) ->
  exists s', serve_all chunks s x = Ok (s', (answers ms s x).2, concat (map (serialize e) (answers ms s x).1)) /\
    methods_ s' = methods_ s /\ kept s' = r.
Proof.
  revert ms. induction chunks as [|data chunks IH]; intros ms s x Hi Hf Hp; cbn [serve_all concat] in *.
  - rewrite app_nil_r, Hi in Hp. injection Hp as <- <-. by exists s.
  - destruct (parses_chunk _ _ _ _ _ Hf Hp) as (ms1 & r1 & ms2 & Hp1 & Hp2 & -> & Hf2 & Hi2).
    rewrite app_assoc in Hf. pose proof (fits_app_l _ _ Hf) as Hf1.
    destruct (handle_message_spec data s x ms1 r1 Hf1 Hp1) as (s1 & -> & Hm1 & Hk1). cbn [obind].
    destruct (IH ms2 s1 (answers ms1 s x).2) as (s2 & -> & Hm2 & Hk2); [by rewrite Hk1..|]. cbn [obind].
    exists s2. rewrite answers_app, (answers_methods ms2 s s1) by done. destruct (answers ms1 s x) as [rs1 x1]. cbn.
    destruct (answers ms2 s x1) as [rs2 x2]. cbn. rewrite map_app, concat_app. split_and!; [done|congruence|done].
Qed.
End ServerRun.
End Runs.

(** ** End to end *)

Record request := mkRequest { rq_cmd : Z; rq_payload : list byte; rq_callback : Z; rq_timeout : Z; rq_now : Z }.

Section EndToEnd.
Context (e : endianness) {L : Type} `{RL : RateLimiter.RateLimiter L} {X : Type}.

Fixpoint call_all (l : list request) (c : client L) : option (client L * list effect) :=
  match l with
  | [] => Some (c, [])
  | q :: l' =>
      '(c1, out1) ← call e (rq_cmd q) (rq_payload q) (Some (rq_callback q)) (rq_timeout q) (rq_now q) [] [] c;
      '(c2, out2) ← call_all l' c1;
      Some (c2, out1 ++ out2)
  end.

(** The bytes sent. *)
Definition sent (out : list effect) : list byte := out ≫= fun x => match x with Send data => data | _ => [] end.

(** What the method of a request answers, and the callbacks it deserves. *)
Definition answer (s : server X) (q : request) (x : X) : list byte * X :=
  match methods_ s !! rq_cmd q with
  | Some h => let '(r, x') := h (rq_payload q) x in (match r with Replies response => response | Throws what => what end, x')
  | None => ([], x)
  end.

Fixpoint results (l : list request) (s : server X) (x : X) : list effect * X :=
  match l with
  | [] => ([], x)
  | q :: l' =>
      let '(b, x1) := answer s q x in
      let '(out, x2) := results l' s x1 in (Called (rq_callback q) true (mkMessage (rq_cmd q) b) :: out, x2)
  end.

Definition sendable (q : request) : Prop := 0 <= rq_cmd q < 65536 /\ Z.of_nat (length (rq_payload q)) < 65532.
Definition short (x : effect) : Prop := match x with Called _ _ m => Z.of_nat (length (body m)) < 65532 | Send _ => True end.

(** The requests with the ids they get. *)
Fixpoint numbered (id : Z) (l : list request) : list (Z * request) :=
  match l with [] => [] | q :: l' => (id, q) :: numbered (u32 (id + 1)) l' end.

Lemma u32_succ id i : u32 (u32 (id + 1) + i) = u32 (id + (1 + i)).
Proof. unfold uwrap. rewrite Zplus_mod_idemp_l. f_equal. lia. Qed.

Lemma numbered_ids id l : 0 <= id < 2 ^ 32 -> (numbered id l).*1 = (fun i => u32 (id + Z.of_nat i)) <$> seq 0 (length l).
Proof.
  revert id. induction l as [|q l IH]; intros id Hid; [done|]. cbn [numbered fmap list_fmap length seq fst].
  f_equal; [rewrite Z.add_0_r; by rewrite uwrap_small|]. rewrite IH by (apply uwrap_range; lia). rewrite <- fmap_S_seq, <- list_fmap_compose.
  apply list_fmap_ext. intros _ i _. cbn. rewrite u32_succ. f_equal. lia.
Qed.

Lemma numbered_distinct id l : 0 <= id < 2 ^ 32 -> Z.of_nat (length l) <= 2 ^ 32 -> NoDup (numbered id l).*1.
Proof.
  intros Hid Hl. rewrite numbered_ids by done. apply NoDup_fmap_2_strong; [|apply NoDup_seq].
  intros i j Hi%elem_of_seq Hj%elem_of_seq. unfold uwrap. intros H.
  assert (exists k, Z.of_nat i - Z.of_nat j = k * 2 ^ 32) as [k Hk].
  { exists ((id + Z.of_nat i) / 2 ^ 32 - (id + Z.of_nat j) / 2 ^ 32).
    pose proof (Z.div_mod (id + Z.of_nat i) (2 ^ 32) ltac:(lia)). pose proof (Z.div_mod (id + Z.of_nat j) (2 ^ 32) ltac:(lia)). lia. }
  assert (k = 0) by lia. lia.
Qed.

Lemma numbered_range id l : 0 <= id < 2 ^ 32 -> Forall (fun p => 0 <= p.1 < 2 ^ 32) (numbered id l).
Proof.
  revert id. induction l as [|q l IH]; intros id Hid; constructor; [done|]. apply IH. apply uwrap_range. lia.
Qed.

Definition request_message (p : Z * request) : Message := mkMessage (rq_cmd p.2) (encode_rpc_body e p.1 (rq_payload p.2)).
Definition entry (timeout : Z) (p : Z * request) : Z * PendingRequest :=
  (p.1, mkPending (Some (rq_callback p.2)) (rq_now p.2 + (if rq_timeout p.2 <? 0 then timeout else rq_timeout p.2) * 10 ^ 9)).

Lemma call_all_spec l : forall c : client L, connected c = true -> circuit_breaker_ c = None -> rate_limiter_ c = None ->
  NoDup (numbered (next_request_id_ c) l).*1 -> exists c1 out, call_all l c = Some (c1, out) /\
    sent out = concat (map (serialize e) (map request_message (numbered (next_request_id_ c) l))) /\
    pending_requests_ c1 = list_to_map (entry (default_timeout_seconds_ c) <$> numbered (next_request_id_ c) l) ∪ pending_requests_ c /\
    recv_buffer_ c1 = recv_buffer_ c.
Proof.
  induction l as [|q l IH]; intros c H1 H2 H3 Hn; [exists c, []; cbn; by rewrite (left_id_L ∅ (∪))|].
  cbn [numbered fmap list_fmap fst] in Hn. apply NoDup_cons in Hn as [Hid Hn]. cbn [call_all].
  unfold call at 1. unfold breaker_open, pass_limiter. rewrite H1, H2, H3. cbn [negb mbind option_bind].
  destruct (IH (add_request (next_request_id_ c) (mkPending (Some (rq_callback q)) (rq_now q + (if rq_timeout q <? 0 then default_timeout_seconds_ c
    else rq_timeout q) * 10 ^ 9)) c) H1 H2 H3 Hn) as (c1 & out & Hc & Hs & Hp & Hb). rewrite Hc. cbn [mbind option_bind].
  eexists c1, _. split; [done|]. cbn [next_request_id_ add_request default_timeout_seconds_ pending_requests_ recv_buffer_] in Hs, Hp, Hb. split_and!; [| |done].
  - unfold sent in *. cbn. by rewrite Hs.
  - rewrite Hp. cbn [numbered fmap list_fmap list_to_map foldr entry fst snd]. rewrite <- insert_union_l. rewrite insert_union_r; [done|].
    apply not_elem_of_list_to_map. rewrite <- list_fmap_compose. intros Hin. apply Hid.
    rewrite (list_fmap_ext _ fst) in Hin by done. exact Hin.
Qed.

Lemma split_encoded id b : split_body (encode_rpc_body e id b) = (mem32 e (host_to_net32 e id), b).
Proof.
  unfold split_body, encode_rpc_body. rewrite length_app, length_mem32. cbn [Nat.leb Nat.add].
  rewrite take_app_le, drop_app_ge by (rewrite length_mem32; lia). rewrite length_mem32, take_ge by (rewrite length_mem32; lia). done.
Qed.

(** The answers to numbered requests carry their ids. *)
Lemma answers_spec l s x : forall id,
  exists rs, answers (map request_message (numbered id l)) s x = (map (fun p => mkMessage (rq_cmd p.1.2) (encode_rpc_body e p.1.1 p.2)) rs, (results l s x).2) /\
    (results l s x).1 = map (fun p => Called (rq_callback p.1.2) true (mkMessage (rq_cmd p.1.2) p.2)) rs /\ rs.*1 = numbered id l.
Proof.
  revert x. induction l as [|q l IH]; intros x id; [by exists []|]. cbn [numbered map answers results].
  unfold handle_request at 1. cbn [request_message body cmd fst snd]. rewrite split_encoded. unfold answer.
  destruct (methods_ s !! rq_cmd q) as [h|].
  - destruct (h (rq_payload q) x) as [r x1]. destruct (IH x1 (u32 (id + 1))) as (rs & -> & Hr & Hn). cbn.
    destruct (results l s x1) as [out x2]. cbn in *. exists ((id, q, match r with Replies response => response | Throws what => what end) :: rs).
    cbn. by rewrite Hr, Hn.
  - destruct (IH x (u32 (id + 1))) as (rs & -> & Hr & Hn). cbn. destruct (results l s x) as [out x2]. cbn in *. exists ((id, q, []) :: rs).
    cbn. rewrite Hr, Hn. unfold encode_rpc_body. by rewrite app_nil_r.
Qed.

Lemma decode_encoded id b : 0 <= id < 2 ^ 32 -> decode_rpc_body e (encode_rpc_body e id b) = Some (id, b).
Proof.
  intros Hid. unfold decode_rpc_body, encode_rpc_body. rewrite length_app, length_mem32. cbn [Nat.ltb Nat.leb Nat.add].
  rewrite load_store32 by done. rewrite drop_app_ge by (rewrite length_mem32; lia). by rewrite length_mem32.
Qed.

(** Answers to distinct pending requests call each callback once, in order. *)
Lemma deliver_spec t rs : forall c : client L, Forall (fun p => 0 <= p.1 < 2 ^ 32) rs.*1 -> NoDup rs.*1.*1 ->
  pending_requests_ c = list_to_map (entry t <$> rs.*1) ->
  exists c2, deliver_all e (map (fun p => mkMessage (rq_cmd p.1.2) (encode_rpc_body e p.1.1 p.2)) rs) c =
    (c2, map (fun p => Called (rq_callback p.1.2) true (mkMessage (rq_cmd p.1.2) p.2)) rs) /\ pending_requests_ c2 = ∅.
Proof.
  induction rs as [|[[id q] b] rs IH]; intros c Hr Hn Hp; [by exists c|]. cbn [fmap list_fmap fst] in Hr, Hn, Hp.
  apply Forall_cons in Hr as [Hid Hr]. apply NoDup_cons in Hn as [Hin Hn]. cbn [map deliver_all fst snd]. unfold deliver at 1.
  cbn [body]. rewrite decode_encoded by done. cbn [list_to_map foldr entry fst snd] in Hp. rewrite Hp, lookup_insert_eq. cbn [callback invoke cmd].
  destruct (IH (with_pending (delete id (<[id := mkPending (Some (rq_callback q)) (rq_now q + (if rq_timeout q <? 0 then t else rq_timeout q) * 10 ^ 9)]>
    (list_to_map (entry t <$> rs.*1)))) c)) as (c2 & -> & H2); [done|done| |].
  - cbn. rewrite delete_insert_id; [done|]. apply not_elem_of_list_to_map. rewrite <- list_fmap_compose. rewrite (list_fmap_ext _ fst) by done. exact Hin.
  - by exists c2.
Qed.
Lemma frames_of ms : Forall (fun m => Message_wf m /\ Z.of_nat (length (body m)) < 65536) ms ->
  Forall2 (frames (feed_step e)) ms (map (serialize e) ms).
Proof. induction 1 as [|m ms [Hm Hl] _ IH]; constructor; [|done]. by apply serialize_frames. Qed.

Lemma parses_sent ms : Forall (fun m => Message_wf m /\ Z.of_nat (length (body m)) < 65536) ms ->
  fits (concat (map (serialize e) ms)) -> parses (feed_step e) (concat (map (serialize e) ms)) = Ok (ms, []).
Proof. intros Hm Hf. apply (parses_frames (feed_step e)); [by apply frames_of|done]. Qed.

Lemma small_body id b : Z.of_nat (length b) < 65532 -> Z.of_nat (length (encode_rpc_body e id b)) < 65536.
Proof. unfold encode_rpc_body. rewrite length_app, length_mem32. lia. Qed.

Lemma requests_small id l : Forall sendable l ->
  Forall (fun m => Message_wf m /\ Z.of_nat (length (body m)) < 65536) (map request_message (numbered id l)).
Proof.
  intros Hl. revert id. induction Hl as [|q l [Hc Hb] _ IH]; intros id; constructor; [|apply IH]. split; [exact Hc|]. by apply small_body.
Qed.

(** C13: Under the default configuration (no breaker, no limiter), with bodies the format
    holds and no timeout, calls made one after the other on a connection, cut in any way into the reads
    of the server, run the methods on exactly their arguments, in order; and whatever
    reads the answers arrive in, each callback is called exactly once, in order, with
    the answer to its own call, and no call stays pending. *)
Theorem rpc_end_to_end l (c : client L) (s : server X) x conn :
  connected c = true -> circuit_breaker_ c = None -> rate_limiter_ c = None -> pending_requests_ c = ∅ -> recv_buffer_ c = [] ->
  0 <= next_request_id_ c < 2 ^ 32 -> Z.of_nat (length l) <= 2 ^ 32 -> kept conn s = [] ->
  Forall sendable l -> Forall short (results l s x).1 ->
  exists c1 out, call_all l c = Some (c1, out) /\
    (forall chunks, concat chunks = sent out -> fits (sent out) ->
     exists s' bytes, serve_all e conn chunks s x = Ok (s', (results l s x).2, bytes) /\
       forall chunks2, concat chunks2 = bytes -> fits bytes ->
         exists c2, receive_all e chunks2 c1 = Ok (c2, (results l s x).1) /\ pending_requests_ c2 = ∅).
Proof.
  intros H1 H2 H3 H4 H5 Hid Hl Hk Hsend Hshort. pose proof (numbered_distinct _ l Hid Hl) as Hn.
  destruct (call_all_spec l c H1 H2 H3 Hn) as (c1 & out & Hc & Hs & Hp & Hb). exists c1, out. split; [done|]. intros chunks Hch Hf.
  rewrite Hs in Hch, Hf. pose proof (parses_sent _ (requests_small (next_request_id_ c) l Hsend) Hf) as Hpar.
  destruct (serve_all_spec e conn chunks (map request_message (numbered (next_request_id_ c) l)) [] s x) as (s' & Hs' & _ & _); rewrite ?Hk; cbn [app]; [done|by rewrite Hch|by rewrite Hch|].
  destruct (answers_spec l s x (next_request_id_ c)) as (rs & Hans & Hres & Hrs). rewrite Hans in Hs'. cbn [fst snd] in Hs'.
  exists s', (concat (map (serialize e) (map (fun p => mkMessage (rq_cmd p.1.2) (encode_rpc_body e p.1.1 p.2)) rs))). split; [exact Hs'|]. intros chunks2 Hch2 Hf2. rewrite Hres in Hshort |- *.
  assert (Forall (fun m => Message_wf m /\ Z.of_nat (length (body m)) < 65536)
    (map (fun p => mkMessage (rq_cmd p.1.2) (encode_rpc_body e p.1.1 p.2)) rs)) as Hsmall.
  { apply Forall_map, Forall_forall. intros [[id q] b] Hin. rewrite Forall_forall in Hshort. split.
    - cbn. assert ((id, q) ∈ numbered (next_request_id_ c) l) as Hq by (rewrite <- Hrs; apply list_elem_of_fmap; by exists (id, q, b)).
      clear -Hsend Hq. revert Hq. generalize (next_request_id_ c). induction Hsend as [|q' l [Hq' _] _ IH]; intros i; [by intros ?%elem_of_nil|].
      cbn. intros [[= -> ->]|Hin]%elem_of_cons; [done|by eapply IH].
    - apply small_body. exact (Hshort _ (list_elem_of_fmap_2 (fun p : Z * request * list byte => Called (rq_callback p.1.2) true (mkMessage (rq_cmd p.1.2) p.2)) _ _ Hin)). }
  pose proof (numbered_range _ l Hid) as Hrange. rewrite <- Hrs in Hrange, Hn.
  rewrite H4, (right_id_L ∅ (∪)), <- Hrs in Hp.
  destruct (deliver_spec (default_timeout_seconds_ c) rs (with_buffer [] c1) Hrange Hn Hp) as (c2 & Hd & Hp2). exists c2. split; [|done].
  rewrite <- Hd. rewrite H5 in Hb. apply receive_all_spec; rewrite Hb; cbn [app]; [done|by rewrite Hch2|]. rewrite Hch2. by apply parses_sent.
Qed.
End EndToEnd.

(** Two calls, one of them to a method nobody registered. *)
Lemma rpc_end_to_end_witness :
  let c := with_connected true (RpcClient 5 None None) : client RateLimiter.TokenBucket.limiter in
  let s := register_method 7 (fun b x => (Replies (b ++ b), x + 1)) RpcServer in
  let l := [mkRequest 7 [Byte.x41] 1 (-1) 0; mkRequest 9 [] 2 3 0] in
  exists c1 out, call_all Little l c = Some (c1, out) /\
    (forall chunks, concat chunks = sent out -> fits (sent out) ->
     exists s' bytes, serve_all Little 1 chunks s 0 = Ok (s', (results l s 0).2, bytes) /\
       forall chunks2, concat chunks2 = bytes -> fits bytes ->
         exists c2, receive_all Little chunks2 c1 = Ok (c2, (results l s 0).1) /\ pending_requests_ c2 = ∅).
Proof.
  intros c s l. apply (rpc_end_to_end Little l c s 0 1); try reflexivity; try (cbn; lia).
  - repeat constructor; cbn; lia.
  - vm_compute. by repeat constructor.
Defined.
