(* ===== verification/RpcCalls.v ===== *)
(** * RpcCalls: what happens to each call of a client

    The events of a client in any order: its calls, the bytes it reads, the cleaning
    thread, connecting, and the two ways a connection ends. *)

From Stdlib Require Import Strings.Byte.
From S2P Require Import Prelude.
From S2P Require Import Numeric.
From S2P Require Import Framing.
From S2P Require Import Protocol.
From S2P Require Import Wire.
From S2P Require Import Effects.
From S2P Require CircuitBreaker.
From S2P Require RateLimiter.
From S2P Require Import Rpc.
From S2P Require RpcFacts.
Import Endian Message Parser.

(** ** Runs of a client *)

Inductive event :=
| Connect
| Call (cmd : Z) (data : list byte) (cb : option Z) (timeout now : Z) (checks consumes : list Z)
| Receive (data : list byte)
| Cleanup (now : Z) (readings : nat -> Z * Z * Z)
| Closed          (* the connection's close callback *)
| Disconnect.

Section Runs.
Context {L : Type} `{RL : RateLimiter.RateLimiter L} {IO : IterOrder Z} (e : endianness).
Definition step (ev : event) (c : client L) : option (client L * list effect) :=
  match ev with
  | Connect => c1 ← connect c; Some (c1, [])
  | Call cmd data cb timeout now checks consumes => call e cmd data cb timeout now checks consumes c
  | Receive data => match on_message e data c with Ok r => Some r | _ => None end
  | Cleanup now readings => Some (cleanup_expired_requests now readings c)
  | Closed => Some (on_disconnect c)
  | Disconnect => Some (disconnect c)
  end.

Fixpoint run (evs : list event) (c : client L) : option (client L * list effect) :=
  match evs with
  | [] => Some (c, [])
  | ev :: evs' => '(c1, out1) ← step ev c; '(c2, out2) ← run evs' c1; Some (c2, out1 ++ out2)
  end.

Lemma run_app evs1 evs2 c : run (evs1 ++ evs2) c =
  ('(c1, out1) ← run evs1 c; '(c2, out2) ← run evs2 c1; Some (c2, out1 ++ out2)).
Proof.
  revert c. induction evs1 as [|ev evs1 IH]; intros c; cbn; [by destruct (run evs2 c) as [[? ?]|]|].
  destruct (step ev c) as [[c1 o1]|]; cbn; [|done]. rewrite IH. destruct (run evs1 c1) as [[c2 o2]|]; cbn; [|done].
  destruct (run evs2 c2) as [[c3 o3]|]; cbn; [|done]. by rewrite app_assoc.
Qed.

(** *** Each callback is called once *)

(** The callbacks given to calls, those called and those pending. *)
Definition given (evs : list event) : list Z := evs ≫= fun ev => match ev with Call _ _ (Some f) _ _ _ _ => [f] | _ => [] end.
Definition called (out : list effect) : list Z := out ≫= fun x => match x with Called f _ _ => [f] | _ => [] end.
Definition owed (c : client L) : list Z := map_to_list (pending_requests_ c) ≫= fun p => option_list (callback p.2).
Definition is_call (ev : event) : bool := match ev with Call _ _ _ _ _ _ _ => true | _ => false end.
Definition calls_of (evs : list event) : Z := Z.of_nat (length (filter is_call evs)).

Arguments called : simpl never.
Arguments owed : simpl never.
Arguments given : simpl never.

Lemma called_app out1 out2 : called (out1 ++ out2) = called out1 ++ called out2.
Proof. apply bind_app. Qed.

Lemma called_invoke cb ok m : called (invoke cb ok m) = option_list cb.
Proof. by destruct cb. Qed.

Lemma called_list {A} (f : A -> option Z) ok m (l : list A) :
  called (l ≫= fun x => invoke (f x) ok m) = l ≫= fun x => option_list (f x).
Proof. induction l as [|x l IH]; [done|]. cbn. by rewrite called_app, called_invoke, IH. Qed.

Lemma bind_Permutation {A B} (f : A -> list B) (l l' : list A) : l ≡ₚ l' -> (l ≫= f) ≡ₚ (l' ≫= f).
Proof. by intros ->. Qed.

Lemma called_fail_all (c : client L) : called (fail_all c) ≡ₚ owed c.
Proof. unfold fail_all, owed. rewrite (called_list (fun p => callback p.2)). by rewrite iter_perm. Qed.

Lemma called_deliver m (c : client L) : called (deliver e m c).2 ++ owed (deliver e m c).1 ≡ₚ owed c.
Proof.
  unfold deliver. destruct (decode_rpc_body e (body m)) as [[id payload]|]; [|done].
  destruct (pending_requests_ c !! id) as [req|] eqn:Hreq; [|done]. cbn [fst snd]. rewrite called_invoke.
  unfold owed. cbn [with_pending pending_requests_]. rewrite <- (map_to_list_delete _ _ _ Hreq). done.
Qed.

Lemma called_deliver_all ms (c : client L) : called (deliver_all e ms c).2 ++ owed (deliver_all e ms c).1 ≡ₚ owed c.
Proof.
  revert c. induction ms as [|m ms IH]; intros c; [done|]. cbn. pose proof (called_deliver m c) as H. destruct (deliver e m c) as [c1 o1].
  specialize (IH c1). destruct (deliver_all e ms c1) as [c2 o2]. cbn in *. rewrite called_app, <- app_assoc, IH. exact H.
Qed.

Lemma fail_expired_spec l : forall readings (c : client L), called (fail_expired l readings c).2 = (l ≫= fun p => option_list (callback p.2)) /\
  pending_requests_ (fail_expired l readings c).1 = pending_requests_ c /\ next_request_id_ (fail_expired l readings c).1 = next_request_id_ c.
Proof.
  induction l as [|p l IH]; intros readings c; [done|]. cbn. destruct (readings 0%nat) as [[t0 t1] now].
  specialize (IH (fun n => readings (S n)) (report_timeout t0 t1 now c)).
  destruct (fail_expired l _ _) as [c2 out]. destruct IH as (IH1 & IH2 & IH3). cbn in *. rewrite called_app, called_invoke, IH1, IH2, IH3.
  unfold report_timeout. by destruct (circuit_breaker_ c).
Qed.

Lemma map_to_list_filter {A} (P : Z * A -> Prop) `{!forall x, Decision (P x)} (m : gmap Z A) : map_to_list (filter P m) ≡ₚ filter P (map_to_list m).
Proof.
  rewrite map_filter_alt. apply map_to_list_to_map. eapply sublist_NoDup; [apply (NoDup_fst_map_to_list m)|apply (fmap_sublist fst), sublist_filter].
Qed.

Lemma called_cleanup now readings (c : client L) :
  called (cleanup_expired_requests now readings c).2 ++ owed (cleanup_expired_requests now readings c).1 ≡ₚ owed c.
Proof.
  unfold cleanup_expired_requests. cbv zeta. destruct (fail_expired_spec (expired now c) readings
    (with_pending (filter (fun p => ~ deadline p.2 <= now) (pending_requests_ c)) c)) as (H1 & H2 & _).
  unfold owed at 1. rewrite H1, H2. cbn [with_pending pending_requests_]. rewrite <- bind_app. apply bind_Permutation.
  unfold expired. rewrite iter_perm, map_to_list_filter. apply (filter_app_complement (fun p : Z * PendingRequest => deadline p.2 <= now)).
Qed.

Definition ids_ok (c : client L) : Prop := 1 <= next_request_id_ c /\ forall id, is_Some (pending_requests_ c !! id) -> 1 <= id < next_request_id_ c.

Lemma ids_sub (c c' : client L) : next_request_id_ c' = next_request_id_ c -> pending_requests_ c' ⊆ pending_requests_ c -> ids_ok c -> ids_ok c'.
Proof. intros Hn Hp [H1 H2]. unfold ids_ok. rewrite Hn. split; [done|]. intros id [r Hr]. apply H2. exists r. by eapply lookup_weaken. Qed.

Lemma deliver_all_sub ms (c : client L) : next_request_id_ (deliver_all e ms c).1 = next_request_id_ c /\
  pending_requests_ (deliver_all e ms c).1 ⊆ pending_requests_ c.
Proof.
  revert c. induction ms as [|m ms IH]; intros c; [done|]. cbn. assert (next_request_id_ (deliver e m c).1 = next_request_id_ c /\
    pending_requests_ (deliver e m c).1 ⊆ pending_requests_ c) as [H1 H2].
  { unfold deliver. destruct (decode_rpc_body e (body m)) as [[id payload]|]; [|done]. destruct (pending_requests_ c !! id); [|done].
    split; [done|]. apply delete_subseteq. }
  destruct (deliver e m c) as [c1 o1]. destruct (IH c1) as [H3 H4]. destruct (deliver_all e ms c1) as [c2 o2]. cbn in *.
  split; [congruence|by etrans].
Qed.

Lemma pass_limiter_keeps l1 l2 (c c' : client L) b : pass_limiter l1 l2 c = Some (b, c') ->
  next_request_id_ c' = next_request_id_ c /\ pending_requests_ c' = pending_requests_ c /\ circuit_breaker_ c' = circuit_breaker_ c /\
  cleanup_thread_ c' = cleanup_thread_ c.
Proof.
  unfold pass_limiter. destruct (rate_limiter_ c); [|by intros [= <- <-]].
  destruct (RateLimiter.rl_step _ _) as [[rsp l']|]; [|done]. cbn [mbind option_bind]. cbv zeta.
  case_match; [by intros [= <- <-]|]. destruct (RateLimiter.rl_step (RateLimiter.ReqConsume _ _ _) l') as [[? ?]|]; [|done].
  by intros [= <- <-].
Qed.

(** One event: what it calls is no longer owed, what it is given is owed or called. *)
Lemma step_accounts ev (c c' : client L) out : step ev c = Some (c', out) -> ids_ok c -> next_request_id_ c + calls_of [ev] < 2 ^ 32 ->
  called out ++ owed c' ≡ₚ given [ev] ++ owed c /\ ids_ok c' /\ next_request_id_ c' <= next_request_id_ c + calls_of [ev].
Proof.
  intros Hs Hok Hmax. assert (0 <= calls_of [ev]) as H0 by (unfold calls_of; lia). destruct ev as [|cmd data cb timeout now l1 l2|data|now readings| |]; cbn [step] in Hs.
  - unfold connect in Hs. destruct (cleanup_thread_ c); [done|]. injection Hs as <- <-. split_and!; [done|done|cbn [with_pending with_connected with_cleanup next_request_id_] in *; lia].
  - change (given [Call cmd data cb timeout now l1 l2]) with (match cb with Some f => [f] | None => [] end ++ []).
    change (calls_of [Call cmd data cb timeout now l1 l2]) with 1 in *. rewrite app_nil_r. assert ((match cb with Some f => [f] | None => [] end) = option_list cb) as -> by (by destruct cb).
    unfold call in Hs. destruct (connected c); cbn [negb] in Hs; [|injection Hs as <- <-; rewrite called_invoke; split_and!; [done|done|lia]].
    destruct (breaker_open c); [injection Hs as <- <-; rewrite called_invoke; split_and!; [done|done|lia]|].
    destruct (pass_limiter l1 l2 c) as [[ok c1]|] eqn:E; [|done]. cbn [mbind option_bind] in Hs. apply pass_limiter_keeps in E as (Hn & Hp & _).
    destruct ok; cbn [negb] in Hs; injection Hs as <- <-.
    + destruct Hok as [Hok1 Hok2]. cbn [called invoke]. unfold owed. cbn [add_request pending_requests_ next_request_id_]. rewrite Hn, Hp.
      assert (pending_requests_ c !! next_request_id_ c = None) as Hf.
      { apply eq_None_not_Some. intros H%Hok2. lia. }
      split_and!; [by rewrite map_to_list_insert| |rewrite uwrap_small by lia; lia].
      unfold ids_ok. cbn [add_request pending_requests_ next_request_id_]. rewrite ?Hp, uwrap_small by lia. split; [lia|].
      intros id. rewrite lookup_insert_is_Some'. intros [<-|H%Hok2]; lia.
    + rewrite called_invoke. unfold owed. rewrite Hp. split_and!; [done| |lia]. eapply ids_sub; [exact Hn| |done]. by rewrite Hp.
  - unfold on_message in Hs. destruct (parse_all e (recv_buffer_ c ++ data)) as [ms| |]; [|done..]. cbn [obind] in Hs. injection Hs as Hs.
    pose proof (called_deliver_all ms (with_buffer (drop_consumed ms (recv_buffer_ c ++ data)) c)) as H.
    destruct (deliver_all_sub ms (with_buffer (drop_consumed ms (recv_buffer_ c ++ data)) c)) as [H1 H2].
    rewrite Hs in H, H1, H2. cbn [fst snd] in *. split_and!; [exact H|by eapply (ids_sub c)|cbn [with_buffer next_request_id_] in *; lia].
  - injection Hs as Hs. pose proof (called_cleanup now readings c) as H. rewrite Hs in H. split; [exact H|].
    destruct (fail_expired_spec (expired now c) readings (with_pending (filter (fun p => ~ deadline p.2 <= now) (pending_requests_ c)) c)) as (_ & H1 & H2).
    unfold cleanup_expired_requests in Hs. rewrite Hs in H1, H2. cbn in H1, H2. split; [|cbn [with_pending with_connected with_cleanup next_request_id_] in *; lia].
    eapply (ids_sub c); [done| |done]. rewrite H1. apply map_filter_subseteq.
  - injection Hs as <- <-. cbn [given mbind list_bind app]. rewrite called_fail_all. split_and!; [by rewrite app_nil_r| |cbn [with_pending with_connected with_cleanup next_request_id_] in *; lia].
    eapply (ids_sub c); [done| |done]. apply map_empty_subseteq.
  - injection Hs as <- <-. cbn [given mbind list_bind app]. rewrite called_fail_all. split_and!; [by rewrite app_nil_r| |cbn [with_pending with_connected with_cleanup next_request_id_] in *; lia].
    eapply (ids_sub c); [done| |done]. apply map_empty_subseteq.
Qed.

Lemma run_accounts evs : forall (c c' : client L) out, run evs c = Some (c', out) -> ids_ok c -> next_request_id_ c + calls_of evs < 2 ^ 32 ->
  called out ++ owed c' ≡ₚ given evs ++ owed c /\ ids_ok c'.
Proof.
  induction evs as [|ev evs IH]; intros c c' out Hr Hok Hmax; cbn [run] in Hr; [by injection Hr as <- <-|].
  destruct (step ev c) as [[c1 o1]|] eqn:Es; [|done]. cbn [mbind option_bind] in Hr. destruct (run evs c1) as [[c2 o2]|] eqn:Er; [|done].
  injection Hr as <- <-. assert (calls_of (ev :: evs) = calls_of [ev] + calls_of evs) as Hc.
  { unfold calls_of. change (ev :: evs) with ([ev] ++ evs). rewrite filter_app, length_app. lia. }
  assert (0 <= calls_of evs) by (unfold calls_of; lia).
  destruct (step_accounts _ _ _ _ Es Hok ltac:(lia)) as (H1 & Hok1 & Hn1). destruct (IH _ _ _ Er Hok1 ltac:(lia)) as [H2 Hok2].
  split; [|done]. rewrite called_app, <- app_assoc, H2. rewrite app_assoc, (Permutation_app_comm (called o1)), <- app_assoc, H1.
  change (ev :: evs) with ([ev] ++ evs). unfold given. rewrite bind_app. rewrite !app_assoc. by rewrite (Permutation_app_comm (given evs)).
Qed.

(** C14: Whatever calls are made, whatever bytes arrive and whenever the connection ends,
    the callbacks called and those of calls still pending are exactly the callbacks given:
    none is called twice or lost; and once a cleaning has come after the last deadline,
    every callback given has been called. *)
Theorem callbacks_called_once evs timeout b rl c out :
  run evs (RpcClient timeout b rl) = Some (c, out) -> calls_of evs < 2 ^ 32 - 1 ->
  called out ++ owed c ≡ₚ given evs /\
  forall now readings, (forall id r, pending_requests_ c !! id = Some r -> deadline r <= now) ->
    exists c' out', run (evs ++ [Cleanup now readings]) (RpcClient timeout b rl) = Some (c', out ++ out') /\
      pending_requests_ c' = ∅ /\ called (out ++ out') ≡ₚ given evs.
Proof.
  intros Hr Hc. destruct (run_accounts _ _ _ _ Hr) as [Ha _]; [split; [cbn; lia|]; intros id []; set_solver|cbn; lia|].
  unfold owed at 2 in Ha. cbn in Ha. rewrite map_to_list_empty in Ha. cbn in Ha. rewrite app_nil_r in Ha. split; [done|].
  intros now readings Hd. destruct (cleanup_expired_requests now readings c) as [c' out'] eqn:E. exists c', out'.
  pose proof (called_cleanup now readings c) as H. rewrite E in H. cbn [fst snd] in H.
  destruct (fail_expired_spec (expired now c) readings (with_pending (filter (fun p => ~ deadline p.2 <= now) (pending_requests_ c)) c)) as (_ & H1 & _).
  unfold cleanup_expired_requests in E. rewrite E in H1. cbn in H1.
  assert (pending_requests_ c' = ∅) as He.
  { rewrite H1. apply map_empty_filter. intros id r Hl Hn. exact (Hn (Hd id r Hl)). }
  split_and!; [|done|].
  - rewrite run_app, Hr. cbn. unfold cleanup_expired_requests. cbv zeta. rewrite E. cbn. by rewrite app_nil_r.
  - rewrite called_app, <- Ha, <- H. unfold owed. rewrite He, map_to_list_empty. cbn. by rewrite app_nil_r.
Qed.

(** *** The breaker only hears of failures *)

Definition sends (out : list effect) : list (list byte) := out ≫= fun x => match x with Send data => [data] | _ => [] end.
Definition tripped (c : client L) : Prop := exists b, circuit_breaker_ c = Some b /\ CircuitBreaker.state_ b = CircuitBreaker.OPEN.

(** A closed breaker of the default configuration that has counted nothing. *)
Definition fresh_breaker (c : client L) : Prop := exists name half_open t,
  circuit_breaker_ c = Some (CircuitBreaker.mkBreaker name CircuitBreaker.default_config CircuitBreaker.CLOSED 0 0 half_open t).

Lemma report_tripped t0 t1 now (c : client L) : tripped c \/ fresh_breaker c -> tripped (report_timeout t0 t1 now c).
Proof.
  unfold report_timeout. intros [(b & Hb & Ho)|(name & h & t & Hb)]; rewrite Hb.
  - exists b. split; [|done]. cbn. unfold CircuitBreaker.execute, CircuitBreaker.get_state. by rewrite Ho.
  - eexists. split; [reflexivity|]. reflexivity.
Qed.

Lemma fail_expired_tripped l : forall readings (c : client L), tripped c -> tripped (fail_expired l readings c).1.
Proof.
  induction l as [|p l IH]; intros readings c Hc; [done|]. cbn. destruct (readings 0%nat) as [[t0 t1] now].
  specialize (IH (fun n => readings (S n)) (report_timeout t0 t1 now c) ltac:(apply report_tripped; by left)).
  by destruct (fail_expired l _ _).
Qed.

Lemma deliver_all_breaker ms (c : client L) : circuit_breaker_ (deliver_all e ms c).1 = circuit_breaker_ c /\ sends (deliver_all e ms c).2 = [] /\
  cleanup_thread_ (deliver_all e ms c).1 = cleanup_thread_ c.
Proof.
  revert c. induction ms as [|m ms IH]; intros c; [done|]. cbn. assert (circuit_breaker_ (deliver e m c).1 = circuit_breaker_ c /\ sends (deliver e m c).2 = [] /\ cleanup_thread_ (deliver e m c).1 = cleanup_thread_ c) as (H1 & H2 & H5).
  { unfold deliver. destruct (decode_rpc_body e (body m)) as [[id payload]|]; [|done]. destruct (pending_requests_ c !! id) as [[[f|] d]|]; done. }
  destruct (deliver e m c) as [c1 o1]. destruct (IH c1) as (H3 & H4 & H6). destruct (deliver_all e ms c1) as [c2 o2]. cbn [fst snd] in *.
  split_and!; [congruence| |congruence]. unfold sends in *. by rewrite bind_app, H2, H4.
Qed.

Lemma no_sends {A} (f : A -> option Z) ok m (l : list A) : sends (l ≫= fun x => invoke (f x) ok m) = [].
Proof. induction l as [|x l IH]; [done|]. cbn. unfold sends in *. rewrite bind_app, IH. by destruct (f x). Qed.

Lemma fail_expired_no_sends l : forall readings (c : client L), sends (fail_expired l readings c).2 = [].
Proof.
  induction l as [|p l IH]; intros readings c; [done|]. cbn. destruct (readings 0%nat) as [[t0 t1] now].
  specialize (IH (fun n => readings (S n)) (report_timeout t0 t1 now c)). destruct (fail_expired l _ _). cbn in *.
  unfold sends in *. rewrite bind_app, IH. by destruct (callback p.2).
Qed.

Lemma fail_expired_thread l : forall readings (c : client L), cleanup_thread_ (fail_expired l readings c).1 = cleanup_thread_ c.
Proof.
  induction l as [|p l IH]; intros readings c; [done|]. cbn. destruct (readings 0%nat) as [[t0 t1] now].
  specialize (IH (fun n => readings (S n)) (report_timeout t0 t1 now c)). destruct (fail_expired l _ _). cbn in *.
  rewrite IH. unfold report_timeout. by destruct (circuit_breaker_ c).
Qed.

(** Only a cleaning changes the breaker. *)
Lemma step_breaker ev (c c' : client L) out : step ev c = Some (c', out) ->
  match ev with Cleanup now readings => (c', out) = cleanup_expired_requests now readings c | _ => circuit_breaker_ c' = circuit_breaker_ c end.
Proof.
  intros Hs. destruct ev as [|cmd data cb timeout now l1 l2|data|now readings| |]; cbn [step] in Hs.
  - unfold connect in Hs. destruct (cleanup_thread_ c); [done|]. by injection Hs as <- <-.
  - unfold call in Hs. destruct (negb (connected c)); [by injection Hs as <- <-|]. destruct (breaker_open c); [by injection Hs as <- <-|].
    destruct (pass_limiter l1 l2 c) as [[ok c1]|] eqn:E; [|done]. apply pass_limiter_keeps in E as (_ & _ & H & _). cbn in Hs. destruct ok; by injection Hs as <- <-.
  - unfold on_message in Hs. destruct (parse_all e (recv_buffer_ c ++ data)) as [ms| |]; [|done..]. cbn [obind] in Hs. injection Hs as Hs.
    destruct (deliver_all_breaker ms (with_buffer (drop_consumed ms (recv_buffer_ c ++ data)) c)) as (H & _). by rewrite Hs in H.
  - by injection Hs as ->.
  - by injection Hs as <- <-.
  - by injection Hs as <- <-.
Qed.

(** What a cleaning does to a breaker that is open, or that has counted nothing. *)
Lemma cleanup_breaker now readings (c : client L) : tripped c \/ fresh_breaker c ->
  (expired now c <> [] -> tripped (cleanup_expired_requests now readings c).1) /\
  (tripped c -> tripped (cleanup_expired_requests now readings c).1) /\
  (fresh_breaker c -> expired now c = [] -> fresh_breaker (cleanup_expired_requests now readings c).1).
Proof.
  intros Hc. unfold cleanup_expired_requests. cbv zeta. set (c1 := with_pending _ c).
  assert (tripped c1 \/ fresh_breaker c1) as Hc1 by exact Hc. split_and!.
  - destruct (expired now c) as [|p l]; [done|]. intros _. cbn [fail_expired]. destruct (readings 0%nat) as [[t0 t1] t2].
    pose proof (fail_expired_tripped l (fun n => readings (S n)) _ (report_tripped t0 t1 t2 c1 Hc1)). by destruct (fail_expired l _ _).
  - intros Ht. by apply fail_expired_tripped.
  - by intros Hf ->.
Qed.

Lemma step_breaker_ok ev (c c' : client L) out : step ev c = Some (c', out) -> tripped c \/ fresh_breaker c -> tripped c' \/ fresh_breaker c'.
Proof.
  intros Hs%step_breaker Hc. destruct ev as [| | |now readings| |]; try (unfold tripped, fresh_breaker in *; by rewrite Hs).
  destruct (cleanup_breaker now readings c Hc) as (H1 & _ & H3). rewrite <- Hs in H1, H3. cbn [fst] in *.
  destruct (expired now c) eqn:E; [|left; by apply H1]. destruct Hc as [Ht|Hf]; [|right; by apply H3].
  left. destruct (cleanup_breaker now readings c (or_introl Ht)) as (_ & H2 & _). rewrite <- Hs in H2. by apply H2.
Qed.

Lemma step_tripped ev (c c' : client L) out : step ev c = Some (c', out) -> tripped c -> tripped c' /\ sends out = [].
Proof.
  intros Hs Hc. pose proof (step_breaker _ _ _ _ Hs) as Hb. destruct ev as [|cmd data cb timeout now l1 l2|data|now readings| |]; cbn [step] in Hs;
    (split; [try (unfold tripped in *; by rewrite Hb)|]).
  - unfold connect in Hs. destruct (cleanup_thread_ c); [done|]. by injection Hs as <- <-.
  - unfold call, breaker_open in Hs. destruct Hc as (b & Hbr & Ho). destruct (negb (connected c)); [by injection Hs as <- <-; destruct cb|].
    rewrite Hbr in Hs. unfold CircuitBreaker.get_state in Hs. rewrite Ho in Hs. by injection Hs as <- <-; destruct cb.
  - unfold on_message in Hs. destruct (parse_all e (recv_buffer_ c ++ data)) as [ms| |]; [|done..]. cbn [obind] in Hs. injection Hs as Hs.
    destruct (deliver_all_breaker ms (with_buffer (drop_consumed ms (recv_buffer_ c ++ data)) c)) as (_ & H & _). by rewrite Hs in H.
  - destruct (cleanup_breaker now readings c (or_introl Hc)) as (_ & H & _). rewrite <- Hb in H. by apply H.
  - pose proof (fail_expired_no_sends (expired now c) readings (with_pending (filter (fun p => ~ deadline p.2 <= now) (pending_requests_ c)) c)) as H.
    unfold cleanup_expired_requests in Hb. by rewrite <- Hb in H.
  - injection Hs as <- <-. apply no_sends.
  - injection Hs as <- <-. apply no_sends.
Qed.

Lemma run_breaker_ok evs : forall (c c' : client L) out, run evs c = Some (c', out) -> tripped c \/ fresh_breaker c -> tripped c' \/ fresh_breaker c'.
Proof.
  induction evs as [|ev evs IH]; intros c c' out Hr Hc; cbn [run] in Hr; [by injection Hr as <- <-|].
  destruct (step ev c) as [[c1 o1]|] eqn:Es; [|done]. cbn [mbind option_bind] in Hr. destruct (run evs c1) as [[c2 o2]|] eqn:Er; [|done].
  injection Hr as <- <-. eapply IH; [done|]. by eapply step_breaker_ok.
Qed.

Lemma run_tripped evs : forall (c c' : client L) out, run evs c = Some (c', out) -> tripped c -> tripped c' /\ sends out = [].
Proof.
  induction evs as [|ev evs IH]; intros c c' out Hr Hc; cbn [run] in Hr; [by injection Hr as <- <-|].
  destruct (step ev c) as [[c1 o1]|] eqn:Es; [|done]. cbn [mbind option_bind] in Hr. destruct (run evs c1) as [[c2 o2]|] eqn:Er; [|done].
  injection Hr as <- <-. destruct (step_tripped _ _ _ _ Es Hc) as [Hc1 H1]. destruct (IH _ _ _ Er Hc1) as [Hc2 H2]. split; [done|].
  unfold sends in *. by rewrite bind_app, H1, H2.
Qed.

(** The breaker is told of expired calls and never of answered ones: with the default
    configuration, however many calls were answered before, the first call that expires
    opens the breaker, and from then on no call is ever sent. *)
Theorem one_timeout_ends_client evs1 evs2 timeout name t rl now readings c1 out1 c2 out2 :
  run evs1 (RpcClient timeout (Some (CircuitBreaker.breaker_init name CircuitBreaker.default_config t)) rl) = Some (c1, out1) ->
  expired now c1 <> [] ->
  run evs2 (cleanup_expired_requests now readings c1).1 = Some (c2, out2) ->
  sends out2 = [] /\ forall cmd data f timeout' now' l1 l2,
    call e cmd data (Some f) timeout' now' l1 l2 c2 = Some (c2, [Called f false Message_default]).
Proof.
  intros H1 He H2. assert (tripped c1 \/ fresh_breaker c1) as Hc.
  { eapply run_breaker_ok; [done|]. right. by eexists _, _, _. }
  destruct (cleanup_breaker now readings c1 Hc) as (Ht & _). destruct (run_tripped _ _ _ _ H2 (Ht He)) as [(b & Hb & Ho) Hs].
  split; [done|]. intros. unfold call, breaker_open. destruct (negb (connected c2)); [done|]. rewrite Hb.
  unfold CircuitBreaker.get_state. by rewrite Ho.
Qed.

(** When the server closes a connection the cleaning thread stays: whatever happens
    next, short of [disconnect], connecting again starts a thread over a running one,
    which ends the program. *)
Theorem reconnect_terminates evs (c c' : client L) out : run evs c = Some (c', out) ->
  cleanup_thread_ c = true -> Disconnect ∉ evs -> run (evs ++ [Connect]) c = None.
Proof.
  intros Hr Ht Hn. rewrite run_app, Hr. cbn. enough (cleanup_thread_ c' = true) as H by (unfold connect; by rewrite H).
  revert c c' out Hr Ht. induction evs as [|ev evs IH]; intros c c' out Hr Ht; cbn [run] in Hr; [by injection Hr as <- <-|].
  apply not_elem_of_cons in Hn as [Hev Hn]. destruct (step ev c) as [[c1 o1]|] eqn:Es; [|done]. cbn [mbind option_bind] in Hr.
  destruct (run evs c1) as [[c2 o2]|] eqn:Er; [|done]. injection Hr as <- <-. eapply IH; [done|done|]. clear IH Er.
  destruct ev as [|cmd data cb timeout now l1 l2|data|now readings| |]; cbn [step] in Es.
  - unfold connect in Es. by rewrite Ht in Es.
  - unfold call in Es. destruct (negb (connected c)); [by injection Es as <- <-|]. destruct (breaker_open c); [by injection Es as <- <-|].
    destruct (pass_limiter l1 l2 c) as [[ok c3]|] eqn:E; [|done]. apply pass_limiter_keeps in E as (_ & _ & _ & H). cbn in Es.
    destruct ok; injection Es as <- <-; cbn; by rewrite H.
  - unfold on_message in Es. destruct (parse_all e (recv_buffer_ c ++ data)) as [ms| |]; [|done..]. cbn [obind] in Es. injection Es as Es.
    destruct (deliver_all_breaker ms (with_buffer (drop_consumed ms (recv_buffer_ c ++ data)) c)) as (_ & _ & H). rewrite Es in H. cbn in H. by rewrite H.
  - pose proof (fail_expired_thread (expired now c) readings (with_pending (filter (fun p => ~ deadline p.2 <= now) (pending_requests_ c)) c)) as H.
    unfold cleanup_expired_requests in Es. injection Es as Es. rewrite Es in H. cbn in H. by rewrite H.
  - by injection Es as <- <-.
  - done.
Qed.
End Runs.

(** ** The limiter is asked twice *)

Section Burst.
Context {IO : IterOrder Z} (e : endianness).
Import RateLimiter.

(** The bucket of the client's key holds [n] tokens at the time [t]. *)
Definition holds (t n : Z) (l : TokenBucket.limiter) : Prop :=
  default (TokenBucket.mkBucket (TokenBucket.capacity_ l) t) (TokenBucket.buckets_ l !! "rpc"%string) = TokenBucket.mkBucket n t.

Lemma refill_now t n l : TokenBucket.refill_tokens l t (TokenBucket.mkBucket n t) = Some (TokenBucket.mkBucket n t).
Proof. unfold TokenBucket.refill_tokens. cbn. by rewrite Z.sub_diag. Qed.

Lemma consume_now t n l : holds t n l -> 0 <= n < 2 ^ 63 -> exists l', TokenBucket.consume "rpc" 1 t t l = Some (1 <=? n, l') /\
  holds t (Z.max 0 (n - 1)) l'.
Proof.
  intros Hh Hn. unfold TokenBucket.consume. rewrite Hh, refill_now. cbn [mbind option_bind TokenBucket.tokens]. case_test.
  - rewrite i64_sub_def by lia. eexists. split; [done|]. unfold holds, TokenBucket.set_bucket. cbn. rewrite lookup_insert_eq. cbn. f_equal. lia.
  - eexists. split; [done|]. unfold holds, TokenBucket.set_bucket. cbn. rewrite lookup_insert_eq. cbn. f_equal. lia.
Qed.

Lemma remaining_now t n l : holds t n l -> exists r l', TokenBucket.get_remaining "rpc" t l = Some (r, l') /\ holds t n l'.
Proof.
  unfold TokenBucket.get_remaining. intros Hh. pose proof Hh as Hh'. unfold holds in Hh. destruct (_ !! _) as [b|]; [|by eexists _, _]. cbn in Hh. subst b.
  rewrite refill_now. eexists _, _. split; [reflexivity|]. unfold holds, TokenBucket.set_bucket. cbn. by rewrite lookup_insert_eq.
Qed.

(** A call at that time goes out if there is a token, and takes two. *)
Lemma pass_now t n l (c : client TokenBucket.limiter) : rate_limiter_ c = Some l -> holds t n l -> 0 <= n < 2 ^ 63 ->
  exists l', pass_limiter [t; t; t] [t; t] c = Some (1 <=? n, with_limiter (Some l') c) /\ holds t (Z.max 0 (n - 2)) l'.
Proof.
  intros Hl Hh Hn. unfold pass_limiter. rewrite Hl. cbn [RateLimiter.rl_step TokenBucket.token_bucket_limiter]. unfold TokenBucket.check.
  destruct (consume_now t n l Hh Hn) as (l1 & H1 & Hh1). cbn [reading nth]. rewrite H1. cbn [mbind option_bind].
  destruct (remaining_now t _ l1 Hh1) as (r & l2 & H2 & Hh2). rewrite H2. cbn [mbind option_bind allowed negb].
  destruct (1 <=? n) eqn:E; cbn [negb]; breflect.
  - destruct (consume_now t _ l2 Hh2 ltac:(lia)) as (l3 & H3 & Hh3). rewrite H3. cbn [mbind option_bind]. exists l3. split; [done|].
    replace (Z.max 0 (n - 2)) with (Z.max 0 (Z.max 0 (n - 1) - 1)) by lia. done.
  - exists l2. split; [done|]. by replace (Z.max 0 (n - 2)) with (Z.max 0 (n - 1)) by lia.
Qed.

Definition burst (t : Z) (l : list (Z * list byte * option Z)) : list event :=
  map (fun q => Call q.1.1 q.1.2 q.2 (-1) t [t; t; t] [t; t]) l.

Lemma burst_spec t l : forall n lim (c : client TokenBucket.limiter), connected c = true -> circuit_breaker_ c = None -> rate_limiter_ c = Some lim ->
  holds t n lim -> 0 <= n < 2 ^ 63 -> exists c' out, run e (burst t l) c = Some (c', out) /\
    Z.of_nat (length (sends out)) = Z.min (Z.of_nat (length l)) ((n + 1) / 2).
Proof.
  induction l as [|[[cmd data] cb] l IH]; intros n lim c H1 H2 H3 Hh Hn.
  { exists c, []. split; [done|]. pose proof (Z.div_pos (n + 1) 2 ltac:(lia) ltac:(lia)). cbn [sends length mbind list_bind]. lia. }
  destruct (pass_now t n lim c H3 Hh Hn) as (lim' & Hp & Hh'). cbn [burst map run step fst snd]. unfold call. rewrite H1. unfold breaker_open. rewrite H2, Hp.
  cbn [negb mbind option_bind]. destruct (1 <=? n) eqn:E; cbn [negb mbind option_bind]; breflect.
  - destruct (IH (Z.max 0 (n - 2)) lim' (add_request (next_request_id_ c) (mkPending cb (t + default_timeout_seconds_ c * 10 ^ 9)) (with_limiter (Some lim') c)) H1 H2 eq_refl Hh' ltac:(lia))
      as (c' & out & Hr & Hs). match goal with |- context [run e ?ev ?c0] => replace (run e ev c0) with (Some (c', out)) by (symmetry; exact Hr) end. eexists _, _. split; [done|].
    unfold sends in *. cbn. rewrite Nat2Z.inj_succ, Hs. destruct (decide (n = 1)) as [->|]; [change ((Z.max 0 (1 - 2) + 1) / 2) with 0; change ((1 + 1) / 2) with 1; lia|].
    replace (Z.max 0 (n - 2) + 1) with (n + 1 + (-1) * 2) by lia. rewrite Z.div_add by lia. lia.
  - assert (n = 0) as -> by lia. destruct (IH 0 lim' (with_limiter (Some lim') c) H1 H2 eq_refl Hh' ltac:(lia)) as (c' & out & Hr & Hs). unfold burst in Hr. rewrite Hr.
    eexists _, _. split; [done|]. unfold sends in *. rewrite bind_app, length_app, Nat2Z.inj_add, Hs. change ((0 + 1) / 2) with 0. destruct cb; cbn [invoke mbind list_bind app length]; lia.
Qed.

(** A call asks the token bucket with [check], which takes a token, and then takes
    another: of a burst of calls only half of the capacity, rounded up, is sent. *)
Theorem burst_halved t l cap rate (c : client TokenBucket.limiter) : connected c = true -> circuit_breaker_ c = None ->
  rate_limiter_ c = Some (TokenBucket.limiter_init cap rate) -> 0 <= cap < 2 ^ 63 ->
  exists c' out, run e (burst t l) c = Some (c', out) /\
    Z.of_nat (length (sends out)) = Z.min (Z.of_nat (length l)) ((cap + 1) / 2).
Proof. intros H1 H2 H3 Hc. by apply (burst_spec t l cap _ c H1 H2 H3). Qed.
End Burst.

(** ** Bytes left by a connection that ended *)

Section Stale.
Context {L : Type} `{RL : RateLimiter.RateLimiter L} {IO : IterOrder Z} (e : endianness).

Definition received (evs : list event) : nat := sum_list_with (fun ev => match ev with Receive data => length data | _ => 0%nat end) evs.

(** A header that announces more than has come. *)
Lemma header_waits m x : Z.of_nat (length (body m)) < 65536 -> (length x < length (body m))%nat -> parse_all e (take 4 (serialize e m) ++ x) = Ok [].
Proof.
  intros Hm Hx. set (b := take 4 (serialize e m) ++ x).
  assert (length (take 4 (serialize e m)) = 4%nat) as Hl by (rewrite length_take, length_serialize; lia).
  assert (length b = (4 + length x)%nat) as Hb by (unfold b; rewrite length_app; lia).
  assert (fits b) as Hf by (unfold fits; lia).
  assert (feed_step e b 0 = Wait) as Hw.
  { assert (net_to_host16 e (load16 e b 2) = Z.of_nat (length (body m))) as Hn.
    { unfold b. rewrite load16_app by lia. rewrite <- (load16_app e (take 4 (serialize e m)) (drop 4 (serialize e m))) by lia.
      rewrite take_drop, <- (app_nil_r (serialize e m)), serialize_len. apply uwrap_small. lia. }
    unfold feed_step. cbv zeta. rewrite Nat.sub_0_r, Nat.add_0_l, Hn, Hb. case_tests; first [done|lia]. }
  pose proof (parses_step (feed_step e) b Hf) as Hp. rewrite Hw in Hp. by destruct (RpcFacts.parse_all_spec e b [] b Hf Hp).
Qed.

(** Effects without an answer; and events that add nothing to the buffer. *)
Definition unanswered (out : list effect) : Prop := Forall (fun y => match y with Called _ true _ => False | _ => True end) out.

Lemma unanswered_invoke cb m : unanswered (invoke cb false m).
Proof. destruct cb; by repeat constructor. Qed.

Lemma fail_all_unanswered (c : client L) : unanswered (fail_all c).
Proof. apply Forall_bind, Forall_true. intros p. apply unanswered_invoke. Qed.

Lemma fail_expired_stale l : forall readings (c : client L), unanswered (fail_expired l readings c).2 /\ recv_buffer_ (fail_expired l readings c).1 = recv_buffer_ c.
Proof.
  induction l as [|p l IH]; intros readings c; [by split; [constructor|]|]. cbn. destruct (readings 0%nat) as [[t0 t1] now].
  specialize (IH (fun n => readings (S n)) (report_timeout t0 t1 now c)). destruct (fail_expired l _ _). cbn in *. destruct IH as [H1 ->]. split.
  - apply Forall_app. split; [apply unanswered_invoke|done].
  - unfold report_timeout. by destruct (circuit_breaker_ c).
Qed.

Lemma call_stale cmd data cb timeout now l1 l2 (c c' : client L) out : call e cmd data cb timeout now l1 l2 c = Some (c', out) ->
  unanswered out /\ recv_buffer_ c' = recv_buffer_ c.
Proof.
  unfold call. destruct (negb (connected c)); [intros [= <- <-]; split; [apply unanswered_invoke|done]|].
  destruct (breaker_open c); [intros [= <- <-]; split; [apply unanswered_invoke|done]|].
  destruct (pass_limiter l1 l2 c) as [[ok c1]|] eqn:E; [|done]. assert (recv_buffer_ c1 = recv_buffer_ c) as Hb.
  { unfold pass_limiter in E. destruct (rate_limiter_ c); [|by injection E as <- <-].
    destruct (RateLimiter.rl_step _ _) as [[rsp l']|]; [|done]. cbn [mbind option_bind] in E. cbv zeta in E.
    case_match; [by injection E as <- <-|]. destruct (RateLimiter.rl_step (RateLimiter.ReqConsume _ _ _) l') as [[? ?]|]; [|done]. by injection E as <- <-. }
  cbn. destruct ok; intros [= <- <-]; (split; [|done]); [by repeat constructor|apply unanswered_invoke].
Qed.

Lemma step_stale m x ev (c c' : client L) out : Z.of_nat (length (body m)) < 65536 -> (length x + received [ev] < length (body m))%nat ->
  recv_buffer_ c = take 4 (serialize e m) ++ x -> step e ev c = Some (c', out) ->
  unanswered out /\ exists x', recv_buffer_ c' = take 4 (serialize e m) ++ x' /\ length x' = (length x + received [ev])%nat.
Proof.
  intros Hm Hx Hb Hs. unfold received in *. cbn [sum_list_with] in *. rewrite ?Nat.add_0_r in *.
  destruct ev as [|cmd data cb timeout now l1 l2|data|now readings| |]; cbn [step] in Hs; rewrite ?Nat.add_0_r.
  - unfold connect in Hs. destruct (cleanup_thread_ c); [done|]. injection Hs as <- <-. split; [constructor|by exists x].
  - apply call_stale in Hs as [H1 H2]. split; [done|]. exists x. by rewrite H2.
  - unfold on_message in Hs. rewrite Hb, <- app_assoc, header_waits in Hs by (rewrite ?length_app; lia). cbn in Hs. injection Hs as <- <-.
    split; [constructor|]. exists (x ++ data). split; [done|]. by rewrite length_app.
  - injection Hs as Hs. unfold cleanup_expired_requests in Hs. cbv zeta in Hs.
    destruct (fail_expired_stale (expired now c) readings (with_pending (filter (fun p => ~ deadline p.2 <= now) (pending_requests_ c)) c)) as [H1 H2].
    rewrite Hs in H1, H2. split; [exact H1|]. exists x. cbn in H2. by rewrite H2.
  - injection Hs as <- <-. split; [apply fail_all_unanswered|by exists x].
  - injection Hs as <- <-. split; [apply fail_all_unanswered|by exists x].
Qed.

(** The receive buffer outlives its connection: when an answer was cut off after its
    header, then whatever is called and answered later, over however many new
    connections, no answer reaches its callback until the missing bytes of the lost one
    have been made up by others. *)
Theorem stale_bytes_swallow_answers evs m x (c c' : client L) out : Z.of_nat (length (body m)) < 65536 ->
  recv_buffer_ c = take 4 (serialize e m) ++ x -> (length x + received evs < length (body m))%nat ->
  run e evs c = Some (c', out) -> forall f r, ~ Called f true r ∈ out.
Proof.
  intros Hm Hb Hx Hr f r Hin. enough (unanswered out) as H by exact (proj1 (Forall_forall _ _) H _ Hin). clear Hin.
  revert x c c' out Hb Hx Hr. induction evs as [|ev evs IH]; intros x c c' out Hb Hx Hr; cbn [run] in Hr; [by injection Hr as <- <-; constructor|].
  destruct (step e ev c) as [[c1 o1]|] eqn:Es; [|done]. cbn [mbind option_bind] in Hr. destruct (run e evs c1) as [[c2 o2]|] eqn:Er; [|done].
  injection Hr as <- <-. assert (received (ev :: evs) = received [ev] + received evs)%nat as Hrec by (unfold received; cbn [sum_list_with]; lia).
  destruct (step_stale m x ev c c1 o1 Hm ltac:(lia) Hb Es) as (H1 & x1 & Hb1 & Hl1). apply Forall_app. split; [done|].
  eapply (IH x1); [done|lia|done].
Qed.
End Stale.

(** ** Witnesses *)

#[local] Existing Instance RateLimiter.TokenBucket.token_bucket_limiter.
#[local] Instance z_order : IterOrder Z := key_order Z.

Definition demo_client (b : option CircuitBreaker.breaker) (rl : option RateLimiter.TokenBucket.limiter) := RpcClient 5 b rl.
Definition demo_call (f : Z) : event := Call 7 [Byte.x41] (Some f) (-1) 0 [] [].

(** Closed terms, evaluated once. *)
Lemma demo_calls : exists c out, run Little [Connect; demo_call 1; demo_call 2; Closed; demo_call 3] (demo_client None None) = Some (c, out).
Proof.
  destruct (run _ _ _) as [[c out]|] eqn:E; [by exists c, out|]. exfalso.
  assert (match run Little [Connect; demo_call 1; demo_call 2; Closed; demo_call 3] (demo_client None None) with Some _ => true | None => false end = true) as H by (vm_compute; reflexivity).
  by rewrite E in H.
Qed.

Lemma callbacks_called_once_witness :
  let evs := [Connect; demo_call 1; demo_call 2; Closed; demo_call 3] in
  exists c out, run Little evs (demo_client None None) = Some (c, out) /\ called out ++ owed c ≡ₚ [1; 2; 3].
Proof.
  intros evs. destruct demo_calls as (c & out & H). exists c, out. split; [exact H|].
  exact (proj1 (callbacks_called_once Little evs 5 None None c out H ltac:(reflexivity))).
Defined.

Definition demo_breaker : CircuitBreaker.breaker := CircuitBreaker.breaker_init "rpc" CircuitBreaker.default_config 0.
Definition no_readings (n : nat) : Z * Z * Z := (0, 0, 0).

Lemma demo_timeout : exists c1 out1 c2 out2, run Little [Connect; demo_call 1] (demo_client (Some demo_breaker) None) = Some (c1, out1) /\
  expired (6 * 10 ^ 9) c1 <> [] /\ run Little [demo_call 2; demo_call 3] (cleanup_expired_requests (6 * 10 ^ 9) no_readings c1).1 = Some (c2, out2).
Proof.
  assert (match run Little [Connect; demo_call 1] (demo_client (Some demo_breaker) None) with
    | Some (c1, _) => match expired (6 * 10 ^ 9) c1, run Little [demo_call 2; demo_call 3] (cleanup_expired_requests (6 * 10 ^ 9) no_readings c1).1 with
                      | _ :: _, Some _ => true | _, _ => false end
    | None => false end = true) as H by (vm_compute; reflexivity).
  destruct (run Little [Connect; demo_call 1] _) as [[c1 out1]|]; [|done]. destruct (expired _ c1) eqn:E; [done|].
  destruct (run Little [demo_call 2; demo_call 3] _) as [[c2 out2]|] eqn:E2; [|done]. exists c1, out1, c2, out2. by rewrite E.
Qed.

Lemma one_timeout_ends_client_witness : exists c1 c2 out2,
  run Little [demo_call 2; demo_call 3] (cleanup_expired_requests (6 * 10 ^ 9) no_readings c1).1 = Some (c2, out2) /\ sends out2 = [].
Proof.
  destruct demo_timeout as (c1 & out1 & c2 & out2 & H1 & He & H2). exists c1, c2, out2. split; [exact H2|].
  exact (proj1 (one_timeout_ends_client Little _ _ 5 "rpc" 0 None _ no_readings c1 out1 c2 out2 H1 He H2)).
Defined.

Lemma reconnect_terminates_witness : run Little [Closed; Connect] (with_cleanup true (demo_client None None)) = None.
Proof.
  apply (reconnect_terminates Little [Closed] (with_cleanup true (demo_client None None)) _ _ eq_refl eq_refl). by intros H%list_elem_of_singleton.
Defined.

Lemma burst_halved_witness : exists c' out,
  run Little (burst 0 (replicate 5 (7, [], None))) (with_connected true (demo_client None (Some (RateLimiter.TokenBucket.limiter_init 3 (f64_of_Z 1))))) = Some (c', out) /\
  Z.of_nat (length (sends out)) = 2.
Proof.
  apply (burst_halved Little 0 (replicate 5 (7, [], None)) 3 (f64_of_Z 1)); try reflexivity. lia.
Defined.

Definition stale_client : client RateLimiter.TokenBucket.limiter :=
  with_buffer (take 4 (serialize Little (mkMessage 7 (replicate 30 Byte.x00))) ++ [Byte.x00]) (demo_client None None).
Definition stale_events : list event := [Connect; demo_call 1; Receive (serialize Little (mkMessage 7 (encode_rpc_body Little 1 [])))].

Lemma demo_stale : exists c out, run Little stale_events stale_client = Some (c, out).
Proof.
  destruct (run Little stale_events stale_client) as [[c out]|] eqn:E; [by exists c, out|]. exfalso.
  assert (match run Little stale_events stale_client with Some _ => true | None => false end = true) as H by (vm_compute; reflexivity).
  by rewrite E in H.
Qed.

Lemma stale_bytes_swallow_answers_witness : exists c out, run Little stale_events stale_client = Some (c, out) /\ (forall r, ~ Called 1 true r ∈ out).
Proof.
  destruct demo_stale as (c & out & H). exists c, out. split; [exact H|]. intros r.
  refine (stale_bytes_swallow_answers Little stale_events (mkMessage 7 (replicate 30 Byte.x00)) [Byte.x00] stale_client c out _ eq_refl _ H 1 r).
  - reflexivity.
  - cbn. lia.
Defined.
