(* ===== verification/ConnPool.v ===== *)
(** * ConnPool: src/net/connection_pool.cpp

    A pool of connections shared by threads.  A step is what one thread does between
    two points where another may be seen: an access to an atomic field or a critical
    section of [mutex_].  A callback is a number; one that runs inside a critical
    section and takes the mutex itself never ends ([None]).  A connection (the object
    of its [shared_ptr]) is a number.  Times are milliseconds of the steady clock, read
    in order from a sequence. *)

From S2P Require Import Prelude.
From S2P Require Import Wire.

(** ** Data *)

Record ConnectionPoolConfig := mkPoolConfig {
  host : str;
  port : Z;
  min_connections : Z;
  max_connections : Z;
  idle_timeout_ms : Z;
  max_lifetime_ms : Z
}.

Record PooledConnection := mkPooled {
  connection : option Z;
  create_time : Z;
  last_used_time : Z;
  in_use : bool;
  is_valid : bool
}.

Definition empty_connection : PooledConnection := mkPooled None 0 0 false false.

Record pool := mkPool {
  config_ : ConnectionPoolConfig;
  connections_ : list PooledConnection;
  waiting_callbacks_ : list Z;
  shutdown_ : bool;
  pending_creates_ : Z
}.

Inductive effect :=
| Close (conn : Z)
| Called (f : Z) (conn : PooledConnection).

(** The readings of the clock, in order. *)
Definition clock : Type := nat -> Z.
Definition after (n : nat) (now : clock) : clock := fun i => now (n + i)%nat.

Definition ConnectionPool (config : ConnectionPoolConfig) : pool := mkPool config [] [] false 0.

Definition with_connections (l : list PooledConnection) (p : pool) : pool :=
  mkPool (config_ p) l (waiting_callbacks_ p) (shutdown_ p) (pending_creates_ p).
Definition with_waiting (l : list Z) (p : pool) : pool :=
  mkPool (config_ p) (connections_ p) l (shutdown_ p) (pending_creates_ p).
Definition with_shutdown (p : pool) : pool :=
  mkPool (config_ p) (connections_ p) (waiting_callbacks_ p) true (pending_creates_ p).
Definition with_pending (n : Z) (p : pool) : pool :=
  mkPool (config_ p) (connections_ p) (waiting_callbacks_ p) (shutdown_ p) n.

Definition set_valid (b : bool) (c : PooledConnection) : PooledConnection :=
  mkPooled (connection c) (create_time c) (last_used_time c) (in_use c) b.
Definition set_used (b : bool) (now : Z) (c : PooledConnection) : PooledConnection :=
  mkPooled (connection c) (create_time c) now b (is_valid c).

(** ** Connections *)

Section Pool.
(** Whether callback [f], given a connection while the pool's [shutdown_] is the
    flag, takes the pool's mutex before it returns. *)
Context (takes_mutex : Z -> PooledConnection -> bool -> bool).

(** [create_connection]: [made] is the connection the network gives, if it does. *)
Definition create_connection (cfg : ConnectionPoolConfig) (made : option Z) (now : Z) : option PooledConnection :=
  if bool_decide (host cfg = []) || (port cfg =? 0) then None
  else conn ← made; Some (mkPooled (Some conn) now now false true).

(** The answer, and the object as it is left. *)
Definition validate_connection (cfg : ConnectionPoolConfig) (now : Z) (c : PooledConnection) : bool * PooledConnection :=
  if negb (is_valid c) || bool_decide (connection c = None) then (false, c)
  else if (0 <? max_lifetime_ms cfg) && (max_lifetime_ms cfg <? now - create_time c) then (false, set_valid false c)
  else if negb (in_use c) && (idle_timeout_ms cfg <? now - last_used_time c) then (false, set_valid false c)
  else (true, c).

Definition close_of (c : PooledConnection) : list effect := match connection c with Some conn => [Close conn] | None => [] end.

(** The clock is read by those that are tested to the end. *)
Definition reads_clock (c : PooledConnection) : nat := if negb (is_valid c) || bool_decide (connection c = None) then 0%nat else 1%nat.

Fixpoint cleanup_expired (cfg : ConnectionPoolConfig) (now : clock) (l : list PooledConnection) : list PooledConnection * list effect :=
  match l with
  | [] => ([], [])
  | c :: l' =>
      let '(ok, c1) := validate_connection cfg (now 0%nat) c in
      let '(rest, out) := cleanup_expired cfg (after (reads_clock c) now) l' in
      if negb ok && negb (in_use c1) then (rest, close_of c1 ++ out) else (c1 :: rest, out)
  end.

(** The first idle connection that is valid, marked as used. *)
Fixpoint try_get_idle (cfg : ConnectionPoolConfig) (now : clock) (l : list PooledConnection) : option PooledConnection * list PooledConnection :=
  match l with
  | [] => (None, [])
  | c :: l' =>
      if negb (in_use c) && is_valid c then
        let '(ok, c1) := validate_connection cfg (now 0%nat) c in
        if ok then let c2 := set_used true (now 1%nat) c1 in (Some c2, c2 :: l')
        else let '(r, rest) := try_get_idle cfg (after (reads_clock c) now) l' in (r, c1 :: rest)
      else let '(r, rest) := try_get_idle cfg now l' in (r, c :: rest)
  end.

(** ** [get_connection], by its steps *)

(** After the test of [shutdown_]: what the first critical section decides. *)
Inductive decision := Answered (c : PooledConnection) | Waits | Creates.

Definition total (p : pool) : Z := i32 (Z.of_nat (length (connections_ p))) + pending_creates_ p.

Definition get_locked (f timeout_ms : Z) (now : clock) (p : pool) : pool * list effect * decision :=
  let '(l, closed) := cleanup_expired (config_ p) now (connections_ p) in
  let p := with_connections l p in
  match try_get_idle (config_ p) (after (sum_list_with reads_clock l) now) l with
  | (Some conn, l1) => (with_connections l1 p, closed, Answered conn)
  | (None, l1) =>
      let p := with_connections l1 p in
      if total p <? max_connections (config_ p) then (with_pending (pending_creates_ p + 1) p, closed, Creates)
      else if timeout_ms =? 0 then (p, closed, Answered empty_connection)
      else (with_waiting (waiting_callbacks_ p ++ [f]) p, closed, Waits)
  end.

(** The second critical section, with the connection made. *)
Definition push_created (now : Z) (conn : PooledConnection) (p : pool) : pool * PooledConnection :=
  if shutdown_ p then (p, conn)
  else let conn := set_used true now conn in (with_connections (connections_ p ++ [conn]) p, conn).

(** ** [return_connection] and [shutdown] *)

Fixpoint mark_returned (conn : Z) (now : Z) (l : list PooledConnection) : list PooledConnection * list effect :=
  match l with
  | [] => ([], [])
  | c :: l' =>
      if bool_decide (connection c = Some conn)
      then (set_used false now c :: l', if is_valid c then [] else [Close conn])
      else let '(rest, out) := mark_returned conn now l' in (c :: rest, out)
  end.

(** The caller's copy loses its connection and is not modelled further. *)
Definition return_connection (conn : option Z) (now : clock) (p : pool) : option (pool * list effect) :=
  match conn with
  | None => Some (p, [])
  | Some conn =>
      let '(l, closed) := mark_returned conn (now 0%nat) (connections_ p) in
      let p := with_connections l p in
      match waiting_callbacks_ p with
      | [] => Some (p, closed)
      | f :: waiting =>
          match try_get_idle (config_ p) (after 1 now) l with
          | (None, l1) => Some (with_connections l1 p, closed)
          | (Some idle_conn, l1) =>
              if takes_mutex f idle_conn (shutdown_ p) then None
              else Some (with_waiting waiting (with_connections l1 p), closed ++ [Called f idle_conn])
          end
      end
  end.

(** The critical section of the [shutdown] that set the flag. *)
Definition shutdown_locked (p : pool) : option (pool * list effect) :=
  if existsb (fun f => takes_mutex f empty_connection true) (waiting_callbacks_ p) then None
  else Some (with_waiting [] (with_connections [] p),
             (connections_ p ≫= close_of) ++ map (fun f => Called f empty_connection) (waiting_callbacks_ p)).

(** [init], on one thread: the connections the network gives at each attempt. *)
Fixpoint init_loop (made : list (option Z)) (now : clock) (p : pool) : pool :=
  match made with
  | [] => p
  | m :: made' =>
      init_loop made' (after 1 now)
        match create_connection (config_ p) m (now 0%nat) with
        | Some c => with_connections (connections_ p ++ [c]) p
        | None => p
        end
  end.

Definition init (made : nat -> option Z) (now : clock) (p : pool) : bool * pool :=
  if shutdown_ p then (false, p) else (true, init_loop (map made (seq 0 (Z.to_nat (min_connections (config_ p))))) now p).

(** *** Statistics *)

Definition total_connections (p : pool) : Z := Z.of_nat (length (connections_ p)).
Definition idle_connections (p : pool) : Z := Z.of_nat (length (filter (fun c => negb (in_use c) && is_valid c) (connections_ p))).
Definition active_connections (p : pool) : Z := Z.of_nat (length (filter in_use (connections_ p))).

(** ** Threads *)

Inductive thread :=
| Idle
| Entering (f timeout_ms : Z)                 (* shutdown_ was read as false *)
| Creating (f : Z)                            (* pending_creates_ counts this thread *)
| Pushing (f : Z) (conn : PooledConnection)   (* it does not any more *)
| Closing.                                    (* shutdown_ was set by this thread *)

Inductive action :=
| Get (f timeout_ms : Z)
| Enter (now : clock)
| Create (made : option Z) (now : Z)
| Push (now : Z)
| Return (conn : option Z) (now : clock)
| Shutdown
| Clear.

(** What thread state and action do to the pool, the new thread state, the effects. *)
Definition act (a : action) (t : thread) (p : pool) : option (thread * pool * list effect) :=
  match a, t with
  | Get f timeout_ms, Idle => Some (if shutdown_ p then (Idle, p, [Called f empty_connection]) else (Entering f timeout_ms, p, []))
  | Enter now, Entering f timeout_ms =>
      match get_locked f timeout_ms now p with
      | (p1, closed, Answered c) => Some (Idle, p1, closed ++ [Called f c])
      | (p1, closed, Waits) => Some (Idle, p1, closed)
      | (p1, closed, Creates) => Some (Creating f, p1, closed)
      end
  | Create made now, Creating f =>
      let p1 := with_pending (pending_creates_ p - 1) p in
      Some match create_connection (config_ p) made now with
           | Some c => (Pushing f c, p1, [])
           | None => (Idle, p1, [Called f empty_connection])
           end
  | Push now, Pushing f c => let '(p1, c1) := push_created now c p in Some (Idle, p1, [Called f c1])
  | Return conn now, Idle => '(p1, out) ← return_connection conn now p; Some (Idle, p1, out)
  | Shutdown, Idle => Some (if shutdown_ p then (Idle, p, []) else (Closing, with_shutdown p, []))
  | Clear, Closing => '(p1, out) ← shutdown_locked p; Some (Idle, p1, out)
  | _, _ => None
  end.
End Pool.

(** ** [ConnectionGuard]

    A guard has a pool or a null pointer; the copy it holds is its connection.
    [release] returns it to the pool. *)

Record ConnectionGuard := mkGuard { pool_ : bool; conn_ : option Z }.

Definition no_guard : ConnectionGuard := mkGuard false None.

Definition release (g : ConnectionGuard) : ConnectionGuard * list Z :=
  (mkGuard false None, if pool_ g then option_list (conn_ g) else []).

(** The move constructor and what it leaves. *)
Definition move (other : ConnectionGuard) : ConnectionGuard * ConnectionGuard := (other, mkGuard false (conn_ other)).

(** [*this = std::move(other)] for another guard: this guard, the other, what is returned. *)
Definition move_assign (this other : ConnectionGuard) : ConnectionGuard * ConnectionGuard * list Z :=
  let '(_, returned) := release this in (other, mkGuard false (conn_ other), returned).

Definition valid_guard (g : ConnectionGuard) (c : PooledConnection) : bool := bool_decide (conn_ g <> None) && is_valid c.

(** ** [ConnectionPoolManager]

    Pools by name; a pool is an object of the heap, shared with those who got it. *)

Record manager := mkManager { heap : gmap Z pool; pools_ : gmap str Z }.

Section Manager.
Context (takes_mutex : Z -> PooledConnection -> bool -> bool).

(** [shutdown] by one thread. *)
Definition shutdown (p : pool) : option (pool * list effect) :=
  if shutdown_ p then Some (p, []) else shutdown_locked takes_mutex (with_shutdown p).

(** [get_pool(io_service, name, config)]; [id] is the new object's address. *)
Definition get_pool (name : str) (config : ConnectionPoolConfig) (id : Z) (made : nat -> option Z) (now : clock) (m : manager) : option Z * manager :=
  match pools_ m !! name with
  | Some p => (Some p, m)
  | None =>
      let '(ok, p) := init made now (ConnectionPool config) in
      if ok : bool then (Some id, mkManager (<[id := p]> (heap m)) (<[name := id]> (pools_ m))) else (None, m)
  end.

Definition find_pool (name : str) (m : manager) : option Z := pools_ m !! name.

Definition remove_pool (name : str) (m : manager) : option (manager * list effect) :=
  match pools_ m !! name with
  | Some id =>
      p ← heap m !! id;
      '(p1, out) ← shutdown p;
      Some (mkManager (<[id := p1]> (heap m)) (delete name (pools_ m)), out)
  | None => Some (m, [])
  end.

(** [shutdown_all], in the table's order [l]. *)
Fixpoint shutdown_each (l : list (str * Z)) (h : gmap Z pool) : option (gmap Z pool * list effect) :=
  match l with
  | [] => Some (h, [])
  | (_, id) :: l' =>
      p ← h !! id;
      '(p1, out1) ← shutdown p;
      '(h2, out2) ← shutdown_each l' (<[id := p1]> h);
      Some (h2, out1 ++ out2)
  end.

Definition shutdown_all (order : list (str * Z)) (m : manager) : option (manager * list effect) :=
  '(h, out) ← shutdown_each order (heap m); Some (mkManager h ∅, out).
End Manager.
