(* ===== verification/ConnPoolFacts.v ===== *)
(** * ConnPoolFacts: who has a connection, and how many there are *)

From S2P Require Import Prelude.
From S2P Require Import Wire.
From S2P Require Import ConnPool.

(** ** Threads and users of a pool

    Beside the pool and its threads, what the users were given: the connections they
    hold, the callbacks passed and the effects so far. *)

Record system := mkSystem {
  the_pool : pool;
  threads : list thread;
  held : list Z;
  given : list Z;
  effects : list effect
}.

Section System.
Context (takes_mutex : Z -> PooledConnection -> bool -> bool).

Definition id_of (c : PooledConnection) : list Z := option_list (connection c).
Definition gained (out : list effect) : list Z := out ≫= fun x => match x with Called _ c => id_of c | _ => [] end.
Definition pushed_id (t : thread) : list Z := match t with Pushing _ c => id_of c | _ => [] end.
Definition idle_ids (l : list PooledConnection) : list Z := filter (fun c => ~ in_use c) l ≫= id_of.
Definition used_ids (l : list PooledConnection) : list Z := filter in_use l ≫= id_of.

(** The users' part: they return what they hold, once, and the network gives a
    connection that is nowhere else. *)
Definition proper (a : action) (s : system) : bool :=
  match a with
  | Return (Some c) _ => bool_decide (c ∈ held s)
  | Create (Some c) _ => bool_decide (c ∉ idle_ids (connections_ (the_pool s)) ++ held s ++ (threads s ≫= pushed_id))
  | _ => true
  end.

Definition kept (a : action) (l : list Z) : list Z :=
  match a with Return (Some c) _ => filter (fun x => x <> c) l | _ => l end.
Definition asked (a : action) : list Z := match a with Get f _ => [f] | _ => [] end.

Definition sys_step (i : nat) (a : action) (s : system) : option system :=
  if negb (proper a s) then None
  else
    t ← threads s !! i;
    '(t', p', out) ← act takes_mutex a t (the_pool s);
    Some (mkSystem p' (<[i := t']> (threads s)) (gained out ++ kept a (held s)) (given s ++ asked a) (effects s ++ out)).

Fixpoint run (l : list (nat * action)) (s : system) : option system :=
  match l with [] => Some s | (i, a) :: l' => s1 ← sys_step i a s; run l' s1 end.

(** An invariant of the steps holds after every run. *)
Lemma run_inv (I : system -> Prop) l : (forall i a s s', I s -> sys_step i a s = Some s' -> I s') ->
  forall s s', I s -> run l s = Some s' -> I s'.
Proof.
  intros HI. induction l as [|[i a] l IH]; intros s s' Hs; cbn; [by intros [= <-]|].
  destruct (sys_step i a s) as [s1|] eqn:E; [|done]. cbn. apply IH. by eapply HI.
Qed.

Lemma sys_step_inv i a s s' : sys_step i a s = Some s' -> proper a s = true /\
  exists t t' p' out, threads s !! i = Some t /\ act takes_mutex a t (the_pool s) = Some (t', p', out) /\
    s' = mkSystem p' (<[i := t']> (threads s)) (gained out ++ kept a (held s)) (given s ++ asked a) (effects s ++ out).
Proof.
  unfold sys_step. destruct (proper a s); [|done]. cbn [negb]. destruct (threads s !! i) as [t|] eqn:Ht; [|done]. cbn.
  destruct (act takes_mutex a t (the_pool s)) as [[[t' p'] out]|] eqn:E; [|done]. cbn. intros [= <-]. split; [done|].
  by exists t, t', p', out.
Qed.

(** ** Ownership *)

Definition owned (s : system) : Prop :=
  NoDup (idle_ids (connections_ (the_pool s)) ++ held s ++ (threads s ≫= pushed_id)) /\
  used_ids (connections_ (the_pool s)) ⊆+ held s.

Arguments idle_ids : simpl never.
Arguments used_ids : simpl never.
Arguments gained : simpl never.

Lemma idle_cons c l : idle_ids (c :: l) = (if in_use c then [] else id_of c) ++ idle_ids l.
Proof. unfold idle_ids. rewrite filter_cons. by destruct (in_use c). Qed.

Lemma used_cons c l : used_ids (c :: l) = (if in_use c then id_of c else []) ++ used_ids l.
Proof. unfold used_ids. rewrite filter_cons. by destruct (in_use c). Qed.

Lemma idle_app l l' : idle_ids (l ++ l') = idle_ids l ++ idle_ids l'.
Proof. unfold idle_ids. by rewrite filter_app, bind_app. Qed.

Lemma used_app l l' : used_ids (l ++ l') = used_ids l ++ used_ids l'.
Proof. unfold used_ids. by rewrite filter_app, bind_app. Qed.

Lemma validate_keeps cfg now c : connection (validate_connection cfg now c).2 = connection c /\ in_use (validate_connection cfg now c).2 = in_use c.
Proof. unfold validate_connection. by repeat case_match. Qed.

Lemma cleanup_ids cfg now l : sublist (idle_ids (cleanup_expired cfg now l).1) (idle_ids l) /\ used_ids (cleanup_expired cfg now l).1 = used_ids l /\
  gained (cleanup_expired cfg now l).2 = [].
Proof.
  revert now. induction l as [|c l IH]; intros now; [done|]. cbn. destruct (validate_keeps cfg (now 0%nat) c) as [H1 H2].
  destruct (validate_connection cfg (now 0%nat) c) as [ok c1]. cbn in H1, H2. specialize (IH (after (reads_clock c) now)).
  destruct (cleanup_expired cfg _ l) as [rest out]. cbn in IH. destruct IH as (IH1 & IH2 & IH3).
  destruct (negb ok && negb (in_use c1)) eqn:E; cbn; rewrite idle_cons, used_cons.
  - apply andb_prop in E as [_ E]. apply negb_true_iff in E. rewrite H2 in E. rewrite E. split_and!; [by apply sublist_inserts_l|done|].
    unfold gained, close_of in *. destruct (connection c1); [|done]. by cbn.
  - rewrite idle_cons, used_cons, H2. unfold id_of. rewrite H1, IH2. split_and!; [by apply sublist_app|done|done].
Qed.

Lemma idle_spec cfg now l : match try_get_idle cfg now l with
  | (Some c, l') => idle_ids l ≡ₚ id_of c ++ idle_ids l' /\ used_ids l' ≡ₚ id_of c ++ used_ids l
  | (None, l') => idle_ids l' = idle_ids l /\ used_ids l' = used_ids l
  end.
Proof.
  revert now. induction l as [|c l IH]; intros now; [done|]. cbn. destruct (negb (in_use c) && is_valid c) eqn:E.
  - apply andb_prop in E as [E _]. apply negb_true_iff in E. destruct (validate_keeps cfg (now 0%nat) c) as [H1 H2].
    destruct (validate_connection cfg (now 0%nat) c) as [ok c1]. cbn in H1, H2. destruct ok.
    + rewrite !idle_cons, !used_cons, E. unfold id_of. cbn. by rewrite H1.
    + specialize (IH (after (reads_clock c) now)). destruct (try_get_idle cfg _ l) as [[r|] rest]; rewrite !idle_cons, !used_cons, H2, E; assert (id_of c1 = id_of c) as -> by (unfold id_of; by rewrite H1).
      * destruct IH as [-> ->]. split; [|done]. by rewrite Permutation_app_swap_app.
      * by destruct IH as [-> ->].
  - specialize (IH now). destruct (try_get_idle cfg now l) as [[r|] rest]; rewrite !idle_cons, !used_cons.
    + destruct IH as [H1 H2]. rewrite H1, H2. split; by rewrite Permutation_app_swap_app.
    + by destruct IH as [-> ->].
Qed.

Lemma mark_spec conn now l : conn ∉ idle_ids l -> idle_ids (mark_returned conn now l).1 ⊆+ conn :: idle_ids l /\
  used_ids (mark_returned conn now l).1 ⊆+ used_ids l /\
  (conn ∈ used_ids (mark_returned conn now l).1 -> exists k, used_ids l ≡ₚ conn :: conn :: k) /\ gained (mark_returned conn now l).2 = [].
Proof.
  induction l as [|c l IH]; intros Hn; [cbn; split_and!; [apply submseteq_nil_l|done|by intros ?%elem_of_nil|done]|].
  cbn [mark_returned]. rewrite idle_cons, not_elem_of_app in Hn. destruct Hn as [Hc Hn]. case_bool_decide as E.
  - cbn [fst snd]. rewrite !idle_cons, !used_cons. unfold id_of. cbn. rewrite E. unfold id_of in Hc. rewrite E in Hc. cbn in Hc.
    destruct (in_use c); [|exfalso; apply Hc; apply list_elem_of_here]. cbn. split_and!; [done|by apply submseteq_cons| |by case_match].
    intros Hin. apply elem_of_Permutation in Hin as [k Hk]. exists k. by rewrite Hk.
  - destruct (IH Hn) as (H1 & H2 & H3 & H4). destruct (mark_returned conn now l) as [rest out]. cbn [fst snd] in *. rewrite !idle_cons, !used_cons.
    split_and!; [| |intros Hin|done].
    + rewrite Permutation_middle. by apply submseteq_skips_l.
    + by apply submseteq_skips_l.
    + apply elem_of_app in Hin as [Hin|Hin].
      * exfalso. destruct (in_use c); [|by apply elem_of_nil in Hin]. unfold id_of in Hin. destruct (connection c) as [x|]; [|by apply elem_of_nil in Hin].
        apply list_elem_of_singleton in Hin. congruence.
      * destruct (H3 Hin) as [k Hk]. exists ((if in_use c then id_of c else []) ++ k). rewrite Hk. by rewrite !Permutation_middle.
Qed.

Definition new_id (a : action) : list Z := match a with Create (Some c) _ => [c] | Return (Some c) _ => [c] | _ => [] end.

Lemma gained_app out1 out2 : gained (out1 ++ out2) = gained out1 ++ gained out2.
Proof. apply bind_app. Qed.

Lemma gained_closes l : gained (l ≫= close_of) = [].
Proof. induction l as [|c l IH]; [done|]. cbn. rewrite gained_app, IH. unfold close_of. by destruct (connection c). Qed.

Lemma gained_refused l : gained (map (fun f => Called f empty_connection) l) = [].
Proof. induction l as [|f l IH]; [done|]. exact IH. Qed.

(** The first critical section of [get_connection]. *)
Lemma get_locked_ids f timeout now p : let '(p', out, d) := get_locked f timeout now p in
  let got := match d with Answered c => id_of c | _ => [] end in
  got ++ idle_ids (connections_ p') ⊆+ idle_ids (connections_ p) /\ used_ids (connections_ p') ≡ₚ got ++ used_ids (connections_ p) /\ gained out = [].
Proof.
  unfold get_locked. destruct (cleanup_ids (config_ p) now (connections_ p)) as (H1 & H2 & H3).
  destruct (cleanup_expired (config_ p) now (connections_ p)) as [l closed]. cbn in H1, H2, H3. cbv zeta. cbn [config_ with_connections].
  pose proof (idle_spec (config_ p) (after (sum_list_with reads_clock l) now) l) as Hi.
  destruct (try_get_idle _ _ l) as [[c|] l1]; destruct Hi as [Hi Hu].
  - cbn. rewrite <- Hi, Hu, H2. split_and!; [by apply sublist_submseteq|done|done].
  - destruct (_ <? _); [|destruct (_ =? 0)]; cbn; rewrite Hi, Hu, H2; (split_and!; [by apply sublist_submseteq|done|done]).
Qed.

Lemma kept_submseteq a l l' : l ⊆+ l' -> kept a l ⊆+ kept a l'.
Proof.
  intros [k Hk]%submseteq_Permutation. destruct a as [| | | |[c|]| |]; cbn; rewrite Hk; try (apply submseteq_inserts_r; reflexivity).
  rewrite filter_app. by apply submseteq_inserts_r.
Qed.

Lemma kept_absent c now l : c ∉ l -> kept (Return (Some c) now) l = l.
Proof.
  intros Hn. induction l as [|x l IH]; [done|]. apply not_elem_of_cons in Hn as [Hx Hn]. cbn [kept] in *. rewrite filter_cons_True by congruence. by rewrite IH.
Qed.

Lemma create_spec cfg made now : match create_connection cfg made now with
  | Some c => exists id, made = Some id /\ connection c = Some id
  | None => True
  end.
Proof. unfold create_connection. destruct (_ || _); [done|]. destruct made as [id|]; [|done]. by exists id. Qed.

(** Any action: where the connections of the pool, of the callbacks and of the
    thread come from. *)
Lemma act_ids a t p t' p' out : act takes_mutex a t p = Some (t', p', out) ->
  match a with Return (Some c) _ => c ∉ idle_ids (connections_ p) | _ => True end -> NoDup (used_ids (connections_ p)) ->
  idle_ids (connections_ p') ++ gained out ++ pushed_id t' ⊆+ idle_ids (connections_ p) ++ pushed_id t ++ new_id a /\
  used_ids (connections_ p') ⊆+ gained out ++ kept a (used_ids (connections_ p)).
Proof.
  intros Ha Hc Hn. destruct a as [f timeout|now|made now|now|conn now| |], t as [|f0 timeout0|f0|f0 c0|]; try done; cbn in Ha.
  - destruct (shutdown_ p); injection Ha as <- <- <-; cbn; rewrite !app_nil_r; by split.
  - pose proof (get_locked_ids f0 timeout0 now p) as H. destruct (get_locked f0 timeout0 now p) as [[p1 closed] d]. cbv zeta in H. destruct H as (H1 & H2 & H3).
    destruct d as [c| |]; injection Ha as <- <- <-; cbn [pushed_id new_id kept]; rewrite ?gained_app, H3, !app_nil_r.
    + cbn in H1, H2. change (gained [Called f0 c]) with (id_of c ++ []). cbn [app]. rewrite app_nil_r. split; [by rewrite Permutation_app_comm|by rewrite H2].
    + by rewrite H2.
    + by rewrite H2.
  - pose proof (create_spec (config_ p) made now) as Hm. destruct (create_connection (config_ p) made now) as [c|]; injection Ha as <- <- <-; cbn [pushed_id connections_ with_pending].
    + destruct Hm as (id & -> & Hid). unfold id_of. rewrite Hid. by split.
    + change (gained [Called f0 empty_connection]) with ([] : list Z). cbn [app]. rewrite app_nil_r. split; [by apply submseteq_inserts_r|done].
  - unfold push_created in Ha. destruct (shutdown_ p); injection Ha as <- <- <-; cbn [pushed_id new_id kept connections_ with_connections].
    + change (gained [Called f0 c0]) with (id_of c0 ++ []). rewrite !app_nil_r. split; [done|]. by apply submseteq_inserts_l.
    + change (gained [Called f0 (set_used true now c0)]) with (id_of c0 ++ []). rewrite !app_nil_r.
      rewrite idle_app, used_app, idle_cons, used_cons. cbn [in_use set_used].
      change (idle_ids []) with ([] : list Z). change (used_ids []) with ([] : list Z). rewrite !app_nil_r. split; [done|]. by rewrite Permutation_app_comm.
  - destruct conn as [c|].
    + cbn [return_connection] in Ha. destruct (mark_spec c (now 0%nat) (connections_ p) Hc) as (H1 & H2 & H3 & H4).
      destruct (mark_returned c (now 0%nat) (connections_ p)) as [l closed]. cbn [fst snd] in *.
      assert (used_ids l ⊆+ kept (Return (Some c) now) (used_ids (connections_ p))) as H5.
      { rewrite <- (kept_absent c now (used_ids l)); [by apply kept_submseteq|]. intros Hin. destruct (H3 Hin) as [k Hk]. rewrite Hk in Hn. apply NoDup_cons in Hn as [Hn _]. apply Hn. by left. }
      assert (c :: idle_ids (connections_ p) ≡ₚ idle_ids (connections_ p) ++ [c]) as Hcons by apply Permutation_cons_append.
      cbv zeta in Ha. cbn [waiting_callbacks_ with_connections config_] in Ha. destruct (waiting_callbacks_ p) as [|f waiting].
      { injection Ha as <- <- <-. cbn [connections_ with_connections pushed_id new_id]. rewrite H4, <- Hcons. cbn [app]. by rewrite app_nil_r. }
      pose proof (idle_spec (config_ p) (after 1 now) l) as Hi. destruct (try_get_idle _ _ l) as [[c1|] l1]; destruct Hi as [Hi Hu].
      * case_match; [done|]. injection Ha as <- <- <-. cbn [connections_ with_connections with_waiting pushed_id new_id]. rewrite gained_app, H4.
        change (gained [Called f c1]) with (id_of c1 ++ []). cbn [app]. rewrite !app_nil_r, <- Hcons. split.
        -- rewrite Permutation_app_comm, <- Hi. done.
        -- rewrite Hu. by apply submseteq_skips_l.
      * injection Ha as <- <- <-. cbn [connections_ with_connections pushed_id new_id]. rewrite H4, <- Hcons, Hi, Hu. cbn [app]. by rewrite app_nil_r.
    + cbn in Ha. injection Ha as <- <- <-. cbn. rewrite !app_nil_r. by split.
  - destruct (shutdown_ p); injection Ha as <- <- <-; cbn; rewrite !app_nil_r; by split.
  - unfold shutdown_locked in Ha. case_match; [done|]. cbn in Ha. injection Ha as <- <- <-. cbn. rewrite gained_app, gained_closes, gained_refused. cbn.
    split; apply submseteq_nil_l.
Qed.

Lemma kept_once c now l : NoDup l -> c ∈ l -> l ≡ₚ c :: kept (Return (Some c) now) l.
Proof.
  intros Hn [k Hk]%elem_of_Permutation. rewrite Hk in Hn. apply NoDup_cons in Hn as [Hc _]. cbn [kept]. rewrite Hk. rewrite filter_cons_False by (intros H; by apply H).
  pose proof (kept_absent c now k Hc) as H. cbn [kept] in H. by rewrite H.
Qed.

Lemma perm_NoDup {A} (l l' : list A) : NoDup l -> l ≡ₚ l' -> NoDup l'.
Proof. by intros H <-. Qed.

Lemma sub_NoDup {A} (l l' : list A) : l ⊆+ l' -> NoDup l' -> NoDup l.
Proof. intros [k ->]%submseteq_Permutation. by intros [H _]%NoDup_app. Qed.

Lemma step_owned i a s s' : owned s -> sys_step i a s = Some s' -> owned s'.
Proof.
  intros [Hn Hu] (Hp & t & t' & p' & out & Ht & Ha & ->)%sys_step_inv.
  destruct (bind_insert pushed_id (threads s) i t Ht) as (R & HR & HR').
  assert (NoDup ((idle_ids (connections_ (the_pool s)) ++ pushed_id t ++ new_id a) ++ kept a (held s) ++ R) /\
    match a with Return (Some c) _ => c ∉ idle_ids (connections_ (the_pool s)) | _ => True end) as [Hnew Hret].
  { rewrite HR in Hn. pose proof (NoDup_app (idle_ids (connections_ (the_pool s))) (held s ++ pushed_id t ++ R)) as Happ.
    destruct a as [f timeout|now|[c|] now|now|[c|] now| |]; cbn [new_id kept proper] in *; try (split; [|done]).
    3: { apply bool_decide_eq_true in Hp. rewrite HR in Hp. enough (NoDup (c :: idle_ids (connections_ (the_pool s)) ++ held s ++ pushed_id t ++ R)) as H.
      { eapply (perm_NoDup _ _ H). solve_Permutation. }
      by apply NoDup_cons. }
    5: { apply bool_decide_eq_true in Hp. apply Happ in Hn as Hn'. destruct Hn' as (_ & Hd & Hh). apply NoDup_app in Hh as (Hh & _). split; [|intros Hin; apply (Hd c Hin), elem_of_app; by left].
      pose proof (kept_once c now (held s) Hh Hp) as Hk. rewrite Hk in Hn. cbn [kept] in *. eapply (perm_NoDup _ _ Hn). solve_Permutation. }
    all: rewrite ?app_nil_r; eapply (perm_NoDup _ _ Hn); solve_Permutation. }
  assert (NoDup (used_ids (connections_ (the_pool s)))) as Hus.
  { eapply sub_NoDup; [exact Hu|]. apply NoDup_app in Hn as (_ & _ & Hn). by apply NoDup_app in Hn as (? & _). }
  destruct (act_ids _ _ _ _ _ _ Ha Hret Hus) as [HA HB]. split; cbn [the_pool held threads].
  - rewrite HR'. eapply sub_NoDup; [|exact Hnew]. transitivity ((idle_ids (connections_ p') ++ gained out ++ pushed_id t') ++ kept a (held s) ++ R).
    + apply Permutation_submseteq. solve_Permutation.
    + by apply submseteq_app.
  - rewrite HB. apply submseteq_skips_l. by apply kept_submseteq.
Qed.

(** ** A pool just initialised, and its threads *)

Definition start (cfg : ConnectionPoolConfig) (made : nat -> option Z) (now : clock) (k : nat) : system :=
  mkSystem (init made now (ConnectionPool cfg)).2 (replicate k Idle) [] [] [].

(** The connections the network gives while the pool is initialised. *)
Definition first_made (cfg : ConnectionPoolConfig) (made : nat -> option Z) : list Z :=
  map made (seq 0 (Z.to_nat (min_connections cfg))) ≫= option_list.

Lemma init_loop_spec made now p : idle_ids (connections_ (init_loop made now p)) ⊆+ idle_ids (connections_ p) ++ (made ≫= option_list) /\
  used_ids (connections_ (init_loop made now p)) = used_ids (connections_ p) /\
  (length (connections_ (init_loop made now p)) <= length (connections_ p) + length made)%nat /\
  pending_creates_ (init_loop made now p) = pending_creates_ p /\ config_ (init_loop made now p) = config_ p /\
  waiting_callbacks_ (init_loop made now p) = waiting_callbacks_ p.
Proof.
  revert now p. induction made as [|m made IH]; intros now p; [cbn; rewrite app_nil_r; split_and!; try done; lia|]. cbn [init_loop].
  unfold create_connection. destruct (_ || _); [|destruct m as [id|]]; cbn [mbind option_bind].
  - destruct (IH (after 1 now) p) as (H1 & H2 & H3 & H4). split_and!; [|done|cbn; lia|apply H4..]. rewrite H1. apply submseteq_skips_l. cbn. by apply submseteq_inserts_l.
  - destruct (IH (after 1 now) (with_connections (connections_ p ++ [mkPooled (Some id) (now 0%nat) (now 0%nat) false true]) p)) as (H1 & H2 & H3 & H4).
    cbn [connections_ with_connections pending_creates_ config_ waiting_callbacks_] in *. rewrite idle_app in H1. rewrite used_app, used_cons in H2.
    change (used_ids []) with ([] : list Z) in H2. cbn [in_use app] in H2. rewrite app_nil_r in H2. split_and!; [|exact H2|rewrite length_app in H3; cbn [length] in *; lia|apply H4..].
    rewrite H1, idle_cons. cbn [in_use id_of connection]. change (idle_ids []) with ([] : list Z). by rewrite app_nil_r, <- app_assoc.
  - destruct (IH (after 1 now) p) as (H1 & H2 & H3 & H4). split_and!; [done|done|cbn; lia|apply H4..].
Qed.

Lemma start_spec cfg made now k : idle_ids (connections_ (the_pool (start cfg made now k))) ⊆+ first_made cfg made /\
  used_ids (connections_ (the_pool (start cfg made now k))) = [] /\
  Z.of_nat (length (connections_ (the_pool (start cfg made now k)))) <= Z.max 0 (min_connections cfg) /\
  pending_creates_ (the_pool (start cfg made now k)) = 0 /\ config_ (the_pool (start cfg made now k)) = cfg /\
  waiting_callbacks_ (the_pool (start cfg made now k)) = [].
Proof.
  unfold start, init. cbn [the_pool shutdown_ ConnectionPool snd config_].
  destruct (init_loop_spec (map made (seq 0 (Z.to_nat (min_connections cfg)))) now (ConnectionPool cfg)) as (H1 & H2 & H3 & H4).
  split_and!; [exact H1|exact H2| |apply H4..]. rewrite length_map, length_seq in H3. cbn in H3. lia.
Qed.

Lemma start_owned cfg made now k : NoDup (first_made cfg made) -> owned (start cfg made now k).
Proof.
  intros Hn. destruct (start_spec cfg made now k) as (H1 & H2 & _). split; [|rewrite H2; apply submseteq_nil_l].
  assert (threads (start cfg made now k) ≫= pushed_id = []) as ->; [|cbn; rewrite app_nil_r; by eapply sub_NoDup].
  cbn. clear. induction k as [|k IH]; [done|exact IH].
Qed.

(** C10: Whatever threads get, create, push and return connections (each returns only what
    it holds), in any interleaving and around a shutdown, no connection is in the hands of two users, and none that is
    in use is offered as idle. *)
Theorem connections_exclusive cfg made now k l s :
  NoDup (first_made cfg made) -> run l (start cfg made now k) = Some s ->
  NoDup (held s) /\ forall c id, c ∈ connections_ (the_pool s) -> in_use c = false -> connection c = Some id -> (id ∉ held s).
Proof.
  intros Hn Hr. destruct (run_inv owned l (fun i a s s' => step_owned i a s s') _ _ (start_owned cfg made now k Hn) Hr) as [H _].
  apply NoDup_app in H as (_ & Hd & H). split; [by apply NoDup_app in H as (? & _)|]. intros c id Hc Hu Hid Hh.
  apply (Hd id); [|apply elem_of_app; by left]. apply list_elem_of_bind. exists c. unfold id_of. rewrite Hid. split; [by apply list_elem_of_here|].
  apply list_elem_of_filter. split; [rewrite Hu; intros []|done].
Qed.

(** ** How many connections *)

Definition creating (t : thread) : list unit := match t with Creating _ => [tt] | _ => [] end.
Definition pushing (t : thread) : list unit := match t with Pushing _ _ => [tt] | _ => [] end.
Definition counted (f : thread -> list unit) (s : system) : Z := Z.of_nat (length (threads s ≫= f)).

(** The field counts the threads that create, and those that no longer count are at
    most all but the one that starts last. *)
Definition bounded (mx : Z) (k : nat) (s : system) : Prop :=
  length (threads s) = k /\ max_connections (config_ (the_pool s)) = mx /\ pending_creates_ (the_pool s) = counted creating s /\
  Z.of_nat (length (connections_ (the_pool s))) + pending_creates_ (the_pool s) + counted pushing s <= mx + Z.of_nat k - 1.

Lemma cleanup_length cfg now l : (length (cleanup_expired cfg now l).1 <= length l)%nat.
Proof.
  revert now. induction l as [|c l IH]; intros now; [done|]. cbn. destruct (validate_connection cfg (now 0%nat) c) as [ok c1].
  specialize (IH (after (reads_clock c) now)). destruct (cleanup_expired cfg _ l) as [rest out]. case_match; cbn in *; lia.
Qed.

Lemma idle_length cfg now l : length (try_get_idle cfg now l).2 = length l.
Proof.
  revert now. induction l as [|c l IH]; intros now; [done|]. cbn. destruct (negb (in_use c) && is_valid c).
  - destruct (validate_connection cfg (now 0%nat) c) as [ok c1]. destruct ok; [done|].
    specialize (IH (after (reads_clock c) now)). destruct (try_get_idle cfg _ l). cbn in *. lia.
  - specialize (IH now). destruct (try_get_idle cfg now l). cbn in *. lia.
Qed.

Lemma mark_length conn now l : length (mark_returned conn now l).1 = length l.
Proof. induction l as [|c l IH]; [done|]. cbn. case_match; [done|]. destruct (mark_returned conn now l). cbn in *. lia. Qed.

(** What an action does to the two counts of the pool, and when a thread may start. *)
Lemma act_counts a t p t' p' out : act takes_mutex a t p = Some (t', p', out) -> config_ p' = config_ p /\
  Z.of_nat (length (connections_ p')) + Z.of_nat (length (pushing t')) <= Z.of_nat (length (connections_ p)) + Z.of_nat (length (pushing t)) + Z.of_nat (length (creating t)) /\
  pending_creates_ p' - Z.of_nat (length (creating t')) = pending_creates_ p - Z.of_nat (length (creating t)) /\
  (creating t' = [] \/ Z.of_nat (length (connections_ p')) <= Z.of_nat (length (connections_ p)) /\ total p' - 1 < max_connections (config_ p)) /\
  (creating t <> [] -> creating t' = []).
Proof.
  intros Ha. destruct a as [f timeout|now|made now|now|conn now| |], t as [|f0 timeout0|f0|f0 c0|]; try done; cbn in Ha.
  - destruct (shutdown_ p); injection Ha as <- <- <-; cbn; split_and!; try done; try lia; by left.
  - unfold get_locked in Ha. pose proof (cleanup_length (config_ p) now (connections_ p)) as Hc. destruct (cleanup_expired (config_ p) now (connections_ p)) as [l closed].
    cbn [config_ with_connections] in Ha. pose proof (idle_length (config_ p) (after (sum_list_with reads_clock l) now) l) as Hl.
    destruct (try_get_idle _ _ l) as [[c|] l1]; cbn in Hc, Hl; [injection Ha as <- <- <-; cbn; split_and!; try done; try lia; by left|].
    destruct (_ <? _) eqn:E; [|destruct (_ =? 0)]; injection Ha as <- <- <-; cbn in *; split_and!; try done; try lia; [|by left..]. right. split; [lia|].
    unfold total in *. cbn in *. breflect. lia.
  - destruct (create_connection _ _ _); injection Ha as <- <- <-; cbn; split_and!; try done; try lia; by left.
  - unfold push_created in Ha. destruct (shutdown_ p); injection Ha as <- <- <-; cbn; rewrite ?length_app; cbn; split_and!; try done; try lia; by left.
  - destruct conn as [c|]; [|injection Ha as <- <- <-; cbn; split_and!; try done; try lia; by left].
    unfold return_connection in Ha. pose proof (mark_length c (now 0%nat) (connections_ p)) as Hm. destruct (mark_returned c (now 0%nat) (connections_ p)) as [l closed].
    cbn in Ha, Hm. destruct (waiting_callbacks_ p) as [|f waiting]; [injection Ha as <- <- <-; cbn; split_and!; try done; try lia; by left|].
    pose proof (idle_length (config_ p) (after 1 now) l) as Hl. destruct (try_get_idle _ _ l) as [[c1|] l1]; [case_match; [done|]|];
      injection Ha as <- <- <-; cbn in *; split_and!; try done; try lia; by left.
  - destruct (shutdown_ p); injection Ha as <- <- <-; cbn; split_and!; try done; try lia; by left.
  - unfold shutdown_locked in Ha. case_match; [done|]. injection Ha as <- <- <-. cbn. split_and!; try done; try lia. by left.
Qed.

Lemma thread_counts (l : list thread) : (length (l ≫= creating) + length (l ≫= pushing) <= length l)%nat.
Proof. induction l as [|t l IH]; [done|]. cbn. rewrite !length_app. destruct t; cbn; lia. Qed.

Lemma step_bounded mx k i a s s' : mx + Z.of_nat k <= 2 ^ 31 -> bounded mx k s -> sys_step i a s = Some s' -> bounded mx k s'.
Proof.
  intros Hmx (Hk & Hmax & Hpend & Hb) (_ & t & t' & p' & out & Ht & Ha & ->)%sys_step_inv.
  destruct (act_counts _ _ _ _ _ _ Ha) as (Hcfg & H1 & H2 & H3 & H4). unfold bounded, counted in *. cbn [the_pool threads].
  destruct (bind_insert creating (threads s) i t Ht) as (RC & HC & HC'). destruct (bind_insert pushing (threads s) i t Ht) as (RP & HP & HP').
  pose proof (Permutation_length HC) as LC. pose proof (Permutation_length (HC' t')) as LC'. pose proof (Permutation_length HP) as LP.
  pose proof (Permutation_length (HP' t')) as LP'. rewrite length_app in LC, LC', LP, LP'.
  pose proof (thread_counts (<[i := t']> (threads s))) as Hth. rewrite length_insert in Hth.
  split_and!; [by rewrite length_insert|by rewrite Hcfg|lia|].
  destruct H3 as [H3|[H3 H5]].
  - rewrite H3 in *. cbn [length] in *. lia.
  - assert (creating t = [] \/ creating t' = []) as [H6|H6] by (destruct t; [left; done|left; done|right; apply H4; done|left; done|left; done]).
    + unfold total in H5. rewrite i32_small in H5 by lia. rewrite H6 in *. cbn [length] in *. lia.
    + rewrite H6 in *. cbn [length] in *. lia.
Qed.

(** C29: The limit on the connections is checked before [pending_creates_] is taken back
    and the new connection pushed, so it can be exceeded, by one connection per thread
    beside the first and no more. *)
Theorem limit_bound cfg made now k l s :
  (0 < k)%nat -> min_connections cfg <= max_connections cfg -> 0 <= max_connections cfg -> max_connections cfg + Z.of_nat k <= 2 ^ 31 ->
  run l (start cfg made now k) = Some s -> total_connections (the_pool s) <= max_connections cfg + Z.of_nat k - 1.
Proof.
  intros Hk Hmin Hmax Hk2 Hr. destruct (start_spec cfg made now k) as (_ & _ & Hl & Hp & Hc & _).
  assert (bounded (max_connections cfg) k (start cfg made now k)) as H0.
  { assert (forall n, replicate n Idle ≫= creating = [] /\ replicate n Idle ≫= pushing = []) as Hrep by (intros n; induction n; by cbn).
    unfold bounded, counted. rewrite Hp, Hc. cbn [threads start]. rewrite (proj1 (Hrep k)), (proj2 (Hrep k)). split_and!; [by rewrite length_replicate|done|done|cbn [length]; lia]. }
  destruct (run_inv (bounded (max_connections cfg) k) l (fun i a s s' => step_bounded _ _ i a s s' Hk2) _ _ H0 Hr) as (_ & _ & H1 & H2).
  unfold total_connections, counted in *. lia.
Qed.

(** ** Every callback is called once, or waits *)

Definition answered (out : list effect) : list Z := out ≫= fun x => match x with Called f _ => [f] | _ => [] end.
Definition wants (t : thread) : list Z := match t with Entering f _ | Creating f | Pushing f _ => [f] | _ => [] end.
Arguments answered : simpl never.

Lemma answered_app out1 out2 : answered (out1 ++ out2) = answered out1 ++ answered out2.
Proof. apply bind_app. Qed.

Lemma answered_closes l : answered (l ≫= close_of) = [].
Proof. induction l as [|c l IH]; [done|]. cbn. rewrite answered_app, IH. unfold close_of. by destruct (connection c). Qed.

Lemma answered_refused l : answered (map (fun f => Called f empty_connection) l) = l.
Proof. induction l as [|f l IH]; [done|]. change (answered (map (fun f => Called f empty_connection) (f :: l))) with (f :: answered (map (fun f => Called f empty_connection) l)). by rewrite IH. Qed.

Lemma cleanup_answers cfg now l : answered (cleanup_expired cfg now l).2 = [].
Proof.
  revert now. induction l as [|c l IH]; intros now; [done|]. cbn. destruct (validate_connection cfg (now 0%nat) c) as [ok c1].
  specialize (IH (after (reads_clock c) now)). destruct (cleanup_expired cfg _ l) as [rest out]. case_match; cbn in *; [|done].
  rewrite answered_app, IH. unfold close_of. by destruct (connection c1).
Qed.

Lemma mark_answers conn now l : answered (mark_returned conn now l).2 = [].
Proof. induction l as [|c l IH]; [done|]. cbn. case_match; [by destruct (is_valid c)|]. by destruct (mark_returned conn now l). Qed.

Lemma act_calls a t p t' p' out : act takes_mutex a t p = Some (t', p', out) ->
  answered out ++ waiting_callbacks_ p' ++ wants t' ≡ₚ waiting_callbacks_ p ++ wants t ++ asked a.
Proof.
  intros Ha. destruct a as [f timeout|now|made now|now|conn now| |], t as [|f0 timeout0|f0|f0 c0|]; try done; cbn in Ha; cbn [wants asked app].
  - destruct (shutdown_ p); injection Ha as <- <- <-; [|done]. cbn [wants]. rewrite ?app_nil_r. by rewrite Permutation_app_comm.
  - unfold get_locked in Ha. pose proof (cleanup_answers (config_ p) now (connections_ p)) as Hc. destruct (cleanup_expired (config_ p) now (connections_ p)) as [l closed].
    cbn [config_ with_connections snd] in Ha, Hc. destruct (try_get_idle _ _ l) as [[c|] l1]; [|destruct (_ <? _); [|destruct (_ =? 0)]];
      injection Ha as <- <- <-; cbn [wants waiting_callbacks_ with_connections with_pending with_waiting]; rewrite ?answered_app, Hc, ?app_nil_r; cbn [app]; try done;
      (change (answered [Called f0 c]) with [f0] || change (answered [Called f0 empty_connection]) with [f0]); by rewrite Permutation_app_comm.
  - destruct (create_connection _ _ _); injection Ha as <- <- <-; [done|]. cbn [wants waiting_callbacks_ with_pending].
    change (answered [Called f0 empty_connection]) with [f0]. by rewrite ?app_nil_r, Permutation_app_comm.
  - unfold push_created in Ha. destruct (shutdown_ p); injection Ha as <- <- <-; cbn [wants waiting_callbacks_ with_connections];
      (change (answered [Called f0 c0]) with [f0] || change (answered [Called f0 (set_used true now c0)]) with [f0]); by rewrite ?app_nil_r, Permutation_app_comm.
  - destruct conn as [c|]; [|by injection Ha as <- <- <-].
    unfold return_connection in Ha. pose proof (mark_answers c (now 0%nat) (connections_ p)) as Hm. destruct (mark_returned c (now 0%nat) (connections_ p)) as [l closed].
    cbn [snd] in Hm. cbv zeta in Ha. cbn [waiting_callbacks_ with_connections config_] in Ha. destruct (waiting_callbacks_ p) as [|f waiting] eqn:Ew.
    { injection Ha as <- <- <-. cbn. by rewrite Hm, Ew. }
    destruct (try_get_idle _ _ l) as [[c1|] l1]; [case_match; [done|]|]; injection Ha as <- <- <-; cbn [wants waiting_callbacks_ with_connections with_waiting];
      rewrite ?answered_app, Hm; [done|]. by rewrite Ew.
  - destruct (shutdown_ p); by injection Ha as <- <- <-.
  - unfold shutdown_locked in Ha. case_match; [done|]. injection Ha as <- <- <-. cbn [wants waiting_callbacks_ with_waiting].
    rewrite answered_app, answered_closes, answered_refused. cbn [app]. by rewrite app_nil_r.
Qed.

Definition accounted (s : system) : Prop := answered (effects s) ++ waiting_callbacks_ (the_pool s) ++ (threads s ≫= wants) ≡ₚ given s.

Lemma step_accounted i a s s' : accounted s -> sys_step i a s = Some s' -> accounted s'.
Proof.
  unfold accounted. intros Hs (_ & t & t' & p' & out & Ht & Ha & ->)%sys_step_inv. cbn [effects the_pool threads given].
  destruct (bind_insert wants (threads s) i t Ht) as (R & HR & HR'). rewrite HR in Hs. rewrite HR', answered_app, <- Hs.
  pose proof (act_calls _ _ _ _ _ _ Ha) as H. transitivity (answered (effects s) ++ (answered out ++ waiting_callbacks_ p' ++ wants t') ++ R); [solve_Permutation|].
  rewrite H. solve_Permutation.
Qed.

(** Every callback given to [get_connection] is called once, waits, or belongs to a
    thread still inside: none is called twice or dropped, around a shutdown as well. *)
Theorem getters_answered_once cfg made now k l s :
  run l (start cfg made now k) = Some s -> answered (effects s) ++ waiting_callbacks_ (the_pool s) ++ (threads s ≫= wants) ≡ₚ given s.
Proof.
  intros Hr. refine (run_inv accounted l step_accounted _ _ _ Hr). unfold accounted. rewrite (proj2 (proj2 (proj2 (proj2 (proj2 (start_spec cfg made now k)))))).
  cbn. enough (replicate k Idle ≫= wants = []) as -> by done. clear. by induction k.
Qed.

(** ** Who waits longest *)

(** After the shutdown: nothing in the pool, and nobody about to clear it. *)
Definition shut (s : system) : Prop :=
  shutdown_ (the_pool s) = true /\ connections_ (the_pool s) = [] /\ Closing ∉ threads s.

(** A thread that passed the test of [shutdown_] before the pool was shut can still
    queue its callback behind: after that nobody ever calls it, whatever is done, and the
    pool stays empty. *)
Theorem late_waiter_stuck l s s' : shut s -> run l s = Some s' ->
  shut s' /\ waiting_callbacks_ (the_pool s) `prefix_of` waiting_callbacks_ (the_pool s').
Proof.
  intros Hs Hr. refine (run_inv (fun s1 => shut s1 /\ waiting_callbacks_ (the_pool s) `prefix_of` waiting_callbacks_ (the_pool s1)) l _ s s' (conj Hs (reflexivity _)) Hr).
  clear. intros i a s1 s2 [(H1 & H2 & H3) H4] (_ & t & t' & p' & out & Ht & Ha & ->)%sys_step_inv. unfold shut. cbn [the_pool threads].
  assert (t <> Closing) as Hcl by (intros ->; apply H3; by eapply list_elem_of_lookup_2).
  enough ((shutdown_ p' = true /\ connections_ p' = [] /\ t' <> Closing) /\ waiting_callbacks_ (the_pool s1) `prefix_of` waiting_callbacks_ p') as [(H5 & H6 & H7) H8].
  { split; [|by etrans]. split_and!; [done|done|]. intros [j Hj]%list_elem_of_lookup_1. apply list_lookup_insert_Some in Hj as [(_ & ? & _)|[_ Hj]]; [congruence|].
    apply H3. by eapply list_elem_of_lookup_2. }
  destruct a as [f timeout|now|made now|now|conn now| |], t as [|f0 timeout0|f0|f0 c0|]; try done; cbn in Ha.
  - rewrite H1 in Ha. by injection Ha as <- <- <-.
  - unfold get_locked in Ha. rewrite H2 in Ha. cbn in Ha. destruct (_ <? _); [|destruct (_ =? 0)]; injection Ha as <- <- <-; cbn; rewrite H1; (split; [done|]); [done|done|by apply prefix_app_r].
  - destruct (create_connection _ _ _); injection Ha as <- <- <-; cbn; by rewrite H1, H2.
  - unfold push_created in Ha. rewrite H1 in Ha. injection Ha as <- <- <-. by rewrite H1, H2.
  - destruct conn as [c|]; [|injection Ha as <- <- <-; by rewrite H1, H2]. unfold return_connection in Ha. rewrite H2 in Ha. cbn in Ha.
    destruct (waiting_callbacks_ (the_pool s1)) as [|f waiting] eqn:Ew; injection Ha as <- <- <-; cbn; rewrite H1, Ew; by split.
  - rewrite H1 in Ha. injection Ha as <- <- <-. by rewrite H1, H2.
Qed.
End System.

(** ** Witnesses *)

Definition never_locks (f : Z) (c : PooledConnection) (shut : bool) : bool := false.
Definition demo_config (mn mx : Z) : ConnectionPoolConfig := mkPoolConfig (lit "127.0.0.1") 80 mn mx 300000 0.
Definition demo_made (n : nat) : option Z := Some (100 + Z.of_nat n).
Definition demo_clock : clock := fun n => Z.of_nat n.

(** The actions of thread [i] that create a connection for callback [f]. *)
Definition demo_begin (i : nat) (f conn : Z) : list (nat * action) := [(i, Get f 5000); (i, Enter demo_clock); (i, Create (Some conn) 0)].

(** Two threads share a pool of two, one gives its connection back to the other. *)
Definition demo_shared : list (nat * action) :=
  [(0%nat, Get 1 5000); (0%nat, Enter demo_clock)] ++ demo_begin 1 2 7 ++ [(1%nat, Push 0); (0%nat, Get 3 5000); (0%nat, Enter demo_clock);
   (1%nat, Return (Some 7) demo_clock)].

(** Both threads of a pool of one are told that there is room. *)
Definition demo_exceed : list (nat * action) := demo_begin 0 1 7 ++ demo_begin 1 2 8 ++ [(0%nat, Push 0); (1%nat, Push 0)].

Lemma demo_shared_runs : exists s, run never_locks demo_shared (start (demo_config 1 2) demo_made demo_clock 2) = Some s.
Proof.
  destruct (run never_locks demo_shared _) as [s|] eqn:E; [by exists s|]. exfalso.
  assert (match run never_locks demo_shared (start (demo_config 1 2) demo_made demo_clock 2) with Some _ => true | None => false end = true) as H by (vm_compute; reflexivity).
  by rewrite E in H.
Qed.

Lemma demo_exceed_runs : exists s, run never_locks demo_exceed (start (demo_config 0 1) demo_made demo_clock 2) = Some s /\ total_connections (the_pool s) = 2.
Proof.
  assert (match run never_locks demo_exceed (start (demo_config 0 1) demo_made demo_clock 2) with Some s => total_connections (the_pool s) =? 2 | None => false end = true) as H by (vm_compute; reflexivity).
  destruct (run never_locks demo_exceed _) as [s|]; [|done]. exists s. split; [done|]. by apply Z.eqb_eq.
Qed.

Lemma connections_exclusive_witness : exists s, run never_locks demo_shared (start (demo_config 1 2) demo_made demo_clock 2) = Some s /\ NoDup (held s).
Proof.
  destruct demo_shared_runs as [s H]. exists s. split; [exact H|].
  refine (proj1 (connections_exclusive never_locks (demo_config 1 2) demo_made demo_clock 2 demo_shared s _ H)). apply NoDup_singleton.
Defined.

Lemma limit_bound_witness : exists s, run never_locks demo_exceed (start (demo_config 0 1) demo_made demo_clock 2) = Some s /\
  total_connections (the_pool s) = 2 /\ total_connections (the_pool s) <= 1 + 2 - 1.
Proof.
  destruct demo_exceed_runs as (s & H & H2). exists s. split; [exact H|]. split; [exact H2|].
  refine (limit_bound never_locks (demo_config 0 1) demo_made demo_clock 2 demo_exceed s _ _ _ _ H); cbn; lia.
Defined.

Lemma getters_answered_once_witness : exists s, run never_locks demo_shared (start (demo_config 1 2) demo_made demo_clock 2) = Some s /\
  answered (effects s) ++ waiting_callbacks_ (the_pool s) ++ (threads s ≫= wants) ≡ₚ given s.
Proof.
  destruct demo_shared_runs as [s H]. exists s. split; [exact H|]. exact (getters_answered_once never_locks _ _ _ _ _ s H).
Defined.

(** The pool of one is shut while thread 0 creates; thread 1 queues behind. *)
Definition demo_shut : list (nat * action) :=
  [(0%nat, Get 1 5000); (0%nat, Enter demo_clock); (1%nat, Get 2 5000); (2%nat, Shutdown); (2%nat, Clear)].
Definition demo_late : list (nat * action) := [(1%nat, Enter demo_clock); (0%nat, Create (Some 7) 0); (0%nat, Push 0); (0%nat, Return (Some 7) demo_clock); (2%nat, Shutdown)].

Lemma demo_shut_runs : exists s s', run never_locks demo_shut (start (demo_config 0 1) demo_made demo_clock 3) = Some s /\ shut s /\
  run never_locks demo_late s = Some s' /\ waiting_callbacks_ (the_pool s') = [2].
Proof.
  assert (match run never_locks demo_shut (start (demo_config 0 1) demo_made demo_clock 3) with
    | Some s => shutdown_ (the_pool s) && match connections_ (the_pool s), threads s with [], [Creating _; Entering _ _; Idle] => true | _, _ => false end &&
                match run never_locks demo_late s with Some s' => bool_decide (waiting_callbacks_ (the_pool s') = [2]) | None => false end
    | None => false end = true) as H by (vm_compute; reflexivity).
  destruct (run never_locks demo_shut _) as [s|]; [|done]. apply andb_prop in H as [H H3]. apply andb_prop in H as [H1 H2].
  destruct (run never_locks demo_late s) as [s'|] eqn:E; [|done]. apply bool_decide_eq_true in H3. exists s, s'. unfold shut. rewrite H1.
  destruct (connections_ (the_pool s)); [|done]. split_and!; try done. destruct (threads s) as [|[] [|[] [|[] []]]]; try done.
  intros Hin. repeat (apply elem_of_cons in Hin as [Hin|Hin]; [done|]). by apply elem_of_nil in Hin.
Qed.

Lemma late_waiter_stuck_witness : exists s s', run never_locks demo_late s = Some s' /\ waiting_callbacks_ (the_pool s') = [2] /\
  shut s' /\ waiting_callbacks_ (the_pool s) `prefix_of` waiting_callbacks_ (the_pool s').
Proof.
  destruct demo_shut_runs as (s & s' & _ & Hs & Hr & Hw). exists s, s'. split; [exact Hr|]. split; [exact Hw|].
  exact (late_waiter_stuck never_locks demo_late s s' Hs Hr).
Defined.

(** ** Guards return what they were given *)

Inductive guard_op :=
| Make (i : nat) (c : Z)     (* guards[i] = ConnectionGuard(pool, c) *)
| Move (i j : nat)           (* guards[j] = std::move(guards[i]) *)
| Destroy (i : nat).

(** The guards and the connections returned so far. *)
Definition guard_step (op : guard_op) (s : list ConnectionGuard * list Z) : option (list ConnectionGuard * list Z) :=
  let '(gs, returned) := s in
  match op with
  | Make i c =>
      g ← gs !! i;
      let '(g1, _, out) := move_assign g (mkGuard true (Some c)) in Some (<[i := g1]> gs, returned ++ out)
  | Move i j =>
      if decide (i = j) then Some s
      else
        g ← gs !! i; h ← gs !! j;
        let '(h1, g1, out) := move_assign h g in Some (<[j := h1]> (<[i := g1]> gs), returned ++ out)
  | Destroy i => g ← gs !! i; let '(g1, out) := release g in Some (<[i := g1]> gs, returned ++ out)
  end.

Fixpoint guard_run (ops : list guard_op) (s : list ConnectionGuard * list Z) : option (list ConnectionGuard * list Z) :=
  match ops with [] => Some s | op :: ops' => s1 ← guard_step op s; guard_run ops' s1 end.

Definition guarded (gs : list ConnectionGuard) : list Z := gs ≫= fun g => (release g).2.
Definition made_by (ops : list guard_op) : list Z := ops ≫= fun op => match op with Make _ c => [c] | _ => [] end.

Lemma guard_step_accounts op gs returned gs' returned' : guard_step op (gs, returned) = Some (gs', returned') ->
  returned' ++ guarded gs' ≡ₚ made_by [op] ++ returned ++ guarded gs.
Proof.
  unfold guarded. intros H. destruct op as [i c|i j|i]; cbn in H.
  - destruct (gs !! i) as [g|] eqn:Hi; [|done]. injection H as <- <-. destruct (bind_insert (fun g => (release g).2) gs i g Hi) as (R & HR & HR').
    rewrite HR, HR'. cbn. solve_Permutation.
  - case_decide as E; [by injection H as <- <-|]. destruct (gs !! i) as [g|] eqn:Hi; [|done]. cbn in H. destruct (gs !! j) as [h|] eqn:Hj; [|done].
    injection H as <- <-. destruct (bind_insert (fun g => (release g).2) gs i g Hi) as (R & HR & HR').
    assert (<[i := mkGuard false (conn_ g)]> gs !! j = Some h) as Hj' by by rewrite list_lookup_insert_ne.
    destruct (bind_insert (fun g => (release g).2) _ j h Hj') as (R2 & HR2 & HR2'). rewrite HR2', HR. rewrite HR' in HR2. cbn [release snd pool_ app] in HR2.
    cbn [made_by mbind list_bind app]. rewrite HR2. cbn [release snd]. solve_Permutation.
  - destruct (gs !! i) as [g|] eqn:Hi; [|done]. injection H as <- <-. destruct (bind_insert (fun g => (release g).2) gs i g Hi) as (R & HR & HR').
    rewrite HR, HR'. cbn. by rewrite <- app_assoc.
Qed.

(** However guards are made, moved over one another and destroyed, the connections
    returned and those still guarded are exactly the connections given: each is returned
    once. *)
Theorem guards_return_once n ops gs returned : guard_run ops (replicate n no_guard, []) = Some (gs, returned) ->
  returned ++ guarded gs ≡ₚ made_by ops.
Proof.
  assert (guarded (replicate n no_guard) = []) as H0 by (induction n; done).
  enough (forall ops gs0 r0 gs returned, guard_run ops (gs0, r0) = Some (gs, returned) -> returned ++ guarded gs ≡ₚ made_by ops ++ r0 ++ guarded gs0) as H.
  { intros Hr. rewrite (H _ _ _ _ _ Hr), H0. by rewrite !app_nil_r. }
  clear. intros ops. induction ops as [|op ops IH]; intros gs0 r0 gs returned Hr; [by injection Hr as <- <-|]. cbn [guard_run] in Hr.
  destruct (guard_step op (gs0, r0)) as [[gs1 r1]|] eqn:Es; [|done]. cbn in Hr. rewrite (IH _ _ _ _ Hr), (guard_step_accounts _ _ _ _ _ Es).
  change (op :: ops) with ([op] ++ ops). unfold made_by. rewrite bind_app. solve_Permutation.
Qed.

Lemma guards_return_once_witness : exists gs returned,
  guard_run [Make 0 7; Move 0 1; Make 0 8; Move 1 0; Destroy 1; Destroy 0] (replicate 2 no_guard, []) = Some (gs, returned) /\
  returned ++ guarded gs ≡ₚ [7; 8].
Proof.
  eexists _, _. split; [reflexivity|].
  exact (guards_return_once 2 [Make 0 7; Move 0 1; Make 0 8; Move 1 0; Destroy 1; Destroy 0] _ _ eq_refl).
Defined.
