(* ===== verification/ObjectPool.v ===== *)
(** * ObjectPool: src/include/chwell/pool/object_pool.h

    Pools of objects and of buffers.  An operation is one step: everything it tests it
    tests under the pool's mutex.  An object is the number of its address; what the
    factory's [create] gives is an input, [None] for a null pointer.  The counters are
    atomic [int]s. *)

From S2P Require Import Prelude.
From S2P Require Import Wire.

(** ** [ObjectPool<T>] *)

Record ObjectPoolConfig := mkObjConfig { initial_size : Z; max_size : Z; expand_size : Z; thread_safe : bool }.
Definition default_config : ObjectPoolConfig := mkObjConfig 10 1000 10 true.

(** Which of the factory's optional callbacks are set. *)
Record ObjectFactory := mkFactory { has_reset : bool; has_destroy : bool }.

Record pool := mkPool {
  config_ : ObjectPoolConfig;
  factory_ : ObjectFactory;
  pool_ : list Z;             (* the stack, its top first *)
  created_count_ : Z;
  borrowed_count_ : Z
}.

Inductive effect :=
| Reset (obj : Z)             (* factory_.reset *)
| Destroy (obj : Z)           (* factory_.destroy *)
| Delete (obj : Z).           (* the object's own end *)

Definition with_stack (l : list Z) (created : Z) (p : pool) : pool := mkPool (config_ p) (factory_ p) l created (borrowed_count_ p).
Definition with_borrowed (n : Z) (p : pool) : pool := mkPool (config_ p) (factory_ p) (pool_ p) (created_count_ p) n.

Definition push_made (obj : option Z) (p : pool) : pool :=
  match obj with Some o => with_stack (o :: pool_ p) (i32 (created_count_ p + 1)) p | None => p end.

(** The constructor's loop, and [expand]'s with its test. *)
Fixpoint fill (made : list (option Z)) (p : pool) : pool :=
  match made with [] => p | o :: made' => fill made' (push_made o p) end.

Definition ObjectPool_init (config : ObjectPoolConfig) (factory : ObjectFactory) (made : nat -> option Z) : pool :=
  fill (map made (seq 0 (Z.to_nat (initial_size config)))) (mkPool config factory [] 0 0).

Fixpoint expand_loop (made : list (option Z)) (p : pool) : pool :=
  match made with
  | [] => p
  | o :: made' => if created_count_ p <? max_size (config_ p) then expand_loop made' (push_made o p) else p
  end.

Definition expand (count : Z) (made : nat -> option Z) (p : pool) : pool := expand_loop (map made (seq 0 (Z.to_nat count))) p.

(** [acquire] and [acquire_raw]: the pointer is null when the pool is exhausted. *)
Definition acquire_raw (made : option Z) (p : pool) : option Z * pool :=
  let '(obj, p) :=
    match pool_ p with
    | o :: rest => (Some o, with_stack rest (created_count_ p) p)
    | [] =>
        if created_count_ p <? max_size (config_ p) then
          match made with
          | Some o => (Some o, with_stack (pool_ p) (i32 (created_count_ p + 1)) p)
          | None => (None, p)
          end
        else (None, p)
    end in
  match obj with
  | None => (None, p)
  | Some o => (Some o, with_borrowed (i32 (borrowed_count_ p + 1)) p)
  end.

(** The end of an object the pool drops. *)
Definition drop_object (p : pool) (o : Z) : list effect := (if has_destroy (factory_ p) then [Destroy o] else []) ++ [Delete o].

Definition release (obj : option Z) (p : pool) : pool * list effect :=
  match obj with
  | None => (p, [])
  | Some o =>
      let reset := if has_reset (factory_ p) then [Reset o] else [] in
      let p := with_borrowed (i32 (borrowed_count_ p - 1)) p in
      if i32 (Z.of_nat (length (pool_ p))) <? max_size (config_ p)
      then (with_stack (o :: pool_ p) (created_count_ p) p, reset)
      else (with_stack (pool_ p) (i32 (created_count_ p - 1)) p, reset ++ drop_object p o)
  end.

(** [shrink]: with a negative target the loop pops an empty stack ([None]). *)
Fixpoint shrink_loop (l : list Z) (target : Z) (p : pool) : option (pool * list effect) :=
  if target <? i32 (Z.of_nat (length l)) then
    match l with
    | [] => None
    | o :: l' =>
        '(p1, out) ← shrink_loop l' target (with_stack l' (i32 (created_count_ p - 1)) p);
        Some (p1, drop_object p o ++ out)
    end
  else Some (p, []).

Definition shrink (target : Z) (p : pool) : option (pool * list effect) := shrink_loop (pool_ p) target p.

(** The destructor. *)
Definition destroy_pool (p : pool) : list effect := pool_ p ≫= drop_object p.

Definition created_count (p : pool) : Z := created_count_ p.
Definition borrowed_count (p : pool) : Z := borrowed_count_ p.
Definition available_count (p : pool) : Z := i32 (Z.of_nat (length (pool_ p))).

(** ** [BufferPool] *)

Module Buffer.

Record pool := mkPool {
  buffer_size_ : Z;
  max_count_ : Z;
  pool_ : list (list Byte.byte);
  created_count_ : Z;
  borrowed_count_ : Z
}.

Definition fresh_buffer (size : Z) : list Byte.byte := replicate (Z.to_nat size) Byte.x00.

Fixpoint fill (n : nat) (p : pool) : pool :=
  match n with
  | O => p
  | S n' =>
      if created_count_ p <? max_count_ p
      then fill n' (mkPool (buffer_size_ p) (max_count_ p) (fresh_buffer (buffer_size_ p) :: pool_ p) (i32 (created_count_ p + 1)) (borrowed_count_ p))
      else p
  end.

Definition BufferPool (size initial mx : Z) : pool := fill (Z.to_nat initial) (mkPool size mx [] 0 0).

Definition acquire (p : pool) : option (list Byte.byte) * pool :=
  match pool_ p with
  | _ :: rest => (Some [], mkPool (buffer_size_ p) (max_count_ p) rest (created_count_ p) (i32 (borrowed_count_ p + 1)))
  | [] =>
      if created_count_ p <? max_count_ p
      then (Some (fresh_buffer (buffer_size_ p)), mkPool (buffer_size_ p) (max_count_ p) [] (i32 (created_count_ p + 1)) (i32 (borrowed_count_ p + 1)))
      else (None, p)
  end.

Definition release (buf : option (list Byte.byte)) (p : pool) : pool :=
  match buf with
  | None => p
  | Some _ =>
      if i32 (Z.of_nat (length (pool_ p))) <? max_count_ p
      then mkPool (buffer_size_ p) (max_count_ p) ([] :: pool_ p) (created_count_ p) (i32 (borrowed_count_ p - 1))
      else mkPool (buffer_size_ p) (max_count_ p) (pool_ p) (i32 (created_count_ p - 1)) (i32 (borrowed_count_ p - 1))
  end.

Definition available_count (p : pool) : Z := i32 (Z.of_nat (length (pool_ p))).

End Buffer.

(** ** [GlobalBufferPool]: a pool per size, made when first asked for *)

Definition global : Type := gmap Z Buffer.pool.

Definition get_pool (size : Z) (g : global) : Buffer.pool * global :=
  match g !! size with
  | Some p => (p, g)
  | None => let p := Buffer.BufferPool size 10 1000 in (p, <[size := p]> g)
  end.

Definition global_acquire (size : Z) (g : global) : option (list Byte.byte) * global :=
  let '(p, g1) := get_pool size g in let '(b, p1) := Buffer.acquire p in (b, <[size := p1]> g1).

Definition global_release (buf : option (list Byte.byte)) (size : Z) (g : global) : global :=
  let '(p, g1) := get_pool size g in <[size := Buffer.release buf p]> g1.
