(* ===== verification/ObjectPoolFacts.v ===== *)
(** * ObjectPoolFacts: objects are neither lost nor shared *)

From Stdlib Require Import Strings.Byte.
From S2P Require Import Prelude.
From S2P Require Import Wire.
From S2P Require Import ObjectPool.

(** ** Users of a pool *)

Inductive op :=
| Acquire (made : option Z)
| Release (obj : Z)
| Expand (count : Z) (made : nat -> option Z)
| Shrink (target : Z).

Record system := mkSystem { the_pool : pool; held : list Z; effects : list effect }.

(** A user gives up one of its objects. *)
Fixpoint take_out (obj : Z) (l : list Z) : option (list Z) :=
  match l with [] => None | x :: l' => if decide (x = obj) then Some l' else cons x <$> take_out obj l' end.

Lemma take_out_Some obj l rest : take_out obj l = Some rest -> l ≡ₚ obj :: rest.
Proof.
  revert rest. induction l as [|x l IH]; intros rest H; [done|]. cbn in H. case_decide as E; [by injection H as <-; subst|].
  destruct (take_out obj l) as [r|]; [|done]. injection H as <-. rewrite (IH r eq_refl). apply Permutation_swap.
Qed.

(** One operation; an object is released by who holds it. *)
Definition step (o : op) (s : system) : option system :=
  match o with
  | Acquire made => let '(obj, p) := acquire_raw made (the_pool s) in Some (mkSystem p (option_list obj ++ held s) (effects s))
  | Release obj =>
      rest ← take_out obj (held s);
      let '(p, out) := release (Some obj) (the_pool s) in Some (mkSystem p rest (effects s ++ out))
  | Expand count made => Some (mkSystem (expand count made (the_pool s)) (held s) (effects s))
  | Shrink target => '(p, out) ← shrink target (the_pool s); Some (mkSystem p (held s) (effects s ++ out))
  end.

Fixpoint run (ops : list op) (s : system) : option system :=
  match ops with [] => Some s | o :: ops' => s1 ← step o s; run ops' s1 end.

Definition start (cfg : ObjectPoolConfig) (factory : ObjectFactory) (made : nat -> option Z) : system :=
  mkSystem (ObjectPool_init cfg factory made) [] [].

(** What the factory may have given, and the objects that ended. *)
Definition first_objects (n : Z) (made : nat -> option Z) : list Z := map made (seq 0 (Z.to_nat n)) ≫= option_list.
Definition offered (o : op) : list Z :=
  match o with Acquire made => option_list made | Expand count made => first_objects count made | _ => [] end.
Definition deleted (out : list effect) : list Z := out ≫= fun x => match x with Delete o => [o] | _ => [] end.
Arguments deleted : simpl never.

Lemma deleted_app out1 out2 : deleted (out1 ++ out2) = deleted out1 ++ deleted out2.
Proof. apply bind_app. Qed.

Lemma deleted_drop p o : deleted (drop_object p o) = [o].
Proof. unfold drop_object. by destruct (has_destroy (factory_ p)). Qed.

(** The pool's counters agree with its objects and those of its users. *)
Definition counts_ok (bound : Z) (p : pool) (users : list Z) : Prop :=
  created_count_ p = Z.of_nat (length (pool_ p)) + Z.of_nat (length users) /\ borrowed_count_ p = Z.of_nat (length users) /\
  created_count_ p <= bound /\ max_size (config_ p) <= bound.

Section Counts.
Context (bound : Z) (Hb : bound < 2 ^ 31).

Lemma push_made_ok o p users : counts_ok bound p users -> created_count_ p < bound -> counts_ok bound (push_made o p) users /\
  pool_ (push_made o p) = option_list o ++ pool_ p /\ config_ (push_made o p) = config_ p.
Proof.
  intros (H1 & H2 & H3 & H4) Hlt. destruct o as [o|]; [|by cbn]. unfold counts_ok. cbn. rewrite i32_small by lia. split_and!; try done; lia.
Qed.

Lemma expand_ok made p users : counts_ok bound p users -> counts_ok bound (expand_loop made p) users /\
  pool_ (expand_loop made p) ⊆+ (made ≫= option_list) ++ pool_ p /\ config_ (expand_loop made p) = config_ p.
Proof.
  revert p. induction made as [|o made IH]; intros p Hp; [done|]. cbn [expand_loop]. destruct (_ <? _) eqn:E; breflect.
  - destruct (push_made_ok o p users Hp) as (H1 & H2 & H3); [destruct Hp as (_ & _ & _ & ?); lia|].
    destruct (IH _ H1) as (H4 & H5 & H6). split_and!; [done| |congruence]. rewrite H5, H2. cbn. apply Permutation_submseteq. solve_Permutation.
  - split_and!; [done|by apply submseteq_inserts_l|done].
Qed.

Lemma shrink_ok l target : forall p p' out users, pool_ p = l -> counts_ok bound p users -> shrink_loop l target p = Some (p', out) ->
  counts_ok bound p' users /\ deleted out ++ pool_ p' ≡ₚ l /\ config_ p' = config_ p.
Proof.
  induction l as [|o l IH]; intros p p' out users Hl Hp Hs; cbn [shrink_loop] in Hs.
  - destruct (_ <? _); [done|]. injection Hs as <- <-. by rewrite Hl.
  - destruct (_ <? _); [|by injection Hs as <- <-; rewrite Hl].
    destruct (shrink_loop l target (with_stack l (i32 (created_count_ p - 1)) p)) as [[p1 out1]|] eqn:E; [|done]. injection Hs as <- <-.
    assert (counts_ok bound (with_stack l (i32 (created_count_ p - 1)) p) users) as Hp1.
    { destruct Hp as (H1 & H2 & H3 & H4). rewrite Hl in H1. cbn [length] in H1. unfold counts_ok. cbn. rewrite i32_small by lia. split_and!; try done; lia. }
    destruct (IH (with_stack l (i32 (created_count_ p - 1)) p) p1 out1 users eq_refl Hp1 E) as (H1 & H2 & H3).
    split_and!; [done| |done]. rewrite deleted_app, deleted_drop. cbn. by rewrite H2.
Qed.

Lemma acquire_ok made p users : counts_ok bound p users -> let '(obj, p') := acquire_raw made p in
  counts_ok bound p' (option_list obj ++ users) /\ option_list obj ++ pool_ p' ⊆+ option_list made ++ pool_ p /\ config_ p' = config_ p.
Proof.
  intros (H1 & H2 & H3 & H4). unfold acquire_raw. destruct (pool_ p) as [|o rest] eqn:El.
  - destruct (_ <? _) eqn:E; breflect; [destruct made as [o|]|].
    + unfold counts_ok. cbn. rewrite ?El in *. cbn [length] in *. rewrite !i32_small by lia. split_and!; try done; try lia.
    + unfold counts_ok. cbn. rewrite ?El in *. split_and!; try done.
    + unfold counts_ok. cbn. rewrite ?El in *. split_and!; try done. apply submseteq_nil_l.
  - unfold counts_ok. cbn. cbn [length] in *. rewrite !i32_small by lia. split_and!; try done; try lia. by apply submseteq_inserts_l.
Qed.

Lemma release_ok obj p users rest : counts_ok bound p users -> users ≡ₚ obj :: rest -> let '(p', out) := release (Some obj) p in
  counts_ok bound p' rest /\ deleted out ++ pool_ p' ≡ₚ obj :: pool_ p /\ config_ p' = config_ p.
Proof.
  intros (H1 & H2 & H3 & H4) Hu. apply Permutation_length in Hu. cbn in Hu. unfold release. cbv zeta.
  cbn [with_borrowed pool_ config_ created_count_]. rewrite (i32_small (Z.of_nat _)) by lia. unfold counts_ok. destruct (_ <? _) eqn:E; breflect; cbn.
  - rewrite i32_small by lia. split_and!; try done; try lia. by destruct (has_reset _).
  - rewrite !i32_small by lia. split_and!; try done; try lia. rewrite deleted_app, deleted_drop. by destruct (has_reset _).
Qed.

(** Objects that ended, are in the pool or with a user, among those offered. *)
Definition state_ok (offers : list Z) (s : system) : Prop :=
  counts_ok bound (the_pool s) (held s) /\ deleted (effects s) ++ pool_ (the_pool s) ++ held s ⊆+ offers.

Lemma settle {A} (D P H D' P' H' N O : list A) : D ++ P ++ H ⊆+ O -> D' ++ P' ++ H' ⊆+ (D ++ P ++ H) ++ N -> D' ++ P' ++ H' ⊆+ O ++ N.
Proof. intros H1 H2. etrans; [exact H2|]. by apply submseteq_app. Qed.

Lemma step_ok o offers s s' : state_ok offers s -> step o s = Some s' -> state_ok (offers ++ offered o) s'.
Proof.
  intros [Hc Ho] Hs. destruct o as [made|obj|count made|target]; cbn [step] in Hs.
  - pose proof (acquire_ok made _ _ Hc) as H. destruct (acquire_raw made (the_pool s)) as [obj p]. injection Hs as <-. destruct H as (H1 & H2 & _).
    split; [done|]. eapply settle; [exact Ho|]. cbn. transitivity (deleted (effects s) ++ (option_list obj ++ pool_ p) ++ held s); [apply Permutation_submseteq; solve_Permutation|].
    transitivity (deleted (effects s) ++ (option_list made ++ pool_ (the_pool s)) ++ held s); [apply submseteq_app; [done|]; by apply submseteq_app|].
    apply Permutation_submseteq. solve_Permutation.
  - destruct (take_out obj (held s)) as [rest|] eqn:Er; [|done]. cbn [mbind option_bind] in Hs. apply take_out_Some in Er.
    pose proof (release_ok obj _ _ rest Hc Er) as H. destruct (release (Some obj) (the_pool s)) as [p out].
    injection Hs as <-.
    destruct H as (H1 & H2 & _). split; [done|]. eapply settle; [exact Ho|]. cbn. rewrite Er, deleted_app. apply Permutation_submseteq.
    transitivity (deleted (effects s) ++ (deleted out ++ pool_ p) ++ rest); [solve_Permutation|]. rewrite H2. solve_Permutation.
  - injection Hs as <-. destruct (expand_ok (map made (seq 0 (Z.to_nat count))) _ _ Hc) as (H1 & H2 & _). split; [done|]. eapply settle; [exact Ho|]. cbn. unfold expand.
    transitivity (deleted (effects s) ++ (first_objects count made ++ pool_ (the_pool s)) ++ held s); [apply submseteq_app; [done|]; by apply submseteq_app|].
    apply Permutation_submseteq. solve_Permutation.
  - unfold shrink in Hs. destruct (shrink_loop _ target _) as [[p out]|] eqn:E; [|done]. injection Hs as <-.
    destruct (shrink_ok _ _ _ _ _ (held s) eq_refl Hc E) as (H1 & H2 & _). split; [done|]. eapply settle; [exact Ho|]. cbn. rewrite deleted_app, <- H2. apply Permutation_submseteq. solve_Permutation.
Qed.
End Counts.

Lemma fill_ok bound made : forall p users, bound < 2 ^ 31 -> counts_ok bound p users -> created_count_ p + Z.of_nat (length made) <= bound ->
  counts_ok bound (fill made p) users /\ pool_ (fill made p) ⊆+ (made ≫= option_list) ++ pool_ p.
Proof.
  induction made as [|o made IH]; intros p users Hb Hp Hl; [done|]. cbn [fill length] in *.
  destruct (push_made_ok bound Hb o p users Hp ltac:(lia)) as (H1 & H2 & _).
  assert (created_count_ (push_made o p) <= created_count_ p + 1) as Hc.
  { destruct Hp as (H3 & _ & H4 & _). destruct o; cbn; [rewrite i32_small by lia|]; lia. }
  destruct (IH (push_made o p) users Hb H1 ltac:(lia)) as [H3 H4]. split; [done|]. rewrite H4, H2. cbn. apply Permutation_submseteq. solve_Permutation.
Qed.

(** Whatever is acquired, released by its holder, expanded and shrunk: an object is
    in the pool, with one user or ended, and only one of them; the counters are exactly
    the objects alive and those with users; and no more are made than [max_size_], or
    than the constructor made. *)
Theorem objects_conserved cfg factory made ops s :
  initial_size cfg < 2 ^ 31 -> max_size cfg < 2 ^ 31 -> run ops (start cfg factory made) = Some s ->
  deleted (effects s) ++ pool_ (the_pool s) ++ held s ⊆+ first_objects (initial_size cfg) made ++ (ops ≫= offered) /\
  created_count (the_pool s) = Z.of_nat (length (pool_ (the_pool s))) + Z.of_nat (length (held s)) /\
  borrowed_count (the_pool s) = Z.of_nat (length (held s)) /\
  created_count (the_pool s) <= Z.max 0 (Z.max (initial_size cfg) (max_size cfg)).
Proof.
  intros Hi Hm Hr. set (bound := Z.max 0 (Z.max (initial_size cfg) (max_size cfg))). assert (bound < 2 ^ 31) as Hb by lia.
  assert (state_ok bound (first_objects (initial_size cfg) made) (start cfg factory made)) as H0.
  { destruct (fill_ok bound (map made (seq 0 (Z.to_nat (initial_size cfg)))) (mkPool cfg factory [] 0 0) [] Hb) as [H1 H2].
    - unfold counts_ok. cbn. split_and!; lia.
    - rewrite length_map, length_seq. cbn. lia.
    - cbn [pool_] in H2. rewrite app_nil_r in H2. split; [exact H1|]. cbn. by rewrite app_nil_r. }
  assert (forall ops s0 offers, state_ok bound offers s0 -> run ops s0 = Some s -> state_ok bound (offers ++ (ops ≫= offered)) s) as Hrun.
  { clear Hr H0. intros ops'. induction ops' as [|o ops' IH]; intros s0 offers Hs Hr; cbn [run] in Hr; [injection Hr as <-; by rewrite app_nil_r|].
    destruct (step o s0) as [s1|] eqn:E; [|done]. cbn. rewrite app_assoc. apply (IH s1); [by eapply step_ok|done]. }
  destruct (Hrun _ _ _ H0 Hr) as [(H1 & H2 & H3 & _) H4]. done.
Qed.

Definition demo_made (n : nat) : option Z := Some (100 + Z.of_nat n).
Definition demo_ops : list op := [Acquire None; Acquire None; Acquire (Some 7); Release 101; Shrink 0; Expand 2 (fun _ => Some 8)].

Lemma demo_pool_run : exists s, run demo_ops (start (mkObjConfig 2 3 1 true) (mkFactory true true) demo_made) = Some s.
Proof.
  destruct (run demo_ops _) as [s|] eqn:E; [by exists s|]. exfalso.
  assert (match run demo_ops (start (mkObjConfig 2 3 1 true) (mkFactory true true) demo_made) with Some _ => true | None => false end = true) as H by (vm_compute; reflexivity).
  by rewrite E in H.
Qed.

Lemma objects_conserved_witness : exists s, run demo_ops (start (mkObjConfig 2 3 1 true) (mkFactory true true) demo_made) = Some s /\
  created_count (the_pool s) = Z.of_nat (length (pool_ (the_pool s))) + Z.of_nat (length (held s)).
Proof.
  destruct demo_pool_run as [s H]. exists s. split; [exact H|].
  exact (proj1 (proj2 (objects_conserved (mkObjConfig 2 3 1 true) (mkFactory true true) demo_made demo_ops s ltac:(cbn; lia) ltac:(cbn; lia) H))).
Defined.

(** ** The sizes of buffers *)

Fixpoint acquires (n : nat) (p : Buffer.pool) : list (option (list Byte.byte)) :=
  match n with O => [] | S n' => let '(b, p1) := Buffer.acquire p in b :: acquires n' p1 end.

Lemma acquires_spec n : forall p, 0 <= Buffer.created_count_ p -> Buffer.max_count_ p < 2 ^ 31 ->
  acquires n p = take n (replicate (length (Buffer.pool_ p)) (Some []) ++
    replicate (Z.to_nat (Buffer.max_count_ p - Buffer.created_count_ p)) (Some (Buffer.fresh_buffer (Buffer.buffer_size_ p))) ++ replicate n None).
Proof.
  induction n as [|n IH]; intros p H0 Hm; [done|]. cbn [acquires]. unfold Buffer.acquire. destruct (Buffer.pool_ p) as [|b rest] eqn:El.
  - destruct (_ <? _) eqn:E; breflect.
    + rewrite IH; cbn [Buffer.created_count_ Buffer.max_count_ Buffer.pool_ Buffer.buffer_size_ length replicate app]; [|rewrite i32_small by lia; lia|done].
      rewrite i32_small by lia. replace (Z.to_nat (Buffer.max_count_ p - Buffer.created_count_ p)) with (S (Z.to_nat (Buffer.max_count_ p - (Buffer.created_count_ p + 1)))) by lia.
      cbn [replicate app take]. f_equal. rewrite !take_app. f_equal. change (@None (list Byte.byte) :: replicate n None) with (replicate (S n) (@None (list Byte.byte))). rewrite !take_replicate. f_equal. rewrite !length_replicate. lia.
    + rewrite IH by done. rewrite El. replace (Z.to_nat (Buffer.max_count_ p - Buffer.created_count_ p)) with 0%nat by lia.
      cbn [length replicate app take]. done.
  - rewrite IH by done. cbn [Buffer.created_count_ Buffer.max_count_ Buffer.pool_ Buffer.buffer_size_ length replicate app take]. f_equal.
    rewrite !take_app. f_equal. f_equal. change (@None (list Byte.byte) :: replicate n None) with (replicate (S n) (@None (list Byte.byte))). rewrite !take_replicate. f_equal. rewrite !length_replicate. lia.
Qed.

Lemma fill_spec n : forall p, 0 <= Buffer.created_count_ p -> Buffer.max_count_ p < 2 ^ 31 ->
  let m := Z.min (Z.of_nat n) (Z.max 0 (Buffer.max_count_ p - Buffer.created_count_ p)) in
  Z.of_nat (length (Buffer.pool_ (Buffer.fill n p))) = Z.of_nat (length (Buffer.pool_ p)) + m /\
  Buffer.created_count_ (Buffer.fill n p) = Buffer.created_count_ p + m /\ Buffer.max_count_ (Buffer.fill n p) = Buffer.max_count_ p /\
  Buffer.buffer_size_ (Buffer.fill n p) = Buffer.buffer_size_ p.
Proof.
  induction n as [|n IH]; intros p H0 Hm m; subst m; [cbn; split_and!; try done; lia|]. cbn [Buffer.fill]. destruct (_ <? _) eqn:E; breflect.
  - destruct (IH (Buffer.mkPool (Buffer.buffer_size_ p) (Buffer.max_count_ p) (Buffer.fresh_buffer (Buffer.buffer_size_ p) :: Buffer.pool_ p)
      (i32 (Buffer.created_count_ p + 1)) (Buffer.borrowed_count_ p))) as (H1 & H2 & H3 & H4); cbn [Buffer.created_count_ Buffer.max_count_ Buffer.pool_ Buffer.buffer_size_ length] in *;
      rewrite ?i32_small in * by lia; [lia|done|]. split_and!; [lia|lia|done|done].
  - split_and!; try done; lia.
Qed.

(** The buffers a pool has made in advance come out empty and those it makes when
    asked come out with [buffer_size] bytes: which a caller gets depends on how many
    others have asked before. *)
Theorem buffer_sizes size initial mx n : 0 <= initial -> 0 <= mx < 2 ^ 31 ->
  acquires n (Buffer.BufferPool size initial mx) =
  take n (replicate (Z.to_nat (Z.min initial mx)) (Some []) ++ replicate (Z.to_nat (mx - initial)) (Some (Buffer.fresh_buffer size)) ++ replicate n None).
Proof.
  intros Hi Hm. destruct (fill_spec (Z.to_nat initial) (Buffer.mkPool size mx [] 0 0)) as (H1 & H2 & H3 & H4); [done|cbn; lia|].
  cbn [Buffer.created_count_ Buffer.max_count_ Buffer.pool_ Buffer.buffer_size_ length] in *. unfold Buffer.BufferPool.
  rewrite acquires_spec by lia. rewrite H2, H3, H4. f_equal. f_equal; [f_equal; lia|]. f_equal. f_equal. lia.
Qed.

Lemma buffer_sizes_witness : acquires 4 (Buffer.BufferPool 3 2 3) = [Some []; Some []; Some (Buffer.fresh_buffer 3); None].
Proof. etransitivity; [apply buffer_sizes; lia|reflexivity]. Defined.
