(* ===== verification/Config.v ===== *)
(** * Config: src/core/config.cpp

    Files of keys and values, defaults and the environment.  A file is its contents,
    [None] when it cannot be opened; the environment is a function. *)

From S2P Require Import Prelude.
From S2P Require Import Numeric.
From S2P Require Import Protocol.
From S2P Require Import Wire.
From S2P Require Import StdNum.

Definition trim (s : str) : str := rev (skip_spaces (rev (skip_spaces s))).

Definition newline : byte := Byte.x0a.
Definition hash : byte := Byte.x23.
Definition slash : byte := Byte.x2f.
Definition equals : byte := Byte.x3d.
Definition colon : byte := Byte.x3a.

(** [std::getline] until it fails; [line] is what was read of the line, backwards. *)
Fixpoint getlines (line : str) (s : str) : list str :=
  match s with
  | [] => match line with [] => [] | _ => [rev line] end
  | b :: s' => if Byte.eqb b newline then rev line :: getlines [] s' else getlines (b :: line) s'
  end.

(** [t.find(c)] as the parts before and behind it. *)
Fixpoint cut (c : byte) (s : str) : option (str * str) :=
  match s with
  | [] => None
  | b :: s' => if Byte.eqb b c then Some ([], s') else '(k, v) ← cut c s'; Some (b :: k, v)
  end.

(** One word of an [istringstream], and what is left. *)
Fixpoint until_space (s : str) : str * str :=
  match s with
  | [] => ([], [])
  | b :: s' => if is_space b then ([], s) else let '(w, rest) := until_space s' in (b :: w, rest)
  end.
Definition next_word (s : str) : option (str * str) :=
  match until_space (skip_spaces s) with ([], _) => None | r => Some r end.

Record Config := mkConfig { listen_port_ : Z; worker_threads_ : Z; kv_ : gmap str str }.
Definition Config_init : Config := mkConfig 9000 4 ∅.

(** The key and value of a line, if it has them. *)
Definition parse_line (line : str) : option (str * str) :=
  let t := trim line in
  match t with
  | [] => None
  | b :: t' =>
      if Byte.eqb b hash || (Byte.eqb b slash && match t' with b' :: _ => Byte.eqb b' slash | [] => false end) then None
      else
        '(key, value) ←
          match match cut equals t with Some kv => Some kv | None => cut colon t end with
          | Some (k, v) => Some (trim k, trim v)
          | None => '(key, rest) ← next_word t; '(value, _) ← next_word rest; Some (key, value)
          end;
        match key with [] => None | _ => Some (key, value) end
  end.

Definition load_line (kv : gmap str str) (line : str) : gmap str str :=
  match parse_line line with Some (key, value) => <[key := value]> kv | None => kv end.

Definition load_text (text : str) (kv : gmap str str) : gmap str str := foldl load_line kv (getlines [] text).

Definition get_string (key default_value : str) (c : Config) : str :=
  match kv_ c !! key with Some v => v | None => default_value end.

(** [std::stoi], [None] when it throws. *)
Definition stoi (s : str) : option Z := v ← stoll s; if int_range v then Some v else None.

Definition get_int (key : str) (default_value : Z) (c : Config) : Z :=
  match kv_ c !! key with Some s => default default_value (stoi s) | None => default_value end.

Definition apply_kv_to_fields (c : Config) : Config :=
  let port := get_int (lit "listen_port") (listen_port_ c) c in
  let threads := get_int (lit "worker_threads") (worker_threads_ c) c in
  mkConfig port threads (kv_ c).

Definition apply_env_overrides (getenv : str -> option str) (c : Config) : Config :=
  let port := match v ← (getenv (lit "CHWELL_LISTEN_PORT") ≫= stoi); (if (0 <? v) && (v <=? 65535) then Some v else None) with
              | Some v => v | None => listen_port_ c end in
  let threads := match v ← (getenv (lit "CHWELL_WORKER_THREADS") ≫= stoi); (if 0 <? v then Some v else None) with
                 | Some v => v | None => worker_threads_ c end in
  mkConfig port threads (kv_ c).

(** [load_from_files] with the path of each file and its contents. *)
Definition load_file (kv : gmap str str) (file : str * option str) : gmap str str :=
  match file with
  | ([], _) | (_, None) => kv
  | (_, Some text) => load_text text kv
  end.

Definition load_from_files (files : list (str * option str)) (getenv : str -> option str) (c : Config) : Config :=
  apply_env_overrides getenv (apply_kv_to_fields (mkConfig (listen_port_ c) (worker_threads_ c) (foldl load_file ∅ files))).

Definition load_from_file (file : str * option str) (getenv : str -> option str) (c : Config) : Config := load_from_files [file] getenv c.

Definition set (key value : str) (c : Config) : Config :=
  match key with [] => c | _ => apply_kv_to_fields (mkConfig (listen_port_ c) (worker_threads_ c) (<[key := value]> (kv_ c))) end.

(** ** What is written is read back *)

(** No white space at either end. *)
Definition no_space_first (s : str) : bool := match s with [] => true | b :: _ => negb (is_space b) end.
Definition clean (s : str) : bool := no_space_first s && no_space_first (rev s).

Lemma skip_clean s : no_space_first s = true -> skip_spaces s = s.
Proof. destruct s as [|b s]; [done|]. cbn. by destruct (is_space b). Qed.

Lemma trim_clean s : clean s = true -> trim s = s.
Proof. intros [H1 H2]%andb_prop. unfold trim. rewrite (skip_clean s) by done. rewrite skip_clean by done. apply rev_involutive. Qed.

Lemma eqb_false a b : a <> b -> Byte.eqb a b = false.
Proof. intros H. destruct (Byte.eqb a b) eqn:E; [|done]. by apply Byte.byte_dec_bl in E. Qed.

Lemma cut_at c k v : c ∉ k -> cut c (k ++ c :: v) = Some (k, v).
Proof.
  induction k as [|b k IH]; intros Hn; cbn.
  - by rewrite (Byte.byte_dec_lb eq_refl).
  - apply not_elem_of_cons in Hn as [Hb Hn]. rewrite eqb_false by done. by rewrite IH.
Qed.

Lemma getlines_line line s acc : newline ∉ line -> getlines acc (line ++ newline :: s) = (rev acc ++ line) :: getlines [] s.
Proof.
  revert acc. induction line as [|b line IH]; intros acc Hn; cbn.
  - by rewrite app_nil_r.
  - apply not_elem_of_cons in Hn as [Hb Hn]. rewrite eqb_false by done. rewrite IH by done. cbn. by rewrite <- app_assoc.
Qed.

(** An entry of a file: no line feed, and a key that is no comment. *)
Definition entry_ok (p : str * str) : bool :=
  match p.1 with [] => false | b :: _ => negb (Byte.eqb b hash) && negb (Byte.eqb b slash) end && clean p.1 && clean p.2 &&
  bool_decide (equals ∉ p.1) && bool_decide (newline ∉ p.1) && bool_decide (newline ∉ p.2).
Definition entry_text (p : str * str) : str := p.1 ++ equals :: p.2 ++ [newline].

Lemma parse_entry p : entry_ok p = true -> parse_line (p.1 ++ equals :: p.2) = Some p /\ (newline ∉ p.1) /\ (newline ∉ p.2).
Proof.
  destruct p as [k v]. unfold entry_ok. cbn [fst snd]. intros [[[[[Hc Hck]%andb_prop Hcv]%andb_prop He]%andb_prop Hn1]%andb_prop Hn2]%andb_prop.
  apply bool_decide_eq_true in He, Hn1, Hn2. split; [|done]. unfold parse_line. destruct k as [|b k]; [done|]. rewrite trim_clean.
  - cbn [app]. apply andb_prop in Hc as [H1 H2]. apply negb_true_iff in H1, H2. rewrite H1, H2. cbn [orb andb].
    change (b :: k ++ equals :: v) with ((b :: k) ++ equals :: v). rewrite cut_at by done. cbn [mbind option_bind]. by rewrite !trim_clean.
  - apply andb_prop in Hck as [Hck _]. apply andb_prop in Hcv as [_ Hcv]. unfold clean. apply andb_true_intro. split; [done|].
    rewrite rev_app_distr. cbn [rev]. rewrite <- !app_assoc. by destruct (rev v).
Qed.

(** Entries written as lines of a file are read back exactly, the last one of a key
    counting, over whatever was read before. *)
Theorem config_read_back l kv : forallb entry_ok l = true -> load_text (l ≫= entry_text) kv = foldl (fun m p => <[p.1 := p.2]> m) kv l.
Proof.
  intros Hl. unfold load_text. revert kv. induction l as [|p l IH]; intros kv; [done|]. apply andb_prop in Hl as [Hp Hl]. cbn [mbind list_bind].
  replace (entry_text p ++ (l ≫= entry_text)) with ((p.1 ++ equals :: p.2) ++ newline :: (l ≫= entry_text)) by (unfold entry_text; rewrite <- !app_assoc; cbn [app]; by rewrite <- !app_assoc).
  destruct (parse_entry p Hp) as (Hparse & Hn1 & Hn2). rewrite getlines_line.
  - cbn [foldl rev app]. unfold load_line at 2. rewrite Hparse. destruct p as [k v]. by apply IH.
  - rewrite not_elem_of_app, not_elem_of_cons. split_and!; done.
Qed.

Lemma config_read_back_witness :
  load_text ([(lit "listen_port", lit "80"); (lit "a b", []); (lit "listen_port", lit "81")] ≫= entry_text) ∅ =
  <[lit "listen_port" := lit "81"]> (<[lit "a b" := []]> (<[lit "listen_port" := lit "80"]> ∅)).
Proof.
  apply (config_read_back [(lit "listen_port", lit "80"); (lit "a b", []); (lit "listen_port", lit "81")] ∅). vm_compute. reflexivity.
Defined.

Lemma stoi_to_string z : - 2 ^ 31 <= z < 2 ^ 31 -> stoi (to_string z) = Some z.
Proof.
  intros Hz. unfold stoi. rewrite stoll_to_string by lia. cbn. unfold int_range.
  by rewrite (proj2 (Z.leb_le _ _)), (proj2 (Z.ltb_lt _ _)) by lia.
Qed.

(** The environment wins over the files only until the next [set]: setting any other
    key brings back the port of the file. *)
Theorem set_undoes_env files getenv c p q key value_ :
  0 < p <= 65535 -> - 2 ^ 31 <= q < 2 ^ 31 -> getenv (lit "CHWELL_LISTEN_PORT") = Some (to_string p) ->
  foldl load_file ∅ files !! lit "listen_port" = Some (to_string q) -> key <> [] -> key <> lit "listen_port" ->
  listen_port_ (load_from_files files getenv c) = p /\ listen_port_ (set key value_ (load_from_files files getenv c)) = q.
Proof.
  intros Hp Hq Henv Hkv Hk1 Hk2. unfold load_from_files, apply_env_overrides. rewrite Henv. cbn [mbind option_bind]. rewrite stoi_to_string by lia. cbn [mbind option_bind].
  rewrite (proj2 (Z.ltb_lt 0 p)), (proj2 (Z.leb_le p 65535)) by lia. cbn [andb]. split; [done|].
  unfold set. destruct key as [|b key]; [done|]. unfold apply_kv_to_fields, get_int. cbn [listen_port_ kv_]. rewrite lookup_insert_ne by done. rewrite Hkv.
  by rewrite stoi_to_string.
Qed.

Lemma set_undoes_env_witness :
  let files := [(lit "app.conf", Some (entry_text (lit "listen_port", to_string 8000)))] in
  let getenv name := if decide (name = lit "CHWELL_LISTEN_PORT") then Some (to_string 9100) else None in
  listen_port_ (load_from_files files getenv Config_init) = 9100 /\
  listen_port_ (set (lit "name") (lit "x") (load_from_files files getenv Config_init)) = 8000.
Proof.
  intros files getenv. apply (set_undoes_env files getenv Config_init 9100 8000).
  - lia.
  - lia.
  - unfold getenv. by rewrite decide_True.
  - vm_compute. reflexivity.
  - discriminate.
  - discriminate.
Defined.
