(* ===== verification/Metrics.v ===== *)
(** * Metrics: src/metrics/prometheus_metrics.cpp

    Counters, gauges, histograms and summaries, their registry and its text.  A handle is
    the name under which a metric was registered. *)

From stdpp Require Import sorting.
From Stdlib Require Import SpecFloat.
From S2P Require Import Prelude.
From S2P Require Import Numeric.
From S2P Require Import Protocol.
From S2P Require Import Wire.
From S2P Require Import StdNum.

(** ** [ostream << double]: six significant digits, as [%g] *)

(** Whether [num / den < 10 ^ k], and the exponent of the first digit. *)
Definition below_power (num den k : Z) : bool := if 0 <=? k then num <? den * 10 ^ k else num * 10 ^ (- k) <? den.
Fixpoint first_digit (fuel : nat) (k num den : Z) : Z :=
  match fuel with O => k | S fuel' => if below_power num den (k + 1) then k else first_digit fuel' (k + 1) num den end.

(** [num / den] to the nearest integer, ties to even. *)
Definition nearest (num den : Z) : Z :=
  let q := num / den in
  match 2 * (num mod den) ?= den with Lt => q | Eq => if Z.even q then q else q + 1 | Gt => q + 1 end.

(** The six digits as an integer between 10^5 and 10^6, and their exponent.  A double's
    first digit is between 10^-324 and 10^308. *)
Definition six_digits (num den : Z) : Z * Z :=
  let k := first_digit 700 (-330) num den in
  let q := if 5 <? k then nearest num (den * 10 ^ (k - 5)) else nearest (num * 10 ^ (5 - k)) den in
  if q =? 10 ^ 6 then (10 ^ 5, k + 1) else (q, k).

Definition zero_digit : Byte.byte := byte_of 48.
Fixpoint drop_zeros (s : str) : str := match s with b :: s' => if Byte.eqb b zero_digit then drop_zeros s' else s | [] => [] end.
Definition strip (s : str) : str := rev (drop_zeros (rev s)).
Definition with_point (i f : str) : str := match f with [] => i | _ => i ++ lit "." ++ f end.

Definition show_digits (q k : Z) : str :=
  let s := to_string q in
  if (-4 <=? k) && (k <? 6) then
    if 0 <=? k then with_point (take (Z.to_nat (k + 1)) s) (strip (drop (Z.to_nat (k + 1)) s))
    else with_point (lit "0") (replicate (Z.to_nat (- k - 1)) zero_digit ++ strip s)
  else
    with_point (take 1 s) (strip (drop 1 s)) ++ lit "e" ++ (if k <? 0 then lit "-" else lit "+") ++
    (if Z.abs k <? 10 then lit "0" else []) ++ to_string (Z.abs k).

Definition show_double (x : f64) : str :=
  match x with
  | S754_zero s => (if s then lit "-" else []) ++ lit "0"
  | S754_infinity s => (if s then lit "-" else []) ++ lit "inf"
  | S754_nan => lit "nan"
  | S754_finite s m e =>
      let '(q, k) := if 0 <=? e then six_digits (Zpos m * 2 ^ e) 1 else six_digits (Zpos m) (2 ^ (- e)) in
      (if s then lit "-" else []) ++ show_digits q k
  end.

(** ** The metrics *)

Definition Counter_init : f64 := f64_of_Z 0.
Definition Counter_inc (delta : f64) (value_ : f64) : f64 := f64_add value_ delta.
Definition Gauge_dec (delta : f64) (value_ : f64) : f64 := SFsub 53 1024 value_ delta.
Definition Gauge_set (value : f64) (value_ : f64) : f64 := value.

Record Histogram := mkHistogram { buckets_ : list f64; counts_ : list Z; count_ : Z; sum_ : f64 }.

Definition Histogram_init (buckets : list f64) : Histogram := mkHistogram buckets (map (fun _ => 0) buckets) 0 (f64_of_Z 0).

Definition f64_leb (x y : f64) : bool := SFleb x y.

Definition Histogram_observe (value : f64) (h : Histogram) : Histogram :=
  mkHistogram (buckets_ h) (zip_with (fun b n => if f64_leb value b then n +u64 1 else n) (buckets_ h) (counts_ h))
    (count_ h +u64 1) (f64_add (sum_ h) value).

Record Summary := mkSummary { quantiles_ : list f64; values_ : list f64 }.
Definition Summary_init (quantiles : list f64) : Summary := mkSummary quantiles [].

Definition Summary_observe (value : f64) (s : Summary) : Summary :=
  let values := values_ s ++ [value] in
  mkSummary (quantiles_ s) (if (1000 <? length values)%nat then tail values else values).
Definition set_quantiles (quantiles : list f64) (s : Summary) : Summary := mkSummary quantiles (values_ s).

(** [std::sort]; undefined with a NaN among the values. *)
Definition f64_le (x y : f64) : Prop := f64_leb x y = true.
#[export] Instance f64_le_dec : RelDecision f64_le := fun x y => decide (f64_leb x y = true).
Definition is_nan (x : f64) : bool := match x with S754_nan => true | _ => false end.
Definition sort_values (l : list f64) : option (list f64) := if existsb is_nan l then None else Some (merge_sort f64_le l).

(** [static_cast<size_t>(q * sorted.size())]: undefined out of range. *)
Definition quantile (sorted : list f64) (q : f64) : option f64 :=
  i ← f64_trunc (f64_mul q (f64_of_Z (Z.of_nat (length sorted))));
  if (0 <=? i) && (i <? 2 ^ 64)
  then sorted !! (if Z.of_nat (length sorted) <=? i then (length sorted - 1)%nat else Z.to_nat i)
  else None.

Fixpoint quantiles_of (sorted : list f64) (qs : list f64) : option (list f64) :=
  match qs with [] => Some [] | q :: qs' => v ← quantile sorted q; vs ← quantiles_of sorted qs'; Some (v :: vs) end.

Definition get_quantiles (s : Summary) : option (list f64) :=
  match values_ s with
  | [] => Some (map (fun _ => f64_of_Z 0) (quantiles_ s))
  | _ => sorted ← sort_values (values_ s); quantiles_of sorted (quantiles_ s)
  end.

Definition Summary_count (s : Summary) : Z := Z.of_nat (length (values_ s)).
Definition Summary_sum (s : Summary) : f64 := foldl f64_add (f64_of_Z 0) (values_ s).

(** ** The text *)

Definition nl : str := [Byte.x0a].
Definition quote : str := [Byte.x22].

Definition header (name help type : str) : str :=
  lit "# HELP " ++ name ++ lit " " ++ help ++ nl ++ lit "# TYPE " ++ name ++ lit " " ++ type ++ nl.

Definition Counter_text (name help : str) (value_ : f64) : str := header name help (lit "counter") ++ name ++ lit " " ++ show_double value_ ++ nl.
Definition Gauge_text (name help : str) (value_ : f64) : str := header name help (lit "gauge") ++ name ++ lit " " ++ show_double value_ ++ nl.

(** [get_count] of a histogram is a [double]. *)
Definition Histogram_count (h : Histogram) : f64 := f64_of_Z (count_ h).

Definition bucket_line (name le count : str) : str := name ++ lit "_bucket{le=" ++ quote ++ le ++ quote ++ lit "} " ++ count ++ nl.

Definition Histogram_text (name help : str) (h : Histogram) : str :=
  header name help (lit "histogram") ++ name ++ lit "_sum " ++ show_double (sum_ h) ++ nl ++
  name ++ lit "_count " ++ show_double (Histogram_count h) ++ nl ++
  concat (zip_with (fun b n => bucket_line name (show_double b) (to_string n)) (buckets_ h) (counts_ h)) ++
  bucket_line name (lit "+Inf") (show_double (Histogram_count h)).

Definition Summary_text (name help : str) (s : Summary) : option str :=
  qs ← get_quantiles s;
  Some (header name help (lit "summary") ++ name ++ lit "_sum " ++ show_double (Summary_sum s) ++ nl ++
        name ++ lit "_count " ++ to_string (Summary_count s) ++ nl ++
        concat (zip_with (fun q v => name ++ lit "{quantile=" ++ quote ++ show_double q ++ quote ++ lit "} " ++ show_double v ++ nl) (quantiles_ s) qs)).

(** ** The registry *)

Record MetricInfo := mkInfo { help : str; type : str }.

Record registry := mkRegistry {
  counters_ : gmap str f64;
  gauges_ : gmap str f64;
  histograms_ : gmap str Histogram;
  summaries_ : gmap str Summary;
  metric_infos_ : gmap str MetricInfo
}.
Definition registry_init : registry := mkRegistry ∅ ∅ ∅ ∅ ∅.

Definition register_counter (name h : str) (r : registry) : registry :=
  match counters_ r !! name with
  | Some _ => r
  | None => mkRegistry (<[name := Counter_init]> (counters_ r)) (gauges_ r) (histograms_ r) (summaries_ r) (<[name := mkInfo h (lit "counter")]> (metric_infos_ r))
  end.
Definition register_gauge (name h : str) (r : registry) : registry :=
  match gauges_ r !! name with
  | Some _ => r
  | None => mkRegistry (counters_ r) (<[name := Counter_init]> (gauges_ r)) (histograms_ r) (summaries_ r) (<[name := mkInfo h (lit "gauge")]> (metric_infos_ r))
  end.
Definition register_histogram (name : str) (buckets : list f64) (h : str) (r : registry) : registry :=
  match histograms_ r !! name with
  | Some _ => r
  | None => mkRegistry (counters_ r) (gauges_ r) (<[name := Histogram_init buckets]> (histograms_ r)) (summaries_ r) (<[name := mkInfo h (lit "histogram")]> (metric_infos_ r))
  end.
Definition register_summary (name : str) (quantiles : list f64) (h : str) (r : registry) : registry :=
  match summaries_ r !! name with
  | Some _ => r
  | None => mkRegistry (counters_ r) (gauges_ r) (histograms_ r) (<[name := Summary_init quantiles]> (summaries_ r)) (<[name := mkInfo h (lit "summary")]> (metric_infos_ r))
  end.
Definition reset (r : registry) : registry := registry_init.

(** One loop of [to_prometheus]; [at] throws for a name without information. *)
Fixpoint texts {A} (text : str -> str -> A -> option str) (infos : gmap str MetricInfo) (l : list (str * A)) : option str :=
  match l with
  | [] => Some []
  | (name, x) :: l' => info ← infos !! name; t ← text name (help info) x; rest ← texts text infos l'; Some (t ++ rest)
  end.

Definition to_prometheus (r : registry) : option str :=
  c ← texts (fun n h v => Some (Counter_text n h v)) (metric_infos_ r) (in_order (counters_ r));
  g ← texts (fun n h v => Some (Gauge_text n h v)) (metric_infos_ r) (in_order (gauges_ r));
  h ← texts (fun n h v => Some (Histogram_text n h v)) (metric_infos_ r) (in_order (histograms_ r));
  s ← texts Summary_text (metric_infos_ r) (in_order (summaries_ r));
  Some (c ++ g ++ h ++ s).

Definition export_metrics (r : registry) : option str := to_prometheus r.

Example show_doubles : map show_double [f64_of_Z 0; f64_of_Z 123456; f64_of_Z 1234567; f64_half; f64_div (f64_of_Z 1) (f64_of_Z 3); f64_div (f64_of_Z (-1)) (f64_of_Z 100000)]
  = [lit "0"; lit "123456"; lit "1.23457e+06"; lit "0.5"; lit "0.333333"; lit "-1e-05"].
Proof. vm_compute. reflexivity. Qed.
