(* ===== verification/MetricsFacts.v ===== *)
(** * MetricsFacts: what the metrics count, and what the text shows *)

From S2P Require Import Prelude.
From S2P Require Import Numeric.
From S2P Require Import Wire.
From S2P Require Import StdNum.
From S2P Require Import Metrics.

(** ** Histograms *)

Definition observed (vs : list f64) (h : Histogram) : Histogram := foldl (fun h v => Histogram_observe v h) h vs.
Definition at_most (b : f64) (vs : list f64) : Z := Z.of_nat (length (filter (fun v => f64_leb v b = true) vs)).

Lemma at_most_cons b v vs : at_most b (v :: vs) = (if f64_leb v b then 1 else 0) + at_most b vs.
Proof. unfold at_most. rewrite filter_cons. destruct (f64_leb v b); cbn [length]; case_decide; try done; cbn [length]; lia. Qed.

Lemma at_most_bound b vs : 0 <= at_most b vs <= Z.of_nat (length vs).
Proof. unfold at_most. pose proof (length_filter (fun v => f64_leb v b = true) vs). lia. Qed.

Lemma observed_spec vs : forall h, length (counts_ h) = length (buckets_ h) -> 0 <= count_ h -> count_ h + Z.of_nat (length vs) < 2 ^ 64 ->
  Forall (fun n => 0 <= n <= count_ h) (counts_ h) ->
  counts_ (observed vs h) = zip_with (fun b n => n + at_most b vs) (buckets_ h) (counts_ h) /\
  count_ (observed vs h) = count_ h + Z.of_nat (length vs) /\ buckets_ (observed vs h) = buckets_ h /\
  sum_ (observed vs h) = foldl f64_add (sum_ h) vs.
Proof.
  induction vs as [|v vs IH]; intros h Hl H0 Hmax Hc.
  - cbn. split_and!; [|lia|done|done]. clear -Hl. revert Hl. generalize (counts_ h). induction (buckets_ h) as [|b bs IH]; intros [|n ns] Hl; try done.
    cbn. f_equal; [unfold at_most; cbn; lia|]. apply IH. by injection Hl.
  - cbn [observed foldl length] in *. set (h1 := Histogram_observe v h).
    assert (counts_ h1 = zip_with (fun b n => if f64_leb v b then n + 1 else n) (buckets_ h) (counts_ h)) as Hh1.
    { subst h1. cbn. clear -Hc Hmax. revert Hc. generalize (counts_ h). induction (buckets_ h) as [|b bs IH]; intros [|n ns] Hc; try done.
      apply Forall_cons in Hc as [Hn Hc]. cbn. rewrite (IH ns Hc). f_equal. destruct (f64_leb v b); [|done]. apply uwrap_small. lia. }
    assert (count_ h1 = count_ h + 1) as Hn1 by (subst h1; cbn; apply uwrap_small; lia).
    destruct (IH h1) as (H1 & H2 & H3 & H4).
    + rewrite Hh1, length_zip_with. cbn. lia.
    + lia.
    + lia.
    + rewrite Hh1, Hn1. clear -Hc. revert Hc. generalize (counts_ h). induction (buckets_ h) as [|b bs IH]; intros [|n ns] Hc; constructor.
      * apply Forall_cons in Hc as [Hn _]. destruct (f64_leb v b); lia.
      * apply Forall_cons in Hc as [_ Hc]. by apply IH.
    + unfold observed in *. rewrite H1, H2, H3, H4, Hh1, Hn1. split_and!; [|lia|done|done]. cbn [buckets_ Histogram_observe h1].
      clear. generalize (counts_ h). induction (buckets_ h) as [|b bs IH]; intros [|n ns]; try done. cbn. rewrite IH, at_most_cons. f_equal. destruct (f64_leb v b); lia.
Qed.

(** After any observations each bucket of a histogram counts exactly the values at
    most its bound, and the total and the sum are those of all values. *)
Theorem histogram_counts_exact bs vs : Z.of_nat (length vs) < 2 ^ 64 ->
  counts_ (observed vs (Histogram_init bs)) = map (fun b => at_most b vs) bs /\
  count_ (observed vs (Histogram_init bs)) = Z.of_nat (length vs) /\
  sum_ (observed vs (Histogram_init bs)) = foldl f64_add (f64_of_Z 0) vs.
Proof.
  intros Hl. destruct (observed_spec vs (Histogram_init bs)) as (H1 & H2 & _ & H4).
  - cbn. by rewrite length_map.
  - done.
  - done.
  - cbn. apply Forall_map, Forall_true. intros b. cbn. lia.
  - rewrite H1, H2, H4. split_and!; [|done|done]. cbn. clear. induction bs as [|b bs IH]; [done|]. cbn. by f_equal.
Qed.

Lemma histogram_counts_exact_witness :
  counts_ (observed (map f64_of_Z [1; 5; 20]) (Histogram_init (map f64_of_Z [1; 10]))) = [1; 2].
Proof.
  etransitivity; [apply (histogram_counts_exact (map f64_of_Z [1; 10]) (map f64_of_Z [1; 5; 20])); cbn; lia|vm_compute; reflexivity].
Defined.

(** The total of a histogram goes through a [double] printed with six digits: after
    1234564 observations at most a bound that bucket shows all of them and [+Inf], which
    contains it, shows 1234560. *)
Theorem export_loses_count name h_ b vs : length vs = Z.to_nat 1234564 -> Forall (fun v => f64_leb v b = true) vs ->
  exists front, Histogram_text name h_ (observed vs (Histogram_init [b])) =
    front ++ bucket_line name (show_double b) (lit "1234564") ++ bucket_line name (lit "+Inf") (lit "1.23456e+06").
Proof.
  intros Hl Hv. assert (Z.of_nat (length vs) = 1234564) as Hn by (rewrite Hl; apply Z2Nat.id; lia).
  destruct (observed_spec vs (Histogram_init [b])) as (H1 & H2 & H3 & _); [done|done|cbn [count_ Histogram_init]; lia|by repeat constructor|].
  assert (at_most b vs = 1234564) as Hb.
  { rewrite <- Hn. clear -Hv. induction Hv as [|v vs Hv _ IH]; [done|]. rewrite at_most_cons, Hv, IH. cbn [length]. lia. }
  unfold Histogram_text, Histogram_count. rewrite H1, H2, H3. cbn [Histogram_init buckets_ counts_ map zip_with concat count_]. rewrite Hb, Hn.
  assert (to_string (0 + 1234564) = lit "1234564") as -> by (vm_compute; reflexivity).
  assert (show_double (f64_of_Z (0 + 1234564)) = lit "1.23456e+06") as -> by (vm_compute; reflexivity).
  eexists. rewrite app_nil_r. rewrite !app_assoc. reflexivity.
Qed.

Lemma export_loses_count_witness : exists front,
  Histogram_text (lit "ms") [] (observed (replicate (Z.to_nat 1234564) (f64_of_Z 1)) (Histogram_init [f64_of_Z 10])) =
    front ++ bucket_line (lit "ms") (show_double (f64_of_Z 10)) (lit "1234564") ++ bucket_line (lit "ms") (lit "+Inf") (lit "1.23456e+06").
Proof.
  apply export_loses_count; [apply length_replicate|]. apply Forall_replicate. reflexivity.
Defined.

(** ** Summaries *)

(** A summary keeps the last thousand observations, in order; its count and sum are
    theirs, not of all. *)
Theorem summary_keeps_last vs qs :
  let s := foldl (fun s v => Summary_observe v s) (Summary_init qs) vs in
  values_ s = drop (length vs - 1000) vs /\ Summary_count s = Z.min 1000 (Z.of_nat (length vs)).
Proof.
  intros s. enough (values_ s = drop (length vs - 1000) vs) as H.
  { split; [done|]. unfold Summary_count. rewrite H, length_drop. lia. }
  subst s. induction vs as [|v vs IH] using rev_ind; [done|]. rewrite foldl_app. cbn [foldl]. unfold Summary_observe at 1. cbn [values_]. rewrite IH.
  rewrite length_app. cbn [length]. rewrite length_app, length_drop. cbn [length]. destruct (1000 <? _)%nat eqn:E; breflect.
  - rewrite <- (drop_app_le vs [v]) by lia. assert (forall l : list f64, tail l = drop 1 l) as -> by by intros []. rewrite drop_drop. f_equal. lia.
  - rewrite !(proj2 (Nat.sub_0_le _ _)) by lia. done.
Qed.

(** ** Increments that race *)

(** [inc] loads the value and then stores the sum: the steps of threads. *)
Inductive race := Load (i : nat) | Store (i : nat).

Fixpoint races (delta : nat -> f64) (steps : list race) (loaded : gmap nat f64) (value : f64) : option f64 :=
  match steps with
  | [] => Some value
  | Load i :: l => races delta l (<[i := value]> loaded) value
  | Store i :: l => v ← loaded !! i; races delta l loaded (Counter_inc (delta i) v)
  end.

(** An increment is a load and a store: of any number of threads that have all
    loaded before the first stores, only the increment of the last store remains. *)
Theorem increments_lost delta ts last value :
  races delta (map Load (ts ++ [last]) ++ map Store (ts ++ [last])) ∅ value = Some (Counter_inc (delta last) value).
Proof.
  assert (forall js m v, races delta (map Load js ++ map Store (ts ++ [last])) m v =
    races delta (map Store (ts ++ [last])) (foldl (fun m j => <[j := v]> m) m js) v) as Hload.
  { induction js as [|j js IH]; intros m v; [done|]. cbn. apply IH. }
  rewrite Hload. clear Hload. set (m := foldl _ ∅ _). assert (forall j, j ∈ ts ++ [last] -> m !! j = Some value) as Hm.
  { subst m. generalize (∅ : gmap nat f64). induction (ts ++ [last]) as [|j js IH] using rev_ind; intros m j' Hj; [by apply elem_of_nil in Hj|].
    rewrite foldl_app. cbn. destruct (decide (j = j')) as [->|Hne]; [apply lookup_insert_eq|]. rewrite lookup_insert_ne by done. apply IH.
    apply elem_of_app in Hj as [Hj|Hj]; [done|]. apply list_elem_of_singleton in Hj. congruence. }
  enough (forall js v, (forall j, j ∈ js ++ [last] -> m !! j = Some value) ->
    races delta (map Store (js ++ [last])) m v = Some (Counter_inc (delta last) value)) as H by by apply H.
  clear. intros js. induction js as [|j js IH]; intros v Hm; cbn [app map races].
  - by rewrite (Hm last) by apply list_elem_of_here.
  - rewrite (Hm j) by apply list_elem_of_here. cbn [mbind option_bind]. apply IH. intros j' Hj. apply Hm. by apply list_elem_of_further.
Qed.

(** ** The registry's text *)

Inductive operation :=
| RegisterCounter (name h : str)
| RegisterGauge (name h : str)
| RegisterHistogram (name : str) (buckets : list f64) (h : str)
| RegisterSummary (name : str) (quantiles : list f64) (h : str)
| Reset
| SetCounter (name : str) (delta : f64)
| SetHistogram (name : str) (value : f64)
| SetSummary (name : str) (value : f64).

(** A registration, or an update through a registered handle. *)
Definition operate (o : operation) (r : registry) : registry :=
  match o with
  | RegisterCounter name h => register_counter name h r
  | RegisterGauge name h => register_gauge name h r
  | RegisterHistogram name buckets h => register_histogram name buckets h r
  | RegisterSummary name quantiles h => register_summary name quantiles h r
  | Reset => reset r
  | SetCounter name delta => mkRegistry (alter (Counter_inc delta) name (counters_ r)) (gauges_ r) (histograms_ r) (summaries_ r) (metric_infos_ r)
  | SetHistogram name value => mkRegistry (counters_ r) (gauges_ r) (alter (Histogram_observe value) name (histograms_ r)) (summaries_ r) (metric_infos_ r)
  | SetSummary name value => mkRegistry (counters_ r) (gauges_ r) (histograms_ r) (alter (Summary_observe value) name (summaries_ r)) (metric_infos_ r)
  end.

(** Every metric has its information. *)
Definition informed {A} (m : gmap str A) (infos : gmap str MetricInfo) : Prop := forall name, is_Some (m !! name) -> is_Some (infos !! name).
Definition registry_ok (r : registry) : Prop :=
  informed (counters_ r) (metric_infos_ r) /\ informed (gauges_ r) (metric_infos_ r) /\
  informed (histograms_ r) (metric_infos_ r) /\ informed (summaries_ r) (metric_infos_ r).

Lemma informed_insert {A} (m : gmap str A) infos name x i : informed m infos -> informed (<[name := x]> m) (<[name := i]> infos).
Proof. intros H n. rewrite !lookup_insert_is_Some'. intros [?|?]; [by left|right; by apply H]. Qed.

Lemma informed_weaken {A} (m : gmap str A) infos name i : informed m infos -> informed m (<[name := i]> infos).
Proof. intros H n Hn. rewrite lookup_insert_is_Some'. right. by apply H. Qed.

Lemma informed_alter {A} (m : gmap str A) infos f name : informed m infos -> informed (alter f name m) infos.
Proof. intros H n. rewrite lookup_alter_is_Some. apply H. Qed.

Lemma operate_ok o r : registry_ok r -> registry_ok (operate o r).
Proof.
  intros (H1 & H2 & H3 & H4). destruct o; cbn [operate];
    unfold register_counter, register_gauge, register_histogram, register_summary; repeat case_match; try done;
    unfold registry_ok; cbn; split_and!; auto using informed_insert, informed_weaken, informed_alter; intros n []; set_solver.
Qed.

Lemma texts_total {A} (text : str -> str -> A -> option str) infos l :
  (forall name h x, (name, x) ∈ l -> is_Some (text name h x)) -> (forall name x, (name, x) ∈ l -> is_Some (infos !! name)) -> is_Some (texts text infos l).
Proof.
  induction l as [|[name x] l IH]; intros Ht Hi; [by eexists|]. cbn. destruct (Hi name x) as [i ->]; [apply list_elem_of_here|]. cbn [mbind option_bind].
  destruct (Ht name (help i) x) as [t ->]; [apply list_elem_of_here|]. cbn [mbind option_bind].
  destruct IH as [rest ->]; [intros; apply Ht; by apply list_elem_of_further|intros n y Hn; apply (Hi n y); by apply list_elem_of_further|]. by eexists.
Qed.

Lemma in_order_elem {A} (m : gmap str A) name x : (name, x) ∈ in_order m <-> m !! name = Some x.
Proof. rewrite in_order_perm. apply elem_of_map_to_list. Qed.

(** Whatever is registered under whatever names, updated and reset, the export never
    throws: every metric has its information; it fails only where a summary's quantiles
    do. *)
Theorem export_total ops : let r := foldl (fun r o => operate o r) registry_init ops in
  (forall name s, summaries_ r !! name = Some s -> is_Some (get_quantiles s)) -> is_Some (to_prometheus r).
Proof.
  intros r Hq. assert (registry_ok r) as (H1 & H2 & H3 & H4).
  { subst r. clear Hq. induction ops as [|o ops IH] using rev_ind; [unfold registry_ok, informed; cbn; split_and!; intros n [x []%lookup_empty_Some]|].
    rewrite foldl_app. by apply operate_ok. }
  unfold to_prometheus.
  destruct (texts_total (fun n h v => Some (Counter_text n h v)) (metric_infos_ r) (in_order (counters_ r))) as [c ->];
    [by eexists|intros n x Hn%in_order_elem; apply H1; by eexists|].
  destruct (texts_total (fun n h v => Some (Gauge_text n h v)) (metric_infos_ r) (in_order (gauges_ r))) as [g ->];
    [by eexists|intros n x Hn%in_order_elem; apply H2; by eexists|].
  destruct (texts_total (fun n h v => Some (Histogram_text n h v)) (metric_infos_ r) (in_order (histograms_ r))) as [h ->];
    [by eexists|intros n x Hn%in_order_elem; apply H3; by eexists|].
  destruct (texts_total Summary_text (metric_infos_ r) (in_order (summaries_ r))) as [t ->]; [| |by eexists].
  - intros n h' x Hx%in_order_elem. unfold Summary_text. destruct (Hq _ _ Hx) as [qs ->]. by eexists.
  - intros n x Hn%in_order_elem. apply H4. by eexists.
Qed.

Definition demo_operations : list operation :=
  [RegisterCounter (lit "hits") (lit "a"); RegisterGauge (lit "hits") (lit "b"); SetCounter (lit "hits") (f64_of_Z 2); RegisterHistogram (lit "ms") [f64_of_Z 1] []].

Lemma export_total_witness : is_Some (to_prometheus (foldl (fun r o => operate o r) registry_init demo_operations)).
Proof.
  apply (export_total demo_operations). intros name s Hs. exfalso.
  assert (summaries_ (foldl (fun r o => operate o r) registry_init demo_operations) = ∅) as He by reflexivity. rewrite He in Hs. by apply lookup_empty_Some in Hs.
Defined.
