(* ===== verification/ThreadPool.v ===== *)
(** * ThreadPool: src/core/thread_pool.cpp

    Workers, posts and the destructor as interleaved atomic steps: a critical section of
    [mutex_], a notification, or the end of a task.  A task is a number; [None] is an
    empty function, which is skipped. *)

From S2P Require Import Prelude.

Inductive worker :=
| Ready                        (* about to test the condition *)
| Asleep                       (* in [cond_.wait] *)
| Running (t : option Z)
| Exited.

Record ThreadPool := mkPool {
  workers_ : list worker;
  tasks_ : list (option Z);
  stopped_ : bool;
  posting : nat;               (* posts that have pushed and not yet notified *)
  joining : bool;              (* the destructor has notified all *)
  accepted : list (option Z);
  started : list (option Z)
}.

Definition ThreadPool_init (n : nat) : ThreadPool := mkPool (replicate n Ready) [] false 0 false [] [].

Definition with_workers (l : list worker) (p : ThreadPool) : ThreadPool :=
  mkPool l (tasks_ p) (stopped_ p) (posting p) (joining p) (accepted p) (started p).

Inductive action :=
| Post (t : option Z)          (* the critical section of [post] *)
| Notify (i : option nat)      (* [notify_one]: the worker it wakes, if any waits *)
| Stop                         (* the destructor's critical section *)
| NotifyAll
| Work (i : nat).              (* a step of worker [i] *)

Definition wake (w : worker) : worker := match w with Asleep => Ready | _ => w end.
Definition is_asleep (w : worker) : bool := match w with Asleep => true | _ => false end.

(** One pass of [worker_loop], by its steps. *)
Definition work (i : nat) (p : ThreadPool) : option ThreadPool :=
  match workers_ p !! i with
  | Some Ready =>
      match tasks_ p with
      | [] => if stopped_ p then Some (with_workers (<[i := Exited]> (workers_ p)) p) else Some (with_workers (<[i := Asleep]> (workers_ p)) p)
      | t :: rest =>
          Some (mkPool (<[i := Running t]> (workers_ p)) rest (stopped_ p) (posting p) (joining p) (accepted p) (started p ++ [t]))
      end
  | Some (Running t) => Some (with_workers (<[i := Ready]> (workers_ p)) p)
  | _ => None
  end.

Definition step (a : action) (p : ThreadPool) : option ThreadPool :=
  match a with
  | Post t =>
      if stopped_ p then Some p
      else Some (mkPool (workers_ p) (tasks_ p ++ [t]) false (S (posting p)) (joining p) (accepted p ++ [t]) (started p))
  | Notify i =>
      match posting p with
      | O => None
      | S n =>
          let p1 := mkPool (workers_ p) (tasks_ p) (stopped_ p) n (joining p) (accepted p) (started p) in
          match i with
          | Some i => w ← workers_ p !! i; if is_asleep w then Some (with_workers (<[i := Ready]> (workers_ p)) p1) else None
          | None => if existsb is_asleep (workers_ p) then None else Some p1
          end
      end
  | Stop => if stopped_ p then None else Some (mkPool (workers_ p) (tasks_ p) true (posting p) (joining p) (accepted p) (started p))
  | NotifyAll =>
      if stopped_ p && negb (joining p)
      then Some (mkPool (map wake (workers_ p)) (tasks_ p) (stopped_ p) (posting p) true (accepted p) (started p)) else None
  | Work i => work i p
  end.

Fixpoint run (l : list action) (p : ThreadPool) : option ThreadPool :=
  match l with [] => Some p | a :: l' => p1 ← step a p; run l' p1 end.

(** ** Invariants *)

(** Tasks start in the order of their posts; a worker leaves only when stopped and idle;
    no worker sleeps after the last notification. *)
Definition pool_ok (p : ThreadPool) : Prop :=
  accepted p = started p ++ tasks_ p /\
  (joining p = true -> stopped_ p = true /\ Asleep ∉ workers_ p) /\
  (Exited ∈ workers_ p -> stopped_ p = true /\ tasks_ p = []).

Definition live (w : worker) : bool := match w with Ready | Running _ => true | _ => false end.

(** Nobody is forgotten: with a task queued there is a worker awake or a notification to
    come. *)
Definition awake (p : ThreadPool) : Prop :=
  tasks_ p <> [] -> (posting p > 0)%nat \/ exists i w, workers_ p !! i = Some w /\ live w = true.

Lemma work_ok i p p' : pool_ok p -> work i p = Some p' -> pool_ok p'.
Proof.
  intros (H1 & H2 & H3) Hw. unfold work in Hw. destruct (workers_ p !! i) as [w|] eqn:Hi; [|done].
  destruct w as [| |t|]; try done.
  - destruct (tasks_ p) as [|t rest] eqn:Et; [destruct (stopped_ p) eqn:Es|]; injection Hw as <-; unfold pool_ok; cbn; rewrite ?Et, ?Es in *; split_and!; try done.
    + intros Hj. split; [done|]. intros [?|?]%elem_insert; [done|]. by apply H2.
    + intros Hj. by destruct (H2 Hj).
    + intros [?|?]%elem_insert; [done|]. by destruct (H3 H).
    + by rewrite <- app_assoc.
    + intros Hj. destruct (H2 Hj) as [? Hn]. split; [done|]. by intros [?|?]%elem_insert.
    + intros [?|?]%elem_insert; [done|]. by destruct (H3 H).
  - injection Hw as <-. unfold pool_ok. cbn. split_and!; [done| |].
    + intros Hj. destruct (H2 Hj) as [? Hn]. split; [done|]. by intros [?|?]%elem_insert.
    + intros [?|?]%elem_insert; [done|]. by apply H3.
Qed.

Lemma pool_step_ok a p p' : pool_ok p -> step a p = Some p' -> pool_ok p'.
Proof.
  intros Hp Hs. destruct a as [t|i| | |i]; cbn in Hs; [..|by eapply work_ok]; destruct Hp as (H1 & H2 & H3).
  - destruct (stopped_ p) eqn:Es; [injection Hs as <-; unfold pool_ok; by rewrite Es|]. injection Hs as <-. unfold pool_ok. cbn. rewrite H1, app_assoc. split_and!; [done| |].
    + intros Hj. by destruct (H2 Hj).
    + intros Hj. by destruct (H3 Hj).
  - destruct (posting p) as [|n]; [done|]. destruct i as [i|].
    + destruct (workers_ p !! i) as [w|] eqn:Hi; [|done]. cbn in Hs. destruct (is_asleep w); [|done]. injection Hs as <-. unfold pool_ok. cbn. split_and!; [done| |].
      * intros Hj. destruct (H2 Hj) as [? Hn]. split; [done|]. by intros [?|?]%elem_insert.
      * intros [?|?]%elem_insert; [done|]. by apply H3.
    + destruct (existsb is_asleep (workers_ p)); [done|]. injection Hs as <-. exact (conj H1 (conj H2 H3)).
  - destruct (stopped_ p); [done|]. injection Hs as <-. unfold pool_ok. cbn. split_and!; [done| |].
    + intros Hj. by destruct (H2 Hj).
    + intros Hj. by destruct (H3 Hj).
  - destruct (stopped_ p) eqn:Es; [|done]. destruct (joining p); [done|]. injection Hs as <-. unfold pool_ok. cbn. split_and!; [done| |].
    + intros _. split; [done|]. intros (w & Hw & _)%list_elem_of_fmap. by destruct w.
    + intros (w & Hw & Hin)%list_elem_of_fmap. apply H3. by destruct w.
Qed.

Lemma init_ok n : pool_ok (ThreadPool_init n).
Proof.
  split_and!; [done|done|]. intros Hin. cbn in Hin. apply elem_of_replicate in Hin as [? _]. done.
Qed.

Lemma run_ok l p p' : pool_ok p -> run l p = Some p' -> pool_ok p'.
Proof.
  revert p. induction l as [|a l IH]; intros p Hp Hr; cbn in Hr; [by injection Hr as <-|].
  destruct (step a p) as [p1|] eqn:E; [|done]. eapply IH; [|done]. by eapply pool_step_ok.
Qed.

Lemma work_length i p p' : work i p = Some p' -> length (workers_ p') = length (workers_ p).
Proof. unfold work. intros H. repeat case_match; simplify_eq; cbn; by rewrite length_insert. Qed.

Lemma step_length a p p' : step a p = Some p' -> length (workers_ p') = length (workers_ p).
Proof.
  intros H. destruct a as [t|i| | |i]; [..|by eapply work_length]; cbn in H; repeat case_match; simplify_eq; try done; cbn; try by rewrite length_map.
  destruct (workers_ p !! _) as [w|]; [|done]. cbn in H. destruct (is_asleep w); [|done]. injection H as <-. cbn. by rewrite length_insert.
Qed.

Lemma step_awake a p p' : (0 < length (workers_ p))%nat -> pool_ok p -> awake p -> step a p = Some p' -> awake p'.
Proof.
  intros Hk Hp Ha Hs. unfold awake in *. destruct a as [t|i| | |i]; cbn in Hs.
  - destruct (stopped_ p); injection Hs as <-; [done|]. cbn. left. lia.
  - destruct (posting p) as [|n]; [done|]. destruct i as [i|].
    + destruct (workers_ p !! i) as [w|] eqn:Hi; [|done]. cbn in Hs. destruct (is_asleep w); [|done]. injection Hs as <-. cbn. intros _. right.
      exists i, Ready. split; [|done]. apply list_lookup_insert_eq. by eapply lookup_lt_Some.
    + destruct (existsb is_asleep (workers_ p)) eqn:E; [done|]. injection Hs as <-. cbn. intros Ht. right.
      destruct (lookup_lt_is_Some_2 (workers_ p) 0) as [w Hw]; [lia|]. exists 0%nat, w. split; [done|]. destruct w; try done.
      * exfalso. assert (existsb is_asleep (workers_ p) = true); [|congruence]. apply existsb_exists. exists Asleep. split; [|done].
        apply list_elem_of_In. by eapply list_elem_of_lookup_2.
      * exfalso. destruct Hp as (_ & _ & H3). apply Ht, H3. by eapply list_elem_of_lookup_2.
  - destruct (stopped_ p); [done|]. by injection Hs as <-.
  - destruct (_ && _); [|done]. injection Hs as <-. cbn. intros Ht. destruct (Ha Ht) as [?|(i & w & Hi & Hw)]; [by left|right].
    exists i, (wake w). rewrite list_lookup_fmap, Hi. by destruct w.
  - unfold work in Hs. destruct (workers_ p !! i) as [w|] eqn:Hi; [|done]. pose proof (lookup_lt_Some _ _ _ Hi). destruct w as [| |t|]; try done.
    + destruct (tasks_ p) as [|t rest] eqn:Et.
      * destruct (stopped_ p); injection Hs as <-; cbn; by rewrite Et.
      * injection Hs as <-. cbn. intros _. right. exists i, (Running t). split; [by apply list_lookup_insert_eq|done].
    + injection Hs as <-. cbn. intros _. right. exists i, Ready. split; [by apply list_lookup_insert_eq|done].
Qed.

(** No wakeup is lost: whatever is posted and however the threads interleave, while a
    task is queued some worker is awake or a notification is still to come. *)
Theorem no_lost_wakeup n l p : (0 < n)%nat -> run l (ThreadPool_init n) = Some p -> tasks_ p <> [] ->
  (posting p > 0)%nat \/ exists i w, workers_ p !! i = Some w /\ live w = true.
Proof.
  intros Hn Hr. enough (forall l p0, (0 < length (workers_ p0))%nat -> pool_ok p0 -> awake p0 -> run l p0 = Some p -> awake p) as H.
  { apply (H l (ThreadPool_init n)); [cbn; rewrite length_replicate; lia|apply init_ok|intros Ht; by destruct Ht|done]. }
  clear. intros l. induction l as [|a l IH]; intros p0 Hk Hp Ha Hr; cbn in Hr; [by injection Hr as <-|].
  destruct (step a p0) as [p1|] eqn:E; [|done]. eapply (IH p1); [by rewrite (step_length _ _ _ E)|by eapply pool_step_ok|by eapply step_awake|done].
Qed.

(** *** The destructor *)

Definition work_left (w : worker) : nat := match w with Ready | Asleep => 1 | Running _ => 2 | Exited => 0 end.
Definition weight (p : ThreadPool) : nat := (2 * length (tasks_ p) + sum_list_with work_left (workers_ p))%nat.

Lemma work_decreases i p p' : stopped_ p = true -> work i p = Some p' -> (weight p' < weight p)%nat /\ stopped_ p' = true.
Proof.
  intros Hst Hw. unfold work in Hw. destruct (workers_ p !! i) as [w|] eqn:Hi; [|done]. unfold weight.
  destruct w as [| |t|]; try done; [destruct (tasks_ p) as [|t rest] eqn:Et|]; rewrite ?Hst in Hw; injection Hw as <-; cbn; (split; [|done]); rewrite ?Et.
  - pose proof (sum_insert work_left _ i _ Exited Hi). cbn in *. lia.
  - pose proof (sum_insert work_left _ i _ (Running t) Hi). cbn in *. lia.
  - pose proof (sum_insert work_left _ i _ Ready Hi). cbn in *. lia.
Qed.

(** C32: Once the destructor has stopped the pool and notified, the workers take a bounded
    number of steps, and when none can take another all of them have left and every task
    accepted has been started, in the order of the posts. *)
Theorem destructor_drains n l p : (0 < n)%nat -> run l (ThreadPool_init n) = Some p -> joining p = true ->
  (forall js p', run (map Work js) p = Some p' -> (length js <= weight p)%nat) /\
  (forall js p', run (map Work js) p = Some p' -> (forall i, work i p' = None) ->
     Forall (fun w => w = Exited) (workers_ p') /\ started p' = accepted p').
Proof.
  intros Hn Hr Hj. pose proof (run_ok l _ p (init_ok n) Hr) as Hp. destruct (proj1 (proj2 Hp) Hj) as [Hst Hns]. split.
  - intros js. clear Hr Hp Hns Hj. revert p Hst. induction js as [|j js IH]; intros p Hst p' Hr; [cbn; lia|]. cbn in Hr.
    destruct (work j p) as [p1|] eqn:E; [|done]. destruct (work_decreases _ _ _ Hst E) as [Hlt Hst1]. specialize (IH p1 Hst1 p' Hr). cbn [length]. lia.
  - intros js p' Hr' Hstuck. assert (run (l ++ map Work js) (ThreadPool_init n) = Some p') as Hrun.
    { clear -Hr Hr'. revert Hr. generalize (ThreadPool_init n). induction l as [|a l IH]; intros q Hr; cbn in *; [by injection Hr as ->|].
      destruct (step a q) as [q1|]; [|done]. by apply IH. }
    pose proof (run_ok _ _ p' (init_ok n) Hrun) as (H1 & H2 & H3).
    assert (joining p' = true /\ length (workers_ p') = length (workers_ p)) as [Hj' Hlen].
    { clear -Hr' Hj. revert p Hj Hr'. induction js as [|j js IH]; intros p Hj Hr; cbn in Hr; [by injection Hr as <-|].
      destruct (work j p) as [p1|] eqn:E; [|done]. rewrite <- (work_length _ _ _ E). apply IH; [|done].
      unfold work in E. repeat case_match; simplify_eq; done. }
    destruct (H2 Hj') as [Hst' Hns'].
    assert (Forall (fun w => w = Exited) (workers_ p')) as Hex.
    { apply Forall_forall. intros w Hw. apply list_elem_of_lookup_1 in Hw as [i Hi]. specialize (Hstuck i). unfold work in Hstuck. rewrite Hi in Hstuck.
      destruct w as [| |t|]; [|by exfalso; apply Hns'; eapply list_elem_of_lookup_2|done|done]. destruct (tasks_ p'); [by rewrite Hst' in Hstuck|done]. }
    split; [done|]. rewrite H1. destruct H3 as [_ ->]; [|by rewrite app_nil_r].
    assert (length (workers_ p) = n) as Hn'.
    { clear -Hr. assert (forall l q, run l q = Some p -> length (workers_ p) = length (workers_ q)) as H.
      { clear Hr. intros l0. induction l0 as [|a l0 IH]; intros q Hr; cbn in Hr; [by injection Hr as ->|]. destruct (step a q) as [q1|] eqn:E; [|done]. by rewrite (IH _ Hr), (step_length _ _ _ E). }
      rewrite (H _ _ Hr). apply length_replicate. }
    destruct (workers_ p') as [|w ws]; [cbn in Hlen; lia|]. apply Forall_cons in Hex as [-> _]. by apply list_elem_of_here.
Qed.

Definition demo_steps : list action := [Work 0; Post (Some 7); Work 1; Post None; Notify (Some 0%nat); Notify None; Stop; NotifyAll].

Lemma demo_steps_run : exists p, run demo_steps (ThreadPool_init 2) = Some p /\ joining p = true.
Proof. eexists. split; reflexivity. Qed.

Lemma destructor_drains_witness : exists p, run demo_steps (ThreadPool_init 2) = Some p /\
  forall js p', run (map Work js) p = Some p' -> (length js <= weight p)%nat.
Proof.
  destruct demo_steps_run as (p & H & Hj). exists p. split; [exact H|]. exact (proj1 (destructor_drains 2 demo_steps p ltac:(lia) H Hj)).
Defined.

Lemma no_lost_wakeup_witness : exists p, run [Work 0; Work 1; Post (Some 7)] (ThreadPool_init 2) = Some p /\
  ((posting p > 0)%nat \/ exists i w, workers_ p !! i = Some w /\ live w = true).
Proof.
  eexists. split; [reflexivity|]. apply (no_lost_wakeup 2 [Work 0; Work 1; Post (Some 7)]); [lia|reflexivity|done].
Defined.
