(* ===== verification/AsyncStorage.v ===== *)
(** * AsyncStorage: src/storage/async_storage_adapter.cpp

    Requests of client threads, queued and executed by workers on any back end of the
    class [StorageInterface], as interleaved atomic steps: a critical section of
    [queue_mutex_], a notification, one operation of the back end, or the answer of a
    request.  A back end that does not override [mget] and [mput] runs the loops of the
    interface, one [get] or [put] a step, among the operations of the other workers.  Workers that wait
    for tasks and clients that wait for space sleep on the same [queue_cv_]. *)

From S2P Require Import Prelude.
From S2P Require Import Protocol.
From S2P Require Import Wire.
From S2P Require Import Effects.
From S2P Require Import Storage.

(** ** Requests and answers *)

Inductive operation :=
| Get (k : str)
| Put (k v : str) (expire : Z)
| Remove (k : str)
| Exists_ (k : str)
| Mget (ks : list str)
| Mput (docs : list StorageDocument).

(** A request with its promise or callback, a number; only the first four operations
    have the callback style. *)
Inductive style := Future | Callback.
Record request := mkRequest { the_op : operation; the_id : Z; the_style : style }.

Inductive answer := AResult (r : StorageResult) | ABool (b : bool) | AResults (rs : list StorageResult).
Inductive exn := StdException (what : str) | OtherException.

(** One operation of the back end: the clock, the operation, what it returned or threw. *)
Record event := mkEvent { ev_now : Z; ev_op : operation; ev_out : answer + exn }.

(** The execution of a request: its operations, and how it ended. *)
Record execution := mkExecution { ex_request : request; ex_trace : list event; ex_result : answer + exn }.

(** What a request does after some operations: another one, or it is over. *)
Inductive progress := Next (o : operation) | Over (r : answer + exn).

Inductive effect :=
| SetValue (id : Z) (a : answer)      (* the promise *)
| Called (id : Z) (a : answer).       (* the callback *)

Definition failure_of (e : exn) : StorageResult :=
  match e with StdException what => mkResult false what [] | OtherException => failure "unknown exception" end.

(** What a request is answered when the back end throws. *)
Definition answer_of_exn (o : operation) (e : exn) : answer :=
  match o with
  | Exists_ _ => ABool false
  | Mget _ => AResults [failure_of e]
  | _ => AResult (failure_of e)
  end.

(** And when it is not queued at all. *)
Definition answer_refused (o : operation) (msg : string) : answer :=
  match o with
  | Exists_ _ => ABool false
  | Mget ks => AResults (map (fun _ => failure msg) ks)
  | _ => AResult (failure msg)
  end.

Definition kShutdownMsg : string := "AsyncStorageAdapter is shutting down".
Definition kNullStorageMsg : string := "AsyncStorageAdapter: storage is null".

Section Adapter.
Context {S : Type} `{StorageInterface S}.
(** Whether the back end overrides [mget] and [mput], whether its operation throws, and
    whether a callback throws on an answer. *)
Context (overrides : bool) (raises : operation -> S -> option exn) (callback_throws : Z -> answer -> option exn).

(** The results of the loop so far. *)
Definition results (tr : list event) : list StorageResult :=
  tr ≫= fun ev => match ev_out ev with inl (AResult r) => [r] | _ => [] end.

(** The loop of the interface's [mget], and that of its [mput], which the first failure ends. *)
Definition resume_mget (ks : list str) (tr : list event) : progress :=
  match ev_out <$> last tr with
  | Some (inr e) => Over (inr e)
  | _ => match ks !! length tr with Some k => Next (Get k) | None => Over (inl (AResults (results tr))) end
  end.

Definition resume_mput (docs : list StorageDocument) (tr : list event) : progress :=
  let continue :=
    match docs !! length tr with
    | Some d => Next (Put (key d) (doc_value d) (expire_at d))
    | None => Over (inl (AResult (success [])))
    end in
  match ev_out <$> last tr with
  | Some (inr e) => Over (inr e)
  | Some (inl (AResult r)) => if ok r then continue else Over (inl (AResult r))
  | _ => continue
  end.

Definition resume_single (o : operation) (tr : list event) : progress :=
  match tr with [] => Next o | ev :: _ => Over (ev_out ev) end.

Definition resume (o : operation) (tr : list event) : progress :=
  match o with
  | Mget ks => if overrides then resume_single o tr else resume_mget ks tr
  | Mput docs => if overrides then resume_single o tr else resume_mput docs tr
  | _ => resume_single o tr
  end.

Definition perform (now : Z) (o : operation) (s : S) : (answer + exn) * S :=
  match raises o s with
  | Some e => (inr e, s)
  | None =>
      match o with
      | Get k => let '(r, s1) := get now k s in (inl (AResult r), s1)
      | Put k v e => let '(r, s1) := put now k v e s in (inl (AResult r), s1)
      | Remove k => let '(r, s1) := remove now k s in (inl (AResult r), s1)
      | Exists_ k => let '(b, s1) := exists_ now k s in (inl (ABool b), s1)
      | Mget ks => let '(rs, s1) := mget now ks s in (inl (AResults rs), s1)
      | Mput docs => let '(r, s1) := mput now docs s in (inl (AResult r), s1)
      end
  end.

(** The task of a request.  An exception that leaves it, that of a callback called from a
    [catch] clause, ends the program ([None]). *)
Definition call_again (id : Z) (a : answer) : option (list effect) :=
  match callback_throws id a with Some _ => None | None => Some [Called id a] end.

Definition deliver (q : request) (r : answer + exn) : option (list effect) :=
  match the_style q, r with
  | Future, inl a => Some [SetValue (the_id q) a]
  | Future, inr e => Some [SetValue (the_id q) (answer_of_exn (the_op q) e)]
  | Callback, inl a =>
      match callback_throws (the_id q) a with
      | None => Some [Called (the_id q) a]
      | Some e => out ← call_again (the_id q) (answer_of_exn (the_op q) e); Some (Called (the_id q) a :: out)
      end
  | Callback, inr e => call_again (the_id q) (answer_of_exn (the_op q) e)
  end.

(** The request is answered by its caller; a callback's exception is the caller's. *)
Definition refuse (q : request) (msg : string) : list effect :=
  match the_style q with
  | Future => [SetValue (the_id q) (answer_refused (the_op q) msg)]
  | Callback => [Called (the_id q) (answer_refused (the_op q) msg)]
  end.

(** ** Threads *)

Inductive worker := WReady | WAsleep | WNotifying (q : request) | WRunning (q : request) (tr : list event) | WExited.
Inductive client := CIdle | CEntering (q : request) | CAsleep (q : request) | CNotifying.

Record adapter := mkAdapter {
  has_storage : bool;
  max_queue_size_ : Z;
  storage_ : S;
  tasks_ : list request;
  stopping_ : bool;
  workers_ : list worker;
  clients_ : list client;
  accepted : list request;     (* pushed, in order *)
  finished : list execution;   (* answered, in order *)
  log : list event;            (* the back end's operations, in order *)
  effects : list effect
}.

(** The requests executed. *)
Definition done_ (x : adapter) : list request := ex_request <$> finished x.

Definition AsyncStorageAdapter (has : bool) (mx : Z) (s : S) (n k : nat) : adapter :=
  mkAdapter has mx s [] false (replicate n WReady) (replicate k CIdle) [] [] [] [].

Definition with_workers (l : list worker) (x : adapter) : adapter :=
  mkAdapter (has_storage x) (max_queue_size_ x) (storage_ x) (tasks_ x) (stopping_ x) l (clients_ x) (accepted x) (finished x) (log x) (effects x).
Definition with_clients (l : list client) (x : adapter) : adapter :=
  mkAdapter (has_storage x) (max_queue_size_ x) (storage_ x) (tasks_ x) (stopping_ x) (workers_ x) l (accepted x) (finished x) (log x) (effects x).
Definition with_effects (out : list effect) (x : adapter) : adapter :=
  mkAdapter (has_storage x) (max_queue_size_ x) (storage_ x) (tasks_ x) (stopping_ x) (workers_ x) (clients_ x) (accepted x) (finished x) (log x) (effects x ++ out).
Definition with_stopping (x : adapter) : adapter :=
  mkAdapter (has_storage x) (max_queue_size_ x) (storage_ x) (tasks_ x) true (workers_ x) (clients_ x) (accepted x) (finished x) (log x) (effects x).
Definition push_task (q : request) (x : adapter) : adapter :=
  mkAdapter (has_storage x) (max_queue_size_ x) (storage_ x) (tasks_ x ++ [q]) (stopping_ x) (workers_ x) (clients_ x) (accepted x ++ [q]) (finished x) (log x) (effects x).
Definition pop_task (rest : list request) (x : adapter) : adapter :=
  mkAdapter (has_storage x) (max_queue_size_ x) (storage_ x) rest (stopping_ x) (workers_ x) (clients_ x) (accepted x) (finished x) (log x) (effects x).
Definition performed (ev : event) (s : S) (x : adapter) : adapter :=
  mkAdapter (has_storage x) (max_queue_size_ x) s (tasks_ x) (stopping_ x) (workers_ x) (clients_ x) (accepted x) (finished x) (log x ++ [ev]) (effects x).
Definition answered (ex : execution) (out : list effect) (x : adapter) : adapter :=
  mkAdapter (has_storage x) (max_queue_size_ x) (storage_ x) (tasks_ x) (stopping_ x) (workers_ x) (clients_ x) (accepted x) (finished x ++ [ex]) (log x) (effects x ++ out).

Definition full (x : adapter) : bool := (0 <? max_queue_size_ x) && (max_queue_size_ x <=? Z.of_nat (length (tasks_ x))).

(** Who [notify_one] wakes. *)
Inductive target := Nobody | AWorker (i : nat) | AClient (j : nat).

Definition sleeps (x : adapter) : bool :=
  existsb (fun w => match w with WAsleep => true | _ => false end) (workers_ x) ||
  existsb (fun c => match c with CAsleep _ => true | _ => false end) (clients_ x).

Definition notify_one (t : target) (x : adapter) : option adapter :=
  match t with
  | Nobody => if sleeps x then None else Some x
  | AWorker i => match workers_ x !! i with Some WAsleep => Some (with_workers (<[i := WReady]> (workers_ x)) x) | _ => None end
  | AClient j => match clients_ x !! j with Some (CAsleep q) => Some (with_clients (<[j := CEntering q]> (clients_ x)) x) | _ => None end
  end.

Definition wake_worker (w : worker) : worker := match w with WAsleep => WReady | _ => w end.
Definition wake_client (c : client) : client := match c with CAsleep q => CEntering q | _ => c end.

Inductive action :=
| Submit (j : nat) (q : request)     (* an [async_] operation is called *)
| Enqueue (j : nat)                  (* the critical section of [enqueue], entered or woken *)
| NotifyC (j : nat) (t : target)
| Take (i : nat)                     (* the critical section of [worker_loop] *)
| NotifyW (i : nat) (t : target)
| Execute (i : nat) (now : Z)        (* one operation of the back end *)
| Deliver (i : nat)                  (* the promise is set, or the callback called *)
| Spurious (t : target)              (* a wait returns without a notification *)
| Stop
| NotifyAll.

Definition step (a : action) (x : adapter) : option adapter :=
  match a with
  | Submit j q =>
      match clients_ x !! j with
      | Some CIdle => Some (if has_storage x then with_clients (<[j := CEntering q]> (clients_ x)) x else with_effects (refuse q kNullStorageMsg) x)
      | _ => None
      end
  | Enqueue j =>
      match clients_ x !! j with
      | Some (CEntering q) =>
          Some (if stopping_ x then with_effects (refuse q kShutdownMsg) (with_clients (<[j := CIdle]> (clients_ x)) x)
                else if full x then with_clients (<[j := CAsleep q]> (clients_ x)) x
                else push_task q (with_clients (<[j := CNotifying]> (clients_ x)) x))
      | _ => None
      end
  | NotifyC j t =>
      match clients_ x !! j with Some CNotifying => notify_one t (with_clients (<[j := CIdle]> (clients_ x)) x) | _ => None end
  | Take i =>
      match workers_ x !! i with
      | Some WReady =>
          Some match tasks_ x with
               | q :: rest => pop_task rest (with_workers (<[i := WNotifying q]> (workers_ x)) x)
               | [] => with_workers (<[i := if stopping_ x then WExited else WAsleep]> (workers_ x)) x
               end
      | _ => None
      end
  | NotifyW i t =>
      match workers_ x !! i with Some (WNotifying q) => notify_one t (with_workers (<[i := WRunning q []]> (workers_ x)) x) | _ => None end
  | Execute i now =>
      match workers_ x !! i with
      | Some (WRunning q tr) =>
          match resume (the_op q) tr with
          | Next o =>
              let '(r, s1) := perform now o (storage_ x) in
              let ev := mkEvent now o r in
              Some (performed ev s1 (with_workers (<[i := WRunning q (tr ++ [ev])]> (workers_ x)) x))
          | Over _ => None
          end
      | _ => None
      end
  | Deliver i =>
      match workers_ x !! i with
      | Some (WRunning q tr) =>
          match resume (the_op q) tr with
          | Next _ => None
          | Over r => out ← deliver q r; Some (answered (mkExecution q tr r) out (with_workers (<[i := WReady]> (workers_ x)) x))
          end
      | _ => None
      end
  | Spurious t => match t with Nobody => None | _ => notify_one t x end
  | Stop => if stopping_ x then None else Some (with_stopping x)
  | NotifyAll =>
      if stopping_ x then Some (with_clients (map wake_client (clients_ x)) (with_workers (map wake_worker (workers_ x)) x)) else None
  end.

Fixpoint run (l : list action) (x : adapter) : option adapter :=
  match l with [] => Some x | a :: l' => x1 ← step a x; run l' x1 end.
End Adapter.
