(* ===== verification/AsyncStorageFacts.v ===== *)
(** * AsyncStorageFacts: what the asynchronous storage adapter guarantees

    The operations of the requests interleave on the back end, those of each request as its
    own loop; what is submitted is refused, waits, or is executed and answered, once; one worker keeps the order of submission; the destructor drains the queue.  And
    the shared condition variable can leave every thread asleep. *)

From S2P Require Import Prelude.
From S2P Require Import Protocol.
From S2P Require Import Wire.
From S2P Require Import Effects.
From S2P Require Import Storage.
From S2P Require Import AsyncStorage.

Section Facts.
Context {S : Type} `{StorageInterface S}.
Context (overrides : bool) (raises : operation -> S -> option exn) (callback_throws : Z -> answer -> option exn).
Abbreviation step := (step overrides raises callback_throws).
Abbreviation run := (run overrides raises callback_throws).
Abbreviation resume := (resume overrides).
Abbreviation deliver := (deliver callback_throws).
Implicit Types (x : @adapter S) (q : request).

Lemma adapter_run_app l1 l2 x : run (l1 ++ l2) x = x1 ← run l1 x; run l2 x1.
Proof. revert x. induction l1 as [|a l1 IH]; intros x; cbn; [done|]. destruct (step a x) as [x1|]; [|done]. apply IH. Qed.

Lemma adapter_run_inv (P : adapter -> Prop) l x x' :
  (forall a x x', P x -> step a x = Some x' -> P x') -> P x -> run l x = Some x' -> P x'.
Proof.
  intros HP. revert x. induction l as [|a l IH]; intros x Hx Hr; cbn in Hr; [by injection Hr as <-|].
  destruct (step a x) as [x1|] eqn:E; [|done]. eapply IH; [|done]. by eapply HP.
Qed.

(** A notification touches only who sleeps. *)
Lemma notify_one_cases t x x' : notify_one t x = Some x' ->
  (t = Nobody /\ x' = x) \/
  (exists i, t = AWorker i /\ workers_ x !! i = Some WAsleep /\ x' = with_workers (<[i := WReady]> (workers_ x)) x) \/
  (exists j q, t = AClient j /\ clients_ x !! j = Some (CAsleep q) /\ x' = with_clients (<[j := CEntering q]> (clients_ x)) x).
Proof.
  destruct t as [|i|j]; cbn; intros Hs.
  - destruct (sleeps x); [done|]. injection Hs as <-. by left.
  - right; left. exists i. by destruct (workers_ x !! i) as [[]|]; simplify_eq.
  - right; right. exists j. destruct (clients_ x !! j) as [[]|]; simplify_eq. eauto.
Qed.

(** ** Sequential meaning *)

(** The back end answers the operations of the log one after another. *)
Fixpoint replays (s0 : S) (l : list event) (s : S) : Prop :=
  match l with
  | [] => s = s0
  | ev :: l' => exists s1, perform raises (ev_now ev) (ev_op ev) s0 = (ev_out ev, s1) /\ replays s1 l' s
  end.

Lemma replays_snoc s0 l s ev s1 : replays s0 l s -> perform raises (ev_now ev) (ev_op ev) s = (ev_out ev, s1) -> replays s0 (l ++ [ev]) s1.
Proof.
  revert s0. induction l as [|e l IH]; intros s0 Hr He; cbn in *; [subst; by eexists|].
  destruct Hr as (s2 & ? & ?). exists s2. split; [done|]. by apply IH.
Qed.

(** [l] is made of the lists [ts], each in its order. *)
Inductive interleaves : list (list event) -> list event -> Prop :=
| interleaves_nil ts : Forall (fun t => t = []) ts -> interleaves ts []
| interleaves_snoc ts l i t ev : interleaves ts l -> ts !! i = Some t -> interleaves (<[i := t ++ [ev]]> ts) (l ++ [ev]).

Lemma interleaves_perm ts ts' l : ts ≡ₚ ts' -> interleaves ts l -> interleaves ts' l.
Proof.
  intros Hp Hi. revert ts' Hp. induction Hi as [ts Ht|ts l i t ev Hi IH Ht]; intros ts' Hp; [constructor; by rewrite <- Hp|].
  assert (t ++ [ev] ∈ ts') as [j Hj]%list_elem_of_lookup_1.
  { rewrite <- Hp. eapply list_elem_of_lookup_2. apply list_lookup_insert_eq. by eapply lookup_lt_Some. }
  rewrite <- (list_insert_id _ _ _ Hj). replace (<[j := t ++ [ev]]> ts') with (<[j := t ++ [ev]]> (<[j := t]> ts')) by apply list_insert_insert_eq.
  apply interleaves_snoc; [|apply list_lookup_insert_eq; by eapply lookup_lt_Some]. apply IH.
  destruct (bind_insert (fun y => [y]) _ _ _ Ht) as (R & HR & HR'). destruct (bind_insert (fun y => [y]) _ _ _ Hj) as (R' & HS & HS').
  assert (forall xs : list (list event), xs ≫= (fun y => [y]) = xs) as Hid by (intros xs; induction xs as [|y xs IHx]; cbn; [done|by rewrite IHx]).
  specialize (HR' (t ++ [ev])). specialize (HS' t). rewrite Hid in *. rewrite HR, HS'. f_equiv.
  apply (Permutation_cons_inv (a := t ++ [ev])). etransitivity; [symmetry; exact HR'|]. by rewrite Hp.
Qed.

Lemma interleaves_new ts l : interleaves ts l -> interleaves ([] :: ts) l.
Proof.
  induction 1 as [ts Ht|ts l i t ev Hi IH Ht]; [constructor; by constructor|].
  change ([] :: <[i := t ++ [ev]]> ts) with (<[Datatypes.S i := t ++ [ev]]> ([] :: ts)). by apply interleaves_snoc.
Qed.

(** The trace of a request's own program: each operation is the one its loop is at. *)
Definition follows (o : operation) (tr : list event) : Prop :=
  forall i ev, tr !! i = Some ev -> resume o (take i tr) = Next (ev_op ev).

Lemma follows_nil o : follows o [].
Proof. by intros i ev ?%elem_of_nil_lookup || (intros i ev Hi; by rewrite lookup_nil in Hi). Qed.

Lemma follows_snoc o tr ev : follows o tr -> resume o tr = Next (ev_op ev) -> follows o (tr ++ [ev]).
Proof.
  intros Hf Hr i e Hi. destruct (decide (i < length tr)%nat) as [Hlt|Hge].
  - rewrite take_app_le by lia. rewrite lookup_app_l in Hi by done. by apply Hf.
  - rewrite lookup_app_r in Hi by lia. destruct (i - length tr)%nat as [|k] eqn:E; [|done]. injection Hi as <-.
    by rewrite take_app_length' by lia.
Qed.

Definition refusal : Type := request * string.
Definition refusal_effects (r : refusal) : list effect := refuse r.1 r.2.
Definition refusal_ok (r : refusal) : Prop := r.2 = kShutdownMsg \/ r.2 = kNullStorageMsg.

(** What an execution told the promise or the callback. *)
Definition told (ex : execution) : list effect := default [] (deliver (ex_request ex) (ex_result ex)).

Definition execution_ok (ex : execution) : Prop :=
  follows (the_op (ex_request ex)) (ex_trace ex) /\ resume (the_op (ex_request ex)) (ex_trace ex) = Over (ex_result ex)
  /\ is_Some (deliver (ex_request ex) (ex_result ex)).

Definition in_hand (w : worker) : list request := match w with WNotifying q | WRunning q _ => [q] | _ => [] end.
Definition waiting (c : client) : list request := match c with CEntering q | CAsleep q => [q] | _ => [] end.
Definition traces (w : worker) : list (list event) := match w with WRunning _ tr => [tr] | _ => [] end.
Definition running_ok (w : worker) : Prop := match w with WRunning q tr => follows (the_op q) tr | _ => True end.
Definition pending x : list request := (workers_ x ≫= in_hand) ++ tasks_ x ++ (clients_ x ≫= waiting).
Definition submissions (l : list action) : list request := l ≫= fun a => match a with Submit _ q => [q] | _ => [] end.

(** What the adapter has done with the requests [reqs], on a back end that was [s0]:
    the back end is what its operations in the order of the log make it; the log is
    made of the executions, each running its request's own loop on the answers it got;
    each request submitted was refused, waits, is queued, is being executed or was
    executed, once; and what was told is the refusals and the results. *)
Record linear (s0 : S) (reqs : list request) x (refused : list refusal) : Prop := {
  lin_log : replays s0 (log x) (storage_ x);
  lin_traces : interleaves ((ex_trace <$> finished x) ++ (workers_ x ≫= traces)) (log x);
  lin_running : Forall running_ok (workers_ x);
  lin_finished : Forall execution_ok (finished x);
  lin_requests : reqs ≡ₚ (fst <$> refused) ++ pending x ++ (ex_request <$> finished x);
  lin_effects : effects x ≡ₚ (refused ≫= refusal_effects) ++ (finished x ≫= told);
  lin_refused : Forall refusal_ok refused
}.

Lemma notify_linear s0 reqs rf t x x' : linear s0 reqs x rf -> notify_one t x = Some x' -> linear s0 reqs x' rf.
Proof.
  intros [H1 H2 H3 H4 H5 H6 H7] [[_ ->]|[(i & _ & Hi & ->)|(j & q & _ & Hj & ->)]]%notify_one_cases; [by split|..].
  - destruct (bind_insert traces _ _ _ Hi) as (R & HR & HR'). destruct (bind_insert in_hand _ _ _ Hi) as (R1 & HR1 & HR1').
    split; cbn; try done.
    + eapply interleaves_perm; [|exact H2]. rewrite HR, HR'. done.
    + by apply Forall_insert.
    + unfold pending in *. cbn. rewrite H5, HR1, HR1'. done.
  - destruct (bind_insert waiting _ _ _ Hj) as (R & HR & HR'). split; cbn; try done. unfold pending in *. cbn. by rewrite H5, HR, HR'.
Qed.

(** Steps of the clients and of the destructor. *)
Lemma linear_clients s0 reqs rf x x' rs new : linear s0 reqs x rf ->
  storage_ x' = storage_ x -> log x' = log x -> finished x' = finished x -> workers_ x' = workers_ x ->
  effects x' = effects x ++ (rs ≫= refusal_effects) -> Forall refusal_ok rs ->
  (fst <$> rs) ++ pending x' ≡ₚ pending x ++ new -> linear s0 (reqs ++ new) x' (rf ++ rs).
Proof.
  intros [H1 H2 H3 H4 H5 H6 H7] Es El Ef Ew Ee Hr Hp. split; rewrite ?Es, ?El, ?Ef, ?Ew, ?Ee; try done.
  - rewrite H5, fmap_app. transitivity ((fst <$> rf) ++ (pending x ++ new) ++ (ex_request <$> finished x)); [solve_Permutation|]. rewrite <- Hp. solve_Permutation.
  - rewrite H6, bind_app. solve_Permutation.
  - by apply Forall_app.
Qed.

(** A worker that changes neither the back end nor what was told. *)
Lemma linear_worker s0 reqs rf x i w w' tasks : linear s0 reqs x rf -> workers_ x !! i = Some w ->
  (traces w' = traces w \/ (traces w = [] /\ traces w' = [[]])) -> running_ok w' -> in_hand w' ++ tasks ≡ₚ in_hand w ++ tasks_ x ->
  linear s0 reqs (pop_task tasks (with_workers (<[i := w']> (workers_ x)) x)) rf.
Proof.
  intros [H1 H2 H3 H4 H5 H6 H7] Hi Ht Hok Hp.
  destruct (bind_insert traces _ _ _ Hi) as (R & HR & HR'). destruct (bind_insert in_hand _ _ _ Hi) as (R1 & HR1 & HR1').
  split; cbn; try done.
  - destruct Ht as [Ht|[Ht Ht']].
    + eapply interleaves_perm; [|exact H2]. by rewrite HR, HR', Ht.
    + eapply interleaves_perm; [|apply interleaves_new, H2]. rewrite HR, HR', Ht, Ht'. cbn. solve_Permutation.
  - by apply Forall_insert.
  - rewrite H5. f_equiv. f_equiv. unfold pending. cbn. rewrite HR1, HR1'.
    transitivity (R1 ++ (in_hand w ++ tasks_ x) ++ (clients_ x ≫= waiting)); [solve_Permutation|]. rewrite <- Hp. solve_Permutation.
Qed.

Lemma linear_perform s0 reqs rf x i q tr now o r s1 : linear s0 reqs x rf -> workers_ x !! i = Some (WRunning q tr) ->
  resume (the_op q) tr = Next o -> perform raises now o (storage_ x) = (r, s1) ->
  linear s0 reqs (performed (mkEvent now o r) s1 (with_workers (<[i := WRunning q (tr ++ [mkEvent now o r])]> (workers_ x)) x)) rf.
Proof.
  intros [H1 H2 H3 H4 H5 H6 H7] Hi Hn Hp. set (ev := mkEvent now o r).
  destruct (bind_insert traces _ _ _ Hi) as (R & HR & HR'). destruct (bind_insert in_hand _ _ _ Hi) as (R1 & HR1 & HR1').
  split; cbn; try done.
  - by eapply replays_snoc.
  - assert (interleaves (tr :: (ex_trace <$> finished x) ++ R) (log x)) as Hs.
    { eapply interleaves_perm; [|exact H2]. rewrite HR. cbn. solve_Permutation. }
    apply (interleaves_snoc _ _ 0 tr ev) in Hs; [|done]. eapply interleaves_perm; [|exact Hs]. rewrite HR'. cbn. solve_Permutation.
  - apply Forall_insert; [done|]. cbn. apply follows_snoc; [|done]. exact (Forall_lookup_1 _ _ _ _ H3 Hi).
  - rewrite H5. f_equiv. f_equiv. unfold pending. cbn. by rewrite HR1, HR1'.
Qed.

Lemma linear_deliver s0 reqs rf x i q tr r out : linear s0 reqs x rf -> workers_ x !! i = Some (WRunning q tr) ->
  resume (the_op q) tr = Over r -> deliver q r = Some out ->
  linear s0 reqs (answered (mkExecution q tr r) out (with_workers (<[i := WReady]> (workers_ x)) x)) rf.
Proof.
  intros [H1 H2 H3 H4 H5 H6 H7] Hi Hn Hd.
  destruct (bind_insert traces _ _ _ Hi) as (R & HR & HR'). destruct (bind_insert in_hand _ _ _ Hi) as (R1 & HR1 & HR1').
  split; cbn; try done.
  - eapply interleaves_perm; [|exact H2]. rewrite HR, HR', fmap_app. cbn. solve_Permutation.
  - by apply Forall_insert.
  - apply Forall_app. split; [done|]. apply Forall_singleton. split_and!; [exact (Forall_lookup_1 _ _ _ _ H3 Hi)|done|by eexists].
  - rewrite H5. f_equiv. unfold pending. cbn. rewrite HR1, HR1', fmap_app. cbn. solve_Permutation.
  - rewrite H6, bind_app. cbn. unfold told at 3. cbn. rewrite Hd. cbn. rewrite app_nil_r. solve_Permutation.
Qed.

Lemma wake_all_pending (ws : list worker) (cs : list client) :
  (map wake_worker ws ≫= in_hand) = ws ≫= in_hand /\ (map wake_client cs ≫= waiting) = cs ≫= waiting.
Proof. split; [induction ws as [|w l IH]|induction cs as [|w l IH]]; cbn; [done| |done|]; rewrite IH; by destruct w. Qed.

Lemma linear_step s0 reqs rf a x x' : linear s0 reqs x rf -> step a x = Some x' ->
  exists rf', linear s0 (reqs ++ submissions [a]) x' rf' /\ log x `prefix_of` log x' /\ finished x `prefix_of` finished x'.
Proof.
  intros Hx Hs. assert (forall y, submissions [a] = [] -> linear s0 reqs x' y ->
    linear s0 (reqs ++ submissions [a]) x' y) as H0 by (intros y -> Hy; by rewrite app_nil_r).
  destruct a as [j q|j|j t|i|i t|i now|i|t| |]; cbn [AsyncStorage.step] in Hs.
  - destruct (clients_ x !! j) as [[]|] eqn:Hj; try done. injection Hs as <-. destruct (bind_insert waiting _ _ _ Hj) as (R & HR & HR').
    destruct (has_storage x).
    + exists (rf ++ []). split_and!; [|done..]. apply (linear_clients s0 reqs rf x); try done; [cbn; by rewrite app_nil_r|].
      unfold pending. cbn. rewrite HR, HR'. cbn. solve_Permutation.
    + exists (rf ++ [(q, kNullStorageMsg)]). split_and!; [|done..]. apply (linear_clients s0 reqs rf x); try done.
      * cbn. by rewrite app_nil_r.
      * apply Forall_singleton. by right.
      * change (pending (with_effects _ x)) with (pending x). cbn. solve_Permutation.
  - destruct (clients_ x !! j) as [[]|] eqn:Hj; try done. injection Hs as <-. destruct (bind_insert waiting _ _ _ Hj) as (R & HR & HR').
    destruct (stopping_ x); [|destruct (full x)].
    + exists (rf ++ [(q, kShutdownMsg)]). split_and!; [|done..]. apply (linear_clients s0 reqs rf x); try done.
      * cbn. by rewrite app_nil_r.
      * apply Forall_singleton. by left.
      * unfold pending. cbn. rewrite HR, HR'. cbn. solve_Permutation.
    + exists (rf ++ []). split_and!; [|done..]. apply (linear_clients s0 reqs rf x); try done; [cbn; by rewrite app_nil_r|].
      unfold pending. cbn. rewrite HR, HR'. cbn. solve_Permutation.
    + exists (rf ++ []). split_and!; [|done..]. apply (linear_clients s0 reqs rf x); try done; [cbn; by rewrite app_nil_r|].
      unfold pending. cbn. rewrite HR, HR'. cbn. solve_Permutation.
  - destruct (clients_ x !! j) as [[]|] eqn:Hj; try done. destruct (bind_insert waiting _ _ _ Hj) as (R & HR & HR').
    assert (log x' = log x /\ finished x' = finished x) as [-> ->].
    { apply notify_one_cases in Hs as [[_ ->]|[(? & _ & _ & ->)|(? & ? & _ & _ & ->)]]; done. }
    exists (rf ++ []). split_and!; [|done..]. apply H0; [done|]. eapply notify_linear; [|exact Hs].
    rewrite <- (app_nil_r reqs). apply (linear_clients s0 reqs rf x); try done; [cbn; by rewrite app_nil_r|].
    unfold pending. cbn. rewrite HR, HR'. cbn. solve_Permutation.
  - destruct (workers_ x !! i) as [[]|] eqn:Hi; try done. injection Hs as <-. exists rf.
    destruct (tasks_ x) as [|q rest] eqn:Et; (split_and!; [apply H0; [done|]|done..]).
    + pose proof (linear_worker s0 reqs rf x i WReady (if stopping_ x then WExited else WAsleep) (tasks_ x) Hx Hi) as H1.
      destruct (stopping_ x); rewrite Et in H1; (destruct x; cbn in *; subst; apply H1; [by left|done|done]).
    + apply (linear_worker s0 reqs rf x i WReady); [done|done|by left|done|by rewrite Et].
  - destruct (workers_ x !! i) as [[]|] eqn:Hi; try done.
    assert (log x' = log x /\ finished x' = finished x) as [-> ->].
    { apply notify_one_cases in Hs as [[_ ->]|[(? & _ & _ & ->)|(? & ? & _ & _ & ->)]]; done. }
    exists rf. split_and!; [|done..]. apply H0; [done|]. eapply notify_linear; [|exact Hs].
    pose proof (linear_worker s0 reqs rf x i (WNotifying q) (WRunning q []) (tasks_ x) Hx Hi) as H1. destruct x. cbn in *.
    apply H1; [by right|apply follows_nil|done].
  - destruct (workers_ x !! i) as [[]|] eqn:Hi; try done. destruct (resume (the_op q) tr) as [o|] eqn:En; [|done].
    destruct (perform raises now o (storage_ x)) as [r s1] eqn:Ep. injection Hs as <-. exists rf.
    split_and!; [apply H0; [done|by apply linear_perform]|by eexists|done].
  - destruct (workers_ x !! i) as [[]|] eqn:Hi; try done. destruct (resume (the_op q) tr) as [|r] eqn:En; [done|].
    destruct (deliver q r) as [out|] eqn:Ed; [|done]. injection Hs as <-. exists rf.
    split_and!; [apply H0; [done|by apply linear_deliver]|done|by eexists].
  - assert (notify_one t x = Some x') as Hs' by by destruct t.
    assert (log x' = log x /\ finished x' = finished x) as [-> ->].
    { apply notify_one_cases in Hs' as [[_ ->]|[(? & _ & _ & ->)|(? & ? & _ & _ & ->)]]; done. }
    exists rf. split_and!; [|done..]. apply H0; [done|]. by eapply notify_linear.
  - destruct (stopping_ x); [done|]. injection Hs as <-. exists rf. split_and!; [|done..]. apply H0; [done|].
    destruct Hx. by split.
  - destruct (stopping_ x); [|done]. injection Hs as <-. exists rf. split_and!; [|done..]. apply H0; [done|].
    destruct (wake_all_pending (workers_ x) (clients_ x)) as [E1 E2]. destruct Hx as [H1 H2 H3 H4 H5 H6 H7]. split; cbn; try done.
    + replace (map wake_worker (workers_ x) ≫= traces) with (workers_ x ≫= traces); [done|].
      clear. induction (workers_ x) as [|w l IH]; cbn; [done|]. rewrite IH. by destruct w.
    + apply Forall_fmap. eapply Forall_impl; [exact H3|]. by intros [].
    + unfold pending. cbn. by rewrite E1, E2.
Qed.

Lemma linear_run s0 reqs rf l x x' : linear s0 reqs x rf -> run l x = Some x' ->
  exists rf', linear s0 (reqs ++ submissions l) x' rf' /\ log x `prefix_of` log x' /\ finished x `prefix_of` finished x'.
Proof.
  revert reqs rf x. induction l as [|a l IH]; intros reqs rf x Hx Hr; cbn in Hr.
  - injection Hr as <-. exists rf. by rewrite app_nil_r.
  - destruct (step a x) as [x1|] eqn:E; [|done]. destruct (linear_step s0 reqs rf a x x1 Hx E) as (rf1 & H1 & P1 & Q1).
    destruct (IH _ _ _ H1 Hr) as (rf2 & H2 & P2 & Q2). exists rf2. split_and!; [|by etrans..].
    rewrite <- app_assoc in H2. replace (submissions (a :: l)) with (submissions [a] ++ submissions l); [exact H2|]. unfold submissions. cbn. by rewrite app_nil_r.
Qed.

Lemma linear_initial has mx s0 n k : linear s0 [] (AsyncStorageAdapter has mx s0 n k) [].
Proof.
  assert ((replicate n WReady ≫= traces) = [] /\ (replicate n WReady ≫= in_hand) = []) as [E1 E2].
  { split; (induction n as [|n IH]; cbn; [done|by rewrite IH]). }
  assert ((replicate k CIdle ≫= waiting) = []) as E3 by (induction k as [|k IH]; cbn; [done|by rewrite IH]).
  split; cbn; try done.
  - rewrite E1. by constructor.
  - by apply Forall_replicate.
  - unfold pending. cbn. by rewrite E2, E3.
Qed.

(** C18: However clients and workers interleave, on any back end: the back end is in the
    state, and each operation gave the answer, that the log's operations give one after
    another; the log is an interleaving of the executions, each of which is its request's
    own loop (one operation, unless the back end leaves the loops of [mget] and [mput] to
    the interface, see [mget_alone] and [mput_alone]) run on the answers it got; every request submitted was refused, waits,
    is queued, is being executed or was executed, once; and what promises and callbacks
    were told is exactly the refusals and the executions' results.  Later steps only extend
    the log and the executions: a request answered before another is submitted comes
    before it. *)
Theorem adapter_linearizes has mx s0 n k l1 l2 x1 x2 :
  run l1 (AsyncStorageAdapter has mx s0 n k) = Some x1 -> run l2 x1 = Some x2 ->
  (exists refused, linear s0 (submissions l1) x1 refused) /\
  (exists refused, linear s0 (submissions l1 ++ submissions l2) x2 refused) /\
  log x1 `prefix_of` log x2 /\ finished x1 `prefix_of` finished x2.
Proof.
  intros H1 H2. destruct (linear_run s0 [] [] l1 _ x1 (linear_initial has mx s0 n k) H1) as (rf1 & L1 & _).
  destruct (linear_run s0 _ rf1 l2 x1 x2 L1 H2) as (rf2 & L2 & P & Q).
  split_and!; [by exists rf1|by exists rf2|done|done].
Qed.

(** ** Every request is answered *)

Definition effect_id (e : effect) : Z := match e with SetValue id _ | Called id _ => id end.
Definition submitted (l : list action) : list Z := the_id <$> submissions l.

Lemma refuse_id q msg : map effect_id (refuse q msg) = [the_id q].
Proof. unfold refuse. by destruct (the_style q). Qed.

Section Quiet.
Context (Hquiet : forall id a, callback_throws id a = None).

Lemma deliver_once q r out : deliver q r = Some out -> map effect_id out = [the_id q].
Proof.
  intros Hd. unfold AsyncStorage.deliver, call_again in Hd. by destruct (the_style q), r as [a|e]; rewrite ?Hquiet in Hd; simplify_eq/=.
Qed.

Lemma told_ids l : Forall execution_ok l -> map effect_id (l ≫= told) = map the_id (ex_request <$> l).
Proof.
  induction 1 as [|ex l (_ & _ & [out Ho]) _ IH]; [done|]. cbn. unfold told at 1. rewrite Ho, map_app, IH. cbn. by rewrite (deliver_once _ _ _ Ho).
Qed.

Lemma refusal_ids (l : list refusal) : map effect_id (l ≫= refusal_effects) = map the_id (fst <$> l).
Proof. induction l as [|[q msg] l IH]; [done|]. cbn. unfold refusal_effects at 1. cbn. by rewrite map_app, refuse_id, IH. Qed.

(** When callbacks do not throw, a request is answered exactly once: at any moment the
    requests submitted are those answered (by a worker or by a refusal) and those that
    wait, are queued or are being executed, each counted once. *)
Theorem requests_answered_once has mx s0 n k l x : run l (AsyncStorageAdapter has mx s0 n k) = Some x ->
  map effect_id (effects x) ++ map the_id (pending x) ≡ₚ submitted l.
Proof.
  intros Hr. destruct (linear_run s0 [] [] l _ x (linear_initial has mx s0 n k) Hr) as (rf & [_ _ _ H4 H5 H6 _] & _).
  unfold submitted. cbn in H5. rewrite H5, H6, map_app, refusal_ids, told_ids by done. rewrite !fmap_app. solve_Permutation.
Qed.

(** *** The destructor *)

Definition worker_action (a : action) : bool := match a with Take _ | NotifyW _ _ | Execute _ _ | Deliver _ => true | _ => false end.

(** The operations a request may still perform, and the steps of a worker. *)
Definition operations_of (o : operation) : nat :=
  match o with
  | Mget ks => if overrides then 1 else length ks
  | Mput docs => if overrides then 1 else length docs
  | _ => 1
  end.
Definition work_left (w : worker) : nat :=
  match w with
  | WReady | WAsleep => 1
  | WNotifying q => 3 + operations_of (the_op q)
  | WRunning q tr => 2 + (operations_of (the_op q) - length tr)
  | WExited => 0
  end.
Definition weight x : nat := (sum_list_with (fun q => 3 + operations_of (the_op q)) (tasks_ x) + sum_list_with work_left (workers_ x))%nat.

Lemma next_left o tr o' : resume o tr = Next o' -> (length tr < operations_of o)%nat.
Proof.
  destruct o as [|?|?|?|ks|docs]; cbn; unfold resume_single; try (destruct tr; [cbn; lia|done]).
  - destruct overrides; [destruct tr; [cbn; lia|done]|]. unfold resume_mget. intros Hr.
    assert (is_Some (ks !! length tr)) as ?%lookup_lt_is_Some; [|done]. destruct (ks !! length tr); [done|]. by repeat case_match.
  - destruct overrides; [destruct tr; [cbn; lia|done]|]. unfold resume_mput. intros Hr.
    assert (is_Some (docs !! length tr)) as ?%lookup_lt_is_Some; [|done]. destruct (docs !! length tr); [done|]. by repeat case_match.
Qed.

Definition draining x : Prop := stopping_ x = true /\ WAsleep ∉ workers_ x.

Lemma notify_draining t x x' : draining x -> notify_one t x = Some x' -> draining x' /\ weight x' = weight x.
Proof.
  intros [Hst Hn] [[_ ->]|[(i & _ & Hi & ->)|(j & q & _ & Hj & ->)]]%notify_one_cases; [done| |done].
  exfalso. apply Hn. by eapply list_elem_of_lookup_2.
Qed.

Lemma drain_step a x x' : worker_action a = true -> draining x -> step a x = Some x' -> draining x' /\ (weight x' < weight x)%nat.
Proof.
  intros Ha [Hst Hn] Hs. assert (forall i w, w <> WAsleep -> WAsleep ∉ <[i := w]> (workers_ x)) as Hni.
  { intros i w Hw [?|?]%elem_insert; [congruence|done]. }
  destruct a as [j q|j|j t|i|i t|i now|i|t| |]; try done; cbn [AsyncStorage.step] in Hs; destruct (workers_ x !! i) as [[]|] eqn:Hi; try done.
  - injection Hs as <-. unfold weight. destruct (tasks_ x) as [|q rest] eqn:Et; cbn; rewrite ?Et.
    + rewrite Hst. pose proof (sum_insert work_left _ i _ WExited Hi). cbn in *. split; [split; [done|by apply Hni]|lia].
    + pose proof (sum_insert work_left _ i _ (WNotifying q) Hi). cbn in *. split; [split; [done|by apply Hni]|lia].
  - pose proof (sum_insert work_left _ i _ (WRunning q []) Hi). apply notify_draining in Hs as [? Hw]; [|split; [done|by apply Hni]]. split; [done|].
    rewrite Hw. unfold weight. cbn in *. lia.
  - destruct (resume (the_op q) tr) as [o|] eqn:En; [|done]. destruct (perform raises now o (storage_ x)) as [r s1]. injection Hs as <-.
    pose proof (sum_insert work_left _ i _ (WRunning q (tr ++ [mkEvent now o r])) Hi). apply next_left in En.
    split; [split; [done|by apply Hni]|]. unfold weight. cbn in *. rewrite length_app in *. cbn in *. lia.
  - destruct (resume (the_op q) tr) as [|r]; [done|]. destruct (deliver q r) as [out|]; [|done]. injection Hs as <-.
    pose proof (sum_insert work_left _ i _ WReady Hi). split; [split; [done|by apply Hni]|]. unfold weight. cbn in *. lia.
Qed.

Lemma notify_enabled x : exists t x', notify_one t x = Some x'.
Proof.
  destruct (sleeps x) eqn:E; [|exists Nobody; eexists; cbn; by rewrite E].
  apply orb_prop in E as [(w & Hw & Hv)%existsb_exists|(c & Hc & Hv)%existsb_exists].
  - apply list_elem_of_In, list_elem_of_lookup_1 in Hw as [i Hi]. destruct w; try done. exists (AWorker i). eexists. cbn. by rewrite Hi.
  - apply list_elem_of_In, list_elem_of_lookup_1 in Hc as [j Hj]. destruct c; try done. exists (AClient j). eexists. cbn. by rewrite Hj.
Qed.

Lemma deliver_total q r : exists out, deliver q r = Some out.
Proof. unfold AsyncStorage.deliver, call_again. destruct (the_style q), r; rewrite ?Hquiet; cbn; eauto. Qed.

Lemma drain_stuck x : draining x -> (forall a, worker_action a = true -> step a x = None) -> Forall (fun w => w = WExited) (workers_ x).
Proof.
  intros [Hst Hn] Hs. apply Forall_forall. intros w Hw. pose proof Hw as [i Hi]%list_elem_of_lookup_1. destruct w as [| |q|q tr|]; [|done| | |done]; exfalso.
  - specialize (Hs (Take i) eq_refl). cbn in Hs. rewrite Hi in Hs. done.
  - destruct (notify_enabled (with_workers (<[i := WRunning q []]> (workers_ x)) x)) as (t & x' & Ht).
    specialize (Hs (NotifyW i t) eq_refl). cbn [AsyncStorage.step] in Hs. rewrite Hi, Ht in Hs. done.
  - destruct (resume (the_op q) tr) as [o|r] eqn:En.
    + specialize (Hs (Execute i 0) eq_refl). cbn [AsyncStorage.step] in Hs. rewrite Hi, En in Hs. by destruct (perform raises 0 o (storage_ x)).
    + destruct (deliver_total q r) as [out Ho]. specialize (Hs (Deliver i) eq_refl). cbn [AsyncStorage.step] in Hs. by rewrite Hi, En, Ho in Hs.
Qed.
End Quiet.

(** Requests are taken in the order they were accepted, one worker executes them in that
    order, and no worker leaves before the queue is empty for good. *)
Definition queue_ok x : Prop :=
  (exists taken, accepted x = taken ++ tasks_ x /\ taken ≡ₚ done_ x ++ (workers_ x ≫= in_hand) /\
     (length (workers_ x) = 1%nat -> taken = done_ x ++ (workers_ x ≫= in_hand))) /\
  (WExited ∈ workers_ x -> stopping_ x = true /\ tasks_ x = []).

Lemma insert_single {A} (l : list A) i w w' : l !! i = Some w -> length l = 1%nat -> l = [w] /\ <[i := w']> l = [w'].
Proof. intros Hi Hl. destruct l as [|w0 [|]]; try done. destruct i as [|[]]; try done. by injection Hi as ->. Qed.

(** A worker that goes on with the same request, or none. *)
Lemma queue_worker x i w w' : workers_ x !! i = Some w -> in_hand w' = in_hand w -> w' <> WExited ->
  queue_ok x -> queue_ok (with_workers (<[i := w']> (workers_ x)) x).
Proof.
  intros Hi Hw Hx [(tk & H1 & H2 & H3) H4]. split; cbn.
  - exists tk. split; [done|]. destruct (bind_insert in_hand _ _ _ Hi) as (R & HR & HR'). split; [by rewrite HR', Hw, <- HR|].
    rewrite length_insert. intros Hl. rewrite (H3 Hl). destruct (insert_single _ i _ w' Hi Hl) as [-> ->]. cbn. by rewrite Hw.
  - intros [?|?]%elem_insert; [congruence|]. by apply H4.
Qed.

Lemma queue_notify t x x' : queue_ok x -> notify_one t x = Some x' -> queue_ok x'.
Proof. intros Hx [[_ ->]|[(i & _ & Hi & ->)|(j & q & _ & _ & ->)]]%notify_one_cases; [done| |done]. by eapply queue_worker. Qed.

Lemma queue_step a x x' : queue_ok x -> step a x = Some x' -> queue_ok x'.
Proof.
  intros Hx Hs. destruct a as [j q|j|j t|i|i t|i now|i|t| |]; cbn [AsyncStorage.step] in Hs.
  - destruct (clients_ x !! j) as [[]|]; try done. injection Hs as <-. by destruct (has_storage x).
  - destruct (clients_ x !! j) as [[]|]; try done. injection Hs as <-. destruct (stopping_ x) eqn:Es; [done|]. destruct (full x); [done|].
    destruct Hx as [(tk & H1 & H2 & H3) H4]. split; cbn; [exists tk; by rewrite H1, app_assoc|]. intros Hin. destruct (H4 Hin). congruence.
  - destruct (clients_ x !! j) as [[]|]; try done. by eapply queue_notify; [|done].
  - destruct (workers_ x !! i) as [[]|] eqn:Hi; try done. injection Hs as <-. destruct (tasks_ x) as [|q rest] eqn:Et.
    + destruct (stopping_ x) eqn:Es; [|by eapply queue_worker].
      destruct Hx as [(tk & H1 & H2 & H3) H4]. split; cbn; [|by rewrite Es, Et]. exists tk. split; [done|].
      destruct (bind_insert in_hand _ _ _ Hi) as (R & HR & HR'). split; [by rewrite HR', H2, HR|].
      rewrite length_insert. intros Hl. rewrite (H3 Hl). by destruct (insert_single _ i _ WExited Hi Hl) as [-> ->].
    + destruct Hx as [(tk & H1 & H2 & H3) H4]. rewrite Et in H1. split; cbn.
      * exists (tk ++ [q]). split; [by rewrite H1, <- app_assoc|]. destruct (bind_insert in_hand _ _ _ Hi) as (R & HR & HR'). split.
        -- rewrite HR', H2, HR. cbn. solve_Permutation.
        -- rewrite length_insert. intros Hl. rewrite (H3 Hl). destruct (insert_single _ i _ (WNotifying q) Hi Hl) as [-> ->]. cbn. by rewrite app_nil_r.
      * intros [?|Hin]%elem_insert; [done|]. destruct (H4 Hin); congruence.
  - destruct (workers_ x !! i) as [[]|] eqn:Hi; try done. eapply queue_notify; [|done]. by eapply queue_worker.
  - destruct (workers_ x !! i) as [[]|] eqn:Hi; try done. destruct (resume (the_op q) tr) as [o|]; [|done].
    destruct (perform raises now o (storage_ x)) as [r s1]. injection Hs as <-.
    apply (queue_worker x i _ (WRunning q (tr ++ [mkEvent now o r])) Hi eq_refl ltac:(done) Hx).
  - destruct (workers_ x !! i) as [[]|] eqn:Hi; try done. destruct (resume (the_op q) tr) as [|r]; [done|]. destruct (deliver q r) as [out|]; [|done]. injection Hs as <-.
    destruct Hx as [(tk & H1 & H2 & H3) H4]. split; cbn.
    + exists tk. split; [done|]. destruct (bind_insert in_hand _ _ _ Hi) as (R & HR & HR'). unfold done_ in *. cbn. rewrite fmap_app. split.
      * rewrite HR', H2, HR. cbn. solve_Permutation.
      * rewrite length_insert. intros Hl. rewrite (H3 Hl). destruct (insert_single _ i _ WReady Hi Hl) as [-> ->]. cbn. by rewrite app_nil_r.
    + intros [?|Hin]%elem_insert; [done|]. by apply H4.
  - by destruct t; [|eapply queue_notify..].
  - destruct (stopping_ x); [done|]. injection Hs as <-. destruct Hx as [Hx H4]. split; [done|]. cbn. intros Hin. by destruct (H4 Hin).
  - destruct (stopping_ x) eqn:Es; [|done]. injection Hs as <-. destruct Hx as [(tk & H1 & H2 & H3) H4]. split; cbn.
    + exists tk. rewrite (proj1 (wake_all_pending (workers_ x) [])), length_map. done.
    + intros (w & Hw & Hin)%list_elem_of_fmap. destruct w; try done. by destruct (H4 Hin).
Qed.

Lemma init_queue has mx s0 n k : queue_ok (AsyncStorageAdapter has mx s0 n k).
Proof.
  split; [|intros [? _]%elem_of_replicate; done]. exists []. cbn.
  assert ((replicate n WReady ≫= in_hand) = []) as -> by (induction n as [|n IH]; cbn; [done|by rewrite IH]). done.
Qed.

Lemma notify_workers t x x' : notify_one t x = Some x' -> length (workers_ x') = length (workers_ x).
Proof. intros [[_ ->]|[(i & _ & _ & ->)|(j & q & _ & _ & ->)]]%notify_one_cases; [done|by cbn; rewrite length_insert|done]. Qed.

Lemma step_workers a x x' : step a x = Some x' -> length (workers_ x') = length (workers_ x).
Proof.
  intros Hs. destruct a as [j q|j|j t|i|i t|i now|i|t| |]; cbn [AsyncStorage.step] in Hs.
  - destruct (clients_ x !! j) as [[]|]; try done. injection Hs as <-. by destruct (has_storage x).
  - destruct (clients_ x !! j) as [[]|]; try done. injection Hs as <-. destruct (stopping_ x); [done|]. by destruct (full x).
  - destruct (clients_ x !! j) as [[]|]; try done. by rewrite (notify_workers _ _ _ Hs).
  - destruct (workers_ x !! i) as [[]|]; try done. injection Hs as <-. destruct (tasks_ x); cbn; by rewrite length_insert.
  - destruct (workers_ x !! i) as [[]|]; try done. rewrite (notify_workers _ _ _ Hs). cbn. by rewrite length_insert.
  - destruct (workers_ x !! i) as [[]|]; try done. destruct (resume _ _); [|done]. destruct (perform _ _ _ _). injection Hs as <-. cbn. by rewrite length_insert.
  - destruct (workers_ x !! i) as [[]|]; try done. destruct (resume _ _); [done|]. destruct (deliver _ _); [|done]. injection Hs as <-. cbn. by rewrite length_insert.
  - destruct t; [done|..]; by rewrite (notify_workers _ _ _ Hs).
  - destruct (stopping_ x); [done|]. by injection Hs as <-.
  - destruct (stopping_ x); [|done]. injection Hs as <-. cbn. by rewrite length_map.
Qed.

Lemma run_workers l x x' : run l x = Some x' -> length (workers_ x') = length (workers_ x).
Proof. apply (adapter_run_inv (fun y => length (workers_ y) = length (workers_ x))); [|done]. intros a y y' <-. apply step_workers. Qed.

(** The queue is first in, first out: what has been taken is what was accepted first;
    a lone worker executes the requests in the order they were accepted. *)
Theorem accepted_in_order has mx s0 n k l x : run l (AsyncStorageAdapter has mx s0 n k) = Some x ->
  (exists taken, accepted x = taken ++ tasks_ x /\ taken ≡ₚ done_ x ++ (workers_ x ≫= in_hand)) /\
  (n = 1%nat -> accepted x = done_ x ++ (workers_ x ≫= in_hand) ++ tasks_ x).
Proof.
  intros Hr. destruct (adapter_run_inv queue_ok l _ x queue_step (init_queue has mx s0 n k) Hr) as [(tk & H1 & H2 & H3) _].
  split; [by exists tk|]. intros ->. rewrite H1, H3, app_assoc; [done|]. by rewrite (run_workers _ _ _ Hr).
Qed.

(** C33: Once the destructor has stopped the adapter and notified, the workers (there is
    one at least) take a bounded number of steps, and when none can take another all have
    left and every request accepted has been executed. *)
Theorem shutdown_drains (Hquiet : forall id a, callback_throws id a = None) has mx s0 n k l x : (0 < n)%nat ->
  run (l ++ [NotifyAll]) (AsyncStorageAdapter has mx s0 n k) = Some x ->
  forall js x', forallb worker_action js = true -> run js x = Some x' ->
  (length js <= weight x)%nat /\
  ((forall a, worker_action a = true -> step a x' = None) ->
     Forall (fun w => w = WExited) (workers_ x') /\ done_ x' ≡ₚ accepted x').
Proof.
  intros Hn Hr js x' Hjs Hr'. assert (draining x) as Hd.
  { rewrite adapter_run_app in Hr. destruct (run l _) as [x0|]; [|done]. cbn in Hr. destruct (stopping_ x0) eqn:Es; [|done]. injection Hr as <-. split; [done|].
    cbn. intros (w & Hw & _)%list_elem_of_fmap. by destruct w. }
  assert (draining x' /\ (length js + weight x' <= weight x)%nat) as [Hd' Hw].
  { clear Hr. revert x Hd Hr' Hjs. induction js as [|a js IH]; intros x Hd Hr' Hjs; cbn in Hr'; [injection Hr' as ->; split; [done|cbn; lia]|].
    apply andb_prop in Hjs as [Ha Hjs]. destruct (step a x) as [x1|] eqn:E; [|done]. destruct (drain_step _ _ _ Ha Hd E) as [Hd1 Hlt].
    destruct (IH _ Hd1 Hr' Hjs) as [? ?]. split; [done|]. cbn [length]. lia. }
  split; [lia|]. intros Hstuck. pose proof (drain_stuck Hquiet x' Hd' Hstuck) as Hex. split; [done|].
  pose proof (adapter_run_inv queue_ok _ _ x queue_step (init_queue has mx s0 n k) Hr) as Hq.
  destruct (adapter_run_inv queue_ok js _ x' queue_step Hq Hr') as [(tk & H1 & H2 & _) H4].
  assert (WExited ∈ workers_ x') as Hin.
  { pose proof (run_workers _ _ _ Hr') as Hl. rewrite (run_workers _ _ _ Hr) in Hl. cbn in Hl. rewrite length_replicate in Hl.
    destruct (workers_ x') as [|w ws]; [cbn in Hl; lia|]. apply Forall_cons in Hex as [-> _]. by apply list_elem_of_here. }
  destruct (H4 Hin) as [_ Ht]. rewrite H1, Ht, app_nil_r, H2.
  assert ((workers_ x' ≫= in_hand) = []) as ->; [|by rewrite app_nil_r].
  clear -Hex. induction Hex as [|w ws -> _ IH]; cbn; [done|exact IH].
Qed.

(** ** Every thread asleep *)

(** A full queue, every worker asleep, and no notification to come. *)
Definition hung x : Prop :=
  has_storage x = true /\ stopping_ x = false /\ full x = true /\
  Forall (fun w => w = WAsleep) (workers_ x) /\ CNotifying ∉ clients_ x.

(** Neither a spurious wakeup nor the destructor. *)
Definition ordinary (a : action) : bool := match a with Spurious _ | Stop | NotifyAll => false | _ => true end.

Lemma hung_step a x x' : ordinary a = true -> hung x -> step a x = Some x' ->
  hung x' /\ effects x' = effects x /\ tasks_ x' = tasks_ x /\ storage_ x' = storage_ x.
Proof.
  intros Ha (H1 & H2 & H3 & H4 & H5) Hs.
  assert (forall i w, workers_ x !! i = Some w -> w = WAsleep) as Hw by (intros i w Hi; exact (Forall_lookup_1 _ _ _ _ H4 Hi)).
  assert (forall j c, c <> CNotifying -> CNotifying ∉ <[j := c]> (clients_ x)) as Hc by (intros j c Hc [?|?]%elem_insert; congruence).
  destruct a as [j q|j|j t|i|i t|i now|i|t| |]; try done; cbn [AsyncStorage.step] in Hs.
  - destruct (clients_ x !! j) as [[]|]; try done. rewrite H1 in Hs. injection Hs as <-. split_and!; try done. split_and!; try done. by apply Hc.
  - destruct (clients_ x !! j) as [[]|]; try done. rewrite H2, H3 in Hs. injection Hs as <-. split_and!; try done. split_and!; try done. by apply Hc.
  - destruct (clients_ x !! j) as [[]|] eqn:Hj; try done. exfalso. apply H5. by eapply list_elem_of_lookup_2.
  - destruct (workers_ x !! i) as [w|] eqn:Hi; [|done]. by rewrite (Hw i w Hi) in Hs.
  - destruct (workers_ x !! i) as [w|] eqn:Hi; [|done]. by rewrite (Hw i w Hi) in Hs.
  - destruct (workers_ x !! i) as [w|] eqn:Hi; [|done]. by rewrite (Hw i w Hi) in Hs.
  - destruct (workers_ x !! i) as [w|] eqn:Hi; [|done]. by rewrite (Hw i w Hi) in Hs.
Qed.

(** One worker, a queue of one.  The worker sleeps; a client queues a request; before it
    notifies, a second one finds the queue full and sleeps; the notification wakes the
    second client, which sleeps again. *)
Definition hanging (q0 q1 : request) : list action :=
  [Take 0; Submit 0 q0; Enqueue 0; Submit 1 q1; Enqueue 1; NotifyC 0 (AClient 1); Enqueue 1].

(** C30: A request can be left in the queue for ever: [notify_one] may wake a client that
    waits for space instead of the worker, after which no step but a spurious wakeup or
    the destructor executes or answers anything, whatever is submitted. *)
Theorem adapter_hangs s0 k q0 q1 :
  exists x, run (hanging q0 q1) (AsyncStorageAdapter true 1 s0 1 (2 + k)) = Some x /\ tasks_ x = [q0] /\
    forall l x', forallb ordinary l = true -> run l x = Some x' ->
      tasks_ x' = [q0] /\ effects x' = [] /\ storage_ x' = s0 /\ hung x'.
Proof.
  set (y := mkAdapter true 1 s0 [q0] false [WAsleep] (CIdle :: CAsleep q1 :: replicate k CIdle) [q0] [] [] []).
  exists y. split; [reflexivity|]. split; [reflexivity|]. intros l x' Hl Hr.
  assert (hung y) as Hy.
  { split_and!; try done; [by apply Forall_cons|]. cbn. rewrite !not_elem_of_cons. split_and!; [done..|]. by intros [? _]%elem_of_replicate. }
  assert (tasks_ y = [q0] /\ effects y = [] /\ storage_ y = s0) as (E1 & E2 & E3) by done. revert E1 E2 E3 Hr Hy. generalize y. clear y.
  induction l as [|a l IH]; intros y E1 E2 E3 Hr Hy; cbn in Hr; [by injection Hr as <-|]. apply andb_prop in Hl as [Ha Hl].
  destruct (step a y) as [y1|] eqn:E; [|done]. destruct (hung_step _ _ _ Ha Hy E) as (Hy1 & Ee & Et & Es). apply (IH Hl y1); solve [congruence|done].
Qed.

(** ** A callback that throws *)

(** A callback that throws on its answer is called a second time with a failure,
    although the operation took place. *)
Theorem callback_told_twice q a e : the_style q = Callback ->
  callback_throws (the_id q) a = Some e -> callback_throws (the_id q) (answer_of_exn (the_op q) e) = None ->
  deliver q (inl a) = Some [Called (the_id q) a; Called (the_id q) (answer_of_exn (the_op q) e)].
Proof. intros Hq Ht Hn. unfold AsyncStorage.deliver, call_again. by rewrite Hq, Ht, Hn. Qed.

(** ** The loops of the interface, undisturbed *)

(** When no other worker comes between, the loop of [mget] is
    [default_mget]: the two agree on the results and on the back end. *)
Fixpoint loop_alone (fuel : nat) (now : Z) (o : operation) (tr : list event) (s : S) : option ((answer + exn) * S) :=
  match fuel with
  | O => None
  | Datatypes.S fuel' =>
      match resume o tr with
      | Over r => Some (r, s)
      | Next o' => let '(r, s1) := perform raises now o' s in loop_alone fuel' now o (tr ++ [mkEvent now o' r]) s1
      end
  end.

Lemma loop_alone_S n now o tr s : loop_alone (Datatypes.S n) now o tr s =
  match resume o tr with
  | Over r => Some (r, s)
  | Next o' => let '(r, s1) := perform raises now o' s in loop_alone n now o (tr ++ [mkEvent now o' r]) s1
  end.
Proof. done. Qed.

Definition gets_of (tr : list event) : Prop := Forall (fun ev => exists r, ev_out ev = inl (AResult r)) tr.

Lemma results_snoc tr now o r : results (tr ++ [mkEvent now o (inl (AResult r))]) = results tr ++ [r].
Proof. unfold results. by rewrite bind_app. Qed.

Theorem mget_alone (Hr : forall o s, raises o s = None) (Ho : overrides = false) now ks s :
  loop_alone (Datatypes.S (length ks)) now (Mget ks) [] s =
    (let '(rs, s') := default_mget now ks s in Some (inl (AResults rs), s')).
Proof.
  enough (forall ks1 ks0 tr s, ks = ks0 ++ ks1 -> length tr = length ks0 -> gets_of tr ->
    loop_alone (Datatypes.S (length ks1)) now (Mget ks) tr s =
      (let '(rs, s') := default_mget now ks1 s in Some (inl (AResults (results tr ++ rs)), s'))) as H0 by exact (H0 ks [] [] s eq_refl eq_refl (Forall_nil_2 _)).
  induction ks1 as [|k ks1 IH]; intros ks0 tr s1 E Hl Hg; rewrite loop_alone_S; cbn [default_mget AsyncStorage.resume]; rewrite Ho; unfold resume_mget.
  - assert (ks !! length tr = None) as -> by (apply lookup_ge_None; rewrite E, app_nil_r; lia). rewrite app_nil_r.
    destruct (last tr) as [ev|] eqn:El; [|done]. apply last_Some_elem_of in El. unfold gets_of in Hg. rewrite Forall_forall in Hg. cbn.
    by destruct (Hg ev El) as [r ->].
  - assert (ks !! length tr = Some k) as -> by (rewrite E, Hl; by apply list_lookup_middle).
    assert (match ev_out <$> last tr with Some (inr e) => Over (inr e) | _ => Next (Get k) end = Next (Get k)) as ->.
    { destruct (last tr) as [ev|] eqn:El; [|done]. apply last_Some_elem_of in El. unfold gets_of in Hg. rewrite Forall_forall in Hg. cbn.
      by destruct (Hg ev El) as [r ->]. }
    unfold perform. rewrite Hr. destruct (get now k s1) as [r s2].
    cbn [length]. rewrite (IH (ks0 ++ [k])); [|by rewrite <- app_assoc|rewrite !length_app; cbn; lia|].
    + destruct (default_mget now ks1 s2) as [rs s3]. by rewrite results_snoc, <- app_assoc.
    + apply Forall_app. split; [done|]. apply Forall_singleton. by eexists.
Qed.

Definition puts_ok (tr : list event) : Prop := Forall (fun ev => exists r, ev_out ev = inl (AResult r) /\ ok r = true) tr.

Lemma puts_ok_last tr ev : puts_ok tr -> last tr = Some ev -> exists r, ev_out ev = inl (AResult r) /\ ok r = true.
Proof. intros Ht El%last_Some_elem_of. by eapply Forall_forall in Ht. Qed.

(** The same of [mput], which the first failure ends. *)
Theorem mput_alone (Hr : forall o s, raises o s = None) (Ho : overrides = false) now docs s :
  loop_alone (Datatypes.S (length docs)) now (Mput docs) [] s =
    (let '(r, s') := default_mput now docs s in Some (inl (AResult r), s')).
Proof.
  enough (forall ds1 ds0 tr s, docs = ds0 ++ ds1 -> length tr = length ds0 -> puts_ok tr ->
    loop_alone (Datatypes.S (length ds1)) now (Mput docs) tr s =
      (let '(r, s') := default_mput now ds1 s in Some (inl (AResult r), s'))) as H0 by exact (H0 docs [] [] s eq_refl eq_refl (Forall_nil_2 _)).
  assert (forall tr, puts_ok tr -> resume_mput docs tr =
    match docs !! length tr with Some d => Next (Put (key d) (doc_value d) (expire_at d)) | None => Over (inl (AResult (success []))) end) as Hnext.
  { intros tr Hg. unfold resume_mput. destruct (last tr) as [ev|] eqn:El; [|done]. destruct (puts_ok_last _ _ Hg El) as (r & Hev & Hok). cbn. by rewrite Hev, Hok. }
  induction ds1 as [|d ds1 IH]; intros ds0 tr s1 E Hl Hg; rewrite loop_alone_S; cbn [default_mput AsyncStorage.resume]; rewrite Ho, (Hnext tr Hg).
  - by rewrite (proj2 (lookup_ge_None docs (length tr))) by (rewrite E, app_nil_r; lia).
  - assert (docs !! length tr = Some d) as -> by (rewrite E, Hl; by apply list_lookup_middle).
    unfold perform. rewrite Hr. destruct (put now (key d) (doc_value d) (expire_at d) s1) as [r s2]. destruct (ok r) eqn:Hok.
    + apply (IH (ds0 ++ [d])); [by rewrite <- app_assoc|rewrite !length_app; cbn; lia|]. apply Forall_app. split; [done|]. apply Forall_singleton. by eexists.
    + cbn [length]. rewrite loop_alone_S. cbn [AsyncStorage.resume]. rewrite Ho. unfold resume_mput. rewrite last_snoc. cbn. by rewrite Hok.
Qed.
End Facts.

(** ** On the in-memory storage *)

Section Demo.
#[local] Instance demo_order : IterOrder str := key_order str.

Definition demo_put : request := mkRequest (Put [Byte.x61] [Byte.x62] 0) 1 Callback.
Definition demo_get : request := mkRequest (Get [Byte.x61]) 2 Future.
Definition never_raises (_ : operation) (_ : MemoryStorage) : option exn := None.
Definition quiet (_ : Z) (_ : answer) : option exn := None.

(** A callback that throws on a success. *)
Definition picky (_ : Z) (a : answer) : option exn :=
  match a with AResult r => if ok r then Some OtherException else None | _ => None end.

Definition demo_steps : list action :=
  [Take 0; Submit 0 demo_put; Enqueue 0; NotifyC 0 (AWorker 0); Submit 0 demo_get; Enqueue 0; NotifyC 0 Nobody;
   Take 0; NotifyW 0 Nobody; Execute 0 5; Deliver 0; Take 0; NotifyW 0 Nobody; Stop].
Definition demo_rest : list action := [Execute 0 6; Deliver 0; Take 0].
Definition demo_adapter := AsyncStorageAdapter true 4 (∅ : MemoryStorage) 1 1.

Definition ran (x : option (@adapter MemoryStorage)) : bool := match x with Some _ => true | None => false end.

Lemma ran_some o : ran o = true -> exists x, o = Some x.
Proof. destruct o as [x|]; [by exists x|done]. Qed.

Lemma demo_steps_ran : ran (run true never_raises quiet (demo_steps ++ demo_rest) demo_adapter) = true.
Proof. vm_compute. reflexivity. Qed.

Lemma demo_shutdown_ran : ran (run true never_raises quiet (demo_steps ++ [NotifyAll]) demo_adapter) = true.
Proof. vm_compute. reflexivity. Qed.

Lemma demo_shutdown_rest x : run true never_raises quiet (demo_steps ++ [NotifyAll]) demo_adapter = Some x -> ran (run true never_raises quiet demo_rest x) = true.
Proof.
  intros Hx. assert (match run true never_raises quiet (demo_steps ++ [NotifyAll]) demo_adapter with Some x => ran (run true never_raises quiet demo_rest x) | None => true end = true) as Hr by (vm_compute; reflexivity).
  by rewrite Hx in Hr.
Qed.

Lemma adapter_linearizes_witness : exists x1 x2, run true never_raises quiet demo_steps demo_adapter = Some x1 /\
  run true never_raises quiet demo_rest x1 = Some x2 /\ log x1 `prefix_of` log x2 /\
  exists refused, linear true never_raises quiet ∅ (submissions demo_steps) x1 refused.
Proof.
  destruct (ran_some _ demo_steps_ran) as [x2 Hx]. rewrite adapter_run_app in Hx.
  destruct (run true never_raises quiet demo_steps demo_adapter) as [x1|] eqn:E1; [|discriminate Hx]. exists x1, x2.
  pose proof (adapter_linearizes true never_raises quiet true 4 ∅ 1 1 demo_steps demo_rest x1 x2 E1 Hx) as (L1 & _ & P & _).
  split; [reflexivity|]. split; [exact Hx|]. split; [exact P|exact L1].
Defined.

Lemma requests_answered_once_witness : exists x, run true never_raises quiet (demo_steps ++ demo_rest) demo_adapter = Some x /\
  map effect_id (effects x) ++ map the_id (pending x) ≡ₚ [1; 2].
Proof.
  destruct (ran_some _ demo_steps_ran) as [x Hx]. exists x. split; [exact Hx|].
  exact (requests_answered_once true never_raises quiet (fun _ _ => eq_refl) true 4 ∅ 1 1 (demo_steps ++ demo_rest) x Hx).
Defined.

Lemma accepted_in_order_witness : exists x, run true never_raises quiet (demo_steps ++ demo_rest) demo_adapter = Some x /\
  accepted x = done_ x ++ (workers_ x ≫= in_hand) ++ tasks_ x.
Proof.
  destruct (ran_some _ demo_steps_ran) as [x Hx]. exists x. split; [exact Hx|].
  exact (proj2 (accepted_in_order true never_raises quiet true 4 ∅ 1 1 (demo_steps ++ demo_rest) x Hx) eq_refl).
Defined.

Lemma shutdown_drains_witness : exists x x', run true never_raises quiet (demo_steps ++ [NotifyAll]) demo_adapter = Some x /\
  run true never_raises quiet demo_rest x = Some x' /\ (3 <= weight true x)%nat.
Proof.
  destruct (ran_some _ demo_shutdown_ran) as [x Hx]. destruct (ran_some _ (demo_shutdown_rest x Hx)) as [x' Hx']. exists x, x'.
  split; [exact Hx|]. split; [exact Hx'|].
  exact (proj1 (shutdown_drains true never_raises quiet (fun _ _ => eq_refl) true 4 ∅ 1 1 demo_steps x ltac:(lia) Hx demo_rest x' eq_refl Hx')).
Defined.

Lemma callback_told_twice_witness : deliver picky demo_put (inl (AResult (success []))) =
  Some [Called 1 (AResult (success [])); Called 1 (AResult (failure "unknown exception"))].
Proof. refine (callback_told_twice picky demo_put (AResult (success [])) OtherException _ _ _); reflexivity. Defined.

(** Two workers on a back end with the interface's loops: a [put] falls between the two
    [get]s of an [mget], which reads one key before it and one after. *)
Definition demo_mget : request := mkRequest (Mget [[Byte.x61]; [Byte.x61]]) 3 Future.
Definition demo_between : list action :=
  [Submit 0 demo_mget; Enqueue 0; NotifyC 0 Nobody; Take 0; NotifyW 0 Nobody; Submit 0 demo_put; Enqueue 0; NotifyC 0 Nobody;
   Take 1; NotifyW 1 Nobody; Execute 0 5; Execute 1 5; Execute 0 5; Deliver 0; Deliver 1].

Theorem mget_torn : effects <$> run false never_raises quiet demo_between (AsyncStorageAdapter true 4 (∅ : MemoryStorage) 2 1) =
  Some [SetValue 3 (AResults [failure "key not found"; success [Byte.x62]]); Called 1 (AResult (success []))].
Proof. vm_compute. reflexivity. Qed.
End Demo.
