(* ===== verification/EventBus.v ===== *)
(** * EventBus: include/chwell/event/event_bus.h

    Subscribers by event type, in descending order of priority, and the synchronous
    publication, whose handlers run without the lock and may use the bus themselves.
    [publish] keeps pointers into the subscribers: a handler destroyed before its turn, or
    while it runs, is undefined behaviour. *)

From stdpp Require Import sorting.
From S2P Require Import Prelude.
From S2P Require Import Protocol.
From S2P Require Import Wire.
From S2P Require Import Effects.

(** ** Events *)

Inductive connection_type := CONNECT | DISCONNECT.

Inductive event_data :=
| ConnectionEvent (t : connection_type) (conn_id : Z) (addr : string)
| LoginEvent (conn_id : Z) (player_id : string) (success : bool)
| ChatEvent (sender channel message : string)
| EntityCreateEvent (entity_id x y entity_type : Z)
| EntityMoveEvent (entity_id old_x old_y new_x new_y : Z)
| EntityDestroyEvent (entity_id : Z)
| UserEvent (its_name : string) (its_type_id : Z).    (* a class of the program's own *)

Definition name (e : event_data) : string :=
  match e with
  | ConnectionEvent CONNECT _ _ => "ConnectionEvent:Connect"
  | ConnectionEvent DISCONNECT _ _ => "ConnectionEvent:Disconnect"
  | LoginEvent _ _ _ => "LoginEvent"
  | ChatEvent _ _ _ => "ChatEvent"
  | EntityCreateEvent _ _ _ _ => "EntityCreateEvent"
  | EntityMoveEvent _ _ _ _ _ => "EntityMoveEvent"
  | EntityDestroyEvent _ => "EntityDestroyEvent"
  | UserEvent n _ => n
  end.

Definition type_id (e : event_data) : Z :=
  match e with
  | ConnectionEvent _ _ _ => 1
  | LoginEvent _ _ _ => 2
  | ChatEvent _ _ _ => 3
  | EntityCreateEvent _ _ _ _ => 10
  | EntityMoveEvent _ _ _ _ _ => 11
  | EntityDestroyEvent _ => 12
  | UserEvent _ i => i
  end.

Record Event := mkEvent { timestamp : Z; cancelled : bool; data : event_data }.

Definition set_timestamp (ts : Z) (e : Event) : Event := mkEvent ts (cancelled e) (data e).
Definition cancel (e : Event) : Event := mkEvent (timestamp e) true (data e).

(** ** The bus *)

(** The [type_index] of the static type at a subscription or publication. *)
Definition type_index := Z.

(** A subscriber, its callback a number ([None]: an empty function).  [addr] is the place
    of its handler in memory. *)
Record Subscriber := mkSubscriber { id : Z; priority : Z; callback : option Z; addr : nat }.

Definition before (a b : Subscriber) : Prop := priority b <= priority a.
#[export] Instance before_dec a b : Decision (before a b).
Proof. unfold before. apply _. Defined.

(** [std::sort] by descending priority: equals in any order. *)
Class PrioritySort := {
  priority_sort : list Subscriber -> list Subscriber;
  priority_sort_perm : forall l, priority_sort l ≡ₚ l;
  priority_sort_sorted : forall l, StronglySorted before (priority_sort l)
}.

Record EventBus := mkBus { subscribers_ : gmap type_index (list Subscriber); next_id_ : Z; allocated : nat }.

Definition EventBus_init : EventBus := mkBus ∅ 1 0.

Definition subs_of (t : type_index) (b : EventBus) : list Subscriber := default [] (subscribers_ b !! t).

Section Bus.
Context {PS : PrioritySort} {IO : IterOrder Z}.

Definition subscribe (t : type_index) (cb : option Z) (prio : Z) (b : EventBus) : Z * EventBus :=
  let i := next_id_ b in
  let s := mkSubscriber i prio cb (allocated b) in
  (i, mkBus (<[t := priority_sort (subs_of t b ++ [s])]> (subscribers_ b)) (u64 (i + 1)) (S (allocated b))).

(** The first with this id. *)
Fixpoint erase_id (i : Z) (l : list Subscriber) : option (list Subscriber) :=
  match l with
  | [] => None
  | s :: l' => if id s =? i then Some l' else l'' ← erase_id i l'; Some (s :: l'')
  end.

Fixpoint unsubscribe_in (i : Z) (types : list (type_index * list Subscriber)) (b : EventBus) : EventBus :=
  match types with
  | [] => b
  | (t, l) :: types' =>
      match erase_id i l with
      | Some l' => mkBus (<[t := l']> (subscribers_ b)) (next_id_ b) (allocated b)
      | None => unsubscribe_in i types' b
      end
  end.

Definition unsubscribe (i : Z) (b : EventBus) : EventBus := unsubscribe_in i (iter (subscribers_ b)) b.

Definition clear (b : EventBus) : EventBus := mkBus ∅ (next_id_ b) (allocated b).

Definition subscriber_count (b : EventBus) : Z := sumZ (fun p => Z.of_nat (length p.2)) (iter (subscribers_ b)).

Definition find_at (a : nat) (b : EventBus) : option Subscriber :=
  find (fun s => Nat.eqb (addr s) a) (map_to_list (subscribers_ b) ≫= snd).

(** ** Publication *)

(** What a handler does with the bus, and how it ends.  It is given a constant event, but
    may hold a reference of its own to cancel it by. *)
Inductive op :=
| Subscribe (t : type_index) (cb : option Z) (prio : Z)
| Unsubscribe (i : Z)
| Publish (t : type_index) (e : Event) (now : Z) (guarded : bool)   (* what it throws is caught *)
| Clear
| Cancel.

Inductive ending := Returns | ThrowsStd | ThrowsOther.

(** A call of a callback, in publication [pub]. *)
Record call := mkCall { pub : nat; called : Z; with_event : Event }.

Record world := mkWorld { bus : EventBus; calls : list call; pubs : nat }.

Definition with_bus (b : EventBus) (w : world) : world := mkWorld b (calls w) (pubs w).
Definition logged (c : call) (w : world) : world := mkWorld (bus w) (calls w ++ [c]) (pubs w).

Inductive result :=
| Completed (e : Event) (w : world)    (* [e]: the event as [publish] leaves it *)
| Threw (w : world)
| Undefined
| OutOfFuel.

(** What a handler does may depend on everything called before. *)
Context (react : list call -> Z -> Event -> list op * ending).

Section Publication.
Context (publish_nested : type_index -> Event -> Z -> world -> result).

Fixpoint do_ops (ops : list op) (e : Event) (w : world) : result :=
  match ops with
  | [] => Completed e w
  | Subscribe t cb prio :: ops' => do_ops ops' e (with_bus (subscribe t cb prio (bus w)).2 w)
  | Unsubscribe i :: ops' => do_ops ops' e (with_bus (unsubscribe i (bus w)) w)
  | Clear :: ops' => do_ops ops' e (with_bus (clear (bus w)) w)
  | Cancel :: ops' => do_ops ops' (cancel e) w
  | Publish t e' now guarded :: ops' =>
      match publish_nested t e' now w with
      | Completed _ w1 => do_ops ops' e w1
      | Threw w1 => if guarded then do_ops ops' e w1 else Threw w1
      | r => r
      end
  end.

Definition alive (s : Subscriber) (w : world) : bool := bool_decide (is_Some (find_at (addr s) (bus w))).

(** The handler of [s] invoked; it must still be there when it ends. *)
Definition invoke (n : nat) (s : Subscriber) (e : Event) (w : world) : result :=
  match callback s with
  | None => Completed e w
  | Some cb =>
      let '(ops, ends) := react (calls w) cb e in
      match do_ops ops e (logged (mkCall n cb e) w) with
      | Completed e1 w1 => if alive s w1 then match ends with ThrowsOther => Threw w1 | _ => Completed e1 w1 end else Undefined
      | Threw w1 => if alive s w1 then Threw w1 else Undefined
      | r => r
      end
  end.

Fixpoint run_handlers (n : nat) (handlers : list nat) (e : Event) (w : world) : result :=
  match handlers with
  | [] => Completed e w
  | a :: handlers' =>
      if cancelled e then Completed e w
      else match find_at a (bus w) with
           | None => Undefined
           | Some s => match invoke n s e w with Completed e1 w1 => run_handlers n handlers' e1 w1 | r => r end
           end
  end.
End Publication.

Fixpoint publish (fuel : nat) (t : type_index) (e : Event) (now : Z) (w : world) : result :=
  match fuel with
  | O => OutOfFuel
  | S fuel' =>
      let e1 := if timestamp e =? 0 then set_timestamp now e else e in
      let handlers := addr <$> subs_of t (bus w) in
      run_handlers (publish fuel') (pubs w) handlers e1 (mkWorld (bus w) (calls w) (S (pubs w)))
  end.
End Bus.
