(* ===== verification/EventBusFacts.v ===== *)
(** * EventBusFacts: what the event bus guarantees

    Whoever was subscribed when a publication began is called once, by priority, unless
    the event is cancelled, whatever the handlers do on the bus, as long as none is
    destroyed before its turn. *)

From stdpp Require Import sorting.
From S2P Require Import Prelude.
From S2P Require Import Protocol.
From S2P Require Import Wire.
From S2P Require Import Effects.
From S2P Require Import EventBus.

Section Facts.
Context {PS : PrioritySort} {IO : IterOrder Z}.
Implicit Types (b : EventBus) (s : Subscriber) (w : world).

(** ** Subscribers *)

Definition flat (m : gmap type_index (list Subscriber)) : list Subscriber := map_to_list m ≫= snd.
Definition all_subs b : list Subscriber := flat (subscribers_ b).

Lemma flat_delete m t : flat m ≡ₚ default [] (m !! t) ++ flat (delete t m).
Proof.
  unfold flat. destruct (m !! t) as [l|] eqn:E; [|by rewrite delete_id]. by rewrite <- (map_to_list_delete m t l E).
Qed.

Lemma flat_insert m t l : flat (<[t := l]> m) ≡ₚ l ++ flat (delete t m).
Proof. rewrite (flat_delete _ t), lookup_insert_eq, delete_insert_eq. done. Qed.

Lemma elem_of_flat m s : s ∈ flat m <-> exists t, s ∈ default [] (m !! t).
Proof.
  split.
  - intros ([t l] & Hs & Hin)%list_elem_of_bind. apply elem_of_map_to_list in Hin. exists t. by rewrite Hin.
  - intros [t Hs]. rewrite (flat_delete m t). apply elem_of_app. by left.
Qed.

(** Subscribers are where they were allocated, numbered in that order, and sorted. *)
Definition bus_ok b : Prop :=
  (forall t, StronglySorted before (subs_of t b)) /\ NoDup (addr <$> all_subs b) /\
  (forall s, s ∈ all_subs b -> (addr s < allocated b)%nat /\ id s = u64 (Z.of_nat (addr s) + 1)) /\
  next_id_ b = u64 (Z.of_nat (allocated b) + 1).

Lemma init_bus_ok : bus_ok EventBus_init.
Proof. split_and!; [intros t; constructor|constructor|intros s Hs; by apply not_elem_of_nil in Hs|done]. Qed.

Lemma subscribe_subs t cb prio b : all_subs (subscribe t cb prio b).2 ≡ₚ mkSubscriber (next_id_ b) prio cb (allocated b) :: all_subs b.
Proof.
  unfold all_subs. cbn. rewrite flat_insert, priority_sort_perm, (flat_delete (subscribers_ b) t). unfold subs_of. solve_Permutation.
Qed.

Lemma subscribe_ok t cb prio b : bus_ok b -> bus_ok (subscribe t cb prio b).2.
Proof.
  intros (H1 & H2 & H3 & H4). split_and!.
  - intros t'. unfold subs_of. cbn. destruct (decide (t' = t)) as [->|Hne]; [|rewrite lookup_insert_ne by done; apply H1].
    rewrite lookup_insert_eq. apply priority_sort_sorted.
  - rewrite subscribe_subs. cbn. apply NoDup_cons. split; [|done]. intros (s & Ha & Hs)%list_elem_of_fmap. apply H3 in Hs. lia.
  - intros s. rewrite subscribe_subs. cbn. intros [->|Hs]%elem_of_cons; cbn; [split; [lia|done]|]. apply H3 in Hs as [? ?]. split; [lia|done].
  - cbn [subscribe fst snd next_id_ allocated]. rewrite H4. unfold u64, uwrap. rewrite Zplus_mod_idemp_l. f_equal. lia.
Qed.

Lemma erase_spec i l : match erase_id i l with
  | Some l' => exists l1 s l2, l = l1 ++ s :: l2 /\ l' = l1 ++ l2 /\ id s = i /\ Forall (fun s => id s <> i) l1
  | None => Forall (fun s => id s <> i) l
  end.
Proof.
  induction l as [|s l IH]; cbn; [done|]. destruct (id s =? i) eqn:E; breflect.
  - exists [], s, l. split_and!; done.
  - destruct (erase_id i l) as [l'|]; cbn; [|by apply Forall_cons]. destruct IH as (l1 & s' & l2 & -> & -> & Hi & Hf).
    exists (s :: l1), s', l2. split_and!; try done. by apply Forall_cons.
Qed.

Lemma unsubscribe_in_spec i types b : (forall t l, (t, l) ∈ types -> subscribers_ b !! t = Some l) ->
  (unsubscribe_in i types b = b /\ forall t l, (t, l) ∈ types -> Forall (fun s => id s <> i) l) \/
  exists t l1 s l2, subs_of t b = l1 ++ s :: l2 /\ id s = i /\ Forall (fun s => id s <> i) l1 /\
    unsubscribe_in i types b = mkBus (<[t := l1 ++ l2]> (subscribers_ b)) (next_id_ b) (allocated b).
Proof.
  induction types as [|[t l] types IH]; intros Ht; cbn; [left; split; [done|intros t l Hin; by apply not_elem_of_nil in Hin]|].
  pose proof (erase_spec i l) as He. destruct (erase_id i l) as [l'|].
  - right. destruct He as (l1 & s & l2 & -> & -> & Hi & Hf). exists t, l1, s, l2. split_and!; try done.
    unfold subs_of. by rewrite (Ht t (l1 ++ s :: l2) (list_elem_of_here _ _)).
  - destruct IH as [[IH1 IH2]|IH]; [intros t' l' Hin; apply Ht; by right| |by right]. left. split; [done|].
    intros t' l' [[= -> ->]|Hin]%elem_of_cons; [done|by eapply IH2].
Qed.

Lemma unsubscribe_cases i b :
  (unsubscribe i b = b /\ forall s, s ∈ all_subs b -> id s <> i) \/
  exists t l1 s l2, subs_of t b = l1 ++ s :: l2 /\ id s = i /\ Forall (fun s => id s <> i) l1 /\
    unsubscribe i b = mkBus (<[t := l1 ++ l2]> (subscribers_ b)) (next_id_ b) (allocated b).
Proof.
  destruct (unsubscribe_in_spec i (iter (subscribers_ b)) b) as [[H1 H2]|H]; [by intros t l ?%elem_of_iter| |by right].
  left. split; [done|]. intros s ([t l] & Hs & Hin%elem_of_map_to_list)%list_elem_of_bind. apply elem_of_iter in Hin.
  by apply (Forall_forall (fun s => id s <> i) l); [eapply H2|].
Qed.

(** Removal keeps all but one. *)
Lemma remove_subs b t l1 s l2 : subs_of t b = l1 ++ s :: l2 ->
  all_subs b ≡ₚ s :: all_subs (mkBus (<[t := l1 ++ l2]> (subscribers_ b)) (next_id_ b) (allocated b)).
Proof.
  intros Hs. unfold all_subs. cbn. rewrite (flat_delete (subscribers_ b) t), flat_insert. unfold subs_of in Hs. rewrite Hs. solve_Permutation.
Qed.

Lemma unsubscribe_subs i b : all_subs (unsubscribe i b) ⊆+ all_subs b /\ allocated (unsubscribe i b) = allocated b.
Proof.
  destruct (unsubscribe_cases i b) as [[-> _]|(t & l1 & s & l2 & Hs & _ & _ & ->)]; [done|]. split; [|done].
  rewrite (remove_subs b t l1 s l2 Hs). by apply submseteq_cons.
Qed.

Lemma StronglySorted_middle {A} (R : A -> A -> Prop) l1 x l2 : StronglySorted R (l1 ++ x :: l2) -> StronglySorted R (l1 ++ l2).
Proof.
  induction l1 as [|y l1 IH]; cbn; intros Hs; inversion Hs as [|? ? H1 H2]; subst; [done|]. constructor; [by apply IH|].
  apply Forall_app in H2 as [? H2]. apply Forall_cons in H2 as [_ ?]. by apply Forall_app.
Qed.

Lemma unsubscribe_ok i b : bus_ok b -> bus_ok (unsubscribe i b).
Proof.
  intros (H1 & H2 & H3 & H4). destruct (unsubscribe_subs i b) as [Hsub Ha]. split_and!.
  - intros t'. destruct (unsubscribe_cases i b) as [[-> _]|(t & l1 & s & l2 & Hs & _ & _ & ->)]; [apply H1|].
    unfold subs_of. cbn. destruct (decide (t' = t)) as [->|Hne]; [|rewrite lookup_insert_ne by done; apply H1].
    rewrite lookup_insert_eq. cbn. apply (StronglySorted_middle before l1 s l2). rewrite <- Hs. apply H1.
  - apply (fmap_submseteq addr) in Hsub. apply submseteq_Permutation in Hsub as [k Hk]. rewrite Hk in H2. by apply NoDup_app in H2 as [? _].
  - intros s Hs. rewrite Ha. apply H3. by eapply elem_of_submseteq.
  - rewrite Ha, <- H4. destruct (unsubscribe_cases i b) as [[-> _]|(t & l1 & s & l2 & Hs & _ & _ & ->)]; done.
Qed.

Lemma clear_ok b : bus_ok b -> bus_ok (clear b).
Proof. intros (_ & _ & _ & H4). split_and!; [intros t; constructor|constructor|intros s Hs; by apply not_elem_of_nil in Hs|done]. Qed.

Lemma find_at_spec a b s : bus_ok b -> find_at a b = Some s <-> s ∈ all_subs b /\ addr s = a.
Proof.
  intros (_ & H2 & _). unfold find_at. change (map_to_list (subscribers_ b) ≫= snd) with (all_subs b).
  split.
  - intros [Hin Ha]%find_some. split; [by apply list_elem_of_In|by apply Nat.eqb_eq].
  - intros [Hin Ha]. destruct (find _ (all_subs b)) as [s'|] eqn:E.
    + apply find_some in E as [Hin' Ha'%Nat.eqb_eq]. apply list_elem_of_In in Hin'. f_equal.
      apply list_elem_of_lookup_1 in Hin as [x Hx], Hin' as [y Hy]. assert (y = x) as ->; [|congruence].
      apply (NoDup_lookup (addr <$> all_subs b) _ _ a H2); rewrite list_lookup_fmap; [rewrite Hy|rewrite Hx]; cbn; congruence.
    + apply list_elem_of_In in Hin. apply (find_none _ _ E) in Hin. rewrite Ha, Nat.eqb_refl in Hin. done.
Qed.

(** ** Publications *)

(** No new subscriber in the place of an old one. *)
Definition evolves b b' : Prop :=
  (allocated b <= allocated b')%nat /\ forall s, s ∈ all_subs b' -> (addr s < allocated b)%nat -> s ∈ all_subs b.

(** From [w] to [w'] by calls that are those of publication [n], [ms], and of later ones. *)
Definition goes (n : nat) (ms : list call) w w' : Prop :=
  bus_ok (bus w') /\ evolves (bus w) (bus w') /\ (pubs w <= pubs w')%nat /\
  exists more, calls w' = calls w ++ more /\ filter (fun c => pub c = n) more = ms /\
    Forall (fun c => (pub c < pubs w')%nat /\ (pub c = n \/ (pubs w <= pub c)%nat)) more.

Lemma evolves_trans b1 b2 b3 : evolves b1 b2 -> evolves b2 b3 -> evolves b1 b3.
Proof. intros [H1 H2] [H3 H4]. split; [lia|]. intros s Hs Ha. apply H2; [|done]. apply H4; [done|lia]. Qed.

Lemma goes_refl n w : bus_ok (bus w) -> goes n [] w w.
Proof. intros Hb. split_and!; [done|by split|done|]. exists []. by rewrite app_nil_r. Qed.

Lemma goes_trans n ms1 ms2 w1 w2 w3 : goes n ms1 w1 w2 -> goes n ms2 w2 w3 -> goes n (ms1 ++ ms2) w1 w3.
Proof.
  intros (_ & E1 & P1 & m1 & C1 & F1 & A1) (B2 & E2 & P2 & m2 & C2 & F2 & A2). split_and!; [done|by eapply evolves_trans|lia|].
  exists (m1 ++ m2). rewrite C2, C1, app_assoc, filter_app, F1, F2. split_and!; [done..|]. apply Forall_app. split; [eapply Forall_impl; [exact A1|]|eapply Forall_impl; [exact A2|]]; cbn; lia.
Qed.

(** A nested publication is later than the one it is in. *)
Lemma goes_nested n m ms w w' : (n < pubs w)%nat -> m = pubs w -> goes m ms w w' -> goes n [] w w'.
Proof.
  intros Hn -> (B & E & P & more & C & F & A). split_and!; [done..|]. exists more. split_and!; [done| |].
  - apply filter_none. eapply Forall_impl; [exact A|]. cbn. lia.
  - eapply Forall_impl; [exact A|]. cbn. lia.
Qed.

Lemma goes_bus n b' w : bus_ok b' -> evolves (bus w) b' -> goes n [] w (with_bus b' w).
Proof. intros Hb He. split_and!; [done..|]. exists []. by rewrite app_nil_r. Qed.

Lemma evolves_subscribe t cb prio b : evolves b (subscribe t cb prio b).2.
Proof.
  split; [cbn; lia|]. intros s. rewrite subscribe_subs. intros [->|Hs]%elem_of_cons Ha; [cbn in Ha; lia|done].
Qed.

Lemma evolves_unsubscribe i b : evolves b (unsubscribe i b).
Proof. destruct (unsubscribe_subs i b) as [Hs Ha]. split; [by rewrite Ha|]. intros s Hin _. by eapply elem_of_submseteq. Qed.

Lemma evolves_clear b : evolves b (clear b).
Proof. split; [done|]. intros s Hs. by apply not_elem_of_nil in Hs. Qed.

Context (react : list call -> Z -> Event -> list op * ending).

Section Nested.
Context (nested : type_index -> Event -> Z -> world -> result).
Context (Hnested : forall t e now w, bus_ok (bus w) ->
  match nested t e now w with Completed _ w' | Threw w' => exists ms, goes (pubs w) ms w w' | _ => True end).

Definition ends_in (n : nat) (r : result) w : Prop :=
  match r with Completed _ w' | Threw w' => goes n [] w w' | _ => True end.

Lemma ends_trans n r w w1 : goes n [] w w1 -> ends_in n r w1 -> ends_in n r w.
Proof. intros Hg. destruct r as [e' w'|w'| |]; cbn; intros Hr; [exact (goes_trans n [] [] _ _ _ Hg Hr)..|done|done]. Qed.

Lemma do_ops_goes n ops e w : (n < pubs w)%nat -> bus_ok (bus w) -> ends_in n (do_ops nested ops e w) w.
Proof.
  revert e w. induction ops as [|o ops IH]; intros e w Hn Hb; cbn [do_ops]; [by apply goes_refl|].
  destruct o as [t cb prio|i|t e' now guarded| |].
  - eapply ends_trans; [apply goes_bus|apply IH; [done|]]; [by apply subscribe_ok|apply evolves_subscribe|by apply subscribe_ok].
  - eapply ends_trans; [apply goes_bus|apply IH; [done|]]; [by apply unsubscribe_ok|apply evolves_unsubscribe|by apply unsubscribe_ok].
  - pose proof (Hnested t e' now w Hb) as Hp. destruct (nested t e' now w) as [e1 w1|w1| |]; [..|done|done]; destruct Hp as [ms Hg%(goes_nested n _ _ _ _ Hn eq_refl)].
    + eapply ends_trans; [exact Hg|]. destruct Hg as (? & _ & ? & _). apply IH; [lia|done].
    + destruct guarded; [|exact Hg]. eapply ends_trans; [exact Hg|]. destruct Hg as (? & _ & ? & _). apply IH; [lia|done].
  - eapply ends_trans; [apply goes_bus|apply IH; [done|]]; [by apply clear_ok|apply evolves_clear|by apply clear_ok].
  - by apply IH.
Qed.

Lemma do_ops_event ops e w e' w' : do_ops nested ops e w = Completed e' w' -> e' = e \/ e' = cancel e.
Proof.
  revert e w. induction ops as [|o ops IH]; intros e w Ho; cbn [do_ops] in Ho; [injection Ho as <- <-; by left|].
  destruct o as [t cb prio|i|t e1 now guarded| |]; [by eapply IH..| |by eapply IH|right; destruct (IH _ _ Ho) as [->| ->]; done].
  destruct (nested t e1 now w) as [e2 w2|w2| |]; try done; [by eapply IH|]. destruct guarded; [by eapply IH|done].
Qed.

(** One handler: one call of this publication, if it has a function. *)
Definition call_of (n : nat) (e : Event) s : list call := match callback s with Some cb => [mkCall n cb e] | None => [] end.

Lemma goes_logged n cb e w w' : (n < pubs w)%nat -> bus_ok (bus w) -> goes n [] (logged (mkCall n cb e) w) w' -> goes n [mkCall n cb e] w w'.
Proof.
  intros Hn Hb Hg. assert (goes n [mkCall n cb e] w (logged (mkCall n cb e) w)) as H1; [|exact (goes_trans n [_] [] _ _ _ H1 Hg)].
  split_and!; [done|by split|done|]. exists [mkCall n cb e]. split_and!; [done|cbn; by rewrite decide_True by done|]. apply Forall_cons. split; [|done]. cbn. lia.
Qed.

Lemma invoke_goes n s e w : (n < pubs w)%nat -> bus_ok (bus w) ->
  match invoke react nested n s e w with
  | Completed e' w' => goes n (call_of n e s) w w' /\ (e' = e \/ e' = cancel e)
  | Threw w' => goes n (call_of n e s) w w'
  | _ => True
  end.
Proof.
  intros Hn Hb. unfold invoke, call_of. destruct (callback s) as [cb|]; [|split; [by apply goes_refl|by left]].
  destruct (react (calls w) cb e) as [ops ends]. pose proof (do_ops_goes n ops e (logged (mkCall n cb e) w) Hn Hb) as Hg.
  pose proof (do_ops_event ops e (logged (mkCall n cb e) w)) as He.
  destruct (do_ops nested ops e _) as [e' w'|w'| |]; [..|done|done]; cbn in Hg; apply goes_logged in Hg; try done; destruct (alive s w'); [|done|done|done].
  destruct ends; [split; [done|by eapply He]..|done].
Qed.

(** The subscribers a publication was to call, as far as they are still there. *)
Definition known (snap : list Subscriber) w : Prop :=
  Forall (fun s => (addr s < allocated (bus w))%nat) snap /\
  forall s s', s ∈ snap -> s' ∈ all_subs (bus w) -> addr s' = addr s -> s' = s.

Lemma known_goes n ms snap w w' : known snap w -> goes n ms w w' -> known snap w'.
Proof.
  intros [K1 K2] (_ & [E1 E2] & _). split; [eapply Forall_impl; [exact K1|]; cbn; lia|].
  intros s s' Hs Hs' Ha. apply K2; [done| |done]. apply E2; [done|]. rewrite Ha. rewrite Forall_forall in K1. by apply K1.
Qed.

Lemma run_handlers_goes n snap e w : (n < pubs w)%nat -> bus_ok (bus w) -> known snap w ->
  match run_handlers react nested n (addr <$> snap) e w with
  | Completed e' w' => exists called_ rest, snap = called_ ++ rest /\ goes n (called_ ≫= call_of n e) w w' /\
      (rest = [] /\ e' = e \/ cancelled e' = true)
  | Threw w' => exists called_ rest, snap = called_ ++ rest /\ goes n (called_ ≫= call_of n e) w w'
  | _ => True
  end.
Proof.
  revert w. induction snap as [|s snap IH]; intros w Hn Hb Hk; cbn [run_handlers fmap list_fmap].
  { exists [], []. split_and!; [done|by apply goes_refl|by left]. }
  destruct (cancelled e) eqn:Ec. { exists [], (s :: snap). split_and!; [done|by apply goes_refl|by right]. }
  destruct (find_at (addr s) (bus w)) as [s'|] eqn:Ef; [|done]. apply find_at_spec in Ef as [Hin Ha]; [|done].
  assert (s' = s) as -> by (apply Hk; [by apply list_elem_of_here|done..]).
  pose proof (invoke_goes n s e w Hn Hb) as Hi. destruct (invoke react nested n s e w) as [e1 w1|w1| |]; [| |done|done].
  - destruct Hi as [Hg [->| ->]].
    + assert (known snap w1) as Hk1. { eapply known_goes; [|exact Hg]. destruct Hk as [K1 K2]. split; [by apply Forall_cons in K1 as [_ ?]|]. intros x y Hx. apply K2. by right. }
      destruct Hg as (Hb1 & Hg'). pose proof (conj Hb1 Hg' : goes n (call_of n e s) w w1) as Hg. destruct Hg' as (_ & Hp & _).
      specialize (IH w1 ltac:(lia) Hb1 Hk1). destruct (run_handlers react nested n (addr <$> snap) e w1) as [e2 w2|w2| |]; [| |done|done].
      * destruct IH as (cl & rest & -> & Hg2 & He). exists (s :: cl), rest. split_and!; [done| |done]. by eapply goes_trans.
      * destruct IH as (cl & rest & -> & Hg2). exists (s :: cl), rest. split; [done|]. by eapply goes_trans.
    + destruct snap as [|s2 snap]; cbn [run_handlers fmap list_fmap]; (exists [s]; eexists; split_and!; [done|cbn; by rewrite app_nil_r|by right]).
  - exists [s], snap. split; [done|]. cbn. by rewrite app_nil_r.
Qed.
End Nested.

Definition stamped (e : Event) (now : Z) : Event := if timestamp e =? 0 then set_timestamp now e else e.

Lemma goes_counted m ms w w' : m = pubs w -> goes m ms (mkWorld (bus w) (calls w) (S (pubs w))) w' -> goes m ms w w'.
Proof.
  intros -> (B & E & P & more & C & F & A). cbn in *. split_and!; [done..|lia|]. exists more. split_and!; [done..|].
  eapply Forall_impl; [exact A|]. cbn. lia.
Qed.

Lemma snapshot_known t w : bus_ok (bus w) -> known (subs_of t (bus w)) w.
Proof.
  intros (H1 & H2 & H3 & _). assert (forall s, s ∈ subs_of t (bus w) -> s ∈ all_subs (bus w)) as Hin by (intros s Hs; apply elem_of_flat; by exists t).
  split; [apply Forall_forall; intros s Hs; by apply H3, Hin|]. intros s s' Hs%Hin Hs' Ha.
  apply list_elem_of_lookup_1 in Hs as [x Hx], Hs' as [y Hy]. assert (y = x) as ->; [|congruence].
  apply (NoDup_lookup (addr <$> all_subs (bus w)) _ _ (addr s) H2); rewrite list_lookup_fmap; [rewrite Hy|rewrite Hx]; cbn; congruence.
Qed.

Lemma publish_goes fuel t e now w : bus_ok (bus w) ->
  match publish react fuel t e now w with
  | Completed e' w' => exists called_ rest, subs_of t (bus w) = called_ ++ rest /\
      goes (pubs w) (called_ ≫= call_of (pubs w) (stamped e now)) w w' /\ (rest = [] /\ e' = stamped e now \/ cancelled e' = true)
  | Threw w' => exists called_ rest, subs_of t (bus w) = called_ ++ rest /\ goes (pubs w) (called_ ≫= call_of (pubs w) (stamped e now)) w w'
  | _ => True
  end.
Proof.
  revert t e now w. induction fuel as [|fuel IH]; intros t e now w Hb; cbn [publish]; [done|].
  fold (stamped e now).
  match goal with |- match run_handlers _ ?nest ?n _ ?e1 ?w0 with _ => _ end => pose proof (run_handlers_goes nest) as Hr; specialize (fun H => Hr H n (subs_of t (bus w)) e1 w0) end.
  cbn [bus pubs] in Hr. specialize (Hr ltac:(intros t' e' now' w' Hb'; specialize (IH t' e' now' w' Hb'); destruct (publish react fuel t' e' now' w'); [destruct IH as (? & ? & _ & ? & _); eauto|destruct IH as (? & ? & _ & ?); eauto|done|done])).
  specialize (Hr ltac:(lia) Hb (snapshot_known t w Hb)).
  destruct (run_handlers _ _ _ _ _ _) as [e' w'|w'| |]; [..|done|done].
  - destruct Hr as (cl & rest & ? & Hg & ?). exists cl, rest. split_and!; [done|by apply goes_counted|done].
  - destruct Hr as (cl & rest & ? & Hg). exists cl, rest. split; [done|by apply goes_counted].
Qed.

(** After some history of subscriptions and publications by the program. *)
Definition world_init : world := mkWorld EventBus_init [] 1.
Definition history (w : world) : Prop := exists fuel ops e0 e1, do_ops (publish react fuel) ops e0 world_init = Completed e1 w.

Lemma publish_nested_goes fuel t e now w : bus_ok (bus w) ->
  match publish react fuel t e now w with Completed _ w' | Threw w' => exists ms, goes (pubs w) ms w w' | _ => True end.
Proof.
  intros Hb. pose proof (publish_goes fuel t e now w Hb) as Hp. destruct (publish react fuel t e now w); [..|done|done].
  - destruct Hp as (? & ? & _ & ? & _). eauto.
  - destruct Hp as (? & ? & _ & ?). eauto.
Qed.

Lemma history_ok w : history w -> bus_ok (bus w) /\ Forall (fun c => (pub c < pubs w)%nat) (calls w).
Proof.
  intros (fuel & ops & e0 & e1 & Hh). pose proof (do_ops_goes _ (publish_nested_goes fuel) 0 ops e0 world_init ltac:(cbn; lia) init_bus_ok) as Hg.
  rewrite Hh in Hg. destruct Hg as (Hb & _ & _ & more & -> & _ & A). split; [done|]. eapply Forall_impl; [exact A|]. cbn. lia.
Qed.

(** C25: Whatever has been done on the bus before and whatever the handlers do on it (they
    subscribe, publish, throw), a publication that completes has called the handlers that
    were subscribed when it began, each once and in descending order of priority, with the
    event stamped; it stops short only if the event is cancelled. *)
Theorem publish_exact fuel t e now w e' w' : history w -> publish react fuel t e now w = Completed e' w' ->
  StronglySorted before (subs_of t (bus w)) /\
  exists called_ rest, subs_of t (bus w) = called_ ++ rest /\
    filter (fun c => pub c = pubs w) (calls w') = (called_ ≫= call_of (pubs w) (stamped e now)) /\
    (rest = [] /\ e' = stamped e now \/ cancelled e' = true).
Proof.
  intros [Hb Hc]%history_ok Hp. split; [apply Hb|]. pose proof (publish_goes fuel t e now w Hb) as Hg. rewrite Hp in Hg.
  destruct Hg as (cl & rest & Hs & (_ & _ & _ & more & -> & Hf & _) & He). exists cl, rest. split_and!; [done| |done].
  rewrite filter_app, Hf, filter_none; [done|]. eapply Forall_impl; [exact Hc|]. cbn. lia.
Qed.

(** *** No handler destroyed *)

Definition keeps (o : op) : bool := match o with Unsubscribe _ | Clear => false | _ => true end.

(** Defined, and with every subscriber still there. *)
Definition safe_from w (r : result) : Prop :=
  match r with
  | Completed _ w' | Threw w' => bus_ok (bus w') /\ forall s, s ∈ all_subs (bus w) -> s ∈ all_subs (bus w')
  | Undefined => False
  | OutOfFuel => True
  end.

Lemma safe_trans w w1 r : (forall s, s ∈ all_subs (bus w) -> s ∈ all_subs (bus w1)) -> safe_from w1 r -> safe_from w r.
Proof. intros H. destruct r; cbn; [intros [? ?]; auto..|done|done]. Qed.

Section Keeping.
Context (Hkeep : forall cs cb e, forallb keeps (react cs cb e).1 = true).

Lemma safe_ops nested ops e w : (forall t e now w, bus_ok (bus w) -> safe_from w (nested t e now w)) ->
  forallb keeps ops = true -> bus_ok (bus w) -> safe_from w (do_ops nested ops e w).
Proof.
  intros Hn. revert e w. induction ops as [|o ops IH]; intros e w Ho Hb; cbn [do_ops]; [done|].
  apply andb_prop in Ho as [H1 H2]. destruct o as [t cb prio|i|t e1 now guarded| |]; try done.
  - eapply safe_trans; [|apply IH; [done|by apply subscribe_ok]]. intros s Hs. cbn [bus with_bus]. rewrite subscribe_subs. by right.
  - pose proof (Hn t e1 now w Hb) as Hs. destruct (nested t e1 now w) as [e2 w2|w2| |]; [| |done|done]; destruct Hs as [Hb2 Hs].
    + eapply safe_trans; [exact Hs|by apply IH].
    + destruct guarded; [|done]. eapply safe_trans; [exact Hs|by apply IH].
  - by apply IH.
Qed.

Lemma present_alive s w : bus_ok (bus w) -> s ∈ all_subs (bus w) -> find_at (addr s) (bus w) = Some s.
Proof. intros Hb Hs. by apply find_at_spec. Qed.

Lemma safe_handlers nested n snap e w : (forall t e now w, bus_ok (bus w) -> safe_from w (nested t e now w)) ->
  bus_ok (bus w) -> Forall (fun s => s ∈ all_subs (bus w)) snap -> safe_from w (run_handlers react nested n (addr <$> snap) e w).
Proof.
  intros Hn. revert e w. induction snap as [|s snap IH]; intros e w Hb Hs; cbn [run_handlers fmap list_fmap]; [done|].
  destruct (cancelled e); [done|]. apply Forall_cons in Hs as [Hs Hsn]. rewrite (present_alive s w Hb Hs).
  assert (safe_from w (invoke react nested n s e w)) as Hi.
  { unfold invoke. destruct (callback s) as [cb|]; [|done]. pose proof (Hkeep (calls w) cb e) as Hk. destruct (react (calls w) cb e) as [ops ends].
    pose proof (safe_ops nested ops e (logged (mkCall n cb e) w) Hn Hk Hb) as Ho.
    destruct (do_ops nested ops e _) as [e1 w1|w1| |]; [| |done|done]; destruct Ho as [Hb1 Ho]; unfold alive; rewrite (present_alive s w1 Hb1 (Ho s Hs)).
    - rewrite bool_decide_true by done. by destruct ends.
    - by rewrite bool_decide_true by done. }
  destruct (invoke react nested n s e w) as [e1 w1|w1| |]; [|done..]. destruct Hi as [Hb1 Hi]. eapply safe_trans; [exact Hi|]. apply IH; [done|].
  eapply Forall_impl; [exact Hsn|]. auto.
Qed.

Lemma safe_publish fuel t e now w : bus_ok (bus w) -> safe_from w (publish react fuel t e now w).
Proof.
  revert t e now w. induction fuel as [|fuel IH]; intros t e now w Hb; cbn [publish]; [done|].
  eapply (safe_trans w (mkWorld (bus w) (calls w) (S (pubs w)))); [done|]. apply safe_handlers; [exact IH|exact Hb|].
  apply Forall_forall. intros s Hs. apply elem_of_flat. by exists t.
Qed.
End Keeping.

(** As long as handlers only subscribe, publish and cancel, however deeply nested, no
    publication uses a destroyed handler. *)
Theorem publish_defined (Hkeep : forall cs cb e, forallb keeps (react cs cb e).1 = true) fuel t e now w :
  history w -> publish react fuel t e now w <> Undefined.
Proof. intros [Hb _]%history_ok Hp. pose proof (safe_publish Hkeep fuel t e now w Hb) as Hs. by rewrite Hp in Hs. Qed.

(** *** Identifiers *)

Lemma id_inj b s s' : bus_ok b -> Z.of_nat (allocated b) < 2 ^ 64 -> s ∈ all_subs b -> s' ∈ all_subs b -> id s = id s' -> s = s'.
Proof.
  intros Hb Hal Hs Hs' Hi. pose proof Hb as (_ & _ & H3 & _). destruct (H3 s Hs) as [Ha Hid], (H3 s' Hs') as [Ha' Hid'].
  assert (addr s = addr s') as Haddr.
  { rewrite Hid, Hid' in Hi. unfold u64, uwrap in Hi.
    assert (forall z, 0 < z <= 2 ^ 64 -> z mod 2 ^ 64 = if z =? 2 ^ 64 then 0 else z) as Hm.
    { intros z Hz. destruct (z =? 2 ^ 64) eqn:E; breflect; [rewrite E; by apply Z.mod_same|apply Z.mod_small; lia]. }
    rewrite !Hm in Hi by lia. repeat case_match; breflect; lia. }
  assert (find_at (addr s) b = Some s) as F1 by by apply find_at_spec.
  assert (find_at (addr s) b = Some s') as F2 by by apply find_at_spec. congruence.
Qed.

Lemma all_of t b s : s ∈ subs_of t b -> s ∈ all_subs b.
Proof. intros Hs. apply elem_of_flat. by exists t. Qed.

Lemma filter_middle i (l1 l2 : list Subscriber) s : id s = i -> Forall (fun s => id s <> i) (l1 ++ l2) -> filter (fun s => id s <> i) (l1 ++ s :: l2) = l1 ++ l2.
Proof. intros Hi [H1 H2]%Forall_app. rewrite filter_app, filter_cons_False by tauto. by rewrite !filter_all. Qed.

Lemma unsubscribe_filters i b t : bus_ok b -> Z.of_nat (allocated b) < 2 ^ 64 ->
  subs_of t (unsubscribe i b) = filter (fun s => id s <> i) (subs_of t b).
Proof.
  intros Hb Ha. destruct (unsubscribe_cases i b) as [[-> Hn]|(t1 & l1 & s & l2 & Hs & Hi & Hf & ->)].
  - rewrite filter_all; [done|]. apply Forall_forall. intros s Hs. by apply Hn, (all_of t).
  - pose proof (remove_subs b t1 l1 s l2 Hs) as Hrem. set (b1 := mkBus _ _ _) in *.
    assert (forall s', s' ∈ all_subs b1 -> id s' <> i) as Hothers.
    { intros s' Hs' Hi'. assert (s' = s) as -> by (apply (id_inj b); [done|done|rewrite Hrem; by right|rewrite Hrem; by left|congruence]).
      destruct Hb as (_ & Hnd & _). rewrite Hrem in Hnd. cbn in Hnd. apply NoDup_cons in Hnd as [Hnd _]. apply Hnd. by apply list_elem_of_fmap_2. }
    assert (Forall (fun s => id s <> i) (subs_of t b1)) as Hall by (apply Forall_forall; intros s' Hs'; by apply Hothers, (all_of t)).
    unfold subs_of in *. cbn in *. destruct (decide (t = t1)) as [->|Hne].
    + rewrite Hs. rewrite lookup_insert_eq in *. cbn in *. symmetry. by apply filter_middle.
    + rewrite lookup_insert_ne in * by done. by rewrite filter_all.
Qed.

Lemma count_length b : subscriber_count b = Z.of_nat (length (all_subs b)).
Proof.
  unfold subscriber_count, all_subs, flat. rewrite (sumZ_perm _ _ _ (iter_perm (subscribers_ b))).
  induction (map_to_list (subscribers_ b)) as [|p l IH]; [done|]. rewrite sumZ_cons, IH. cbn. rewrite length_app. lia.
Qed.

(** Subscribing returns an identifier nobody has and adds one subscriber to its type;
    unsubscribing takes out the one with the identifier and nothing else; the two undo each
    other, up to the order of equal priorities. *)
Theorem subscriptions_exact w t cb prio i : history w -> Z.of_nat (allocated (bus w)) < 2 ^ 64 - 1 ->
  let '(i1, b1) := subscribe t cb prio (bus w) in
  (forall s, s ∈ all_subs (bus w) -> id s <> i1) /\
  subs_of t b1 ≡ₚ mkSubscriber i1 prio cb (allocated (bus w)) :: subs_of t (bus w) /\
  subscriber_count b1 = subscriber_count (bus w) + 1 /\
  (forall t', subs_of t' (unsubscribe i (bus w)) = filter (fun s => id s <> i) (subs_of t' (bus w))) /\
  (forall t', subs_of t' (unsubscribe i1 b1) ≡ₚ subs_of t' (bus w)).
Proof.
  intros [Hb _]%history_ok Ha. destruct (subscribe t cb prio (bus w)) as [i1 b1] eqn:Es.
  pose proof (subscribe_subs t cb prio (bus w)) as Hsub. pose proof (subscribe_ok t cb prio (bus w) Hb) as Hb1. rewrite Es in Hsub, Hb1. cbn in Hsub, Hb1.
  assert (i1 = next_id_ (bus w)) as Hi1 by by injection Es. assert (allocated b1 = S (allocated (bus w))) as Hal by by injection Es as _ <-.
  assert (forall t', subs_of t' b1 ≡ₚ (if decide (t' = t) then [mkSubscriber i1 prio cb (allocated (bus w))] else []) ++ subs_of t' (bus w)) as Hof.
  { intros t'. injection Es as _ <-. unfold subs_of. cbn. case_decide as Hd; [subst t'|by rewrite lookup_insert_ne].
    rewrite lookup_insert_eq. cbn. rewrite priority_sort_perm, Hi1. solve_Permutation. }
  assert (forall s, s ∈ all_subs (bus w) -> id s <> i1) as Hfresh.
  { intros s Hs Hi. assert (s = mkSubscriber (next_id_ (bus w)) prio cb (allocated (bus w))) as ->.
    { apply (id_inj b1 _ _ Hb1); [lia|rewrite Hsub; by right|rewrite Hsub; by left|cbn; congruence]. }
    destruct Hb as (_ & _ & H3 & _). apply H3 in Hs. cbn in Hs. lia. }
  split_and!.
  - exact Hfresh.
  - rewrite Hof. by rewrite decide_True.
  - rewrite !count_length, Hsub. cbn [length]. lia.
  - intros t'. apply unsubscribe_filters; [done|lia].
  - intros t'. rewrite unsubscribe_filters, Hof by (done || lia). rewrite filter_app. rewrite (filter_all _ (subs_of t' (bus w))).
    + case_decide; [|done]. rewrite filter_cons_False; [done|]. cbn. tauto.
    + apply Forall_forall. intros s Hs. by apply Hfresh, (all_of t').
Qed.

(** A handler that unsubscribes the next one, or itself, makes the publication use a
    destroyed handler. *)
Theorem unsubscribe_in_handler_undefined w t e now s1 s2 rest cb i ends fuel : history w -> Z.of_nat (allocated (bus w)) < 2 ^ 64 ->
  subs_of t (bus w) = s1 :: s2 :: rest -> cancelled e = false -> callback s1 = Some cb ->
  react (calls w) cb (stamped e now) = ([Unsubscribe i], ends) -> ends <> ThrowsOther -> i = id s1 \/ i = id s2 ->
  publish react (S fuel) t e now w = Undefined.
Proof.
  intros [Hb _]%history_ok Ha Hs He Hcb Hr Hends Hi. cbn [publish]. fold (stamped e now). rewrite Hs. cbn [fmap list_fmap run_handlers].
  assert (cancelled (stamped e now) = false) as Hst by (unfold stamped; by case_match). rewrite Hst.
  assert (s1 ∈ all_subs (bus w) /\ s2 ∈ all_subs (bus w)) as [H1 H2] by (split; apply (all_of t); rewrite Hs; [by left|right; by left]).
  cbn [bus]. rewrite (present_alive s1 w Hb H1). unfold invoke. rewrite Hcb. cbn [calls]. rewrite Hr. cbn [do_ops].
  assert (forall s, s ∈ all_subs (bus w) -> id s = i -> find_at (addr s) (unsubscribe i (bus w)) = None) as Hgone.
  { intros s Hin Hid. destruct (find_at (addr s) _) as [s'|] eqn:E; [exfalso|done]. apply find_at_spec in E as [Hs' Haddr]; [|by apply unsubscribe_ok].
    pose proof Hs' as [t' Ht']%elem_of_flat. change (default [] _) with (subs_of t' (unsubscribe i (bus w))) in Ht'.
    rewrite unsubscribe_filters in Ht' by done. apply list_elem_of_filter in Ht' as [Hne Ht']. apply Hne. rewrite <- Hid.
    f_equal. apply all_of in Ht'. assert (find_at (addr s) (bus w) = Some s) as F1 by by apply find_at_spec.
    assert (find_at (addr s) (bus w) = Some s') as F2 by by apply find_at_spec. congruence. }
  unfold alive. cbn [bus with_bus logged]. destruct Hi as [Hi|Hi].
  - rewrite (Hgone s1 H1 (eq_sym Hi)). done.
  - destruct (bool_decide _); [|done]. destruct ends; [..|done]; cbn [run_handlers]; rewrite Hst; cbn [bus with_bus logged]; by rewrite (Hgone s2 H2 (eq_sym Hi)).
Qed.

(** ** Publications that go down a hierarchy of types end *)

Section Hierarchy.
Context (level : type_index -> nat) (kind : Z -> type_index).

(** A callback is subscribed under its own type only, and publishes only lower ones. *)
Definition goes_down (cb : Z) (o : op) : Prop :=
  match o with
  | Publish t _ _ _ => (level t < level (kind cb))%nat
  | Subscribe t (Some cb') _ => kind cb' = t
  | _ => True
  end.
Definition kinded b : Prop := forall t s cb, s ∈ subs_of t b -> callback s = Some cb -> kind cb = t.
Context (Hdown : forall cs cb e, Forall (goes_down cb) (react cs cb e).1).

Definition ended (r : result) : Prop := match r with Completed _ w' | Threw w' => bus_ok (bus w') /\ kinded (bus w') | Undefined => True | OutOfFuel => False end.

Lemma kinded_sub b b' : kinded b -> (forall t s, s ∈ subs_of t b' -> s ∈ subs_of t b) -> kinded b'.
Proof. intros Hk Hs t s cb Hin. by apply (Hk t), Hs. Qed.

Lemma kinded_subscribe b t cb prio : kinded b -> match cb with Some cb' => kind cb' = t | None => True end -> kinded (subscribe t cb prio b).2.
Proof.
  intros Hk Hcb t' s c. unfold subs_of. cbn. destruct (decide (t' = t)) as [->|Hne]; [|rewrite lookup_insert_ne by done; apply Hk].
  rewrite lookup_insert_eq. cbn. rewrite priority_sort_perm. intros [Hs|Hs]%elem_of_app; [by apply Hk|].
  apply list_elem_of_singleton in Hs as ->. cbn. intros ->. done.
Qed.

Lemma kinded_unsubscribe i b : kinded b -> kinded (unsubscribe i b).
Proof.
  intros Hk. apply (kinded_sub b); [done|]. intros t s. destruct (unsubscribe_cases i b) as [[-> _]|(t1 & l1 & x & l2 & Hs & _ & _ & ->)]; [done|].
  unfold subs_of in *. cbn. destruct (decide (t = t1)) as [->|Hne]; [|by rewrite lookup_insert_ne]. rewrite lookup_insert_eq, Hs. cbn.
  rewrite !elem_of_app, elem_of_cons. tauto.
Qed.

Lemma ops_end nested cb ops e w : (forall t e now w, (level t < level (kind cb))%nat -> bus_ok (bus w) -> kinded (bus w) -> ended (nested t e now w)) ->
  Forall (goes_down cb) ops -> bus_ok (bus w) -> kinded (bus w) -> ended (do_ops nested ops e w).
Proof.
  intros Hn Ho. revert e w. induction Ho as [|o ops Ho _ IH]; intros e w Hb Hk; cbn [do_ops]; [by split|].
  destruct o as [t c prio|i|t e1 now guarded| |]; cbn in Ho.
  - apply IH; [by apply subscribe_ok|by apply kinded_subscribe].
  - apply IH; [by apply unsubscribe_ok|by apply kinded_unsubscribe].
  - pose proof (Hn t e1 now w Ho Hb Hk) as Hs. destruct (nested t e1 now w) as [e2 w2|w2| |]; [| |done|done]; destruct Hs as [Hb2 Hk2].
    + by apply IH.
    + destruct guarded; [by apply IH|done].
  - apply IH; [by apply clear_ok|]. intros t s c Hs. by apply not_elem_of_nil in Hs.
  - by apply IH.
Qed.

Lemma handlers_end nested t n snap e w :
  (forall t' e now w, bus_ok (bus w) -> match nested t' e now w with Completed _ w' | Threw w' => exists ms, goes (pubs w) ms w w' | _ => True end) ->
  (forall t' e now w, (level t' < level t)%nat -> bus_ok (bus w) -> kinded (bus w) -> ended (nested t' e now w)) ->
  (n < pubs w)%nat -> bus_ok (bus w) -> kinded (bus w) -> known snap w -> Forall (fun s => forall cb, callback s = Some cb -> kind cb = t) snap ->
  ended (run_handlers react nested n (addr <$> snap) e w).
Proof.
  intros Hg Hn. revert e w. induction snap as [|s snap IH]; intros e w Hlt Hb Hk Hkn Hs; cbn [run_handlers fmap list_fmap]; [by split|].
  destruct (cancelled e); [by split|]. destruct (find_at (addr s) (bus w)) as [s'|] eqn:Ef; [|done]. apply find_at_spec in Ef as [Hin Ha]; [|done].
  assert (s' = s) as -> by (apply Hkn; [by apply list_elem_of_here|done..]). apply Forall_cons in Hs as [Hcb Hs].
  pose proof (invoke_goes nested Hg n s e w Hlt Hb) as Hi.
  assert (ended (invoke react nested n s e w)) as He.
  { unfold invoke. destruct (callback s) as [cb|]; [|by split]. specialize (Hcb cb eq_refl). pose proof (Hdown (calls w) cb e) as Hd.
    destruct (react (calls w) cb e) as [ops ends]. cbn in Hd. subst t. pose proof (ops_end nested cb ops e (logged (mkCall n cb e) w) Hn Hd Hb Hk) as Ho.
    destruct (do_ops nested ops e _) as [e1 w1|w1| |]; [| |done|done]; destruct (alive s w1); try done. by destruct ends. }
  destruct (invoke react nested n s e w) as [e1 w1|w1| |]; [|done..]. destruct Hi as [Hi _], He as [Hb1 Hk1].
  apply IH; [destruct Hi as (_ & _ & ? & _); lia|done..| |done]. eapply known_goes; [|exact Hi]. destruct Hkn as [K1 K2].
  split; [by apply Forall_cons in K1 as [_ ?]|]. intros x y Hx. apply K2. by right.
Qed.

(** When callbacks publish only events of lower types than their own, every publication
    ends: a depth of one more than the type's level is enough. *)
Theorem publish_terminates fuel t e now w : history w -> kinded (bus w) -> (level t < fuel)%nat ->
  publish react fuel t e now w <> OutOfFuel.
Proof.
  intros [Hb _]%history_ok Hk Hf. enough (ended (publish react fuel t e now w)) as He by by intros Hp; rewrite Hp in He.
  revert t e now w Hb Hk Hf. induction fuel as [|fuel IH]; intros t e now w Hb Hk Hf; [lia|]. cbn [publish].
  apply (handlers_end _ t).
  - intros t' e' now' w' Hb'. by apply publish_nested_goes.
  - intros t' e' now' w' Hl Hb' Hk'. apply IH; [done..|lia].
  - cbn. lia.
  - exact Hb.
  - exact Hk.
  - exact (snapshot_known t w Hb).
  - apply Forall_forall. intros s Hs cb. by apply Hk.
Qed.
End Hierarchy.
End Facts.

(** ** Examples *)

Section Demo.
#[local] Instance demo_order : IterOrder Z := key_order Z.
#[local] Instance before_trans : Transitive before.
Proof. unfold before. intros a b c. lia. Qed.
#[local] Instance before_total : Total before.
Proof. unfold before. intros a b. lia. Qed.
#[local] Instance demo_sort : PrioritySort :=
  {| priority_sort := merge_sort before; priority_sort_perm := merge_sort_Permutation before; priority_sort_sorted := StronglySorted_merge_sort before |}.

Definition login : Event := mkEvent 0 false (LoginEvent 7 "p" true).

(** Callback 1 subscribes another, 2 throws, 3 does nothing. *)
Definition polite (_ : list call) (cb : Z) (_ : Event) : list op * ending :=
  if cb =? 1 then ([Subscribe 5 (Some 4) 9], Returns) else if cb =? 2 then ([], ThrowsStd) else ([], Returns).
(** Each unsubscribes the second subscriber. *)
Definition rude (_ : list call) (_ : Z) (_ : Event) : list op * ending := ([Unsubscribe 2], Returns).

Definition demo_ops : list op := [Subscribe 5 (Some 1) 10; Subscribe 5 (Some 2) 7; Subscribe 5 (Some 3) 8].
Definition demo_world : world :=
  mkWorld (subscribe 5 (Some 3) 8 (subscribe 5 (Some 2) 7 (subscribe 5 (Some 1) 10 EventBus_init).2).2).2 [] 1.
Definition rude_world : world := mkWorld (subscribe 5 (Some 2) 7 (subscribe 5 (Some 1) 10 EventBus_init).2).2 [] 1.

Lemma demo_history react : history react demo_world.
Proof. exists 0%nat, demo_ops, login, login. reflexivity. Qed.

Lemma rude_history react : history react rude_world.
Proof. exists 0%nat, (take 2 demo_ops), login, login. reflexivity. Qed.

Definition completed_with (r : result) : option (list Z) := match r with Completed _ w => Some (called <$> calls w) | _ => None end.

Lemma demo_publish : completed_with (publish polite 1 5 login 99 demo_world) = Some [1; 3; 2].
Proof. vm_compute. reflexivity. Qed.

Lemma publish_exact_witness : exists e' w', publish polite 1 5 login 99 demo_world = Completed e' w' /\
  StronglySorted before (subs_of 5 (bus demo_world)).
Proof.
  destruct (publish polite 1 5 login 99 demo_world) as [e' w'|w'| |] eqn:E; [|by pose proof demo_publish as H; rewrite E in H..].
  exists e', w'. split; [reflexivity|]. exact (proj1 (publish_exact polite 1 5 login 99 demo_world e' w' (demo_history polite) E)).
Defined.

Lemma polite_keeps cs cb e : forallb keeps (polite cs cb e).1 = true.
Proof. unfold polite. by repeat case_match. Qed.

Lemma publish_defined_witness : publish polite 3 5 login 99 demo_world <> Undefined.
Proof. apply (publish_defined polite polite_keeps 3 5 login 99 demo_world (demo_history polite)). Defined.

Lemma subscriptions_exact_witness : subscriber_count (subscribe 6 None 1 (bus demo_world)).2 = 4.
Proof.
  pose proof (subscriptions_exact polite demo_world 6 None 1 2 (demo_history polite) ltac:(cbn; lia)) as H.
  rewrite (surjective_pairing (subscribe 6 None 1 (bus demo_world))) in H. cbv beta iota zeta in H. destruct H as (_ & _ & -> & _). vm_compute. reflexivity.
Defined.

Lemma unsubscribe_in_handler_undefined_witness : publish rude 1 5 login 99 rude_world = Undefined.
Proof.
  refine (unsubscribe_in_handler_undefined rude rude_world 5 login 99 (mkSubscriber 1 10 (Some 1) 0) (mkSubscriber 2 7 (Some 2) 1) [] 1 2 Returns 0
    (rude_history rude) ltac:(cbn; lia) _ _ _ _ ltac:(done) ltac:(by right)); vm_compute; reflexivity.
Defined.

Lemma polite_down cs cb e : Forall (goes_down (fun _ => 0%nat) (fun _ => 5) cb) (polite cs cb e).1.
Proof. unfold polite. repeat case_match; simplify_eq/=; repeat constructor. Qed.

Lemma demo_kinded : kinded (fun _ => 5) (bus demo_world).
Proof.
  intros t s cb Hs _. destruct (decide (t = 5)) as [->|Hne]; [done|]. exfalso. revert Hs. unfold subs_of. cbn -[priority_sort].
  rewrite !lookup_insert_ne by done. rewrite lookup_empty. apply not_elem_of_nil.
Qed.

Lemma publish_terminates_witness : publish polite 1 5 login 99 demo_world <> OutOfFuel.
Proof.
  apply (publish_terminates polite (fun _ => 0%nat) (fun _ => 5) polite_down 1 5 login 99 demo_world (demo_history polite) demo_kinded). lia.
Defined.
End Demo.
