(* ===== verification/Server.v ===== *)
(** * Server: net/tcp_server.cpp, net/tcp_connection.cpp, net/posix_io and the life of a
    Service

    The accept thread, the io threads with their read loops, threads that send and close,
    and the service's [stop] and destructor, as interleaved atomic steps over the kernel's
    table of file descriptors.  A connection is the number of its accept; so is the stream
    of the client it was accepted for. *)

From S2P Require Import Prelude.
From S2P Require Import Protocol.
From S2P Require Import Wire.

(** ** State *)

(** A connection's [TcpSocket] and flag. *)
Record conn := mkConn { fd_ : Z; closed_ : bool }.

(** What the service hears. *)
Inductive event :=
| Connected (c : nat)
| Message (c : nat) (data : list Byte.byte)
| Disconnected (c : nat).

(** A thread in [IoService::run]: before its tests; holding the mutex with nothing to do,
    about to sleep; asleep; in a connection's read loop: at its head, about to call [::read]
    on a descriptor, in that call on a stream, with data, at its end; out of [run]. *)
Inductive io_thread :=
| AtTest | AtLock | Deciding | Asleep
| AtHead (c : nat) | Reading (c : nat) (fd : Z) | InRead (c s : nat) | Delivering (c : nat) (data : list Byte.byte) | Ending (c : nat)
| Exited.

(** A thread in [TcpConnection::send], holding [send_mutex_]: with data left; about to call
    [::write]; in it. *)
Inductive sender :=
| NotSending
| Sending (c : nat) (rest : list Byte.byte) | Writing (c : nat) (fd : Z) (rest : list Byte.byte) | InWrite (c s : nat) (rest : list Byte.byte).

(** The accept thread: at the loop's test; in [poll] or [accept]; out of its loop. *)
Inductive acceptor := Testing | Polling | Ended.

(** A thread in [TcpConnection::close]: after the test of [closed_]; with it set; after
    [shutdown]; in [::close]; before [fd_ = -1]. *)
Inductive closer := NotClosing | Marking (c : nat) | Shutting (c : nat) | Closing (c : nat) | InClose (c : nat) (fd : Z) | Resetting (c : nat).

(** The thread that stops and destroys the service. *)
Inductive control := Up | JoiningAccept | Joined | IoStopped | Down | Destroyed | Gone.

Record server := mkServer {
  open_fds : gmap Z nat;        (* the kernel: descriptor to stream *)
  conns : list conn;
  connections_ : gset nat;
  accepting : acceptor;
  server_stopped : bool;
  queue_ : list nat;            (* [conn->start()] of these is posted *)
  io_stopped : bool;
  threads : list io_thread;
  senders : list sender;
  closers : list closer;
  phase : control;
  events : list event;
  reads : list (nat * nat * list Byte.byte);    (* connection, stream, bytes *)
  writes : list (nat * nat * list Byte.byte);
  sends : list (nat * list Byte.byte);          (* the messages [send] took on *)
  undefined : bool;             (* a destroyed component was called *)
  terminated : bool             (* by an exception *)
}.

(** A service after [start], with [n] io threads and threads of the program. *)
Definition started (n senders closers : nat) : server :=
  mkServer ∅ [] ∅ Testing false [] false (replicate n AtTest) (replicate senders NotSending) (replicate closers NotClosing) Up [] [] [] [] false false.

Definition with_fds (m : gmap Z nat) (x : server) : server :=
  mkServer m (conns x) (connections_ x) (accepting x) (server_stopped x) (queue_ x) (io_stopped x) (threads x) (senders x) (closers x) (phase x) (events x) (reads x) (writes x) (sends x) (undefined x) (terminated x).
Definition with_conns (l : list conn) (x : server) : server :=
  mkServer (open_fds x) l (connections_ x) (accepting x) (server_stopped x) (queue_ x) (io_stopped x) (threads x) (senders x) (closers x) (phase x) (events x) (reads x) (writes x) (sends x) (undefined x) (terminated x).
Definition with_connections (s : gset nat) (x : server) : server :=
  mkServer (open_fds x) (conns x) s (accepting x) (server_stopped x) (queue_ x) (io_stopped x) (threads x) (senders x) (closers x) (phase x) (events x) (reads x) (writes x) (sends x) (undefined x) (terminated x).
Definition with_accepting (b : acceptor) (x : server) : server :=
  mkServer (open_fds x) (conns x) (connections_ x) b (server_stopped x) (queue_ x) (io_stopped x) (threads x) (senders x) (closers x) (phase x) (events x) (reads x) (writes x) (sends x) (undefined x) (terminated x).
Definition with_queue (l : list nat) (x : server) : server :=
  mkServer (open_fds x) (conns x) (connections_ x) (accepting x) (server_stopped x) l (io_stopped x) (threads x) (senders x) (closers x) (phase x) (events x) (reads x) (writes x) (sends x) (undefined x) (terminated x).
Definition with_threads (l : list io_thread) (x : server) : server :=
  mkServer (open_fds x) (conns x) (connections_ x) (accepting x) (server_stopped x) (queue_ x) (io_stopped x) l (senders x) (closers x) (phase x) (events x) (reads x) (writes x) (sends x) (undefined x) (terminated x).
Definition with_senders (l : list sender) (x : server) : server :=
  mkServer (open_fds x) (conns x) (connections_ x) (accepting x) (server_stopped x) (queue_ x) (io_stopped x) (threads x) l (closers x) (phase x) (events x) (reads x) (writes x) (sends x) (undefined x) (terminated x).
Definition with_closers (l : list closer) (x : server) : server :=
  mkServer (open_fds x) (conns x) (connections_ x) (accepting x) (server_stopped x) (queue_ x) (io_stopped x) (threads x) (senders x) l (phase x) (events x) (reads x) (writes x) (sends x) (undefined x) (terminated x).
Definition with_phase (p : control) (x : server) : server :=
  mkServer (open_fds x) (conns x) (connections_ x) (accepting x) (server_stopped x || match p with Up => false | _ => true end) (queue_ x)
    (io_stopped x || match p with IoStopped => true | _ => false end) (threads x) (senders x) (closers x) p (events x) (reads x) (writes x) (sends x) (undefined x) (terminated x).
(** The service's callbacks go to its components. *)
Definition notify (e : event) (x : server) : server :=
  mkServer (open_fds x) (conns x) (connections_ x) (accepting x) (server_stopped x) (queue_ x) (io_stopped x) (threads x) (senders x) (closers x) (phase x) (events x ++ [e]) (reads x) (writes x) (sends x)
    (undefined x || match phase x, e with (Destroyed | Gone), (Message _ _ | Disconnected _) => true | _, _ => false end) (terminated x).
Definition log_read (r : nat * nat * list Byte.byte) (x : server) : server :=
  mkServer (open_fds x) (conns x) (connections_ x) (accepting x) (server_stopped x) (queue_ x) (io_stopped x) (threads x) (senders x) (closers x) (phase x) (events x) (reads x ++ [r]) (writes x) (sends x) (undefined x) (terminated x).
Definition log_write (r : nat * nat * list Byte.byte) (x : server) : server :=
  mkServer (open_fds x) (conns x) (connections_ x) (accepting x) (server_stopped x) (queue_ x) (io_stopped x) (threads x) (senders x) (closers x) (phase x) (events x) (reads x) (writes x ++ [r]) (sends x) (undefined x) (terminated x).
Definition log_send (r : nat * list Byte.byte) (x : server) : server :=
  mkServer (open_fds x) (conns x) (connections_ x) (accepting x) (server_stopped x) (queue_ x) (io_stopped x) (threads x) (senders x) (closers x) (phase x) (events x) (reads x) (writes x) (sends x ++ [r]) (undefined x) (terminated x).
Definition terminate (x : server) : server :=
  mkServer (open_fds x) (conns x) (connections_ x) (accepting x) (server_stopped x) (queue_ x) (io_stopped x) (threads x) (senders x) (closers x) (phase x) (events x) (reads x) (writes x) (sends x) (undefined x) true.

Definition set_thread (i : nat) (t : io_thread) (x : server) : server := with_threads (<[i := t]> (threads x)) x.
Definition set_sender (i : nat) (t : sender) (x : server) : server := with_senders (<[i := t]> (senders x)) x.
Definition set_closer (i : nat) (t : closer) (x : server) : server := with_closers (<[i := t]> (closers x)) x.
Definition mark_closed (c : nat) (x : server) : server := with_conns (alter (fun k => mkConn (fd_ k) true) c (conns x)) x.
Definition reset_fd (c : nat) (x : server) : server := with_conns (alter (fun k => mkConn (-1) (closed_ k)) c (conns x)) x.

(** ** IoService *)

(** Nobody holds [mutex_]. *)
Definition mutex_free (x : server) : bool := forallb (fun t => match t with Deciding => false | _ => true end) (threads x).

(** Who [notify_one] wakes. *)
Definition notify_one (woken : option nat) (x : server) : option server :=
  match woken with
  | Some i => match threads x !! i with Some Asleep => Some (set_thread i AtLock x) | _ => None end
  | None => if existsb (fun t => match t with Asleep => true | _ => false end) (threads x) then None else Some x
  end.

Definition wake (t : io_thread) : io_thread := match t with Asleep => AtLock | _ => t end.

(** The critical section of [run]. *)
Definition take_task (i : nat) (x : server) : server :=
  if io_stopped x then set_thread i Exited x
  else match queue_ x with
       | c :: rest => set_thread i (AtHead c) (with_queue rest x)
       | [] => set_thread i Deciding x
       end.

(** ** TcpConnection *)

(** The end of [run_read_loop]: the callback set by the server. *)
Definition end_loop (c : nat) (x : server) : server :=
  notify (Disconnected c) (with_connections (connections_ x ∖ {[c]}) (mark_closed c x)).

(** One step of an io thread that needs nothing from outside. *)
Definition io_step (i : nat) (x : server) : option server :=
  t ← threads x !! i;
  match t with
  | AtTest => Some (set_thread i (if io_stopped x then Exited else AtLock) x)
  | AtLock => if mutex_free x then Some (take_task i x) else None
  | Deciding => Some (set_thread i Asleep x)
  | AtHead c =>
      k ← conns x !! c;
      Some (set_thread i (if closed_ k || (fd_ k <? 0) then Ending c else Reading c (fd_ k)) x)
  | Reading c fd => Some (set_thread i (match open_fds x !! fd with Some s => InRead c s | None => Ending c end) x)
  | Ending c => Some (set_thread i AtTest (end_loop c x))
  | Asleep | InRead _ _ | Delivering _ _ | Exited => None
  end.

(** [::read] returns bytes, or nothing: the end of the stream, an error. *)
Definition read_returns (i : nat) (data : list Byte.byte) (x : server) : option server :=
  match threads x !! i with
  | Some (InRead c s) =>
      match data with
      | [] => Some (set_thread i (Ending c) x)
      | _ => if (length data <=? 4096)%nat then Some (set_thread i (Delivering c data) (log_read (c, s, data) x)) else None
      end
  | _ => None
  end.

(** The message callback, which may throw: the guard closes, the exception leaves the
    thread. *)
Definition deliver (i : nat) (throws : bool) (x : server) : option server :=
  match threads x !! i with
  | Some (Delivering c data) =>
      let x1 := notify (Message c data) x in
      Some (if throws then terminate (set_thread i Exited (end_loop c x1)) else set_thread i (AtHead c) x1)
  | _ => None
  end.

(** [send_mutex_] of connection [c]. *)
Definition send_free (c : nat) (x : server) : bool :=
  forallb (fun t => match t with Sending c' _ | Writing c' _ _ | InWrite c' _ _ => negb (Nat.eqb c' c) | NotSending => true end) (senders x).

Definition send (i c : nat) (data : list Byte.byte) (x : server) : option server :=
  match senders x !! i, conns x !! c with
  | Some NotSending, Some k =>
      if send_free c x then Some (if closed_ k || (fd_ k <? 0) then x else set_sender i (Sending c data) (log_send (c, data) x)) else None
  | _, _ => None
  end.

Definition send_step (i : nat) (x : server) : option server :=
  match senders x !! i with
  | Some (Sending c []) => Some (set_sender i NotSending x)
  | Some (Sending c rest) => k ← conns x !! c; Some (set_sender i (if fd_ k <? 0 then NotSending else Writing c (fd_ k) rest) x)
  | Some (Writing c fd rest) => Some (set_sender i (match open_fds x !! fd with Some s => InWrite c s rest | None => NotSending end) x)
  | _ => None
  end.

(** [::write] returns [n], or an error (0). *)
Definition write_returns (i : nat) (n : nat) (x : server) : option server :=
  match senders x !! i with
  | Some (InWrite c s rest) =>
      match n with
      | O => Some (set_sender i NotSending x)
      | S _ => if (n <=? length rest)%nat then Some (set_sender i (Sending c (drop n rest)) (log_write (c, s, take n rest) x)) else None
      end
  | _ => None
  end.

Definition close (i c : nat) (x : server) : option server :=
  match closers x !! i, conns x !! c with
  | Some NotClosing, Some k => Some (if closed_ k then x else set_closer i (Marking c) x)
  | _, _ => None
  end.

Definition close_step (i : nat) (x : server) : option server :=
  match closers x !! i with
  | Some (Marking c) => Some (set_closer i (Shutting c) (mark_closed c x))
  | Some (Shutting c) => Some (set_closer i (Closing c) x)
  | Some (Closing c) => k ← conns x !! c; Some (set_closer i (if fd_ k <? 0 then NotClosing else InClose c (fd_ k)) x)
  | Some (InClose c fd) => Some (set_closer i (Resetting c) (with_fds (delete fd (open_fds x)) x))
  | Some (Resetting c) => Some (set_closer i NotClosing (reset_fd c x))
  | _ => None
  end.

(** ** TcpServer *)

(** A client connects: [fd] is any free descriptor. *)
Definition accept (fd : Z) (woken : option nat) (x : server) : option server :=
  match accepting x with
  | Polling =>
      if (0 <=? fd) && bool_decide (open_fds x !! fd = None) && mutex_free x then
        let c := length (conns x) in
        notify_one woken
          (with_accepting Testing (with_queue (queue_ x ++ [c]) (notify (Connected c) (with_connections ({[c]} ∪ connections_ x)
             (with_conns (conns x ++ [mkConn fd false]) (with_fds (<[fd := c]> (open_fds x)) x))))))
      else None
  | _ => None
  end.

(** The rest of [accept_loop]: its test; [poll] that times out or is interrupted, an
    [accept] that fails; the pipe. *)
Definition accept_step (wakes : bool) (x : server) : option server :=
  match accepting x with
  | Testing => Some (with_accepting (if server_stopped x then Ended else Polling) x)
  | Polling => if wakes then (if server_stopped x then Some (with_accepting Ended x) else None) else Some (with_accepting Testing x)
  | Ended => None
  end.

(** Whether a thread or a container has a [shared_ptr] to connection [c]. *)
Definition used (c : nat) (x : server) : bool :=
  bool_decide (c ∈ connections_ x) || bool_decide (c ∈ queue_ x) ||
  existsb (fun t => match t with AtHead c' | Reading c' _ | InRead c' _ | Delivering c' _ | Ending c' => Nat.eqb c' c | _ => false end) (threads x) ||
  existsb (fun t => match t with Sending c' _ | Writing c' _ _ | InWrite c' _ _ => Nat.eqb c' c | NotSending => false end) (senders x) ||
  existsb (fun t => match t with Marking c' | Shutting c' | Closing c' | InClose c' _ | Resetting c' => Nat.eqb c' c | NotClosing => false end) (closers x).

(** The last [shared_ptr] goes: [~TcpSocket]. *)
Definition release (c : nat) (x : server) : option server :=
  k ← conns x !! c;
  if used c x then None else Some (reset_fd c (if fd_ k <? 0 then x else with_fds (delete (fd_ k) (open_fds x)) x)).

(** ** Steps *)

Inductive action :=
| Accept (fd : Z) (woken : option nat)
| AcceptStep (wakes : bool)
| Io (i : nat) | Spurious (i : nat) | ReadReturns (i : nat) (data : list Byte.byte) | Deliver (i : nat) (throws : bool)
| Send (i c : nat) (data : list Byte.byte) | SendStep (i : nat) | WriteReturns (i : nat) (n : nat)
| Close (i c : nat) | CloseStep (i : nat)
| Release (c : nat)
| Stop                         (* [TcpServer::stop]: the flag and the pipe *)
| JoinAccept
| StopIo                       (* [IoService::stop]: the flag *)
| NotifyAll
| StopAgain                    (* the destructor's call after an earlier one *)
| Destroy                      (* [components_] is destroyed *)
| JoinPool.                    (* [~ThreadPool] returns *)

Definition step (a : action) (x : server) : option server :=
  if terminated x then None else
  match a with
  | Accept fd woken => accept fd woken x
  | AcceptStep wakes => accept_step wakes x
  | Io i => io_step i x
  | Spurious i => match threads x !! i with Some Asleep => Some (set_thread i AtLock x) | _ => None end
  | ReadReturns i data => read_returns i data x
  | Deliver i throws => deliver i throws x
  | Send i c data => send i c data x
  | SendStep i => send_step i x
  | WriteReturns i n => write_returns i n x
  | Close i c => close i c x
  | CloseStep i => close_step i x
  | Release c => release c x
  | Stop => match phase x with Up => Some (with_phase JoiningAccept x) | _ => None end
  | JoinAccept => match phase x with JoiningAccept => match accepting x with Ended => Some (with_phase Joined x) | _ => None end | _ => None end
  | StopIo => match phase x with Joined => Some (with_phase IoStopped x) | _ => None end
  | NotifyAll => match phase x with IoStopped => Some (with_threads (wake <$> threads x) (with_phase Down x)) | _ => None end
  | StopAgain => match phase x with Down => Some (with_phase Joined x) | _ => None end
  | Destroy => match phase x with Down => Some (with_phase Destroyed x) | _ => None end
  | JoinPool =>
      match phase x with
      | Destroyed => if forallb (fun t => match t with Exited => true | _ => false end) (threads x) then Some (with_phase Gone x) else None
      | _ => None
      end
  end.

Fixpoint run (l : list action) (x : server) : option server :=
  match l with [] => Some x | a :: l' => x1 ← step a x; run l' x1 end.
