(* ===== verification/ServerFacts.v ===== *)
(** * ServerFacts: what the server guarantees, and where its threads go wrong

    Each connection is announced, served by one thread in order, and reported closed once;
    without [close] bytes stay on their own stream.  With it a descriptor is used after it
    belongs to another client; a client too many waits for ever; the service cannot be
    destroyed safely while a client is connected. *)

From S2P Require Import Prelude.
From S2P Require Import Protocol.
From S2P Require Import Wire.
From S2P Require Import Server.

Implicit Types (x : server) (c : nat).

Lemma server_run_inv (P : server -> Prop) l x x' :
  (forall a x x', P x -> step a x = Some x' -> P x') -> P x -> run l x = Some x' -> P x'.
Proof.
  intros HP. revert x. induction l as [|a l IH]; intros x Hx Hr; cbn in Hr; [by injection Hr as <-|].
  destruct (step a x) as [x1|] eqn:E; [|done]. eapply IH; [|done]. by eapply HP.
Qed.

Lemma server_run_app l1 l2 x : run (l1 ++ l2) x = x1 ← run l1 x; run l2 x1.
Proof. revert x. induction l1 as [|a l1 IH]; intros x; cbn; [done|]. destruct (step a x) as [x1|]; [|done]. apply IH. Qed.

(** A step of a program that has not been terminated. *)
Lemma step_alive a x x' : step a x = Some x' -> terminated x = false.
Proof. unfold step. by destruct (terminated x). Qed.

(** ** Each connection's history *)

(** The connection whose read loop a thread is in. *)
Definition loop_of (t : io_thread) : list nat :=
  match t with AtHead c | Reading c _ | InRead c _ | Delivering c _ | Ending c => [c] | _ => [] end.

Definition event_conn (e : event) : nat := match e with Connected c | Message c _ | Disconnected c => c end.
Definition about c (l : list event) : list event := filter (fun e => event_conn e = c) l.
Definition chunks c (l : list (nat * nat * list Byte.byte)) : list (list Byte.byte) := (filter (fun r => r.1.1 = c) l).*2.
Arguments about : simpl never.
Arguments chunks : simpl never.

(** What the history of a connection depends on. *)
Record core := mkCore {
  accepted : nat; open : gset nat; waiting : list nat; loops : list io_thread; heard : list event; taken : list (nat * nat * list Byte.byte)
}.
Definition core_of x : core := mkCore (length (conns x)) (connections_ x) (queue_ x) (threads x) (events x) (reads x).

Definition tokens (k : core) : list nat := waiting k ++ (loops k ≫= loop_of).
Definition undelivered c (k : core) (rest : list (list Byte.byte)) : Prop :=
  (exists i d, loops k !! i = Some (Delivering c d) /\ rest = [d]) \/ ((forall i d, loops k !! i <> Some (Delivering c d)) /\ rest = []).

Definition served c (k : core) : Prop :=
  exists ms rest, undelivered c k rest /\ chunks c (taken k) = ms ++ rest /\
    about c (heard k) = Connected c :: (Message c <$> ms) ++ (if decide (c ∈ open k) then [] else [Disconnected c]).

Record served_ok (k : core) : Prop := mkServed {
  one_each : NoDup (tokens k);
  open_tokens : forall c, c ∈ open k <-> c ∈ tokens k;
  tokens_accepted : forall c, c ∈ tokens k -> (c < accepted k)%nat;
  unheard : forall c, (accepted k <= c)%nat -> about c (heard k) = [] /\ chunks c (taken k) = [];
  all_served : forall c, (c < accepted k)%nat -> served c k
}.

Lemma loop_unique k i j t t' c : NoDup (tokens k) -> loops k !! i = Some t -> loops k !! j = Some t' -> c ∈ loop_of t -> c ∈ loop_of t' -> i = j.
Proof.
  intros Hn Hi Hj Ht Ht'. destruct (decide (i = j)) as [|Hne]; [done|exfalso]. unfold tokens in Hn. apply NoDup_app in Hn as (_ & _ & Hn).
  destruct (bind_insert loop_of _ _ _ Hi) as (R & HR & HR'). rewrite HR in Hn. apply NoDup_app in Hn as (_ & Hd & _). apply (Hd c Ht).
  specialize (HR' Exited). cbn in HR'. rewrite <- HR'. apply list_elem_of_bind. exists t'. split; [done|]. apply list_elem_of_lookup. exists j. by rewrite list_lookup_insert_ne.
Qed.

Lemma in_tokens k i t c : loops k !! i = Some t -> c ∈ loop_of t -> c ∈ tokens k.
Proof. intros Hi Hc. apply elem_of_app. right. apply list_elem_of_bind. exists t. split; [done|]. by eapply list_elem_of_lookup_2. Qed.

(** A thread that moves on within its loop, with nothing to deliver before or after. *)
Lemma served_thread k i t t' : loops k !! i = Some t -> loop_of t' = loop_of t ->
  (forall c d, t <> Delivering c d) -> (forall c d, t' <> Delivering c d) -> served_ok k ->
  served_ok (mkCore (accepted k) (open k) (waiting k) (<[i := t']> (loops k)) (heard k) (taken k)).
Proof.
  intros Hi Hl Hd Hd' [H1 H2 H3 H4 H5]. set (k' := mkCore _ _ _ _ _ _).
  assert (tokens k' ≡ₚ tokens k) as Ht. { unfold tokens. cbn. destruct (bind_insert loop_of _ _ _ Hi) as (R & -> & ->). by rewrite Hl. }
  split; [by rewrite Ht|intros c; by rewrite Ht|intros c; rewrite Ht; apply H3|exact H4|].
  intros c Hc. destruct (H5 c Hc) as (ms & rest & Hu & Hm). exists ms, rest. split; [|exact Hm].
  destruct Hu as [(j & d & Hj & ->)|[Hu ->]].
  - left. exists j, d. split; [|done]. cbn. rewrite list_lookup_insert_ne; [done|]. intros ->. rewrite Hi in Hj. injection Hj as ->. by apply (Hd c d).
  - right. split; [|done]. intros j d Hj. cbn in Hj. apply list_lookup_insert_Some in Hj as [(_ & Hj & _)|[_ Hj]]; [by apply (Hd' c d)|by apply (Hu j d)].
Qed.

(** A thread that takes a connection. *)
Lemma served_take k i t c q : loops k !! i = Some t -> loop_of t = [] -> waiting k = c :: q -> served_ok k ->
  served_ok (mkCore (accepted k) (open k) q (<[i := AtHead c]> (loops k)) (heard k) (taken k)).
Proof.
  intros Hi Hl Hq [H1 H2 H3 H4 H5]. set (k' := mkCore _ _ _ _ _ _).
  assert (tokens k' ≡ₚ tokens k) as Ht. { unfold tokens. cbn. rewrite Hq. destruct (bind_insert loop_of _ _ _ Hi) as (R & -> & ->). rewrite Hl. cbn. solve_Permutation. }
  split; [by rewrite Ht|intros c'; by rewrite Ht|intros c'; rewrite Ht; apply H3|exact H4|].
  intros c' Hc. destruct (H5 c' Hc) as (ms & rest & Hu & Hm). exists ms, rest. split; [|exact Hm].
  destruct Hu as [(j & d & Hj & ->)|[Hu ->]].
  - left. exists j, d. split; [|done]. cbn. rewrite list_lookup_insert_ne; [done|]. intros ->. rewrite Hi in Hj. by injection Hj as ->.
  - right. split; [|done]. intros j d Hj. cbn in Hj. apply list_lookup_insert_Some in Hj as [(_ & Hj & _)|[_ Hj]]; [done|by apply (Hu j d)].
Qed.

Lemma about_snoc c l e : about c (l ++ [e]) = about c l ++ (if decide (event_conn e = c) then [e] else []).
Proof. unfold about. by rewrite filter_app. Qed.

Lemma chunks_snoc c l r : chunks c (l ++ [r]) = chunks c l ++ (if decide (r.1.1 = c) then [r.2] else []).
Proof. unfold chunks. rewrite filter_app, fmap_app. f_equal. rewrite filter_cons, filter_nil. by case_decide. Qed.

Lemma served_accept k : served_ok k ->
  served_ok (mkCore (S (accepted k)) ({[accepted k]} ∪ open k) (waiting k ++ [accepted k]) (loops k) (heard k ++ [Connected (accepted k)]) (taken k)).
Proof.
  intros [H1 H2 H3 H4 H5]. set (k' := mkCore _ _ _ _ _ _).
  assert (tokens k' ≡ₚ accepted k :: tokens k) as Ht by (unfold tokens; cbn; solve_Permutation).
  split.
  - rewrite Ht. apply NoDup_cons. split; [|done]. intros Hin%H3. lia.
  - intros c. rewrite Ht, elem_of_cons. cbn. rewrite elem_of_union, elem_of_singleton, H2. done.
  - intros c. rewrite Ht, elem_of_cons. cbn. intros [->|Hc%H3]; lia.
  - intros c Hc. cbn in *. rewrite about_snoc, decide_False by (cbn; lia). rewrite app_nil_r. apply H4. lia.
  - intros c Hc. cbn in Hc. destruct (decide (c = accepted k)) as [->|Hne].
    + destruct (H4 (accepted k) ltac:(lia)) as [He Hr]. exists [], []. cbn. rewrite about_snoc, He, Hr, decide_True by done. split_and!; [|done|].
      * right. split; [|done]. intros i d Hi. enough (accepted k < accepted k)%nat by lia. apply H3. eapply in_tokens; [exact Hi|by left].
      * rewrite decide_True; [done|set_solver].
    + destruct (H5 c ltac:(lia)) as (ms & rest & Hu & Hm & Hv). exists ms, rest. split_and!; [exact Hu|exact Hm|]. cbn. rewrite about_snoc, decide_False, app_nil_r, Hv by (cbn; congruence).
      do 3 f_equal. repeat case_decide; set_solver.
Qed.

Lemma served_read k i c s d : loops k !! i = Some (InRead c s) -> served_ok k ->
  served_ok (mkCore (accepted k) (open k) (waiting k) (<[i := Delivering c d]> (loops k)) (heard k) (taken k ++ [(c, s, d)])).
Proof.
  intros Hi [H1 H2 H3 H4 H5]. set (k' := mkCore _ _ _ _ _ _).
  assert (tokens k' ≡ₚ tokens k) as Ht by by (unfold tokens; cbn; destruct (bind_insert loop_of _ _ _ Hi) as (R & -> & ->)).
  assert (c ∈ tokens k) as Hc by by (eapply in_tokens; [exact Hi|left]).
  split; [by rewrite Ht|intros c'; by rewrite Ht|intros c'; rewrite Ht; apply H3| |].
  - intros c' Hc'. cbn in *. rewrite chunks_snoc. cbn. rewrite decide_False; [rewrite app_nil_r; by apply H4|]. intros <-. apply H3 in Hc. lia.
  - intros c' Hc'. destruct (H5 c' Hc') as (ms & rest & Hu & Hm & Hv). cbn in *. destruct (decide (c' = c)) as [->|Hne].
    + destruct Hu as [(j & d' & Hj & _)|[_ ->]].
      { assert (j = i) as -> by (eapply (loop_unique k); [exact H1|exact Hj|exact Hi|by left|by left]). by rewrite Hi in Hj. }
      exists ms, [d]. split_and!; [|cbn; by rewrite chunks_snoc, Hm, app_nil_r, decide_True|done].
      left. exists i, d. split; [|done]. apply list_lookup_insert_eq. by eapply lookup_lt_Some.
    + exists ms, rest. split_and!; [|cbn; by rewrite chunks_snoc, decide_False, app_nil_r by (cbn; congruence)|done]. destruct Hu as [(j & d' & Hj & ->)|[Hu ->]].
      * left. exists j, d'. split; [|done]. cbn. rewrite list_lookup_insert_ne; [done|]. intros ->. congruence.
      * right. split; [|done]. intros j d' Hj. cbn in Hj. apply list_lookup_insert_Some in Hj as [(_ & Hj & _)|[_ Hj]]; [congruence|by apply (Hu j d')].
Qed.

Lemma served_deliver k i c d : loops k !! i = Some (Delivering c d) -> served_ok k ->
  served_ok (mkCore (accepted k) (open k) (waiting k) (<[i := AtHead c]> (loops k)) (heard k ++ [Message c d]) (taken k)).
Proof.
  intros Hi [H1 H2 H3 H4 H5]. set (k' := mkCore _ _ _ _ _ _).
  assert (tokens k' ≡ₚ tokens k) as Ht by by (unfold tokens; cbn; destruct (bind_insert loop_of _ _ _ Hi) as (R & -> & ->)).
  assert (c ∈ tokens k) as Hc by by (eapply in_tokens; [exact Hi|left]).
  split; [by rewrite Ht|intros c'; by rewrite Ht|intros c'; rewrite Ht; apply H3| |].
  - intros c' Hc'. cbn in *. rewrite about_snoc. cbn. rewrite decide_False; [rewrite app_nil_r; by apply H4|]. intros <-. apply H3 in Hc. lia.
  - intros c' Hc'. destruct (H5 c' Hc') as (ms & rest & Hu & Hm & Hv). destruct (decide (c' = c)) as [->|Hne].
    + destruct Hu as [(j & d' & Hj & ->)|[Hu _]]; [|by destruct (Hu i d)].
      assert (j = i) as -> by (eapply (loop_unique k); [exact H1|exact Hj|exact Hi|by left|by left]). rewrite Hi in Hj. injection Hj as <-.
      exists (ms ++ [d]), []. split_and!; [|cbn; by rewrite Hm, app_nil_r|].
      * right. split; [|done]. intros j d' Hj. cbn in Hj. apply list_lookup_insert_Some in Hj as [(_ & Hj & _)|[Hne Hj]]; [done|].
        apply Hne. eapply (loop_unique k); [exact H1|exact Hi|exact Hj|by left|by left].
      * cbn. rewrite about_snoc, Hv, (decide_True (P := c ∈ open k)) by by apply H2. rewrite decide_True by done. by rewrite !app_nil_r, fmap_app.
    + exists ms, rest. split_and!; [|done|cbn; by rewrite about_snoc, decide_False, app_nil_r by (cbn; congruence)]. destruct Hu as [(j & d' & Hj & ->)|[Hu ->]].
      * left. exists j, d'. split; [|done]. cbn. rewrite list_lookup_insert_ne; [done|]. intros ->. congruence.
      * right. split; [|done]. intros j d' Hj. cbn in Hj. apply list_lookup_insert_Some in Hj as [(_ & Hj & _)|[_ Hj]]; [congruence|by apply (Hu j d')].
Qed.

Lemma served_end k i c t t' : loops k !! i = Some t -> loop_of t = [c] -> (forall d, t <> Delivering c d) -> loop_of t' = [] -> served_ok k ->
  served_ok (mkCore (accepted k) (open k ∖ {[c]}) (waiting k) (<[i := t']> (loops k)) (heard k ++ [Disconnected c]) (taken k)).
Proof.
  intros Hi Hl Hd Hl' [H1 H2 H3 H4 H5]. set (k' := mkCore _ _ _ _ _ _).
  assert (tokens k ≡ₚ c :: tokens k') as Ht. { unfold tokens. cbn. destruct (bind_insert loop_of _ _ _ Hi) as (R & -> & ->). rewrite Hl, Hl'. cbn. solve_Permutation. }
  pose proof H1 as Hn. rewrite Ht in Hn. apply NoDup_cons in Hn as [Hc Hn].
  assert (c ∈ tokens k) as Hin by (rewrite Ht; by left).
  split; [done| | | |].
  - intros c'. cbn. rewrite elem_of_difference, elem_of_singleton, H2, Ht, elem_of_cons. split; [tauto|]. intros Hc'. split; [by right|]. by intros ->.
  - intros c' Hc'. apply H3. rewrite Ht. by right.
  - intros c' Hc'. cbn in *. rewrite about_snoc. cbn. rewrite decide_False; [rewrite app_nil_r; by apply H4|]. intros <-. apply H3 in Hin. lia.
  - intros c' Hc'. destruct (H5 c' Hc') as (ms & rest & Hu & Hm & Hv). exists ms, rest. split_and!; [|exact Hm|].
    + destruct Hu as [(j & d' & Hj & ->)|[Hu ->]].
      * left. exists j, d'. split; [|done]. cbn. rewrite list_lookup_insert_ne; [done|]. intros ->. rewrite Hi in Hj. injection Hj as ->. cbn in Hl. injection Hl as ->. by apply (Hd d').
      * right. split; [|done]. intros j d' Hj. cbn in Hj. apply list_lookup_insert_Some in Hj as [(_ & Hj & _)|[_ Hj]]; [by rewrite Hj in Hl'|by apply (Hu j d')].
    + cbn. rewrite about_snoc, Hv. cbn. destruct (decide (c' = c)) as [->|Hne].
      * rewrite (decide_True (P := c ∈ open k)) by by apply H2. rewrite decide_True, decide_False by (done || set_solver). by rewrite app_nil_r.
      * rewrite (decide_False (P := c = c')) by congruence. rewrite app_nil_r. do 3 f_equal. repeat case_decide; set_solver.
Qed.

Lemma served_wake k : served_ok k -> served_ok (mkCore (accepted k) (open k) (waiting k) (wake <$> loops k) (heard k) (taken k)).
Proof.
  intros [H1 H2 H3 H4 H5]. set (k' := mkCore _ _ _ _ _ _).
  assert (tokens k' = tokens k) as Ht. { unfold tokens. cbn. f_equal. clear. induction (loops k) as [|t l IH]; [done|]. cbn. rewrite IH. by destruct t. }
  split; [by rewrite Ht|intros c; by rewrite Ht|intros c; rewrite Ht; apply H3|exact H4|].
  intros c Hc. destruct (H5 c Hc) as (ms & rest & Hu & Hm). exists ms, rest. split; [|exact Hm].
  destruct Hu as [(j & d & Hj & ->)|[Hu ->]].
  - left. exists j, d. split; [|done]. cbn. by rewrite list_lookup_fmap, Hj.
  - right. split; [|done]. intros j d Hj. cbn in Hj. rewrite list_lookup_fmap in Hj. destruct (loops k !! j) as [t|] eqn:E; [|done]. destruct t; try done. cbn in Hj. by apply (Hu j d); congruence.
Qed.

Lemma server_notify_cases woken x x' : notify_one woken x = Some x' ->
  x' = x \/ exists i, threads x !! i = Some Asleep /\ x' = set_thread i AtLock x.
Proof.
  destruct woken as [i|]; cbn; intros Hs.
  - right. exists i. by destruct (threads x !! i) as [[]|]; simplify_eq.
  - left. by destruct (existsb _ _); simplify_eq.
Qed.

Lemma served_step a x x' : served_ok (core_of x) -> step a x = Some x' -> served_ok (core_of x').
Proof.
  intros Hx Hs. unfold step in Hs. destruct (terminated x); [done|]. destruct a as [fd woken|wakes|i|i|i data|i throws|i c data|i|i n|i c|i|c| | | | | | |].
  - unfold accept in Hs. destruct (accepting x); try done. destruct (_ && _); [|done]. cbv zeta in Hs.
    apply served_accept in Hx. apply server_notify_cases in Hs as [->|(i & Hi & ->)].
    + unfold core_of. cbn. by rewrite length_app, Nat.add_1_r.
    + unfold core_of. cbn. rewrite length_app, Nat.add_1_r. by apply (served_thread _ i Asleep AtLock) in Hx.
  - unfold accept_step in Hs. destruct (accepting x); [|destruct wakes, (server_stopped x)|]; by simplify_eq.
  - unfold io_step in Hs. destruct (threads x !! i) as [t|] eqn:Hi; [|done]. cbn in Hs. destruct t as [| | | |c|c fd|c s|c d|c|]; try done.
    + injection Hs as <-. apply (served_thread (core_of x) i AtTest); try done; by destruct (io_stopped x).
    + destruct (mutex_free x); [|done]. injection Hs as <-. unfold take_task. destruct (io_stopped x); [by apply (served_thread (core_of x) i AtLock)|].
      destruct (queue_ x) as [|c q] eqn:Eq; [by apply (served_thread (core_of x) i AtLock)|]. by apply (served_take (core_of x) i AtLock c q).
    + injection Hs as <-. by apply (served_thread (core_of x) i Deciding).
    + destruct (conns x !! c) as [k|]; [|done]. cbn in Hs. injection Hs as <-. apply (served_thread (core_of x) i (AtHead c)); try done; by destruct (_ || _).
    + injection Hs as <-. apply (served_thread (core_of x) i (Reading c fd)); try done; by destruct (open_fds x !! fd).
    + injection Hs as <-. unfold core_of. cbn. rewrite length_alter. by apply (served_end _ i c (Ending c) AtTest) in Hx.
  - destruct (threads x !! i) as [[]|] eqn:Hi; try done. injection Hs as <-. by apply (served_thread (core_of x) i Asleep).
  - unfold read_returns in Hs. destruct (threads x !! i) as [[| | | | | |c s| | |]|] eqn:Hi; try done. destruct data as [|b data].
    + injection Hs as <-. by apply (served_thread (core_of x) i (InRead c s)).
    + destruct (_ <=? _)%nat; [|done]. injection Hs as <-. by apply (served_read (core_of x) i c s).
  - unfold deliver in Hs. destruct (threads x !! i) as [[| | | | | | |c d| |]|] eqn:Hi; try done. apply (served_deliver _ i c d) in Hx; [|done]. destruct throws; injection Hs as <-; [|exact Hx].
    unfold core_of. cbn. rewrite length_alter. apply (served_end _ i c (AtHead c) Exited) in Hx; try done; [|apply list_lookup_insert_eq; by eapply lookup_lt_Some].
    cbn in Hx. by rewrite list_insert_insert_eq in Hx.
  - unfold send in Hs. destruct (senders x !! i) as [[]|]; try done. destruct (conns x !! c) as [k|]; [|done]. destruct (send_free c x); [|done]. injection Hs as <-. by destruct (_ || _).
  - unfold send_step in Hs. destruct (senders x !! i) as [[|c [|b r]|c fd r|]|]; try done; [by injection Hs as <-| |by injection Hs as <-].
    destruct (conns x !! c) as [k|]; [|done]. cbn in Hs. by injection Hs as <-.
  - unfold write_returns in Hs. destruct (senders x !! i) as [[| | |c s r]|]; try done. destruct n; [by injection Hs as <-|]. destruct (_ <=? _)%nat; [|done]. by injection Hs as <-.
  - unfold close in Hs. destruct (closers x !! i) as [[]|]; try done. destruct (conns x !! c) as [k|]; [|done]. injection Hs as <-. by destruct (closed_ k).
  - unfold close_step in Hs. destruct (closers x !! i) as [[| | |c| |]|]; try done; try (injection Hs as <-; unfold core_of; cbn; by rewrite ?length_alter).
    destruct (conns x !! c) as [k|]; [|done]. cbn in Hs. by injection Hs as <-.
  - unfold release in Hs. destruct (conns x !! c) as [k|]; [|done]. cbn in Hs. destruct (used c x); [done|]. injection Hs as <-. unfold core_of. cbn. by destruct (fd_ k <? 0); cbn; rewrite length_alter.
  - destruct (phase x); try done. by injection Hs as <-.
  - destruct (phase x), (accepting x); try done. by injection Hs as <-.
  - destruct (phase x); try done. by injection Hs as <-.
  - destruct (phase x); try done. injection Hs as <-. by apply (served_wake (core_of x)).
  - destruct (phase x); try done. by injection Hs as <-.
  - destruct (phase x); try done. by injection Hs as <-.
  - destruct (phase x); try done. destruct (forallb _ _); [|done]. by injection Hs as <-.
Qed.

Lemma served_started n ns nc : served_ok (core_of (started n ns nc)).
Proof.
  assert (tokens (core_of (started n ns nc)) = []) as Ht by (unfold tokens; cbn; induction n as [|n IH]; [done|exact IH]).
  split; [rewrite Ht; constructor|intros c; rewrite Ht; cbn; set_solver|intros c; rewrite Ht; by intros ?%not_elem_of_nil|done|]. cbn. lia.
Qed.

(** C11: However the threads interleave, sends, closes and shutdown included, each
    connection accepted is announced first; its messages are the chunks read for it, each
    once and in order, at most the last still to be delivered; it is reported closed at
    most once, after them, and exactly when it has left the server's set. *)
Theorem connections_served_in_order n ns nc l x c : run l (started n ns nc) = Some x -> (c < length (conns x))%nat ->
  exists ms rest, chunks c (reads x) = ms ++ rest /\ (length rest <= 1)%nat /\
    about c (events x) = Connected c :: (Message c <$> ms) ++ (if decide (c ∈ connections_ x) then [] else [Disconnected c]) /\
    ((c ∉ connections_ x) -> rest = []).
Proof.
  intros Hr Hc. pose proof (server_run_inv (fun x => served_ok (core_of x)) l _ x served_step (served_started n ns nc) Hr) as H.
  destruct (all_served _ H c Hc) as (ms & rest & Hu & Hm & Hv). exists ms, rest. split_and!; [exact Hm| |exact Hv|].
  - destruct Hu as [(i & d & _ & ->)|[_ ->]]; cbn; lia.
  - intros Hn. destruct Hu as [(i & d & Hi & _)|[_ ->]]; [|done]. exfalso. apply Hn, (open_tokens _ H). eapply in_tokens; [exact Hi|by left].
Qed.

(** ** Streams *)

(** Descriptors are the connections' own, while nobody calls [close]. *)
Record owned x : Prop := mkOwned {
  no_closer : Forall (fun t => t = NotClosing) (closers x);
  fds_own : forall c k, conns x !! c = Some k -> 0 <= fd_ k -> open_fds x !! fd_ k = Some c;
  reading_own : forall i c fd, threads x !! i = Some (Reading c fd) -> open_fds x !! fd = Some c;
  in_read_own : forall i c s, threads x !! i = Some (InRead c s) -> s = c;
  sending_open : forall i c r, senders x !! i = Some (Sending c r) -> exists k, conns x !! c = Some k /\ 0 <= fd_ k;
  writing_own : forall i c fd r, senders x !! i = Some (Writing c fd r) -> open_fds x !! fd = Some c /\ exists k, conns x !! c = Some k /\ 0 <= fd_ k;
  in_write_own : forall i c s r, senders x !! i = Some (InWrite c s r) -> s = c /\ exists k, conns x !! c = Some k /\ 0 <= fd_ k;
  reads_own : Forall (fun r => r.1.2 = r.1.1) (reads x);
  writes_own : Forall (fun r => r.1.2 = r.1.1) (writes x)
}.

Definition no_close (a : action) : bool := match a with Close _ _ => false | _ => true end.

Lemma owned_set_thread x i t : owned x -> (forall c fd, t = Reading c fd -> open_fds x !! fd = Some c) -> (forall c s, t = InRead c s -> s = c) -> owned (set_thread i t x).
Proof.
  intros [] H1 H2. split; cbn; try done.
  - intros j c fd Hj. apply list_lookup_insert_Some in Hj as [(_ & -> & _)|[_ Hj]]; [by apply H1|by eapply reading_own0].
  - intros j c s Hj. apply list_lookup_insert_Some in Hj as [(_ & -> & _)|[_ Hj]]; [by apply H2|by eapply in_read_own0].
Qed.

Lemma owned_set_sender x i t : owned x ->
  match t with
  | NotSending => True
  | Sending c _ => exists k, conns x !! c = Some k /\ 0 <= fd_ k
  | Writing c fd _ => open_fds x !! fd = Some c /\ exists k, conns x !! c = Some k /\ 0 <= fd_ k
  | InWrite c s _ => s = c /\ exists k, conns x !! c = Some k /\ 0 <= fd_ k
  end -> owned (set_sender i t x).
Proof.
  intros [] Ht. split; cbn; try done.
  - intros j c r Hj. apply list_lookup_insert_Some in Hj as [(_ & -> & _)|[_ Hj]]; [done|by eapply sending_open0].
  - intros j c fd r Hj. apply list_lookup_insert_Some in Hj as [(_ & -> & _)|[_ Hj]]; [done|by eapply writing_own0].
  - intros j c s r Hj. apply list_lookup_insert_Some in Hj as [(_ & -> & _)|[_ Hj]]; [done|by eapply in_write_own0].
Qed.

Lemma end_loop_owned x c : owned x -> owned (end_loop c x).
Proof.
  intros []. assert (forall c' k, alter (fun k => mkConn (fd_ k) true) c (conns x) !! c' = Some k -> exists k0, conns x !! c' = Some k0 /\ fd_ k = fd_ k0) as Ha.
  { intros c' k Hk. rewrite list_lookup_alter in Hk. case_decide; [subst|eauto]. destruct (conns x !! c') as [k0|]; [|done]. injection Hk as <-. by exists k0. }
  assert (forall c', (exists k, conns x !! c' = Some k /\ 0 <= fd_ k) -> exists k, alter (fun k => mkConn (fd_ k) true) c (conns x) !! c' = Some k /\ 0 <= fd_ k) as Hb.
  { intros c' (k & Hk & Hf). rewrite list_lookup_alter. case_decide; [subst; rewrite Hk|]; eauto. }
  split; cbn; try done.
  - intros c' k (k0 & Hk & ->)%Ha Hf. by apply fds_own0.
  - intros i c' r Hi. by eapply Hb, sending_open0.
  - intros i c' fd r Hi. destruct (writing_own0 _ _ _ _ Hi). split; [done|by apply Hb].
  - intros i c' s r Hi. destruct (in_write_own0 _ _ _ _ Hi). split; [done|by apply Hb].
Qed.

Lemma thread_uses x i t c : threads x !! i = Some t -> c ∈ loop_of t -> used c x = true.
Proof.
  intros Hi Hc. unfold used. assert (existsb (fun t => match t with AtHead c' | Reading c' _ | InRead c' _ | Delivering c' _ | Ending c' => Nat.eqb c' c | _ => false end) (threads x) = true) as ->.
  { apply existsb_exists. exists t. split; [apply list_elem_of_In; by eapply list_elem_of_lookup_2|]. destruct t; cbn in Hc; try (by apply not_elem_of_nil in Hc); apply list_elem_of_singleton in Hc as ->; apply Nat.eqb_refl. }
  by rewrite orb_true_r.
Qed.

Definition send_conn (t : sender) : list nat := match t with NotSending => [] | Sending c _ | Writing c _ _ | InWrite c _ _ => [c] end.

Lemma sender_uses x i t c : senders x !! i = Some t -> c ∈ send_conn t -> used c x = true.
Proof.
  intros Hi Hc. unfold used. assert (existsb (fun t => match t with Sending c' _ | Writing c' _ _ | InWrite c' _ _ => Nat.eqb c' c | NotSending => false end) (senders x) = true) as ->.
  { apply existsb_exists. exists t. split; [apply list_elem_of_In; by eapply list_elem_of_lookup_2|]. destruct t; cbn in Hc; try (by apply not_elem_of_nil in Hc); apply list_elem_of_singleton in Hc as ->; apply Nat.eqb_refl. }
  by rewrite !orb_true_r.
Qed.

Lemma release_owned x x' c : owned x -> release c x = Some x' -> owned x'.
Proof.
  intros Ho Hs. pose proof Ho as []. unfold release in Hs. destruct (conns x !! c) as [k|] eqn:Hk; [|done]. cbn in Hs. destruct (used c x) eqn:Hu; [done|]. injection Hs as <-.
  assert (forall c' fd, open_fds x !! fd = Some c' -> c' <> c -> open_fds (if fd_ k <? 0 then x else with_fds (delete (fd_ k) (open_fds x)) x) !! fd = Some c') as Hd.
  { intros c' fd Hfd Hne. destruct (fd_ k <? 0) eqn:E; [done|]. breflect. cbn. rewrite lookup_delete_ne; [done|]. intros <-. apply Hne. pose proof (fds_own0 c k Hk E). congruence. }
  assert (forall c' k', c' <> c -> conns x !! c' = Some k' -> alter (fun k => mkConn (-1) (closed_ k)) c (conns x) !! c' = Some k') as Hother.
  { intros c' k' Hne Hk'. by rewrite list_lookup_alter_ne by congruence. }
  assert (forall i t c', senders x !! i = Some t -> c' ∈ send_conn t -> c' <> c) as Hsend by (intros i t c' Hi Hc' ->; by rewrite (sender_uses _ _ _ _ Hi Hc') in Hu).
  assert (forall i t c', threads x !! i = Some t -> c' ∈ loop_of t -> c' <> c) as Hthr by (intros i t c' Hi Hc' ->; by rewrite (thread_uses _ _ _ _ Hi Hc') in Hu).
  unfold reset_fd. assert (closers (if fd_ k <? 0 then x else with_fds (delete (fd_ k) (open_fds x)) x) = closers x /\ conns (if fd_ k <? 0 then x else with_fds (delete (fd_ k) (open_fds x)) x) = conns x /\
    threads (if fd_ k <? 0 then x else with_fds (delete (fd_ k) (open_fds x)) x) = threads x /\ senders (if fd_ k <? 0 then x else with_fds (delete (fd_ k) (open_fds x)) x) = senders x /\
    reads (if fd_ k <? 0 then x else with_fds (delete (fd_ k) (open_fds x)) x) = reads x /\ writes (if fd_ k <? 0 then x else with_fds (delete (fd_ k) (open_fds x)) x) = writes x) as (E1 & E2 & E3 & E4 & E5 & E6) by by case_match.
  split; cbn -[open_fds]; rewrite ?E1, ?E2, ?E3, ?E4, ?E5, ?E6; try done.
  - intros c' k' Hk' Hf. rewrite list_lookup_alter in Hk'. case_decide as Hc; [subst c'; rewrite Hk in Hk'; injection Hk' as <-; cbn in Hf; lia|]. apply Hd; [by apply fds_own0|congruence].
  - intros i c' fd Hi. apply Hd; [by eapply reading_own0|]. eapply Hthr; [exact Hi|by left].
  - intros i c' r Hi. destruct (sending_open0 _ _ _ Hi) as (k' & ? & ?). exists k'. split; [|done]. apply Hother; [|done]. eapply Hsend; [exact Hi|by left].
  - intros i c' fd r Hi. assert (c' <> c) by (eapply Hsend; [exact Hi|by left]). destruct (writing_own0 _ _ _ _ Hi) as (? & k' & ? & ?). split; [by apply Hd|]. exists k'. split; [by apply Hother|done].
  - intros i c' s r Hi. assert (c' <> c) by (eapply Hsend; [exact Hi|by left]). destruct (in_write_own0 _ _ _ _ Hi) as (? & k' & ? & ?). split; [done|]. exists k'. split; [by apply Hother|done].
Qed.

Lemma owned_same x x' : open_fds x' = open_fds x -> conns x' = conns x -> threads x' = threads x -> senders x' = senders x -> closers x' = closers x ->
  reads x' = reads x -> writes x' = writes x -> owned x -> owned x'.
Proof. intros E1 E2 E3 E4 E5 E6 E7 []. split; rewrite ?E1, ?E2, ?E3, ?E4, ?E5, ?E6, ?E7; done. Qed.

Lemma accept_owned x x' fd woken : owned x -> accept fd woken x = Some x' -> owned x'.
Proof.
  intros Ho Hs. unfold accept in Hs. destruct (accepting x); try done. destruct (0 <=? fd) eqn:Hfd; [|done]. cbn [andb] in Hs.
  destruct (bool_decide _) eqn:Hfree; [|done]. apply bool_decide_eq_true in Hfree. destruct (mutex_free x); [|done]. cbn [andb] in Hs. cbv zeta in Hs.
  match type of Hs with notify_one _ ?y = _ => assert (owned y) as Hy end.
  { destruct Ho. assert (forall f c, open_fds x !! f = Some c -> <[fd := length (conns x)]> (open_fds x) !! f = Some c) as Hin.
    { intros f c Hf. rewrite lookup_insert_ne; [done|]. intros <-. congruence. }
    assert (forall c, (exists k, conns x !! c = Some k /\ 0 <= fd_ k) -> exists k, (conns x ++ [mkConn fd false]) !! c = Some k /\ 0 <= fd_ k) as Hc.
    { intros c (k & Hk & Hf). exists k. split; [|done]. by apply lookup_app_l_Some. }
    split; cbn; try done.
    - intros c k Hk Hf. apply lookup_app_Some in Hk as [Hk|[Hl Hk]]; [by apply Hin, fds_own0|].
      apply list_lookup_singleton_Some in Hk as [Hz <-]. cbn. assert (c = length (conns x)) as -> by lia. apply lookup_insert_eq.
    - intros i c f Hi. by eapply Hin, reading_own0.
    - intros i c r Hi. by eapply Hc, sending_open0.
    - intros i c f r Hi. destruct (writing_own0 _ _ _ _ Hi). split; [by apply Hin|by apply Hc].
    - intros i c s r Hi. destruct (in_write_own0 _ _ _ _ Hi). split; [done|by apply Hc]. }
  apply server_notify_cases in Hs as [->|(i & _ & ->)]; [exact Hy|]. by apply owned_set_thread.
Qed.

Lemma sending_of x i c r : owned x -> senders x !! i = Some (Sending c r) -> exists k, conns x !! c = Some k /\ 0 <= fd_ k /\ open_fds x !! fd_ k = Some c.
Proof. intros [] Hi. destruct (sending_open0 _ _ _ Hi) as (k & Hk & Hf). exists k. split_and!; [done..|by apply fds_own0]. Qed.

Lemma owned_step a x x' : no_close a = true -> owned x -> step a x = Some x' -> owned x'.
Proof.
  intros Hq Ho Hs. unfold step in Hs. destruct (terminated x); [done|]. destruct a as [fd woken|wakes|i|i|i data|i throws|i c data|i|i n|i c|i|c| | | | | | |]; try done.
  - by eapply accept_owned.
  - unfold accept_step in Hs. destruct (accepting x); [|destruct wakes, (server_stopped x)|]; simplify_eq; by apply (owned_same x).
  - unfold io_step in Hs. destruct (threads x !! i) as [t|] eqn:Hi; [|done]. cbn in Hs. destruct t as [| | | |c|c fd|c s|c d|c|]; try done.
    + injection Hs as <-. apply owned_set_thread; [done|..]; intros; by destruct (io_stopped x).
    + destruct (mutex_free x); [|done]. injection Hs as <-. unfold take_task. destruct (io_stopped x); [by apply owned_set_thread|].
      destruct (queue_ x) as [|c q]; [by apply owned_set_thread|]. apply owned_set_thread; [by apply (owned_same x)|done..].
    + injection Hs as <-. by apply owned_set_thread.
    + destruct (conns x !! c) as [k|] eqn:Hk; [|done]. cbn in Hs. injection Hs as <-. destruct (closed_ k); [by apply owned_set_thread|]. destruct (fd_ k <? 0) eqn:Hf; [by apply owned_set_thread|].
      apply owned_set_thread; [done|intros c' fd [= <- <-]; breflect; by apply (fds_own x Ho)|done].
    + injection Hs as <-. rewrite (reading_own x Ho _ _ _ Hi). apply owned_set_thread; [done..|by intros c' s [= <- <-]].
    + injection Hs as <-. apply owned_set_thread; [by apply end_loop_owned|done..].
  - destruct (threads x !! i) as [[]|] eqn:Hi; try done. injection Hs as <-. by apply owned_set_thread.
  - unfold read_returns in Hs. destruct (threads x !! i) as [[| | | | | |c s| | |]|] eqn:Hi; try done. destruct data as [|b data].
    + injection Hs as <-. by apply owned_set_thread.
    + destruct (_ <=? _)%nat; [|done]. injection Hs as <-. apply owned_set_thread; [|done..]. pose proof (in_read_own x Ho _ _ _ Hi) as ->.
      destruct Ho. split; try done. cbn. apply Forall_app. split; [done|]. by apply Forall_singleton.
  - unfold deliver in Hs. destruct (threads x !! i) as [[| | | | | | |c d| |]|] eqn:Hi; try done. assert (owned (notify (Message c d) x)) as Hn by by apply (owned_same x).
    destruct throws; injection Hs as <-; [|by apply owned_set_thread]. apply (owned_same (set_thread i Exited (end_loop c (notify (Message c d) x)))); try done. apply (owned_set_thread _ i Exited (end_loop_owned _ c Hn)); done.
  - unfold send in Hs. destruct (senders x !! i) as [[]|]; try done. destruct (conns x !! c) as [k|] eqn:Hk; [|done]. destruct (send_free c x); [|done]. injection Hs as <-.
    destruct (closed_ k); [done|]. destruct (fd_ k <? 0) eqn:Hf; [done|]. breflect. apply owned_set_sender; [by apply (owned_same x)|]. by exists k.
  - unfold send_step in Hs. destruct (senders x !! i) as [[|c [|b r]|c fd r|]|] eqn:Hi; try done.
    + injection Hs as <-. by apply owned_set_sender.
    + destruct (sending_of x i c _ Ho Hi) as (k & Hk & Hf & Hfd). rewrite Hk in Hs. cbn in Hs. injection Hs as <-. apply Z.ltb_ge in Hf as Hf'. rewrite Hf'.
      apply owned_set_sender; [done|]. split; [done|]. by exists k.
    + injection Hs as <-. destruct (writing_own x Ho _ _ _ _ Hi) as [-> ?]. by apply owned_set_sender.
  - unfold write_returns in Hs. destruct (senders x !! i) as [[| | |c s r]|] eqn:Hi; try done. destruct (in_write_own x Ho _ _ _ _ Hi) as [-> Hk]. destruct n; [injection Hs as <-; by apply owned_set_sender|].
    destruct (_ <=? _)%nat; [|done]. injection Hs as <-. apply owned_set_sender; [|done]. destruct Ho. split; try done. cbn. apply Forall_app. split; [done|]. by apply Forall_singleton.
  - unfold close_step in Hs. destruct (closers x !! i) as [t|] eqn:Hi; [|done]. pose proof (Forall_lookup_1 _ _ _ _ (no_closer x Ho) Hi) as ->. done.
  - by eapply release_owned.
  - destruct (phase x); try done. injection Hs as <-. by apply (owned_same x).
  - destruct (phase x), (accepting x); try done. injection Hs as <-. by apply (owned_same x).
  - destruct (phase x); try done. injection Hs as <-. by apply (owned_same x).
  - destruct (phase x); try done. injection Hs as <-. destruct Ho. split; cbn; try done.
    + intros i c fd Hi. rewrite list_lookup_fmap in Hi. destruct (threads x !! i) as [t|] eqn:E; [|done]. destruct t; try done. injection Hi as <- <-. by eapply reading_own0.
    + intros i c s Hi. rewrite list_lookup_fmap in Hi. destruct (threads x !! i) as [t|] eqn:E; [|done]. destruct t; try done. injection Hi as <- <-. by eapply in_read_own0.
  - destruct (phase x); try done. injection Hs as <-. by apply (owned_same x).
  - destruct (phase x); try done. injection Hs as <-. by apply (owned_same x).
  - destruct (phase x); try done. destruct (forallb _ _); [|done]. injection Hs as <-. by apply (owned_same x).
Qed.

Lemma started_owned n ns nc : owned (started n ns nc).
Proof.
  split; cbn; try done.
  - apply Forall_replicate. done.
  - intros i c fd Hi. by apply lookup_replicate_1 in Hi as [? _].
  - intros i c s Hi. by apply lookup_replicate_1 in Hi as [? _].
  - intros i c r Hi. by apply lookup_replicate_1 in Hi as [? _].
  - intros i c fd r Hi. by apply lookup_replicate_1 in Hi as [? _].
  - intros i c s r Hi. by apply lookup_replicate_1 in Hi as [? _].
Qed.

Lemma owned_run l x x' : forallb no_close l = true -> owned x -> run l x = Some x' -> owned x'.
Proof.
  revert x. induction l as [|a l IH]; intros x Hq Ho Hr; cbn in Hr; [by injection Hr as <-|]. apply andb_prop in Hq as [Ha Hq].
  destruct (step a x) as [x1|] eqn:E; [|done]. eapply IH; [done| |done]. by eapply owned_step.
Qed.

(** *** Whole messages *)

(** What a sender has yet to write. *)
Definition remaining (t : sender) : option (nat * list Byte.byte) :=
  match t with NotSending => None | Sending c r | Writing c _ r | InWrite c _ r => Some (c, r) end.

Definition messages_to c (l : list (nat * list Byte.byte)) : list (list Byte.byte) := (filter (fun r => r.1 = c) l).*2.
Arguments messages_to : simpl never.

Definition outgoing c (l : list sender) (rest : list Byte.byte) : Prop :=
  (exists i t, l !! i = Some t /\ remaining t = Some (c, rest)) \/ ((forall i t r, l !! i = Some t -> remaining t <> Some (c, r)) /\ rest = []).

Definition whole x : Prop :=
  NoDup (senders x ≫= send_conn) /\
  forall c, exists rest, outgoing c (senders x) rest /\ concat (chunks c (writes x)) ++ rest = concat (messages_to c (sends x)).

Lemma remaining_conn t c r : remaining t = Some (c, r) -> send_conn t = [c].
Proof. by destruct t; intros [= -> ->]. Qed.

Lemma remaining_none t : send_conn t = [] -> remaining t = None.
Proof. by destruct t. Qed.

Lemma sender_unique (l : list sender) i j t t' c : NoDup (l ≫= send_conn) -> l !! i = Some t -> l !! j = Some t' -> c ∈ send_conn t -> c ∈ send_conn t' -> i = j.
Proof.
  intros Hn Hi Hj Ht Ht'. destruct (decide (i = j)) as [|Hne]; [done|exfalso].
  destruct (bind_insert send_conn _ _ _ Hi) as (R & HR & HR'). rewrite HR in Hn. apply NoDup_app in Hn as (_ & Hd & _). apply (Hd c Ht).
  specialize (HR' NotSending). cbn in HR'. rewrite <- HR'. apply list_elem_of_bind. exists t'. split; [done|]. apply list_elem_of_lookup. exists j. by rewrite list_lookup_insert_ne.
Qed.

Lemma messages_snoc c l r : messages_to c (l ++ [r]) = messages_to c l ++ (if decide (r.1 = c) then [r.2] else []).
Proof. unfold messages_to. rewrite filter_app, fmap_app. f_equal. rewrite filter_cons, filter_nil. by case_decide. Qed.

(** Another connection's sender moves. *)
Lemma outgoing_other c l i t t' rest : l !! i = Some t -> c ∉ send_conn t -> c ∉ send_conn t' -> outgoing c l rest -> outgoing c (<[i := t']> l) rest.
Proof.
  intros Hi Hc Hc' [(j & u & Hj & Hu)|[Hu ->]].
  - left. exists j, u. split; [|done]. rewrite list_lookup_insert_ne; [done|]. intros ->. apply Hc. rewrite Hi in Hj. injection Hj as ->. rewrite (remaining_conn _ _ _ Hu). by left.
  - right. split; [|done]. intros j u r Hj Hr. apply list_lookup_insert_Some in Hj as [(_ & -> & _)|[_ Hj]]; [|by eapply Hu].
    apply Hc'. rewrite (remaining_conn _ _ _ Hr). by left.
Qed.

(** The only sender of a connection. *)
Lemma outgoing_own c l i t r rest : NoDup (l ≫= send_conn) -> l !! i = Some t -> remaining t = Some (c, r) -> outgoing c l rest -> rest = r.
Proof.
  intros Hn Hi Hr [(j & u & Hj & Hu)|[Hu _]]; [|by destruct (Hu i t r Hi)].
  assert (j = i) as -> by (eapply sender_unique; [done..|exact Hj|exact Hi|rewrite (remaining_conn _ _ _ Hu); by left|rewrite (remaining_conn _ _ _ Hr); by left]). congruence.
Qed.

Lemma NoDup_sender (l : list sender) i t t' : NoDup (l ≫= send_conn) -> l !! i = Some t -> (send_conn t' = send_conn t \/ send_conn t' = []) -> NoDup (<[i := t']> l ≫= send_conn).
Proof.
  intros Hn Hi Ht. destruct (bind_insert send_conn _ _ _ Hi) as (R & HR & HR'). rewrite HR in Hn. rewrite HR'. destruct Ht as [->| ->]; [done|]. by apply NoDup_app in Hn as (_ & _ & ?).
Qed.

(** A sender that goes on, having written [w]. *)
Lemma whole_moves x i t t' c s r r' w : senders x !! i = Some t -> remaining t = Some (c, r) -> remaining t' = Some (c, r') -> r = w ++ r' -> whole x ->
  whole (set_sender i t' (log_write (c, s, w) x)) /\ (w = [] -> whole (set_sender i t' x)).
Proof.
  intros Hi Hr Hr' -> [Hn Hw]. assert (NoDup (<[i := t']> (senders x) ≫= send_conn)) as Hn'.
  { eapply NoDup_sender; [done..|]. left. by rewrite (remaining_conn _ _ _ Hr), (remaining_conn _ _ _ Hr'). }
  assert (forall c', c' <> c -> forall rest, outgoing c' (senders x) rest -> outgoing c' (<[i := t']> (senders x)) rest) as Hother.
  { intros c' Hne rest. apply outgoing_other with t; [done|..]; [rewrite (remaining_conn _ _ _ Hr)|rewrite (remaining_conn _ _ _ Hr')]; by rewrite list_elem_of_singleton. }
  assert (outgoing c (<[i := t']> (senders x)) r') as Hown by (left; exists i, t'; split; [apply list_lookup_insert_eq; by eapply lookup_lt_Some|done]).
  split; [|intros ->]; (split; [exact Hn'|]); intros c'; destruct (Hw c') as (rest & Ho & He); cbn; destruct (decide (c' = c)) as [->|Hne].
  - exists r'. split; [done|]. rewrite chunks_snoc, decide_True, concat_app by done. cbn. rewrite (outgoing_own _ _ _ _ _ _ Hn Hi Hr Ho) in He. by rewrite <- He, app_nil_r, app_assoc.
  - exists rest. split; [by apply Hother|]. by rewrite chunks_snoc, decide_False, app_nil_r by (cbn; congruence).
  - exists r'. split; [done|]. by rewrite (outgoing_own _ _ _ _ _ _ Hn Hi Hr Ho) in He.
  - exists rest. split; [by apply Hother|done].
Qed.

Lemma whole_same x x' : senders x' = senders x -> writes x' = writes x -> sends x' = sends x -> whole x -> whole x'.
Proof. unfold whole. by intros -> -> ->. Qed.

Lemma whole_starts x i c data : senders x !! i = Some NotSending -> send_free c x = true -> whole x -> whole (set_sender i (Sending c data) (log_send (c, data) x)).
Proof.
  intros Hi Hf [Hn Hw]. assert (forall j t, senders x !! j = Some t -> c ∉ send_conn t) as Hfree.
  { intros j t Hj Hc. unfold send_free in Hf. assert (In t (senders x)) as Hin by (apply list_elem_of_In; by eapply list_elem_of_lookup_2). rewrite forallb_forall in Hf. specialize (Hf t Hin).
    destruct t; [by apply not_elem_of_nil in Hc|..]; apply list_elem_of_singleton in Hc as ->; by rewrite Nat.eqb_refl in Hf. }
  split; cbn.
  - destruct (bind_insert send_conn _ _ _ Hi) as (R & HR & HR'). rewrite HR in Hn. rewrite HR'. apply NoDup_cons. split; [|done]. intros Hc.
    assert (c ∈ senders x ≫= send_conn) as (t & Ht & Hin)%list_elem_of_bind by by rewrite HR. apply list_elem_of_lookup_1 in Hin as [j Hj]. by apply (Hfree j t).
  - intros c'. destruct (Hw c') as (rest & Ho & He). destruct (decide (c' = c)) as [->|Hne].
    + exists data. split; [left; exists i, (Sending c data); split; [apply list_lookup_insert_eq; by eapply lookup_lt_Some|done]|].
      destruct Ho as [(j & t & Hj & Ht)|[_ ->]]; [exfalso; apply (Hfree j t Hj); rewrite (remaining_conn _ _ _ Ht); by left|].
      rewrite messages_snoc, decide_True, concat_app by done. cbn. rewrite app_nil_r in *. by rewrite He.
    + exists rest. split; [apply (outgoing_other _ _ _ NotSending); [done|by intros ?%not_elem_of_nil|cbn; by rewrite list_elem_of_singleton|done]|].
      by rewrite messages_snoc, decide_False, app_nil_r by (cbn; congruence).
Qed.

Lemma whole_ends x i c : senders x !! i = Some (Sending c []) -> whole x -> whole (set_sender i NotSending x).
Proof.
  intros Hi [Hn Hw]. split; cbn.
  - eapply NoDup_sender; [done..|by right].
  - intros c'. destruct (Hw c') as (rest & Ho & He). destruct (decide (c' = c)) as [->|Hne].
    + rewrite (outgoing_own _ _ _ _ [] _ Hn Hi eq_refl Ho) in He. exists []. split; [right; split; [|done]|done].
      intros j t r Hj Ht. apply list_lookup_insert_Some in Hj as [(_ & <- & _)|[Hne Hj]]; [done|]. apply Hne. eapply sender_unique; [done|exact Hi|exact Hj|by left|].
      rewrite (remaining_conn _ _ _ Ht). by left.
    + exists rest. split; [|done]. apply (outgoing_other _ _ _ (Sending c [])); [done|cbn; by rewrite list_elem_of_singleton|by intros ?%not_elem_of_nil|done].
Qed.

Definition fine (a : action) : bool := match a with Close _ _ | WriteReturns _ O => false | _ => true end.

Lemma fine_no_close a : fine a = true -> no_close a = true.
Proof. by destruct a. Qed.

Lemma whole_step a x x' : fine a = true -> owned x -> whole x -> step a x = Some x' -> whole x'.
Proof.
  intros Hq Ho Hw Hs. unfold step in Hs. destruct (terminated x); [done|]. destruct a as [fd woken|wakes|i|i|i data|i throws|i c data|i|i n|i c|i|c| | | | | | |]; try done.
  - unfold accept in Hs. destruct (accepting x); try done. destruct (_ && _); [|done]. cbv zeta in Hs. apply server_notify_cases in Hs as [->|(i & _ & ->)]; by apply (whole_same x).
  - unfold accept_step in Hs. destruct (accepting x); [|destruct wakes, (server_stopped x)|]; simplify_eq; by apply (whole_same x).
  - unfold io_step in Hs. destruct (threads x !! i) as [t|]; [|done]. cbn in Hs. destruct t as [| | | |c|c fd|c s|c d|c|]; try done; try (injection Hs as <-; by apply (whole_same x)).
    + destruct (mutex_free x); [|done]. injection Hs as <-. unfold take_task. destruct (io_stopped x); [by apply (whole_same x)|]. destruct (queue_ x); by apply (whole_same x).
    + destruct (conns x !! c) as [k|]; [|done]. injection Hs as <-. by apply (whole_same x).
  - destruct (threads x !! i) as [[]|]; try done. injection Hs as <-. by apply (whole_same x).
  - unfold read_returns in Hs. destruct (threads x !! i) as [[| | | | | |c s| | |]|]; try done. destruct data; [|destruct (_ <=? _)%nat; [|done]]; injection Hs as <-; by apply (whole_same x).
  - unfold deliver in Hs. destruct (threads x !! i) as [[| | | | | | |c d| |]|]; try done. destruct throws; injection Hs as <-; by apply (whole_same x).
  - unfold send in Hs. destruct (senders x !! i) as [[]|] eqn:Hi; try done. destruct (conns x !! c) as [k|]; [|done]. destruct (send_free c x) eqn:Hf; [|done]. injection Hs as <-.
    destruct (_ || _); [done|]. by apply whole_starts.
  - unfold send_step in Hs. destruct (senders x !! i) as [[|c [|b r]|c fd r|]|] eqn:Hi; try done.
    + injection Hs as <-. by eapply whole_ends.
    + destruct (sending_of x i c _ Ho Hi) as (k & Hk & Hf & _). rewrite Hk in Hs. cbn in Hs. injection Hs as <-. apply Z.ltb_ge in Hf as ->.
      exact (proj2 (whole_moves x i _ (Writing c (fd_ k) (b :: r)) c 0 (b :: r) (b :: r) [] Hi eq_refl eq_refl eq_refl Hw) eq_refl).
    + injection Hs as <-. destruct (writing_own x Ho _ _ _ _ Hi) as [-> _]. exact (proj2 (whole_moves x i _ (InWrite c c r) c 0 r r [] Hi eq_refl eq_refl eq_refl Hw) eq_refl).
  - unfold write_returns in Hs. destruct (senders x !! i) as [[| | |c s r]|] eqn:Hi; try done. destruct n; [done|].
    destruct (_ <=? _)%nat eqn:Hn; [|done]. injection Hs as <-. apply Nat.leb_le in Hn. exact (proj1 (whole_moves x i _ (Sending c (drop (S n) r)) c s r (drop (S n) r) (take (S n) r) Hi eq_refl eq_refl (eq_sym (take_drop _ _)) Hw)).
  - unfold close_step in Hs. destruct (closers x !! i) as [[| | |c| |]|]; try done; try (injection Hs as <-; by apply (whole_same x)). destruct (conns x !! c) as [k|]; [|done]. injection Hs as <-. by apply (whole_same x).
  - unfold release in Hs. destruct (conns x !! c) as [k|]; [|done]. cbn in Hs. destruct (used c x); [done|]. injection Hs as <-. apply (whole_same x); try done; cbn; by destruct (fd_ k <? 0).
  - destruct (phase x); try done. injection Hs as <-. by apply (whole_same x).
  - destruct (phase x), (accepting x); try done. injection Hs as <-. by apply (whole_same x).
  - destruct (phase x); try done. injection Hs as <-. by apply (whole_same x).
  - destruct (phase x); try done. injection Hs as <-. by apply (whole_same x).
  - destruct (phase x); try done. injection Hs as <-. by apply (whole_same x).
  - destruct (phase x); try done. injection Hs as <-. by apply (whole_same x).
  - destruct (phase x); try done. destruct (forallb _ _); [|done]. injection Hs as <-. by apply (whole_same x).
Qed.

Lemma started_whole n ns nc : whole (started n ns nc).
Proof.
  split; cbn.
  - induction ns as [|ns IH]; [constructor|exact IH].
  - intros c. exists []. split; [|done]. right. split; [|done]. intros i t r Hi. by apply lookup_replicate_1 in Hi as [-> _].
Qed.

Lemma whole_run l x x' : forallb fine l = true -> owned x -> whole x -> run l x = Some x' -> whole x'.
Proof.
  revert x. induction l as [|a l IH]; intros x Hq Ho Hw Hr; cbn in Hr; [by injection Hr as <-|]. apply andb_prop in Hq as [Ha Hq].
  destruct (step a x) as [x1|] eqn:E; [|done]. eapply IH; [done|by eapply owned_step; [apply fine_no_close| |]|by eapply whole_step|done].
Qed.

(** C21: While nobody calls [close], what is read for a connection comes from its own client
    and what is written for it goes to its own client; and while no write fails, the bytes
    written are the messages sent, whole and in order, but for the end of the one being
    sent. *)
Theorem streams_own n ns nc l x : run l (started n ns nc) = Some x -> forallb no_close l = true ->
  Forall (fun r => r.1.2 = r.1.1) (reads x) /\ Forall (fun r => r.1.2 = r.1.1) (writes x) /\
  (forallb fine l = true -> forall c, exists rest, concat (chunks c (writes x)) ++ rest = concat (messages_to c (sends x)) /\
     ((forall i t, senders x !! i = Some t -> c ∉ send_conn t) -> rest = [])).
Proof.
  intros Hr Hq. pose proof (owned_run _ _ _ Hq (started_owned n ns nc) Hr) as Ho. split_and!; [apply Ho..|]. intros Hf c.
  destruct (whole_run _ _ _ Hf (started_owned n ns nc) (started_whole n ns nc) Hr) as [_ Hw]. destruct (Hw c) as (rest & Hout & He). exists rest. split; [done|].
  intros Hn. destruct Hout as [(i & t & Hi & Ht)|[_ ->]]; [|done]. exfalso. apply (Hn i t Hi). rewrite (remaining_conn _ _ _ Ht). by left.
Qed.
