(* ===== verification/ServerRuns.v ===== *)
(** * ServerRuns: runs in which the server goes wrong

    A descriptor used after it belongs to another client; clients beyond the number of io
    threads; a service destroyed while a client is connected; a wakeup lost in [stop]. *)

From S2P Require Import Prelude.
From S2P Require Import Protocol.
From S2P Require Import Wire.
From S2P Require Import Server.
From S2P Require Import ServerFacts.

Implicit Types (x : server) (c : nat).

(** ** Another client's descriptor *)

Definition connect (fd : Z) : list action := [AcceptStep false; Accept fd None].
Definition close_whole : list action := Close 0 0 :: replicate 5 (CloseStep 0).

(** A thread that sends on connection 0 has read its descriptor when another thread closes
    the connection; the next client is given the descriptor. *)
Definition misdirected (data : list Byte.byte) : list action :=
  connect 5 ++ [Send 0 0 data; SendStep 0] ++ close_whole ++ connect 5 ++ [SendStep 0; WriteReturns 0 (length data)].

(** And one that reads. *)
Definition misread (data : list Byte.byte) : list action :=
  connect 5 ++ [Io 0; Io 0; Io 0] ++ close_whole ++ connect 5 ++ [Io 0; ReadReturns 0 data; Deliver 0 false].

(** C22: With [close] called on another thread, what is sent on a connection can go to the
    client accepted after it, and what that client sends can be handled as the closed
    connection's. *)
Theorem closed_descriptor_reused data : (0 < length data <= 4096)%nat ->
  (exists x, run (misdirected data) (started 1 1 1) = Some x /\ writes x = [(0, 1, data)]%nat) /\
  (exists x, run (misread data) (started 1 1 1) = Some x /\ reads x = [(0, 1, data)]%nat /\ Message 0 data ∈ events x).
Proof.
  intros Hd. destruct data as [|b data]; [cbn in Hd; lia|]. split; unfold misdirected, misread.
  - assert (exists y, run (connect 5 ++ [Send 0 0 (b :: data); SendStep 0] ++ close_whole ++ connect 5 ++ [SendStep 0]) (started 1 1 1) = Some y /\
      terminated y = false /\ senders y = [InWrite 0 1 (b :: data)] /\ writes y = []) as (y & Hy & Ht & Hs & Hw) by (eexists; split; [vm_compute; reflexivity|done]).
    exists (set_sender 0 (Sending 0 []) (log_write (0, 1, b :: data)%nat y)). split; [|cbn; by rewrite Hw].
    match goal with |- run ?l _ = _ => change l with ((connect 5 ++ [Send 0 0 (b :: data); SendStep 0] ++ close_whole ++ connect 5 ++ [SendStep 0]) ++ [WriteReturns 0 (length (b :: data))]) end.
    rewrite server_run_app, Hy. cbn [mbind option_bind run]. unfold step, write_returns. rewrite Ht, Hs. cbn [lookup list_lookup length]. rewrite Nat.leb_refl. cbn [mbind option_bind]. change (S (length data)) with (length (b :: data)). by rewrite firstn_all, skipn_all.
  - assert (exists y, run (connect 5 ++ [Io 0; Io 0; Io 0] ++ close_whole ++ connect 5 ++ [Io 0]) (started 1 1 1) = Some y /\
      terminated y = false /\ threads y = [InRead 0 1] /\ reads y = []) as (y & Hy & Ht & Hs & Hw) by (eexists; split; [vm_compute; reflexivity|done]).
    set (y1 := set_thread 0 (Delivering 0 (b :: data)) (log_read (0, 1, b :: data)%nat y)).
    assert (step (ReadReturns 0 (b :: data)) y = Some y1) as E1.
    { unfold step, read_returns. rewrite Ht, Hs. cbn [lookup list_lookup]. by rewrite (proj2 (Nat.leb_le _ _)) by lia. }
    assert (step (Deliver 0 false) y1 = Some (set_thread 0 (AtHead 0) (notify (Message 0 (b :: data)) y1))) as E2.
    { unfold step, deliver, y1. cbn. by rewrite Ht, Hs. }
    exists (set_thread 0 (AtHead 0) (notify (Message 0 (b :: data)) y1)). split; [|split; [unfold y1; cbn; by rewrite Hw|cbn; apply elem_of_app; right; by left]].
    match goal with |- run ?l _ = _ => change l with ((connect 5 ++ [Io 0; Io 0; Io 0] ++ close_whole ++ connect 5 ++ [Io 0]) ++ [ReadReturns 0 (b :: data); Deliver 0 false]) end.
    rewrite server_run_app, Hy. cbn [mbind option_bind run]. rewrite E1. cbn [mbind option_bind]. by rewrite E2.
Qed.

(** ** More clients than threads *)

(** In the read loop of an open connection. *)
Definition loops_on x (t : io_thread) : Prop :=
  match t with
  | AtHead c | Reading c _ | InRead c _ | Delivering c _ => exists k, conns x !! c = Some k /\ closed_ k = false /\ 0 <= fd_ k
  | _ => False
  end.
Definition busy x : Prop := Forall (loops_on x) (threads x).

(** No client leaves, and nothing closes a connection or throws. *)
Definition nobody_leaves (a : action) : bool :=
  match a with ReadReturns _ [] | Deliver _ true | Close _ _ => false | _ => true end.

Lemma leaves_no_close a : nobody_leaves a = true -> no_close a = true.
Proof. by destruct a. Qed.

Lemma busy_lookup x i t : busy x -> threads x !! i = Some t -> loops_on x t.
Proof. intros Hb Hi. exact (Forall_lookup_1 _ _ _ _ Hb Hi). Qed.

Lemma busy_set x i t : busy x -> loops_on x t -> busy (set_thread i t x).
Proof. intros Hb Ht. by apply Forall_insert. Qed.

Lemma busy_same x x' : threads x' = threads x -> conns x' = conns x -> busy x -> busy x'.
Proof. unfold busy. intros -> Hc. intros Hb. eapply Forall_impl; [exact Hb|]. intros t. unfold loops_on. by rewrite Hc. Qed.

Lemma busy_accept x x' fd woken : busy x -> accept fd woken x = Some x' ->
  busy x' /\ queue_ x' = queue_ x ++ [length (conns x)] /\ events x' = events x ++ [Connected (length (conns x))].
Proof.
  intros Hb Hs. unfold accept in Hs. destruct (accepting x); try done. destruct (_ && _); [|done]. cbv zeta in Hs.
  apply server_notify_cases in Hs as [->|(i & Hi & _)].
  - split_and!; [|done..]. eapply Forall_impl; [exact Hb|]. intros t. assert (forall c k, conns x !! c = Some k -> (conns x ++ [mkConn fd false]) !! c = Some k) as Ha by (intros; by apply lookup_app_l_Some).
    unfold loops_on. destruct t; try done; intros (k & ? & ?); exists k; cbn; auto.
  - exfalso. exact (busy_lookup x i Asleep Hb Hi).
Qed.

Lemma busy_release x x' c : busy x -> release c x = Some x' -> busy x' /\ queue_ x' = queue_ x /\ events x' = events x.
Proof.
  intros Hb Hs. unfold release in Hs. destruct (conns x !! c) as [k|] eqn:Hk; [|done]. cbn in Hs. destruct (used c x) eqn:Hu; [done|]. injection Hs as <-.
  split; [|cbn; by destruct (fd_ k <? 0)]. unfold busy, reset_fd. cbn.
  assert (threads (if fd_ k <? 0 then x else with_fds (delete (fd_ k) (open_fds x)) x) = threads x) as -> by by case_match.
  apply Forall_lookup_2. intros i t Hi. pose proof (busy_lookup x i t Hb Hi) as Ht. assert (c ∉ loop_of t) as Hc by (intros Hc; by rewrite (thread_uses x i t c Hi Hc) in Hu).
  assert (conns (if fd_ k <? 0 then x else with_fds (delete (fd_ k) (open_fds x)) x) = conns x) as Hcs by by case_match.
  unfold loops_on in *. destruct t as [| | | |c'|c' f|c' s|c' d|c'|]; try done; destruct Ht as (k' & Hk' & ?); exists k'; (split; [|done]); cbn; rewrite Hcs, list_lookup_alter_ne; try done; intros ->; apply Hc; by left.
Qed.

(** One step: threads stay busy; the queue only grows; only connections in a loop, or new,
    are heard of. *)
Lemma busy_step a x x' : nobody_leaves a = true -> owned x -> busy x -> step a x = Some x' ->
  busy x' /\ (exists new, queue_ x' = queue_ x ++ new) /\
  exists e, events x' = events x ++ e /\ Forall (fun e => event_conn e = length (conns x) \/ event_conn e ∈ threads x ≫= loop_of) e.
Proof.
  intros Hq Ho Hb Hs.
  assert (forall y, busy y -> queue_ y = queue_ x -> events y = events x -> x' = y -> busy x' /\ (exists new, queue_ x' = queue_ x ++ new) /\
    exists e, events x' = events x ++ e /\ Forall (fun e => event_conn e = length (conns x) \/ event_conn e ∈ threads x ≫= loop_of) e) as Hsame.
  { intros y H1 H2 H3 ->. split; [done|]. split; [exists []; by rewrite app_nil_r|]. exists []. by rewrite app_nil_r. }
  unfold step in Hs. destruct (terminated x); [done|]. destruct a as [fd woken|wakes|i|i|i data|i throws|i c data|i|i n|i c|i|c| | | | | | |]; try done.
  - destruct (busy_accept x x' fd woken Hb Hs) as (H1 & H2 & H3). split; [done|]. split; [by eexists|]. eexists. split; [exact H3|]. apply Forall_singleton. by left.
  - unfold accept_step in Hs. destruct (accepting x); [|destruct wakes, (server_stopped x)|]; simplify_eq; (eapply Hsame; [..|reflexivity]; [by apply (busy_same x)|done|done]).
  - unfold io_step in Hs. destruct (threads x !! i) as [t|] eqn:Hi; [|done]. pose proof (busy_lookup x i t Hb Hi) as Ht. cbn in Hs. destruct t as [| | | |c|c fd|c s|c d|c|]; try done.
    + destruct Ht as (k & Hk & Hcl & Hf). rewrite Hk in Hs. cbn in Hs. rewrite Hcl, (proj2 (Z.ltb_ge _ _) Hf) in Hs. injection Hs as <-.
      eapply Hsame; [..|reflexivity]; [|done|done]. apply busy_set; [done|]. by exists k.
    + rewrite (reading_own x Ho _ _ _ Hi) in Hs. injection Hs as <-. eapply Hsame; [..|reflexivity]; [|done|done]. by apply busy_set.
  - destruct (threads x !! i) as [[]|] eqn:Hi; try done. by pose proof (busy_lookup x i _ Hb Hi).
  - unfold read_returns in Hs. destruct (threads x !! i) as [[| | | | | |c s| | |]|] eqn:Hi; try done. pose proof (busy_lookup x i _ Hb Hi) as Ht. destruct data as [|b data]; [done|].
    destruct (_ <=? _)%nat; [|done]. injection Hs as <-. eapply Hsame; [..|reflexivity]; [|done|done]. by apply busy_set.
  - unfold deliver in Hs. destruct (threads x !! i) as [[| | | | | | |c d| |]|] eqn:Hi; try done. destruct throws; [done|]. injection Hs as <-. pose proof (busy_lookup x i _ Hb Hi) as Ht.
    split; [by apply (busy_set (notify (Message c d) x))|]. split; [exists []; by rewrite app_nil_r|]. eexists. split; [reflexivity|]. apply Forall_singleton. right. cbn.
    apply list_elem_of_bind. exists (Delivering c d). split; [by left|by eapply list_elem_of_lookup_2].
  - unfold send in Hs. destruct (senders x !! i) as [[]|]; try done. destruct (conns x !! c) as [k|]; [|done]. destruct (send_free c x); [|done]. injection Hs as <-.
    destruct (_ || _); (eapply Hsame; [..|reflexivity]; [by apply (busy_same x)|done|done]).
  - unfold send_step in Hs. destruct (senders x !! i) as [[|c [|b r]|c fd r|]|]; try done; [|destruct (conns x !! c) as [k|]; [|done]|]; injection Hs as <-; (eapply Hsame; [..|reflexivity]; [by apply (busy_same x)|done|done]).
  - unfold write_returns in Hs. destruct (senders x !! i) as [[| | |c s r]|]; try done. destruct n; [|destruct (_ <=? _)%nat; [|done]]; injection Hs as <-; (eapply Hsame; [..|reflexivity]; [by apply (busy_same x)|done|done]).
  - unfold close_step in Hs. destruct (closers x !! i) as [t|] eqn:Hi; [|done]. by rewrite (Forall_lookup_1 _ _ _ _ (no_closer x Ho) Hi) in Hs.
  - destruct (busy_release x x' c Hb Hs) as (H1 & H2 & H3). by apply (Hsame x').
  - destruct (phase x); try done. injection Hs as <-. eapply Hsame; [..|reflexivity]; [|done|done]. by apply (busy_same x).
  - destruct (phase x), (accepting x); try done. injection Hs as <-. eapply Hsame; [..|reflexivity]; [|done|done]. by apply (busy_same x).
  - destruct (phase x); try done. injection Hs as <-. eapply Hsame; [..|reflexivity]; [|done|done]. by apply (busy_same x).
  - destruct (phase x); try done. injection Hs as <-. eapply Hsame; [..|reflexivity]; [|done|done]. unfold busy. cbn. apply Forall_fmap. eapply Forall_impl; [exact Hb|]. by intros [].
  - destruct (phase x); try done. injection Hs as <-. eapply Hsame; [..|reflexivity]; [|done|done]. by apply (busy_same x).
  - destruct (phase x); try done. injection Hs as <-. eapply Hsame; [..|reflexivity]; [|done|done]. by apply (busy_same x).
  - destruct (phase x); try done. destruct (forallb _ _); [|done]. injection Hs as <-. eapply Hsame; [..|reflexivity]; [|done|done]. by apply (busy_same x).
Qed.

(** When every io thread is in the read loop of an open connection, the connections in
    the queue are not served, whatever their clients send, until one of the others
    leaves. *)
Theorem clients_beyond_threads_starve n ns nc l0 x l x' : run l0 (started n ns nc) = Some x -> forallb no_close l0 = true -> busy x ->
  forallb nobody_leaves l = true -> run l x = Some x' ->
  busy x' /\ (exists new, queue_ x' = queue_ x ++ new) /\ forall c, c ∈ queue_ x -> about c (events x') = about c (events x).
Proof.
  intros Hr0 Hq0 Hb Hq Hr. pose proof (owned_run _ _ _ Hq0 (started_owned n ns nc) Hr0) as Ho.
  pose proof (server_run_inv (fun x => served_ok (core_of x)) l0 _ x served_step (served_started n ns nc) Hr0) as Hv. clear Hr0 Hq0.
  revert x Hb Ho Hv Hr. induction l as [|a l IH]; intros x Hb Ho Hv Hr; cbn in Hr.
  { injection Hr as ->. split_and!; [done|exists []; by rewrite app_nil_r|done]. }
  apply andb_prop in Hq as [Ha Hq]. destruct (step a x) as [x1|] eqn:E; [|done]. destruct (busy_step a x x1 Ha Ho Hb E) as (Hb1 & (new & Hnew) & e & He & Hec).
  destruct (IH Hq x1 Hb1 (owned_step _ _ _ (leaves_no_close a Ha) Ho E) (served_step _ _ _ Hv E) Hr) as (H1 & (new' & H2) & H3).
  split; [done|]. split; [exists (new ++ new'); by rewrite H2, Hnew, app_assoc|]. intros c Hc. rewrite H3 by (rewrite Hnew; apply elem_of_app; by left). rewrite He.
  unfold about. rewrite filter_app. rewrite (filter_none _ e); [by rewrite app_nil_r|]. eapply Forall_impl; [exact Hec|]. cbn. intros ev [->|Hin] <-.
  - enough (length (conns x) < length (conns x))%nat by lia. apply (tokens_accepted _ Hv). apply elem_of_app. by left.
  - pose proof (one_each _ Hv) as Hn. apply NoDup_app in Hn as (_ & Hn & _). by apply (Hn (event_conn ev)).
Qed.

(** ** Destroying the service *)

Lemma undefined_step a x x' : step a x = Some x' -> undefined x = true -> undefined x' = true.
Proof.
  intros Hs Hu. unfold step in Hs. destruct (terminated x); [done|]. destruct a as [fd woken|wakes|i|i|i data|i throws|i c data|i|i n|i c|i|c| | | | | | |].
  - unfold accept in Hs. destruct (accepting x); try done. destruct (_ && _); [|done]. cbv zeta in Hs. apply server_notify_cases in Hs as [->|(i & _ & ->)]; cbn; by rewrite Hu.
  - unfold accept_step in Hs. destruct (accepting x); [|destruct wakes, (server_stopped x)|]; by simplify_eq.
  - unfold io_step in Hs. destruct (threads x !! i) as [t|]; [|done]. cbn in Hs. destruct t as [| | | |c|c fd|c s|c d|c|]; try done; try (injection Hs as <-; cbn; by rewrite ?Hu).
    + destruct (mutex_free x); [|done]. injection Hs as <-. unfold take_task. destruct (io_stopped x); [done|]. by destruct (queue_ x).
    + destruct (conns x !! c) as [k|]; [|done]. by injection Hs as <-.
  - destruct (threads x !! i) as [[]|]; try done. by injection Hs as <-.
  - unfold read_returns in Hs. destruct (threads x !! i) as [[| | | | | |c s| | |]|]; try done. destruct data; [|destruct (_ <=? _)%nat; [|done]]; by injection Hs as <-.
  - unfold deliver in Hs. destruct (threads x !! i) as [[| | | | | | |c d| |]|]; try done. destruct throws; injection Hs as <-; cbn; by rewrite Hu.
  - unfold send in Hs. destruct (senders x !! i) as [[]|]; try done. destruct (conns x !! c) as [k|]; [|done]. destruct (send_free c x); [|done]. injection Hs as <-. by destruct (_ || _).
  - unfold send_step in Hs. destruct (senders x !! i) as [[|c [|b r]|c fd r|]|]; try done; [|destruct (conns x !! c) as [k|]; [|done]|]; by injection Hs as <-.
  - unfold write_returns in Hs. destruct (senders x !! i) as [[| | |c s r]|]; try done. destruct n; [|destruct (_ <=? _)%nat; [|done]]; by injection Hs as <-.
  - unfold close in Hs. destruct (closers x !! i) as [[]|]; try done. destruct (conns x !! c) as [k|]; [|done]. injection Hs as <-. by destruct (closed_ k).
  - unfold close_step in Hs. destruct (closers x !! i) as [[| | |c| |]|]; try done; try (by injection Hs as <-). destruct (conns x !! c) as [k|]; [|done]. by injection Hs as <-.
  - unfold release in Hs. destruct (conns x !! c) as [k|]; [|done]. cbn in Hs. destruct (used c x); [done|]. injection Hs as <-. cbn. by destruct (fd_ k <? 0).
  - destruct (phase x); try done. by injection Hs as <-.
  - destruct (phase x), (accepting x); try done. by injection Hs as <-.
  - destruct (phase x); try done. by injection Hs as <-.
  - destruct (phase x); try done. by injection Hs as <-.
  - destruct (phase x); try done. by injection Hs as <-.
  - destruct (phase x); try done. by injection Hs as <-.
  - destruct (phase x); try done. destruct (forallb _ _); [|done]. by injection Hs as <-.
Qed.

(** The components are gone, and thread [i] still serves a client. *)
Definition serving (i : nat) x : Prop := phase x = Destroyed /\ exists t c, threads x !! i = Some t /\ c ∈ loop_of t.

Lemma serving_set i j t x : serving i x -> (i = j -> exists c, c ∈ loop_of t) -> serving i (set_thread j t x).
Proof.
  intros [Hp (u & c & Hu & Hc)] Ht. split; [done|]. cbn. destruct (decide (i = j)) as [<-|Hne].
  - destruct (Ht eq_refl) as [c' Hc']. exists t, c'. split; [|done]. apply list_lookup_insert_eq. by eapply lookup_lt_Some.
  - exists u, c. by rewrite list_lookup_insert_ne.
Qed.

Lemma serving_same i x x' : phase x' = phase x -> threads x' = threads x -> serving i x -> serving i x'.
Proof. unfold serving. by intros -> ->. Qed.

Lemma serving_token i j x t : serving i x -> threads x !! j = Some t -> loop_of t = [] -> i <> j.
Proof. intros [_ (u & c & Hu & Hc)] Hj Ht <-. rewrite Hu in Hj. injection Hj as ->. rewrite Ht in Hc. by apply not_elem_of_nil in Hc. Qed.

(** It cannot leave its loop but through a component. *)
Lemma serving_step i a x x' : serving i x -> step a x = Some x' -> serving i x' \/ undefined x' = true.
Proof.
  intros Hv Hs. pose proof Hv as [Hp _]. unfold step in Hs. destruct (terminated x); [done|].
  assert (forall l, In Exited l -> True) as _ by done.
  destruct a as [fd woken|wakes|j|j|j data|j throws|j c data|j|j n|j c|j|c| | | | | | |]; rewrite ?Hp in Hs; try done.
  - unfold accept in Hs. destruct (accepting x); try done. destruct (_ && _); [|done]. cbv zeta in Hs. left. apply server_notify_cases in Hs as [->|(j & Hj & ->)]; [by apply (serving_same i x)|].
    apply serving_set; [by apply (serving_same i x)|]. intros Hij. by destruct (serving_token i j x Asleep Hv Hj eq_refl).
  - left. unfold accept_step in Hs. destruct (accepting x); [|destruct wakes, (server_stopped x)|]; simplify_eq; by apply (serving_same i x).
  - unfold io_step in Hs. destruct (threads x !! j) as [t|] eqn:Hj; [|done]. cbn in Hs. destruct t as [| | | |c|c fd|c s|c d|c|]; try done.
    + left. injection Hs as <-. apply serving_set; [done|]. intros Hij. by destruct (serving_token i j x _ Hv Hj eq_refl).
    + left. destruct (mutex_free x); [|done]. injection Hs as <-. pose proof (serving_token i j x _ Hv Hj eq_refl) as Hij. unfold take_task. destruct (io_stopped x); [by apply serving_set|]. destruct (queue_ x); apply serving_set; try done.
    + left. injection Hs as <-. apply serving_set; [done|]. intros Hij. by destruct (serving_token i j x _ Hv Hj eq_refl).
    + left. destruct (conns x !! c) as [k|]; [|done]. injection Hs as <-. apply serving_set; [done|]. intros _. exists c. destruct (_ || _); by left.
    + left. injection Hs as <-. apply serving_set; [done|]. intros _. exists c. destruct (open_fds x !! fd); by left.
    + right. injection Hs as <-. cbn. rewrite Hp. by rewrite orb_true_r.
  - left. destruct (threads x !! j) as [[]|] eqn:Hj; try done. injection Hs as <-. apply serving_set; [done|]. intros Hij. by destruct (serving_token i j x _ Hv Hj eq_refl).
  - left. unfold read_returns in Hs. destruct (threads x !! j) as [[| | | | | |c s| | |]|]; try done. destruct data; [|destruct (_ <=? _)%nat; [|done]]; injection Hs as <-; (apply serving_set; [done|]); intros _; exists c; by left.
  - right. unfold deliver in Hs. destruct (threads x !! j) as [[| | | | | | |c d| |]|]; try done. destruct throws; injection Hs as <-; cbn; rewrite Hp; by rewrite ?orb_true_r.
  - left. unfold send in Hs. destruct (senders x !! j) as [[]|]; try done. destruct (conns x !! c) as [k|]; [|done]. destruct (send_free c x); [|done]. injection Hs as <-. destruct (_ || _); by apply (serving_same i x).
  - left. unfold send_step in Hs. destruct (senders x !! j) as [[|c [|b r]|c fd r|]|]; try done; [|destruct (conns x !! c) as [k|]; [|done]|]; injection Hs as <-; by apply (serving_same i x).
  - left. unfold write_returns in Hs. destruct (senders x !! j) as [[| | |c s r]|]; try done. destruct n; [|destruct (_ <=? _)%nat; [|done]]; injection Hs as <-; by apply (serving_same i x).
  - left. unfold close in Hs. destruct (closers x !! j) as [[]|]; try done. destruct (conns x !! c) as [k|]; [|done]. injection Hs as <-. destruct (closed_ k); by apply (serving_same i x).
  - left. unfold close_step in Hs. destruct (closers x !! j) as [[| | |c| |]|]; try done; try (injection Hs as <-; by apply (serving_same i x)). destruct (conns x !! c) as [k|]; [|done]. injection Hs as <-. by apply (serving_same i x).
  - left. unfold release in Hs. destruct (conns x !! c) as [k|]; [|done]. cbn in Hs. destruct (used c x); [done|]. injection Hs as <-. apply (serving_same i x); [..|done]; cbn; by destruct (fd_ k <? 0).
  - exfalso. destruct (forallb _ (threads x)) eqn:E; [|done]. rewrite forallb_forall in E. destruct Hv as [_ (t & c & Ht & Hc)].
    specialize (E t). rewrite <- list_elem_of_In in E. specialize (E (list_elem_of_lookup_2 _ _ _ Ht)). destruct t; try done. by apply not_elem_of_nil in Hc.
Qed.

(** C23: A service destroyed while a client is connected cannot be destroyed safely: with a
    thread still in a read loop when the components are gone, the destructor returns only
    if a destroyed component has been called. *)
Theorem destroyed_with_client i x l x' : serving i x -> run l x = Some x' -> phase x' = Gone -> undefined x' = true.
Proof.
  intros Hv Hr Hg. enough (serving i x' \/ undefined x' = true) as [[Hp _]|?] by (congruence || done). clear Hg.
  revert Hr. apply (server_run_inv (fun y => serving i y \/ undefined y = true)); [|by left]. intros a y y' [Hy|Hy] Hs; [by eapply serving_step|right; by eapply undefined_step].
Qed.

(** Thread 0 serves a client when the service is stopped and destroyed. *)
Definition destroy_early : list action := connect 5 ++ [Io 0; Io 0; Io 0; Io 0; Stop; AcceptStep true; JoinAccept; StopIo; NotifyAll; Destroy].

Lemma destroy_early_run : exists x, run destroy_early (started 1 0 0) = Some x /\ serving 0 x.
Proof. eexists. split; [vm_compute; reflexivity|]. split; [done|]. exists (InRead 0 0), 0%nat. split; [done|by left]. Qed.

Definition end_of_client : list action := [ReadReturns 0 []; Io 0; Io 0; JoinPool].

Definition gone (o : option server) : bool := match o with Some x => match phase x with Gone => true | _ => false end | None => false end.
Definition has_conns (n : nat) (o : option server) : bool := match o with Some x => Nat.eqb (length (conns x)) n | None => false end.

Lemma end_of_client_gone : gone (run (destroy_early ++ end_of_client) (started 1 0 0)) = true.
Proof. vm_compute. reflexivity. Qed.

Lemma end_of_client_run x : run destroy_early (started 1 0 0) = Some x -> exists x', run end_of_client x = Some x' /\ phase x' = Gone.
Proof.
  intros Hx. pose proof end_of_client_gone as Hg. rewrite server_run_app, Hx in Hg. cbn [mbind option_bind] in Hg.
  destruct (run end_of_client x) as [x'|]; [|done]. exists x'. split; [done|]. cbn in Hg. by destruct (phase x').
Qed.

Lemma destroyed_with_client_witness : exists x x', run destroy_early (started 1 0 0) = Some x /\ run end_of_client x = Some x' /\ undefined x' = true.
Proof.
  destruct destroy_early_run as (x & Hx & Hv). destruct (end_of_client_run x Hx) as (x' & Hx' & Hp). exists x, x'. split; [exact Hx|]. split; [exact Hx'|].
  exact (destroyed_with_client 0 x end_of_client x' Hv Hx' Hp).
Defined.

(** ** A wakeup lost *)

(** The thread has found nothing to do when [stop] sets the flag and notifies, without the
    mutex; then it sleeps. *)
Definition stop_missed : list action :=
  [AcceptStep false; Io 0; Io 0; Stop; AcceptStep true; JoinAccept; StopIo; NotifyAll; Io 0; Destroy].

Definition asleep_for_good x : Prop := phase x = Destroyed /\ accepting x = Ended /\ threads x = [Asleep].
Definition not_spurious (a : action) : bool := match a with Spurious _ => false | _ => true end.

Lemma asleep_step a x x' : not_spurious a = true -> asleep_for_good x -> step a x = Some x' -> asleep_for_good x'.
Proof.
  intros Hq (H1 & H2 & H3) Hs. unfold step in Hs. destruct (terminated x); [done|]. destruct a as [fd woken|wakes|i|i|i data|i throws|i c data|i|i n|i c|i|c| | | | | | |]; rewrite ?H1 in Hs; try done.
  - unfold accept in Hs. by rewrite H2 in Hs.
  - unfold accept_step in Hs. by rewrite H2 in Hs.
  - unfold io_step in Hs. rewrite H3 in Hs. by destruct i as [|[]].
  - unfold read_returns in Hs. rewrite H3 in Hs. by destruct i as [|[]].
  - unfold deliver in Hs. rewrite H3 in Hs. by destruct i as [|[]].
  - unfold send in Hs. destruct (senders x !! i) as [[]|]; try done. destruct (conns x !! c) as [k|]; [|done]. destruct (send_free c x); [|done]. injection Hs as <-. by destruct (_ || _).
  - unfold send_step in Hs. destruct (senders x !! i) as [[|c [|b r]|c fd r|]|]; try done; [|destruct (conns x !! c) as [k|]; [|done]|]; by injection Hs as <-.
  - unfold write_returns in Hs. destruct (senders x !! i) as [[| | |c s r]|]; try done. destruct n; [|destruct (_ <=? _)%nat; [|done]]; by injection Hs as <-.
  - unfold close in Hs. destruct (closers x !! i) as [[]|]; try done. destruct (conns x !! c) as [k|]; [|done]. injection Hs as <-. by destruct (closed_ k).
  - unfold close_step in Hs. destruct (closers x !! i) as [[| | |c| |]|]; try done; try (by injection Hs as <-). destruct (conns x !! c) as [k|]; [|done]. by injection Hs as <-.
  - unfold release in Hs. destruct (conns x !! c) as [k|]; [|done]. cbn in Hs. destruct (used c x); [done|]. injection Hs as <-. unfold asleep_for_good. cbn. by destruct (fd_ k <? 0).
  - rewrite H3 in Hs. done.
Qed.

(** [IoService::stop] can be missed by a thread about to sleep, which then sleeps until
    a spurious wakeup: the destructor of the service never returns. *)
Theorem stop_missed_hangs ns nc : exists x, run stop_missed (started 1 ns nc) = Some x /\
  forall l x', forallb not_spurious l = true -> run l x = Some x' -> phase x' <> Gone /\ threads x' = [Asleep].
Proof.
  assert (exists x, run stop_missed (started 1 ns nc) = Some x /\ asleep_for_good x) as (x & Hx & Ha).
  { exists (mkServer ∅ [] ∅ Ended true [] true [Asleep] (replicate ns NotSending) (replicate nc NotClosing) Destroyed [] [] [] [] false false).
    split; [vm_compute; reflexivity|done]. }
  exists x. split; [exact Hx|]. intros l x' Hl Hr. clear Hx. revert x Ha Hr. induction l as [|a l IH]; intros x Ha Hr; cbn in Hr.
  - injection Hr as <-. destruct Ha as (H1 & _ & H3). split; [congruence|done].
  - apply andb_prop in Hl as [Hq Hl]. destruct (step a x) as [x1|] eqn:E; [|done]. apply (IH Hl x1); [by eapply asleep_step|done].
Qed.

(** ** Examples *)

(** One io thread, two clients: the second waits in the queue. *)
Definition two_clients : list action := connect 5 ++ connect 6 ++ [Io 0; Io 0; Io 0; Io 0].
Definition first_talks : list action := [ReadReturns 0 [Byte.x61]; Deliver 0 false; Io 0; Send 0 0 [Byte.x62]; SendStep 0; SendStep 0; WriteReturns 0 1].

Lemma two_clients_run : exists x, run two_clients (started 1 1 0) = Some x /\ busy x /\ queue_ x = [1]%nat.
Proof.
  eexists. split; [vm_compute; reflexivity|]. split; [|reflexivity]. apply Forall_singleton. exists (mkConn 5 false). split; [reflexivity|]. by split.
Qed.

Lemma first_talks_conns : has_conns 2 (run (two_clients ++ first_talks) (started 1 1 0)) = true.
Proof. vm_compute. reflexivity. Qed.

Lemma first_talks_run : exists x, run (two_clients ++ first_talks) (started 1 1 0) = Some x.
Proof. pose proof first_talks_conns as H. destruct (run _ _) as [x|]; [by exists x|done]. Qed.

Lemma first_talks_after x : run two_clients (started 1 1 0) = Some x -> exists x', run first_talks x = Some x'.
Proof. intros Hx. destruct first_talks_run as [x' Hx']. rewrite server_run_app, Hx in Hx'. by exists x'. Qed.

Lemma clients_beyond_threads_starve_witness : exists x x', run two_clients (started 1 1 0) = Some x /\ run first_talks x = Some x' /\
  about 1 (events x') = about 1 (events x).
Proof.
  destruct two_clients_run as (x & Hx & Hb & Hq). destruct (first_talks_after x Hx) as [x' Hx']. exists x, x'. split; [exact Hx|]. split; [exact Hx'|].
  destruct (clients_beyond_threads_starve 1 1 0 two_clients x first_talks x' Hx eq_refl Hb eq_refl Hx') as (_ & _ & H). apply H. rewrite Hq. by left.
Defined.

Lemma closed_descriptor_reused_witness : exists x, run (misdirected [Byte.x61]) (started 1 1 1) = Some x /\ writes x = [(0, 1, [Byte.x61])]%nat.
Proof. exact (proj1 (closed_descriptor_reused [Byte.x61] ltac:(cbn; lia))). Defined.

Lemma accepted_two x : run (two_clients ++ first_talks) (started 1 1 0) = Some x -> length (conns x) = 2%nat.
Proof. intros Hx. pose proof first_talks_conns as H. rewrite Hx in H. by apply Nat.eqb_eq in H. Qed.

Lemma connections_served_in_order_witness : exists x, run (two_clients ++ first_talks) (started 1 1 0) = Some x /\
  exists ms rest, chunks 0 (reads x) = ms ++ rest /\ (length rest <= 1)%nat.
Proof.
  destruct first_talks_run as [x Hx]. exists x. split; [exact Hx|]. pose proof (accepted_two x Hx) as Hl.
  destruct (connections_served_in_order 1 1 0 (two_clients ++ first_talks) x 0 Hx ltac:(lia)) as (ms & rest & H1 & H2 & _). by exists ms, rest.
Defined.

Lemma streams_own_witness : exists x, run (two_clients ++ first_talks) (started 1 1 0) = Some x /\
  Forall (fun r => r.1.2 = r.1.1) (writes x) /\ exists rest, concat (chunks 0 (writes x)) ++ rest = concat (messages_to 0 (sends x)).
Proof.
  destruct first_talks_run as [x Hx]. exists x. split; [exact Hx|].
  destruct (streams_own 1 1 0 (two_clients ++ first_talks) x Hx eq_refl) as (_ & H1 & H2). split; [exact H1|]. destruct (H2 eq_refl 0%nat) as (rest & H3 & _). by exists rest.
Defined.
