(* ===== verification/ServerMessages.v ===== *)
(** * ServerMessages: the protocol over the server's threads

    What is sent through Server is what the parser of Protocol receives at the other end,
    in both directions, and what one interrupted write does to the messages after it. *)

From S2P Require Import Prelude.
From S2P Require Import Framing.
From S2P Require Import Protocol.
From S2P Require Import Wire.
From S2P Require Import Server.
From S2P Require Import ServerFacts.
Import Endian Message.
#[local] Existing Instance Parser.feed_step_framing.

(** A message the protocol can carry. *)
Definition carried (m : Message) : Prop := Message_wf m /\ Z.of_nat (length (body m)) < 65536.

Lemma carried_frames e ms : Forall carried ms -> Forall2 (frames (Parser.feed_step e)) ms (map (serialize e) ms).
Proof. induction 1 as [|m ms [Hm Hl] _ IH]; constructor; [by apply Parser.serialize_frames|done]. Qed.

(** The messages that the service's callback was given for a connection. *)
Definition delivered c x : list (list byte) := omap (fun e => match e with Server.Message _ d => Some d | _ => None end) (about c (events x)).

Lemma omap_message c (ds : list (list byte)) : omap (fun e => match e with Server.Message _ d => Some d | _ => None end) (Server.Message c <$> ds) = ds.
Proof. induction ds as [|d ds IH]; [done|]. cbn. f_equal. exact IH. Qed.

Lemma delivered_chunks n ns nc l x c : run l (started n ns nc) = Some x -> (c < length (conns x))%nat ->
  (forall i d, threads x !! i <> Some (Delivering c d)) -> delivered c x = chunks c (reads x).
Proof.
  intros Hr Hc Hd. pose proof (server_run_inv (fun x => served_ok (core_of x)) l _ x served_step (served_started n ns nc) Hr) as H.
  destruct (all_served _ H c Hc) as (ms & rest & [(i & d & Hi & _)|[_ ->]] & Hm & Hv); [by destruct (Hd i d)|].
  unfold delivered. cbn [heard core_of] in Hv. rewrite Hv. cbn [omap list_omap].
  assert (forall a b : list event, omap (fun e => match e with Server.Message _ d => Some d | _ => None end) (a ++ b) =
    omap (fun e => match e with Server.Message _ d => Some d | _ => None end) a ++ omap (fun e => match e with Server.Message _ d => Some d | _ => None end) b) as Happ by apply omap_app.
  change (list_omap _ _ ?l) with (omap (fun e => match e with Server.Message _ d => Some d | _ => None end) l) in *.
  rewrite Happ, omap_message. cbn [taken core_of] in Hm. rewrite Hm. f_equal. by case_decide.
Qed.

(** C3: While nobody closes and no write fails, messages cross the server whole: those sent
    on a connection are those its client's parser receives from the bytes written, and
    those a client sends are those the parser receives from the chunks the service is
    given, however many threads send, read and handle. *)
Theorem messages_cross_server e n ns nc l x c ms : run l (started n ns nc) = Some x -> forallb fine l = true -> (c < length (conns x))%nat ->
  (forall i t, senders x !! i = Some t -> c ∉ send_conn t) -> (forall i d, threads x !! i <> Some (Delivering c d)) -> Forall carried ms ->
  (messages_to c (sends x) = map (serialize e) ms -> fits (concat (chunks c (writes x))) ->
     exists p, feed_all (Parser.feed_step e) (chunks c (writes x)) decoder_init = Ok (ms, p) /\ pending p = []) /\
  (concat (chunks c (reads x)) = concat (map (serialize e) ms) -> fits (concat (chunks c (reads x))) ->
     exists p, feed_all (Parser.feed_step e) (delivered c x) decoder_init = Ok (ms, p) /\ pending p = []).
Proof.
  intros Hr Hf Hc Hs Hd Hms. pose proof (carried_frames e ms Hms) as Hfr. split; intros Heq Hfit.
  - destruct (whole_run _ _ _ Hf (started_owned n ns nc) (started_whole n ns nc) Hr) as [_ Hw]. destruct (Hw c) as (rest & Hout & He).
    destruct Hout as [(i & t & Hi & Ht)|[_ ->]]; [exfalso; apply (Hs i t Hi); rewrite (remaining_conn _ _ _ Ht); by left|].
    rewrite app_nil_r, Heq in He. apply (feed_frames _ ms _ _ Hfr He). by rewrite <- He.
  - rewrite (delivered_chunks n ns nc l x c Hr Hc Hd). apply (feed_frames _ ms _ _ Hfr Heq). by rewrite <- Heq.
Qed.

(** A client says hello and is answered. *)
Definition hello : Message := mkMessage 7 [Byte.x41; Byte.x42].
Definition answer : Message := mkMessage 8 [Byte.x43].
Definition hello_bytes : list byte := serialize Little hello.
Definition conversation : list action :=
  [AcceptStep false; Accept 5 None; Io 0; Io 0; Io 0; Io 0; ReadReturns 0 (take 3 hello_bytes); Deliver 0 false; Io 0; Io 0; ReadReturns 0 (drop 3 hello_bytes); Deliver 0 false;
   Send 0 0 (serialize Little answer); SendStep 0; SendStep 0; WriteReturns 0 2; SendStep 0; SendStep 0; WriteReturns 0 3; SendStep 0].

Definition quiet_end (x : server) : bool :=
  match senders x, threads x, conns x with [NotSending], [AtHead 0], [_] => true | _, _, _ => false end &&
  bool_decide (messages_to 0 (sends x) = [serialize Little answer]) && bool_decide (concat (chunks 0 (reads x)) = hello_bytes) &&
  bool_decide (length (concat (chunks 0 (writes x))) = 5%nat).

Lemma conversation_ends : match run conversation (started 1 1 0) with Some x => quiet_end x | None => false end = true.
Proof. vm_compute. reflexivity. Qed.

Lemma conversation_run : exists x, run conversation (started 1 1 0) = Some x /\ length (conns x) = 1%nat /\ senders x = [NotSending] /\ threads x = [AtHead 0] /\
  messages_to 0 (sends x) = [serialize Little answer] /\ concat (chunks 0 (reads x)) = hello_bytes /\ length (concat (chunks 0 (writes x))) = 5%nat.
Proof.
  pose proof conversation_ends as H. destruct (run conversation _) as [x|]; [|done]. exists x. split; [done|]. unfold quiet_end in H.
  apply andb_prop in H as [H H3%bool_decide_eq_true]. apply andb_prop in H as [H H2%bool_decide_eq_true]. apply andb_prop in H as [H H1%bool_decide_eq_true].
  destruct (senders x) as [|[| | |] [|]]; try done. destruct (threads x) as [|[| | | |k|k f|k s|k d|k|] [|]]; try done.
  all: destruct k; try done. by destruct (conns x) as [|k [|]].
Qed.

Lemma messages_cross_server_witness : exists x, run conversation (started 1 1 0) = Some x /\
  exists p, feed_all (Parser.feed_step Little) (chunks 0 (writes x)) decoder_init = Ok ([answer], p) /\ pending p = [].
Proof.
  destruct conversation_run as (x & Hx & Hl & Hs & Ht & Hm & _ & Hb). exists x. split; [exact Hx|].
  apply (messages_cross_server Little 1 1 0 conversation x 0 [answer] Hx eq_refl ltac:(lia)).
  - rewrite Hs. intros [|i] t Hi; [injection Hi as <-; apply not_elem_of_nil|done].
  - rewrite Ht. intros [|i] d; done.
  - repeat constructor; cbn; lia.
  - exact Hm.
  - unfold fits. rewrite Hb. lia.
Defined.

(** ** An interrupted write *)

(** The header of the first message is written; the next write is interrupted. *)
Definition interrupted (m1 m2 : Message) : list action :=
  [AcceptStep false; Accept 5 None; Send 0 0 (serialize Little m1); SendStep 0; SendStep 0; WriteReturns 0 4; SendStep 0; SendStep 0; WriteReturns 0 0;
   Send 0 0 (serialize Little m2); SendStep 0; SendStep 0; WriteReturns 0 4; SendStep 0].

(** After a write that is interrupted the rest of the message is not sent, and the
    connection goes on: the client takes the next message for the rest of it. *)
Theorem interrupted_send_swallows : exists x d,
  run (interrupted (mkMessage 1 [Byte.x61; Byte.x62; Byte.x63; Byte.x64]) (mkMessage 2 [])) (started 1 1 0) = Some x /\
  feed_all (Parser.feed_step Little) (chunks 0 (writes x)) decoder_init = Ok ([mkMessage 1 [Byte.x00; Byte.x02; Byte.x00; Byte.x00]], d) /\
  pending d = [].
Proof.
  assert (match run (interrupted (mkMessage 1 [Byte.x61; Byte.x62; Byte.x63; Byte.x64]) (mkMessage 2 [])) (started 1 1 0) with
    | Some x => bool_decide (chunks 0 (writes x) = [[Byte.x00; Byte.x01; Byte.x00; Byte.x04]; [Byte.x00; Byte.x02; Byte.x00; Byte.x00]])
    | None => false end = true) as H by (vm_compute; reflexivity).
  destruct (run _ _) as [x|]; [|done]. apply bool_decide_eq_true in H. exists x. eexists. split; [done|]. rewrite H. split; [vm_compute; reflexivity|reflexivity].
Qed.
