(* ===== verification/DelayedQueue.v ===== *)
(** * DelayedQueue: DelayedTaskQueue of task/task_queue.h

    The timing wheel of TimerWheel, whose callbacks submit the tasks to a TaskQueue.  A
    task is a number; [behaviour] says how its function ends. *)

From S2P Require Import Prelude.
From S2P Require Import Protocol.
From S2P Require Import Wire.
From S2P Require TimerWheel.
From S2P Require TaskQueue.
Import TimerWheel(TimerHandle, TimerHandle_default, mkHandle, handle_id, valid, timer_wheel).

Record Config := mkConfig { worker_threads : Z; tick_interval_ms : Z }.
Definition Config_init : Config := mkConfig 2 100.

(** [bound]: the task each timer's callback has captured, by the timer's id. *)
Record DelayedTaskQueue := mkDelayed {
  config_ : Config;
  timer_wheel_ : option timer_wheel;
  bound : gmap Z Z;
  queue_config : TaskQueue.Config;
  task_queue_ : TaskQueue.world
}.

(** [task_queue_] has its own default configuration. *)
Definition DelayedTaskQueue_init (c : Config) : DelayedTaskQueue := mkDelayed c None ∅ TaskQueue.Config_init TaskQueue.initial.

Definition with_wheel (w : option timer_wheel) (d : DelayedTaskQueue) : DelayedTaskQueue :=
  mkDelayed (config_ d) w (bound d) (queue_config d) (task_queue_ d).
Definition bind_task (id task : Z) (d : DelayedTaskQueue) : DelayedTaskQueue :=
  mkDelayed (config_ d) (timer_wheel_ d) (<[id := task]> (bound d)) (queue_config d) (task_queue_ d).
Definition with_queue (q : TaskQueue.world) (d : DelayedTaskQueue) : DelayedTaskQueue :=
  mkDelayed (config_ d) (timer_wheel_ d) (bound d) (queue_config d) q.

(** A new wheel, whatever there was before; then [task_queue_.start()]. *)
Definition start_wheel (d : DelayedTaskQueue) : outcome DelayedTaskQueue :=
  w ←o TimerWheel.TimerWheel (tick_interval_ms (config_ d)) 60 4;
  Ok (mkDelayed (config_ d) (Some (TimerWheel.start w)) ∅ (queue_config d) (task_queue_ d)).

Definition start (d : DelayedTaskQueue) : outcome (option DelayedTaskQueue) :=
  d1 ←o start_wheel d;
  Ok (q ← TaskQueue.exec (queue_config d1) TaskQueue.Start (task_queue_ d1); Some (with_queue q d1)).

(** The wheel goes; the steps of [task_queue_.stop()] follow, among those of the workers. *)
Definition stop (d : DelayedTaskQueue) : DelayedTaskQueue :=
  mkDelayed (config_ d) None ∅ (queue_config d) (task_queue_ d).

Section Queue.
Context (clock : nat -> Z) (behaviour : Z -> TaskQueue.ending unit).

(** A scheduled task: its handle, and the callback bound to it if the wheel took it. *)
Definition scheduled (task : Z) (d : DelayedTaskQueue) (r : outcome (TimerHandle * timer_wheel)) : outcome (TimerHandle * DelayedTaskQueue) :=
  obind r (fun '(h, w) => let d1 := with_wheel (Some w) d in Ok (h, if valid h then bind_task (handle_id h) task d1 else d1)).

Definition schedule (delay_ms task : Z) (d : DelayedTaskQueue) : outcome (TimerHandle * DelayedTaskQueue) :=
  match timer_wheel_ d with
  | None => Ok (TimerHandle_default, d)
  | Some w => scheduled task d (TimerWheel.add_timer clock delay_ms (Some task) w)
  end.

Definition schedule_repeat (interval_ms task : Z) (d : DelayedTaskQueue) : outcome (TimerHandle * DelayedTaskQueue) :=
  match timer_wheel_ d with
  | None => Ok (TimerHandle_default, d)
  | Some w => scheduled task d (TimerWheel.add_repeat_timer clock interval_ms (Some task) w)
  end.

Definition cancel (h : TimerHandle) (d : DelayedTaskQueue) : TimerHandle * DelayedTaskQueue :=
  match timer_wheel_ d with
  | None => (h, d)
  | Some w => let '(h1, w1) := TimerWheel.cancel_timer h w in (h1, with_wheel (Some w1) d)
  end.

Definition pending_count (d : DelayedTaskQueue) : Z :=
  i32 (TaskQueue.pending_count (TaskQueue.queue (task_queue_ d)) + match timer_wheel_ d with Some _ => 0 | None => 0 end).

(** The callback of a timer: [submit_void] of its task, an object at [addr]. *)
Definition submission (addr : Z) (d : DelayedTaskQueue) (id : Z) : list TaskQueue.action :=
  match bound d !! id with
  | Some task => [TaskQueue.Submit (TaskQueue.execute (TaskQueue.submit_void (behaviour task)) None).2 TaskQueue.NORMAL 0 0 addr]
  | None => []
  end.

(** One turn of the wheel's thread: the steps it then takes on the task queue, each
    followed by its [Push], with the steps of the other threads between. *)
Definition turn (fuel : nat) (addr : Z) (d : DelayedTaskQueue) : outcome (DelayedTaskQueue * list TaskQueue.action) :=
  match timer_wheel_ d with
  | None => Ok (d, [])
  | Some w => obind (TimerWheel.tick clock (fun _ w => w) fuel w) (fun '(w1, fired) => Ok (with_wheel (Some w1) d, fired ≫= submission addr d))
  end.

Fixpoint turns (n fuel : nat) (addr : Z) (d : DelayedTaskQueue) : outcome (DelayedTaskQueue * list (list TaskQueue.action)) :=
  match n with
  | O => Ok (d, [])
  | S n' => obind (turn fuel addr d) (fun '(d1, acts) => obind (turns n' fuel addr d1) (fun '(d2, rest) => Ok (d2, acts :: rest)))
  end.
End Queue.

(** ** From a schedule to the task queue *)

Section Facts.
Context (clock : nat -> Z) (jitter : Z) (behaviour : Z -> TaskQueue.ending unit).
Hypothesis clock_steady : forall k, clock k <= clock (S k) <= clock k + jitter.
Abbreviation good := (TimerWheel.good clock jitter).

Lemma turns_loop n fuel addr d w w' fs : timer_wheel_ d = Some w -> TimerWheel.run_loop clock (fun _ w => w) n fuel w = Ok (w', fs) ->
  turns clock behaviour n fuel addr d = Ok (with_wheel (Some w') d, (fun f => f ≫= submission behaviour addr d) <$> fs).
Proof.
  revert d w fs. induction n as [|n IH]; intros d w fs Hw Hr; cbn [turns TimerWheel.run_loop] in *.
  - injection Hr as -> <-. destruct d. cbn in Hw. by subst.
  - unfold turn. rewrite Hw. destruct (TimerWheel.tick clock _ fuel w) as [[w1 fired]| |]; try done. cbn [obind] in *.
    destruct (TimerWheel.run_loop clock _ n fuel w1) as [[w2 rest]| |] eqn:E; try done. cbn in Hr. injection Hr as -> <-.
    by rewrite (IH (with_wheel (Some w1) d) w1 rest eq_refl E).
Qed.

(** What a user's function does, as the task's [execute] ends. *)
Definition body_of (task : Z) : TaskQueue.ending unit := (TaskQueue.execute (TaskQueue.submit_void (behaviour task)) None).2.

(** A started queue after any calls, turns of the wheel's thread and steps of the task
    queue, whose repeating tasks are slower than a tick by the clock's jitter. *)
Inductive calm (d0 : DelayedTaskQueue) : DelayedTaskQueue -> Prop :=
| calm_started d : start_wheel d0 = Ok d -> calm d0 d
| calm_schedule d w delay task h d' : calm d0 d -> timer_wheel_ d = Some w -> TimerWheel.ids_left w -> delay < 2 ^ 31 ->
    schedule clock delay task d = Ok (h, d') -> calm d0 d'
| calm_schedule_repeat d w interval task h d' : calm d0 d -> timer_wheel_ d = Some w -> TimerWheel.ids_left w ->
    (0 < interval -> tick_interval_ms (config_ d0) + jitter <= interval < 2 ^ 31) ->
    schedule_repeat clock interval task d = Ok (h, d') -> calm d0 d'
| calm_cancel d w h : calm d0 d -> timer_wheel_ d = Some w -> (valid h = true -> handle_id h < TimerWheel.next_id_ w) ->
    calm d0 (cancel h d).2
| calm_turn d w fuel addr d' acts : calm d0 d -> timer_wheel_ d = Some w -> (length (TimerWheel.held w) < fuel)%nat ->
    turn clock behaviour fuel addr d = Ok (d', acts) -> calm d0 d'
| calm_tasks d q : calm d0 d -> calm d0 (with_queue q d).

Abbreviation calm_wheel := (TimerWheel.calm clock jitter (fun _ w => w)).

Lemma scheduled_wheel task d r h d' : scheduled task d r = Ok (h, d') -> exists w', r = Ok (h, w') /\ timer_wheel_ d' = Some w'.
Proof. unfold scheduled. intros H. apply obind_ok in H as ([h1 w1] & -> & [= <- <-]). exists w1. split; [done|]. by destruct (valid h1). Qed.

Lemma calm_has_wheel d0 d : calm d0 d -> exists w0 w, TimerWheel.TimerWheel (tick_interval_ms (config_ d0)) 60 4 = Ok w0
  /\ timer_wheel_ d = Some w /\ calm_wheel (tick_interval_ms (config_ d0)) w0 w.
Proof.
  intros Hc. induction Hc as [d Hs|d w delay task h d' Hc IH Hw Hi Hd Hs|d w iv task h d' Hc IH Hw Hi Hd Hs|d w h Hc IH Hw Hh|d w fuel addr d' acts Hc IH Hw Hf Ht|d q Hc IH].
  - unfold start_wheel in Hs. apply obind_ok in Hs as (w0 & H0 & [= <-]). exists w0, (TimerWheel.start w0). split_and!; [done|done|].
    apply TimerWheel.calm_start, TimerWheel.calm_new.
  - destruct IH as (w0 & w1 & H0 & Hw1 & Hcw). rewrite Hw in Hw1. injection Hw1 as <-.
    unfold schedule in Hs. rewrite Hw in Hs. apply scheduled_wheel in Hs as (w' & Ha & Hw'). exists w0, w'. split_and!; [done|done|].
    by eapply TimerWheel.calm_add_timer.
  - destruct IH as (w0 & w1 & H0 & Hw1 & Hcw). rewrite Hw in Hw1. injection Hw1 as <-.
    unfold schedule_repeat in Hs. rewrite Hw in Hs. apply scheduled_wheel in Hs as (w' & Ha & Hw'). exists w0, w'. split_and!; [done|done|].
    by eapply TimerWheel.calm_add_repeat_timer.
  - destruct IH as (w0 & w1 & H0 & Hw1 & Hcw). rewrite Hw in Hw1. injection Hw1 as <-.
    exists w0, (TimerWheel.cancel_timer h w).2. unfold cancel. rewrite Hw.
    pose proof (TimerWheel.calm_cancel _ _ _ _ _ _ h Hcw Hh) as Hcc. by destruct (TimerWheel.cancel_timer h w).
  - destruct IH as (w0 & w1 & H0 & Hw1 & Hcw). rewrite Hw in Hw1. injection Hw1 as <-.
    unfold turn in Ht. rewrite Hw in Ht. apply obind_ok in Ht as ([w' fired] & Ht & [= <- _]). exists w0, w'. split_and!; [done|done|].
    by eapply TimerWheel.calm_tick.
  - done.
Qed.

End Facts.

(** A tick of more than 165 ms overflows the four layers of the wheel that [start] makes. *)
Theorem long_tick_overflows d : 165 < tick_interval_ms (config_ d) -> start d = Undefined.
Proof. intros Ht. unfold start, start_wheel. rewrite TimerWheel.constructor_overflows; [done|lia|lia|done|]. change (60 ^ Z.of_nat 4) with 12960000. lia. Qed.

Lemma long_tick_overflows_witness : start (DelayedTaskQueue_init (mkConfig 2 200)) = Undefined.
Proof. apply long_tick_overflows. cbn. lia. Defined.

(** ** Starting again *)

(** The identifier of the first task scheduled on a new wheel is 1. *)
Lemma first_schedule clock jitter d delay task : (forall k, clock k <= clock (S k) <= clock k + jitter) ->
  0 < tick_interval_ms (config_ d) <= 165 -> 0 < delay < 2 ^ 31 -> Z.max 1 (clock 0%nat + delay - clock 1%nat) < 60 * tick_interval_ms (config_ d) ->
  exists d0 w, start_wheel d = Ok d0 /\ config_ d0 = config_ d /\
    schedule clock delay task d0 = Ok (mkHandle 1 true, bind_task 1 task (with_wheel (Some w) d0)).
Proof.
  intros Hck Ht Hd Hspan.
  destruct (TimerWheel.TimerWheel_made (tick_interval_ms (config_ d)) 60 4) as (w0 & H0 & _ & _ & _ & Hr & Hid); [lia..| |].
  { change (60 ^ Z.of_nat 4) with 12960000. lia. }
  pose proof (TimerWheel.TimerWheel_good clock jitter _ 60 4 w0 (proj1 Ht) ltac:(lia) ltac:(lia) H0) as Hg.
  destruct (TimerWheel.start_good clock jitter _ w0 Hg) as (v & Hgv & E1 & _ & E2). cbn in E1, E2.
  assert (TimerWheel.reads (TimerWheel.start w0) = 0%nat /\ TimerWheel.next_id_ (TimerWheel.start w0) = 1) as [Hr' Hid'].
  { unfold TimerWheel.start. by destruct (TimerWheel.running_ w0). }
  destruct (TimerWheel.add_timer_good clock jitter Hck v _ delay task Hgv) as (s1 & t & l & p & Ha & _).
  - unfold TimerWheel.ids_left. by rewrite Hid'.
  - done.
  - rewrite Hr', E2. exact Hspan.
  - exists (mkDelayed (config_ d) (Some (TimerWheel.start w0)) ∅ (queue_config d) (task_queue_ d)), s1. unfold start_wheel. rewrite H0. split_and!; [done|done|].
    unfold schedule, scheduled. cbn. by rewrite Ha, Hid'.
Qed.

(** Starting again begins a new wheel, whose identifiers begin again: a handle of a
    task scheduled before cancels another, scheduled after. *)
Theorem stale_handle_cancels_another clock1 clock2 jitter d delay1 delay2 a b :
  (forall k, clock1 k <= clock1 (S k) <= clock1 k + jitter) -> (forall k, clock2 k <= clock2 (S k) <= clock2 k + jitter) ->
  0 < tick_interval_ms (config_ d) <= 165 -> 0 < delay1 < 2 ^ 31 -> 0 < delay2 < 2 ^ 31 ->
  Z.max 1 (clock1 0%nat + delay1 - clock1 1%nat) < 60 * tick_interval_ms (config_ d) ->
  Z.max 1 (clock2 0%nat + delay2 - clock2 1%nat) < 60 * tick_interval_ms (config_ d) ->
  exists d0 h d1 d2 h' d3 w, start_wheel d = Ok d0 /\ schedule clock1 delay1 a d0 = Ok (h, d1) /\
    start_wheel d1 = Ok d2 /\ schedule clock2 delay2 b d2 = Ok (h', d3) /\
    timer_wheel_ (cancel h d3).2 = Some w /\ TimerWheel.is_timer_valid h' w = false.
Proof.
  intros Hc1 Hc2 Ht H1 H2 S1 S2. destruct (first_schedule clock1 jitter d delay1 a Hc1 Ht H1 S1) as (d0 & w1 & E0 & Ec & E1).
  set (d1 := bind_task 1 a (with_wheel (Some w1) d0)) in *.
  destruct (first_schedule clock2 jitter d1 delay2 b Hc2) as (d2 & w2 & E2 & _ & E3); [cbn; by rewrite Ec|done|cbn; by rewrite Ec|].
  eexists d0, _, d1, d2, _, _, _. split; [exact E0|]. split; [exact E1|]. split; [exact E2|]. split; [exact E3|]. split; [reflexivity|].
  unfold TimerWheel.is_timer_valid. cbn [valid negb handle_id]. cbn. destruct (TimerWheel.task_map_ w2 !! 1) as [p|] eqn:E.
  - cbn. by rewrite lookup_delete_eq.
  - by rewrite E.
Qed.

(** ** Examples *)

Definition demo_clock (k : nat) : Z := 25 * Z.of_nat k.
Definition demo_behaviour (_ : Z) : TaskQueue.ending unit := TaskQueue.Returns tt.
Definition demo_queue : DelayedTaskQueue := DelayedTaskQueue_init Config_init.

Lemma demo_steady k : demo_clock k <= demo_clock (S k) <= demo_clock k + 25.
Proof. unfold demo_clock. lia. Qed.

Definition demo_started : DelayedTaskQueue := match start_wheel demo_queue with Ok d => d | _ => demo_queue end.

Lemma demo_started_ok : start_wheel demo_queue = Ok demo_started.
Proof. vm_compute. reflexivity. Qed.


Lemma stale_handle_cancels_another_witness : exists d0 h d1 d2 h' d3 w, start_wheel demo_queue = Ok d0 /\ schedule demo_clock 350 9 d0 = Ok (h, d1) /\
  start_wheel d1 = Ok d2 /\ schedule demo_clock 450 8 d2 = Ok (h', d3) /\ timer_wheel_ (cancel h d3).2 = Some w /\ TimerWheel.is_timer_valid h' w = false.
Proof.
  apply (stale_handle_cancels_another demo_clock demo_clock 25 demo_queue 350 450 9 8 demo_steady demo_steady); try done.
Defined.
