(* ===== verification/Sql.v ===== *)
(** * Sql: what a MySQL server is asked, and what its manual says it does

    The client library and the server are not in src/: a server is a function of a class,
    from the text of a prepared statement and its parameters to an answer.  What the code
    relies on is the documented meaning of a statement, given here once for every statement
    of a fragment of SQL on one table of keys, values and times of expiry: a text is cut
    into words, read as a statement, and its condition is a truth value for each row.
    Nothing here knows the statements that the code sends; Mysql reads them. *)

From S2P Require Import Prelude.
From S2P Require Import Protocol.
From S2P Require Import Wire.
From S2P Require Import Effects.

(** A parameter bound to a statement, and a column of an answer. *)
Inductive cell := CString (s : str) | CInt (z : Z) | CNull.

(** A statement at the server's clock: an error, or its rows. *)
Class MysqlServer (DB : Type) := {
  execute : str -> list cell -> Z -> DB -> (str + list (list cell)) * DB
}.

(** ** The words of a statement *)

Inductive token := TWord (w : str) | TName (n : str) | TSym (c : byte).

(** Between words, in a word, in a name between backquotes. *)
Inductive reading := Between | InWord (w : str) | InName (n : str).

Definition backquote : byte := Byte.x60.
Definition digit (c : byte) : bool := (48 <=? byte_val c) && (byte_val c <=? 57).
Definition word_char (c : byte) : bool :=
  let z := byte_val c in digit c || (65 <=? z) && (z <=? 90) || (97 <=? z) && (z <=? 122) || Byte.eqb c Byte.x5f.

Fixpoint lex (m : reading) (s : str) : list token :=
  match s with
  | [] => match m with Between => [] | InWord w => [TWord w] | InName _ => [TSym backquote] end
  | c :: s' =>
      match m with
      | InName n => if Byte.eqb c backquote then TName n :: lex Between s' else lex (InName (n ++ [c])) s'
      | _ =>
          if word_char c then lex (InWord (match m with InWord w => w ++ [c] | _ => [c] end)) s'
          else (match m with InWord w => cons (TWord w) | _ => id end)
               (if Byte.eqb c backquote then lex (InName []) s'
                else if Byte.eqb c Byte.x20 then lex Between s'
                else TSym c :: lex Between s')
      end
  end.

(** ** Statements *)

(** The columns of the table: [k], [v], [expire_at]. *)
Inductive column := Key | Value | ExpireAt.
#[export] Instance column_eq_dec : EqDecision column.
Proof. solve_decision. Defined.

(** A parameter is known by its place among the [?] of the text. *)
Inductive expr := EColumn (c : column) | EParam (i : nat) | EInt (z : Z) | ENow.
Inductive relop := REq | RNe | RLt | RLe | RGt | RGe.
Inductive cond := Rel (o : relop) (a b : expr) | And (a b : cond) | Or (a b : cond).

Inductive stmt :=
| Select (what : expr) (table : str) (where_ : cond) (limit : option nat)
| Delete (table : str) (where_ : cond)
| Replace (table : str) (columns : list column) (values : list expr).

(** ** Reading a statement *)

(** What a reader makes of the words it takes, the [?] counted so far, the words left. *)
Definition reader (A : Type) : Type := nat -> list token -> option (A * nat * list token).

Definition returns {A} (a : A) : reader A := fun n ts => Some (a, n, ts).
Definition bind {A B} (r : reader A) (f : A -> reader B) : reader B :=
  fun n ts => match r n ts with Some (a, n1, ts1) => f a n1 ts1 | None => None end.
Definition alternative {A} (r r' : reader A) : reader A :=
  fun n ts => match r n ts with Some x => Some x | None => r' n ts end.

Declare Scope reader_scope.
Delimit Scope reader_scope with reader.
Notation "a <~ r ;; r'" := (bind r (fun a => r')) (at level 100, r at next level, right associativity) : reader_scope.
Notation "r >> r'" := (bind r (fun _ => r')) (at level 100, r' at level 200, right associativity) : reader_scope.
Notation "r <|> r'" := (alternative r r') (at level 60, right associativity) : reader_scope.
Local Open Scope reader_scope.

Definition token_eqb (a b : token) : bool :=
  match a, b with TWord x, TWord y | TName x, TName y => bool_decide (x = y) | TSym x, TSym y => Byte.eqb x y | _, _ => false end.

Definition expect (t : token) : reader unit :=
  fun n ts => match ts with u :: ts' => if token_eqb t u then Some (tt, n, ts') else None | [] => None end.
Definition word (w : string) : reader unit := expect (TWord (lit w)).
Definition sym (c : byte) : reader unit := expect (TSym c).
Definition end_of_text : reader unit := fun n ts => match ts with [] => Some (tt, n, []) | _ => None end.
Definition any_word {A} (f : str -> option A) : reader A :=
  fun n ts => match ts with TWord w :: ts' => (fun a => (a, n, ts')) <$> f w | _ => None end.
Definition name : reader str := fun n ts => match ts with TName x :: ts' => Some (x, n, ts') | _ => None end.
Definition param : reader expr := fun n ts => match ts with TSym Byte.x3f :: ts' => Some (EParam n, S n, ts') | _ => None end.

Definition column_of (w : str) : option column :=
  if bool_decide (w = lit "k") then Some Key
  else if bool_decide (w = lit "v") then Some Value
  else if bool_decide (w = lit "expire_at") then Some ExpireAt
  else None.

Definition number_of (w : str) : option Z :=
  match w with
  | [] => None
  | _ => if forallb digit w then Some (foldl (fun z c => z * 10 + (byte_val c - 48)) 0 w) else None
  end.

Definition read_expr : reader expr :=
  param <|> any_word (fun w => EColumn <$> column_of w) <|> any_word (fun w => EInt <$> number_of w) <|>
  (word "UNIX_TIMESTAMP" >> sym Byte.x28 >> sym Byte.x29 >> returns ENow).

(** [=], [<>], [<=], [<], [>=], [>]. *)
Definition read_relop : reader relop :=
  (sym Byte.x3d >> returns REq) <|>
  (sym Byte.x3c >> ((sym Byte.x3e >> returns RNe) <|> (sym Byte.x3d >> returns RLe) <|> returns RLt)) <|>
  (sym Byte.x3e >> ((sym Byte.x3d >> returns RGe) <|> returns RGt)).

(** A disjunction, a conjunction, a comparison or a condition in parentheses: [AND] binds
    tighter than [OR].  The fuel is the depth of the calls. *)
Inductive level := LOr | LAnd | LAtom.

Fixpoint read_cond (fuel : nat) (l : level) : reader cond :=
  match fuel with
  | O => fun _ _ => None
  | S fuel =>
      match l with
      | LOr => a <~ read_cond fuel LAnd ;; ((word "OR" >> b <~ read_cond fuel LOr ;; returns (Or a b)) <|> returns a)
      | LAnd => a <~ read_cond fuel LAtom ;; ((word "AND" >> b <~ read_cond fuel LAnd ;; returns (And a b)) <|> returns a)
      | LAtom =>
          (sym Byte.x28 >> a <~ read_cond fuel LOr ;; sym Byte.x29 >> returns a) <|>
          (a <~ read_expr ;; o <~ read_relop ;; b <~ read_expr ;; returns (Rel o a b))
      end
  end.

(** A list between parentheses, its elements separated by commas. *)
Fixpoint read_more {A} (r : reader A) (fuel : nat) : reader (list A) :=
  match fuel with
  | O => fun _ _ => None
  | S fuel => (sym Byte.x29 >> returns []) <|> (sym Byte.x2c >> a <~ r ;; l <~ read_more r fuel ;; returns (a :: l))
  end.
Definition read_list {A} (r : reader A) (fuel : nat) : reader (list A) :=
  sym Byte.x28 >> a <~ r ;; l <~ read_more r fuel ;; returns (a :: l).

Definition read_limit : reader (option nat) :=
  (word "LIMIT" >> z <~ any_word number_of ;; returns (Some (Z.to_nat z))) <|> returns None.

Definition read_stmt (fuel : nat) : reader stmt :=
  (word "SELECT" >> e <~ read_expr ;; word "FROM" >> t <~ name ;; word "WHERE" >> c <~ read_cond fuel LOr ;;
     l <~ read_limit ;; end_of_text >> returns (Select e t c l)) <|>
  (word "DELETE" >> word "FROM" >> t <~ name ;; word "WHERE" >> c <~ read_cond fuel LOr ;; end_of_text >> returns (Delete t c)) <|>
  (word "REPLACE" >> word "INTO" >> t <~ name ;; cs <~ read_list (any_word column_of) fuel ;;
     word "VALUES" >> es <~ read_list read_expr fuel ;; end_of_text >> returns (Replace t cs es)).

(** The statement a text is, and how many parameters it takes. *)
Definition parse (sql : str) : option (stmt * nat) :=
  let ts := lex Between sql in (fun '(s, n, _) => (s, n)) <$> read_stmt (3 * length ts)%nat O ts.

(** ** What a statement means *)

(** A row: the key as it was put, the value, the time of expiry. *)
Definition row : Type := str * str * Z.
Definition row_key (r : row) : str := r.1.1.
Definition row_value (r : row) : str := r.1.2.

Definition value_of (params : list cell) (now : Z) (r : row) (e : expr) : option cell :=
  match e with
  | EColumn Key => Some (CString (row_key r))
  | EColumn Value => Some (CString (row_value r))
  | EColumn ExpireAt => Some (CInt r.2)
  | EParam i => params !! i
  | EInt z => Some (CInt z)
  | ENow => Some (CInt now)
  end.

Definition relates (o : relop) (x y : Z) : bool :=
  match o with REq => x =? y | RNe => negb (x =? y) | RLt => x <? y | RLe => x <=? y | RGt => y <? x | RGe => y <=? x end.

(** Strings are compared for equality alone, as the collation does; a comparison of other
    kinds of values is not given a meaning. *)
Definition compare_cells (collation : str -> str) (o : relop) (a b : cell) : option bool :=
  match a, b with
  | CInt x, CInt y => Some (relates o x y)
  | CString x, CString y =>
      match o with
      | REq => Some (bool_decide (collation x = collation y))
      | RNe => Some (bool_decide (collation x <> collation y))
      | _ => None
      end
  | _, _ => None
  end.

Fixpoint holds (collation : str -> str) (params : list cell) (now : Z) (c : cond) (r : row) : option bool :=
  match c with
  | Rel o a b =>
      match value_of params now r a, value_of params now r b with
      | Some x, Some y => compare_cells collation o x y
      | _, _ => None
      end
  | And a b => match holds collation params now a r, holds collation params now b r with Some x, Some y => Some (x && y) | _, _ => None end
  | Or a b => match holds collation params now a r, holds collation params now b r with Some x, Some y => Some (x || y) | _, _ => None end
  end.

(** The value given for a column, the columns and the values being listed in parallel. *)
Definition given (params : list cell) (now : Z) (columns : list column) (values : list expr) (c : column) : option cell :=
  match list_find (fun c' => c' = c) columns with
  | None => None
  | Some (i, _) => match values !! i with Some (EColumn _) | None => None | Some e => value_of params now ([], [], 0) e end
  end.

(** The row of a [REPLACE]; the time is 0 where none is given. *)
Definition new_row (params : list cell) (now : Z) (columns : list column) (values : list expr) : option row :=
  let given := given params now columns values in
  match given Key, given Value, given ExpireAt with
  | Some (CString k), Some (CString v), Some (CInt e) => Some (k, v, e)
  | Some (CString k), Some (CString v), None => if bool_decide (ExpireAt ∈ columns) then None else Some (k, v, 0)
  | _, _, _ => None
  end.

(** ** The documented behaviour *)

(** Table [t], whose name is read between backquotes: one row for each class of keys the
    collation does not distinguish, the key being the primary one.  [accepts] is what the
    columns can hold. *)
Class MysqlLaws (t : str) (DB : Type) `{MysqlServer DB} := {
  collation : str -> str;
  accepts : str -> str -> Prop;
  rows : DB -> gmap str row;
  name_plain : backquote ∉ t;
  rows_keyed db c r : rows db !! c = Some r -> collation (row_key r) = c;
  (** The rows whose condition is true, in any order, cut at the limit. *)
  select_law sql n what c limit params now db :
    parse sql = Some (Select what t c limit, n) -> length params = n ->
    (forall k r, rows db !! k = Some r -> is_Some (holds collation params now c r) /\ is_Some (value_of params now r what)) ->
    exists rs, rs ≡ₚ filter (fun r => holds collation params now c r = Some true) (map_to_list (rows db)).*2 /\
      execute sql params now db =
        (inr ((fun r => [default CNull (value_of params now r what)]) <$> match limit with Some m => take m rs | None => rs end), db);
  (** The rows whose condition is true go. *)
  delete_law sql n c params now db :
    parse sql = Some (Delete t c, n) -> length params = n ->
    (forall k r, rows db !! k = Some r -> is_Some (holds collation params now c r)) ->
    exists db', execute sql params now db = (inr [], db') /\
      rows db' = filter (fun kr => holds collation params now c kr.2 <> Some true) (rows db);
  (** A new row, in the place of the one of its key. *)
  replace_law sql n columns values params now db k v e :
    parse sql = Some (Replace t columns values, n) -> length params = n ->
    new_row params now columns values = Some (k, v, e) -> accepts k v ->
    exists db', execute sql params now db = (inr [], db') /\ rows db' = <[collation k := (k, v, e)]> (rows db)
}.

(** ** Lemmas *)

(** A name is read to its closing backquote. *)
Lemma lex_name t n s : backquote ∉ t -> lex (InName n) (t ++ backquote :: s) = TName (n ++ t) :: lex Between s.
Proof.
  revert n. induction t as [|c t IH]; intros n Ht; [cbn; by rewrite app_nil_r|].
  apply not_elem_of_cons in Ht as [Hc Ht]. cbn [app lex]. destruct (Byte.eqb c backquote) eqn:E; [by apply Byte.byte_dec_bl in E as ->|].
  rewrite IH by done. by rewrite <- app_assoc.
Qed.

Lemma lex_around pre t post : backquote ∉ t ->
  (forall s, lex Between (pre ++ s) = removelast (lex Between pre) ++ lex (InName []) s) -> post = backquote :: tail post ->
  lex Between (pre ++ t ++ post) = removelast (lex Between pre) ++ TName t :: lex Between (tail post).
Proof. intros Ht Hpre ->. by rewrite Hpre, lex_name. Qed.

(** The reading of a text around the name of a table, by evaluation. *)
Ltac parse_around t Ht :=
  unfold parse;
  match goal with |- context [lex Between (?pre ++ t ++ ?post)] => rewrite (lex_around pre t post Ht (fun _ => eq_refl) eq_refl) end;
  vm_compute; reflexivity.

(** Where each row is at the place of its key, a condition on the key picks one row. *)
Lemma keyed_rows (f : str -> str) (m : gmap str row) c (P : row -> Prop) `{!forall r, Decision (P r)} (b : row -> bool) :
  (forall k r, m !! k = Some r -> f (row_key r) = k) -> (forall r, P r <-> f (row_key r) = c /\ b r = true) ->
  filter P (map_to_list m).*2 ≡ₚ match m !! c with Some r => if b r then [r] else [] | None => [] end.
Proof.
  intros Hm HP.
  assert (forall m' : gmap str row, (forall k r, m' !! k = Some r -> f (row_key r) = k) -> m' !! c = None -> filter P (map_to_list m').*2 = []) as Hnone.
  { intros m' Hm' Hn. apply filter_none, Forall_forall. intros r Hr [Hk _]%HP. apply list_elem_of_fmap in Hr as ([k r'] & -> & Hr).
    apply elem_of_map_to_list in Hr. specialize (Hm' _ _ Hr). cbn in *. congruence. }
  destruct (m !! c) as [r|] eqn:E; [|by rewrite Hnone].
  rewrite <- (insert_delete_id _ _ _ E), (fmap_Permutation snd _ _ (map_to_list_insert _ _ _ (lookup_delete_eq m c))). cbn [fmap list_fmap snd].
  rewrite filter_cons, Hnone; [|intros k r' [_ Hr]%lookup_delete_Some; by apply Hm|apply lookup_delete_eq].
  specialize (Hm _ _ E). specialize (HP r). destruct (decide (P r)) as [Hp|Hp], (b r); try done; naive_solver.
Qed.
