(* ===== verification/Mysql.v ===== *)
(** * Mysql: src/storage/mysql_storage.cpp, built with MySQL

    The back end over a server that executes prepared statements.  The texts of the
    statements are the code's, read as the fragment of SQL of file Sql says, and what they
    do is what that reading means ([get_stmt] and the lemmas after it). *)

From S2P Require Import Prelude.
From S2P Require Import Protocol.
From S2P Require Import Wire.
From S2P Require Import Effects.
From S2P Require Import Storage.
From S2P Require Import Sql.

(** ** Configuration and statements *)

Record StorageConfig := mkConfig {
  type : str; host : str; port : Z; database : str; user : str; password : str; extra : gmap str str
}.

Definition table (c : StorageConfig) : str := default (lit "kv") (extra c !! lit "table").
Definition charset (c : StorageConfig) : str := default (lit "utf8mb4") (extra c !! lit "charset").
Definition real_port (c : StorageConfig) : Z := if 0 <? port c then port c else 3306.

Definition create_sql (t : str) : str :=
  lit "CREATE TABLE IF NOT EXISTS `" ++ t ++ lit "` (" ++ lit "`k` VARCHAR(512) PRIMARY KEY, " ++ lit "`v` MEDIUMTEXT NOT NULL, " ++
  lit "`expire_at` BIGINT DEFAULT 0" ++ lit ") ENGINE=InnoDB DEFAULT CHARSET=utf8mb4".
Definition get_sql (t : str) : str := lit "SELECT v FROM `" ++ t ++ lit "` WHERE k=? AND (expire_at=0 OR expire_at>UNIX_TIMESTAMP())".
Definition put_sql (t : str) : str := lit "REPLACE INTO `" ++ t ++ lit "` (k, v, expire_at) VALUES (?, ?, ?)".
Definition remove_sql (t : str) : str := lit "DELETE FROM `" ++ t ++ lit "` WHERE k=?".
Definition exists_sql (t : str) : str := lit "SELECT 1 FROM `" ++ t ++ lit "` WHERE k=? AND (expire_at=0 OR expire_at>UNIX_TIMESTAMP()) LIMIT 1".
Definition keys_sql (t : str) (has_prefix : bool) : str :=
  lit "SELECT k FROM `" ++ t ++ lit "` WHERE (expire_at=0 OR expire_at>UNIX_TIMESTAMP())" ++ (if has_prefix then lit " AND k LIKE ?" else []).

(** ** The back end *)

Section Mysql.
Context {DB : Type} `{MysqlServer DB}.

Record MysqlStorage := mkMysql { config_ : StorageConfig; conn_ : option DB }.

Definition MysqlStorage_init (c : StorageConfig) : MysqlStorage := mkMysql c None.
Definition with_conn (db : option DB) (s : MysqlStorage) : MysqlStorage := mkMysql (config_ s) db.

(** [mysql_init] and [mysql_real_connect]: an error, or the server. *)
Definition connect (connected : option DB) (now : Z) (s : MysqlStorage) : bool * MysqlStorage :=
  match connected with
  | None => (false, s)
  | Some db =>
      match execute (create_sql (table (config_ s))) [] now db with
      | (inl _, _) => (false, with_conn None s)
      | (inr _, db1) => (true, with_conn (Some db1) s)
      end
  end.

Definition disconnect (s : MysqlStorage) : MysqlStorage := with_conn None s.

(** A statement of an operation; without a connection the operation's own answer. *)
Definition statement {A} (none : A) (sql : str -> str) (params : list cell) (answer : str + list (list cell) -> A) (now : Z) (s : MysqlStorage) : A * MysqlStorage :=
  match conn_ s with
  | None => (none, s)
  | Some db => let '(r, db1) := execute (sql (table (config_ s))) params now db in (answer r, with_conn (Some db1) s)
  end.

Definition failed (msg : str) : StorageResult := mkResult false msg [].

(** The value is fetched into no room at first, then as long as it is. *)
Definition fetched_value (row : list cell) : StorageResult :=
  match row with
  | CString v :: _ => success v
  | CNull :: _ => success []
  | _ => failure "key not found"
  end.

Definition mysql_get (now : Z) (k : str) (s : MysqlStorage) : StorageResult * MysqlStorage :=
  statement (failure "not connected") get_sql [CString k]
    (fun r => match r with inl e => failed e | inr (row :: _) => fetched_value row | inr [] => failure "key not found" end) now s.

Definition mysql_put (now : Z) (k v : str) (e : Z) (s : MysqlStorage) : StorageResult * MysqlStorage :=
  statement (failure "not connected") put_sql [CString k; CString v; CInt e]
    (fun r => match r with inl e => failed e | inr _ => success [] end) now s.

Definition mysql_remove (now : Z) (k : str) (s : MysqlStorage) : StorageResult * MysqlStorage :=
  statement (failure "not connected") remove_sql [CString k]
    (fun r => match r with inl e => failed e | inr _ => success [] end) now s.

Definition mysql_exists (now : Z) (k : str) (s : MysqlStorage) : bool * MysqlStorage :=
  statement false exists_sql [CString k] (fun r => match r with inr (_ :: _) => true | _ => false end) now s.

(** The wildcards of LIKE escaped, then any continuation. *)
Definition escape (c : Byte.byte) : str :=
  if bool_decide (c = Byte.x25) || bool_decide (c = Byte.x5f) || bool_decide (c = Byte.x5c) then [Byte.x5c; c] else [c].
Definition like_pat (prefix : str) : str := (prefix ≫= escape) ++ [Byte.x25].

(** The keys are fetched into 512 bytes; a fetch that does not fit ends the loop. *)
Fixpoint fetch_keys (rows : list (list cell)) : list str :=
  match rows with
  | (CString k :: _) :: rows' => if (length k <=? 512)%nat then k :: fetch_keys rows' else []
  | _ => []
  end.

(** With a prefix the parameter's length is a variable out of its scope when the statement
    is executed. *)
Definition mysql_keys (now : Z) (prefix : str) (s : MysqlStorage) : outcome (list str * MysqlStorage) :=
  match conn_ s, prefix with
  | None, _ => Ok ([], s)
  | Some _, _ :: _ => Undefined
  | Some _, [] => Ok (statement [] (fun t => keys_sql t false) [] (fun r => match r with inl _ => [] | inr rows => fetch_keys rows end) now s)
  end.
End Mysql.
Arguments MysqlStorage DB : clear implicits.

(** ** What the statements do *)

Definition alive (now : Z) (r : row) : bool := (r.2 =? 0) || (now <? r.2).

Section Statements.
Context {DB : Type} `{laws : MysqlLaws t DB}.
Implicit Types (db : DB) (r : row).

Definition is_key : cond := Rel REq (EColumn Key) (EParam 0).
Definition is_alive : cond := Or (Rel REq (EColumn ExpireAt) (EInt 0)) (Rel RGt (EColumn ExpireAt) ENow).

Lemma get_parses : parse (get_sql t) = Some (Select (EColumn Value) t (And is_key is_alive) None, 1%nat).
Proof. pose proof name_plain as Ht. unfold get_sql. parse_around t Ht. Qed.
Lemma exists_parses : parse (exists_sql t) = Some (Select (EInt 1) t (And is_key is_alive) (Some 1%nat), 1%nat).
Proof. pose proof name_plain as Ht. unfold exists_sql. parse_around t Ht. Qed.
Lemma keys_parses : parse (keys_sql t false) = Some (Select (EColumn Key) t is_alive None, 0%nat).
Proof. pose proof name_plain as Ht. unfold keys_sql. parse_around t Ht. Qed.
Lemma remove_parses : parse (remove_sql t) = Some (Delete t is_key, 1%nat).
Proof. pose proof name_plain as Ht. unfold remove_sql. parse_around t Ht. Qed.
Lemma put_parses : parse (put_sql t) = Some (Replace t [Key; Value; ExpireAt] [EParam 0; EParam 1; EParam 2], 3%nat).
Proof. pose proof name_plain as Ht. unfold put_sql. parse_around t Ht. Qed.

Lemma holds_alive params now r : holds collation params now is_alive r = Some (alive now r).
Proof. reflexivity. Qed.
Lemma holds_key k params now r : holds collation (CString k :: params) now is_key r = Some (bool_decide (collation (row_key r) = collation k)).
Proof. reflexivity. Qed.

(** The row of a key, when it is alive. *)
Lemma live_row k now db rs :
  rs ≡ₚ filter (fun r => holds collation [CString k] now (And is_key is_alive) r = Some true) (map_to_list (rows db)).*2 ->
  rs = match rows db !! collation k with Some r => if alive now r then [r] else [] | None => [] end.
Proof.
  assert (filter (fun r => holds collation [CString k] now (And is_key is_alive) r = Some true) (map_to_list (rows db)).*2 ≡ₚ
    match rows db !! collation k with Some r => if alive now r then [r] else [] | None => [] end) as ->.
  2:{ destruct (rows db !! collation k) as [r|]; [destruct (alive now r)|]; intros Hp; first [by apply Permutation_nil | by apply Permutation_length_1_inv]. }
  apply (keyed_rows collation (rows db) (collation k) _ (alive now)); [apply rows_keyed|]. intros r. cbn [holds].
  rewrite holds_key, holds_alive. destruct (bool_decide_reflect (collation (row_key r) = collation k)) as [Hk|Hk], (alive now r); cbn; naive_solver.
Qed.

Lemma get_stmt k now db : execute (get_sql t) [CString k] now db =
  (inr match rows db !! collation k with Some r => if alive now r then [[CString (row_value r)]] else [] | None => [] end, db).
Proof.
  destruct (select_law (get_sql t) 1 _ _ _ [CString k] now db get_parses) as (rs & Hp & ->); [done|intros ? r _; split; eexists; reflexivity|].
  apply live_row in Hp as ->. by destruct (rows db !! collation k) as [r|]; [destruct (alive now r)|].
Qed.

Lemma exists_stmt k now db : execute (exists_sql t) [CString k] now db =
  (inr match rows db !! collation k with Some r => if alive now r then [[CInt 1]] else [] | None => [] end, db).
Proof.
  destruct (select_law (exists_sql t) 1 _ _ _ [CString k] now db exists_parses) as (rs & Hp & ->); [done|intros ? r _; split; eexists; reflexivity|].
  apply live_row in Hp as ->. by destruct (rows db !! collation k) as [r|]; [destruct (alive now r)|].
Qed.

Lemma put_stmt k v e now db : accepts k v -> exists db',
  execute (put_sql t) [CString k; CString v; CInt e] now db = (inr [], db') /\ rows db' = <[collation k := (k, v, e)]> (rows db).
Proof. by apply (replace_law _ _ _ _ _ _ _ _ _ _ put_parses). Qed.

Lemma remove_stmt k now db : exists db',
  execute (remove_sql t) [CString k] now db = (inr [], db') /\ rows db' = delete (collation k) (rows db).
Proof.
  destruct (delete_law (remove_sql t) 1 _ [CString k] now db remove_parses) as (db' & He & Hr); [done|intros ? r _; eexists; reflexivity|].
  exists db'. split; [exact He|]. rewrite Hr. apply map_eq. intros c. apply option_eq. intros r. rewrite map_lookup_filter_Some, lookup_delete_Some. cbn [snd].
  rewrite holds_key. split.
  - intros [Hl Hk]. split; [|done]. intros <-. apply Hk. rewrite (rows_keyed _ _ _ Hl). by rewrite bool_decide_true.
  - intros [Hc Hl]. split; [done|]. rewrite (rows_keyed _ _ _ Hl). rewrite bool_decide_false by done. done.
Qed.

Lemma keys_stmt now db : exists ks, execute (keys_sql t false) [] now db = (inr ((fun k => [CString k]) <$> ks), db) /\
  ks ≡ₚ row_key <$> filter (fun r => alive now r = true) (map_to_list (rows db)).*2.
Proof.
  destruct (select_law (keys_sql t false) 0 _ _ _ [] now db keys_parses) as (rs & Hp & ->); [done|intros ? r _; split; eexists; reflexivity|].
  exists (row_key <$> rs). split; [by rewrite <- list_fmap_compose|]. rewrite Hp. apply fmap_Permutation. rewrite (list_filter_iff _ (fun r => alive now r = true)); [done|].
  intros r. rewrite holds_alive. split; [by intros [= ->]|by intros ->].
Qed.
End Statements.

(** LIKE, with [%], [_] and the escape [\]. *)
Fixpoint like (pat s : str) : bool :=
  match pat with
  | [] => match s with [] => true | _ => false end
  | Byte.x25 :: pat' => (fix any (s : str) : bool := like pat' s || match s with [] => false | _ :: s' => any s' end) s
  | Byte.x5f :: pat' => match s with [] => false | _ :: s' => like pat' s' end
  | Byte.x5c :: c :: pat' => match s with [] => false | x :: s' => bool_decide (x = c) && like pat' s' end
  | c :: pat' => match s with [] => false | x :: s' => bool_decide (x = c) && like pat' s' end
  end.

(** ** What a client sees *)

Section Client.
Context {DB : Type} {server : MysqlServer DB} (t : str) {laws : MysqlLaws t DB}.
Implicit Types (s : MysqlStorage DB) (db : DB).

Definition connected s db : Prop := conn_ s = Some db /\ table (config_ s) = t.

Inductive command :=
| CGet (now : Z) (k : str)
| CPut (now : Z) (k v : str) (e : Z)
| CRemove (now : Z) (k : str)
| CExists (now : Z) (k : str).

Inductive reply := RResult (r : StorageResult) | RBool (b : bool).

Definition command_ok (c : command) : Prop := match c with CPut _ k v _ => accepts k v | _ => True end.

Definition do_command (c : command) s : reply * MysqlStorage DB :=
  match c with
  | CGet now k => let '(r, s1) := mysql_get now k s in (RResult r, s1)
  | CPut now k v e => let '(r, s1) := mysql_put now k v e s in (RResult r, s1)
  | CRemove now k => let '(r, s1) := mysql_remove now k s in (RResult r, s1)
  | CExists now k => let '(b, s1) := mysql_exists now k s in (RBool b, s1)
  end.

(** The same on a map from the keys, as the collation sees them, to values and times. *)
Definition spec_command (c : command) (m : gmap str (str * Z)) : reply * gmap str (str * Z) :=
  let live now k := match m !! collation k with Some (v, e) => if (e =? 0) || (now <? e) then Some v else None | None => None end in
  match c with
  | CGet now k => (RResult match live now k with Some v => success v | None => failure "key not found" end, m)
  | CPut _ k v e => (RResult (success []), <[collation k := (v, e)]> m)
  | CRemove _ k => (RResult (success []), delete (collation k) m)
  | CExists now k => (RBool match live now k with Some _ => true | None => false end, m)
  end.

Fixpoint run_commands {S} (f : command -> S -> reply * S) (l : list command) (s : S) : list reply * S :=
  match l with
  | [] => ([], s)
  | c :: l' => let '(r, s1) := f c s in let '(rs, s2) := run_commands f l' s1 in (r :: rs, s2)
  end.

Definition contents db : gmap str (str * Z) := (fun r : row => (row_value r, r.2)) <$> rows db.

Lemma statement_connected {A} none sql params (answer : _ -> A) now s db r db' : connected s db ->
  execute (sql t) params now db = (r, db') -> statement none sql params answer now s = (answer r, with_conn (Some db') s).
Proof. intros [Hc Ht] He. unfold statement. by rewrite Hc, Ht, He. Qed.

Lemma with_conn_connected s db db' : connected s db -> connected (with_conn (Some db') s) db'.
Proof. by intros [_ Ht]. Qed.

Lemma get_connected now k s db : connected s db ->
  (mysql_get now k s).1 = match rows db !! collation k with Some r => if alive now r then success (row_value r) else failure "key not found" | None => failure "key not found" end /\
  connected (mysql_get now k s).2 db.
Proof.
  intros Hc. unfold mysql_get. rewrite (statement_connected _ _ _ _ _ _ _ _ _ Hc (get_stmt k now db)). split; [|by eapply with_conn_connected].
  cbn. destruct (rows db !! collation k) as [r|]; [|done]. by destruct (alive now r).
Qed.

Lemma exists_connected now k s db : connected s db ->
  (mysql_exists now k s).1 = match rows db !! collation k with Some r => alive now r | None => false end /\ connected (mysql_exists now k s).2 db.
Proof.
  intros Hc. unfold mysql_exists. rewrite (statement_connected _ _ _ _ _ _ _ _ _ Hc (exists_stmt k now db)). split; [|by eapply with_conn_connected].
  cbn. destruct (rows db !! collation k) as [r|]; [|done]. by destruct (alive now r).
Qed.

Lemma put_connected now k v e s db : connected s db -> accepts k v -> exists db', (mysql_put now k v e s).1 = success [] /\
  connected (mysql_put now k v e s).2 db' /\ rows db' = <[collation k := (k, v, e)]> (rows db).
Proof.
  intros Hc Ha. destruct (put_stmt k v e now db Ha) as (db' & He & Hr). exists db'. unfold mysql_put. rewrite (statement_connected _ _ _ _ _ _ _ _ _ Hc He).
  split_and!; [done|by eapply with_conn_connected|done].
Qed.

Lemma remove_connected now k s db : connected s db -> exists db', (mysql_remove now k s).1 = success [] /\
  connected (mysql_remove now k s).2 db' /\ rows db' = delete (collation k) (rows db).
Proof.
  intros Hc. destruct (remove_stmt k now db) as (db' & He & Hr). exists db'. unfold mysql_remove. rewrite (statement_connected _ _ _ _ _ _ _ _ _ Hc He).
  split_and!; [done|by eapply with_conn_connected|done].
Qed.

Lemma command_refines c s db : connected s db -> command_ok c -> exists db',
  (do_command c s).1 = (spec_command c (contents db)).1 /\ connected (do_command c s).2 db' /\ contents db' = (spec_command c (contents db)).2.
Proof.
  intros Hc Hok. destruct c as [now k|now k v e|now k|now k]; cbn [do_command spec_command].
  - destruct (get_connected now k s db Hc) as [Hg Hs]. exists db. destruct (mysql_get now k s) as [r s1]. cbn in *. split_and!; [|done|done].
    rewrite Hg. unfold contents. rewrite lookup_fmap. unfold alive. destruct (rows db !! collation k) as [r0|]; [|done]. cbn. by destruct (_ || _).
  - destruct (put_connected now k v e s db Hc Hok) as (db' & Hp & Hs & Hr). exists db'. destruct (mysql_put now k v e s) as [r s1]. cbn in *. subst r. split_and!; [done..|].
    unfold contents. by rewrite Hr, fmap_insert.
  - destruct (remove_connected now k s db Hc) as (db' & Hp & Hs & Hr). exists db'. destruct (mysql_remove now k s) as [r s1]. cbn in *. subst r. split_and!; [done..|].
    unfold contents. by rewrite Hr, fmap_delete.
  - destruct (exists_connected now k s db Hc) as [Hg Hs]. exists db. destruct (mysql_exists now k s) as [r s1]. cbn in *. split_and!; [|done|done].
    rewrite Hg. unfold contents. rewrite lookup_fmap. unfold alive. destruct (rows db !! collation k) as [r0|]; [|done]. cbn. by destruct (_ || _).
Qed.

Lemma commands_refine l s db : connected s db -> Forall command_ok l ->
  (run_commands do_command l s).1 = (run_commands spec_command l (contents db)).1.
Proof.
  intros Hc Hl. revert s db Hc. induction Hl as [|c l Hok _ IH]; intros s db Hc; [done|]. cbn [run_commands].
  destruct (command_refines c s db Hc Hok) as (db' & H1 & H2 & H3). destruct (do_command c s) as [r s1], (spec_command c (contents db)) as [r' m1]. cbn in *. subst.
  specialize (IH s1 db' H2). destruct (run_commands do_command l s1), (run_commands spec_command l (contents db')). cbn in *. by subst.
Qed.

(** C34: Over a server that does what is documented, any sequence of operations answers as
    one map does, whose keys are those the collation distinguishes and whose entries last
    until their time is reached. *)
Theorem mysql_refines_map l s db : connected s db -> Forall command_ok l ->
  (run_commands do_command l s).1 = (run_commands spec_command l (contents db)).1.
Proof. exact (commands_refine l s db). Qed.

(** C28: The two back ends disagree on how long an entry lasts: at the second it expires,
    and on every time before the epoch, the in-memory one finds it and this one does not;
    otherwise they agree. *)
Theorem lifetimes_differ now later k v e s db m : connected s db -> accepts k v -> 0 <= later ->
  ok (memory_get later k (memory_put k v e m).2).1 = ok (mysql_get later k (mysql_put now k v e s).2).1 <-> ~ (e < 0 \/ 0 < e /\ later = e).
Proof.
  intros Hc Ha Hl. destruct (put_connected now k v e s db Hc Ha) as (db' & _ & Hs & Hr).
  destruct (get_connected later k _ db' Hs) as [-> _]. rewrite Hr, lookup_insert_eq. cbn [alive row_value snd fst].
  assert (ok (memory_get later k (memory_put k v e m).2).1 = lasts later e) as ->.
  { unfold memory_get, memory_put. cbn [fst snd].
    unfold memory_find. destruct (prune_expired later (<[k := mkEntry v e]> m) !! k) as [x|] eqn:E.
    - apply prune_lookup in E as [Hx Hv]. rewrite lookup_insert_eq in Hx. by injection Hx as <-.
    - cbn. symmetry. apply not_true_iff_false. intros Hv. assert (prune_expired later (<[k := mkEntry v e]> m) !! k = Some (mkEntry v e)) as H; [|congruence].
      apply prune_lookup. by rewrite lookup_insert_eq. }
  unfold lasts, alive. cbn. destruct (e =? 0) eqn:E0, (later <? e) eqn:E1, (0 <? e) eqn:E2, (e <? later) eqn:E3; cbn; breflect; (split; [intros H; try done; lia|intros H; try done; exfalso; lia]).
Qed.

(** Keys the collation does not distinguish are one entry. *)
Theorem collated_keys_collide now1 now2 later k1 k2 v1 v2 s db : connected s db -> accepts k1 v1 -> accepts k2 v2 -> collation k1 = collation k2 ->
  (mysql_get later k1 (mysql_put now2 k2 v2 0 (mysql_put now1 k1 v1 0 s).2).2).1 = success v2.
Proof.
  intros Hc H1 H2 He. destruct (put_connected now1 k1 v1 0 s db Hc H1) as (db1 & _ & Hs1 & _). destruct (put_connected now2 k2 v2 0 _ db1 Hs1 H2) as (db2 & _ & Hs2 & Hr).
  destruct (get_connected later k1 _ db2 Hs2) as [-> _]. rewrite Hr, He, lookup_insert_eq. done.
Qed.

Lemma fetch_keys_all ks : Forall (fun k => (length k <= 512)%nat) ks -> fetch_keys ((fun k => [CString k]) <$> ks) = ks.
Proof. induction 1 as [|k ks Hk _ IH]; [done|]. cbn. rewrite (proj2 (Nat.leb_le _ _) Hk). by rewrite IH. Qed.

Lemma fetch_keys_cut ks k : k ∈ ks -> (512 < length k)%nat -> (length (fetch_keys ((fun k => [CString k]) <$> ks)) < length ks)%nat.
Proof.
  intros Hk Hl. induction ks as [|x ks IH]; [by apply not_elem_of_nil in Hk|]. cbn. destruct (length x <=? 512)%nat eqn:E; [|cbn; lia].
  apply Nat.leb_le in E. apply elem_of_cons in Hk as [->|Hk]; [lia|]. specialize (IH Hk). cbn. lia.
Qed.

(** Without a prefix the keys listed are those of the entries there are, when none is
    longer than 512 bytes; one that is is left out, with every key after it. *)
Theorem keys_listed now s db : connected s db -> exists ks s', mysql_keys now [] s = Ok (ks, s') /\
  let there := row_key <$> filter (fun r => alive now r = true) (map_to_list (rows db)).*2 in
  (Forall (fun k => (length k <= 512)%nat) there -> ks ≡ₚ there) /\
  (forall k, k ∈ there -> (512 < length k)%nat -> (length ks < length there)%nat).
Proof.
  intros Hc. destruct (keys_stmt now db) as (ks & He & Hp). unfold mysql_keys. pose proof Hc as [Hconn _]. rewrite Hconn.
  rewrite (statement_connected _ (fun t => keys_sql t false) _ _ _ _ _ _ _ Hc He). eexists _, _. split; [reflexivity|]. cbv zeta. rewrite <- Hp. split.
  - intros Hs. by rewrite fetch_keys_all.
  - intros k Hk Hl. rewrite <- Hp in Hk. eapply Nat.lt_le_trans; [by eapply fetch_keys_cut|]. rewrite (Permutation_length Hp). done.
Qed.
End Client.

(** ** Prefixes *)

Lemma like_any s : like [Byte.x25] s = true.
Proof. induction s as [|c s IH]; [done|]. cbn in *. exact IH. Qed.

Lemma like_escaped c pat s : like (escape c ++ pat) s = match s with [] => false | x :: s' => bool_decide (x = c) && like pat s' end.
Proof.
  unfold escape. destruct (bool_decide (c = Byte.x25)) eqn:E1; [done|]. destruct (bool_decide (c = Byte.x5f)) eqn:E2; [done|]. destruct (bool_decide (c = Byte.x5c)) eqn:E3; [done|].
  apply bool_decide_eq_false in E1, E2, E3. cbn [orb app]. by destruct c; try congruence.
Qed.

Lemma is_prefix_cons c p x s : is_prefix (c :: p) (x :: s) = bool_decide (x = c) && is_prefix p s.
Proof.
  unfold is_prefix. cbn. destruct (decide (x = c)) as [->|Hne].
  - rewrite (bool_decide_true (c = c)) by done. cbn. apply bool_decide_ext. split; [by intros [= ->]|by intros ->].
  - rewrite (bool_decide_false (x = c)) by done. cbn. apply bool_decide_false. congruence.
Qed.

(** The pattern made of a prefix matches the keys that begin with it, and no others,
    whatever wildcards and escapes it holds. *)
Theorem like_pat_exact p s : like (like_pat p) s = is_prefix p s.
Proof.
  revert s. induction p as [|c p IH]; intros s; [unfold like_pat, is_prefix; cbn [mbind list_bind app length take]; by rewrite like_any, bool_decide_true|].
  unfold like_pat. rewrite bind_cons, <- app_assoc, like_escaped. destruct s as [|x s]; [done|]. rewrite is_prefix_cons. f_equal. apply IH.
Qed.

(** ** A server that compares keys without their case *)

Definition lower (c : Byte.byte) : Byte.byte := let z := byte_val c in if (65 <=? z) && (z <=? 90) then byte_of (z + 32) else c.

Abbreviation folding_db := (gmap str row).

(** The rows that are at the place of their key. *)
Definition folding_rows (db : folding_db) : gmap str row := filter (fun kr => lower <$> row_key kr.2 = kr.1) db.

Definition folding_execute (sql : str) (params : list cell) (now : Z) (db : folding_db) : (str + list (list cell)) * folding_db :=
  let holds := holds (fmap lower) params now in
  match parse sql with
  | Some (Select what _ c limit, _) =>
      let rs := filter (fun r => holds c r = Some true) (map_to_list (folding_rows db)).*2 in
      (inr ((fun r => [default CNull (value_of params now r what)]) <$> match limit with Some m => take m rs | None => rs end), db)
  | Some (Delete _ c, _) => (inr [], filter (fun kr => holds c kr.2 <> Some true) (folding_rows db))
  | Some (Replace _ columns values, _) =>
      match new_row params now columns values with
      | Some (k, v, e) => (inr [], <[lower <$> k := (k, v, e)]> (folding_rows db))
      | None => (inl [], db)
      end
  | None => if bool_decide (sql = create_sql (lit "kv")) then (inr [], db) else (inl [], db)
  end.

#[export] Instance folding_server : MysqlServer folding_db := {| execute := folding_execute |}.

Lemma folding_keyed db c r : folding_rows db !! c = Some r -> lower <$> row_key r = c.
Proof. by intros [_ H]%map_lookup_filter_Some. Qed.

Lemma folding_rows_id m : (forall c r, m !! c = Some r -> lower <$> row_key r = c) -> folding_rows m = m.
Proof. intros Hm. apply map_filter_id. intros c r Hr. by apply Hm. Qed.

#[export] Program Instance folding_laws : MysqlLaws (lit "kv") folding_db := {|
  collation := fmap lower;
  accepts _ _ := True;
  rows := folding_rows
|}.
Next Obligation. refine (bool_decide_unpack (backquote ∉ lit "kv") _). vm_compute. exact I. Qed.
Next Obligation. exact folding_keyed. Qed.
Next Obligation. intros sql n what c limit params now db Hp _ _. eexists. split; [reflexivity|]. cbn. unfold folding_execute. by rewrite Hp. Qed.
Next Obligation.
  intros sql n c params now db Hp _ _. eexists. cbn. unfold folding_execute. rewrite Hp. split; [reflexivity|]. apply folding_rows_id.
  intros c' r [Hr _]%map_lookup_filter_Some. by apply folding_keyed in Hr.
Qed.
Next Obligation.
  intros sql n columns values params now db k v e Hp _ Hn _. eexists. cbn. unfold folding_execute. rewrite Hp, Hn. split; [reflexivity|]. apply folding_rows_id.
  intros c' r [[<- <-]|[_ Hr]]%lookup_insert_Some; [done|by apply folding_keyed in Hr].
Qed.

Definition demo_config : StorageConfig := mkConfig (lit "mysql") (lit "127.0.0.1") 0 (lit "game") [] [] ∅.
Definition demo_mysql : MysqlStorage folding_db := mkMysql demo_config (Some ∅).

Lemma demo_connected : connected (lit "kv") demo_mysql ∅.
Proof. split; [reflexivity|]. unfold table, demo_config. cbn. by rewrite lookup_empty. Qed.

Lemma demo_accepts k v : @accepts (lit "kv") folding_db folding_server folding_laws k v.
Proof. exact I. Qed.

Lemma mysql_refines_map_witness :
  (run_commands do_command [CPut 1 (lit "Ann") (lit "x") 9; CGet 8 (lit "ann"); CGet 9 (lit "Ann"); CRemove 9 (lit "bob")] demo_mysql).1 =
  (run_commands (spec_command (lit "kv")) [CPut 1 (lit "Ann") (lit "x") 9; CGet 8 (lit "ann"); CGet 9 (lit "Ann"); CRemove 9 (lit "bob")] (contents (lit "kv") (∅ : folding_db))).1.
Proof. apply (mysql_refines_map (lit "kv") _ demo_mysql ∅ demo_connected). repeat constructor. Defined.

Lemma lifetimes_differ_witness : ok (memory_get 9 (lit "a") (memory_put (lit "a") (lit "x") 9 ∅).2).1 <>
  ok (mysql_get 9 (lit "a") (mysql_put 1 (lit "a") (lit "x") 9 demo_mysql).2).1.
Proof.
  intros He. apply (lifetimes_differ (lit "kv") 1 9 (lit "a") (lit "x") 9 demo_mysql ∅ ∅ demo_connected (demo_accepts _ _) ltac:(lia)) in He. apply He. right. lia.
Defined.

Lemma collated_keys_collide_witness : (mysql_get 3 (lit "Ann") (mysql_put 2 (lit "ann") (lit "y") 0 (mysql_put 1 (lit "Ann") (lit "x") 0 demo_mysql).2).2).1 = success (lit "y").
Proof.
  apply (collated_keys_collide (lit "kv") 1 2 3 (lit "Ann") (lit "ann") (lit "x") (lit "y") demo_mysql ∅ demo_connected (demo_accepts _ _) (demo_accepts _ _)). vm_compute. reflexivity.
Defined.

Lemma keys_listed_witness : exists ks s', mysql_keys 1 [] demo_mysql = Ok (ks, s').
Proof. destruct (keys_listed (lit "kv") 1 demo_mysql ∅ demo_connected) as (ks & s' & H & _). by exists ks, s'. Defined.
