(* ===== verification/StorageFactory.v ===== *)
(** * StorageFactory: src/storage/storage_config_loader.cpp, storage_factory.cpp and
    storage_component.cpp

    The YAML library is the class [Yaml], with what it documents of maps and scalars in
    [YamlLaws]; it reports with exceptions, which leave what was set so far in the
    configuration.  The factory makes one of the back ends of Storage and Mysql, or the one
    for MongoDB, which is a parameter. *)

From S2P Require Import Prelude.
From S2P Require Import Protocol.
From S2P Require Import Wire.
From S2P Require Import Effects.
From S2P Require Import StdNum.
From S2P Require Import Storage.
From S2P Require Import Sql.
From S2P Require Import Mysql.

(** ** Loading a configuration *)

(** Nodes: [operator\[\]], which throws on a scalar; [as<std::string>()], which may throw;
    [as<std::string>(fallback)] and [as<int>(fallback)]. *)
Class Yaml (Node : Type) := {
  parse_document : str -> option Node;
  subscript : str -> Node -> option (option Node);
  as_string : Node -> option str;
  as_string_or : str -> Node -> str;
  as_int_or : Z -> Node -> Z
}.

(** A computation on [out_config] that may throw. *)
Definition Load (A : Type) : Type := StorageConfig -> option A * StorageConfig.
Definition lpure {A} (a : A) : Load A := fun c => (Some a, c).
Definition lbind {A B} (m : Load A) (f : A -> Load B) : Load B := fun c =>
  match m c with (Some a, c1) => f a c1 | (None, c1) => (None, c1) end.
Definition lread {A} (f : StorageConfig -> A) : Load A := fun c => (Some (f c), c).
Definition lset (f : StorageConfig -> StorageConfig) : Load unit := fun c => (Some tt, f c).
Definition lift {A} (x : option A) : Load A := fun c => (x, c).

Declare Scope load_scope.
Notation "'let+' x := m 'in' k" := (lbind m (fun x => k)) (at level 10, x name, k at level 200) : load_scope.
Notation "'do+' m 'then' k" := (lbind m (fun _ => k)) (at level 10, m at level 100, k at level 200) : load_scope.
Local Open Scope load_scope.

Definition set_type (v : str) (c : StorageConfig) : StorageConfig := mkConfig v (host c) (port c) (database c) (user c) (password c) (extra c).
Definition set_host (v : str) (c : StorageConfig) : StorageConfig := mkConfig (type c) v (port c) (database c) (user c) (password c) (extra c).
Definition set_port (v : Z) (c : StorageConfig) : StorageConfig := mkConfig (type c) (host c) v (database c) (user c) (password c) (extra c).
Definition set_database (v : str) (c : StorageConfig) : StorageConfig := mkConfig (type c) (host c) (port c) v (user c) (password c) (extra c).
Definition set_user (v : str) (c : StorageConfig) : StorageConfig := mkConfig (type c) (host c) (port c) (database c) v (password c) (extra c).
Definition set_password (v : str) (c : StorageConfig) : StorageConfig := mkConfig (type c) (host c) (port c) (database c) (user c) v (extra c).
Definition set_extra (k : string) (v : str) (c : StorageConfig) : StorageConfig :=
  mkConfig (type c) (host c) (port c) (database c) (user c) (password c) (<[lit k := v]> (extra c)).

Definition default_config : StorageConfig := mkConfig (lit "memory") (lit "127.0.0.1") 0 [] [] [] ∅.

Section Loader.
Context {Node : Type} `{Yaml Node}.

(** [if (m[k]) set(m[k].as...)] *)
Definition field {A} (m : Node) (k : string) (as_ : Node -> option A) (set : A -> StorageConfig -> StorageConfig) : Load unit :=
  let+ n := lift (subscript (lit k) m) in
  match n with
  | None => lpure tt
  | Some n => let+ v := lift (as_ n) in lset (set v)
  end.

Definition mysql_section (m : Node) : Load unit :=
  do+ field m "host" as_string set_host then
  do+ field m "port" (fun n => Some (as_int_or 3306 n)) set_port then
  do+ field m "database" as_string set_database then
  do+ field m "user" as_string set_user then
  do+ field m "password" as_string set_password then
  do+ field m "charset" as_string (set_extra "charset") then
  field m "table" as_string (set_extra "table").

Definition mongodb_section (m : Node) : Load unit :=
  do+ field m "uri" as_string (set_extra "uri") then
  do+ field m "database" as_string set_database then
  field m "collection" as_string (set_extra "collection").

Definition is_type (t : string) (c : StorageConfig) : bool := bool_decide (type c = lit t).

(** [a && storage[k]]: the node is looked up when [a] holds. *)
Definition section_if (b : bool) (k : string) (storage : Node) : Load (option Node) := if b then lift (subscript (lit k) storage) else lpure None.

Definition parse_yaml (root : Node) : Load bool :=
  let+ s := lift (subscript (lit "storage") root) in
  match s with
  | None => lpure false
  | Some storage =>
      do+ field storage "type" (fun n => Some (as_string_or (lit "memory") n)) set_type then
      let+ sql := lread (is_type "mysql") in
      let+ m := section_if sql "mysql" storage in
      match m with
      | Some m => do+ mysql_section m then lpure true
      | None =>
          let+ mongo := lread (fun c => is_type "mongodb" c || is_type "mongo" c) in
          let+ m := section_if mongo "mongodb" storage in
          match m with
          | Some m => do+ mongodb_section m then lpure true
          | None => lpure true
          end
      end
  end.

(** The exceptions are caught; the configuration stays as it is then. *)
Definition load_from_string (content : str) (c : StorageConfig) : bool * StorageConfig :=
  match (let+ root := lift (parse_document content) in parse_yaml root) c with
  | (Some b, c1) => (b, c1)
  | (None, c1) => (false, c1)
  end.

(** [LoadFile] throws when there is no file. *)
Definition load (files : str -> option str) (path : str) (c : StorageConfig) : bool * StorageConfig :=
  match files path with
  | None => (false, c)
  | Some content => load_from_string content c
  end.
End Loader.

(** ** The factory *)

Section Factory.
Context {Node DB Mongo : Type} `{Yaml Node} `{MysqlServer DB} {IO : IterOrder str}.

(** Whether a connection is made to host, user, password, database, port, with a
    character set; MongoDB's answer to a configuration. *)
Context (dial : str -> str -> str -> str -> Z -> str -> option DB).
Context (mongo_connect : StorageConfig -> option Mongo).
(** The file system, and [getenv("STORAGE_CONFIG")]. *)
Context (files : str -> option str) (env : option str) (now : Z).

Inductive storage :=
| AsMemory (m : MemoryStorage)
| AsMysql (s : MysqlStorage DB)
| AsMongo (s : Mongo).

Definition mysql_dial (c : StorageConfig) : option DB := dial (host c) (user c) (password c) (database c) (real_port c) (charset c).

Definition create (c : StorageConfig) : option storage :=
  let t := match type c with [] => lit "memory" | t => t end in
  if bool_decide (t = lit "memory") then Some (AsMemory ∅)
  else if bool_decide (t = lit "mysql") then
    match connect (mysql_dial c) now (MysqlStorage_init c) with
    | (true, s) => Some (AsMysql s)
    | (false, _) => None
    end
  else if bool_decide (t = lit "mongodb") || bool_decide (t = lit "mongo") then AsMongo <$> mongo_connect c
  else None.

Definition create_simple (t h : str) (p : Z) (db : str) : option storage :=
  create (set_database db (set_port p (set_host (match h with [] => lit "127.0.0.1" | _ => h end) (set_type t default_config)))).

Definition create_from_yaml (yaml_path : str) : option storage :=
  let path := default yaml_path env in
  match load files path default_config with
  | (true, c) => create c
  | (false, _) => None
  end.

(** ** StorageComponent *)

Record StorageComponent := mkComponent { storage_ : option storage }.

Definition of_storage (s : option storage) : StorageComponent := mkComponent s.
Definition of_config (c : StorageConfig) : StorageComponent := mkComponent (create c).
Definition of_yaml (path : str) : StorageComponent := mkComponent (create_from_yaml path).

(** Its operations on a back end behind the interface, or on none. *)
Section Delegates.
Context {S : Type} `{StorageInterface S}.
Definition on_storage {A} (none : A) (f : S -> A * S) (s : option S) : A * option S :=
  match s with Some s => let '(a, s1) := f s in (a, Some s1) | None => (none, None) end.
Definition component_get (k : str) : option S -> StorageResult * option S := on_storage (failure "storage not initialized") (get now k).
Definition component_put (k v : str) (e : Z) : option S -> StorageResult * option S := on_storage (failure "storage not initialized") (put now k v e).
Definition component_remove (k : str) : option S -> StorageResult * option S := on_storage (failure "storage not initialized") (remove now k).
Definition component_exists (k : str) : option S -> bool * option S := on_storage false (exists_ now k).
End Delegates.
End Factory.
Arguments storage DB Mongo : clear implicits.
Arguments StorageComponent DB Mongo : clear implicits.

(** ** What the YAML library documents *)

(** The first entry of a key. *)
Fixpoint assoc {A} (k : str) (l : list (str * A)) : option A :=
  match l with [] => None | (k', a) :: l' => if bool_decide (k = k') then Some a else assoc k l' end.

Class YamlLaws (Node : Type) `{Yaml Node} := {
  mapping : list (str * Node) -> Node;
  scalar : str -> Node;
  number : Z -> Node;
  subscript_mapping k l : subscript k (mapping l) = Some (assoc k l);
  as_string_scalar s : as_string (scalar s) = Some s;
  as_string_or_scalar fb s : as_string_or fb (scalar s) = s;
  as_int_number fb z : - 2 ^ 31 <= z < 2 ^ 31 -> as_int_or fb (number z) = z
}.

(** ** Files as the repository's [config/storage.yaml] *)

Section Documents.
Context {Node : Type} `{YamlLaws Node}.

(** An entry that may be left out. *)
Definition entry {A} (k : string) (node : A -> Node) (o : option A) : list (str * Node) := match o with Some a => [(lit k, node a)] | None => [] end.

Record mysql_fields := mkFields {
  f_host : option str; f_port : option Z; f_database : option str; f_user : option str; f_password : option str; f_charset : option str; f_table : option str
}.

Definition mysql_node (f : mysql_fields) : Node :=
  mapping (entry "host" scalar (f_host f) ++ entry "port" number (f_port f) ++ entry "database" scalar (f_database f) ++ entry "user" scalar (f_user f) ++
           entry "password" scalar (f_password f) ++ entry "charset" scalar (f_charset f) ++ entry "table" scalar (f_table f)).

Definition storage_file (t : string) (sections : list (str * Node)) : Node := mapping [(lit "storage", mapping ((lit "type", scalar (lit t)) :: sections))].

Definition port_ok (f : mysql_fields) : Prop := match f_port f with Some p => - 2 ^ 31 <= p < 2 ^ 31 | None => True end.

Definition add_extra (k : string) (o : option str) (m : gmap str str) : gmap str str := match o with Some v => <[lit k := v]> m | None => m end.

(** The configuration [c] with the file's fields over it. *)
Definition configured (f : mysql_fields) (c : StorageConfig) : StorageConfig :=
  mkConfig (lit "mysql") (default (host c) (f_host f)) (default (port c) (f_port f)) (default (database c) (f_database f)) (default (user c) (f_user f))
    (default (password c) (f_password f)) (add_extra "table" (f_table f) (add_extra "charset" (f_charset f) (extra c))).

Lemma assoc_entry {A} k k' (node : A -> Node) o l : lit k <> lit k' -> assoc (lit k) (entry k' node o ++ l) = assoc (lit k) l.
Proof. intros Hk. destruct o; [|done]. cbn. by rewrite bool_decide_false. Qed.

Lemma assoc_here {A} k (node : A -> Node) o l : assoc (lit k) l = None -> assoc (lit k) (entry k node o ++ l) = node <$> o.
Proof. intros Hl. destruct o; [|done]. cbn. by rewrite bool_decide_true. Qed.

Lemma assoc_last {A} k k' (node : A -> Node) o : assoc (lit k) (entry k' node o) = if bool_decide (lit k = lit k') then node <$> o else None.
Proof. destruct o; cbn; by case_bool_decide. Qed.

(** A step of a section, and of the load. *)
Lemma field_present {A} l k (as_ : Node -> option A) set n v c : assoc (lit k) l = Some n -> as_ n = Some v -> field (mapping l) k as_ set c = (Some tt, set v c).
Proof. intros Hl Hn. unfold field, lbind, lift. rewrite subscript_mapping, Hl, Hn. reflexivity. Qed.

Lemma field_absent {A} l k (as_ : Node -> option A) set c : assoc (lit k) l = None -> field (mapping l) k as_ set c = (Some tt, c).
Proof. intros Hl. unfold field, lbind, lift. by rewrite subscript_mapping, Hl. Qed.

Lemma field_entry {A B} l k (node : A -> Node) o (as_ : Node -> option B) (g : A -> B) set c : assoc (lit k) l = node <$> o -> (forall a, o = Some a -> as_ (node a) = Some (g a)) ->
  field (mapping l) k as_ set c = (Some tt, match o with Some a => set (g a) c | None => c end).
Proof. destruct o as [a|]; intros Hl Ha; [by eapply field_present; [exact Hl|apply Ha]|by apply field_absent]. Qed.

Lemma lbind_done {A B} (m : Load A) (f : A -> Load B) c a c1 : m c = (Some a, c1) -> lbind m f c = f a c1.
Proof. unfold lbind. by intros ->. Qed.
End Documents.

Ltac assoc_entries :=
  repeat (rewrite assoc_entry by (vm_compute; discriminate));
  first [apply assoc_here; repeat (rewrite assoc_entry by (vm_compute; discriminate)); rewrite assoc_last; reflexivity
        |rewrite assoc_last; reflexivity].

Section Loaded.
Context {Node : Type} `{YamlLaws Node}.
Local Open Scope load_scope.

Lemma mysql_section_loaded f c : port_ok f -> mysql_section (mysql_node f) (set_type (lit "mysql") c) = (Some tt, configured f c).
Proof.
  intros Hp. unfold mysql_section, mysql_node.
  erewrite lbind_done; [|apply (field_entry _ "host" scalar (f_host f) _ id); [assoc_entries|intros; apply as_string_scalar]].
  erewrite lbind_done; [|apply (field_entry _ "port" number (f_port f) _ id); [assoc_entries|intros a Ha; f_equal; apply as_int_number; unfold port_ok in Hp; by rewrite Ha in Hp]].
  erewrite lbind_done; [|apply (field_entry _ "database" scalar (f_database f) _ id); [assoc_entries|intros; apply as_string_scalar]].
  erewrite lbind_done; [|apply (field_entry _ "user" scalar (f_user f) _ id); [assoc_entries|intros; apply as_string_scalar]].
  erewrite lbind_done; [|apply (field_entry _ "password" scalar (f_password f) _ id); [assoc_entries|intros; apply as_string_scalar]].
  erewrite lbind_done; [|apply (field_entry _ "charset" scalar (f_charset f) _ id); [assoc_entries|intros; apply as_string_scalar]].
  erewrite (field_entry _ "table" scalar (f_table f) _ id); [|assoc_entries|intros; apply as_string_scalar].
  f_equal. destruct f as [[] [] [] [] [] [] []]; reflexivity.
Qed.

(** A file of type [t] with sections: what is loaded is left to the sections. *)
Lemma load_typed content t sections c : parse_document content = Some (storage_file t sections) ->
  load_from_string content c =
  match (let+ m := section_if (is_type "mysql" (set_type (lit t) c)) "mysql" (mapping ((lit "type", scalar (lit t)) :: sections)) in
         match m with
         | Some m => do+ mysql_section m then lpure true
         | None =>
             let+ mongo := lread (fun c => is_type "mongodb" c || is_type "mongo" c) in
             let+ m := section_if mongo "mongodb" (mapping ((lit "type", scalar (lit t)) :: sections)) in
             match m with Some m => do+ mongodb_section m then lpure true | None => lpure true end
         end) (set_type (lit t) c) with
  | (Some b, c1) => (b, c1)
  | (None, c1) => (false, c1)
  end.
Proof.
  intros Hp. unfold load_from_string. rewrite Hp. erewrite lbind_done by reflexivity. unfold parse_yaml, storage_file.
  erewrite lbind_done by (unfold lift; rewrite subscript_mapping; cbn [assoc]; rewrite bool_decide_true by done; reflexivity). cbv beta iota.
  erewrite lbind_done; [|eapply field_present; [cbn [assoc]; rewrite bool_decide_true by done; reflexivity|]; cbv beta; rewrite as_string_or_scalar; reflexivity].
  erewrite lbind_done by reflexivity. reflexivity.
Qed.

Lemma mysql_file_loaded content f c : port_ok f -> parse_document content = Some (storage_file "mysql" [(lit "mysql", mysql_node f)]) ->
  load_from_string content c = (true, configured f c).
Proof.
  intros Hf Hp. rewrite (load_typed _ _ _ _ Hp). unfold is_type, set_type at 1. cbn [type]. rewrite bool_decide_true by done. cbn [section_if].
  erewrite lbind_done by (unfold lift; rewrite subscript_mapping; reflexivity). cbn [assoc]. rewrite bool_decide_false by (vm_compute; discriminate). rewrite bool_decide_true by done.
  cbv beta iota. erewrite lbind_done by (by apply mysql_section_loaded). reflexivity.
Qed.

(** A file with a MySQL section gives the configuration it says, each field it leaves
    out as it was. *)
Theorem mysql_file_read_back content f c : port_ok f -> parse_document content = Some (storage_file "mysql" [(lit "mysql", mysql_node f)]) ->
  load_from_string content c = (true, configured f c).
Proof. exact (mysql_file_loaded content f c). Qed.

(** A file that fails is reported, but the fields before the failure are already in the
    caller's configuration. *)
Theorem failed_load_keeps_part content h bad c : as_string bad = None ->
  parse_document content = Some (storage_file "mysql" [(lit "mysql", mapping [(lit "host", scalar h); (lit "password", bad)])]) ->
  load_from_string content c = (false, set_host h (set_type (lit "mysql") c)).
Proof.
  intros Hb Hp. rewrite (load_typed _ _ _ _ Hp). unfold is_type, set_type at 1. cbn [type]. rewrite bool_decide_true by done. cbn [section_if].
  erewrite lbind_done by (unfold lift; rewrite subscript_mapping; reflexivity). cbn [assoc]. rewrite bool_decide_false by (vm_compute; discriminate). rewrite bool_decide_true by done.
  cbv beta iota. unfold mysql_section, lbind.
  rewrite (field_present _ "host" as_string set_host (scalar h) h) by (done || apply as_string_scalar).
  rewrite !field_absent by (vm_compute; reflexivity). unfold field, lbind, lift. rewrite subscript_mapping. cbn [assoc]. rewrite bool_decide_false by (vm_compute; discriminate). rewrite bool_decide_true by done.
  by rewrite Hb.
Qed.

(** Of type mongo only a section named mongodb is read: one named as the type is
    passed over, and the load succeeds. *)
Theorem mongo_section_ignored content m c : parse_document content = Some (storage_file "mongo" [(lit "mongo", m)]) ->
  load_from_string content c = (true, set_type (lit "mongo") c).
Proof.
  intros Hp. rewrite (load_typed _ _ _ _ Hp). unfold is_type, set_type at 1. cbn [type]. rewrite bool_decide_false by (vm_compute; discriminate). cbn [section_if].
  unfold lbind, lread, lpure, section_if, lift, is_type. cbn. rewrite subscript_mapping. reflexivity.
Qed.
End Loaded.

(** ** From a file to a back end *)

Section Made.
Context {Node DB Mongo : Type} `{YamlLaws Node} {server : MysqlServer DB}.
Context (dial : str -> str -> str -> str -> Z -> str -> option DB) (mongo_connect : StorageConfig -> option Mongo) (files : str -> option str) (env : option str).

(** C35: A file with a MySQL section whose server answers makes a back end that answers as
    one map does, the table's rows, on the table the file names. *)
Theorem mysql_file_serves path content f now db0 db1 {laws : MysqlLaws (table (configured f default_config)) DB} : port_ok f ->
  files (default path env) = Some content -> parse_document content = Some (storage_file "mysql" [(lit "mysql", mysql_node f)]) ->
  mysql_dial dial (configured f default_config) = Some db0 -> execute (create_sql (table (configured f default_config))) [] now db0 = (inr [], db1) ->
  exists s, create_from_yaml dial mongo_connect files env now path = Some (AsMysql s) /\
    forall l, Forall (command_ok (table (configured f default_config))) l ->
      (run_commands do_command l s).1 = (run_commands (spec_command (table (configured f default_config))) l (contents _ db1)).1.
Proof.
  intros Hf Hfile Hp Hd He. exists (mkMysql (configured f default_config) (Some db1)). split.
  - unfold create_from_yaml, load. rewrite Hfile, (mysql_file_loaded _ _ _ Hf Hp). unfold create. cbn [type configured].
    rewrite bool_decide_false by (vm_compute; discriminate). rewrite bool_decide_true by done. fold (configured f default_config).
    rewrite Hd. unfold connect. cbn [MysqlStorage_init config_]. rewrite He. reflexivity.
  - intros l Hl. apply commands_refine; [|done]. split; reflexivity.
Qed.
End Made.

(** ** Nodes as trees *)

Inductive tree := TNull | TScalar (s : str) | TNumber (z : Z) | TMap (l : list (str * tree)).

(** Documents by name: the text is the name of one of these. *)
Definition demo_fields : mysql_fields := mkFields (Some (lit "db.local")) (Some 3307) (Some (lit "game")) (Some (lit "root")) None None (Some (lit "kv")).

Definition tree_string (n : tree) : option str := match n with TScalar s => Some s | TNumber z => Some (to_string z) | _ => None end.

Definition demo_document (text : str) : option tree :=
  let typed t k m := TMap [(lit "storage", TMap [(lit "type", TScalar (lit t)); (lit k, m)])] in
  if bool_decide (text = lit "mysql") then
    Some (typed "mysql" "mysql" (TMap [(lit "host", TScalar (lit "db.local")); (lit "port", TNumber 3307); (lit "database", TScalar (lit "game")); (lit "user", TScalar (lit "root")); (lit "table", TScalar (lit "kv"))]))
  else if bool_decide (text = lit "bad") then Some (typed "mysql" "mysql" (TMap [(lit "host", TScalar (lit "db.local")); (lit "password", TMap [])]))
  else if bool_decide (text = lit "mongo") then Some (typed "mongo" "mongo" (TMap []))
  else None.

#[export] Instance tree_yaml : Yaml tree := {|
  parse_document := demo_document;
  subscript k n := match n with TMap l => Some (assoc k l) | TNull => Some None | _ => None end;
  as_string := tree_string;
  as_string_or fb n := default fb (tree_string n);
  as_int_or fb n := match n with TNumber z => z | _ => fb end
|}.

#[export] Program Instance tree_laws : YamlLaws tree := {| mapping := TMap; scalar := TScalar; number := TNumber |}.
Solve All Obligations with done.

Lemma mysql_file_read_back_witness : load_from_string (Node := tree) (lit "mysql") default_config = (true, configured demo_fields default_config).
Proof. apply (mysql_file_read_back (Node := tree)); [cbn; lia|vm_compute; reflexivity]. Defined.

Lemma failed_load_keeps_part_witness : load_from_string (Node := tree) (lit "bad") default_config = (false, set_host (lit "db.local") (set_type (lit "mysql") default_config)).
Proof. apply (failed_load_keeps_part (Node := tree) _ _ (TMap [])); [reflexivity|vm_compute; reflexivity]. Defined.

Lemma mongo_section_ignored_witness : load_from_string (Node := tree) (lit "mongo") default_config = (true, set_type (lit "mongo") default_config).
Proof. apply (mongo_section_ignored (Node := tree) _ (TMap [])). vm_compute. reflexivity. Defined.

Definition demo_files (path : str) : option str := if bool_decide (path = lit "storage.yaml") then Some (lit "mysql") else None.

Lemma mysql_file_serves_witness : exists s,
  create_from_yaml (Node := tree) (DB := folding_db) (Mongo := unit) (fun _ _ _ _ _ _ => Some ∅) (fun _ => None) demo_files None 5 (lit "storage.yaml") = Some (AsMysql s) /\
  (run_commands do_command [CPut 6 (lit "a") (lit "x") 0; CGet 7 (lit "a")] s).1 = [RResult (success []); RResult (success (lit "x"))].
Proof.
  destruct (mysql_file_serves (Node := tree) (DB := folding_db) (Mongo := unit) (fun _ _ _ _ _ _ => Some ∅) (fun _ => None) demo_files None
    (lit "storage.yaml") (lit "mysql") demo_fields 5 ∅ ∅ (laws := folding_laws)) as (s & Hs & Hl); [cbn; lia|vm_compute; reflexivity..|].
  exists s. split; [exact Hs|]. rewrite Hl by (repeat constructor). vm_compute. reflexivity.
Defined.
