(* ===== verification/Benchmark.v ===== *)
(** * Benchmark: src/benchmark/benchmark.cpp

    The suite: warming up, measuring, the statistics and their export; and the functions it
    measures that are computations of the library (LoadBalance, ConsistentHash, Protocol).
    A function to measure acts on a world, from which the clock is read in nanoseconds. *)

From Stdlib Require Import SpecFloat.
From S2P Require Import Prelude.
From S2P Require Import Numeric.
From S2P Require Import Framing.
From S2P Require Import Protocol.
From S2P Require Import Wire.
From S2P Require Import Effects.
From S2P Require Import Metrics.
From S2P Require Discovery LoadBalance ConsistentHash.

(** ** The suite *)

Record BenchmarkConfig := mkBenchmarkConfig { warmup_iterations : nat; measurement_iterations : nat; skip_warmup : bool }.
Definition default_config : BenchmarkConfig := mkBenchmarkConfig (Z.to_nat 1000) (Z.to_nat 10000) false.

(** The doubles of a result. *)
Record stats := mkStats {
  avg_time_ms : f64; min_time_ms : f64; max_time_ms : f64;
  ops_per_second : f64; ops_per_second_min : f64; ops_per_second_max : f64; ops_per_second_stddev : f64
}.

(** Without [stats], they were never written. *)
Record BenchmarkResult := mkBenchmarkResult { name : str; description : str; iterations : nat; written : option stats }.

Section Suite.
Context {W : Type} (now : W -> Z * W).

Record BenchmarkDescriptor := mkDescriptor { desc_name : str; desc_description : str; func : W -> W }.

Record BenchmarkSuite := mkSuite { name_ : str; results_ : list BenchmarkResult; benchmarks_ : list BenchmarkDescriptor }.

Definition BenchmarkSuite_init (n : str) : BenchmarkSuite := mkSuite n [] [].

Definition add_benchmark (n d : str) (f : W -> W) (s : BenchmarkSuite) : BenchmarkSuite :=
  mkSuite (name_ s) (results_ s) (benchmarks_ s ++ [mkDescriptor n d f]).

Fixpoint warmup (f : W -> W) (n : nat) (w : W) : W :=
  match n with O => w | S n' => warmup f n' (f w) end.

(** [duration.count() / 1000000.0] *)
Definition milliseconds (ns : Z) : f64 := f64_div (f64_of_Z ns) (f64_of_Z 1000000).

Fixpoint measure (f : W -> W) (n : nat) (w : W) : list f64 * W :=
  match n with
  | O => ([], w)
  | S n' =>
      let '(start, w1) := now w in
      let '(end_, w2) := now (f w1) in
      let '(times, w3) := measure f n' w2 in
      (milliseconds (end_ - start) :: times, w3)
  end.

Definition calculate_avg (values : list f64) : f64 :=
  match values with [] => f64_of_Z 0 | _ => f64_div (foldl f64_add (f64_of_Z 0) values) (f64_of_Z (Z.of_nat (length values))) end.

(** [std::min_element]: the first of the least. *)
Definition calculate_min (values : list f64) : f64 :=
  match values with [] => f64_of_Z 0 | v :: l => foldl (fun m v => if f64_ltb v m then v else m) v l end.
Definition calculate_max (values : list f64) : f64 :=
  match values with [] => f64_of_Z 0 | v :: l => foldl (fun m v => if f64_ltb m v then v else m) v l end.

Definition calculate_stddev (values : list f64) (avg : f64) : f64 :=
  match values with
  | [] => f64_of_Z 0
  | _ => SFsqrt 53 1024 (f64_div (foldl (fun s v => let diff := SFsub 53 1024 v avg in f64_add s (f64_mul diff diff)) (f64_of_Z 0) values) (f64_of_Z (Z.of_nat (length values))))
  end.

Definition stats_of (times : list f64) : stats :=
  let avg := calculate_avg times in
  let ops := f64_div (f64_of_Z 1000) avg in
  mkStats avg (calculate_min times) (calculate_max times) ops (f64_div (f64_of_Z 1000) (calculate_max times)) (f64_div (f64_of_Z 1000) (calculate_min times))
    (f64_div (f64_mul (calculate_stddev times avg) ops) avg).

Definition run_single_benchmark (d : BenchmarkDescriptor) (c : BenchmarkConfig) (w : W) : BenchmarkResult * W :=
  let w1 := if negb (skip_warmup c) && (0 <? warmup_iterations c)%nat then warmup (func d) (warmup_iterations c) w else w in
  let '(times, w2) := measure (func d) (measurement_iterations c) w1 in
  (mkBenchmarkResult (desc_name d) (desc_description d) (measurement_iterations c) (Some (stats_of times)), w2).

Fixpoint run_each (c : BenchmarkConfig) (l : list BenchmarkDescriptor) (w : W) : list BenchmarkResult * W :=
  match l with
  | [] => ([], w)
  | d :: l' => let '(r, w1) := run_single_benchmark d c w in let '(rs, w2) := run_each c l' w1 in (r :: rs, w2)
  end.

Definition run (c : BenchmarkConfig) (s : BenchmarkSuite) (w : W) : list BenchmarkResult * BenchmarkSuite * W :=
  let '(rs, w1) := run_each c (benchmarks_ s) w in (rs, mkSuite (name_ s) rs (benchmarks_ s), w1).

Definition run_benchmark (n : str) (c : BenchmarkConfig) (s : BenchmarkSuite) (w : W) : BenchmarkResult * BenchmarkSuite * W :=
  match list_find (fun d => desc_name d = n) (benchmarks_ s) with
  | Some (_, d) => let '(r, w1) := run_single_benchmark d c w in (r, mkSuite (name_ s) (results_ s ++ [r]) (benchmarks_ s), w1)
  | None => (mkBenchmarkResult n [] 0 None, s, w)
  end.
End Suite.
Arguments BenchmarkDescriptor W : clear implicits.
Arguments BenchmarkSuite W : clear implicits.

(** ** Export *)

Definition newline : str := [Byte.x0a].
Definition quote : str := [Byte.x22].
Definition csv_header : str :=
  lit "name,description,iterations,avg_time_ms,min_time_ms,max_time_ms,ops_per_second,ops_per_second_min,ops_per_second_max,ops_per_second_stddev" ++ newline.

Definition doubles (s : stats) : list (string * f64) :=
  [("avg_time_ms", avg_time_ms s); ("min_time_ms", min_time_ms s); ("max_time_ms", max_time_ms s); ("ops_per_second", ops_per_second s);
   ("ops_per_second_min", ops_per_second_min s); ("ops_per_second_max", ops_per_second_max s); ("ops_per_second_stddev", ops_per_second_stddev s)]%string.

(** Only results with their doubles written are ever in [results_]. *)
Definition csv_row (r : BenchmarkResult) : option str :=
  s ← written r;
  Some (name r ++ lit "," ++ quote ++ description r ++ quote ++ lit "," ++ to_string (Z.of_nat (iterations r)) ++
        (doubles s ≫= fun d => lit "," ++ show_double d.2) ++ newline).

Definition export_csv {W} (s : BenchmarkSuite W) : option str := rows ← mapM csv_row (results_ s); Some (csv_header ++ concat rows).

Definition json_line (key : string) (v : str) : str := lit "    " ++ quote ++ lit key ++ quote ++ lit ": " ++ v.
Definition json_string (s : str) : str := quote ++ s ++ quote.

Definition json_result (r : BenchmarkResult) : option str :=
  s ← written r;
  Some (lit "  {" ++ newline ++
        concat (map (fun l => l ++ lit "," ++ newline) (json_line "name" (json_string (name r)) :: json_line "description" (json_string (description r)) ::
          json_line "iterations" (to_string (Z.of_nat (iterations r))) :: map (fun d => json_line d.1 (show_double d.2)) (take 6 (doubles s)))) ++
        json_line "ops_per_second_stddev" (show_double (ops_per_second_stddev s)) ++ newline).

Fixpoint json_body (l : list str) : str :=
  match l with
  | [] => []
  | [r] => r ++ lit "  }" ++ newline
  | r :: l' => r ++ lit "  }," ++ newline ++ json_body l'
  end.

Definition export_json {W} (s : BenchmarkSuite W) : option str := rows ← mapM json_result (results_ s); Some (lit "[" ++ newline ++ json_body rows ++ lit "]" ++ newline).

(** ** The functions measured *)

Module memory_bench.

(** [static_cast<int>] of a [size_t]. *)
Definition int_of (n : nat) : Z := (Z.of_nat n + 2 ^ 31) mod 2 ^ 32 - 2 ^ 31.

(** The vector at the end. *)
Definition benchmark_vector_alloc (size count : nat) : list Z :=
  foldl (fun v i => let v := v ++ [int_of i] in if (size <=? length v)%nat then [] else v) [] (seq 0 count).

Definition benchmark_map_insert (count : nat) : gmap Z Z := foldl (fun m i => <[int_of i := int_of i]> m) ∅ (seq 0 count).

Definition benchmark_string_concat (length : nat) : str := foldl (fun s i => s ++ [byte_of (97 + Z.of_nat i mod 26)]) [] (seq 0 length).
End memory_bench.

Module loadbalance_bench.
Import Discovery LoadBalance.

Definition inst_name (i : nat) : str := lit "inst_" ++ to_string (Z.of_nat i).
Definition bench_instance (i : nat) : ServiceInstance :=
  mkInstance (lit "bench_svc") (inst_name i) (lit "127.0.0.1") (8000 + Z.of_nat i) ∅ 0 0 true.

(** The five registrations; [now] is the clock at each. *)
Definition bench_discovery (now : nat -> Z) : discovery :=
  foldl (fun d i => (register_service (now i) (bench_instance i) d).1.2) (MemoryServiceDiscovery 30000 0) (seq 0 5).

Section Order.
Context {IO : IterOrder str} (now : nat -> Z).

Definition bench_discover (service : str) : list ServiceInstance := discover_services service (bench_discovery now).

(** The flag of each selection. *)
Definition flags {S} (r : outcome (list (option ServiceInstance) * S)) : outcome (list bool) :=
  '(outs, _) ←o r; Ok ((fun o => bool_decide (is_Some o)) <$> outs).

Definition benchmark_round_robin_select (iterations : nat) : outcome (list bool) :=
  flags (selections bench_discover (lit "bench_svc") iterations RoundRobinLoadBalancer).

Definition bench_weighted : weighted :=
  mkWeighted (foldl (fun b i => set_weight (inst_name i) (Z.of_nat i + 1) b) (wr_base WeightedRoundRobinLoadBalancer) (seq 0 5)) ∅.

Definition benchmark_weighted_round_robin_select (iterations : nat) : outcome (list (option ServiceInstance)) :=
  '(outs, _) ←o selections bench_discover (lit "bench_svc") iterations bench_weighted; Ok outs.

Definition bench_ring `{ConsistentHash.RingSort} : ConsistentHash.balancer :=
  foldl (fun s i => ConsistentHash.add_instance (lit "bench_svc") (inst_name i) 1 s) (ConsistentHash.ConsistentHashLoadBalancer 160) (seq 0 5).

Definition benchmark_consistent_hash_select `{ConsistentHash.RingSort} (iterations : nat) : list bool :=
  (fun i => bool_decide (is_Some (ConsistentHash.select_instance (lit "bench_svc") (lit "key_" ++ to_string (Z.of_nat i)) bench_ring))) <$> seq 0 iterations.
End Order.
End loadbalance_bench.

Module protocol_bench.
Import Endian Message Parser.

Definition bench_message (i body_size : nat) : Message := mkMessage (u16 (Z.of_nat i)) (replicate body_size (byte_of 120)).

Definition benchmark_message_serialize (e : endianness) (iterations body_size : nat) : list (list byte) :=
  replicate iterations (serialize e (bench_message (Z.to_nat 1001) body_size)).

Definition benchmark_message_deserialize (e : endianness) (iterations body_size : nat) : list (bool * Message) :=
  let data := serialize e (bench_message (Z.to_nat 1001) body_size) in replicate iterations (deserialize e data Message_default).

Definition bench_buffer (e : endianness) (body_size : nat) : list byte :=
  foldl (fun b i => b ++ serialize e (bench_message (Z.to_nat 1000 + i) body_size)) [] (seq 0 10).

Definition benchmark_protocol_parser_parse (e : endianness) (iterations body_size : nat) : list (outcome nat) :=
  replicate iterations ('(ms, _) ←o feed e (bench_buffer e body_size) decoder_init; Ok (length ms)).
End protocol_bench.

(** ** What the suite runs *)

Section Runs.
Context {W A : Type} (now : W -> Z * W) (trace : W -> list A) (label : str -> A).
Context (Hclock : forall w, trace (now w).2 = trace w).

Definition traces (d : BenchmarkDescriptor W) : Prop := forall w, trace (func d w) = trace w ++ [label (desc_name d)].

(** The calls made of a benchmark under a configuration. *)
Definition calls (c : BenchmarkConfig) : nat := ((if skip_warmup c then 0 else warmup_iterations c) + measurement_iterations c)%nat.

Lemma warmup_trace d n w : traces d -> trace (warmup (func d) n w) = trace w ++ replicate n (label (desc_name d)).
Proof. intros Hd. revert w. induction n as [|n IH]; intros w; [by rewrite app_nil_r|]. cbn. by rewrite IH, Hd, <- app_assoc. Qed.

Lemma measure_trace d n w : traces d -> trace (measure now (func d) n w).2 = trace w ++ replicate n (label (desc_name d)).
Proof.
  intros Hd. revert w. induction n as [|n IH]; intros w; [by rewrite app_nil_r|]. cbn. pose proof (Hclock w) as H1. destruct (now w) as [start w1].
  pose proof (Hclock (func d w1)) as H2. destruct (now (func d w1)) as [end_ w2]. cbn in *. specialize (IH w2). destruct (measure now (func d) n w2) as [times w3]. cbn in *.
  by rewrite IH, H2, Hd, H1, <- app_assoc.
Qed.

Lemma single_trace d c w : traces d -> trace (run_single_benchmark now d c w).2 = trace w ++ replicate (calls c) (label (desc_name d)) /\
  name (run_single_benchmark now d c w).1 = desc_name d /\ iterations (run_single_benchmark now d c w).1 = measurement_iterations c.
Proof.
  intros Hd. unfold run_single_benchmark, calls. set (w1 := if negb (skip_warmup c) && (0 <? warmup_iterations c)%nat then warmup (func d) (warmup_iterations c) w else w).
  assert (trace w1 = trace w ++ replicate (if skip_warmup c then 0 else warmup_iterations c) (label (desc_name d))) as H1.
  { unfold w1. destruct (skip_warmup c); cbn; [by rewrite app_nil_r|]. destruct (warmup_iterations c) eqn:E; [by rewrite app_nil_r|]. by apply warmup_trace. }
  clearbody w1. pose proof (measure_trace d (measurement_iterations c) w1 Hd) as H2. destruct (measure _ _ _ _) as [times w2]. cbn in *.
  split_and!; [|done..]. by rewrite H2, H1, replicate_add, <- app_assoc.
Qed.

Lemma each_trace c l w : Forall traces l -> trace (run_each now c l w).2 = trace w ++ (l ≫= fun d => replicate (calls c) (label (desc_name d))) /\
  (fun r => (name r, iterations r)) <$> (run_each now c l w).1 = (fun d => (desc_name d, measurement_iterations c)) <$> l.
Proof.
  intros Hl. revert w. induction Hl as [|d l Hd _ IH]; intros w; [by rewrite app_nil_r|]. cbn [run_each]. destruct (single_trace d c w Hd) as (H1 & H2 & H3).
  destruct (run_single_benchmark now d c w) as [r w1]. specialize (IH w1). destruct (run_each now c l w1) as [rs w2]. cbn in *. destruct IH as [IH1 IH2].
  split; [by rewrite IH1, H1, <- app_assoc|]. by rewrite IH2, H2, H3.
Qed.

(** A run calls every benchmark in the order they were added, each as often as the
    configuration says, warming up included, and keeps one result for each. *)
Theorem run_calls c s w : Forall traces (benchmarks_ s) ->
  let '(rs, s1, w1) := run now c s w in
  trace w1 = trace w ++ (benchmarks_ s ≫= fun d => replicate (calls c) (label (desc_name d))) /\
  results_ s1 = rs /\ (fun r => (name r, iterations r)) <$> rs = (fun d => (desc_name d, measurement_iterations c)) <$> benchmarks_ s.
Proof.
  intros Hs. unfold run. destruct (each_trace c _ w Hs) as [H1 H2]. destruct (run_each _ _ _ _) as [rs w1]. cbn in *. done.
Qed.
End Runs.

(** ** The least and the greatest *)

Lemma f64_ltb_trans x y z : f64_ltb x y = true -> f64_ltb y z = true -> f64_ltb x z = true.
Proof.
  unfold f64_ltb, SFltb. destruct x as [|[]| |[] m1 e1], y as [|[]| |[] m2 e2], z as [|[]| |[] m3 e3]; cbn; try done.
  all: destruct (Z.compare_spec e1 e2), (Z.compare_spec e2 e3), (Z.compare_spec e1 e3); subst; try lia; try done.
  all: rewrite ?Pos.compare_cont_spec; cbn.
  all: destruct (Pos.compare_spec m1 m2), (Pos.compare_spec m2 m3), (Pos.compare_spec m1 m3); subst; cbn; try lia; try done.
Qed.

Lemma f64_ltb_irrefl x : f64_ltb x x = false.
Proof. unfold f64_ltb, SFltb. destruct x as [|[]| |[] m e]; cbn; try done; rewrite Z.compare_refl, Pos.compare_cont_refl; done. Qed.

(** What a scan of a list keeps is of the list, and nothing is better. *)
Lemma scan_best (better : f64 -> f64 -> bool) : (forall x, better x x = false) -> (forall x y z, better x y = true -> better y z = true -> better x z = true) ->
  forall l seen v, v ∈ seen -> Forall (fun x => better x v = false) seen ->
  let m := foldl (fun m v => if better v m then v else m) v l in m ∈ seen ++ l /\ Forall (fun x => better x m = false) (seen ++ l).
Proof.
  intros Hi Ht l. induction l as [|x l IH]; intros seen v Hv Hs; [by rewrite app_nil_r|]. cbn [foldl].
  rewrite (cons_middle x seen l), app_assoc. apply IH.
  - destruct (better x v); set_solver.
  - destruct (better x v) eqn:E; apply Forall_app; (split; [|by repeat constructor]); [|done].
    eapply Forall_impl; [exact Hs|]. intros u Hu. cbn. apply not_true_iff_false. intros Hux. apply not_true_iff_false in Hu. apply Hu. by eapply Ht.
Qed.

Lemma min_best l : l <> [] -> calculate_min l ∈ l /\ Forall (fun x => f64_ltb x (calculate_min l) = false) l.
Proof.
  destruct l as [|v l]; [done|]. intros _. apply (scan_best f64_ltb f64_ltb_irrefl f64_ltb_trans l [v] v); [left|]. repeat constructor. apply f64_ltb_irrefl.
Qed.

Lemma max_best l : l <> [] -> calculate_max l ∈ l /\ Forall (fun x => f64_ltb (calculate_max l) x = false) l.
Proof.
  destruct l as [|v l]; [done|]. intros _. apply (scan_best (fun x y => f64_ltb y x) f64_ltb_irrefl (fun x y z H1 H2 => f64_ltb_trans z y x H2 H1) l [v] v); [left|].
  repeat constructor. apply f64_ltb_irrefl.
Qed.

(** The least and the greatest time are among those measured, and no other is less, or
    greater; so the least is not greater than the greatest. *)
Theorem min_max_exact l : l <> [] -> (calculate_min l ∈ l) /\ (calculate_max l ∈ l) /\
  Forall (fun x => f64_ltb x (calculate_min l) = false /\ f64_ltb (calculate_max l) x = false) l /\ f64_ltb (calculate_max l) (calculate_min l) = false.
Proof.
  intros Hl. destruct (min_best l Hl) as [H1 H2], (max_best l Hl) as [H3 H4]. split_and!; [done|done|by apply Forall_and|]. by eapply Forall_forall in H4.
Qed.

(** The average is rounded at every step, and can be greater than the greatest time:
    three times of a tenth of a millisecond. *)
Theorem avg_above_max : let times := milliseconds <$> [100000; 100000; 100000] in f64_ltb (calculate_max times) (calculate_avg times) = true.
Proof. vm_compute. reflexivity. Qed.

(** A benchmark that is not in the suite is answered with a result whose doubles were
    never written; the suite and the world stay as they are. *)
Theorem unknown_benchmark_unwritten {W} (now : W -> Z * W) n c s w : (n ∉ desc_name <$> benchmarks_ s) ->
  run_benchmark now n c s w = (mkBenchmarkResult n [] 0 None, s, w).
Proof.
  intros Hn. unfold run_benchmark. destruct (list_find _ _) as [[i d]|] eqn:E; [|done]. apply list_find_Some in E as (Hd & He & _).
  destruct Hn. apply list_elem_of_fmap. exists d. split; [done|]. by eapply list_elem_of_lookup_2.
Qed.

(** ** Faster than the clock *)

Definition zero : f64 := f64_of_Z 0.
Definition zero_stats : stats := mkStats zero zero zero (S754_infinity false) (S754_infinity false) (S754_infinity false) S754_nan.

Lemma sum_zeros n : foldl f64_add (f64_of_Z 0) (replicate n zero) = zero.
Proof. induction n as [|n IH]; [done|]. exact IH. Qed.

Lemma squares_zeros n : foldl (fun s v => let diff := SFsub 53 1024 v zero in f64_add s (f64_mul diff diff)) (f64_of_Z 0) (replicate n zero) = zero.
Proof. induction n as [|n IH]; [done|]. exact IH. Qed.

Lemma avg_eq l : l <> [] -> calculate_avg l = f64_div (foldl f64_add (f64_of_Z 0) l) (f64_of_Z (Z.of_nat (length l))).
Proof. by destruct l. Qed.

Lemma stddev_eq l avg : l <> [] -> calculate_stddev l avg =
  SFsqrt 53 1024 (f64_div (foldl (fun s v => let diff := SFsub 53 1024 v avg in f64_add s (f64_mul diff diff)) (f64_of_Z 0) l) (f64_of_Z (Z.of_nat (length l)))).
Proof. by destruct l. Qed.

Lemma zero_stats_default : stats_of (replicate (measurement_iterations default_config) zero) = zero_stats.
Proof.
  cbn [measurement_iterations default_config]. set (l := replicate (Z.to_nat 10000) zero).
  assert (l <> []) as Hl by (intros H%(f_equal length); unfold l in H; rewrite length_replicate in H; cbn in H; lia).
  assert (Z.of_nat (length l) = 10000) as Hn by (unfold l; rewrite length_replicate; lia).
  assert (calculate_avg l = zero) as Ha by (rewrite avg_eq, Hn by done; unfold l; rewrite sum_zeros; vm_compute; reflexivity).
  assert (calculate_stddev l zero = zero) as Hd by (rewrite stddev_eq, Hn by done; unfold l; rewrite squares_zeros; vm_compute; reflexivity).
  assert (calculate_min l = zero) as Hmin by (destruct (min_best l Hl) as [Hm _]; by apply elem_of_replicate_inv in Hm).
  assert (calculate_max l = zero) as Hmax by (destruct (max_best l Hl) as [Hm _]; by apply elem_of_replicate_inv in Hm).
  unfold stats_of. rewrite Ha, Hd, Hmin, Hmax. vm_compute. reflexivity.
Qed.

Lemma measure_zeros {W} (now : W -> Z * W) t f n w : (forall w, (now w).1 = t) -> (measure now f n w).1 = replicate n zero.
Proof.
  intros Ht. revert w. induction n as [|n IH]; intros w; [done|]. cbn. pose proof (Ht w) as H1. destruct (now w) as [start w1].
  pose proof (Ht (f w1)) as H2. destruct (now (f w1)) as [end_ w2]. cbn in *. specialize (IH w2). destruct (measure now f n w2) as [times w3]. cbn in *. subst.
  f_equal. rewrite Z.sub_diag. vm_compute. reflexivity.
Qed.

Lemma json_result_last r s : written r = Some s ->
  exists before, json_result r = Some (before ++ json_line "ops_per_second_stddev" (show_double (ops_per_second_stddev s)) ++ newline).
Proof. intros H. unfold json_result. rewrite H. cbn [mbind option_bind]. set (body := concat _). exists (lit "  {" ++ newline ++ body). by rewrite <- !app_assoc. Qed.

(** A function that is done before the clock moves has infinitely many operations per
    second, with a deviation that is no number; both are written as such, which is no JSON. *)
Theorem fast_function_infinite {W} (now : W -> Z * W) t d w : (forall w, (now w).1 = t) ->
  let r := (run_single_benchmark now d default_config w).1 in
  written r = Some zero_stats /\
  csv_row r = Some (desc_name d ++ lit "," ++ quote ++ desc_description d ++ quote ++ lit ",10000,0,0,0,inf,inf,inf,nan" ++ newline) /\
  exists before, json_result r = Some (before ++ json_line "ops_per_second_stddev" (lit "nan") ++ newline).
Proof.
  intros Ht r. assert (r = mkBenchmarkResult (desc_name d) (desc_description d) (Z.to_nat 10000) (Some zero_stats)) as ->.
  { subst r. unfold run_single_benchmark. set (w1 := if _ : bool then _ else _). pose proof (measure_zeros now t (func d) (measurement_iterations default_config) w1 Ht) as Hm.
    destruct (measure _ _ _ _) as [times w2]. cbn [fst] in *. subst times. by rewrite zero_stats_default. }
  split; [done|]. split.
  - unfold csv_row. cbn [written option_bind name description iterations mbind]. rewrite Z2Nat.id by lia. reflexivity.
  - by destruct (json_result_last (mkBenchmarkResult (desc_name d) (desc_description d) (Z.to_nat 10000) (Some zero_stats)) zero_stats eq_refl) as [before Hb]; exists before.
Qed.

(** ** What the functions measured compute *)

Import memory_bench.

Lemma int_of_inj i j : (i < Z.to_nat (2 ^ 32))%nat -> (j < Z.to_nat (2 ^ 32))%nat -> int_of i = int_of j -> i = j.
Proof.
  unfold int_of. intros Hi Hj He. apply Nat2Z.inj.
  pose proof (Z.div_mod (Z.of_nat i + 2 ^ 31) (2 ^ 32) ltac:(done)). pose proof (Z.div_mod (Z.of_nat j + 2 ^ 31) (2 ^ 32) ltac:(done)).
  pose proof (Z.mod_pos_bound (Z.of_nat i + 2 ^ 31) (2 ^ 32) ltac:(done)). pose proof (Z.mod_pos_bound (Z.of_nat j + 2 ^ 31) (2 ^ 32) ltac:(done)). lia.
Qed.

Lemma vector_length size count : (0 < size)%nat -> length (benchmark_vector_alloc size count) = (count mod size)%nat.
Proof.
  intros Hs. unfold benchmark_vector_alloc. induction count as [|n IH]; [by rewrite Nat.Div0.mod_0_l|]. rewrite seq_S, foldl_app. cbn [foldl].
  rewrite length_app, IH. cbn [length]. pose proof (Nat.mod_upper_bound n size ltac:(lia)). pose proof (Nat.div_mod n size ltac:(lia)) as Hn. case_test.
  - cbn [length]. symmetry. apply Nat.Div0.mod_divides. exists (S (n / size)). lia.
  - rewrite length_app, IH. cbn [length]. apply (Nat.mod_unique _ _ (n / size)); lia.
Qed.

Lemma map_insert_spec count : (count <= Z.to_nat (2 ^ 32))%nat -> size (benchmark_map_insert count) = count /\
  forall i, benchmark_map_insert count !! int_of i = None \/ exists j, (j < count)%nat /\ int_of i = int_of j.
Proof.
  unfold benchmark_map_insert. induction count as [|n IH]; intros Hc; [split; [apply map_size_empty|intros i; left; apply lookup_empty]|]. rewrite seq_S, foldl_app. cbn [foldl Nat.add].
  destruct (IH ltac:(lia)) as [Hs Hl]. split.
  - rewrite map_size_insert_None; [by rewrite Hs|]. destruct (Hl n) as [?|(j & Hj & He)]; [done|]. apply int_of_inj in He; lia.
  - intros i. destruct (decide (int_of n = int_of i)) as [He|Hne]; [right; exists n; split; [lia|done]|]. rewrite lookup_insert_ne by done.
    destruct (Hl i) as [?|(j & Hj & He)]; [by left|right; exists j; split; [lia|done]].
Qed.

Lemma string_concat_spec n : length (benchmark_string_concat n) = n /\ Forall (fun c => 97 <= byte_val c <= 122) (benchmark_string_concat n).
Proof.
  unfold benchmark_string_concat. induction n as [|n [IH1 IH2]]; [by split; [|constructor]|]. rewrite seq_S, foldl_app. cbn [foldl]. split; [rewrite length_app, IH1; cbn; lia|].
  apply Forall_app. split; [done|]. repeat constructor; rewrite byte_val_of; pose proof (Z.mod_pos_bound (Z.of_nat (0 + n)) 26 ltac:(lia)); rewrite Z.mod_small; lia.
Qed.

(** The memory benchmarks do the work they are named for: the vector never outgrows
    what was reserved, the map has an entry for each insertion, the string is lower-case
    letters of the length asked for. *)
Theorem memory_benchmarks_exact size_ count : (0 < size_)%nat -> (count <= Z.to_nat (2 ^ 32))%nat ->
  length (benchmark_vector_alloc size_ count) = (count mod size_)%nat /\ size (benchmark_map_insert count) = count /\
  length (benchmark_string_concat count) = count /\ Forall (fun c => 97 <= byte_val c <= 122) (benchmark_string_concat count).
Proof. intros Hs Hc. split_and!; [by apply vector_length|by apply map_insert_spec|apply string_concat_spec..]. Qed.

Section Protocol_bench.
Import Endian Message Parser protocol_bench.

Lemma bench_buffer_concat e n : bench_buffer e n = concat (map (serialize e) ((fun i => bench_message (Z.to_nat 1000 + i) n) <$> seq 0 10)).
Proof.
  unfold bench_buffer. assert (forall l b, foldl (fun b i => b ++ serialize e (bench_message (Z.to_nat 1000 + i) n)) b l =
    b ++ concat (map (serialize e) ((fun i => bench_message (Z.to_nat 1000 + i) n) <$> l))) as H.
  { intros l. induction l as [|i l IH]; intros b; [by rewrite app_nil_r|]. cbn [foldl fmap list_fmap map concat]. by rewrite IH, <- app_assoc. }
  apply (H (seq 0 10) []).
Qed.

(** With bodies that fit the length field, every call of the parsing benchmark parses
    its ten messages, and every deserialization succeeds. *)
Theorem protocol_benchmarks_exact e k n : Z.of_nat n < 65536 ->
  benchmark_protocol_parser_parse e k n = replicate k (Ok 10%nat) /\
  benchmark_message_deserialize e k n = replicate k (true, bench_message (Z.to_nat 1001) n).
Proof.
  intros Hn. assert (forall i, Message_wf (bench_message i n)) as Hwf by (intros i; apply (uwrap_range 16); lia).
  assert (forall i, Z.of_nat (length (body (bench_message i n))) < 65536) as Hb by (intros i; cbn; by rewrite length_replicate). split.
  - unfold benchmark_protocol_parser_parse. f_equal. set (ms := (fun i => bench_message (Z.to_nat 1000 + i) n) <$> seq 0 10).
    destruct (feed_frames (feed_step e) ms (map (serialize e) ms) [bench_buffer e n]) as (d & Hd & _).
    + assert (Forall (fun m => Message_wf m /\ Z.of_nat (length (body m)) < 65536) ms) as Hms by (apply Forall_fmap, Forall_true; intros i; split; [apply Hwf|apply Hb]).
      clearbody ms. induction Hms as [|m ms [Hm Hl] _ IH]; constructor; [|done]. by apply serialize_frames.
    + rewrite bench_buffer_concat. cbn [concat]. by rewrite app_nil_r.
    + unfold fits. rewrite length_concat. rewrite (sum_list_fmap_same (4 + n)).
      * rewrite length_map. unfold ms. rewrite length_fmap, length_seq. lia.
      * apply Forall_map. apply Forall_fmap, Forall_true. intros i. cbn. rewrite length_serialize. cbn. by rewrite length_replicate.
    + cbn [feed_all] in Hd. unfold feed. destruct (feed_with _ _ _) as [[ms1 d1]| |]; try done. cbn in *. injection Hd as Hms _. rewrite app_nil_r in Hms. by subst ms1.
  - unfold benchmark_message_deserialize. f_equal. rewrite deserialize_serialize_any by apply Hwf. rewrite uwrap_small by (split; [lia|apply Hb]).
    rewrite Nat2Z.id, take_ge by done. done.
Qed.
End Protocol_bench.

Section Load_bench.
Import Discovery LoadBalance loadbalance_bench.
Context {IO : IterOrder str} (now : nat -> Z).

Definition names : list str := inst_name <$> seq 0 5.

Lemma names_nodup : NoDup names.
Proof. by apply (bool_decide_unpack _). Qed.

Lemma bench_index : service_index_ (bench_discovery now) !! lit "bench_svc" = Some (list_to_set names).
Proof. apply (bool_decide_eq_true_1 _). vm_compute. reflexivity. Qed.

Lemma bench_found : omap (fun i => instances_ (bench_discovery now) !! i) names = (fun i => registered (now i) (bench_instance i)) <$> seq 0 5.
Proof. vm_compute. reflexivity. Qed.

Lemma bench_discovered : bench_discover now (lit "bench_svc") ≡ₚ (fun i => registered (now i) (bench_instance i)) <$> seq 0 5.
Proof.
  unfold bench_discover, discover_services. rewrite bench_index.
  rewrite iter_set_perm, (elements_list_to_set names names_nodup), bench_found. rewrite filter_all; [done|]. apply Forall_fmap, Forall_true. done.
Qed.

Lemma bench_ids : ids (bench_discover now (lit "bench_svc")) ≡ₚ names.
Proof. unfold ids. rewrite bench_discovered. done. Qed.

(** The first selection fetches the list, so it is one on the list fetched. *)
Lemma wr_first discover service b cw n : lb_instances_ b = [] -> discover service <> [] ->
  (obind (selections discover service n (mkWeighted b cw)) (fun p => Ok p.1)) =
  (obind (selections discover service n (mkWeighted (with_instances (stable_sort (discover service)) b) cw)) (fun p => Ok p.1)).
Proof.
  intros Hb Hd. destruct n as [|n]; [done|]. cbn [selections]. f_equal. f_equal. cbn [select_instance weighted_balancer]. unfold wr_select. cbn [wr_base current_weights_ lb_instances_ with_instances].
  rewrite Hb. destruct (stable_sort (discover service)) as [|i l] eqn:E; [|done].
  exfalso. pose proof (stable_sort_perm (discover service)) as Hp. rewrite E in Hp. by apply Permutation_nil_l in Hp.
Qed.

Lemma rr_first discover service b c n : lb_instances_ b = [] -> discover service <> [] ->
  (obind (selections discover service n (mkRoundRobin b c)) (fun p => Ok p.1)) =
  (obind (selections discover service n (mkRoundRobin (with_instances (discover service) b) c)) (fun p => Ok p.1)).
Proof.
  intros Hb Hd. destruct n as [|n]; [done|]. cbn [selections]. f_equal. f_equal. cbn [select_instance round_robin_balancer]. unfold rr_select. cbn [rr_base].
  unfold fetched. cbn [lb_instances_ with_instances]. rewrite Hb. by destruct (discover service).
Qed.

Lemma bench_some : bench_discover now (lit "bench_svc") <> [].
Proof. intros H. pose proof bench_discovered as Hp. rewrite H in Hp. apply Permutation_nil_l in Hp. discriminate. Qed.

Lemma weighted_benchmark (k : nat) : exists outs, benchmark_weighted_round_robin_select now (k * 15) = Ok outs /\
  forall i, (i < 5)%nat -> times (inst_name i) outs = Z.of_nat k * (Z.of_nat i + 1).
Proof.
  pose (b := with_instances (stable_sort (bench_discover now (lit "bench_svc"))) (wr_base bench_weighted)).
  assert (ids (lb_instances_ b) ≡ₚ names) as Hids by (unfold b, ids; cbn [lb_instances_ with_instances]; rewrite stable_sort_perm; apply bench_ids).
  assert (length (lb_instances_ b) = 5%nat) as Hlen by (rewrite <- length_ids, (Permutation_length Hids); done).
  assert (forall i, (i < 5)%nat -> get_weight b (inst_name i) = Z.of_nat i + 1) as Hw.
  { intros i Hi. do 5 (destruct i as [|i]; [vm_compute; reflexivity|]). lia. }
  assert (forall x, x ∈ ids (lb_instances_ b) -> exists i, (i < 5)%nat /\ x = inst_name i) as Hx.
  { intros x. rewrite Hids. intros (i & -> & Hi)%list_elem_of_fmap. exists i. split; [|done]. apply elem_of_seq in Hi. lia. }
  destruct (weighted_cycles (bench_discover now) (lit "bench_svc") b ∅ 15 k) as (outs & cw' & Hs & Ht).
  - lia.
  - rewrite Hids. apply names_nodup.
  - intros x (i & Hi & ->)%Hx. rewrite Hw by done. lia.
  - rewrite (sumZ_perm _ _ _ Hids). vm_compute. reflexivity.
  - lia.
  - rewrite Hlen. done.
  - intros x _. unfold cur. by rewrite lookup_empty.
  - exists outs. unfold benchmark_weighted_round_robin_select.
    pose proof (wr_first (bench_discover now) (lit "bench_svc") (wr_base bench_weighted) ∅ (k * 15) eq_refl bench_some) as Hf. fold b in Hf. change (Z.to_nat 15) with 15%nat in Hs. rewrite Hs in Hf. cbn [obind fst] in Hf.
    change (mkWeighted (wr_base bench_weighted) ∅) with bench_weighted in Hf. destruct (selections (bench_discover now) (lit "bench_svc") (k * 15) bench_weighted) as [[outs1 s1]| |]; try done. cbn [obind fst] in Hf |- *. injection Hf as ->. split; [done|].
    intros i Hi. destruct (Ht (inst_name i)) as [H _]; [rewrite Hids; apply list_elem_of_fmap; exists i; split; [done|]; apply elem_of_seq; lia|]. by rewrite H, Hw.
Qed.

Lemma round_robin_benchmark n : Z.of_nat n < 2 ^ 64 -> benchmark_round_robin_select now n = Ok (replicate n true).
Proof.
  intros Hn. unfold benchmark_round_robin_select, flags.
  pose proof (rr_first (bench_discover now) (lit "bench_svc") (base_init ROUND_ROBIN) 0 n eq_refl bench_some) as Hf.
  set (b := with_instances (bench_discover now (lit "bench_svc")) (base_init ROUND_ROBIN)) in Hf.
  destruct (rr_selections (bench_discover now) (lit "bench_svc") b 0 (bench_discover now (lit "bench_svc")) n eq_refl bench_some) as (outs & Hs & Ho); [lia|lia|].
  rewrite Hs in Hf. cbn [obind fst] in Hf. fold RoundRobinLoadBalancer in Hf.
  destruct (selections (bench_discover now) (lit "bench_svc") n RoundRobinLoadBalancer) as [[outs1 s1]| |]; try done. cbn [obind fst] in Hf |- *. injection Hf as ->. f_equal.
  apply list_eq. intros j. rewrite list_lookup_fmap, Ho, list_lookup_fmap. destruct (decide (j < n)%nat) as [Hj|Hj].
  - rewrite lookup_seq_lt by done. rewrite lookup_replicate_2 by done. cbn [fmap option_fmap option_map]. f_equal. apply bool_decide_true. apply lookup_lt_is_Some_2. rewrite Z.add_0_l, Nat.add_0_l.
    assert (0 < length (bench_discover now (lit "bench_svc")))%nat as Hpos by (apply Nat.neq_0_lt_0; intros E%nil_length_inv; by apply bench_some in E).
    destruct (Z.mod_pos_bound (Z.of_nat j) (Z.of_nat (length (bench_discover now (lit "bench_svc"))))) as [H1 H2]; [lia|]. apply Nat2Z.inj_lt. by rewrite Z2Nat.id.
  - rewrite lookup_seq_ge by lia. symmetry. apply lookup_replicate_None. lia.
Qed.

Lemma consistent_benchmark `{ConsistentHash.RingSort} n : benchmark_consistent_hash_select n = replicate n true.
Proof.
  unfold benchmark_consistent_hash_select. apply list_eq. intros j. rewrite list_lookup_fmap. destruct (decide (j < n)%nat) as [Hj|Hj].
  - rewrite lookup_seq_lt by done. rewrite lookup_replicate_2 by done. cbn [fmap option_fmap option_map]. f_equal. apply bool_decide_true.
    rewrite ConsistentHash.select_pick, fmap_is_Some. apply ConsistentHash.pick_some. intros Hnil.
    assert (ConsistentHash.ring_wf bench_ring) as R by (unfold bench_ring; cbn [seq foldl]; repeat apply ConsistentHash.add_instance_wf; apply ConsistentHash.init_ring_wf).
    destruct (R (lit "bench_svc")) as (_ & Hp & _). rewrite Hnil in Hp. apply Permutation_nil_l in Hp. revert Hp. unfold bench_ring. cbn [seq foldl].
    rewrite ConsistentHash.instances_of_add. intros [_ Hp]%symmetry%app_nil. revert Hp. cbn [ConsistentHash.virtual_nodes_ ConsistentHash.add_instance ConsistentHash.ConsistentHashLoadBalancer]. vm_compute. discriminate.
  - rewrite lookup_seq_ge by lia. symmetry. apply lookup_replicate_None. lia.
Qed.

(** The load balancing benchmarks measure selections that succeed: every one, of the
    round robin and of the hash ring; the weighted one chooses the five instances one to
    five times in every fifteen. *)
Theorem balancing_benchmarks_exact `{ConsistentHash.RingSort} (n k : nat) : Z.of_nat n < 2 ^ 64 ->
  benchmark_round_robin_select now n = Ok (replicate n true) /\ benchmark_consistent_hash_select n = replicate n true /\
  exists outs, benchmark_weighted_round_robin_select now (k * 15) = Ok outs /\
    forall i, (i < 5)%nat -> times (inst_name i) outs = Z.of_nat k * (Z.of_nat i + 1).
Proof. intros Hn. split_and!; [by apply round_robin_benchmark|by apply consistent_benchmark|apply weighted_benchmark]. Qed.
End Load_bench.

(** ** Examples *)

(** A world that records what ran, and a clock that moves by 7 ns at every reading. *)
Definition demo_now (w : list str * Z) : Z * (list str * Z) := (w.2, (w.1, w.2 + 7)).
Definition demo_bench (n : string) : BenchmarkDescriptor (list str * Z) := mkDescriptor (lit n) [] (fun w => (w.1 ++ [lit n], w.2 + 1000)).
Definition demo_suite : BenchmarkSuite (list str * Z) := mkSuite (lit "demo") [] [demo_bench "a"; demo_bench "b"].

Lemma run_calls_witness : let '(rs, _, w1) := run demo_now (mkBenchmarkConfig 1 2 false) demo_suite ([], 0) in
  w1.1 = [lit "a"; lit "a"; lit "a"; lit "b"; lit "b"; lit "b"] /\ length rs = 2%nat.
Proof.
  pose proof (run_calls demo_now fst id (fun w => eq_refl) (mkBenchmarkConfig 1 2 false) demo_suite ([], 0)) as H.
  destruct (run demo_now (mkBenchmarkConfig 1 2 false) demo_suite ([], 0)) as [[rs s1] w1]. destruct H as (H1 & _ & H3); [by repeat constructor|].
  split; [rewrite H1; vm_compute; reflexivity|]. apply (f_equal length) in H3. rewrite !length_fmap in H3. rewrite H3. reflexivity.
Defined.

Lemma min_max_exact_witness : f64_ltb (calculate_max [f64_of_Z 3; f64_of_Z 1; f64_of_Z 2]) (calculate_min [f64_of_Z 3; f64_of_Z 1; f64_of_Z 2]) = false.
Proof. apply (min_max_exact [f64_of_Z 3; f64_of_Z 1; f64_of_Z 2]). discriminate. Defined.

Lemma unknown_benchmark_unwritten_witness : run_benchmark demo_now (lit "c") default_config demo_suite ([], 0) = (mkBenchmarkResult (lit "c") [] 0 None, demo_suite, ([], 0)).
Proof. apply unknown_benchmark_unwritten. apply (bool_decide_unpack _). vm_compute. exact I. Defined.

Lemma fast_function_infinite_witness : written (run_single_benchmark (fun w => (5, w)) (mkDescriptor (lit "noop") [] (fun n : nat => S n)) default_config 0%nat).1 = Some zero_stats.
Proof. apply (fast_function_infinite (fun w : nat => (5, w)) 5 (mkDescriptor (lit "noop") [] S) 0%nat). done. Defined.

Lemma memory_benchmarks_exact_witness : length (benchmark_vector_alloc 3 8) = 2%nat.
Proof. apply (memory_benchmarks_exact 3 8); lia. Defined.

Lemma protocol_benchmarks_exact_witness : protocol_bench.benchmark_protocol_parser_parse Endian.Little 2 64 = [Ok 10%nat; Ok 10%nat].
Proof. apply (protocol_benchmarks_exact Endian.Little 2 64). lia. Defined.

Lemma balancing_benchmarks_exact_witness :
  loadbalance_bench.benchmark_round_robin_select (IO := key_order str) (fun _ => 3) 2 = Ok [true; true].
Proof. apply (balancing_benchmarks_exact (IO := key_order str) (fun _ => 3) (H := ConsistentHash.merge_ring_sort) 2 0). lia. Defined.
