(* ===== verification/RpcSync.v ===== *)
(** * RpcSync: RpcClient::call_sync of rpc/rpc_client.cpp, and RpcServerComponent

    The thread that waits for the callback of its own call, whose variables the callback
    refers to, among the events of the client (RpcCalls). *)

From S2P Require Import Prelude.
From S2P Require Import Numeric.
From S2P Require Import Framing.
From S2P Require Import Protocol.
From S2P Require Import Wire.
From S2P Require Import Effects.
From S2P Require RateLimiter.
From S2P Require Import Rpc.
From S2P Require Import RpcCalls.
Import Endian Message.

(** ** The waiting thread *)

(** In [wait_for], until a time; told by the callback, not awake yet; back, with what is in
    [response] if it was written; its variables written to after it was back. *)
Inductive frame :=
| Waiting (until : Z)
| Told (success : bool) (response : Message)
| Returned (r : bool) (response : option Message)
| Dangling.

Section Sync.
Context {L : Type} `{RL : RateLimiter.RateLimiter L} {IO : IterOrder Z} (e : endianness).

(** The callback: number [f]. *)
Definition tell (f : Z) (s : frame) (x : effect) : frame :=
  match x with
  | Called f' ok resp => if f' =? f then match s with Waiting _ | Told _ _ => Told ok resp | Returned _ _ | Dangling => Dangling end else s
  | Send _ => s
  end.

(** Up to [wait_for]; [now'] is the clock there.  The seconds are an [int]. *)
Definition call_sync (cmd : Z) (request_data : list byte) (f timeout_seconds now now' : Z) (checks consumes : list Z) (c : client L)
  : option (client L * list effect * frame) :=
  if negb (connected c) then Some (c, [], Returned false None)
  else if negb (int_range (timeout_seconds + 1)) then None
  else
    '(c1, out) ← call e cmd request_data (Some f) timeout_seconds now checks consumes c;
    Some (c1, out, foldl (tell f) (Waiting (now' + (timeout_seconds + 1) * 10 ^ 9)) out).

(** The thread is awake: told, at the time it waits for, or for nothing. *)
Definition wake (now : Z) (s : frame) : frame :=
  match s with
  | Waiting until => if until <=? now then Returned false None else s
  | Told ok resp => Returned ok (Some resp)
  | Returned _ _ | Dangling => s
  end.

Inductive sync_event := Client (ev : event) | Wake (now : Z).

Fixpoint run_sync (f : Z) (evs : list sync_event) (c : client L) (s : frame) : option (client L * frame) :=
  match evs with
  | [] => Some (c, s)
  | Client ev :: evs' => '(c1, out) ← step e ev c; run_sync f evs' c1 (foldl (tell f) s out)
  | Wake now :: evs' => run_sync f evs' c (wake now s)
  end.

(** ** RpcServerComponent *)

Definition RpcServerComponent {X} : option (server X) := None.
Definition component_on_register {X} (o : option (server X)) : option (server X) := Some RpcServer.
Definition component_register_method {X} (id : Z) (h : handler X) (o : option (server X)) : option (server X) := register_method id h <$> o.
Definition component_unregister_method {X} (id : Z) (o : option (server X)) : option (server X) := unregister_method id <$> o.

(** ** The frame and the table *)

(** The callback has not been called. *)
Definition untold (s : frame) : bool := match s with Waiting _ | Returned _ None => true | _ => false end.
Definition back (s : frame) : bool := match s with Returned _ _ | Dangling => true | _ => false end.

Lemma tell_other f s out : (f ∉ called out) -> foldl (tell f) s out = s.
Proof.
  revert s. induction out as [|x out IH]; intros s Hf; [done|]. cbn [foldl]. change (x :: out) with ([x] ++ out) in Hf. rewrite called_app in Hf.
  rewrite (IH (tell f s x)) by set_solver. destruct x as [|f' ok m]; [done|]. cbn. case_test; [|done]. exfalso. apply Hf. apply elem_of_app. left. subst. by apply list_elem_of_singleton.
Qed.

Lemma tell_told f s out : untold s = false -> untold (foldl (tell f) s out) = false.
Proof.
  revert s. induction out as [|x out IH]; intros s Hs; [done|]. apply IH. destruct x as [|f' ok m]; [done|]. cbn. case_test; [|done]. by destruct s.
Qed.

Lemma tell_called f s out : f ∈ called out -> untold (foldl (tell f) s out) = false.
Proof.
  revert s. induction out as [|x out IH]; intros s Hf; [by apply not_elem_of_nil in Hf|]. change (x :: out) with ([x] ++ out) in Hf. rewrite called_app in Hf. cbn [foldl].
  apply elem_of_app in Hf as [Hf|Hf]; [|by apply IH]. apply tell_told. destruct x as [|f' ok m]; [by apply not_elem_of_nil in Hf|]. apply list_elem_of_singleton in Hf as ->. cbn. rewrite Z.eqb_refl. by destruct s.
Qed.

(** A frame that is back stays so; told once more, it dangles. *)
Lemma tell_back f s out : back s = true -> foldl (tell f) s out = if bool_decide (f ∈ called out) then Dangling else s.
Proof.
  revert s. induction out as [|x out IH]; intros s Hs; [done|]. cbn [foldl].
  assert (back (tell f s x) = true) as Hb by (destruct x as [|f' ok m]; [done|]; cbn; case_test; [by destruct s|done]).
  rewrite IH by done. change (x :: out) with ([x] ++ out). rewrite called_app. destruct x as [|f' ok m]; [done|]. cbn. destruct (f' =? f) eqn:E; breflect.
  - subst. rewrite (bool_decide_true (f ∈ f :: called out)) by (apply elem_of_cons; by left). by destruct s; try done; case_bool_decide.
  - assert (bool_decide (f ∈ called out) = bool_decide (f ∈ f' :: called out)) as <-; [|done]. apply bool_decide_ext. rewrite elem_of_cons. naive_solver.
Qed.

Definition client_events (evs : list sync_event) : list event := omap (fun x => match x with Client ev => Some ev | Wake _ => None end) evs.

Lemma calls_cons ev evs : calls_of (ev :: evs) = calls_of [ev] + calls_of evs.
Proof. unfold calls_of. change (ev :: evs) with ([ev] ++ evs). rewrite filter_app, length_app. lia. Qed.

Lemma calls_nonneg evs : 0 <= calls_of evs.
Proof. unfold calls_of. lia. Qed.

(** As long as the callback was not called it is in the table. *)
Lemma untold_owed f evs : forall c s c' s', run_sync f evs c s = Some (c', s') -> ids_ok c -> next_request_id_ c + calls_of (client_events evs) < 2 ^ 32 ->
  (untold s = true -> f ∈ owed c) ->
  (untold s' = true -> f ∈ owed c') /\ ids_ok c' /\ next_request_id_ c' <= next_request_id_ c + calls_of (client_events evs).
Proof.
  induction evs as [|[ev|now] evs IH]; intros c s c' s' Hr Hok Hmax Hu; cbn [run_sync] in Hr.
  - injection Hr as <- <-. split_and!; [done|done|]. unfold client_events, calls_of. cbn. lia.
  - change (client_events (Client ev :: evs)) with (ev :: client_events evs) in *. rewrite calls_cons in *. pose proof (calls_nonneg (client_events evs)).
    destruct (step e ev c) as [[c1 out]|] eqn:Es; [|done]. cbn [mbind option_bind] in Hr.
    destruct (step_accounts e _ _ _ _ Es Hok ltac:(lia)) as (Ha & Hok1 & Hn1).
    destruct (IH _ _ _ _ Hr Hok1 ltac:(lia)) as (H1 & H2 & H3); [|split_and!; [done|done|lia]].
    intros Hs. destruct (decide (f ∈ called out)) as [Hin|Hin]; [by rewrite (tell_called f s out Hin) in Hs|]. rewrite (tell_other f s out Hin) in Hs.
    specialize (Hu Hs). assert (f ∈ called out ++ owed c1) as Hf by (rewrite Ha; apply elem_of_app; by right). apply elem_of_app in Hf. tauto.
  - change (client_events (Wake now :: evs)) with (client_events evs) in *. eapply IH; [exact Hr|done..|]. intros Hs. apply Hu. destruct s; try done.
Qed.

Lemma call_sync_owed cmd data f timeout now now' l1 l2 c c1 out s : call_sync cmd data f timeout now now' l1 l2 c = Some (c1, out, s) ->
  connected c = true -> ids_ok c -> next_request_id_ c + 1 < 2 ^ 32 ->
  (untold s = true -> f ∈ owed c1) /\ ids_ok c1 /\ next_request_id_ c1 <= next_request_id_ c + 1.
Proof.
  unfold call_sync. intros Hc Hconn Hok Hmax. rewrite Hconn in Hc. cbn [negb] in Hc. destruct (int_range _); [|done]. cbn [negb] in Hc.
  destruct (call e cmd data (Some f) timeout now l1 l2 c) as [[c2 out2]|] eqn:E; [|done]. cbn [mbind option_bind] in Hc. injection Hc as -> -> <-.
  destruct (step_accounts e (Call cmd data (Some f) timeout now l1 l2) c c1 out E Hok Hmax) as (Ha & Hok1 & Hn). split_and!; [|done|done].
  intros Hs. destruct (decide (f ∈ called out)) as [Hin|Hin]; [by rewrite (tell_called f _ out Hin) in Hs|].
  assert (f ∈ called out ++ owed c1) as Hf by (rewrite Ha; apply elem_of_app; left; apply list_elem_of_singleton; done). apply elem_of_app in Hf. tauto.
Qed.

Lemma dangling_stays f evs c c' s' : run_sync f evs c Dangling = Some (c', s') -> s' = Dangling.
Proof.
  revert c. induction evs as [|[ev|now] evs IH]; intros c Hr; cbn [run_sync] in Hr; [by injection Hr|..].
  - destruct (step e ev c) as [[c1 out]|]; [|done]. cbn [mbind option_bind] in Hr. rewrite (tell_back f Dangling) in Hr by done. eapply IH. by destruct (bool_decide _).
  - by eapply IH.
Qed.

(** A frame that came back without its answer. *)
Lemma timed_out_after f r evs c c' s' : run_sync f evs c (Returned r None) = Some (c', s') -> s' = Returned r None \/ s' = Dangling.
Proof.
  revert c. induction evs as [|[ev|now] evs IH]; intros c Hr; cbn [run_sync] in Hr; [injection Hr as _ <-; by left|..].
  - destruct (step e ev c) as [[c1 out]|]; [|done]. cbn [mbind option_bind] in Hr. rewrite (tell_back f (Returned r None)) in Hr by done. case_bool_decide; [right; by eapply dangling_stays|by eapply IH].
  - by eapply IH.
Qed.

Lemma run_sync_app f evs1 evs2 c s : run_sync f (evs1 ++ evs2) c s = ('(c1, s1) ← run_sync f evs1 c s; run_sync f evs2 c1 s1).
Proof.
  revert c s. induction evs1 as [|[ev|now] evs1 IH]; intros c s; cbn [app run_sync]; [done| |apply IH].
  destruct (step e ev c) as [[c1 out]|]; cbn [mbind option_bind]; [apply IH|done].
Qed.

(** A synchronous call that comes back because its time is over leaves its callback in
    the table, with references to its variables.  Once no call is pending any more -- the
    connection has ended, a cleaning has come after the deadline -- the callback has written
    to them. *)
Theorem sync_timeout_dangles cmd data f timeout now now' l1 l2 c c1 out s1 evs1 evs2 c2 c3 s3 :
  connected c = true -> ids_ok c -> next_request_id_ c + 1 + calls_of (client_events (evs1 ++ evs2)) < 2 ^ 32 ->
  call_sync cmd data f timeout now now' l1 l2 c = Some (c1, out, s1) ->
  run_sync f evs1 c1 s1 = Some (c2, Returned false None) -> run_sync f evs2 c2 (Returned false None) = Some (c3, s3) ->
  pending_requests_ c3 = ∅ -> s3 = Dangling.
Proof.
  intros Hconn Hok Hmax Hcall Hr1 Hr2 Hp. pose proof (calls_nonneg (client_events (evs1 ++ evs2))).
  destruct (call_sync_owed _ _ _ _ _ _ _ _ _ _ _ _ Hcall Hconn Hok ltac:(lia)) as (Hu & Hok1 & Hn1).
  assert (run_sync f (evs1 ++ evs2) c1 s1 = Some (c3, s3)) as Hr by (rewrite run_sync_app, Hr1; exact Hr2).
  destruct (untold_owed f _ _ _ _ _ Hr Hok1 ltac:(lia) Hu) as (Ho & _). destruct (timed_out_after f false evs2 c2 c3 s3 Hr2) as [->|]; [|done].
  specialize (Ho eq_refl). unfold owed in Ho. rewrite Hp, map_to_list_empty in Ho. by apply not_elem_of_nil in Ho.
Qed.

Lemma wake_wait timeout now' : wake (now' + (timeout + 1) * 10 ^ 9) (Waiting (now' + (timeout + 1) * 10 ^ 9)) = Returned false None.
Proof. cbn [wake]. by rewrite Z.leb_refl. Qed.

(** The wait ends: awake at its time the thread is back, and before that when it was
    told; what it was told last, it returns. *)
Theorem sync_returns cmd data f timeout now now' l1 l2 c c1 out s1 evs c2 s2 t :
  call_sync cmd data f timeout now now' l1 l2 c = Some (c1, out, s1) -> run_sync f evs c1 s1 = Some (c2, s2) ->
  (now' + (timeout + 1) * 10 ^ 9 <= t -> back (wake t s2) = true) /\
  forall ev c3 before ok m after, untold s2 = true -> back s2 = false -> step e ev c2 = Some (c3, before ++ Called f ok m :: after) -> (f ∉ called after) ->
    run_sync f [Client ev; Wake t] c2 s2 = Some (c3, Returned ok (Some m)).
Proof.
  intros Hcall Hr. split.
  - intros Ht. enough (s2 = Waiting (now' + (timeout + 1) * 10 ^ 9) \/ (forall u, s2 <> Waiting u)) as [->|H].
    { cbn. by rewrite (proj2 (Z.leb_le _ _) Ht). }
    { destruct s2; try done. by destruct (H until). }
    assert (forall u s o, (s = Waiting u \/ forall v, s <> Waiting v) -> foldl (tell f) s o = Waiting u \/ forall v, foldl (tell f) s o <> Waiting v) as Htell.
    { intros u s o. revert s. induction o as [|x o IH]; intros s Hs; [done|]. apply IH. destruct x as [|f' ok m]; [done|]. cbn. case_test; [|done].
      destruct Hs as [->|Hs]; right; [done|]. by destruct s. }
    assert (s1 = Waiting (now' + (timeout + 1) * 10 ^ 9) \/ forall u, s1 <> Waiting u) as Hs1.
    { unfold call_sync in Hcall. destruct (negb (connected c)); [injection Hcall as _ _ <-; by right|]. destruct (negb (int_range _)); [done|].
      destruct (call _ _ _ _ _ _ _ _ _) as [[c3 out3]|]; [|done]. cbn [mbind option_bind] in Hcall. injection Hcall as _ -> <-. apply Htell. by left. }
    clear Hcall. revert c1 s1 Hr Hs1. induction evs as [|[ev|t'] evs IH]; intros c1 s1 Hr Hs1; cbn [run_sync] in Hr; [by injection Hr as _ <-|..].
    + destruct (step e ev c1) as [[c3 out3]|]; [|done]. cbn [mbind option_bind] in Hr. eapply IH; [exact Hr|]. by apply Htell.
    + eapply IH; [exact Hr|]. destruct Hs1 as [->|Hs1]; [cbn; case_test; [by right|by left]|right]. destruct s1; try done. by destruct (Hs1 until).
  - intros ev c3 before ok m after Hu Hb Hs Ha. cbn [run_sync]. rewrite Hs. cbn [mbind option_bind]. rewrite foldl_app. cbn [foldl].
    assert (exists u, s2 = Waiting u) as [u ->] by (destruct s2; try done; by eexists).
    rewrite (tell_other f _ after Ha). assert (forall o u, (exists u', foldl (tell f) (Waiting u) o = Waiting u') \/ exists ok' m', foldl (tell f) (Waiting u) o = Told ok' m') as Hw.
    { intros o. induction o as [|x o IHo] using rev_ind; intros v; [left; by exists v|]. rewrite foldl_app. cbn [foldl].
      destruct (IHo v) as [[u' ->]|(ok' & m' & ->)]; destruct x as [|f' ok2 m2]; cbn; [left; by eexists|case_test; [right|left]; by eauto|right; by eauto|case_test; right; by eauto]. }
    destruct (Hw before u) as [[u' ->]|(ok' & m' & ->)]; cbn [tell]; by rewrite Z.eqb_refl.
Qed.
End Sync.

(** Methods registered before the component is added to its service are lost. *)
Theorem early_methods_lost {X} id (h : handler X) o : component_on_register (component_register_method id h o) = Some RpcServer /\
  component_register_method id h RpcServerComponent = RpcServerComponent.
Proof. done. Qed.

(** ** Examples *)

Abbreviation demo_client := (client RateLimiter.TokenBucket.limiter).
Definition demo_connected : demo_client := with_connected true (RpcClient 5 None None).
Definition demo_called : demo_client := add_request 1 (mkPending (Some 7) (5 * 10 ^ 9)) demo_connected.
Definition demo_sent : list effect := [Send (serialize Little (mkMessage 9 (encode_rpc_body Little 1 [])))].

Lemma demo_ids : ids_ok demo_connected.
Proof. split; [cbn; lia|]. intros id []. set_solver. Qed.

(** A negative timeout, which [call] takes for the default, is over at once. *)
Lemma sync_timeout_dangles_witness :
  run_sync (IO := key_order Z) Little 7 [Client Disconnect] demo_called (Returned false None) = Some (with_pending ∅ (with_connected false (with_cleanup false demo_called)), Dangling).
Proof.
  destruct (run_sync (IO := key_order Z) Little 7 [Client Disconnect] demo_called (Returned false None)) as [[c3 s3]|] eqn:E; [|vm_compute in E; discriminate].
  assert (pending_requests_ c3 = ∅) as Hp by (injection E as <- _; reflexivity).
  rewrite (sync_timeout_dangles (IO := key_order Z) Little 9 [] 7 (-1) 0 0 [] [] demo_connected demo_called demo_sent (Waiting 0) [Wake 0] [Client Disconnect] demo_called c3 s3
    eq_refl demo_ids ltac:(vm_compute; reflexivity) ltac:(vm_compute; reflexivity) ltac:(vm_compute; reflexivity) E Hp).
  injection E as <- _. reflexivity.
Defined.

Lemma sync_returns_witness : back (wake (6 * 10 ^ 9) (Waiting (6 * 10 ^ 9))) = true.
Proof.
  apply (proj1 (sync_returns (IO := key_order Z) Little 9 [] 7 5 0 0 [] [] demo_connected demo_called demo_sent (Waiting (6 * 10 ^ 9)) [] demo_called (Waiting (6 * 10 ^ 9)) (6 * 10 ^ 9)
    ltac:(vm_compute; reflexivity) eq_refl)). lia.
Defined.
