(* ===== verification/ConnPoolSync.v ===== *)
(** * ConnPoolSync: waiting for a connection, and filling a pool up

    [ConnectionPool::get_connection_sync] and [maybe_expand] of net/connection_pool.cpp. *)

From S2P Require Import Prelude.
From S2P Require Import Wire.
From S2P Require Import ConnPool.
From S2P Require Import ConnPoolFacts.

(** What the thread that waits for callback [f] has been given, when it is back. *)
Fixpoint get_connection_sync (f : Z) (out : list effect) : option PooledConnection :=
  match out with
  | [] => None
  | Called g c :: out' => if g =? f then Some c else get_connection_sync f out'
  | Close _ :: out' => get_connection_sync f out'
  end.

(** ** [maybe_expand] and its thread *)

Definition maybe_expand (p : pool) : bool * pool :=
  if (min_connections (config_ p) <=? total p) || (max_connections (config_ p) <=? total p) then (false, p)
  else (true, with_pending (pending_creates_ p + 1) p).

Definition expand_push (c : PooledConnection) (p : pool) : pool :=
  if shutdown_ p then p else with_connections (connections_ p ++ [c]) p.

(** A thread that fills the pool up: connecting, after that. *)
Inductive expander := Connecting | Connected | Over.

Inductive expansion := Expand | Connect (i : nat) (made : option Z) (now : Z) | Finish (i : nat).

Definition expand_step (a : expansion) (x : pool * list expander) : option (pool * list expander) :=
  let '(p, ts) := x in
  match a with
  | Expand => let '(spawned, p1) := maybe_expand p in Some (p1, if spawned then ts ++ [Connecting] else ts)
  | Connect i made now =>
      match ts !! i with
      | Some Connecting => Some (match create_connection (config_ p) made now with Some c => expand_push c p | None => p end, <[i := Connected]> ts)
      | _ => None
      end
  | Finish i => match ts !! i with Some Connected => Some (with_pending (pending_creates_ p - 1) p, <[i := Over]> ts) | _ => None end
  end.

Fixpoint expand_run (l : list expansion) (x : pool * list expander) : option (pool * list expander) :=
  match l with [] => Some x | a :: l' => x1 ← expand_step a x; expand_run l' x1 end.

(** ** A waiter is answered by a return or a shutdown only *)

Section Waits.
Context (takes_mutex : Z -> PooledConnection -> bool -> bool).

Definition releases (a : action) : bool := match a with Return (Some _) _ | Clear => true | _ => false end.

Lemma act_keeps_waiting a t p t' p' out : act takes_mutex a t p = Some (t', p', out) -> releases a = false -> waiting_callbacks_ p `prefix_of` waiting_callbacks_ p'.
Proof.
  intros Ha Hr. destruct a as [f timeout|now|made now|now|[c|] now| |], t as [|f0 timeout0|f0|f0 c0|]; try done; cbn in Ha.
  - by destruct (shutdown_ p); injection Ha as <- <- <-.
  - unfold get_locked in Ha. destruct (cleanup_expired _ _ _) as [l closed]. destruct (try_get_idle _ _ l) as [[c|] l1]; [|destruct (_ <? _); [|destruct (_ =? 0)]]; injection Ha as <- <- <-; cbn; try done.
    by apply prefix_app_r.
  - by destruct (create_connection _ _ _); injection Ha as <- <- <-.
  - unfold push_created in Ha. by destruct (shutdown_ p); injection Ha as <- <- <-.
  - by injection Ha as <- <- <-.
  - by destruct (shutdown_ p); injection Ha as <- <- <-.
Qed.

Lemma run_keeps_waiting l s s' : run takes_mutex l s = Some s' -> Forall (fun x => releases x.2 = false) l ->
  waiting_callbacks_ (the_pool s) `prefix_of` waiting_callbacks_ (the_pool s').
Proof.
  revert s. induction l as [|[i a] l IH]; intros s Hr Hl; cbn [run] in Hr; [by injection Hr as ->|]. apply Forall_cons in Hl as [Ha Hl].
  destruct (sys_step takes_mutex i a s) as [s1|] eqn:E; [|done]. cbn [mbind option_bind] in Hr. etrans; [|by apply (IH s1)].
  apply sys_step_inv in E as (_ & t & t' & p' & out & _ & Hact & ->). cbn [the_pool]. by eapply act_keeps_waiting.
Qed.

Lemma sync_answered f out c : get_connection_sync f out = Some c -> f ∈ answered out.
Proof.
  induction out as [|[g|g c'] out IH]; cbn [get_connection_sync]; [done|exact IH|]. change (answered (Called g c' :: out)) with (g :: answered out).
  case_test; [subst; left|right; by apply IH].
Qed.

(** Whatever its timeout, a thread that waits for a connection is not back before some
    user returns one or the pool is shut down, however long that takes. *)
Theorem sync_outlasts_timeout cfg made now k l1 l2 s s' f : run takes_mutex l1 (start cfg made now k) = Some s ->
  f ∈ waiting_callbacks_ (the_pool s) -> run takes_mutex l2 s = Some s' -> Forall (fun x => releases x.2 = false) l2 -> NoDup (given s') ->
  get_connection_sync f (effects s') = None.
Proof.
  intros H1 Hf H2 Hl Hn. destruct (get_connection_sync f (effects s')) as [c|] eqn:E; [|done]. apply sync_answered in E.
  assert (accounted s') as Ha.
  { apply (run_inv takes_mutex accounted l2 (step_accounted takes_mutex) s s'); [|done]. refine (run_inv takes_mutex accounted l1 (step_accounted takes_mutex) _ _ _ H1).
    unfold accounted. rewrite (proj2 (proj2 (proj2 (proj2 (proj2 (start_spec cfg made now k)))))). cbn. enough (replicate k Idle ≫= wants = []) as -> by done. clear. by induction k. }
  unfold accounted in Ha. rewrite <- Ha in Hn. apply NoDup_app in Hn as (_ & Hd & _). exfalso. apply (Hd f E). apply elem_of_app. left.
  destruct (run_keeps_waiting _ _ _ H2 Hl) as [w ->]. apply elem_of_app. by left.
Qed.
End Waits.

(** ** Filling up stays below the minimum *)

Definition connecting (t : expander) : nat := match t with Connecting => 1%nat | _ => 0%nat end.
Definition running (t : expander) : nat := match t with Over => 0%nat | _ => 1%nat end.

(** Connections there and under way, and what [pending_creates_] counts. *)
Definition filling (bound : Z) (x : pool * list expander) : Prop :=
  Z.of_nat (length (connections_ x.1)) + Z.of_nat (sum_list_with connecting x.2) <= bound /\
  pending_creates_ x.1 = Z.of_nat (sum_list_with running x.2).

Lemma connecting_running ts : (sum_list_with connecting ts <= sum_list_with running ts)%nat.
Proof. induction ts as [|[] ts IH]; cbn; lia. Qed.

Lemma sum_list_app {A} (f : A -> nat) l1 l2 : sum_list_with f (l1 ++ l2) = (sum_list_with f l1 + sum_list_with f l2)%nat.
Proof. induction l1 as [|x l1 IH]; cbn; lia. Qed.

Lemma expand_step_filling bound a x x' : min_connections (config_ x.1) <= bound < 2 ^ 31 -> expand_step a x = Some x' -> filling bound x -> filling bound x' /\ config_ x'.1 = config_ x.1.
Proof.
  destruct x as [p ts]. intros Hb Hs [H1 H2]. cbn [fst snd] in *. destruct a as [|i made now|i]; cbn [expand_step] in Hs.
  - unfold maybe_expand in Hs. destruct (_ || _) eqn:E; injection Hs as <-; [done|]. breflect. unfold filling. cbn. rewrite !sum_list_app. cbn.
    pose proof (connecting_running ts). unfold total in *. rewrite i32_small in * by lia. split; [|done]. lia.
  - destruct (ts !! i) as [[]|] eqn:Ei; try done. injection Hs as <-. unfold filling. cbn [fst snd].
    pose proof (sum_insert connecting ts i Connecting Connected Ei) as Hc. pose proof (sum_insert running ts i Connecting Connected Ei) as Hr. cbn in Hc, Hr.
    destruct (create_connection _ _ _) as [c|]; [|split; [split|]; [lia|lia|done]]. unfold expand_push. destruct (shutdown_ p); [split; [split|]; [lia|lia|done]|].
    cbn. rewrite length_app. cbn. split; [split; lia|done].
  - destruct (ts !! i) as [[]|] eqn:Ei; try done. injection Hs as <-. unfold filling. cbn.
    pose proof (sum_insert connecting ts i Connected Over Ei) as Hc. pose proof (sum_insert running ts i Connected Over Ei) as Hr. cbn in Hc, Hr. split; [split; lia|done].
Qed.

(** However the threads that fill a pool up interleave, they bring it to its minimum and
    not beyond, and [pending_creates_] counts those that run. *)
Theorem expansions_within_min cfg l p ts : 0 <= min_connections cfg < 2 ^ 31 -> expand_run l (ConnectionPool cfg, []) = Some (p, ts) ->
  Z.of_nat (length (connections_ p)) <= min_connections cfg /\ pending_creates_ p = Z.of_nat (sum_list_with running ts).
Proof.
  intros Hm Hr. enough (filling (min_connections cfg) (p, ts)) as [H1 H2] by (cbn in *; split; [lia|done]).
  assert (filling (min_connections cfg) (ConnectionPool cfg, []) /\ config_ (ConnectionPool cfg) = cfg) as [H0 Hc] by (split; [split; cbn; lia|done]).
  revert H0 Hc Hr. generalize (ConnectionPool cfg) ([] : list expander). induction l as [|a l IH]; intros q us H0 Hc Hr; cbn [expand_run] in Hr; [by injection Hr as <- <-|].
  destruct (expand_step a (q, us)) as [[q1 us1]|] eqn:E; [|done]. cbn [mbind option_bind] in Hr.
  destruct (expand_step_filling (min_connections cfg) a (q, us) (q1, us1) ltac:(cbn [fst]; rewrite Hc; lia) E H0) as [H1 H2]. cbn in H2. eapply (IH q1 us1); [done|congruence|done].
Qed.

(** ** Examples *)

(** Thread 0 has the only connection; thread 1 waits for 5000 ms; the clock moves on. *)
Definition demo_taken : list (nat * action) := demo_begin 0 1 7 ++ [(0%nat, Push 0); (1%nat, Get 2 5000); (1%nat, Enter demo_clock)].
Definition demo_later : list (nat * action) := [(0%nat, Get 3 5000); (0%nat, Enter (fun _ => 10 ^ 9))].

Lemma sync_outlasts_timeout_witness : exists s s', run never_locks demo_taken (start (demo_config 0 1) demo_made demo_clock 2) = Some s /\
  run never_locks demo_later s = Some s' /\ get_connection_sync 2 (effects s') = None.
Proof.
  destruct (run never_locks demo_taken (start (demo_config 0 1) demo_made demo_clock 2)) as [s|] eqn:E; [|vm_compute in E; discriminate].
  destruct (run never_locks demo_later s) as [s'|] eqn:E'; [|vm_compute in E; injection E as <-; vm_compute in E'; discriminate].
  exists s, s'. split; [reflexivity|]. split; [exact E'|].
  apply (sync_outlasts_timeout never_locks (demo_config 0 1) demo_made demo_clock 2 demo_taken demo_later s s' 2 E).
  - vm_compute in E. injection E as <-. left.
  - exact E'.
  - by repeat constructor.
  - vm_compute in E. injection E as <-. vm_compute in E'. injection E' as <-. apply (bool_decide_unpack _). vm_compute. exact I.
Defined.

Lemma expansions_within_min_witness : exists p ts, expand_run [Expand; Expand; Connect 0 (Some 7) 0; Expand; Finish 0] (ConnectionPool (demo_config 1 2), []) = Some (p, ts) /\
  Z.of_nat (length (connections_ p)) <= 1.
Proof.
  eexists _, _. split; [reflexivity|]. apply (expansions_within_min (demo_config 1 2) [Expand; Expand; Connect 0 (Some 7) 0; Expand; Finish 0] _ _ ltac:(cbn; lia) eq_refl).
Defined.
