(* ===== verification/DistLockWait.v ===== *)
(** * DistLockWait: DistributedLock::lock, and DistributedLockGuard

    The polling loop of [lock] over the steps of DistLock, and the guard that locks and
    unlocks.  Between two calls of the waiting client any steps of the others come first. *)

From S2P Require Import Prelude.
From S2P Require Import Numeric.
From S2P Require Import Protocol.
From S2P Require Import Wire.
From S2P Require Import Effects.
From S2P Require Import StdNum.
From S2P Require Import Redis.
From S2P Require Import RedisTypes.
From S2P Require Import RedisFacts.
From S2P Require Import DistLock.
From S2P Require Import DistLockFacts.
From S2P Require DistLockRuns.

(** One turn of the loop: what the others do before SETNX and, if it succeeds, before
    EXPIRE; the steady clock after a failure, in milliseconds. *)
Record attempt := mkAttempt { before : list action; between : list action; reading : Z }.

Section Wait.
Context {IO : IterOrder str} (tok : nat -> str) (lock_key_ : str) (ttl_seconds_ : Z).

(** The answer, or none while the loop goes on. *)
Fixpoint lock_loop (i : Z) (deadline : option Z) (l : list attempt) (w : world) : option (option bool * world) :=
  match l with
  | [] => Some (None, w)
  | a :: l' =>
      w1 ← exec_all tok lock_key_ ttl_seconds_ (before a) w;
      w2 ← exec tok lock_key_ ttl_seconds_ (TryLock i) w1;
      match main (clients w2 i) with
      | Acquired _ =>
          w3 ← exec_all tok lock_key_ ttl_seconds_ (between a) w2;
          w4 ← exec tok lock_key_ ttl_seconds_ (SetTtl i) w3;
          Some (Some true, w4)
      | _ => if match deadline with Some d => d <=? reading a | None => false end then Some (Some false, w2) else lock_loop i deadline l' w2
      end
  end.

Definition lock (i timeout_ms start : Z) (l : list attempt) (w : world) : option (option bool * world) :=
  lock_loop i (if 0 <? timeout_ms then Some (start + timeout_ms) else None) l w.

(** The clock moves by at least the retry interval between two turns. *)
Fixpoint paced (retry_interval_ms start : Z) (l : list attempt) : Prop :=
  match l with [] => True | a :: l' => start <= reading a /\ paced retry_interval_ms (reading a + retry_interval_ms) l' end.

(** ** The guard *)

Definition DistributedLockGuard (i start : Z) (l : list attempt) (w : world) : option (option bool * world) := lock i 5000 start l w.

(** [unlock] of a locked client, with nobody in between. *)
Definition unlock (i : Z) (w : world) : option world :=
  w1 ← exec tok lock_key_ ttl_seconds_ (Unlock i) w;
  w2 ← exec tok lock_key_ ttl_seconds_ (Join i) w1;
  w3 ← exec tok lock_key_ ttl_seconds_ (Compare i) w2;
  match main (clients w3 i) with Deleting => exec tok lock_key_ ttl_seconds_ (Delete i) w3 | _ => Some w3 end.

(** [~DistributedLockGuard] and, with the last pointer, [~DistributedLock]. *)
Definition guard_destructor (i : Z) (acquired_ : bool) (w : world) : option world :=
  (if acquired_ && locked_ (clients w i) then unlock i w else Some w) ≫= exec tok lock_key_ ttl_seconds_ (Destroy i).

(** ** Facts *)

Lemma lock_loop_late i d retry l : forall start w w', paced retry start l -> 0 <= retry -> lock_loop i (Some d) l w = Some (None, w') -> l <> [] ->
  start + (Z.of_nat (length l) - 1) * retry < d.
Proof.
  induction l as [|a l IH]; intros start w w' Hp Hr Hl Hne; [done|]. destruct Hp as [Ha Hp]. cbn [lock_loop] in Hl.
  destruct (exec_all _ _ _ (before a) w) as [w1|]; [|done]. cbn [mbind option_bind] in Hl. destruct (exec _ _ _ (TryLock i) w1) as [w2|]; [|done]. cbn [mbind option_bind] in Hl.
  assert ((d <=? reading a) = false /\ lock_loop i (Some d) l w2 = Some (None, w')) as [Hd Hl'].
  { destruct (main (clients w2 i)); try (destruct (d <=? reading a); [done|by split]).
    destruct (exec_all _ _ _ (between a) w2) as [w3|]; [|done]. cbn [mbind option_bind] in Hl. by destruct (exec _ _ _ (SetTtl i) w3). }
  breflect. destruct l as [|b l]; [cbn [length] in *; lia|]. specialize (IH (reading a + retry) w2 w' Hp Hr Hl' ltac:(done)). cbn [length] in *. lia.
Qed.

(** With a timeout the loop ends: after as many turns as the timeout has intervals, and
    one more, [lock] has answered. *)
Theorem lock_gives_up i timeout retry start l w r w' : 0 < timeout -> 0 <= retry -> paced retry start l ->
  timeout <= (Z.of_nat (length l) - 1) * retry -> lock i timeout start l w = Some (r, w') -> r <> None.
Proof.
  intros Ht Hr Hp Hl H ->. unfold lock in H. rewrite (proj2 (Z.ltb_lt _ _) Ht) in H. assert (l <> []) as Hne by (intros ->; cbn in Hl; lia).
  pose proof (lock_loop_late _ _ _ _ _ _ _ Hp Hr H Hne). lia.
Qed.

Lemma orphaned_all l w w' : exec_all tok lock_key_ ttl_seconds_ l w = Some w' -> orphaned lock_key_ w -> orphaned lock_key_ w'.
Proof.
  revert w. induction l as [|a l IH]; intros w H O; cbn [exec_all] in H; [by injection H as <-|].
  destruct (exec _ _ _ a w) as [w1|] eqn:E; [|done]. cbn [mbind option_bind] in H. apply (IH w1 H). by eapply orphaned_exec.
Qed.

Lemma orphaned_not_acquired w i t : orphaned lock_key_ w -> main (clients w i) <> Acquired t.
Proof. intros [_ Hw] He. destruct (Hw i) as [Hd|[Hi _]]; [unfold dead in Hd; by rewrite He in Hd|congruence]. Qed.

(** When the holder has died, [lock] without a timeout never answers, whatever the
    others do and however long ago the lock's time ran out; with one it answers no. *)
Theorem lock_never_answers i timeout start l w r w' : orphaned lock_key_ w -> lock i timeout start l w = Some (r, w') ->
  r <> Some true /\ (timeout <= 0 -> r = None).
Proof.
  intros O H. unfold lock in H. set (d := if 0 <? timeout then Some (start + timeout) else None) in H.
  assert (timeout <= 0 -> d = None) as Hd by (intros Ht; subst d; case_test; [lia|done]). clearbody d.
  enough (r <> Some true /\ (d = None -> r = None)) as [H1 H2] by (split; [done|]; intros Ht; by apply H2, Hd). clear Hd.
  revert w O H. induction l as [|a l IH]; intros w O H; cbn [lock_loop] in H; [by injection H as <- _|].
  destruct (exec_all _ _ _ (before a) w) as [w1|] eqn:E1; [|done]. cbn [mbind option_bind] in H. destruct (exec _ _ _ (TryLock i) w1) as [w2|] eqn:E2; [|done]. cbn [mbind option_bind] in H.
  assert (orphaned lock_key_ w2) as O2 by (eapply orphaned_exec; [by eapply orphaned_all|exact E2]).
  destruct (main (clients w2 i)) eqn:Em; try (destruct d as [d'|]; [destruct (d' <=? reading a); [by injection H as <- _|]|]; by eapply IH).
  by apply orphaned_not_acquired in Em.
Qed.

(** A guard whose lock was lost while it was held ends the program when it is
    destroyed. *)
Theorem lost_guard_terminates i acquired w : DistLockRuns.found_out (clients w i) ->
  exists w', guard_destructor i acquired w = Some w' /\ main (clients w' i) = Terminated.
Proof.
  intros (Hm & Hl & Hr). unfold guard_destructor. rewrite Hl, andb_false_r. cbn [mbind option_bind exec]. rewrite Hm, Hl, Hr.
  eexists. split; [done|]. by rewrite update_at.
Qed.

(** What the calls on a free key, and on a held one, answer. *)
Lemma expire_held now v s : D lock_key_ s = Some v -> int64_range ttl_seconds_ = true -> int64_range (now + ttl_seconds_) = true ->
  exists b s', expire now lock_key_ ttl_seconds_ s = Returned b s' /\ D lock_key_ s' = Some v /\ X lock_key_ s' = Some (now + ttl_seconds_).
Proof.
  intros Hd Ht Hs. pose proof Ht as Hr%int64_range_spec. assert (exists b s', expire now lock_key_ ttl_seconds_ s = Returned b s') as (b & s' & H).
  { rewrite expire_runs. unfold cmd_expire, set_deadline. unfold D in Hd. rewrite Hd. cbn. rewrite stoll_to_string by done. cbn. unfold sum64, i64_add.
    rewrite Hs. by eexists _, _. }
  exists b, s'. split; [done|]. apply expire_key in H as [Hd' Hx]; [|done]. rewrite Hd in Hd', Hx. by split.
Qed.

Lemma get_held now v s : D lock_key_ s = Some v -> expired now lock_key_ s = false -> exists s', get now lock_key_ s = Returned v s'.
Proof.
  intros Hd He. assert (exists u s', get now lock_key_ s = Returned u s') as (u & s' & H).
  { assert (get now lock_key_ s = via str_of (cmd_get now lock_key_ s)) as -> by by unfold get; run_chain. unfold cmd_get. destruct (data_ _ !! _); by eexists _, _. }
  exists s'. pose proof (get_key lock_key_ _ _ _ _ H) as Hk. rewrite He, Hd in Hk. by destruct Hk as [-> _].
Qed.

Lemma redis_call_runs {A} (f : Z -> redis -> call A) w r s : f (now_ w) (store_ w) = Redis.Returned r s -> redis_call f w = Some (r, s).
Proof. unfold redis_call. by intros ->. Qed.

(** [try_lock] of an untouched client on a free key. *)
Lemma free_try_lock i w : clients w i = DistLock.DistributedLock -> D lock_key_ (store_ w) = None -> X lock_key_ (store_ w) = None ->
  exists w2, exec tok lock_key_ ttl_seconds_ (TryLock i) w = Some w2 /\
    clients w2 i = with_lease (now_ w) (with_main (Acquired (tok (generated w))) DistLock.DistributedLock) /\
    now_ w2 = now_ w /\ D lock_key_ (store_ w2) = Some (tok (generated w)).
Proof.
  intros Hc Hd Hx. destruct (setnx_key lock_key_ (now_ w) (tok (generated w)) (store_ w)) as (s' & Hs & Hd' & _). rewrite Hd in Hs, Hd'.
  cbn [exec]. rewrite Hc. cbn [main DistLock.DistributedLock]. unfold try_lock_setnx.
  rewrite (redis_call_runs (fun now => setnx now lock_key_ (tok (generated w))) w _ _ Hs). cbn [mbind option_bind]. eexists. split; [done|].
  rewrite update_at, Hc. by split_and!.
Qed.

Lemma free_set_ttl i t w : main (clients w i) = Acquired t -> renew_thread_ (clients w i) = NoThread -> D lock_key_ (store_ w) = Some t ->
  int64_range ttl_seconds_ = true -> int64_range (now_ w + ttl_seconds_) = true ->
  exists w2, exec tok lock_key_ ttl_seconds_ (SetTtl i) w = Some w2 /\
    (exists n l, clients w2 i = mkClient t true n Idle Waiting l) /\ now_ w2 = now_ w /\
    D lock_key_ (store_ w2) = Some t /\ X lock_key_ (store_ w2) = Some (now_ w + ttl_seconds_).
Proof.
  intros Hm Hr Hd Ht Hs. destruct (expire_held _ _ _ Hd Ht Hs) as (b & s' & He & Hd' & Hx'). cbn [exec]. rewrite Hm. unfold try_lock_expire.
  rewrite (redis_call_runs (fun now => expire now lock_key_ ttl_seconds_) w _ _ He). cbn [mbind option_bind]. eexists. split; [done|].
  rewrite update_at, Hr. split_and!; [by eexists _, _|done..].
Qed.

(** [unlock] by the holder, in time. *)
Lemma held_guard_destructor i t n l w : clients w i = mkClient t true n Idle Waiting l -> D lock_key_ (store_ w) = Some t -> expired (now_ w) lock_key_ (store_ w) = false ->
  exists w2, guard_destructor i true w = Some w2 /\ main (clients w2 i) = Destroyed /\ D lock_key_ (store_ w2) = None.
Proof.
  intros Hc Hd He. unfold guard_destructor, unlock. rewrite Hc. cbn [andb locked_ exec]. rewrite Hc. cbn [main locked_ mbind option_bind exec]. rewrite update_at. cbn [main with_main renew_thread_].
  cbn [mbind option_bind exec]. rewrite update_at. cbn [main with_main with_renewer]. unfold unlock_get. destruct (get_held _ _ _ Hd He) as (s' & Hg).
  erewrite redis_call_runs by exact Hg. cbn [mbind option_bind]. rewrite !update_at. cbn [lock_token_ with_main with_renewer]. rewrite decide_True by done.
  cbn [main with_main with_renewer]. unfold unlock_del.
  assert (exists k s2, del (now_ w) lock_key_ s' = Redis.Returned k s2) as (k & s2 & Hdel) by (rewrite del_runs; by eexists _, _).
  erewrite redis_call_runs by exact Hdel. cbn [mbind option_bind exec]. rewrite !update_at. cbn [main locked_ released with_main with_renewer renew_thread_ joinable].
  eexists. split; [done|]. rewrite update_at. split; [done|]. by apply del_key in Hdel as [Hd2 _].
Qed.

(** A guard that finds the key free, with nobody in between, has the lock at its first
    turn, and destroying it in time leaves the key free again. *)
Theorem guard_releases i start a l w : before a = [] -> between a = [] -> clients w i = DistLock.DistributedLock ->
  D lock_key_ (store_ w) = None -> X lock_key_ (store_ w) = None ->
  0 < ttl_seconds_ -> int64_range ttl_seconds_ = true -> int64_range (now_ w + ttl_seconds_) = true ->
  exists w1 w2, DistributedLockGuard i start (a :: l) w = Some (Some true, w1) /\ holds (clients w1 i) = true /\
    guard_destructor i true w1 = Some w2 /\ main (clients w2 i) = Destroyed /\ D lock_key_ (store_ w2) = None.
Proof.
  intros Hb Hbt Hc Hd Hx Ht Hr Hs. destruct (free_try_lock i w Hc Hd Hx) as (w2 & H2 & Hc2 & Hn2 & Hd2).
  destruct (free_set_ttl i (tok (generated w)) w2) as (w4 & H4 & (n & t & Hc4) & Hn4 & Hd4 & Hx4); [by rewrite Hc2|by rewrite Hc2|done..|by rewrite Hn2|].
  destruct (held_guard_destructor i _ n t w4 Hc4 Hd4) as (w5 & H5 & Hm5 & Hd5).
  { unfold expired. unfold X in Hx4. rewrite Hx4, Hn4. apply Z.leb_gt. lia. }
  exists w4, w5. split_and!; [|by rewrite Hc4|done..]. unfold DistributedLockGuard, lock. cbn [lock_loop Z.ltb Z.compare]. rewrite Hb. cbn [exec_all mbind option_bind].
  rewrite H2. cbn [mbind option_bind]. rewrite Hc2. cbn [main with_lease with_main]. rewrite Hbt. cbn [exec_all mbind option_bind]. by rewrite H4.
Qed.
End Wait.

(** ** Examples *)

#[local] Instance wait_order : IterOrder str := key_order str.

Import DistLockRuns.

Definition demo_attempts : list attempt := [mkAttempt [] [] 0; mkAttempt [Tick 1] [] 100; mkAttempt [] [] 200].

Lemma lock_gives_up_witness : exists r w', lock demo_token demo_key demo_ttl 1 200 0 demo_attempts dead_world = Some (r, w') /\ r <> None.
Proof.
  destruct (lock demo_token demo_key demo_ttl 1 200 0 demo_attempts dead_world) as [[r w']|] eqn:E; [|vm_compute in E; discriminate].
  exists r, w'. split; [reflexivity|]. apply (lock_gives_up demo_token demo_key demo_ttl 1 200 100 0 demo_attempts dead_world r w'); [lia|lia| |cbn; lia|exact E].
  cbn. lia.
Defined.

Lemma dead_world_orphaned : orphaned demo_key dead_world.
Proof.
  split; [exists (demo_token 0); vm_compute; reflexivity|]. intros i. destruct (decide (i = 0)) as [->|Hi]; [left; vm_compute; reflexivity|right].
  assert (clients dead_world i = DistLock.DistributedLock) as ->; [|by split_and!; auto].
  unfold dead_world. destruct (exec_all demo_token demo_key demo_ttl dead_script (initial 0)) as [w|] eqn:Hw; [|vm_compute in Hw; discriminate].
  cbn [default]. unfold id, dead_script in *. cbn [exec_all] in Hw.
  apply bind_Some in Hw as (w1 & H1 & Hw). apply bind_Some in Hw as (w2 & H2 & Hw). apply bind_Some in Hw as (w3 & H3 & [= <-]).
  by rewrite (exec_other _ _ _ i H3), (exec_other _ _ _ i H2), (exec_other _ _ _ i H1) by (cbn; congruence).
Qed.

Lemma lock_never_answers_witness : exists r w', lock demo_token demo_key demo_ttl 1 (-1) 0 demo_attempts dead_world = Some (r, w') /\ r = None.
Proof.
  destruct (lock demo_token demo_key demo_ttl 1 (-1) 0 demo_attempts dead_world) as [[r w']|] eqn:E; [|vm_compute in E; discriminate].
  exists r, w'. split; [reflexivity|]. apply (proj2 (lock_never_answers demo_token demo_key demo_ttl 1 (-1) 0 demo_attempts dead_world r w' dead_world_orphaned E)). lia.
Defined.

Lemma lost_guard_terminates_witness : exists w', guard_destructor demo_token demo_key demo_ttl 0 true lost_world = Some w' /\ main (clients w' 0) = Terminated.
Proof. apply (lost_guard_terminates demo_token demo_key demo_ttl 0 true lost_world). split_and!; vm_compute; reflexivity. Defined.

Lemma guard_releases_witness : exists w1 w2, DistributedLockGuard demo_token demo_key demo_ttl 0 0 [mkAttempt [] [] 0] (initial 0) = Some (Some true, w1) /\
  holds (clients w1 0) = true /\ guard_destructor demo_token demo_key demo_ttl 0 true w1 = Some w2 /\ main (clients w2 0) = Destroyed /\ D demo_key (store_ w2) = None.
Proof. by apply (guard_releases demo_token demo_key demo_ttl 0 0 (mkAttempt [] [] 0) [] (initial 0)). Defined.
