(* ===== verification/StateValues.v ===== *)
(** * StateValues: the values of sync/state_sync.h

    [StateValue]'s constructors from numbers and its accessors.  A [float] or a [double] is
    here the number its object representation is, which [memcpy] copies unchanged. *)

From S2P Require Import Prelude.
From S2P Require Import Protocol.
From S2P Require Import Wire.
From S2P Require Import StateSync.
Import Endian Message.

Definition FLOAT : Z := 2.
Definition DOUBLE : Z := 3.

#[global] Instance endianness_eq_dec : EqDecision endianness.
Proof. solve_decision. Defined.

(** The object representation of an unsigned integer of [n] bytes, and a read of one. *)
Definition mem_int (e : endianness) (n : nat) (v : Z) : list byte :=
  match e with Little => encode_le n v | Big => rev (encode_le n v) end.
Definition load_int (e : endianness) (n : nat) (b : list byte) : Z :=
  decode_le n 0 0 (match e with Little => b | Big => rev b end) 0.

(** A [uint64_t]'s bits as an [int64_t]. *)
Definition signed64 (z : Z) : Z := if z <? 2 ^ 63 then z else z - 2 ^ 64.

Definition StateValue_int64 (e : endianness) (v : Z) : StateValue := mkValue INT64 (mem_int e 8 (u64 v)).
Definition StateValue_float (e : endianness) (bits : Z) : StateValue := mkValue FLOAT (mem_int e 4 bits).
Definition StateValue_double (e : endianness) (bits : Z) : StateValue := mkValue DOUBLE (mem_int e 8 bits).

Definition as_int64 (e : endianness) (v : StateValue) : Z :=
  if negb (type v =? INT64) || negb (length (value v) =? 8)%nat then 0 else signed64 (load_int e 8 (value v)).

Definition as_float (e : endianness) (v : StateValue) : Z :=
  if negb (type v =? FLOAT) || negb (length (value v) =? 4)%nat then 0 else load_int e 4 (value v).

Definition as_double (e : endianness) (v : StateValue) : Z :=
  if negb (type v =? DOUBLE) || negb (length (value v) =? 8)%nat then 0 else load_int e 8 (value v).

(** ** What is put in *)

Inductive scalar := Int32 (v : Z) | Int64 (v : Z) | Float (bits : Z) | Double (bits : Z) | String_ (v : str) | Binary (v : list byte).

Definition construct (e : endianness) (x : scalar) : StateValue :=
  match x with
  | Int32 v => StateValue_int32 e v
  | Int64 v => StateValue_int64 e v
  | Float b => StateValue_float e b
  | Double b => StateValue_double e b
  | String_ v => StateValue_string v
  | Binary v => StateValue_binary v
  end.

Definition scalar_ok (x : scalar) : Prop :=
  match x with
  | Int32 v => - 2 ^ 31 <= v < 2 ^ 31
  | Int64 v => - 2 ^ 63 <= v < 2 ^ 63
  | Float b => 0 <= b < 2 ^ 32
  | Double b => 0 <= b < 2 ^ 64
  | String_ v | Binary v => Z.of_nat (length v) < 65536
  end.

(** All six accessors. *)
Definition answers (e : endianness) (v : StateValue) : Z * Z * Z * Z * str * list byte :=
  (as_int32 e v, as_int64 e v, as_float e v, as_double e v, as_string v, as_binary v).

Definition expected (x : scalar) : Z * Z * Z * Z * str * list byte :=
  match x with
  | Int32 v => (v, 0, 0, 0, [], [])
  | Int64 v => (0, v, 0, 0, [], [])
  | Float b => (0, 0, b, 0, [], [])
  | Double b => (0, 0, 0, b, [], [])
  | String_ v => (0, 0, 0, 0, v, [])
  | Binary v => (0, 0, 0, 0, [], v)
  end.

(** The other byte order's reading of a number. *)
Definition swapped (x : scalar) : scalar :=
  match x with
  | Int32 v => Int32 (signed32 (load_int Big 4 (mem_int Little 4 (u32 v))))
  | Int64 v => Int64 (signed64 (load_int Big 8 (mem_int Little 8 (u64 v))))
  | Float b => Float (load_int Big 4 (mem_int Little 4 b))
  | Double b => Double (load_int Big 8 (mem_int Little 8 b))
  | String_ _ | Binary _ => x
  end.

(** ** Facts *)

Lemma length_mem_int e n v : length (mem_int e n v) = n.
Proof. destruct e; cbn [mem_int]; [|rewrite length_rev]; apply length_encode_le. Qed.

Lemma load_mem_int e n v : 0 <= v < 2 ^ (8 * Z.of_nat n) -> load_int e n (mem_int e n v) = v.
Proof.
  intros Hv. unfold load_int. assert (match e with Little => mem_int e n v | Big => rev (mem_int e n v) end = encode_le n v) as ->
    by (destruct e; cbn [mem_int]; [done|apply rev_involutive]).
  pose proof (decode_le_encode n v [] [] Hv) as H. by rewrite app_nil_r in H.
Qed.

(** Reading with the other order. *)
Lemma load_mem_swapped n v : load_int Little n (mem_int Big n v) = load_int Big n (mem_int Little n v).
Proof. done. Qed.

Lemma mem32_mem_int e v : mem32 e v = mem_int e 4 v.
Proof.
  assert (mem32 Little v = encode_le 4 v) as H.
  { unfold encode_le. cbn [seq fmap list_fmap mem32 Z.of_nat Z.mul]. rewrite !(Z.land_ones _ 8) by lia. rewrite !Z.shiftr_div_pow2 by (cbn; lia).
    byte_list; cbn [Pos.of_succ_nat]; rewrite ?Z.pow_0_r, ?Z.div_1_r; by rewrite ?Zmod_mod. }
  destruct e; [done|]. cbn [mem_int]. by rewrite <- H.
Qed.

Lemma load32_load_int e b : length b = 4%nat -> load32 e b 0 = load_int e 4 b.
Proof.
  intros Hb. assert (forall w x y z : byte, load32 Little [w; x; y; z] 0 = decode_le 4 0 0 [w; x; y; z] 0) as H.
  { intros w x y z. set (v := load32 Little [w; x; y; z] 0). assert (0 <= v < 2 ^ 32) as Hv.
    { subst v. cbn [load32]. byte_ranges. lia. }
    rewrite (decode_le_spec 4 0 0 _ 0 v); [by rewrite Z.mod_small| |done|by rewrite Z.mod_1_r].
    intros j Hj. subst v. cbn [load32 Nat.add]. pose proof (byte_at_range [w; x; y; z] 0). pose proof (byte_at_range [w; x; y; z] 1).
    pose proof (byte_at_range [w; x; y; z] 2). pose proof (byte_at_range [w; x; y; z] 3).
    do 4 (destruct j as [|j]; [cbn [Z.of_nat Pos.of_succ_nat Pos.succ Z.add Z.mul Pos.mul Z.pow Z.pow_pos Pos.iter]; Z.to_euclidean_division_equations; lia|]). lia. }
  destruct b as [|w [|x [|y [|z [|]]]]]; try done. destruct e; [apply H|].
  unfold load_int. cbn [rev app]. rewrite <- H. unfold load32, byte_at. cbn. lia.
Qed.

Lemma signed32_u32 v : - 2 ^ 31 <= v < 2 ^ 31 -> signed32 (u32 v) = v.
Proof. intros Hv. unfold signed32, uwrap. case_test; Z.to_euclidean_division_equations; lia. Qed.

Lemma signed64_u64 v : - 2 ^ 63 <= v < 2 ^ 63 -> signed64 (u64 v) = v.
Proof. intros Hv. unfold signed64, uwrap. case_test; Z.to_euclidean_division_equations; lia. Qed.

(** The number behind each accessor, on any value. *)
Lemma answers_construct e e' x : scalar_ok x ->
  answers e' (construct e x) = expected (if decide (e = e') then x else swapped x).
Proof.
  intros Hx. assert (forall n v, load_int e' n (mem_int e n v) = if decide (e = e') then load_int e n (mem_int e n v) else load_int Big n (mem_int Little n v)) as Hl.
  { intros n v. by destruct e, e'. }
  unfold answers. destruct x as [v|v|b|b|s|s]; cbn [construct]; unfold as_int32, as_int64, as_float, as_double, as_string, as_binary;
    cbn [type value StateValue_int32 StateValue_int64 StateValue_float StateValue_double StateValue_string StateValue_binary]; rewrite ?mem32_mem_int, ?length_mem_int;
    cbn [negb orb Nat.eqb Z.eqb INT32 INT64 FLOAT DOUBLE STRING BINARY Pos.eqb].
  - rewrite load32_load_int by apply length_mem_int. rewrite Hl. case_decide; cbn [expected swapped]; [|done]. rewrite load_mem_int by (apply (uwrap_range 32); lia). by rewrite signed32_u32.
  - rewrite Hl. case_decide; cbn [expected swapped]; [|done]. rewrite load_mem_int by (apply (uwrap_range 64); lia). by rewrite signed64_u64.
  - rewrite Hl. case_decide; cbn [expected swapped]; [|done]. by rewrite load_mem_int.
  - rewrite Hl. case_decide; cbn [expected swapped]; [|done]. by rewrite load_mem_int.
  - by case_decide.
  - by case_decide.
Qed.

(** The encoding of an update does not depend on the machine. *)
Lemma encode_bytes_order e e' data : Z.of_nat (length data) < 65536 -> encode_bytes e data = encode_bytes e' data.
Proof. intros Hd. unfold encode_bytes. by rewrite !net_store16 by (rewrite uwrap_small; lia). Qed.

Lemma construct_wf e x ent key t : scalar_ok x -> Z.of_nat (length ent) < 65536 -> Z.of_nat (length key) < 65536 -> 0 <= t < 2 ^ 64 ->
  StateFacts.update_wf (mkUpdate ent key (construct e x) t).
Proof.
  intros Hx He Hk Ht. split_and!; cbn; try done; destruct x; cbn; try done; rewrite ?length_mem32, ?length_mem_int; cbn; lia.
Qed.

Lemma decode_update_order e e' u more : StateFacts.update_wf u -> decode_update e' (encode_update e u ++ more) = Some u.
Proof.
  intros Hw. pose proof Hw as (He & Hk & _ & Hv & _). rewrite <- (StateFacts.decode_encode_update e' u more Hw). do 2 f_equal.
  unfold encode_update, encode_string. by rewrite !(encode_bytes_order e e').
Qed.

(** A value written in an update reads back through the accessor of its type as it was
    put in, all other accessors answering zero or nothing -- if the machine that reads has the
    byte order of the one that wrote; with the other order numbers are read with their bytes
    reversed, though the rest of the update is understood. *)
Theorem values_on_the_wire e e' x ent key t more : scalar_ok x -> Z.of_nat (length ent) < 65536 -> Z.of_nat (length key) < 65536 -> 0 <= t < 2 ^ 64 ->
  exists u, decode_update e' (encode_update e (mkUpdate ent key (construct e x) t) ++ more) = Some u /\
    upd_entity u = ent /\ state_key u = key /\ upd_timestamp u = t /\
    answers e' (upd_value u) = expected (if decide (e = e') then x else swapped x).
Proof.
  intros Hx He Hk Ht. exists (mkUpdate ent key (construct e x) t). split; [by apply decode_update_order, construct_wf|].
  split_and!; try done. by apply answers_construct.
Qed.

(** A number read from [n] bytes is one of [n] bytes. *)
Lemma lor_lt_pow2 a b k : 0 <= k -> 0 <= a < 2 ^ k -> 0 <= b < 2 ^ k -> 0 <= Z.lor a b < 2 ^ k.
Proof.
  intros Hk Ha Hb. split; [apply Z.lor_nonneg; lia|]. rewrite <- (Z.mod_small a (2 ^ k)), <- (Z.mod_small b (2 ^ k)) by done.
  rewrite <- !Z.land_ones, <- Z.land_lor_distr_l, Z.land_ones by done. by apply Z.mod_pos_bound, Z.pow_pos_nonneg.
Qed.

Lemma decode_le_range n : forall i value data offset, 0 <= i -> 0 <= value < 2 ^ (8 * i) ->
  0 <= decode_le n i value data offset < 2 ^ (8 * (i + Z.of_nat n)).
Proof.
  induction n as [|n IH]; intros i value data offset Hi Hv; cbn [decode_le]; [by rewrite Z.add_0_r|].
  replace (i + Z.of_nat (S n)) with (i + 1 + Z.of_nat n) by lia. apply IH; [lia|]. apply lor_lt_pow2; [lia|..].
  - split; [lia|]. apply (Z.lt_le_trans _ (2 ^ (8 * i))); [lia|]. apply Z.pow_le_mono_r; lia.
  - pose proof (byte_at_range data offset). rewrite Z.shiftl_mul_pow2 by lia. replace (8 * (i + 1)) with (8 + i * 8) by lia. rewrite Z.pow_add_r by lia.
    assert (0 < 2 ^ (i * 8)) by (apply Z.pow_pos_nonneg; lia). change (2 ^ 8) with 256. nia.
Qed.

Lemma load_int_range e n b : 0 <= load_int e n b < 2 ^ (8 * Z.of_nat n).
Proof. apply (decode_le_range n 0 0); [done|]. by rewrite Z.mul_0_r. Qed.

(** Whatever the type and the bytes of a value -- both come from the wire unchecked -- the
    accessors stay inside it: one whose type or size is wrong answers zero or nothing. *)
Theorem accessors_guarded e v : 
  (type v <> INT32 \/ length (value v) <> 4%nat -> as_int32 e v = 0) /\ (type v <> INT64 \/ length (value v) <> 8%nat -> as_int64 e v = 0) /\
  (type v <> FLOAT \/ length (value v) <> 4%nat -> as_float e v = 0) /\ (type v <> DOUBLE \/ length (value v) <> 8%nat -> as_double e v = 0) /\
  (type v <> STRING -> as_string v = []) /\ (type v <> BINARY -> as_binary v = []) /\
  - 2 ^ 31 <= as_int32 e v < 2 ^ 31 /\ - 2 ^ 63 <= as_int64 e v < 2 ^ 63 /\ 0 <= as_float e v < 2 ^ 32 /\ 0 <= as_double e v < 2 ^ 64.
Proof.
  pose proof (load_int_range e 4 (value v)) as H4. pose proof (load_int_range e 8 (value v)) as H8. cbn [Z.of_nat Pos.of_succ_nat Pos.succ Z.mul Pos.mul] in H4, H8.
  unfold as_int32, as_int64, as_float, as_double, as_string, as_binary.
  split_and!; try (intros [H|H]; [rewrite (proj2 (Z.eqb_neq _ _) H)|rewrite (proj2 (Nat.eqb_neq _ _) H), orb_true_r]; done); try (intros H; by rewrite (proj2 (Z.eqb_neq _ _) H)).
  all: match goal with |- context [negb ?a || negb ?b] => destruct a; [|cbn; lia]; destruct (b) eqn:Hs; [|cbn; lia] end; cbn [negb orb]; breflect; rewrite ?load32_load_int by done; try done.
  all: unfold signed32, signed64; try case_test; lia.
Qed.

Definition demo_value : scalar := Int32 1.

(** The number 1, written on a little-endian machine and read on a big-endian one. *)
Lemma values_on_the_wire_witness : exists u, decode_update Big (encode_update Little (mkUpdate (lit "hero") (lit "hp") (construct Little demo_value) 5)) = Some u /\
  as_int32 Big (upd_value u) = 16777216.
Proof.
  destruct (values_on_the_wire Little Big demo_value (lit "hero") (lit "hp") 5 [] ltac:(cbn; lia) ltac:(cbn; lia) ltac:(cbn; lia) ltac:(lia)) as (u & Hd & _ & _ & _ & Ha).
  rewrite app_nil_r in Hd. exists u. split; [exact Hd|]. unfold answers in Ha. injection Ha as Ha _. rewrite Ha. vm_compute. reflexivity.
Defined.
