(* ===== verification/WsServer.v ===== *)
(** * WsServer: net/ws_server.cpp, ws_connection.cpp and connection_adapter.h

    The WebSocket server is the TCP server of Server with its own connection class: no
    handshake and no frames, chunks of the stream are its texts.  Two things differ: [close]
    does not look whether the connection is closed, and nothing guards the read loop against
    an exception of the callback.  The program that owns the server stops it, then its io
    service; what its threads do after that is not modelled. *)

From S2P Require Import Prelude.
From S2P Require Import Protocol.
From S2P Require Import Wire.
From S2P Require Import Server.
From S2P Require Import ServerFacts.

Implicit Types (x : server) (c : nat).

(** ** WsConnection *)

Definition send_text (i c : nat) (text : str) x : option server := send i c text x.
Definition send_binary (i c : nat) (data : list Byte.byte) x : option server := send i c data x.

Definition ws_close (i c : nat) x : option server :=
  match closers x !! i, conns x !! c with
  | Some NotClosing, Some _ => Some (set_closer i (Marking c) x)
  | _, _ => None
  end.

(** The text and the callback: an exception leaves the loop and its thread at once. *)
Definition ws_deliver (i : nat) (throws : bool) x : option server :=
  match threads x !! i with
  | Some (Delivering c data) =>
      let x1 := notify (Message c data) x in
      Some (if throws then terminate (set_thread i Exited x1) else set_thread i (AtHead c) x1)
  | _ => None
  end.

(** ** WsServer *)

(** [Destroy], [JoinPool] and [StopAgain] are the service's. *)
Definition ws_step (a : action) x : option server :=
  if terminated x then None else
  match a with
  | Close i c => ws_close i c x
  | Deliver i throws => ws_deliver i throws x
  | StopAgain | Destroy | JoinPool => None
  | _ => step a x
  end.

Fixpoint ws_run (l : list action) x : option server :=
  match l with [] => Some x | a :: l' => x1 ← ws_step a x; ws_run l' x1 end.

(** ** Adapters *)

Inductive call := SendBytes (data : list Byte.byte) | SendText (text : str) | CloseConnection.

Class IConnection := {
  native_handle : nat -> server -> option Z;
  issue : nat -> nat -> call -> server -> option server;
  kind : str
}.

Definition TcpConnectionAdapter : IConnection := {|
  native_handle c x := fd_ <$> conns x !! c;
  issue i c k x := match k with SendBytes d => send i c d x | SendText t => send i c t x | CloseConnection => close i c x end;
  kind := lit "tcp"
|}.

Definition WsConnectionAdapter : IConnection := {|
  native_handle c x := fd_ <$> conns x !! c;
  issue i c k x := match k with SendBytes d => send_binary i c d x | SendText t => send_text i c t x | CloseConnection => ws_close i c x end;
  kind := lit "ws"
|}.

(** ** What is kept *)

Lemma ws_run_inv (P : server -> Prop) l x x' : (forall a x x', P x -> ws_step a x = Some x' -> P x') -> P x -> ws_run l x = Some x' -> P x'.
Proof.
  intros HP. revert x. induction l as [|a l IH]; intros x Hx Hr; cbn in Hr; [by injection Hr as <-|].
  destruct (ws_step a x) as [x1|] eqn:E; [|done]. eapply IH; [|done]. by eapply HP.
Qed.

(** Where a step is not the TCP server's. *)
Lemma ws_step_cases a x x' : ws_step a x = Some x' -> step a x = Some x' \/
  (exists i c, a = Close i c /\ x' = set_closer i (Marking c) x) \/
  (exists i c data, a = Deliver i true /\ threads x !! i = Some (Delivering c data) /\ x' = terminate (set_thread i Exited (notify (Message c data) x))).
Proof.
  unfold ws_step, step. destruct (terminated x); [done|]. intros H. destruct a as [| | | | |i throws| | | |i c| | | | | | | | |]; try done; try (by left).
  - unfold ws_deliver, deliver in *. destruct (threads x !! i) as [[]|] eqn:E; try done. destruct throws; injection H as <-; [|by left]. right. right. by eexists _, _, _.
  - unfold ws_close in H. right. left. exists i, c. destruct (closers x !! i) as [[]|]; try done. destruct (conns x !! c); [|done]. by injection H as <-.
Qed.

Lemma ws_served_step a x x' : (terminated x = true \/ served_ok (core_of x)) -> ws_step a x = Some x' -> terminated x' = true \/ served_ok (core_of x').
Proof.
  intros Hx Hs. assert (terminated x = false) as Ht by (unfold ws_step in Hs; by destruct (terminated x)). destruct Hx as [Hx|Hx]; [congruence|].
  destruct (ws_step_cases a x x' Hs) as [H|[(i & c & -> & ->)|(i & c & data & -> & Hi & ->)]]; [right; by eapply served_step|by right|by left].
Qed.

(** A step the two servers share. *)
Definition shared (a : action) : bool := match a with Close _ _ | Deliver _ true | StopAgain | Destroy | JoinPool => false | _ => true end.

Lemma ws_step_shared a x : shared a = true -> ws_step a x = step a x.
Proof. intros Ha. unfold ws_step, step. destruct (terminated x); [done|]. by destruct a as [| | | | |i []| | | | | | | | | | | | |]. Qed.

Lemma ws_run_shared l x : forallb shared l = true -> ws_run l x = run l x.
Proof.
  revert x. induction l as [|a l IH]; intros x Hl; [done|]. apply andb_prop in Hl as [Ha Hl]. cbn [ws_run run]. rewrite ws_step_shared by done.
  destruct (step a x) as [x1|]; [by apply IH|done].
Qed.

(** However the threads interleave, [close] called by several threads and more than once
    included: until a callback throws, each connection is announced, its texts are the chunks
    read for it, each once and in order, and it is reported closed once, after them. *)
Theorem texts_in_order n ns nc l x c : ws_run l (started n ns nc) = Some x -> terminated x = false -> (c < length (conns x))%nat ->
  exists ms rest, chunks c (reads x) = ms ++ rest /\ (length rest <= 1)%nat /\
    about c (events x) = Connected c :: (Message c <$> ms) ++ (if decide (c ∈ connections_ x) then [] else [Disconnected c]) /\
    ((c ∉ connections_ x) -> rest = []).
Proof.
  intros Hr Ht Hc. destruct (ws_run_inv (fun x => terminated x = true \/ served_ok (core_of x)) l _ x ws_served_step (or_intror (served_started n ns nc)) Hr) as [H|H]; [congruence|].
  destruct (all_served _ H c Hc) as (ms & rest & Hu & Hm & Hv). exists ms, rest. split_and!; [exact Hm| |exact Hv|].
  - destruct Hu as [(i & d & _ & ->)|[_ ->]]; cbn; lia.
  - intros Hn. destruct Hu as [(i & d & Hi & _)|[_ ->]]; [|done]. exfalso. apply Hn, (open_tokens _ H). eapply in_tokens; [exact Hi|by left].
Qed.

(** A callback that throws ends the program with the connection still among the server's,
    its end not reported: the TCP connection has a guard for this, this one has not. *)
Theorem thrown_text_unreported n ns nc l x i c data x' : ws_run l (started n ns nc) = Some x -> threads x !! i = Some (Delivering c data) ->
  ws_step (Deliver i true) x = Some x' ->
  terminated x' = true /\ c ∈ connections_ x' /\ (Disconnected c ∉ events x') /\ exists x'', step (Deliver i true) x = Some x'' /\ Disconnected c ∈ events x''.
Proof.
  intros Hr Hi Hs. assert (terminated x = false) as Ht by (unfold ws_step in Hs; by destruct (terminated x)).
  destruct (ws_run_inv (fun x => terminated x = true \/ served_ok (core_of x)) l _ x ws_served_step (or_intror (served_started n ns nc)) Hr) as [H|H]; [congruence|].
  assert (c ∈ connections_ x) as Hc by (apply (open_tokens _ H); eapply in_tokens; [exact Hi|by left]).
  assert (c < length (conns x))%nat as Hl by (apply (tokens_accepted _ H), (open_tokens _ H), Hc).
  unfold ws_step, ws_deliver in Hs. rewrite Ht, Hi in Hs. injection Hs as <-. split_and!; [done|exact Hc| |].
  - destruct (all_served _ H c Hl) as (ms & rest & _ & _ & Hv). cbn in Hv. rewrite decide_True, app_nil_r in Hv by exact Hc.
    cbn. rewrite elem_of_app, list_elem_of_singleton. intros [Hd|Hd]; [|done].
    assert (Disconnected c ∈ about c (events x)) as Ha by by apply list_elem_of_filter. rewrite Hv in Ha.
    apply elem_of_cons in Ha as [Ha|(m & Ha & _)%list_elem_of_fmap]; done.
  - unfold step, deliver. rewrite Ht, Hi. eexists. split; [done|]. cbn. apply elem_of_app. right. by left.
Qed.

(** ** Two transports, one program *)

(** What happens to a server, and what the program asks of connections through adapters. *)
Inductive op := Env (a : action) | Ask (i c : nat) (k : call).

Definition app_step (adapter : IConnection) (server_step : action -> server -> option server) (o : op) x : option server :=
  if terminated x then None else match o with Env a => server_step a x | Ask i c k => issue i c k x end.

Fixpoint app_run (adapter : IConnection) (server_step : action -> server -> option server) (l : list op) x : option server :=
  match l with [] => Some x | o :: l' => x1 ← app_step adapter server_step o x; app_run adapter server_step l' x1 end.

(** It closes connections only if they are open, and its callbacks do not throw. *)
Definition polite (o : op) x : bool :=
  match o with
  | Env a => shared a
  | Ask _ c CloseConnection => match conns x !! c with Some k => negb (closed_ k) | None => true end
  | Ask _ _ _ => true
  end.
Fixpoint polite_run (l : list op) x : bool :=
  match l with
  | [] => true
  | o :: l' => polite o x && match app_step TcpConnectionAdapter step o x with Some x1 => polite_run l' x1 | None => true end
  end.

(** A program that reaches its connections through adapters, closes open ones only and
    does not throw runs the same on both servers, whatever the interleaving. *)
Theorem transports_agree l x : polite_run l x = true ->
  app_run WsConnectionAdapter ws_step l x = app_run TcpConnectionAdapter step l x.
Proof.
  revert x. induction l as [|o l IH]; intros x Hp; [done|]. cbn [polite_run] in Hp. apply andb_prop in Hp as [Ho Hp]. cbn [app_run].
  assert (app_step WsConnectionAdapter ws_step o x = app_step TcpConnectionAdapter step o x) as ->.
  { unfold app_step. destruct (terminated x); [done|]. destruct o as [a|i c k]; [by apply ws_step_shared|]. destruct k; try done. cbn in *. unfold ws_close, close.
    destruct (closers x !! i) as [[]|]; try done. destruct (conns x !! c) as [k|]; [|done]. by destruct (closed_ k). }
  destruct (app_step TcpConnectionAdapter step o x) as [x1|]; [by apply IH|done].
Qed.

(** Closing a connection that has been closed touches nothing. *)
Theorem close_again_harmless i c x : terminated x = false -> closers x !! i = Some NotClosing -> conns x !! c = Some (mkConn (-1) true) ->
  ws_run [Close i c; CloseStep i; CloseStep i; CloseStep i] x = Some x.
Proof.
  intros Ht Hi Hc. assert (alter (fun k => mkConn (fd_ k) true) c (conns x) = conns x) as Ha.
  { apply list_eq. intros j. destruct (decide (j = c)) as [->|Hj]; [by rewrite list_lookup_alter_eq, Hc|by rewrite list_lookup_alter_ne]. }
  assert (i < length (closers x))%nat as Hl by by eapply lookup_lt_Some.
  assert (forall y, terminated y = false -> ws_step (CloseStep i) y = close_step i y) as Hstep by (intros y Hy; unfold ws_step, step; by rewrite Hy).
  assert (ws_step (Close i c) x = Some (set_closer i (Marking c) x)) as H1 by (unfold ws_step, ws_close; by rewrite Ht, Hi, Hc).
  cbn [ws_run]. rewrite H1. cbn [mbind option_bind]. clear H1. set (x1 := set_closer i (Marking c) x).
  assert (closers x1 !! i = Some (Marking c)) as H1 by by apply list_lookup_insert_eq.
  set (x2 := set_closer i (Shutting c) (mark_closed c x1)). assert (ws_step (CloseStep i) x1 = Some x2) as -> by (rewrite Hstep by done; unfold close_step; by rewrite H1).
  assert (closers x2 !! i = Some (Shutting c)) as H2 by (apply list_lookup_insert_eq; cbn; by rewrite length_insert). cbn [mbind option_bind].
  set (x3 := set_closer i (Closing c) x2). assert (ws_step (CloseStep i) x2 = Some x3) as -> by (rewrite Hstep by done; unfold close_step; by rewrite H2).
  assert (closers x3 !! i = Some (Closing c)) as H3 by (apply list_lookup_insert_eq; cbn; by rewrite !length_insert). cbn [mbind option_bind].
  rewrite Hstep by done. unfold close_step. rewrite H3. assert (conns x3 = conns x) as -> by exact Ha. rewrite Hc. cbn [mbind option_bind fd_ Z.ltb Z.compare].
  f_equal. unfold x3, x2, x1, set_closer, mark_closed, with_conns, with_closers. cbn. rewrite Ha, !list_insert_insert_eq, list_insert_id by done. by destruct x.
Qed.

(** ** Examples *)

Definition ws_talk : list action :=
  [AcceptStep false; Accept 5 None; Io 0; Io 0; Io 0; Io 0; ReadReturns 0 [Byte.x61]].

Lemma texts_in_order_witness : exists x, ws_run ws_talk (started 1 1 1) = Some x /\ exists ms rest, chunks 0 (reads x) = ms ++ rest /\ (length rest <= 1)%nat.
Proof.
  destruct (ws_run ws_talk (started 1 1 1)) as [x|] eqn:E; [|vm_compute in E; discriminate]. exists x. split; [reflexivity|].
  destruct (texts_in_order 1 1 1 ws_talk x 0 E) as (ms & rest & H1 & H2 & _); [vm_compute in E; injection E as <-; reflexivity|vm_compute in E; injection E as <-; cbn; lia|by exists ms, rest].
Defined.

Lemma thrown_text_unreported_witness : exists x x', ws_run ws_talk (started 1 1 1) = Some x /\ ws_step (Deliver 0 true) x = Some x' /\ (Disconnected 0 ∉ events x').
Proof.
  destruct (ws_run ws_talk (started 1 1 1)) as [x|] eqn:E; [|vm_compute in E; discriminate].
  destruct (ws_step (Deliver 0 true) x) as [x'|] eqn:E'; [|vm_compute in E; injection E as <-; vm_compute in E'; discriminate].
  exists x, x'. split; [reflexivity|]. split; [exact E'|].
  refine (proj1 (proj2 (proj2 (thrown_text_unreported 1 1 1 ws_talk x 0 0 [Byte.x61] x' E _ E')))). vm_compute in E. injection E as <-. reflexivity.
Defined.

Definition app : list op := map Env ws_talk ++ [Env (Deliver 0 false); Ask 0 0 (SendText [Byte.x62]); Ask 0 0 CloseConnection].

Lemma transports_agree_witness : app_run WsConnectionAdapter ws_step app (started 1 1 1) = app_run TcpConnectionAdapter step app (started 1 1 1).
Proof. apply (transports_agree app (started 1 1 1)). vm_compute. reflexivity. Defined.

Definition closed_once : list action := [AcceptStep false; Accept 5 None; Close 0 0; CloseStep 0; CloseStep 0; CloseStep 0; CloseStep 0; CloseStep 0].

Lemma close_again_harmless_witness : exists x, ws_run closed_once (started 1 1 1) = Some x /\ ws_run [Close 0 0; CloseStep 0; CloseStep 0; CloseStep 0] x = Some x.
Proof.
  destruct (ws_run closed_once (started 1 1 1)) as [x|] eqn:E; [|vm_compute in E; discriminate]. exists x. split; [reflexivity|].
  apply (close_again_harmless 0 0 x); vm_compute in E; injection E as <-; reflexivity.
Defined.
