(* ===== verification/HttpServer.v ===== *)
(** * HttpServer: the server of http/http_server.cpp

    The accept thread, the sessions of Http one read or write at a time, and the io threads
    that run them, as interleaved steps.  What reads and writes return is chosen by the steps;
    the queue of the io service is the one of Server, taken from in one step here. *)

From S2P Require Import Prelude.
From S2P Require Import Protocol.
From S2P Require Import Wire.
From S2P Require Import Http.
From S2P Require Server.

(** ** A session *)

(** Posted; about to read; about to write the rest; about to close; over. *)
Inductive stage := Queued | AtRead | AtWrite (rest : str) | AtClose | Over.

Record session := mkSession {
  at_ : stage;
  request_data : str;
  got : list str;                           (* what its reads returned *)
  handled : option (HttpRequest * str);     (* the request, and the bytes of the response *)
  written : str;
  failed : bool                             (* a write did *)
}.

Definition HttpSession : session := mkSession Queued [] [] None [] false.

Definition to_stage (t : stage) (s : session) : session := mkSession t (request_data s) (got s) (handled s) (written s) (failed s).

Section Server.
Context (handler_ : option (HttpRequest -> HttpResponse -> HttpResponse)).

(** One turn of the loop of [run]; nothing at the end of the stream or on an error. *)
Definition session_read (r : str) (s : session) : outcome session :=
  let reads := got s ++ [r] in
  if bool_decide (r = []) then Ok (mkSession AtClose (request_data s) reads (handled s) (written s) (failed s))
  else
    let data := request_data s ++ r in
    match find (crlf ++ crlf) data with
    | None => Ok (mkSession AtRead data reads (handled s) (written s) (failed s))
    | Some _ =>
        parsed ←o parse_request data;
        Ok match parsed with
           | None => mkSession AtClose data reads None (written s) (failed s)
           | Some req => let bytes := to_bytes (respond handler_ req) in mkSession (AtWrite bytes) data reads (Some (req, bytes)) (written s) (failed s)
           end
    end.

(** [write] returns [n], or an error (0). *)
Definition session_write (n : nat) (s : session) : option session :=
  match at_ s with
  | AtWrite rest =>
      if bool_decide (rest = []) then None
      else match n with
      | O => Some (mkSession AtClose (request_data s) (got s) (handled s) (written s) true)
      | S _ => if (n <=? length rest)%nat then Some (mkSession (AtWrite (drop n rest)) (request_data s) (got s) (handled s) (written s ++ take n rest) (failed s)) else None
      end
  | _ => None
  end.

(** ** The server and the io threads *)

Inductive worker := Free | Serving (s : nat) | Exited.

Record server := mkServer {
  sessions : list session;
  queue_ : list nat;
  workers : list worker;
  accepting : Server.acceptor;
  stopped_ : bool;
  io_stopped : bool;
  undefined : bool
}.

Definition HttpServer_start (n : nat) : server := mkServer [] [] (replicate n Free) Server.Testing false false false.

Definition with_session (k : nat) (s : session) (x : server) : server :=
  mkServer (<[k := s]> (sessions x)) (queue_ x) (workers x) (accepting x) (stopped_ x) (io_stopped x) (undefined x).
Definition with_worker (i : nat) (w : worker) (x : server) : server :=
  mkServer (sessions x) (queue_ x) (<[i := w]> (workers x)) (accepting x) (stopped_ x) (io_stopped x) (undefined x).
Definition with_accepting (a : Server.acceptor) (x : server) : server :=
  mkServer (sessions x) (queue_ x) (workers x) a (stopped_ x) (io_stopped x) (undefined x).
Definition with_queue (q : list nat) (x : server) : server :=
  mkServer (sessions x) q (workers x) (accepting x) (stopped_ x) (io_stopped x) (undefined x).

(** A client connects: its session is posted. *)
Definition accept (x : server) : option server :=
  match accepting x with
  | Server.Polling =>
      Some (mkServer (sessions x ++ [HttpSession]) (queue_ x ++ [length (sessions x)]) (workers x) Server.Testing (stopped_ x) (io_stopped x) (undefined x))
  | _ => None
  end.

(** The rest of [accept_loop]: its test; a time-out, an interruption or a failed accept; the
    pipe. *)
Definition accept_step (wakes : bool) (x : server) : option server :=
  match accepting x with
  | Server.Testing => Some (with_accepting (if stopped_ x then Server.Ended else Server.Polling) x)
  | Server.Polling => if wakes then (if stopped_ x then Some (with_accepting Server.Ended x) else None) else Some (with_accepting Server.Testing x)
  | Server.Ended => None
  end.

(** A thread in [IoService::run]. *)
Definition take_session (i : nat) (x : server) : option server :=
  match workers x !! i with
  | Some Free =>
      if io_stopped x then Some (with_worker i Exited x)
      else match queue_ x with
           | [] => None
           | k :: rest => s ← sessions x !! k; Some (with_worker i (Serving k) (with_session k (to_stage AtRead s) (with_queue rest x)))
           end
  | _ => None
  end.

Definition serving (i : nat) (x : server) : option (nat * session) :=
  match workers x !! i with Some (Serving k) => s ← sessions x !! k; Some (k, s) | _ => None end.

Inductive action := Accept | AcceptStep (wakes : bool) | Take (i : nat) | Read (i : nat) (data : str) | Write (i n : nat) | Close (i : nat) | Stop | StopIo.

Definition step (a : action) (x : server) : option server :=
  if undefined x then None else
  match a with
  | Accept => accept x
  | AcceptStep wakes => accept_step wakes x
  | Take i => take_session i x
  | Read i data =>
      '(k, s) ← serving i x;
      match at_ s with
      | AtRead =>
          if Z.of_nat (length data) <=? 8192 then
            match session_read data s with
            | Ok s' => Some (with_session k s' x)
            | _ => Some (mkServer (sessions x) (queue_ x) (workers x) (accepting x) (stopped_ x) (io_stopped x) true)
            end
          else None
      | _ => None
      end
  | Write i n => '(k, s) ← serving i x; s' ← session_write n s; Some (with_session k s' x)
  | Close i =>
      '(k, s) ← serving i x;
      match at_ s with AtClose | AtWrite [] => Some (with_worker i Free (with_session k (to_stage Over s) x)) | _ => None end
  | Stop => Some (mkServer (sessions x) (queue_ x) (workers x) (accepting x) true (io_stopped x) (undefined x))
  | StopIo => Some (mkServer (sessions x) (queue_ x) (workers x) (accepting x) (stopped_ x) true (undefined x))
  end.

Fixpoint run (l : list action) (x : server) : option server :=
  match l with [] => Some x | a :: l' => x1 ← step a x; run l' x1 end.

(** ** Each session does what [session_run] does *)

Definition session_ok (s : session) : Prop :=
  match at_ s with
  | Queued => s = HttpSession
  | AtRead => (forall more, session_run handler_ (got s ++ more) [] = session_run handler_ more (request_data s)) /\ handled s = None /\ written s = [] /\ failed s = false
  | AtWrite rest => exists req bytes, handled s = Some (req, bytes) /\ written s ++ rest = bytes /\ session_run handler_ (got s) [] = Ok (handled s) /\ failed s = false
  | AtClose | Over =>
      session_run handler_ (got s) [] = Ok (handled s) /\
      match handled s with None => written s = [] | Some (_, bytes) => written s `prefix_of` bytes /\ (failed s = false -> written s = bytes) end
  end.

Lemma session_read_ok r s s' : at_ s = AtRead -> session_ok s -> session_read r s = Ok s' -> session_ok s'.
Proof.
  unfold session_ok at 1. intros -> (Hrun & Hh & Hw & Hf). unfold session_read. assert (forall more, session_run handler_ ((got s ++ [r]) ++ more) [] = session_run handler_ (r :: more) (request_data s)) as Hnext.
  { intros more. rewrite <- app_assoc. apply Hrun. }
  pose proof (Hnext []) as Hend. rewrite app_nil_r in Hend. cbn [session_run] in Hnext, Hend. case_bool_decide as Hr.
  - intros [= <-]. unfold session_ok. cbn. by rewrite Hend, Hh, Hw.
  - cbv zeta in *. destruct (find _ (request_data s ++ r)) as [p|] eqn:E.
    + destruct (parse_request (request_data s ++ r)) as [[req|]| |]; cbn [obind] in *; try done; intros [= <-]; unfold session_ok; cbn; rewrite Hend; cbn; [|by rewrite Hw].
      rewrite Hw. by eexists _, _.
    + intros [= <-]. unfold session_ok. cbn. split_and!; [exact Hnext|done..].
Qed.

Lemma session_write_ok n s s' : session_ok s -> session_write n s = Some s' -> session_ok s'.
Proof.
  unfold session_ok at 1, session_write. destruct (at_ s) as [| |rest| |]; try done. intros (req & bytes & Hh & Hw & Hr & Hf). case_bool_decide; [done|].
  destruct n as [|n]; [|destruct (_ <=? _)%nat; [|done]]; intros [= <-]; unfold session_ok; cbn.
  - rewrite Hh, <- Hw in *. split; [done|]. split; [by apply prefix_app_r|done].
  - exists req, bytes. split_and!; [done| |done..]. by rewrite <- app_assoc, take_drop.
Qed.

Lemma session_close_ok s : at_ s = AtClose \/ at_ s = AtWrite [] -> session_ok s -> session_ok (to_stage Over s).
Proof.
  unfold session_ok. cbn. intros [-> | ->]; [done|]. intros (req & bytes & Hh & Hw & Hr & Hf). rewrite app_nil_r in Hw. by rewrite Hr, Hh, Hw.
Qed.

Lemma session_start_ok s : at_ s = Queued -> session_ok s -> session_ok (to_stage AtRead s).
Proof. unfold session_ok at 1. intros -> ->. done. Qed.

(** Sessions in the queue have not started. *)
Definition server_ok (x : server) : Prop :=
  Forall session_ok (sessions x) /\ NoDup (queue_ x) /\ Forall (fun k => at_ <$> sessions x !! k = Some Queued) (queue_ x).

Lemma start_ok n : server_ok (HttpServer_start n).
Proof. split_and!; constructor. Qed.

(** A session that is not in the queue moves. *)
Lemma session_moves k s s' x : sessions x !! k = Some s -> at_ s <> Queued -> session_ok s' -> server_ok x -> server_ok (with_session k s' x).
Proof.
  intros Hk Hq Hs (H1 & H2 & H3). split_and!; cbn; [by apply Forall_insert|done|]. eapply Forall_impl; [exact H3|]. intros j Hj.
  rewrite list_lookup_insert_ne; [done|]. intros ->. cbn in Hj. rewrite Hk in Hj. cbn in Hj. congruence.
Qed.

Lemma serving_some i x k s : serving i x = Some (k, s) -> sessions x !! k = Some s.
Proof. unfold serving. destruct (workers x !! i) as [[|j|]|]; try done. destruct (sessions x !! j) as [t|] eqn:E; [|done]. cbn. by intros [= <- <-]. Qed.

Lemma accept_ok x x' : server_ok x -> accept x = Some x' -> server_ok x'.
Proof.
  intros (H1 & H2 & H3). unfold accept. destruct (accepting x); try done. intros [= <-].
  assert (Forall (fun k => at_ <$> (sessions x ++ [HttpSession]) !! k = Some Queued) (queue_ x)) as H4.
  { eapply Forall_impl; [exact H3|]. cbn. intros k Hk. destruct (sessions x !! k) as [s|] eqn:E; [|done]. by rewrite (lookup_app_l_Some _ _ _ _ E). }
  split_and!; cbn.
  - by apply Forall_app_2; [|apply Forall_singleton].
  - apply NoDup_app. split_and!; [done| |apply NoDup_singleton]. intros k Hk ->%list_elem_of_singleton. rewrite Forall_forall in H3. specialize (H3 _ Hk). by rewrite (lookup_ge_None_2 (sessions x)) in H3.
  - apply Forall_app_2; [done|]. apply Forall_singleton. by rewrite lookup_app_r, Nat.sub_diag by done.
Qed.

Lemma take_ok i x x' : server_ok x -> take_session i x = Some x' -> server_ok x'.
Proof.
  intros (H1 & H2 & H3). unfold take_session. destruct (workers x !! i) as [[| |]|]; try done. destruct (io_stopped x); [by intros [= <-]|].
  destruct (queue_ x) as [|k q]; [done|]. destruct (sessions x !! k) as [s|] eqn:Hk; [|done]. cbn [mbind option_bind]. intros [= <-].
  apply NoDup_cons in H2 as [Hn H2]. apply Forall_cons in H3 as [Hq H3]. rewrite Hk in Hq. injection Hq as Hq. split_and!; cbn; [|done|].
  - apply Forall_insert; [done|]. apply session_start_ok; [done|]. by eapply Forall_lookup_1.
  - apply Forall_forall. intros j Hj. rewrite Forall_forall in H3. rewrite list_lookup_insert_ne; [by apply H3|]. by intros ->.
Qed.

Lemma http_step_ok a x x' : server_ok x -> step a x = Some x' -> server_ok x'.
Proof.
  intros Ho. pose proof Ho as (H1 & _). unfold step. destruct (undefined x); [done|]. destruct a as [|wakes|i|i data|i n|i| |]; [by apply accept_ok| |by apply take_ok|..].
  - unfold accept_step. destruct (accepting x); [intros [= <-]|destruct wakes, (stopped_ x); try done; intros [= <-]|done]; exact Ho.
  - destruct (serving i x) as [[k s]|] eqn:E; [|done]. apply serving_some in E. cbn [mbind option_bind]. destruct (at_ s) eqn:Es; try done. destruct (_ <=? _); [|done].
    destruct (session_read data s) as [s'| |] eqn:Er; intros [= <-]; [|exact Ho..]. apply (session_moves k s); [done|congruence| |done]. eapply session_read_ok; [exact Es| |exact Er]. by eapply Forall_lookup_1.
  - destruct (serving i x) as [[k s]|] eqn:E; [|done]. apply serving_some in E. cbn [mbind option_bind]. destruct (session_write n s) as [s'|] eqn:Ew; [|done]. intros [= <-].
    apply (session_moves k s); [done| | |done]; [intros Hq; unfold session_write in Ew; by rewrite Hq in Ew|]. eapply session_write_ok; [|exact Ew]. by eapply Forall_lookup_1.
  - destruct (serving i x) as [[k s]|] eqn:E; [|done]. apply serving_some in E. cbn [mbind option_bind]. intros H. assert (at_ s = AtClose \/ at_ s = AtWrite []) as Hs by (destruct (at_ s) as [| |[|]| |]; try done; auto).
    assert (x' = with_worker i Free (with_session k (to_stage Over s) x)) as -> by (destruct Hs as [Hs|Hs]; rewrite Hs in H; by injection H).
    assert (server_ok (with_session k (to_stage Over s) x)) as H2; [|exact H2]. apply (session_moves k s); [done|destruct Hs; congruence| |done]. apply session_close_ok; [done|]. by eapply Forall_lookup_1.
  - intros [= <-]. exact Ho.
  - intros [= <-]. exact Ho.
Qed.

Lemma http_run_ok l x x' : server_ok x -> run l x = Some x' -> server_ok x'.
Proof.
  revert x. induction l as [|a l IH]; intros x Hx Hr; cbn in Hr; [by injection Hr as <-|]. destruct (step a x) as [x1|] eqn:E; [|done].
  eapply IH; [by eapply http_step_ok|done].
Qed.

(** C38: However accepting, the io threads and the clients interleave, a session that is over
    has handled the request that [session_run] makes of its own reads and written its answer,
    whole unless a write failed, and never anything else. *)
Theorem http_sessions_exact n l x k s : run l (HttpServer_start n) = Some x -> sessions x !! k = Some s ->
  (at_ s = Over -> session_run handler_ (got s) [] = Ok (handled s) /\ (failed s = false -> written s = default [] (snd <$> handled s))) /\
  match handled s with None => written s = [] | Some (_, bytes) => session_run handler_ (got s) [] = Ok (handled s) /\ written s `prefix_of` bytes end.
Proof.
  intros Hr Hk. destruct (http_run_ok _ _ _ (start_ok n) Hr) as (H1 & _). pose proof (Forall_lookup_1 _ _ _ _ H1 Hk) as Hs. unfold session_ok in Hs.
  destruct (at_ s) as [| |rest| |] eqn:Es; split; try done.
  - subst s. done.
  - by destruct Hs as (_ & -> & -> & _).
  - destruct Hs as (req & bytes & Hh & Hw & Hrun & _). rewrite Hh in *. split; [done|]. rewrite <- Hw. by apply prefix_app_r.
  - destruct Hs as [Hrun Hw]. destruct (handled s) as [[req bytes]|]; [|done]. split; [done|]. by destruct Hw.
  - intros _. destruct Hs as [Hrun Hw]. split; [done|]. intros Hf. destruct (handled s) as [[req bytes]|]; cbn; [|done]. by apply Hw.
  - destruct Hs as [Hrun Hw]. destruct (handled s) as [[req bytes]|]; [|done]. split; [done|]. by destruct Hw.
Qed.

(** ** Silent clients *)

(** Every io thread waits for its client to say something. *)
Definition all_waiting (x : server) : Prop :=
  Forall (fun w => match w with Serving k => at_ <$> sessions x !! k = Some AtRead | _ => False end) (workers x).
Definition silent (a : action) : bool := match a with Read _ _ => false | _ => true end.

Lemma waiting_serving i x k s : all_waiting x -> serving i x = Some (k, s) -> at_ s = AtRead.
Proof.
  intros Hw. unfold serving. destruct (workers x !! i) as [[|j|]|] eqn:E; try done. destruct (sessions x !! j) as [t|] eqn:Ej; [|done]. cbn. intros [= <- <-].
  pose proof (Forall_lookup_1 _ _ _ _ Hw E) as H. cbn in H. rewrite Ej in H. by injection H.
Qed.

Lemma silent_step a x x' : silent a = true -> all_waiting x -> step a x = Some x' ->
  all_waiting x' /\ (exists new, queue_ x' = queue_ x ++ new) /\ (exists new, sessions x' = sessions x ++ new).
Proof.
  intros Ha Hw. assert (forall y, workers y = workers x -> sessions y = sessions x -> queue_ y = queue_ x ->
    all_waiting y /\ (exists new, queue_ y = queue_ x ++ new) /\ (exists new, sessions y = sessions x ++ new)) as Hsame.
  { intros y E1 E2 E3. unfold all_waiting. rewrite E1, E2, E3. split; [done|]. split; exists []; by rewrite app_nil_r. }
  unfold step. destruct (undefined x); [done|]. destruct a as [|wakes|i|i data|i n|i| |]; try done.
  - unfold accept. destruct (accepting x); try done. intros [= <-]. cbn. split; [|by split; eexists].
    eapply Forall_impl; [exact Hw|]. intros [|k|]; try done. cbn. destruct (sessions x !! k) as [s|] eqn:E; [|done]. by rewrite (lookup_app_l_Some _ _ _ _ E).
  - unfold accept_step. destruct (accepting x); [intros [= <-]|destruct wakes, (stopped_ x); try done; intros [= <-]|done]; by apply Hsame.
  - unfold take_session. destruct (workers x !! i) as [[| |]|] eqn:E; try done. by pose proof (Forall_lookup_1 _ _ _ _ Hw E).
  - destruct (serving i x) as [[k s]|] eqn:E; [|done]. cbn [mbind option_bind]. unfold session_write. by rewrite (waiting_serving i x k s Hw E).
  - destruct (serving i x) as [[k s]|] eqn:E; [|done]. cbn [mbind option_bind]. by rewrite (waiting_serving i x k s Hw E).
  - intros [= <-]. by apply Hsame.
  - intros [= <-]. by apply Hsame.
Qed.

(** As many clients as there are io threads, connected and silent, stop the server:
    nothing happens to any other session as long as they stay so, after [stop] either. *)
Theorem silent_clients_stop_server x l x' k s : all_waiting x -> forallb silent l = true -> run l x = Some x' -> sessions x !! k = Some s ->
  sessions x' !! k = Some s /\ all_waiting x' /\ exists new, queue_ x' = queue_ x ++ new.
Proof.
  revert x. induction l as [|a l IH]; intros x Hw Hl Hr Hk; cbn in Hr.
  { injection Hr as ->. split_and!; [done..|]. exists []. by rewrite app_nil_r. }
  apply andb_prop in Hl as [Ha Hl]. destruct (step a x) as [x1|] eqn:E; [|done]. destruct (silent_step a x x1 Ha Hw E) as (Hw1 & (new & Hq) & (news & Hs)).
  destruct (IH x1 Hw1 Hl Hr) as (H1 & H2 & new' & H3); [rewrite Hs; by apply lookup_app_l_Some|]. split_and!; [done..|]. exists (new ++ new'). by rewrite H3, Hq, app_assoc.
Qed.
End Server.

(** ** Examples *)

Definition one_request : str := lit "GET / HTTP/1.0" ++ crlf ++ crlf.

(** Two clients and one thread: the first is answered in two writes, the second is silent. *)
Definition demo_steps : list action :=
  [AcceptStep false; Accept; AcceptStep false; Accept; Take 0; Read 0 (take 5 one_request); Read 0 (drop 5 one_request); Write 0 10; Write 0 87; Close 0; Take 0].

Lemma http_sessions_exact_witness : exists x s, run None demo_steps (HttpServer_start 1) = Some x /\ sessions x !! 0%nat = Some s /\
  session_run None (got s) [] = Ok (handled s) /\ written s = default [] (snd <$> handled s).
Proof.
  destruct (run None demo_steps (HttpServer_start 1)) as [x|] eqn:E; [|vm_compute in E; discriminate].
  destruct (sessions x !! 0%nat) as [s|] eqn:Es; [|vm_compute in E; injection E as <-; vm_compute in Es; discriminate]. exists x, s. split; [reflexivity|]. split; [exact Es|].
  destruct (http_sessions_exact None 1 demo_steps x 0 s E Es) as [H _]. vm_compute in E. injection E as <-. vm_compute in Es. injection Es as <-.
  destruct (H eq_refl) as [H1 H2]. split; [exact H1|exact (H2 eq_refl)].
Defined.

Lemma silent_clients_stop_server_witness : exists x x', run None demo_steps (HttpServer_start 1) = Some x /\
  run None [AcceptStep false; Accept; Stop; StopIo] x = Some x' /\ exists new, queue_ x' = queue_ x ++ new.
Proof.
  destruct (run None demo_steps (HttpServer_start 1)) as [x|] eqn:E; [|vm_compute in E; discriminate].
  destruct (run None [AcceptStep false; Accept; Stop; StopIo] x) as [x'|] eqn:E'; [|vm_compute in E; injection E as <-; vm_compute in E'; discriminate].
  destruct (sessions x !! 1%nat) as [s|] eqn:Es; [|vm_compute in E; injection E as <-; vm_compute in Es; discriminate].
  exists x, x'. split; [reflexivity|]. split; [exact E'|].
  refine (proj2 (proj2 (silent_clients_stop_server None x [AcceptStep false; Accept; Stop; StopIo] x' 1 s _ eq_refl E' Es))).
  vm_compute in E. injection E as <-. apply Forall_singleton. reflexivity.
Defined.
