(* ===== verification/Mongodb.v ===== *)
(** * Mongodb: src/storage/mongodb_storage.cpp

    The back end over a client library given by its class.  [MongoLaws] is what is documented
    of the queries the code sends; the code's find_one_with_opts, which the library's
    documentation does not have, is taken for the first document of find_with_opts.  In the
    default build there is no library and no connection. *)

From S2P Require Import Prelude.
From S2P Require Import Protocol.
From S2P Require Import Wire.
From S2P Require Import Effects.
From S2P Require Import Storage.
From S2P Require Mysql.

(** ** BSON and the library *)

Inductive bson :=
| Utf8 (s : str) | Int64 (z : Z) | Bool (b : bool) | Regex (pattern options : str)
| Fields (d : list (str * Z)).   (* a document of integers *)

Abbreviation doc := (list (str * bson)).

(** What the library answers, an error being its message. *)
Inductive found := Found (d : doc) | NotFound | FindError (msg : str).

Class MongoCollection (DB : Type) := {
  find_one_with_opts : doc -> option doc -> DB -> found;
  replace_one : doc -> doc -> doc -> DB -> option str * DB;
  delete_one : doc -> DB -> option str * DB;
  find_with_opts : doc -> DB -> list doc * option str
}.

(** A C string ends at its first zero byte. *)
Fixpoint c_str (s : str) : str :=
  match s with [] => [] | c :: s' => if bool_decide (c = Byte.x00) then [] else c :: c_str s' end.

Definition append_utf8 (k : string) (v : str) (d : doc) : doc := d ++ [(lit k, Utf8 (c_str v))].

(** ** The process and the back end *)

(** [g_mongoc_refcount], and how often the library was initialised and will be cleaned up. *)
Record process := mkProcess { refcount : Z; inits : Z; cleanups : Z }.

Definition ensure_mongoc_init (p : process) : process :=
  if refcount p =? 0 then mkProcess (refcount p + 1) (inits p + 1) (cleanups p + 1) else mkProcess (refcount p + 1) (inits p) (cleanups p).
Definition release_mongoc_ref (p : process) : process := mkProcess (refcount p - 1) (inits p) (cleanups p).

Section Mongo.
Context {DB : Type} `{MongoCollection DB}.

Record MongodbStorage := mkMongo { config_ : Mysql.StorageConfig; collection_ : option DB }.

Definition MongodbStorage_init (c : Mysql.StorageConfig) : MongodbStorage := mkMongo c None.
Definition with_collection (db : option DB) (s : MongodbStorage) : MongodbStorage := mkMongo (config_ s) db.

Definition uri (c : Mysql.StorageConfig) : str :=
  match Mysql.extra c !! lit "uri" with
  | Some u => u
  | None =>
      if bool_decide (Mysql.host c = []) then lit "mongodb://127.0.0.1:27017"
      else lit "mongodb://" ++ Mysql.host c ++ lit ":" ++ to_string (if 0 <? Mysql.port c then Mysql.port c else 27017)
  end.
Definition db_name (c : Mysql.StorageConfig) : str := if bool_decide (Mysql.database c = []) then lit "chwell" else Mysql.database c.
Definition coll_name (c : Mysql.StorageConfig) : str := default (lit "kv") (Mysql.extra c !! lit "collection").

(** [client]: the library's collection at an address, none if the address is malformed.  A
    client there was is lost. *)
Definition connect (client : str -> str -> str -> option DB) (p : process) (s : MongodbStorage) : bool * process * MongodbStorage :=
  let p := ensure_mongoc_init p in
  match client (uri (config_ s)) (db_name (config_ s)) (coll_name (config_ s)) with
  | None => (false, release_mongoc_ref p, s)
  | Some db => (true, p, with_collection (Some db) s)
  end.

Definition disconnect (p : process) (s : MongodbStorage) : process * MongodbStorage :=
  match collection_ s with None => (p, s) | Some _ => (release_mongoc_ref p, with_collection None s) end.

(** ** Operations *)

Definition failed (msg : str) : StorageResult := mkResult false msg [].
Definition id_query (k : str) : doc := append_utf8 "_id" k [].

(** The loop over the fields of a document. *)
Definition read_field (a : str * Z) (f : str * bson) : str * Z :=
  match f.2 with
  | Utf8 v => if bool_decide (f.1 = lit "v") then (v, a.2) else a
  | Int64 e => if bool_decide (f.1 = lit "expire_at") then (a.1, e) else a
  | _ => a
  end.
Definition read_fields (d : doc) : str * Z := foldl read_field ([], 0) d.

Definition past (now expire_at : Z) : bool := (0 <? expire_at) && (expire_at <? now).

Definition do_remove (k : str) (s : MongodbStorage) : StorageResult * MongodbStorage :=
  match collection_ s with
  | None => (failure "not connected", s)
  | Some db =>
      let '(e, db1) := delete_one (id_query k) db in
      (match e with Some msg => failed msg | None => success [] end, with_collection (Some db1) s)
  end.

(** Without a document [error] is read; without an error nobody has written it: [junk]. *)
Definition do_get (junk : option str) (now : Z) (k : str) (s : MongodbStorage) : StorageResult * MongodbStorage :=
  match collection_ s with
  | None => (failure "not connected", s)
  | Some db =>
      match find_one_with_opts (id_query k) None db with
      | FindError msg => (failed msg, s)
      | NotFound => (match junk with Some msg => failed msg | None => failure "key not found" end, s)
      | Found d =>
          let '(v, e) := read_fields d in
          if past now e then (failure "key expired", (do_remove k s).2) else (success v, s)
      end
  end.

Definition do_put (k v : str) (e : Z) (s : MongodbStorage) : StorageResult * MongodbStorage :=
  match collection_ s with
  | None => (failure "not connected", s)
  | Some db =>
      let '(r, db1) := replace_one (id_query k) (append_utf8 "v" v (id_query k) ++ [(lit "expire_at", Int64 e)]) [(lit "upsert", Bool true)] db in
      (match r with Some msg => failed msg | None => success [] end, with_collection (Some db1) s)
  end.

Definition expiry_only : doc := [(lit "projection", Fields [(lit "expire_at", 1)])].

Definition do_exists (now : Z) (k : str) (s : MongodbStorage) : bool :=
  match collection_ s with
  | None => false
  | Some db => match find_one_with_opts (id_query k) (Some expiry_only) db with Found d => negb (past now (read_fields d).2) | _ => false end
  end.

Definition special (c : Byte.byte) : bool := bool_decide (c ∈ lit ".*+?()[]{}^$|\").
Definition escaped (prefix : str) : str := prefix ≫= fun c => if special c then [Byte.x5c; c] else [c].
Definition keys_query (prefix : str) : doc :=
  if bool_decide (prefix = []) then [] else [(lit "_id", Regex (c_str (Byte.x5e :: escaped prefix)) [])].

(** The [_id] of a document, if it is a string. *)
Fixpoint doc_id (d : doc) : option str :=
  match d with
  | [] => None
  | (n, b) :: d' => if bool_decide (n = lit "_id") then match b with Utf8 s => Some s | _ => None end else doc_id d'
  end.

Definition do_keys (prefix : str) (s : MongodbStorage) : list str :=
  match collection_ s with
  | None => []
  | Some db => let '(docs, e) := find_with_opts (keys_query prefix) db in match e with Some _ => [] | None => omap doc_id docs end
  end.
End Mongo.
Arguments MongodbStorage DB : clear implicits.

(** ** The default build *)

Definition connect_unbuilt : bool := false.
Definition unbuilt : StorageResult := failure "MongodbStorage not built with MongoDB support".

#[export] Instance unbuilt_storage : StorageInterface Mysql.StorageConfig := {|
  get _ _ s := (unbuilt, s);
  put _ _ _ _ s := (unbuilt, s);
  remove _ _ s := (unbuilt, s);
  exists_ _ _ s := (false, s);
  keys _ _ s := ([], s);
  mget now ks s := (replicate (length ks) unbuilt, s);
  mput now docs s := (if bool_decide (docs = []) then success [] else unbuilt, s)
|}.

(** ** What is documented *)

(** The text an anchored pattern without operators stands for. *)
Fixpoint literal (pattern : str) : option str :=
  match pattern with
  | [] => Some []
  | Byte.x5c :: c :: rest => if special c then cons c <$> literal rest else None
  | c :: rest => if special c then None else cons c <$> literal rest
  end.
Definition anchored (pattern : str) : option str := match pattern with Byte.x5e :: rest => literal rest | _ => None end.

Definition entry_doc (k v : str) (e : Z) : doc := [(lit "_id", Utf8 k); (lit "v", Utf8 v); (lit "expire_at", Int64 e)].

(** A collection of such entries, by [_id]; [accepts] is what can be stored. *)
Class MongoLaws (DB : Type) `{MongoCollection DB} := {
  accepts : str -> str -> Prop;
  entries : DB -> gmap str (str * Z);
  find_law k db : find_one_with_opts [(lit "_id", Utf8 k)] None db =
    match entries db !! k with Some (v, e) => Found (entry_doc k v e) | None => NotFound end;
  find_expiry_law k db : find_one_with_opts [(lit "_id", Utf8 k)] (Some expiry_only) db =
    match entries db !! k with Some (_, e) => Found [(lit "_id", Utf8 k); (lit "expire_at", Int64 e)] | None => NotFound end;
  replace_law k v e db : accepts k v -> exists db',
    replace_one [(lit "_id", Utf8 k)] (entry_doc k v e) [(lit "upsert", Bool true)] db = (None, db') /\ entries db' = <[k := (v, e)]> (entries db);
  delete_law k db : exists db', delete_one [(lit "_id", Utf8 k)] db = (None, db') /\ entries db' = delete k (entries db);
  find_all_law db : exists l, find_with_opts [] db = ((fun x => entry_doc x.1 x.2.1 x.2.2) <$> l, None) /\ l ≡ₚ map_to_list (entries db);
  find_prefix_law pattern p db : anchored pattern = Some p -> exists l,
    find_with_opts [(lit "_id", Regex pattern [])] db = ((fun x => entry_doc x.1 x.2.1 x.2.2) <$> l, None) /\
    l ≡ₚ filter (fun x => is_prefix p x.1 = true) (map_to_list (entries db))
}.

(** ** Facts *)

Definition plain (s : str) : Prop := Byte.x00 ∉ s.

Lemma c_str_plain s : plain s -> c_str s = s.
Proof.
  unfold plain. induction s as [|c s IH]; [done|]. intros Hs. apply not_elem_of_cons in Hs as [Hc Hs]. cbn. rewrite bool_decide_false by congruence. by rewrite IH.
Qed.

Lemma c_str_stops s t : plain s -> c_str (s ++ Byte.x00 :: t) = s.
Proof.
  unfold plain. induction s as [|c s IH]; [done|]. intros Hs. apply not_elem_of_cons in Hs as [Hc Hs]. cbn. rewrite bool_decide_false by congruence. by rewrite IH.
Qed.

Lemma c_str_idem s : plain (c_str s).
Proof. unfold plain. induction s as [|c s IH]; cbn; [apply not_elem_of_nil|]. case_bool_decide; [apply not_elem_of_nil|]. by apply not_elem_of_cons. Qed.

Lemma special_cases c : special c = false -> forall p, literal (c :: p) = cons c <$> literal p.
Proof. intros Hc p. destruct c; try (by vm_compute in Hc); cbn [literal]; by rewrite Hc. Qed.

Lemma literal_escaped p : literal (escaped p) = Some p.
Proof.
  induction p as [|c p IH]; [done|]. change (escaped (c :: p)) with ((if special c then [Byte.x5c; c] else [c]) ++ escaped p). destruct (special c) eqn:E.
  - cbn [app literal]. by rewrite E, IH.
  - cbn [app]. by rewrite special_cases, IH.
Qed.

Lemma escaped_plain p : plain p -> plain (Byte.x5e :: escaped p).
Proof.
  intros Hp. apply not_elem_of_cons. split; [done|]. intros Hx. apply list_elem_of_bind in Hx as (c & Hc & Hin). destruct (special c); repeat (apply elem_of_cons in Hc as [Hc|Hc]; [subst|]); try done; by apply not_elem_of_nil in Hc.
Qed.

Lemma prefix_pattern p : plain p -> anchored (c_str (Byte.x5e :: escaped p)) = Some p.
Proof. intros Hp. rewrite c_str_plain by by apply escaped_plain. apply literal_escaped. Qed.

Lemma filter_fst {A} (P : str -> Prop) `{forall k, Decision (P k)} (l : list (str * A)) : filter P l.*1 = (filter (fun x => P x.1) l).*1.
Proof. induction l as [|[k a] l IH]; [done|]. rewrite fmap_cons, !filter_cons. cbn [fst]. case_decide; rewrite ?fmap_cons; by rewrite IH. Qed.

(** The pattern made of a prefix stands for that prefix, whatever characters it has but
    the zero byte; with one it stands for what is before it. *)
Theorem prefix_pattern_exact p rest : plain p ->
  anchored (c_str (Byte.x5e :: escaped p)) = Some p /\ anchored (c_str (Byte.x5e :: escaped (p ++ Byte.x00 :: rest))) = Some p.
Proof.
  intros Hp. split; [by apply prefix_pattern|]. unfold escaped. rewrite bind_app. change (Byte.x5e :: (p ≫= ?f) ++ ?b) with ((Byte.x5e :: (p ≫= f)) ++ b).
  assert (((Byte.x00 :: rest) ≫= fun c => if special c then [Byte.x5c; c] else [c]) = Byte.x00 :: (rest ≫= fun c => if special c then [Byte.x5c; c] else [c])) as -> by reflexivity.
  rewrite c_str_stops by by apply escaped_plain. cbn [anchored]. apply literal_escaped.
Qed.

Section Client.
Context {DB : Type} {library : MongoCollection DB} {laws : MongoLaws DB}.
Implicit Types (s : MongodbStorage DB) (db : DB).

Lemma read_entry k v e : read_fields (entry_doc k v e) = (v, e).
Proof. reflexivity. Qed.

Lemma get_spec junk now k s db : collection_ s = Some db -> plain k -> exists s' db',
  do_get junk now k s = (match entries db !! k with
    | Some (v, e) => if past now e then failure "key expired" else success v
    | None => match junk with Some msg => failed msg | None => failure "key not found" end end, s') /\
  collection_ s' = Some db' /\
  entries db' = (if match entries db !! k with Some (_, e) => past now e | None => false end then delete k (entries db) else entries db).
Proof.
  intros Hs Hk. unfold do_get, id_query, append_utf8. rewrite Hs, c_str_plain by done. cbn [app]. rewrite find_law. destruct (entries db !! k) as [[v e]|] eqn:E.
  - rewrite read_entry. destruct (past now e); [|by exists s, db]. destruct (delete_law k db) as (db' & Hd & He). eexists _, db'. split; [done|].
    unfold do_remove, id_query, append_utf8. rewrite Hs, c_str_plain by done. cbn [app]. by rewrite Hd.
  - by exists s, db.
Qed.

Lemma put_spec k v e s db : collection_ s = Some db -> plain k -> accepts k (c_str v) -> exists s' db',
  do_put k v e s = (success [], s') /\ collection_ s' = Some db' /\ entries db' = <[k := (c_str v, e)]> (entries db).
Proof.
  intros Hs Hk Ha. destruct (replace_law k (c_str v) e db Ha) as (db' & Hd & He). unfold do_put, id_query, append_utf8. rewrite Hs, (c_str_plain k) by done. cbn [app].
  unfold entry_doc in Hd. rewrite Hd. by eexists _, db'.
Qed.

Lemma remove_spec k s db : collection_ s = Some db -> plain k -> exists s' db',
  do_remove k s = (success [], s') /\ collection_ s' = Some db' /\ entries db' = delete k (entries db).
Proof.
  intros Hs Hk. destruct (delete_law k db) as (db' & Hd & He). unfold do_remove, id_query, append_utf8. rewrite Hs, c_str_plain by done. cbn [app]. rewrite Hd. by eexists _, db'.
Qed.

Lemma exists_spec now k s db : collection_ s = Some db -> plain k ->
  do_exists now k s = match entries db !! k with Some (_, e) => negb (past now e) | None => false end.
Proof.
  intros Hs Hk. unfold do_exists, id_query, append_utf8. rewrite Hs, c_str_plain by done. cbn [app]. rewrite find_expiry_law. by destruct (entries db !! k) as [[v e]|].
Qed.

(** The keys listed are those of the collection that begin with the prefix -- those whose
    time has passed among them, against the interface's contract: no operation but [get]
    and [remove] drops them. *)
Theorem keys_listed_with_expired prefix s db : collection_ s = Some db -> plain prefix ->
  do_keys prefix s ≡ₚ filter (fun k => is_prefix prefix k = true) (map_to_list (entries db)).*1.
Proof.
  intros Hs Hp. assert (forall l : list (str * (str * Z)), omap doc_id ((fun x => entry_doc x.1 x.2.1 x.2.2) <$> l) = l.*1) as Hids.
  { intros l. induction l as [|[k [v e]] l IH]; [done|]. change (omap doc_id ((fun x => entry_doc x.1 x.2.1 x.2.2) <$> (k, (v, e)) :: l)) with (k :: omap doc_id ((fun x : str * (str * Z) => entry_doc x.1 x.2.1 x.2.2) <$> l)). by rewrite IH. }
  unfold do_keys, keys_query. rewrite Hs. case_bool_decide as He.
  - subst. destruct (find_all_law db) as (l & Hf & Hl). rewrite Hf, Hids, Hl. by rewrite filter_all by (apply Forall_forall; intros; by apply bool_decide_true).
  - destruct (find_prefix_law _ prefix db (prefix_pattern prefix Hp)) as (l & Hf & Hl). rewrite Hf, Hids, Hl. by rewrite filter_fst.
Qed.

(** A value with a zero byte in it is stored up to that byte, and reported stored. *)
Theorem value_cut_at_zero junk now k v rest s db : collection_ s = Some db -> plain k -> plain v -> accepts k v ->
  (do_put k (v ++ Byte.x00 :: rest) 0 s).1 = success [] /\
  (do_get junk now k (do_put k (v ++ Byte.x00 :: rest) 0 s).2).1 = success v.
Proof.
  intros Hs Hk Hv Ha. destruct (put_spec k (v ++ Byte.x00 :: rest) 0 s db Hs Hk) as (s1 & db1 & Hp & Hs1 & He); [by rewrite c_str_stops|]. rewrite Hp. split; [done|]. cbn [snd].
  rewrite c_str_stops in He by done. destruct (get_spec junk now k s1 db1 Hs1 Hk) as (s2 & db2 & Hg & _). rewrite Hg, He, lookup_insert_eq. done.
Qed.

(** ** Against the in-memory back end *)

Inductive command := CGet (k : str) | CPut (k v : str) (e : Z) | CRemove (k : str) | CExists (k : str).

(** What a caller can tell, but for messages and whether a removed key was there. *)
Inductive reply := RGet (ok : bool) (v : str) | RPut (ok : bool) | RRemoved | RExists (b : bool).

Definition mongo_do (junk : option str) (now : Z) (c : command) s : reply * MongodbStorage DB :=
  match c with
  | CGet k => let '(r, s1) := do_get junk now k s in (RGet (ok r) (value r), s1)
  | CPut k v e => let '(r, s1) := do_put k v e s in (RPut (ok r), s1)
  | CRemove k => (RRemoved, (do_remove k s).2)
  | CExists k => (RExists (do_exists now k s), s)
  end.

Definition memory_do (now : Z) (c : command) (m : MemoryStorage) : reply * MemoryStorage :=
  match c with
  | CGet k => let '(r, m1) := memory_get now k m in (RGet (ok r) (value r), m1)
  | CPut k v e => let '(r, m1) := memory_put k v e m in (RPut (ok r), m1)
  | CRemove k => (RRemoved, (memory_remove k m).2)
  | CExists k => let '(b, m1) := memory_exists now k m in (RExists b, m1)
  end.

Fixpoint run_do {S} (f : Z -> command -> S -> reply * S) (l : list (Z * command)) (s : S) : list reply :=
  match l with [] => [] | (now, c) :: l' => let '(r, s1) := f now c s in r :: run_do f l' s1 end.

Definition command_ok (c : command) : Prop :=
  match c with CGet k | CRemove k | CExists k => plain k | CPut k v _ => plain k /\ plain v /\ accepts k v end.

(** The clock of the calls, from [now] on, does not go back. *)
Fixpoint clock_ok (now : Z) (l : list (Z * command)) : Prop :=
  match l with [] => True | (t, _) :: l' => now <= t /\ clock_ok t l' end.

(** What is read of an entry at [t]; two stores that are read alike from [now] on. *)
Definition read_at (t : Z) (o : option (str * Z)) : option (str * Z) := match o with Some (v, e) => if lasts t e then Some (v, e) else None | None => None end.
Definition entry_of (m : MemoryStorage) (k : str) : option (str * Z) := (fun x => (entry_value x, entry_expire_at x)) <$> m !! k.
Definition alike (now : Z) (m : MemoryStorage) (en : gmap str (str * Z)) : Prop :=
  forall t k, now <= t -> read_at t (entry_of m k) = read_at t (en !! k).

Lemma entry_prune now m k : entry_of (prune_expired now m) k = read_at now (entry_of m k).
Proof.
  unfold entry_of. destruct (prune_expired now m !! k) as [x|] eqn:E.
  - apply prune_lookup in E as [Hx Hl]. rewrite Hx. cbn. by rewrite Hl.
  - destruct (m !! k) as [x|] eqn:Em; [|done]. cbn. destruct (lasts now (entry_expire_at x)) eqn:El; [|done].
    assert (prune_expired now m !! k = Some x) as H by by apply prune_lookup. congruence.
Qed.

Lemma read_read now t o : now <= t -> read_at t (read_at now o) = read_at t o.
Proof.
  intros Ht. destruct o as [[v e]|]; [|done]. cbn. destruct (lasts now e) eqn:E; [done|]. cbn. destruct (lasts t e) eqn:E'; [|done]. by rewrite (lasts_earlier now t e Ht E') in E.
Qed.

Lemma alike_prune now m en : alike now m en -> alike now (prune_expired now m) en.
Proof. intros H t k Ht. rewrite entry_prune, read_read by done. by apply H. Qed.

Lemma alike_later now t m en : now <= t -> alike now m en -> alike t m en.
Proof. intros Ht H u k Hu. apply H. lia. Qed.

Lemma alike_insert now m en k v e : alike now m en -> alike now (<[k := mkEntry v e]> m) (<[k := (v, e)]> en).
Proof.
  intros H t j Ht. unfold entry_of. destruct (decide (j = k)) as [->|Hj]; [by rewrite !lookup_insert_eq|]. rewrite !lookup_insert_ne by done. by apply H.
Qed.

Lemma alike_delete now m en k : alike now m en -> alike now (delete k m) (delete k en).
Proof.
  intros H t j Ht. unfold entry_of. destruct (decide (j = k)) as [->|Hj]; [by rewrite !lookup_delete_eq|]. rewrite !lookup_delete_ne by done. by apply H.
Qed.

(** An entry nobody can read any more may go. *)
Lemma alike_forget now m en k : alike now m en -> read_at now (en !! k) = None -> alike now m (delete k en).
Proof.
  intros H Hk t j Ht. rewrite H by done. destruct (decide (j = k)) as [->|Hj]; [|by rewrite lookup_delete_ne].
  rewrite lookup_delete_eq. rewrite <- (read_read now t) by done. by rewrite Hk.
Qed.

Lemma past_lasts now e : past now e = negb (lasts now e).
Proof. unfold past, lasts. by rewrite negb_involutive. Qed.

Lemma command_alike junk now c m s db : collection_ s = Some db -> command_ok c -> alike now m (entries db) -> exists db',
  (mongo_do junk now c s).1 = (memory_do now c m).1 /\ collection_ (mongo_do junk now c s).2 = Some db' /\ alike now (memory_do now c m).2 (entries db').
Proof.
  intros Hs Hc Ha. assert (forall k, entry_of (prune_expired now m) k = read_at now (entries db !! k)) as Hp by (intros k; rewrite entry_prune; by apply Ha).
  destruct c as [k|k v e|k|k]; cbn [mongo_do memory_do command_ok] in *.
  - destruct (get_spec junk now k s db Hs Hc) as (s1 & db1 & Hg & Hs1 & He). rewrite Hg. exists db1. unfold memory_get, memory_find. specialize (Hp k). unfold entry_of in Hp.
    destruct (entries db !! k) as [[v e]|] eqn:E; cbn [read_at] in Hp.
    + rewrite past_lasts in *. destruct (lasts now e) eqn:El; cbn [negb] in *; destruct (prune_expired now m !! k) as [x|]; try done; cbn in *.
      * injection Hp as Hv _. rewrite Hv. split_and!; [done..|]. rewrite He. by apply alike_prune.
      * split_and!; [done..|]. rewrite He. apply alike_forget; [by apply alike_prune|]. rewrite E. cbn. by rewrite El.
    + destruct (prune_expired now m !! k) as [x|]; [done|]. cbn. split_and!; [by destruct junk|done|]. rewrite He. by apply alike_prune.
  - destruct Hc as (Hk & Hv & Hacc). destruct (put_spec k v e s db Hs Hk) as (s1 & db1 & Hg & Hs1 & He); [by rewrite c_str_plain|]. rewrite Hg. exists db1. cbn.
    split_and!; [done..|]. rewrite He, c_str_plain by done. by apply alike_insert.
  - destruct (remove_spec k s db Hs Hc) as (s1 & db1 & Hg & Hs1 & He). rewrite Hg. exists db1. cbn. split_and!; [done..|]. rewrite He. unfold memory_remove.
    destruct (m !! k) as [x|] eqn:E; cbn; [by apply alike_delete|]. apply alike_forget; [done|]. rewrite <- (Ha now k) by lia. unfold entry_of. by rewrite E.
  - exists db. rewrite (exists_spec now k s db Hs Hc). cbn. split_and!; [|done|by apply alike_prune]. f_equal. specialize (Hp k). unfold entry_of in Hp.
    destruct (entries db !! k) as [[v e]|]; cbn [read_at] in Hp; [|by destruct (prune_expired now m !! k)]. rewrite past_lasts, negb_involutive. destruct (lasts now e), (prune_expired now m !! k); try done.
Qed.

(** Over a library that does what is documented, with keys and values without zero bytes
    and a clock that does not go back, any sequence of operations is answered as the
    in-memory back end answers it. *)
Theorem mongo_as_memory junk now l s db m : collection_ s = Some db -> alike now m (entries db) -> clock_ok now l -> Forall (fun x => command_ok x.2) l ->
  run_do (mongo_do junk) l s = run_do memory_do l m.
Proof.
  revert now s db m. induction l as [|[t c] l IH]; intros now s db m Hs Ha Hl Hc; [done|]. destruct Hl as [Ht Hl]. apply Forall_cons in Hc as [Hc1 Hc]. cbn [run_do].
  destruct (command_alike junk t c m s db Hs Hc1 (alike_later _ _ _ _ Ht Ha)) as (db' & Hr & Hs' & Ha').
  destruct (mongo_do junk t c s) as [r1 s1], (memory_do t c m) as [r2 m1]. cbn in *. subst. f_equal. by eapply IH.
Qed.
End Client.

(** In the default build every operation fails, and nothing is connected to. *)
Theorem unbuilt_fails now k v e c : connect_unbuilt = false /\
  ok (get now k c).1 = false /\ ok (put now k v e c).1 = false /\ ok (remove now k c).1 = false /\ (exists_ now k c).1 = false /\ (keys now k c).1 = [] /\
  (forall ks, mget now ks c = default_mget now ks c) /\ (forall docs, mput now docs c = default_mput now docs c).
Proof.
  split_and!; try done.
  - intros ks. cbn. induction ks as [|x ks IH]; [done|]. cbn [default_mget]. cbn [get unbuilt_storage]. rewrite <- IH. done.
  - intros [|d docs]; done.
Qed.

(** The reference count that is to initialise the library once initialises it again when
    the only connection was closed and is made anew. *)
Theorem library_initialised_again {DB} (client : str -> str -> str -> option DB) c db : client (uri c) (db_name c) (coll_name c) = Some db ->
  let '(_, p1, s1) := connect client (mkProcess 0 0 0) (MongodbStorage_init c) in
  let '(p2, s2) := disconnect p1 s1 in
  let '(_, p3, _) := connect client p2 s2 in inits p3 = 2 /\ cleanups p3 = 2.
Proof. intros Hc. unfold connect. cbn. rewrite Hc. cbn. by rewrite Hc. Qed.

(** ** Examples *)

(** A collection in memory. *)
Definition demo_db : Type := gmap str (str * Z).
Definition demo_docs (l : list (str * (str * Z))) : list doc := (fun x => entry_doc x.1 x.2.1 x.2.2) <$> l.

#[export] Instance demo_collection : MongoCollection demo_db := {|
  find_one_with_opts q o db :=
    match q with
    | [(_, Utf8 k)] => match db !! k with
        | Some (v, e) => Found (match o with None => entry_doc k v e | Some _ => [(lit "_id", Utf8 k); (lit "expire_at", Int64 e)] end)
        | None => NotFound end
    | _ => NotFound end;
  replace_one q d o db := match d with [(_, Utf8 k); (_, Utf8 v); (_, Int64 e)] => (None, <[k := (v, e)]> db) | _ => (Some [], db) end;
  delete_one q db := match q with [(_, Utf8 k)] => (None, delete k db) | _ => (Some [], db) end;
  find_with_opts q db :=
    match q with
    | [(_, Regex p _)] => match anchored p with Some p => (demo_docs (filter (fun x => is_prefix p x.1 = true) (map_to_list db)), None) | None => ([], Some []) end
    | _ => (demo_docs (map_to_list db), None) end
|}.

#[export, refine] Instance demo_laws : MongoLaws demo_db := {| accepts _ _ := True; entries db := db |}.
Proof.
  all: intros; try (by eexists).
  cbn in *. destruct (anchored pattern) as [q|]; [|done]. injection H as ->. by eexists.
Defined.

Definition demo_config : Mysql.StorageConfig := Mysql.mkConfig (lit "mongo") [] 0 [] [] [] ∅.
Definition demo_storage (db : demo_db) : MongodbStorage demo_db := with_collection (Some db) (MongodbStorage_init demo_config).

Definition demo_commands : list (Z * command) :=
  [(5, CPut (lit "a") (lit "1") 10); (10, CGet (lit "a")); (11, CExists (lit "a")); (11, CGet (lit "a")); (12, CRemove (lit "a")); (12, CGet (lit "a"))].

#[local] Instance plain_dec s : Decision (plain s).
Proof. unfold plain. apply _. Defined.

Lemma mongo_as_memory_witness : run_do (mongo_do None) demo_commands (demo_storage ∅) = run_do memory_do demo_commands ∅.
Proof.
  apply (mongo_as_memory None 5 demo_commands (demo_storage ∅) ∅ ∅); [reflexivity|done|cbn; lia|].
  repeat constructor; apply (bool_decide_unpack _); vm_compute; exact I.
Defined.

Lemma prefix_pattern_exact_witness : anchored (c_str (Byte.x5e :: escaped (lit "user.1"))) = Some (lit "user.1").
Proof. refine (proj1 (prefix_pattern_exact (lit "user.1") [] _)). apply (bool_decide_unpack _). vm_compute. exact I. Defined.

Definition demo_full : demo_db := {[lit "a" := (lit "1", 10)]}.

Lemma keys_listed_with_expired_witness : do_keys (lit "a") (demo_storage demo_full) ≡ₚ filter (fun k => is_prefix (lit "a") k = true) (map_to_list (entries demo_full)).*1.
Proof. apply (keys_listed_with_expired (lit "a") (demo_storage demo_full) demo_full eq_refl). apply (bool_decide_unpack _). vm_compute. exact I. Defined.

Lemma value_cut_at_zero_witness : (do_get None 5 (lit "a") (do_put (lit "a") (lit "1" ++ Byte.x00 :: lit "2") 0 (demo_storage ∅)).2).1 = success (lit "1").
Proof. refine (proj2 (value_cut_at_zero None 5 (lit "a") (lit "1") (lit "2") (demo_storage ∅) ∅ eq_refl _ _ I)); apply (bool_decide_unpack _); vm_compute; exact I. Defined.

Lemma library_initialised_again_witness :
  let '(_, p1, s1) := connect (fun _ _ _ => Some (∅ : demo_db)) (mkProcess 0 0 0) (MongodbStorage_init demo_config) in
  let '(p2, s2) := disconnect p1 s1 in
  let '(_, p3, _) := connect (fun _ _ _ => Some (∅ : demo_db)) p2 s2 in inits p3 = 2 /\ cleanups p3 = 2.
Proof. exact (library_initialised_again (fun _ _ _ => Some (∅ : demo_db)) demo_config ∅ eq_refl). Defined.
