(* ===== verification/Udp.v ===== *)
(** * Udp: src/net/udp_server.cpp and udp_socket.cpp

    [UdpServer]: its receiving thread, [start_receive], [stop] and the tasks it posts, as
    interleaved steps; what [recvfrom] answers is chosen by the steps.  [UdpSocket]: what the
    kernel answers is an argument. *)

From S2P Require Import Prelude.
From S2P Require Import Protocol.
From S2P Require Import Wire.
Import Endian.

(** An address and a port, as the kernel has them. *)
Record UdpEndpoint := mkEndpoint { sin_addr : Z; sin_port : Z }.

Record datagram := mkDatagram { data : list byte; remote : UdpEndpoint }.

Module UdpServer.

(** ** The server *)

(** The receiving thread: none or joined; at the test of its loop; in [recvfrom]; out of the
    loop, not joined.  The thread that stops: elsewhere; waiting to join; before [close]. *)
Inductive receiver := NoThread | AtTest | Receiving | Ended.
Inductive stopper := Elsewhere | Joining | ClosingFd.

Record server := mkServer {
  fd_ : bool;                   (* a descriptor, not -1 *)
  stopped_ : bool;
  recv_thread_ : receiver;
  stopping : stopper;
  errno : Z;                    (* of the receiving thread *)
  posted : list datagram;       (* on the io service *)
  handled : list datagram;      (* the callback was called *)
  received : list datagram;     (* ghost: by [recvfrom] *)
  terminated : bool
}.

(** [UdpServer]: whether [socket] and [bind] succeeded. *)
Definition UdpServer (bound : bool) : server := mkServer bound false NoThread Elsewhere 0 [] [] [] false.

Definition with_thread (t : receiver) (x : server) : server :=
  mkServer (fd_ x) (stopped_ x) t (stopping x) (errno x) (posted x) (handled x) (received x) (terminated x).
Definition with_stopping (s : stopper) (x : server) : server :=
  mkServer (fd_ x) (stopped_ x) (recv_thread_ x) s (errno x) (posted x) (handled x) (received x) (terminated x).
Definition with_stopped (b : bool) (x : server) : server :=
  mkServer (fd_ x) b (recv_thread_ x) (stopping x) (errno x) (posted x) (handled x) (received x) (terminated x).
Definition with_errno (e : Z) (x : server) : server :=
  mkServer (fd_ x) (stopped_ x) (recv_thread_ x) (stopping x) e (posted x) (handled x) (received x) (terminated x).
Definition with_fd (b : bool) (x : server) : server :=
  mkServer b (stopped_ x) (recv_thread_ x) (stopping x) (errno x) (posted x) (handled x) (received x) (terminated x).
Definition terminate (x : server) : server :=
  mkServer (fd_ x) (stopped_ x) (recv_thread_ x) (stopping x) (errno x) (posted x) (handled x) (received x) true.

Definition EINTR : Z := 4.
Definition EAGAIN : Z := 11.

(** Assigning to a thread that was not joined ends the program. *)
Definition start_receive (x : server) : server :=
  if negb (fd_ x) then x
  else match recv_thread_ x with
       | NoThread => with_thread AtTest (with_errno 0 (with_stopped false x))
       | _ => terminate (with_stopped false x)
       end.

(** [recvfrom] returns: a datagram, or -1 with an error; a datagram without data is 0, which
    leaves [errno] as it was. *)
Inductive answer := Datagram (d : datagram) | Failed (e : Z).

Definition recv (has_callback : bool) (a : answer) (x : server) : server :=
  let retry x := with_thread (if (errno x =? EINTR) || (errno x =? EAGAIN) then AtTest else Ended) x in
  match a with
  | Failed e => retry (with_errno e x)
  | Datagram d =>
      let x := mkServer (fd_ x) (stopped_ x) (recv_thread_ x) (stopping x) (errno x) (posted x) (handled x) (received x ++ [d]) (terminated x) in
      match data d with
      | [] => retry x
      | _ =>
          with_thread AtTest
            (mkServer (fd_ x) (stopped_ x) (recv_thread_ x) (stopping x) (errno x) (if has_callback then posted x ++ [d] else posted x) (handled x) (received x) (terminated x))
      end
  end.

Inductive action := StartReceive | LoopTest | Recv (a : answer) | RunTask | Stop | Join | CloseFd.

(** [stop] up to the join, which comes when the thread has ended, then the descriptor. *)
Definition step (has_callback : bool) (a : action) (x : server) : option server :=
  if terminated x then None else
  match a with
  | StartReceive => match stopping x with Elsewhere => Some (start_receive x) | _ => None end
  | LoopTest => match recv_thread_ x with AtTest => Some (with_thread (if stopped_ x || negb (fd_ x) then Ended else Receiving) x) | _ => None end
  | Recv a => match recv_thread_ x with Receiving => Some (recv has_callback a x) | _ => None end
  | RunTask =>
      match posted x with
      | [] => None
      | d :: rest => Some (mkServer (fd_ x) (stopped_ x) (recv_thread_ x) (stopping x) (errno x) rest (handled x ++ [d]) (received x) (terminated x))
      end
  | Stop => match stopping x with Elsewhere => Some (with_stopping Joining (with_stopped true x)) | _ => None end
  | Join =>
      match stopping x, recv_thread_ x with
      | Joining, (NoThread | Ended) => Some (with_stopping ClosingFd (with_thread NoThread x))
      | _, _ => None
      end
  | CloseFd => match stopping x with ClosingFd => Some (with_stopping Elsewhere (with_fd false x)) | _ => None end
  end.

Fixpoint run (has_callback : bool) (l : list action) (x : server) : option server :=
  match l with [] => Some x | a :: l' => x1 ← step has_callback a x; run has_callback l' x1 end.

(** [send_to]: what is given to the kernel. *)
Definition send_to (d : list byte) (to : UdpEndpoint) (x : server) : option datagram :=
  if negb (fd_ x) || bool_decide (d = []) then None else Some (mkDatagram d to).

(** ** What is received is handled *)

Definition full (d : datagram) : bool := negb (bool_decide (data d = [])).

Definition relayed (x : server) : Prop := handled x ++ posted x = filter (fun d => full d = true) (received x).

Lemma step_relayed a x x' : step true a x = Some x' -> relayed x -> relayed x'.
Proof.
  unfold step, relayed. destruct (terminated x); [done|]. destruct a as [| |a| | | |]; intros Hs Hr.
  - destruct (stopping x); try done. injection Hs as <-. unfold start_receive. destruct (negb (fd_ x)); [done|]. by destruct (recv_thread_ x).
  - destruct (recv_thread_ x); try done. by injection Hs as <-.
  - destruct (recv_thread_ x); try done. injection Hs as <-. destruct a as [[[|b d] r]|e]; cbn; [| |done].
    + rewrite filter_app, Hr. cbn. by rewrite app_nil_r.
    + rewrite filter_app, app_assoc, Hr. done.
  - destruct (posted x) as [|d rest]; [done|]. injection Hs as <-. cbn. by rewrite <- app_assoc.
  - destruct (stopping x); try done. by injection Hs as <-.
  - destruct (stopping x); try done. destruct (recv_thread_ x); try done; by injection Hs as <-.
  - destruct (stopping x); try done. by injection Hs as <-.
Qed.

(** However the receiving thread, the io service and [stop] interleave, the callback is
    called for the datagrams received, each once and in order with its own sender, those
    without data left out; the last may still be waiting. *)
Theorem datagrams_relayed bound l x : run true l (UdpServer bound) = Some x -> handled x ++ posted x = filter (fun d => full d = true) (received x).
Proof.
  assert (relayed (UdpServer bound)) as Hr by done. revert Hr. generalize (UdpServer bound). induction l as [|a l IH]; intros y Hy Hr; cbn in Hr; [by injection Hr as <-|].
  destruct (step true a y) as [y1|] eqn:E; [|done]. eapply IH; [by eapply step_relayed|done].
Qed.

(** ** One empty datagram *)

Definition restarts (a : action) : bool := match a with StartReceive => true | _ => false end.

Lemma ended_step cb a x x' : recv_thread_ x = Ended \/ recv_thread_ x = NoThread -> restarts a = false -> step cb a x = Some x' ->
  (recv_thread_ x' = Ended \/ recv_thread_ x' = NoThread) /\ received x' = received x.
Proof.
  intros Ht Ha. unfold step. destruct (terminated x); [done|]. destruct a as [| |a| | | |]; try done; intros Hs.
  - by destruct Ht as [Ht|Ht]; rewrite Ht in Hs.
  - by destruct Ht as [Ht|Ht]; rewrite Ht in Hs.
  - destruct (posted x); [done|]. by injection Hs as <-.
  - destruct (stopping x); try done. by injection Hs as <-.
  - destruct (stopping x); try done. destruct Ht as [Ht|Ht]; rewrite Ht in Hs; injection Hs as <-; split; try done; by right.
  - destruct (stopping x); try done. by injection Hs as <-.
Qed.

(** A datagram without data ends the receiving thread, unless an old error of the right
    kind is still in [errno]: the server hears nothing more, and starting it again ends the
    program. *)
Theorem empty_datagram_deafens cb x r l x' : terminated x = false -> fd_ x = true -> recv_thread_ x = Receiving -> stopping x = Elsewhere ->
  errno x <> EINTR -> errno x <> EAGAIN ->
  exists x1, step cb (Recv (Datagram (mkDatagram [] r))) x = Some x1 /\
    (forallb (fun a => negb (restarts a)) l = true -> run cb l x1 = Some x' -> received x' = received x1) /\
    exists x2, step cb StartReceive x1 = Some x2 /\ terminated x2 = true.
Proof.
  intros Ht Hf Hr Hs H1 H2. set (x1 := recv cb (Datagram (mkDatagram [] r)) x). exists x1. split; [by unfold step; rewrite Ht, Hr|].
  assert (recv_thread_ x1 = Ended) as He by (cbn; by rewrite (proj2 (Z.eqb_neq _ _) H1), (proj2 (Z.eqb_neq _ _) H2)). split.
  - intros Hl Hrun. assert (forall y, (recv_thread_ y = Ended \/ recv_thread_ y = NoThread) -> run cb l y = Some x' -> received x' = received y) as Hg; [|by apply Hg; [left|]].
    clear Hrun. induction l as [|a l IH]; intros y Hy Hrun; cbn in Hrun; [by injection Hrun as ->|]. apply andb_prop in Hl as [Ha Hl]. apply negb_true_iff in Ha.
    destruct (step cb a y) as [y1|] eqn:E; [|done]. destruct (ended_step cb a y y1 Hy Ha E) as [Hy1 <-]. by apply IH.
  - unfold step. assert (terminated x1 = false) as Ht1 by exact Ht. assert (stopping x1 = Elsewhere) as Hs1 by exact Hs. rewrite Ht1, Hs1.
    eexists. split; [done|]. unfold start_receive. assert (fd_ x1 = true) as Hf1 by exact Hf. by rewrite Hf1, He.
Qed.

(** Once [stop] has returned the server cannot be started again: [start_receive] does
    nothing, without a word. *)
Theorem stopped_for_good cb x x' x'' : step cb CloseFd x = Some x' -> step cb StartReceive x' = Some x'' -> x'' = x'.
Proof.
  unfold step. destruct (terminated x); [done|]. destruct (stopping x); try done. intros [= <-]. cbn. destruct (terminated x); [done|]. by intros [= <-].
Qed.
End UdpServer.

(** ** UdpSocket *)

Module UdpSocket.

Record socket := mkSocket { fd_ : option Z; local_addr_ : str; local_port_ : Z; has_close_cb : bool }.

Definition UdpSocket (fd : Z) : socket := mkSocket (Some fd) [] 0 false.
Definition set_close_callback (s : socket) : socket := mkSocket (fd_ s) (local_addr_ s) (local_port_ s) true.

Section Program.
Context (e : endianness) (inet_pton : str -> option Z).

(** What is sent: a datagram, if the host is an address. *)
Definition send_to (host : str) (port : Z) (d : str) (s : socket) : option (datagram * option Z) :=
  a ← inet_pton host; Some (mkDatagram d (mkEndpoint a (host_to_net16 e port)), fd_ s).

(** The descriptor closed, and whether the callback is called. *)
Definition close (s : socket) : socket * option Z * bool :=
  match fd_ s with
  | Some fd => (mkSocket None (local_addr_ s) (local_port_ s) (has_close_cb s), Some fd, has_close_cb s)
  | None => (s, None, false)
  end.

Definition any_host (host : str) : bool := bool_decide (host = []) || bool_decide (host = lit "0.0.0.0").

(** The kernel: whether [bind] succeeds at an end point, and the one [getsockname] gives. *)
Context (bind : option Z -> UdpEndpoint -> bool) (getsockname : option Z -> UdpEndpoint -> option UdpEndpoint).

Definition bind_udp_port (host : str) (port : Z) (s : socket) : bool * socket :=
  match (if any_host host then Some 0 else inet_pton host) with
  | None => (false, s)
  | Some a =>
      let at_ := mkEndpoint a (host_to_net16 e port) in
      if bind (fd_ s) at_ then
        match getsockname (fd_ s) at_ with
        | None => (false, s)
        | Some bound => (true, mkSocket (fd_ s) (if bool_decide (host = []) then lit "0.0.0.0" else host) (net_to_host16 e (sin_port bound)) (has_close_cb s))
        end
      else (false, s)
  end.

(** [::socket] gives a descriptor, or none. *)
Definition create_udp_socket (fd : option Z) (host : str) (port : Z) : option socket :=
  f ← fd;
  let s := UdpSocket f in
  if bool_decide (port = 0) then Some s
  else let '(bound, s1) := bind_udp_port host port s in if bound then Some s1 else None.

(** ** Facts *)

Lemma net_host16 v : 0 <= v < 65536 -> net_to_host16 e (host_to_net16 e v) = v.
Proof. intros Hv. destruct e; [|done]. cbn [net_to_host16 host_to_net16]. unfold bswap16. Z.to_euclidean_division_equations. lia. Qed.

(** A socket created with a port is bound to it on the address asked for, or not created;
    without a port it is bound to nothing, whatever the address, though binding it to port 0
    afterwards gives it the port the system chooses. *)
Theorem created_bound fd host port s : 0 <= port < 65536 ->
  (forall f at_ bound, bind f at_ = true -> getsockname f at_ = Some bound -> sin_port at_ <> 0 -> bound = at_) ->
  create_udp_socket fd host port = Some s ->
  (port <> 0 -> local_port_ s = port /\ local_addr_ s = (if bool_decide (host = []) then lit "0.0.0.0" else host) /\
     exists a, (if any_host host then Some 0 else inet_pton host) = Some a /\ bind (fd_ s) (mkEndpoint a (host_to_net16 e port)) = true) /\
  (port = 0 -> local_port_ s = 0 /\ local_addr_ s = [] /\
     forall a chosen, (if any_host host then Some 0 else inet_pton host) = Some a -> 0 <= chosen < 65536 ->
       bind (fd_ s) (mkEndpoint a (host_to_net16 e 0)) = true -> getsockname (fd_ s) (mkEndpoint a (host_to_net16 e 0)) = Some (mkEndpoint a (host_to_net16 e chosen)) ->
       exists s', bind_udp_port host 0 s = (true, s') /\ local_port_ s' = chosen).
Proof.
  intros Hp Hk. unfold create_udp_socket. destruct fd as [f|]; [|done]. cbn [mbind option_bind]. case_bool_decide as H0.
  - intros [= <-]. split; [done|]. intros _. split_and!; [done..|]. intros a chosen Ha Hc Hb Hg. unfold bind_udp_port. rewrite Ha. cbn [fd_ UdpSocket] in *. rewrite Hb, Hg.
    eexists. split; [done|]. by apply net_host16.
  - destruct (bind_udp_port host port (UdpSocket f)) as [[] s1] eqn:E; [|done]. intros [= <-]. split; [|done]. intros _. unfold bind_udp_port in E.
    destruct (if any_host host then Some 0 else inet_pton host) as [a|]; [|done]. cbn [fd_ UdpSocket] in E. destruct (bind _ _) eqn:Eb; [|done].
    destruct (getsockname _ _) as [b|] eqn:Eg; [|done]. injection E as <-. cbn. assert (host_to_net16 e port <> 0) as Hn.
    { intros Hn. apply H0. by rewrite <- (net_host16 port Hp), Hn; destruct e. }
    rewrite (Hk _ _ _ Eb Eg Hn). cbn. rewrite net_host16 by done. split_and!; [done..|]. by exists a.
Qed.

(** However often a socket is closed, and destroyed then, its descriptor is closed once and
    its callback called once. *)
Theorem closed_once n s : let '(s', fds, calls) := Nat.iter n (fun '(s, fds, calls) => let '(s1, f, c) := close s in (s1, fds ++ option_list f, calls + Z.b2z c)) (s, [], 0) in
  (n <> 0)%nat -> fds = option_list (fd_ s) /\ calls = Z.b2z (match fd_ s with Some _ => has_close_cb s | None => false end) /\ fd_ s' = None.
Proof.
  destruct (Nat.iter n _ (s, [], 0)) as [[s' fds] calls] eqn:E. intros Hn. destruct n as [|n]; [done|]. clear Hn. revert s' fds calls E.
  induction n as [|n IH]; intros s' fds calls E.
  - cbn in E. unfold close in E. destruct (fd_ s) as [f|] eqn:Ef; injection E as <- <- <-; cbn; by rewrite ?Ef.
  - cbn [Nat.iter nat_rect] in E. destruct (Nat.iter (S n) _ (s, [], 0)) as [[s1 fds1] calls1] eqn:E1. cbn [Nat.iter nat_rect] in E1. rewrite E1 in E.
    destruct (IH _ _ _ eq_refl) as (H1 & H2 & H3). unfold close in E. rewrite H3 in E. injection E as <- <- <-. cbn. rewrite app_nil_r, Z.add_0_r. done.
Qed.
End Program.
End UdpSocket.

(** ** Examples *)

Definition demo_end : UdpEndpoint := mkEndpoint 16777343 5000.
Definition demo_datagrams : list UdpServer.action :=
  [UdpServer.StartReceive; UdpServer.LoopTest; UdpServer.Recv (UdpServer.Datagram (mkDatagram [Byte.x61] demo_end)); UdpServer.LoopTest].

Lemma datagrams_relayed_witness : exists x, UdpServer.run true (demo_datagrams ++ [UdpServer.RunTask]) (UdpServer.UdpServer true) = Some x /\
  UdpServer.handled x ++ UdpServer.posted x = filter (fun d => UdpServer.full d = true) (UdpServer.received x).
Proof.
  destruct (UdpServer.run true (demo_datagrams ++ [UdpServer.RunTask]) (UdpServer.UdpServer true)) as [x|] eqn:E; [|vm_compute in E; discriminate].
  exists x. split; [reflexivity|]. exact (UdpServer.datagrams_relayed true (demo_datagrams ++ [UdpServer.RunTask]) x E).
Defined.

Lemma empty_datagram_deafens_witness : exists x x1, UdpServer.run true demo_datagrams (UdpServer.UdpServer true) = Some x /\
  UdpServer.step true (UdpServer.Recv (UdpServer.Datagram (mkDatagram [] demo_end))) x = Some x1 /\
  exists x2, UdpServer.step true UdpServer.StartReceive x1 = Some x2 /\ UdpServer.terminated x2 = true.
Proof.
  destruct (UdpServer.run true demo_datagrams (UdpServer.UdpServer true)) as [x|] eqn:E; [|vm_compute in E; discriminate].
  destruct (UdpServer.empty_datagram_deafens true x demo_end [] x) as (x1 & H1 & _ & H2); [vm_compute in E; injection E as <-; try reflexivity; vm_compute; discriminate..|].
  exists x, x1. split; [reflexivity|]. split; [exact H1|exact H2].
Defined.

Lemma stopped_for_good_witness : exists x' x'', UdpServer.step true UdpServer.CloseFd (UdpServer.with_stopping UdpServer.ClosingFd (UdpServer.UdpServer true)) = Some x' /\
  UdpServer.step true UdpServer.StartReceive x' = Some x'' /\ x'' = x'.
Proof.
  eexists _, _. split; [reflexivity|]. split; [reflexivity|].
  exact (UdpServer.stopped_for_good true (UdpServer.with_stopping UdpServer.ClosingFd (UdpServer.UdpServer true)) _ _ eq_refl eq_refl).
Defined.

Lemma created_bound_witness : exists s, UdpSocket.create_udp_socket Little (fun _ => None) (fun _ _ => true) (fun _ at_ => Some at_) (Some 3) [] 5000 = Some s /\ UdpSocket.local_port_ s = 5000.
Proof.
  eexists. split; [reflexivity|]. refine (proj1 (proj1 (UdpSocket.created_bound Little (fun _ => None) (fun _ _ => true) (fun _ at_ => Some at_) (Some 3) [] 5000 _ _ _ eq_refl) _)); [lia| |discriminate].
  intros f at_ bound _ H _. by injection H.
Defined.
