(* ===== verification/Logger.v ===== *)
(** * Logger: core/logger.cpp

    The process's logger over its two streams.  A call holds the mutex, so calls are one
    after the other.  The date of a line, which the C library writes, is an argument. *)

From S2P Require Import Prelude.
From S2P Require Import Protocol.
From S2P Require Import Wire.

Inductive LogLevel := Debug | Info | Warn | Error.

Definition level_int (l : LogLevel) : Z := match l with Debug => 0 | Info => 1 | Warn => 2 | Error => 3 end.

Record logger := mkLogger { current_level_ : LogLevel; use_color_ : bool; cout : str; cerr : str }.

(** [Logger]: whether standard output is a terminal. *)
Definition Logger (terminal : bool) : logger := mkLogger Info terminal [] [].

Definition set_level (l : LogLevel) (x : logger) : logger := mkLogger l (use_color_ x) (cout x) (cerr x).
Definition set_use_color (b : bool) (x : logger) : logger := mkLogger (current_level_ x) b (cout x) (cerr x).

(** ** Lines *)

Definition level_to_string (l : LogLevel) : str :=
  match l with Debug => lit "DEBUG" | Info => lit "INFO " | Warn => lit "WARN " | Error => lit "ERROR" end.

Definition esc (s : string) : str := Byte.x1b :: lit s.
Definition level_color (l : LogLevel) : str := match l with Debug => esc "[2m" | Info => esc "[0m" | Warn => esc "[33m" | Error => esc "[31m" end.
Definition color_reset : str := esc "[0m".

(** [std::setw(3)] with zeros. *)
Definition padded (n : Z) : str := let s := to_string n in replicate (3 - length s) Byte.x30 ++ s.

(** [date] is what [strftime] wrote, [ms] the milliseconds since the epoch. *)
Definition now_string (date : str) (ms : Z) : str := date ++ lit "." ++ padded (Z.rem ms 1000).

Definition newline : byte := Byte.x0a.

Definition line (color : bool) (l : LogLevel) (now msg : str) : str :=
  now ++ (if color then lit " " ++ level_color l else []) ++ lit " [" ++ level_to_string l ++ lit "] " ++ (if color then color_reset else []) ++ msg ++ [newline].

(** [stream_for]. *)
Definition to_cerr (l : LogLevel) : bool := match l with Error | Warn => true | _ => false end.

Definition log (l : LogLevel) (now msg : str) (x : logger) : logger :=
  if level_int l <? level_int (current_level_ x) then x
  else
    let s := line (use_color_ x) l now msg in
    if to_cerr l then mkLogger (current_level_ x) (use_color_ x) (cout x) (cerr x ++ s) else mkLogger (current_level_ x) (use_color_ x) (cout x ++ s) (cerr x).

(** ** Histories of calls *)

Inductive call := SetLevel (l : LogLevel) | SetUseColor (b : bool) | Log (l : LogLevel) (date : str) (ms : Z) (msg : str).

Definition do_call (x : logger) (c : call) : logger :=
  match c with
  | SetLevel l => set_level l x
  | SetUseColor b => set_use_color b x
  | Log l date ms msg => log l (now_string date ms) msg x
  end.

(** The lines the calls owe each stream, by the level and colour in force at each. *)
Fixpoint lines (err : bool) (level : LogLevel) (color : bool) (l : list call) : list str :=
  match l with
  | [] => []
  | SetLevel k :: l' => lines err k color l'
  | SetUseColor b :: l' => lines err level b l'
  | Log k date ms msg :: l' =>
      (if Bool.eqb (to_cerr k) err && (level_int level <=? level_int k) then [line color k (now_string date ms) msg] else []) ++ lines err level color l'
  end.

Lemma calls_streams l : forall x, let x' := foldl do_call x l in
  cout x' = cout x ++ concat (lines false (current_level_ x) (use_color_ x) l) /\ cerr x' = cerr x ++ concat (lines true (current_level_ x) (use_color_ x) l).
Proof.
  induction l as [|[k|b|k date ms msg] l IH]; intros x; cbn [foldl lines do_call]; [by rewrite !app_nil_r|apply IH|apply IH|].
  destruct (IH (log k (now_string date ms) msg x)) as [H1 H2]. cbv zeta in *. rewrite H1, H2. unfold log. rewrite (Z.leb_antisym (level_int k)).
  destruct (level_int k <? level_int (current_level_ x)); cbn [negb]; [by rewrite !andb_false_r|]. rewrite !andb_true_r.
  destruct (to_cerr k); cbn [Bool.eqb app cout cerr current_level_ use_color_ concat]; by rewrite ?app_assoc.
Qed.

(** Whatever calls come, each stream holds exactly the lines of the calls at or above the
    level in force, whole and in order: errors and warnings on one, the others on the
    other. *)
Theorem streams_exact terminal l : cout (foldl do_call (Logger terminal) l) = concat (lines false Info terminal l) /\
  cerr (foldl do_call (Logger terminal) l) = concat (lines true Info terminal l).
Proof. destruct (calls_streams l (Logger terminal)) as [H1 H2]. split; [exact H1|exact H2]. Qed.

(** A time since the epoch ends in exactly three digits, which are its milliseconds. *)
Theorem milliseconds_three_digits date ms : 0 <= ms -> exists d, now_string date ms = date ++ lit "." ++ d /\ length d = 3%nat /\
  foldl (fun n c => 10 * n + (byte_val c - 48)) 0 d = ms mod 1000.
Proof.
  intros Hm. exists (padded (Z.rem ms 1000)). split; [done|]. rewrite Z.rem_mod_nonneg by lia. pose proof (Z.mod_pos_bound ms 1000 ltac:(lia)) as Hr. set (n := ms mod 1000) in *. clearbody n.
  assert (forallb (fun n => Nat.eqb (length (padded n)) 3 && (foldl (fun n c => 10 * n + (byte_val c - 48)) 0 (padded n) =? n)) (Z.of_nat <$> seq 0 1000) = true) as Hall by (vm_compute; reflexivity).
  rewrite forallb_forall in Hall. specialize (Hall n). rewrite andb_true_iff, Nat.eqb_eq, Z.eqb_eq in Hall. apply Hall.
  apply list_elem_of_In, list_elem_of_fmap. exists (Z.to_nat n). split; [lia|]. apply elem_of_seq. lia.
Qed.

(** A message is not escaped: with a line break in it, it can be the lines of two calls. *)
Theorem lines_forged color k1 k2 now1 now2 msg1 msg2 x : level_int (current_level_ x) <= level_int k1 -> level_int (current_level_ x) <= level_int k2 ->
  to_cerr k1 = to_cerr k2 -> use_color_ x = color ->
  log k2 now2 msg2 (log k1 now1 msg1 x) = log k1 now1 (msg1 ++ [newline] ++ take (length (line color k2 now2 msg2) - 1) (line color k2 now2 msg2)) x.
Proof.
  intros H1 H2 Hs <-. set (s := line (use_color_ x) k2 now2 msg2). assert (take (length s - 1) s ++ [newline] = s) as Hl.
  { unfold s, line. rewrite !app_assoc. rewrite length_app. cbn [length]. rewrite Nat.add_sub. by rewrite take_app_length. }
  assert (line (use_color_ x) k1 now1 (msg1 ++ [newline] ++ take (length s - 1) s) = line (use_color_ x) k1 now1 msg1 ++ s) as Hline.
  { unfold line at 1 2. rewrite <- !app_assoc. by rewrite Hl. }
  unfold log at 2 3. rewrite (proj2 (Z.ltb_ge _ _) H1), Hline, Hs. unfold log.
  destruct (to_cerr k2); cbn [current_level_ use_color_ cout cerr]; rewrite (proj2 (Z.ltb_ge _ _) H2); fold s; by rewrite app_assoc.
Qed.

(** ** Examples *)

Lemma milliseconds_three_digits_witness : exists d, now_string (lit "2024-01-01 00:00:00") 1704067200007 = lit "2024-01-01 00:00:00" ++ lit "." ++ d /\ length d = 3%nat.
Proof. destruct (milliseconds_three_digits (lit "2024-01-01 00:00:00") 1704067200007 ltac:(lia)) as (d & H1 & H2 & _). by exists d. Defined.

Lemma lines_forged_witness : exists msg, log Info (lit "t2") (lit "admin logged in") (log Info (lit "t1") (lit "bye") (Logger false)) = log Info (lit "t1") msg (Logger false).
Proof. eexists. exact (lines_forged false Info Info (lit "t1") (lit "t2") (lit "bye") (lit "admin logged in") (Logger false) ltac:(cbn; lia) ltac:(cbn; lia) eq_refl eq_refl). Defined.
