(* ===== verification/Tls.v ===== *)
(** * Tls: src/net/tls.cpp

    [TlsContext] and [TlsConnection] over OpenSSL.  What the library answers is an argument of
    each operation; what the code asks of it is a trace of calls, on objects numbered as
    they are made.  In a build without OpenSSL nothing is asked. *)

From S2P Require Import Prelude.
From S2P Require Import Protocol.
From S2P Require Import Wire.

Inductive lib_call :=
| CtxNew (c : Z) (server : bool) | UseCertificate (c : Z) (file : str) | UsePrivateKey (c : Z) (file : str) | CheckPrivateKey (c : Z)
| LoadVerifyLocations (c : Z) (ca : str) | SetVerifyPeer (c : Z) | CtxFree (c : Z)
| SslNew (s : Z) (c : option Z) | SetFd (s : Z) (fd : Z) | SslAccept (s : Z) | SslConnect (s : Z) | SslRead (s len : Z) | SslWrite (s len : Z)
| SslShutdown (s : Z) | SslFree (s : Z).

Record TlsContext := mkContext { ctx_ : option Z; is_server_ : bool }.
Record TlsConnection := mkConnection { ssl_ : option Z; socket_ : option Z; established_ : bool }.

(** The library: the next object's number, the calls so far. *)
Record library := mkLib { next : Z; calls : list lib_call }.
Definition ask (l : list lib_call) (x : library) : library := mkLib (next x) (calls x ++ l).
Definition make (l : Z -> list lib_call) (x : library) : library := mkLib (next x + 1) (calls x ++ l (next x)).

(** ** TlsContext *)

Definition TlsContext_init : TlsContext := mkContext None false.

(** [made], [cert], [key], [checked]: the library's answers. *)
Definition init_server (cert_file key_file : str) (made cert key checked : bool) (t : TlsContext) (x : library) : bool * TlsContext * library :=
  let t := mkContext (ctx_ t) true in
  let c := next x in
  if negb made then (false, t, x)
  else if negb cert then (false, t, make (fun c => [CtxNew c true; UseCertificate c cert_file; CtxFree c]) x)
  else if negb key then (false, t, make (fun c => [CtxNew c true; UseCertificate c cert_file; UsePrivateKey c key_file; CtxFree c]) x)
  else if negb checked then (false, t, make (fun c => [CtxNew c true; UseCertificate c cert_file; UsePrivateKey c key_file; CheckPrivateKey c; CtxFree c]) x)
  else (true, mkContext (Some c) true, make (fun c => [CtxNew c true; UseCertificate c cert_file; UsePrivateKey c key_file; CheckPrivateKey c]) x).

Definition init_client (ca_file : str) (made loaded : bool) (t : TlsContext) (x : library) : bool * TlsContext * library :=
  let t := mkContext (ctx_ t) false in
  let c := next x in
  if negb made then (false, t, x)
  else if bool_decide (ca_file = []) then (true, mkContext (Some c) false, make (fun c => [CtxNew c false]) x)
  else if negb loaded then (false, t, make (fun c => [CtxNew c false; LoadVerifyLocations c ca_file; CtxFree c]) x)
  else (true, mkContext (Some c) false, make (fun c => [CtxNew c false; LoadVerifyLocations c ca_file; SetVerifyPeer c]) x).

(** [~TlsContext]. *)
Definition destroy_context (t : TlsContext) (x : library) : library :=
  match ctx_ t with Some c => ask [CtxFree c] x | None => x end.

(** ** TlsConnection *)

Definition TlsConnection_init (made : bool) (fd : Z) (t : TlsContext) (x : library) : TlsConnection * library :=
  if made then (mkConnection (Some (next x)) (Some fd) false, make (fun s => [SslNew s (ctx_ t); SetFd s fd]) x)
  else (mkConnection None (Some fd) false, x).

(** [ret] is what SSL_accept or SSL_connect returns. *)
Definition handshake (ret : Z) (t : TlsContext) (k : TlsConnection) (x : library) : bool * TlsConnection * library :=
  match ssl_ k with
  | None => (false, k, x)
  | Some s =>
      let x1 := ask [if is_server_ t then SslAccept s else SslConnect s] x in
      if ret <=? 0 then (false, k, x1) else (true, mkConnection (ssl_ k) (socket_ k) true, x1)
  end.

(** [n] is what SSL_read returns; the length asked for is cast to an [int]. *)
Definition read (len n : Z) (k : TlsConnection) (x : library) : Z * library :=
  match ssl_ k with None => (-1, x) | Some s => (if n <=? 0 then -1 else n, ask [SslRead s (i32 len)] x) end.
Definition write (len n : Z) (k : TlsConnection) (x : library) : Z * library :=
  match ssl_ k with None => (-1, x) | Some s => (if n <=? 0 then -1 else n, ask [SslWrite s (i32 len)] x) end.

Definition close (k : TlsConnection) (x : library) : TlsConnection * library :=
  (mkConnection None None false, match ssl_ k with Some s => ask [SslShutdown s; SslFree s] x | None => x end).

(** ** Without OpenSSL *)

Definition init_unbuilt : bool := false.
Definition TlsConnection_unbuilt (fd : Z) : TlsConnection := mkConnection None (Some fd) false.
Definition handshake_unbuilt : bool := false.
Definition read_unbuilt : Z := -1.
Definition close_unbuilt (k : TlsConnection) : TlsConnection := mkConnection (ssl_ k) None false.

(** ** A program: one context, any connections of it *)

Record program := mkProgram {
  lib : library;
  context : option TlsContext;         (* none once it is destroyed *)
  connections : list TlsConnection;
  lost : list Z                        (* ghost: contexts overwritten by a later one *)
}.
Definition program_init : program := mkProgram (mkLib 0 []) (Some TlsContext_init) [] [].

Inductive op :=
| InitServer (cert_file key_file : str) (made cert key checked : bool) | InitClient (ca_file : str) (made loaded : bool) | DestroyContext
| Open (made : bool) (fd : Z) | Handshake (i : nat) (ret : Z) | Read (i : nat) (len n : Z) | Write (i : nat) (len n : Z) | Close (i : nat).

(** What a new context displaces. *)
Definition displaced (done : bool) (t : TlsContext) : list Z := if done then option_list (ctx_ t) else [].

Definition do_op (o : op) (p : program) : option program :=
  match o with
  | InitServer cf kf m c k ch =>
      t ← context p; let '(done, t1, x) := init_server cf kf m c k ch t (lib p) in Some (mkProgram x (Some t1) (connections p) (lost p ++ displaced done t))
  | InitClient ca m l =>
      t ← context p; let '(done, t1, x) := init_client ca m l t (lib p) in Some (mkProgram x (Some t1) (connections p) (lost p ++ displaced done t))
  | DestroyContext => t ← context p; Some (mkProgram (destroy_context t (lib p)) None (connections p) (lost p))
  | Open m fd => t ← context p; let '(k, x) := TlsConnection_init m fd t (lib p) in Some (mkProgram x (context p) (connections p ++ [k]) (lost p))
  | Handshake i ret =>
      t ← context p; k ← connections p !! i; let '(_, k1, x) := handshake ret t k (lib p) in Some (mkProgram x (context p) (<[i := k1]> (connections p)) (lost p))
  | Read i len n => k ← connections p !! i; Some (mkProgram (read len n k (lib p)).2 (context p) (connections p) (lost p))
  | Write i len n => k ← connections p !! i; Some (mkProgram (write len n k (lib p)).2 (context p) (connections p) (lost p))
  | Close i => k ← connections p !! i; let '(k1, x) := close k (lib p) in Some (mkProgram x (context p) (<[i := k1]> (connections p)) (lost p))
  end.

Fixpoint run (l : list op) (p : program) : option program := match l with [] => Some p | o :: l' => p1 ← do_op o p; run l' p1 end.

(** ** Objects made and freed *)

Definition ctx_made (l : list lib_call) : list Z := omap (fun x => match x with CtxNew c _ => Some c | _ => None end) l.
Definition ctx_freed (l : list lib_call) : list Z := omap (fun x => match x with CtxFree c => Some c | _ => None end) l.
Definition ssl_made (l : list lib_call) : list Z := omap (fun x => match x with SslNew s _ => Some s | _ => None end) l.
Definition ssl_freed (l : list lib_call) : list Z := omap (fun x => match x with SslFree s => Some s | _ => None end) l.

Definition held (p : program) : list Z := match context p with Some t => option_list (ctx_ t) | None => [] end.
Definition live (k : TlsConnection) : list Z := option_list (ssl_ k).

Record balanced (p : program) : Prop := mkBalanced {
  contexts_balance : ctx_made (calls (lib p)) ≡ₚ ctx_freed (calls (lib p)) ++ held p ++ lost p;
  ssls_balance : ssl_made (calls (lib p)) ≡ₚ ssl_freed (calls (lib p)) ++ (connections p ≫= live);
  numbers : NoDup (ctx_made (calls (lib p)) ++ ssl_made (calls (lib p))) /\ Forall (fun z => z < next (lib p)) (ctx_made (calls (lib p)) ++ ssl_made (calls (lib p)))
}.

Lemma init_balanced : balanced program_init.
Proof. split; cbn; [done|done|]. split; constructor. Qed.

Lemma omap_calls (f : lib_call -> option Z) l1 l2 : omap f (l1 ++ l2) = omap f l1 ++ omap f l2.
Proof. induction l1 as [|x l1 IH]; [done|]. cbn in *. destruct (f x); cbn; by rewrite IH. Qed.

(** Some calls more: objects [d] and [d'] made, at most one. *)
Lemma balanced_extend p p' l d d' : balanced p -> calls (lib p') = calls (lib p) ++ l -> ctx_made l = d -> ssl_made l = d' ->
  (d ++ d' = [] /\ next (lib p') = next (lib p)) \/ (d ++ d' = [next (lib p)] /\ next (lib p') = next (lib p) + 1) ->
  held p ++ lost p ++ d ≡ₚ ctx_freed l ++ held p' ++ lost p' ->
  (connections p ≫= live) ++ d' ≡ₚ ssl_freed l ++ (connections p' ≫= live) -> balanced p'.
Proof.
  intros [H1 H2 [H3 H4]] Hc Hd Hd' Hn Hh Hk.
  assert (ctx_made (calls (lib p) ++ l) = ctx_made (calls (lib p)) ++ d) as E1 by (rewrite <- Hd; apply omap_calls).
  assert (ssl_made (calls (lib p) ++ l) = ssl_made (calls (lib p)) ++ d') as E2 by (rewrite <- Hd'; apply omap_calls).
  assert (ctx_freed (calls (lib p) ++ l) = ctx_freed (calls (lib p)) ++ ctx_freed l) as E3 by apply omap_calls.
  assert (ssl_freed (calls (lib p) ++ l) = ssl_freed (calls (lib p)) ++ ssl_freed l) as E4 by apply omap_calls.
  split; rewrite Hc, ?E1, ?E2, ?E3, ?E4.
  - rewrite H1, <- !app_assoc, Hh. done.
  - rewrite H2, <- !app_assoc, Hk. done.
  - set (a := ctx_made _) in *. set (b := ssl_made _) in *. assert ((a ++ d) ++ b ++ d' ≡ₚ (d ++ d') ++ a ++ b) as Hp by solve_Permutation.
    rewrite Hp. destruct Hn as [[-> ->]|[-> ->]]; [by split|]. cbn [app]. split.
    + apply NoDup_cons. split; [|done]. intros Hin. rewrite Forall_forall in H4. specialize (H4 _ Hin). lia.
    + apply Forall_cons. split; [lia|]. eapply Forall_impl; [exact H4|]. cbn. lia.
Qed.

(** The connections stay as they are, in what they hold. *)
Lemma live_insert (l : list TlsConnection) i k k' : l !! i = Some k -> live k' = live k -> <[i := k']> l ≫= live ≡ₚ l ≫= live.
Proof. intros Hi Hl. destruct (bind_insert live _ _ _ Hi) as (R & -> & ->). by rewrite Hl. Qed.

(** Nothing is asked. *)
Lemma balanced_inert p t' ls' : balanced p -> held p ++ lost p ≡ₚ held (mkProgram (lib p) t' (connections p) ls') ++ ls' -> balanced (mkProgram (lib p) t' (connections p) ls').
Proof.
  intros Hb Hh. apply (balanced_extend p _ [] [] []); [done|by rewrite app_nil_r|done..|by left|by rewrite app_nil_r|by rewrite app_nil_r].
Qed.

(** A context is made, and kept or freed. *)
Lemma balanced_context p l t' ls' x' : balanced p -> calls x' = calls (lib p) ++ l -> next x' = next (lib p) + 1 -> ctx_made l = [next (lib p)] -> ssl_made l = [] -> ssl_freed l = [] ->
  held p ++ lost p ++ [next (lib p)] ≡ₚ ctx_freed l ++ held (mkProgram x' t' (connections p) ls') ++ ls' -> balanced (mkProgram x' t' (connections p) ls').
Proof.
  intros Hb Hc Hn Hd Hd' Hf Hh. apply (balanced_extend p _ l [next (lib p)] []); [done..|by right|done|]. by rewrite Hf, app_nil_r.
Qed.

Ltac extend l d d' := match goal with Hb : balanced ?p |- _ => apply (balanced_extend p _ l d d'); [exact Hb|cbn; by rewrite ?app_nil_r|done|done|..] end.

Lemma do_op_balanced o p p' : balanced p -> do_op o p = Some p' -> balanced p'.
Proof.
  intros Hb. destruct p as [x t ks ls]. destruct o as [cf kf m c k ch|ca m l| |m fd|i ret|i len n|i len n|i]; cbn [do_op context lib connections lost].
  - destruct t as [t|]; [|done]. cbn [mbind option_bind]. unfold init_server. destruct m; cbn [negb]; [|intros [= <-]; apply (balanced_inert (mkProgram x (Some t) ks ls)); [exact Hb|unfold held; cbn; by rewrite app_nil_r]].
    destruct c; [destruct k; [destruct ch|]|]; cbn [negb]; intros [= <-]; (eapply (balanced_context (mkProgram x (Some t) ks ls)); [exact Hb|reflexivity..|]); unfold held, displaced; cbn; destruct (ctx_ t); cbn; solve_Permutation.
  - destruct t as [t|]; [|done]. cbn [mbind option_bind]. unfold init_client. destruct m; cbn [negb]; [|intros [= <-]; apply (balanced_inert (mkProgram x (Some t) ks ls)); [exact Hb|unfold held; cbn; by rewrite app_nil_r]].
    case_bool_decide; [|destruct l; cbn [negb]]; intros [= <-]; (eapply (balanced_context (mkProgram x (Some t) ks ls)); [exact Hb|reflexivity..|]); unfold held, displaced; cbn; destruct (ctx_ t); cbn; solve_Permutation.
  - destruct t as [t|]; [|done]. cbn [mbind option_bind]. intros [= <-]. unfold destroy_context. destruct (ctx_ t) as [c|] eqn:E.
    + extend [CtxFree c] (@nil Z) (@nil Z); [by left|unfold held; cbn; rewrite E; cbn; by rewrite app_nil_r|cbn; by rewrite app_nil_r].
    + extend (@nil lib_call) (@nil Z) (@nil Z); [by left|unfold held; cbn; rewrite E; cbn; by rewrite app_nil_r|cbn; by rewrite app_nil_r].
  - destruct t as [t|]; [|done]. cbn [mbind option_bind]. unfold TlsConnection_init. destruct m; intros [= <-].
    + eapply (balanced_extend (mkProgram x (Some t) ks ls) _ _ [] [next x]); [exact Hb|cbn; reflexivity|reflexivity|reflexivity|right; done|cbn; solve_Permutation|cbn; by rewrite bind_app].
    + extend (@nil lib_call) (@nil Z) (@nil Z); [by left|cbn; solve_Permutation|cbn; by rewrite bind_app].
  - destruct t as [t|]; [|done]. cbn [mbind option_bind]. destruct (ks !! i) as [k|] eqn:Hi; [|done]. cbn [mbind option_bind]. unfold handshake.
    destruct (ssl_ k) as [s|] eqn:Es; [|intros [= <-]; extend (@nil lib_call) (@nil Z) (@nil Z); [by left|cbn; solve_Permutation|cbn; rewrite app_nil_r; by rewrite list_insert_id]].
    destruct (ret <=? 0); intros [= <-]; (apply (balanced_extend (mkProgram x (Some t) ks ls) _ [if is_server_ t then SslAccept s else SslConnect s] [] []);
      [exact Hb|done|by destruct (is_server_ t)..|by left|cbn; destruct (is_server_ t); cbn; solve_Permutation|]).
    all: cbn; rewrite app_nil_r; destruct (is_server_ t); cbn; symmetry; (apply (live_insert ks i k); [done|unfold live; cbn; by rewrite ?Es]).
  - destruct (ks !! i) as [k|] eqn:Hi; [|done]. cbn [mbind option_bind]. unfold read. intros [= <-]. destruct (ssl_ k) as [s|].
    + extend [SslRead s (i32 len)] (@nil Z) (@nil Z); [by left|cbn; solve_Permutation|cbn; by rewrite app_nil_r].
    + extend (@nil lib_call) (@nil Z) (@nil Z); [by left|cbn; solve_Permutation|cbn; by rewrite app_nil_r].
  - destruct (ks !! i) as [k|] eqn:Hi; [|done]. cbn [mbind option_bind]. unfold write. intros [= <-]. destruct (ssl_ k) as [s|].
    + extend [SslWrite s (i32 len)] (@nil Z) (@nil Z); [by left|cbn; solve_Permutation|cbn; by rewrite app_nil_r].
    + extend (@nil lib_call) (@nil Z) (@nil Z); [by left|cbn; solve_Permutation|cbn; by rewrite app_nil_r].
  - destruct (ks !! i) as [k|] eqn:Hi; [|done]. cbn [mbind option_bind]. unfold close. intros [= <-]. destruct (bind_insert live _ _ _ Hi) as (R & HR & HR'). destruct (ssl_ k) as [s|] eqn:Es.
    + extend [SslShutdown s; SslFree s] (@nil Z) (@nil Z); [by left|cbn; solve_Permutation|]. cbn. rewrite app_nil_r, HR, HR'. unfold live. cbn. by rewrite Es.
    + extend (@nil lib_call) (@nil Z) (@nil Z); [by left|cbn; solve_Permutation|]. cbn. rewrite app_nil_r, HR, HR'. unfold live. cbn. by rewrite Es.
Qed.

Lemma tls_run_balanced l p p' : balanced p -> run l p = Some p' -> balanced p'.
Proof.
  revert p. induction l as [|o l IH]; intros p Hb Hr; cbn in Hr; [by injection Hr as <-|]. destruct (do_op o p) as [p1|] eqn:E; [|done].
  eapply IH; [by eapply do_op_balanced|done].
Qed.

(** However a program uses one context and its connections, every object made is freed at
    most once; with the context destroyed and the connections closed, all are but the
    contexts a second initialisation has displaced. *)
Theorem tls_objects_freed_once l p : run l program_init = Some p ->
  NoDup (ctx_freed (calls (lib p))) /\ NoDup (ssl_freed (calls (lib p))) /\
  (context p = None -> ctx_made (calls (lib p)) ≡ₚ ctx_freed (calls (lib p)) ++ lost p) /\
  (Forall (fun k => ssl_ k = None) (connections p) -> ssl_made (calls (lib p)) ≡ₚ ssl_freed (calls (lib p))).
Proof.
  intros Hr. destruct (tls_run_balanced l _ p init_balanced Hr) as [H1 H2 [H3 _]]. apply NoDup_app in H3 as (Hc & _ & Hs). rewrite H1 in Hc. rewrite H2 in Hs.
  apply NoDup_app in Hc as (Hc & _). apply NoDup_app in Hs as (Hs & _). split_and!; [done..| |].
  - intros Hn. unfold held in H1. by rewrite Hn in H1.
  - intros Hk. rewrite H2. assert (connections p ≫= live = []) as ->; [|by rewrite app_nil_r]. revert Hk. clear. induction (connections p) as [|k ks IH]; [done|]. intros [Hk Hks]%Forall_cons. cbn. unfold live at 1. rewrite Hk. by apply IH.
Qed.

(** Initialised a second time, a context leaves the first behind: nothing can free it any
    more. *)
Theorem second_init_leaks ca1 ca2 l p c : run [InitClient ca1 true true] program_init = Some p -> c ∈ held p ->
  forall p1 p2, do_op (InitClient ca2 true true) p = Some p1 -> run l p1 = Some p2 -> c ∉ ctx_freed (calls (lib p2)).
Proof.
  intros Hr Hc p1 p2 H1 H2 Hf. assert (c ∈ lost p1) as Hl.
  { cbn in Hr. unfold init_client in Hr. cbn [negb] in Hr. assert (context p = Some (mkContext (Some c) false) /\ lost p = []) as [Ht Hls].
    { case_bool_decide; injection Hr as <-; cbn in *; apply list_elem_of_singleton in Hc as ->; done. }
    cbn [do_op] in H1. rewrite Ht in H1. cbn [mbind option_bind] in H1. unfold init_client in H1. cbn [negb] in H1. case_bool_decide; injection H1 as <-; cbn; rewrite Hls; by left. }
  assert (run ([InitClient ca1 true true; InitClient ca2 true true] ++ l) program_init = Some p2) as Hall.
  { cbn [app run]. cbn [run] in Hr. destruct (do_op (InitClient ca1 true true) program_init) as [q|]; [|done]. cbn [mbind option_bind] in *. injection Hr as ->. by rewrite H1. }
  destruct (tls_run_balanced _ _ p2 init_balanced Hall) as [Hb _ [Hn _]]. apply NoDup_app in Hn as (Hn & _). rewrite Hb in Hn. apply NoDup_app in Hn as (_ & Hd & _).
  apply (Hd c Hf). apply elem_of_app. right. clear Hb Hd Hall Hf.
  revert p1 Hl H1 H2. intros p1 Hl _. revert p1 Hl. induction l as [|o l IH]; intros p1 Hl H2; cbn in H2; [by injection H2 as <-|].
  destruct (do_op o p1) as [q|] eqn:E; [|done]. apply (IH q); [|done]. destruct p1 as [x t ks ls]. destruct o; cbn [do_op context connections lib lost] in *.
  1,2,3,4,5: destruct t as [t|]; [|done]; cbn [mbind option_bind] in E.
  1: destruct (init_server _ _ _ _ _ _ t x) as [[done_ t1] x1]. 2: destruct (init_client _ _ _ t x) as [[done_ t1] x1]. 4: destruct (TlsConnection_init _ _ t x) as [k x1].
  1,2: injection E as <-; cbn; apply elem_of_app; by left.
  1,2: by injection E as <-.
  all: destruct (ks !! i) as [k|]; [|done]; cbn [mbind option_bind] in E.
  1: destruct (handshake _ t k x) as [[b k1] x1]. 4: destruct (close k x) as [k1 x1].
  all: by injection E as <-.
Qed.

(** A client initialised without a file of authorities verifies nothing: neither
    the system's authorities are loaded nor the peer's certificate asked for, whatever its
    connections do. *)
Theorem client_without_ca_trusts_all l p c : run (InitClient [] true true :: l) program_init = Some p -> Forall (fun o => match o with InitServer _ _ _ _ _ _ | InitClient _ _ _ => False | _ => True end) l ->
  (SetVerifyPeer c ∉ calls (lib p)) /\ (forall ca, LoadVerifyLocations c ca ∉ calls (lib p)).
Proof.
  intros Hr Hl. assert (forall x, x ∈ calls (lib p) -> match x with SetVerifyPeer _ | LoadVerifyLocations _ _ => False | _ => True end) as Hall; [|split; [|intros ca]; intros H; by apply Hall in H].
  cbn [run] in Hr. assert (exists q, do_op (InitClient [] true true) program_init = Some q /\ calls (lib q) = [CtxNew 0 false]) as (q & Hq & Hc) by (eexists; split; [reflexivity|done]).
  rewrite Hq in Hr. cbn [mbind option_bind] in Hr. assert (Forall (fun x => match x with SetVerifyPeer _ | LoadVerifyLocations _ _ => False | _ => True end) (calls (lib q))) as Hs by (rewrite Hc; by repeat constructor).
  clear Hq Hc. apply Forall_forall. revert q Hr Hs. induction Hl as [|o l Ho _ IH]; intros q Hr Hs; cbn in Hr; [by injection Hr as <-|].
  destruct (do_op o q) as [q1|] eqn:E; [|done]. apply (IH q1); [done|]. destruct q as [x t ks ls]. destruct o; try done; cbn [do_op context connections lib lost] in *.
  1,2,3: destruct t as [t|]; [|done]; cbn [mbind option_bind] in E.
  1: injection E as <-; unfold destroy_context; destruct (ctx_ t); cbn; [apply Forall_app_2; [done|by repeat constructor]|done].
  1: unfold TlsConnection_init in E; destruct made; injection E as <-; cbn; [apply Forall_app_2; [done|by repeat constructor]|done].
  all: destruct (ks !! i) as [k|]; [|done]; cbn [mbind option_bind] in E.
  1: unfold handshake in E; destruct (ssl_ k); [destruct (ret <=? 0)|]; injection E as <-; cbn; [apply Forall_app_2; [done|destruct (is_server_ t); by repeat constructor]..|done].
  1,2: injection E as <-; unfold read, write; destruct (ssl_ k); cbn; [apply Forall_app_2; [done|by repeat constructor]|done].
  unfold close in E. injection E as <-. destruct (ssl_ k); cbn; [apply Forall_app_2; [done|by repeat constructor]|done].
Qed.

(** A connection whose TLS object could not be made -- on a context that was never
    initialised, say -- fails every handshake and read, asks nothing of the library and is
    never established; so is every connection of a build without OpenSSL. *)
Theorem no_ssl_inert fd t x ret len n : let '(k, x1) := TlsConnection_init false fd t x in
  x1 = x /\ handshake ret t k x = (false, k, x) /\ read len n k x = (-1, x) /\ write len n k x = (-1, x) /\ (close k x).2 = x /\ established_ k = false /\
  k = TlsConnection_unbuilt fd /\ close k x = (close_unbuilt k, x).
Proof. done. Qed.

(** ** Examples *)

Definition demo_program : list op := [InitClient [] true true; Open true 3; Handshake 0 1; Read 0 100 10; Close 0; DestroyContext].

Lemma tls_objects_freed_once_witness : exists p, run demo_program program_init = Some p /\ ctx_made (calls (lib p)) ≡ₚ ctx_freed (calls (lib p)) ++ lost p.
Proof.
  destruct (run demo_program program_init) as [p|] eqn:E; [|vm_compute in E; discriminate]. exists p. split; [reflexivity|].
  destruct (tls_objects_freed_once demo_program p E) as (_ & _ & H & _). apply H. vm_compute in E. injection E as <-. reflexivity.
Defined.

Lemma second_init_leaks_witness : exists p p1 p2, run [InitClient [] true true] program_init = Some p /\ do_op (InitClient [] true true) p = Some p1 /\
  run [DestroyContext] p1 = Some p2 /\ (0 ∉ ctx_freed (calls (lib p2))).
Proof.
  eexists _, _, _. split; [reflexivity|]. split; [reflexivity|]. split; [reflexivity|].
  refine (second_init_leaks [] [] [DestroyContext] _ 0 eq_refl _ _ _ eq_refl eq_refl). by left.
Defined.

Lemma client_without_ca_trusts_all_witness : exists p, run demo_program program_init = Some p /\ (SetVerifyPeer 0 ∉ calls (lib p)).
Proof.
  destruct (run demo_program program_init) as [p|] eqn:E; [|vm_compute in E; discriminate]. exists p. split; [reflexivity|].
  refine (proj1 (client_without_ca_trusts_all _ p 0 E _)). by repeat constructor.
Defined.
