(* ===== verification/Lifecycle.v ===== *)
(** * Lifecycle: opening, starting, stopping and starting again

    [TcpAcceptor] of net/posix_io.cpp with the descriptors it opens and closes; the threads and
    flags of a [Service] over any sequence of [start] and [stop] (service/service.h,
    tcp_server.cpp), where Server has one start.  What the kernel answers is an argument. *)

From S2P Require Import Prelude.
From S2P Require Import Protocol.
From S2P Require Import Wire.

(** ** Error codes *)

(** [strerror] is the C library's. *)
Definition error_message (strerror : Z -> str) (value : Z) : str := if value =? 0 then lit "Success" else strerror value.

(** ** TcpAcceptor *)

Inductive kernel_call := Opened (fd : Z) | Bound (fd : Z) | Listening (fd : Z) | Closed (fd : Z).

(** [fd], [bound], [listening]: what socket, bind and listen answer; the listening descriptor
    and the calls. *)
Definition TcpAcceptor (fd : option Z) (bound listening : bool) : option Z * list kernel_call :=
  match fd with
  | None => (None, [])
  | Some f =>
      if negb bound then (None, [Opened f; Closed f])
      else if listening then (Some f, [Opened f; Bound f; Listening f])
      else (None, [Opened f; Bound f; Closed f])
  end.

Definition TcpAcceptor_destroy (listen_fd : option Z) : list kernel_call := match listen_fd with Some f => [Closed f] | None => [] end.

(** [accept]: a socket, or an error code. *)
Definition TcpAcceptor_accept (answer : Z + Z) : option Z * Z := match answer with inl fd => (Some fd, 0) | inr e => (None, e) end.

(** An acceptor that is made and destroyed closes the descriptor it opened exactly once,
    whatever failed; it has one exactly when it listens. *)
Theorem acceptor_closes fd bound listening : let '(l, calls) := TcpAcceptor fd bound listening in
  omap (fun c => match c with Closed f => Some f | _ => None end) (calls ++ TcpAcceptor_destroy l) = option_list fd /\
  (is_Some l <-> exists f, Listening f ∈ calls).
Proof.
  unfold TcpAcceptor. destruct fd as [f|]; [destruct bound; [destruct listening|]|]; cbn; (split; [done|]); (split; [intros [x Hx]; try done|intros [x Hx]; try done]).
  1: exists f; apply elem_of_cons; right; apply elem_of_cons; right; by apply elem_of_cons; left.
  all: repeat (apply elem_of_cons in Hx as [Hx|Hx]; [done|]); by apply not_elem_of_nil in Hx.
Qed.

(** ** Service *)

Record service := mkService {
  listen_fd : option Z;
  wake_pipe_ : option (Z * Z);
  accepting : bool;                    (* [accept_thread_] is joinable *)
  server_stopped : bool;
  io_stopped : bool;
  io_threads : nat;                    (* in [IoService::run] *)
  terminated : bool
}.
Definition Service (fd : option Z) : service := mkService fd None false false false 0 false.

(** [start_accept] with what [pipe] answers; assigning to a joinable thread ends the program. *)
Definition start_accept (pipe : option (Z * Z)) (x : service) : service :=
  match listen_fd x, pipe with
  | None, _ | _, None => x
  | Some _, Some p =>
      mkService (listen_fd x) (Some p) true false (io_stopped x) (io_threads x) (accepting x)
  end.

(** [n] io threads; one that finds the flag set returns at once. *)
Definition start (n : nat) (pipe : option (Z * Z)) (x : service) : service :=
  let y := start_accept pipe x in
  if terminated y then y
  else mkService (listen_fd y) (wake_pipe_ y) (accepting y) (server_stopped y) (io_stopped y) (if io_stopped y then io_threads y else io_threads y + n) (terminated y).

(** [TcpServer::stop] returns when the accept thread has; [IoService::stop] ends every [run],
    those in a read loop when it is over. *)
Definition stop (x : service) : service :=
  let y := if server_stopped x then x
           else mkService (listen_fd x) None false true (io_stopped x) (io_threads x) (terminated x) in
  mkService (listen_fd y) (wake_pipe_ y) (accepting y) (server_stopped y) true 0 (terminated y).

Inductive op := Start (n : nat) (pipe : option (Z * Z)) | Stop.
Definition do_op (x : service) (o : op) : service := if terminated x then x else match o with Start n p => start n p x | Stop => stop x end.

(** Somebody accepts, nobody serves. *)
Definition deaf (x : service) : Prop := accepting x = true /\ io_threads x = 0%nat.

Lemma io_stays_stopped l x : io_stopped x = true -> io_threads x = 0%nat -> io_stopped (foldl do_op x l) = true /\ io_threads (foldl do_op x l) = 0%nat.
Proof.
  revert x. induction l as [|o l IH]; intros x H1 H2; [done|]. cbn [foldl]. apply IH; unfold do_op; destruct (terminated x); try done; destruct o as [n p|]; unfold start, stop, start_accept; try done.
  - by destruct (listen_fd x), p; cbn; destruct (terminated x), (accepting x); cbn; rewrite ?H1.
  - by destruct (listen_fd x), p; cbn; destruct (terminated x), (accepting x); cbn; rewrite ?H1.
Qed.

(** A service that was stopped cannot serve again: started once more it accepts clients,
    but every io thread returns at once, whatever is done afterwards. *)
Theorem restarted_service_deaf fd n pipe n' pipe' l :
  let x := foldl do_op (Service (Some fd)) [Start n (Some pipe); Stop; Start n' (Some pipe')] in
  deaf x /\ terminated x = false /\ io_threads (foldl do_op x l) = 0%nat.
Proof. cbv zeta. split; [by split|]. split; [done|]. by apply io_stays_stopped. Qed.

(** Started twice, a service ends the program; started without having been able to listen
    or to make its pipe it runs its io threads and serves nobody, without a word to the
    caller, and can be stopped. *)
Theorem start_unchecked fd n n' p p' : terminated (foldl do_op (Service (Some fd)) [Start n (Some p); Start n' (Some p')]) = true /\
  forall x, x = start n (Some p) (Service None) \/ x = start n None (Service (Some fd)) ->
    io_threads x = n /\ accepting x = false /\ terminated (stop x) = false /\ io_threads (stop x) = 0%nat.
Proof. split; [done|]. by intros x [-> | ->]. Qed.
